(* ===== verification/_CoqProject ===== *)
-Q . S2P
Prelude.v
GoJson.v
Billing.v
GenModels.v
WorkflowStore.v
Samples.v
WorkflowStoreProps.v
WorkflowRuns.v
Barrier.v
BarrierProps.v
ProviderPolicy.v
Finalization.v
Steps.v
FinalizationProps.v
Adapters.v
CompensationProps.v
LifecycleWorker.v
Relay.v
LifecycleProps.v
RuntimeProps.v
RelayProps.v
WorkerRuns.v
SessionModels.v
SessionStore.v
SessionEffects.v
SessionInv.v
SessionOps.v
SessionProps.v
SessionRuns.v
SessionDiscovery.v
SessionManager.v
SessionManagerProps.v
SessionWitness.v
ApprovalModels.v
ApprovalStore.v
ApprovalProps.v
ApprovalRuns.v
StoryboardModels.v
StoryboardGraph.v
StoryboardCommand.v
StoryboardRevision.v
StoryboardStore.v
StoryboardValid.v
StoryboardProps.v
StoryboardRuns.v
StoryboardPlans.v
StoryboardWitness.v
Timed.v
SpecStore.v
SpecProps.v
ArtifactStore.v
ArtifactProps.v
ApprovalRuntime.v
ApprovalBatch.v
ApprovalRelay.v
ApprovalMoves.v
ApprovalRuntimeProps.v
ApprovalSagaProps.v
ApprovalRuntimeWitness.v
Bindings.v
BindingProps.v
BindingWitness.v
EventLog.v
EventLogProps.v
EventRelay.v
EventRelayProps.v
EventWitness.v
