(* ===== verification/Prelude.v ===== *)
(** * A verification of the AIGC agent's runtimes

    The program under [src/] is a Go server for an agent that produces media.
    Its core is two runtimes and the documents they work on.  The session runtime keeps an inbox for each chat
    session and lets one worker at a time take the inputs of a session to a turn of
    the agent.  The generation runtime carries out what the agent orders: a client creates a workflow (an
    operation, a batch and its jobs), workers carry each job through a provider,
    finalization charges the user and delivers the result, a barrier closes the
    batch when all its jobs are settled, refunds are paid for jobs that were
    charged and not delivered, and an outbox announces everything.  What is
    produced belongs to a storyboard, a versioned plan of targets, prompts and
    asset slots with dependencies between them; approvals hold what waits for
    the user's review, and the approval runtime carries out what is decided on specs, storyboards
    and artifacts.  The clients of a session follow it in a log of events.  The development models that core as it is written and
    proves what makes it correct.

    ** Parts and files

    - [Prelude]: the Go values the code uses -- strings with [TrimSpace],
      [ToLower] and [Contains] on bytes, [int64] arithmetic with its wrap-around
      ([wrap64], [incr]), times as nanoseconds in [Z], errors with their chain
      ([errors_Is], [errors_Join], the [ExecutionError] inside), the state monad
      [Eff] with [let*], [try*] and [check], record updates, sorting -- and the lemmas
      and tactics shared by all files.  [GoJson]: [map[string]any] and its copies,
      slices, [reflect.DeepEqual] and ranges over maps ([MapRange]: any order).
    - [Billing] ([internal/aigc/billing/models.go], [memory_store.go]): the ledger of
      points; accounts, idempotent credits, charges and refunds.
    - [GenModels] ([internal/aigc/generation/models.go], [state_machine.go]): the
      records and the transition tables.
    - [WorkflowStore] ([workflow_store.go], [request_fingerprint.go]): the in-memory
      store of operations, batches, jobs and the outbox.  A [world] is the store
      and an [env] (readings of the clock, identifiers drawn, the outside world
      [X]).  [WorkflowStoreProps] has its invariant and what every command does;
      [WorkflowRuns] the theorems about runs of commands.  [Samples]: sample data.
    - [Barrier] ([barrier.go], [command.go]): the batch barrier and the command service.
      [BarrierProps]: their theorems.
    - [ProviderPolicy] ([provider_policy.go], the errors of [finalization.go]): the
      validation of provider jobs and the classification of errors.
    - [Finalization] ([finalization.go]): the finalization engine and the
      compensation service.  The services it calls are parameters.  [Concurrency]
      lets other workers act before each call of the store.  [Steps] has the two
      proof rules for handlers ([moves], [answers]), [FinalizationProps] the theorems.
    - [Adapters] ([internal/aigc/generationruntime/adapters.go]): the billing gateway
      over the ledger and the cost calculator.  [CompensationProps]: refunds from
      the compensation service down to the ledger.
    - [LifecycleWorker] ([lifecycle_worker.go], [legacy_provider_adapter.go]): one
      wake-up of a job.  [LifecycleProps], [WorkerRuns]: its theorems and concrete
      runs.
    - [Relay] ([outbox_dispatcher.go], [recovery_scheduler.go], [dispatcher.go]):
      delivery of events and wake-ups.  [RelayProps]: its theorems.
    - [RuntimeProps]: all handlers of the generation runtime as one transition
      system.
    - [SessionModels] ([internal/aigc/sessionruntime/models.go], [store.go],
      [terminal_event.go]): inputs, leases, turns, continuations, their encoding.
    - [SessionStore] ([memory_store.go]): the in-memory store of the session
      runtime; the lane of inputs, runtime leases and fences, turns, approval
      continuations.  A state is an [sworld].  [SessionEffects] says by which
      elementary changes ([effect]) the methods act and states the invariant
      ([session_inv]); [SessionInv] shows that effects keep it, [SessionOps] that every
      method is a sequence of them, [SessionProps] turns this into facts about runs
      ([session_reachable], [session_future]).  [SessionRuns], [SessionDiscovery]: the
      theorems about the store.
    - [SessionManager] ([manager.go]): the manager's lanes over the store.
      [SessionManagerProps]: a small program logic ([triple]) for computations that
      act through the store's commands, and the theorems about the manager.
      [SessionWitness]: concrete runs.
    - [ApprovalModels] ([internal/aigc/approval/models.go], [store.go],
      [candidate_batch.go]): approvals, decisions, frozen commands and bindings.
      [ApprovalStore] ([memory_store.go]): the in-memory store with its
      continuations and outbox.  [ApprovalProps] has its invariant and the elementary
      changes, [ApprovalRuns] the theorems and concrete runs.
    - [StoryboardModels] ([internal/aigc/storyboard/aggregate.go],
      [generation_input.go]): the aggregate, the JSON texts that are fingerprinted
      ([Digest]) and the input of a generation.  [StoryboardGraph]: the check
      of the dependencies and the closure of a change ([revision.go], [command.go]).
      [StoryboardCommand] ([command.go]), [StoryboardRevision] ([revision.go]): the
      commands on the aggregate, reconciliation and validation of plans.
      [StoryboardStore] ([repository.go], [command_service.go]): the in-memory
      repository and the service.  [StoryboardValid]: plans that pass validation;
      [StoryboardProps]: what every command does to bindings and plans;
      [StoryboardRuns], [StoryboardPlans]: the theorems about runs of the service and
      about assets and plans; [StoryboardWitness]: a concrete storyboard.
    - [Timed]: stores that need only their maps and a clock.  [SpecStore]
      ([internal/aigc/spec/models.go], [memory_store.go]): the specs of a video;
      [ArtifactStore] ([internal/aigc/artifact/models.go], [memory_store.go]): the
      revisions of artifacts and the receipts of their reviews.  [SpecProps],
      [ArtifactProps]: their invariants and theorems.
    - [ApprovalRuntime] ([internal/aigc/approvalruntime/service.go]): deciding an
      approval and applying its continuation, over the stores of approvals, sessions,
      specs, artifacts and storyboards; a state is an [rworld], and other processes
      ([Actors]) act before every call of a store.  [ApprovalBatch]
      ([candidate_batch.go]): approving all candidates of a storyboard.
      [ApprovalRelay] ([relay.go]): the relay of the approval outbox.  [ApprovalMoves]
      says by which steps of which stores a computation acts ([move], [does]);
      [ApprovalRuntimeProps], [ApprovalSagaProps]: the theorems;
      [ApprovalRuntimeWitness]: concrete runs.
    - [Bindings] ([internal/aigc/generationruntime/adapters.go]): what finalization
      calls to deliver a result -- the check of its token, the delivery, the question
      whether it has happened, the withdrawal -- in the world of the approval runtime, with the
      table of assets outside ([AssetStore]), and the recovery of a provider's result.
      [BindingProps]: the theorems; [BindingWitness]: a concrete delivery.
    - [EventLog] ([internal/aigc/events/models.go], [memory_store.go]): the log of
      what the clients of a session are shown, and [EventRelay] ([relay.go]): the relay
      that sends it to a client, and the notification hub.  [EventLogProps],
      [EventRelayProps]: their theorems; [EventWitness]: a concrete log.

    A method of the code is a definition with the same name; a closure handed to
    the store is a [JobMutation] or a [BatchTransaction]; a long method is cut into
    definitions that follow its blocks ([finalize_check], [finalize_charge], ...).

    ** What is shown

    - The ledger: the balance of every account is its opening balance plus its
      transactions, never negative, refunds never exceed their charge, replays
      change nothing.  Two inputs outside the stated use break this and are proved
      to ([refund_id_reuse_exceeds_charge], [refund_overflow_accepted]).
    - The store: an invariant of all reachable stores; commands that fail change
      nothing; compare-and-set on the version; statuses follow the tables; every
      public change is announced; the outbox is append-only; creation and its
      replay.
    - The barrier: a batch is finalized exactly when its jobs are terminal and
      settled, once, with the sum of their costs; cancellation reaches every job.
    - Finalization, worker and compensation: answers without an error are settled
      or released jobs; a refund is paid in full and once; jobs that must not run
      are left alone.  Two runs lose the refund of a charged job
      ([unregistered_provider_loses_the_refund], [failed_recharge_loses_the_refund]).
    - Delivery: a round of the relay publishes what is due, the scheduler wakes
      every due job and agrees with the worker on what that is.
    - The whole: every run of the handlers is a run of the store's commands
      ([runtime_refines_store]).
    - Sessions: one started input and one claim per session, in the order of
      priority and arrival; a fence that has been overtaken is refused for ever;
      enqueueing is idempotent and what is enqueued is what is decoded; what has
      ended stays and dead inputs are announced once; discovery misses no session
      and a discovered one is served; continuations are applied once.  The manager
      only acts through the store ([manager_refines_store]) and leaves no input
      claimed that it has taken up without an error ([drain_settles]).
    - Approvals: decided once, in time, on what was reviewed; one pending primary
      review per session; the durable fallback fences the runner.
    - Storyboards: plans that are accepted are exactly the well-formed acyclic ones;
      ids stay apart and locked prompts survive a new plan; a change makes
      exactly what is downstream stale; a command is carried out once; bindings go
      forward, one active per slot; generated media always enters review, is
      activated only on the input it was made from, and is carried into a new plan only where
      nothing has changed; a plan under review changes nothing of the plan
      in use, and promotion puts in use what was reviewed.  A repeated proposal
      of a plan is refused ([repeated_plan_conflicts]).
    - Specs and artifacts: one spec under review per session, decisions stand;
      a review is applied once, on the latest revision, under its key for ever.
    - The approval runtime: seen from each store it is a run of that store's
      commands ([approval_runtime_refines_stores]); a frozen command that has taken effect is
      found and not run again; a continuation is applied and told before it is
      reported as applied; a batch is frozen and its answer exact; the relay waits for a
      continuation that another owner holds.
    - Delivery of media: a delivery that has been carried out is recognised ever after
      and only what is on record is recognised; a stale result delivers nothing; a
      recovered result has the first usable asset of each index
      ([recovery_takes_first_of_each_index]).
    - Events: appended once, numbered without gaps, read page by page; a client is sent
      its events in order and a relay that is left alone catches up.

    ** Bounds and fuel

    Loops of the code are structural recursions over lists, over the four
    attempts of the two compare-and-set loops ([freeze_quote 4], [record_charge 4])
    over the ticks of a heartbeat and over the events a lane receives; trimming
    recurses on the string.  The loop of [ClaimNext] has a fuel of one more than the
    number of inputs ([claim_fuel]); each of its rounds kills an input, and
    [claim_next_contract] shows that the fuel is never used up.  Kahn's loop has a
    fuel of one more than the number of targets, the closure of a change of two
    more than the number of dependencies and the search for a free suffix of the
    number of ids in use; [sort.Search] of the number of rows
    ([sort_Search_spec]).  [TailRelay.Relay] never ends: its model is the first
    [rounds] rounds, for every number of them.  [dag_check_spec], [markDependencyClosure_spec] and
    [uniqueStableID_spec] show that they suffice.  Theorems about runs
    of the session store are for runs of fewer than [int64_max] steps, within which
    its counters cannot overflow.  Integers
    are in [Z] and wrapped to 64 bits where the code computes on [int] or [int64].
    Times are not wrapped: [time.Time] does not overflow in the range of the code.

    ** What is not modelled

    The Postgres and Redis implementations (SQL and network calls behind the same
    interfaces), the HTTP server, the language-model agent and its tools, the
    database transaction around [commit] and the projection of finalized jobs
    in [adapters.go], the outbox router, and the ticker
    loops around the relays ([RunRelay], [TailRelay.Subscribe]).
    The digest of a request, SHA-256, the order in which maps are walked and the
    JSON codecs of session inputs and continuations are parameters.  The manager's goroutines,
    tickers and timers are given by what they deliver.  Cancellation of a [context.Context] is not
    modelled: the in-memory store ignores it, and the providers, which may heed it,
    answer arbitrarily.  The heartbeat's ticks are placed before and after the call
    they protect; in between they are among the acts of other workers. *)

From Stdlib Require Import ZArith Lia Ascii Sorted OrdersEx.
From stdpp Require Export base gmap strings list pretty.

#[global] Open Scope Z_scope.

(** ** Results and errors

    A Go [error] is kept as what the code observes of it: its text
    ([Error()]), the sentinels that [errors.Is] finds in its chain and the
    [*ExecutionError] that [errors.As] finds first.  A sentinel is named by the
    text it was declared with; the texts are pairwise different. *)

Record exec_info := mkExec {
  exec_stage : string;
  exec_code : string;
  exec_retryable : bool
}.

Record error := mkError {
  err_text : string;
  err_is : list string;
  err_exec : option exec_info
}.

#[global] Instance exec_info_eq_dec : EqDecision exec_info.
Proof. solve_decision. Defined.
#[global] Instance error_eq_dec : EqDecision error.
Proof. solve_decision. Defined.

Inductive result (A : Type) : Type :=
| Ok (a : A)
| Err (e : error).
Arguments Ok {A} a.
Arguments Err {A} e.

(** [errors.New] at package level, [fmt.Errorf] without and with [%w]. *)
Definition errors_New (text : string) : error := mkError text [text] None.
Definition Errorf (text : string) : error := mkError text [] None.
Definition Wrapf (before : string) (e : error) (after : string) : error :=
  mkError (before +:+ err_text e +:+ after) (err_is e) (err_exec e).

Definition errors_Is (e target : error) : bool :=
  existsb (fun s => bool_decide (s ∈ err_is e)) (err_is target).

Definition errors_Join (e1 e2 : error) : error :=
  mkError (err_text e1 +:+ String (ascii_of_nat 10) (err_text e2))
          (err_is e1 ++ err_is e2)
          (match err_exec e1 with Some x => Some x | None => err_exec e2 end).

Declare Scope go_scope.
Delimit Scope go_scope with go.

(** [x, err := c; if err != nil { return zero, err }; k]. *)
Notation "'try' x ':=' c 'in' k" :=
  (match c with Ok x => k | Err e => Err e end)
  (at level 10, x name, c at level 100, k at level 200) : go_scope.
#[global] Open Scope go_scope.

(** ** Machine integers: Go's [int] and [int64] are 64 bits wide. *)

Definition int64_min : Z := - 2 ^ 63.
Definition int64_max : Z := 2 ^ 63 - 1.
Definition wrap64 (z : Z) : Z := (z + 2 ^ 63) mod 2 ^ 64 - 2 ^ 63.
Definition in_int64 (z : Z) : Prop := int64_min <= z <= int64_max.

Lemma wrap64_range z : in_int64 (wrap64 z).
Proof.
  unfold in_int64, wrap64, int64_min, int64_max.
  pose proof (Z.mod_pos_bound (z + 2 ^ 63) (2 ^ 64)). lia.
Qed.

Lemma wrap64_id z : in_int64 z → wrap64 z = z.
Proof.
  unfold in_int64, wrap64, int64_min, int64_max. intros H.
  rewrite Z.mod_small; lia.
Qed.

Lemma wrap64_idemp z : wrap64 (wrap64 z) = wrap64 z.
Proof. apply wrap64_id, wrap64_range. Qed.

(** [v++] on an [int]. *)
Definition incr (z : Z) : Z := wrap64 (z + 1).

Lemma incr_small z : 0 <= z < int64_max → incr z = z + 1.
Proof. intros H. unfold incr. apply wrap64_id. unfold in_int64, int64_min, int64_max in *. lia. Qed.

(** ** Time: [time.Time] as nanoseconds, the zero [Time] as [0]. *)

Definition Time := Z.
Definition zeroTime : Time := 0.
Definition IsZero (t : Time) : bool := t =? 0.
Definition After (t u : Time) : bool := u <? t.
Definition second : Z := 1000000000.

(** The readings of the clock, numbered from the start of the program. *)
Class Clock := now_at : nat → Time.

Definition timeOr (value fallback : Time) : Time :=
  if IsZero value then fallback else value.

(** ** Strings

    A Go string is its bytes.  [unicode.IsSpace] holds of the runes whose
    UTF-8 encodings [space_encodings] lists, so [strings.TrimSpace] drops
    these byte sequences from both ends. *)

Definition bytes (l : list nat) : list ascii := ascii_of_nat <$> l.

Definition space_encodings : list (list ascii) :=
  bytes <$> ([[9]; [10]; [11]; [12]; [13]; [32];
    [0xC2; 0x85]; [0xC2; 0xA0]; [0xE1; 0x9A; 0x80];
    [0xE2; 0x80; 0x80]; [0xE2; 0x80; 0x81]; [0xE2; 0x80; 0x82]; [0xE2; 0x80; 0x83];
    [0xE2; 0x80; 0x84]; [0xE2; 0x80; 0x85]; [0xE2; 0x80; 0x86]; [0xE2; 0x80; 0x87];
    [0xE2; 0x80; 0x88]; [0xE2; 0x80; 0x89]; [0xE2; 0x80; 0x8A];
    [0xE2; 0x80; 0xA8]; [0xE2; 0x80; 0xA9]; [0xE2; 0x80; 0xAF];
    [0xE2; 0x81; 0x9F]; [0xE3; 0x80; 0x80]])%nat.

Fixpoint drop_prefix (p l : list ascii) : option (list ascii) :=
  match p, l with
  | [], _ => Some l
  | a :: p', b :: l' => if Ascii.eqb a b then drop_prefix p' l' else None
  | _ :: _, [] => None
  end.

Fixpoint strip_one (encs : list (list ascii)) (l : list ascii) : option (list ascii) :=
  match encs with
  | [] => None
  | p :: encs' =>
      match drop_prefix p l with
      | Some l' => Some l'
      | None => strip_one encs' l
      end
  end.

Fixpoint strip_all (fuel : nat) (encs : list (list ascii)) (l : list ascii) : list ascii :=
  match fuel with
  | O => l
  | S fuel' =>
      match strip_one encs l with
      | Some l' => strip_all fuel' encs l'
      | None => l
      end
  end.

Definition TrimBytes (l : list ascii) : list ascii :=
  let l1 := strip_all (length l) space_encodings l in
  reverse (strip_all (length l1) (reverse <$> space_encodings) (reverse l1)).

Definition TrimSpace (s : string) : string :=
  String.string_of_list_ascii (TrimBytes (String.list_ascii_of_string s)).

Definition blank (s : string) : bool := bool_decide (TrimSpace s = "").

(** [strings.HasPrefix], [strings.Contains] and, on ASCII letters,
    [strings.ToLower]. *)
Definition HasPrefix (s p : string) : bool := String.prefix p s.

Fixpoint Contains (s sub : string) : bool :=
  String.prefix sub s ||
  match s with
  | EmptyString => false
  | String _ s' => Contains s' sub
  end.

Definition lower_ascii (a : ascii) : ascii :=
  let n := nat_of_ascii a in
  if (65 <=? n)%nat && (n <=? 90)%nat then ascii_of_nat (n + 32) else a.

Fixpoint ToLower (s : string) : string :=
  match s with
  | EmptyString => EmptyString
  | String a s' => String (lower_ascii a) (ToLower s')
  end.

(** [%q], that is [strconv.Quote], on printable text: bytes above 0x7F belong
    to a printable rune and are kept. *)
Definition hex_digit (n : nat) : ascii :=
  ascii_of_nat (if (n <? 10)%nat then 48 + n else 87 + n).

Definition quote_byte (a : ascii) : string :=
  let n := nat_of_ascii a in
  let esc c := String "092" (String c "") in
  match n with
  | 7%nat => esc "a"%char | 8%nat => esc "b"%char | 9%nat => esc "t"%char
  | 10%nat => esc "n"%char | 11%nat => esc "v"%char | 12%nat => esc "f"%char
  | 13%nat => esc "r"%char | 34%nat => esc a | 92%nat => esc a
  | _ =>
      if (n <? 32)%nat || (n =? 127)%nat
      then String "092" (String "x" (String (hex_digit (n / 16)) (String (hex_digit (n mod 16)) "")))
      else String a ""
  end.

Fixpoint quote_bytes (s : string) : string :=
  match s with
  | EmptyString => EmptyString
  | String a s' => quote_byte a +:+ quote_bytes s'
  end.

Definition Quote (s : string) : string :=
  String "034" (quote_bytes s +:+ String "034" "").

Definition valueOrDefault (value fallback : string) : string :=
  let value := TrimSpace value in
  if bool_decide (value = "") then fallback else value.

(** *** Facts about trimming *)

Lemma drop_prefix_app p l l' : drop_prefix p l = Some l' ↔ l = p ++ l'.
Proof.
  revert l. induction p as [|a p IH]; intros l; simpl; [naive_solver|].
  destruct l as [|b l]; [naive_solver|].
  destruct (Ascii.eqb_spec a b) as [->|Hne]; [rewrite IH|]; naive_solver.
Qed.

Lemma strip_one_Some encs l l' :
  strip_one encs l = Some l' → ∃ p, p ∈ encs ∧ l = p ++ l'.
Proof.
  induction encs as [|p encs IH]; simpl; [done|].
  destruct (drop_prefix p l) as [l0|] eqn:E.
  - intros [= ->]. exists p. apply drop_prefix_app in E. split; [left|done].
  - intros H. destruct (IH H) as (q & ? & ?). exists q. split; [by right|done].
Qed.

Lemma strip_one_None encs l :
  strip_one encs l = None ↔ ∀ p l', p ∈ encs → l ≠ p ++ l'.
Proof.
  induction encs as [|p encs IH]; simpl.
  - split; [intros _ p l' H; by apply elem_of_nil in H|done].
  - destruct (drop_prefix p l) as [l0|] eqn:E.
    + apply drop_prefix_app in E as ->. split; [done|].
      intros H. exfalso. by eapply (H p l0); [left|].
    + rewrite IH. split.
      * intros H q l' [->|Hq]%elem_of_cons; [|by apply H].
        intros ->. by rewrite (proj2 (drop_prefix_app p _ l')) in E.
      * intros H q l' Hq. apply H. by right.
Qed.

(** Stripping consumes at least a byte a round when no encoding is empty, so
    the length of the input is fuel enough. *)
Lemma strip_all_done encs fuel l :
  [] ∉ encs → (length l ≤ fuel)%nat → strip_one encs (strip_all fuel encs l) = None.
Proof.
  intros Hne. revert l. induction fuel as [|fuel IH]; intros l Hl; simpl.
  - apply strip_one_None. intros p l' Hp ->.
    destruct p; [done|simpl in Hl; lia].
  - destruct (strip_one encs l) as [l'|] eqn:E; [|done].
    apply IH. apply strip_one_Some in E as (p & Hp & ->).
    destruct p; [done|]. rewrite length_app in Hl. simpl in Hl. lia.
Qed.

Lemma strip_all_suffix encs fuel l : ∃ k, l = k ++ strip_all fuel encs l.
Proof.
  revert l. induction fuel as [|fuel IH]; intros l; simpl; [by exists []|].
  destruct (strip_one encs l) as [l'|] eqn:E; [|by exists []].
  apply strip_one_Some in E as (p & _ & ->). destruct (IH l') as [k Hk].
  exists (p ++ k). rewrite <-app_assoc. by rewrite <-Hk.
Qed.

Lemma strip_all_stable encs fuel l : strip_one encs l = None → strip_all fuel encs l = l.
Proof. destruct fuel; simpl; [done|]. by intros ->. Qed.

Lemma strip_one_suffix_None encs k l :
  strip_one encs (l ++ k) = None → strip_one encs l = None.
Proof.
  rewrite !strip_one_None. intros H p l' Hp ->. apply (H p (l' ++ k) Hp).
  by rewrite app_assoc.
Qed.

Lemma space_encodings_nonempty : [] ∉ space_encodings.
Proof. apply (bool_decide_unpack _). vm_compute. exact I. Qed.

Lemma space_encodings_rev_nonempty : [] ∉ reverse <$> space_encodings.
Proof. apply (bool_decide_unpack _). vm_compute. exact I. Qed.

Definition trimmed_bytes (l : list ascii) : Prop :=
  strip_one space_encodings l = None ∧ strip_one (reverse <$> space_encodings) (reverse l) = None.

Lemma TrimBytes_trimmed l : trimmed_bytes (TrimBytes l).
Proof.
  unfold TrimBytes. set (l1 := strip_all (length l) space_encodings l).
  set (r := strip_all (length l1) (reverse <$> space_encodings) (reverse l1)).
  split; [|rewrite reverse_involutive].
  - destruct (strip_all_suffix (reverse <$> space_encodings) (length l1) (reverse l1)) as [k Hk].
    fold r in Hk. apply (strip_one_suffix_None _ (reverse k)).
    rewrite <-reverse_app, <-Hk, reverse_involutive.
    apply strip_all_done; [apply space_encodings_nonempty|done].
  - apply strip_all_done; [apply space_encodings_rev_nonempty|].
    by rewrite length_reverse.
Qed.

Lemma TrimBytes_id l : trimmed_bytes l → TrimBytes l = l.
Proof.
  intros [H1 H2]. unfold TrimBytes.
  rewrite (strip_all_stable _ _ _ H1), (strip_all_stable _ _ _ H2).
  apply reverse_involutive.
Qed.

Lemma TrimSpace_idem s : TrimSpace (TrimSpace s) = TrimSpace s.
Proof.
  unfold TrimSpace. rewrite String.list_ascii_of_string_of_list_ascii.
  f_equal. apply TrimBytes_id, TrimBytes_trimmed.
Qed.

(** A string that begins and ends with a byte of no encoding is left alone:
    the keys the code builds from literals and identifiers are of this kind. *)
Definition firm_byte (a : ascii) : bool :=
  forallb (fun p => negb (bool_decide (head p = Some a)) && negb (bool_decide (last p = Some a)))
          space_encodings.

Definition firm_key (p q : string) : bool :=
  match head (String.list_ascii_of_string p), last (String.list_ascii_of_string q) with
  | Some a, Some b => firm_byte a && firm_byte b
  | _, _ => false
  end.

Lemma firm_byte_spec a p :
  firm_byte a = true → p ∈ space_encodings → head p ≠ Some a ∧ last p ≠ Some a.
Proof.
  unfold firm_byte. rewrite forallb_forall. intros H Hp.
  apply list_elem_of_In, H, andb_prop in Hp as [H1 H2].
  rewrite negb_true_iff in H1, H2. by rewrite bool_decide_eq_false in H1, H2.
Qed.

Lemma list_ascii_of_string_app s t :
  String.list_ascii_of_string (s +:+ t)
  = String.list_ascii_of_string s ++ String.list_ascii_of_string t.
Proof. induction s as [|a s IH]; simpl; [done|]. by rewrite IH. Qed.

Lemma head_strip_None a l :
  firm_byte a = true → strip_one space_encodings (a :: l) = None.
Proof.
  intros Ha. apply strip_one_None. intros p l' Hp Heq.
  destruct (firm_byte_spec a p Ha Hp) as [Hh _].
  destruct p as [|c p]; [by apply space_encodings_nonempty in Hp|].
  by simplify_list_eq.
Qed.

Lemma last_strip_None b l :
  firm_byte b = true → strip_one (reverse <$> space_encodings) (reverse (l ++ [b])) = None.
Proof.
  intros Hb. apply strip_one_None. intros q l' [p [-> Hp]]%list_elem_of_fmap Heq.
  destruct (firm_byte_spec b p Hb Hp) as [_ Hl].
  rewrite reverse_snoc in Heq.
  destruct p as [|c p _] using rev_ind; [by apply space_encodings_nonempty in Hp|].
  rewrite reverse_snoc in Heq. rewrite last_snoc in Hl. by simplify_list_eq.
Qed.

Lemma TrimSpace_firm p m q :
  firm_key p q = true → TrimSpace (p +:+ m +:+ q) = p +:+ m +:+ q.
Proof.
  unfold firm_key. intros H.
  destruct (head (String.list_ascii_of_string p)) as [a|] eqn:Ea; [|done].
  destruct (last (String.list_ascii_of_string q)) as [b|] eqn:Eb; [|done].
  apply andb_prop in H as [Ha Hb].
  apply head_Some in Ea as [p' Ep]. apply last_Some in Eb as [q' Eq].
  unfold TrimSpace. rewrite TrimBytes_id; [apply String.string_of_list_ascii_of_string|].
  rewrite !list_ascii_of_string_app, Ep, Eq. split.
  - by apply head_strip_None.
  - rewrite (app_assoc _ q' [b]), (app_assoc _ _ [b]). by apply last_strip_None.
Qed.

Lemma TrimSpace_empty : TrimSpace "" = "".
Proof. reflexivity. Qed.

(** Lower-casing what is trimmed leaves it trimmed. *)
Lemma lower_ascii_idem a : lower_ascii (lower_ascii a) = lower_ascii a.
Proof. destruct a as [[] [] [] [] [] [] [] []]; vm_compute; reflexivity. Qed.

Lemma ToLower_idem s : ToLower (ToLower s) = ToLower s.
Proof. induction s as [|a s IH]; cbn; [done|]. by rewrite lower_ascii_idem, IH. Qed.

Lemma ToLower_list s :
  String.list_ascii_of_string (ToLower s) = lower_ascii <$> String.list_ascii_of_string s.
Proof. induction s as [|a s IH]; cbn; [done|]. by rewrite IH. Qed.

(** No letter occurs in the encoding of a space. *)
Lemma lower_space_byte p a : p ∈ space_encodings → lower_ascii a ∈ p → lower_ascii a = a.
Proof.
  intros Hp Ha.
  assert (forallb (fun p => forallb (fun b => negb ((97 <=? nat_of_ascii b)%nat && (nat_of_ascii b <=? 122)%nat)) p) space_encodings = true)
    as H by (vm_compute; reflexivity).
  rewrite forallb_forall in H. specialize (H p). rewrite <-list_elem_of_In in H. specialize (H Hp).
  rewrite forallb_forall in H. specialize (H (lower_ascii a)). rewrite <-list_elem_of_In in H. specialize (H Ha).
  destruct a as [[] [] [] [] [] [] [] []]; try reflexivity; vm_compute in H; discriminate H.
Qed.

Lemma lower_spaces p l' l : p ∈ space_encodings → lower_ascii <$> l = p ++ l' → ∃ k, l = p ++ k.
Proof.
  intros Hp E. apply fmap_app_inv in E as (l1 & l2 & E & _ & ->). exists l2. f_equal.
  assert (Hall : ∀ a, a ∈ l1 → lower_ascii a = a).
  { intros a Ha. eapply lower_space_byte; [exact Hp|]. rewrite E. by apply list_elem_of_fmap_2. }
  rewrite E. clear E. induction l1 as [|a l1 IH]; cbn; [done|].
  rewrite (Hall a) by left. f_equal. apply IH. intros b Hb. apply Hall. by right.
Qed.

Lemma lower_spaces_end p l' l : p ∈ space_encodings → lower_ascii <$> l = l' ++ p → ∃ k, l = k ++ p.
Proof.
  intros Hp E. apply fmap_app_inv in E as (l1 & l2 & _ & E & ->). exists l1. f_equal.
  assert (Hl : lower_ascii <$> l2 = p ++ []) by (by rewrite app_nil_r).
  destruct (lower_spaces _ _ _ Hp Hl) as [k ->]. apply (f_equal length) in Hl. rewrite length_fmap, !length_app in Hl.
  destruct k; [by rewrite app_nil_r|]. cbn in Hl. lia.
Qed.

Lemma lower_trimmed l : trimmed_bytes l → trimmed_bytes (lower_ascii <$> l).
Proof.
  intros [H1 H2]. split; apply strip_one_None.
  - intros p l' Hp E. destruct (lower_spaces _ _ _ Hp E) as [k ->].
    by apply (proj1 (strip_one_None _ _) H1 p k Hp).
  - intros q l' Hq E. pose proof Hq as [p [-> Hp]]%list_elem_of_fmap.
    rewrite <-fmap_reverse in E. apply (f_equal reverse) in E.
    rewrite reverse_app, reverse_involutive in E.
    destruct (lower_spaces_end p (reverse l') l Hp) as [k ->]; [by rewrite <-E, fmap_reverse, reverse_involutive|].
    apply (proj1 (strip_one_None _ _) H2 (reverse p) (reverse k) Hq). by rewrite reverse_app.
Qed.

Lemma TrimSpace_ToLower s : TrimSpace (ToLower (TrimSpace s)) = ToLower (TrimSpace s).
Proof.
  unfold TrimSpace at 1. rewrite ToLower_list, TrimBytes_id.
  - rewrite <-ToLower_list. apply String.string_of_list_ascii_of_string.
  - apply lower_trimmed. unfold TrimSpace. rewrite String.list_ascii_of_string_of_list_ascii. apply TrimBytes_trimmed.
Qed.

(** ** Record update

    [r <| f := v |>] replaces the field [f] of the record [r].  A record type
    declares its eta expansion once ([Eta]); the update of a field is found by
    instance search, which rebuilds the record around the projection. *)

Class Eta (R : Type) := eta_expand : R → R.
Class Update {R T : Type} (p : R → T) := update_field : (T → T) → R → R.
Arguments update_field {R T} p {Update} f r /.

Ltac derive_update :=
  lazymatch goal with
  | |- @Update ?R ?T ?p =>
      let inst := constr:(_ : Eta R) in
      let body := eval red in inst in
      let f := fresh "f" in let r := fresh "r" in
      unfold Update; intros f r;
      let rhs := eval cbv beta in (body r) in
      let abs := eval pattern (p r) in rhs in
      lazymatch abs with
      | ?g _ => let res := eval cbv beta in (g (f (p r))) in exact res
      end
  end.

#[global] Hint Extern 1 (Update _) => derive_update : typeclass_instances.

Notation "r <| f := v |>" := (update_field f (fun _ => v) r)
  (at level 1, left associativity, v at level 200, format "r  <| f  :=  v |>") : go_scope.

(** ** Sums over a map *)

Definition sum_map {A} (f : A → Z) (m : gmap string A) : Z :=
  map_fold (fun _ a acc => f a + acc) 0 m.

Lemma sum_map_empty {A} (f : A → Z) : sum_map f ∅ = 0.
Proof. apply map_fold_empty. Qed.

Lemma sum_map_insert {A} (f : A → Z) m k a :
  m !! k = None → sum_map f (<[k:=a]> m) = f a + sum_map f m.
Proof.
  intros H. unfold sum_map. rewrite map_fold_insert_L; [done| |done].
  intros; lia.
Qed.

Lemma sum_map_nonneg {A} (f : A → Z) m :
  (∀ k a, m !! k = Some a → 0 <= f a) → 0 <= sum_map f m.
Proof.
  induction m as [|k a m Hk IH] using map_ind; intros H; [by rewrite sum_map_empty|].
  rewrite sum_map_insert by done.
  assert (0 <= f a) by (apply (H k); by rewrite lookup_insert_eq).
  assert (0 <= sum_map f m); [|lia].
  apply IH. intros k' a' Hk'. apply (H k'). rewrite lookup_insert_ne; [done|congruence].
Qed.

Lemma sum_map_zero {A} (f : A → Z) m :
  (∀ k a, m !! k = Some a → f a = 0) → sum_map f m = 0.
Proof.
  induction m as [|k a m Hk IH] using map_ind; intros H; [by rewrite sum_map_empty|].
  rewrite sum_map_insert by done. rewrite (H k a) by (by rewrite lookup_insert_eq).
  rewrite IH; [done|]. intros k' a' Hk'. apply (H k').
  rewrite lookup_insert_ne; [done|congruence].
Qed.

(** The running sum of an [int64] loop is the wrapped sum, whatever the
    iteration order. *)
Definition wrap_sum_map {A} (f : A → Z) (m : gmap string A) : Z :=
  map_fold (fun _ a acc => wrap64 (acc + f a)) 0 m.

Lemma wrap64_add_l a b : wrap64 (wrap64 a + b) = wrap64 (a + b).
Proof.
  unfold wrap64. f_equal.
  replace ((a + 2 ^ 63) mod 2 ^ 64 - 2 ^ 63 + b + 2 ^ 63)
    with ((a + 2 ^ 63) mod 2 ^ 64 + b) by lia.
  rewrite Z.add_mod_idemp_l by lia. f_equal. lia.
Qed.

Lemma wrap64_add_r a b : wrap64 (a + wrap64 b) = wrap64 (a + b).
Proof. by rewrite Z.add_comm, wrap64_add_l, Z.add_comm. Qed.

Lemma wrap_sum_map_eq {A} (f : A → Z) m : wrap_sum_map f m = wrap64 (sum_map f m).
Proof.
  induction m as [|k a m Hk IH] using map_ind; [reflexivity|].
  rewrite sum_map_insert by done. unfold wrap_sum_map.
  rewrite map_fold_insert_L; [|intros; rewrite !wrap64_add_l; f_equal; lia|done].
  fold (wrap_sum_map f m). rewrite IH, wrap64_add_l. f_equal. lia.
Qed.

#[global] Arguments TrimSpace : simpl never.
#[global] Arguments wrap64 : simpl never.
#[global] Arguments incr : simpl never.
#[global] Arguments Quote : simpl never.
#[global] Arguments String.append : simpl never.
#[global] Arguments HasPrefix : simpl never.
#[global] Arguments Contains : simpl never.
#[global] Arguments sum_map : simpl never.
#[global] Arguments wrap_sum_map : simpl never.

(** ** Effects

    [Eff S A] is a computation over a state [S]; a Go function that returns
    [(A, error)] is an [Eff S (result A)]. *)

Definition Eff (S A : Type) : Type := S → A * S.
Definition ret {S A} (a : A) : Eff S A := fun s => (a, s).
Definition bind {S A B} (c : Eff S A) (k : A → Eff S B) : Eff S B :=
  fun s => let '(a, s') := c s in k a s'.
Definition bind_ok {S A B} (c : Eff S (result A)) (k : A → Eff S (result B)) : Eff S (result B) :=
  fun s => let '(r, s') := c s in
           match r with Ok a => k a s' | Err e => (Err e, s') end.
Definition fail {S A} (e : error) : Eff S (result A) := ret (Err e).

Notation "'let*' x ':=' c 'in' k" := (bind c (fun x => k))
  (at level 10, x name, c at level 100, k at level 200) : go_scope.
Notation "'let*' ''' p ':=' c 'in' k" := (bind c (fun x => match x with p => k end))
  (at level 10, p pattern, c at level 100, k at level 200) : go_scope.
Notation "'try*' x ':=' c 'in' k" := (bind_ok c (fun x => k))
  (at level 10, x name, c at level 100, k at level 200) : go_scope.
Notation "'try*' ''' p ':=' c 'in' k" := (bind_ok c (fun x => match x with p => k end))
  (at level 10, p pattern, c at level 100, k at level 200) : go_scope.

(** [if err := v; err != nil { return err }]. *)
Definition check {S A} (v : option error) (k : Eff S (result A)) : Eff S (result A) :=
  match v with Some e => fail e | None => k end.

(** ** Sorting: [sort.Slice] with a comparison *)

Section sorting.
Context {A : Type} (less : A → A → bool).

Fixpoint insert_sorted (a : A) (l : list A) : list A :=
  match l with
  | [] => [a]
  | b :: l' => if less b a then b :: insert_sorted a l' else a :: l
  end.

Fixpoint sort_slice (l : list A) : list A :=
  match l with
  | [] => []
  | a :: l' => insert_sorted a (sort_slice l')
  end.

Lemma insert_sorted_perm a l : insert_sorted a l ≡ₚ a :: l.
Proof.
  induction l as [|b l IH]; simpl; [done|]. case_match; [|done].
  rewrite IH. constructor.
Qed.

Lemma sort_slice_perm l : sort_slice l ≡ₚ l.
Proof. induction l as [|a l IH]; simpl; [done|]. by rewrite insert_sorted_perm, IH. Qed.

(** With a strict weak order no later element is less than an earlier one. *)
Lemma insert_sorted_sorted a l :
  (∀ x y z, less x y = false → less y z = false → less x z = false) →
  (∀ x y, less x y = true → less y x = false) →
  StronglySorted (fun x y => less y x = false) l →
  StronglySorted (fun x y => less y x = false) (insert_sorted a l).
Proof.
  intros Htrans Hasym. induction l as [|b l IH]; intros Hl; simpl; [by repeat constructor|].
  apply StronglySorted_inv in Hl as [Hl Hb].
  destruct (less b a) eqn:E.
  - constructor; [by apply IH|]. rewrite insert_sorted_perm. constructor; [by apply Hasym|done].
  - constructor; [by constructor|]. constructor; [done|].
    eapply Forall_impl; [exact Hb|]. intros c Hc. exact (Htrans _ _ _ Hc E).
Qed.

Lemma sort_slice_sorted l :
  (∀ x y z, less x y = false → less y z = false → less x z = false) →
  (∀ x y, less x y = true → less y x = false) →
  StronglySorted (fun x y => less y x = false) (sort_slice l).
Proof.
  intros Htrans Hasym. induction l as [|a l IH]; simpl; [constructor|].
  by apply insert_sorted_sorted.
Qed.
End sorting.

(** The byte order of strings, Go's [<] on strings. *)
Lemma string_compare_OT x y : String.compare x y = String_as_OT.compare x y.
Proof.
  revert y. induction x as [|a x IH]; intros [|b y]; simpl; done.
Qed.

Lemma string_ltb_lt x y : String.ltb x y = true ↔ String_as_OT.lt x y.
Proof. unfold String.ltb, String_as_OT.lt. rewrite string_compare_OT. by destruct (String_as_OT.compare x y). Qed.

Lemma string_ltb_asym x y : String.ltb x y = true → String.ltb y x = false.
Proof. unfold String.ltb. rewrite String.compare_antisym. by destruct (String.compare y x). Qed.

Lemma string_ltb_negtrans x y z :
  String.ltb x y = false → String.ltb y z = false → String.ltb x z = false.
Proof.
  intros Hxy Hyz. destruct (String.ltb x z) eqn:Hxz; [|done].
  destruct (String.compare y x) eqn:Hc.
  - apply String.compare_eq_iff in Hc as ->. congruence.
  - apply string_ltb_lt in Hxz. rewrite string_compare_OT in Hc.
    assert (String_as_OT.lt y z) as Hlt by (by etransitivity; [exact Hc|]).
    apply string_ltb_lt in Hlt. congruence.
  - unfold String.ltb in Hxy. rewrite String.compare_antisym, Hc in Hxy. done.
Qed.

(** A comparison by a number and then by a string, as the listings of the
    stores make it: [if t(a) == t(b) then id(a) < id(b) else t(a) < t(b)]. *)
Definition by_time_then_id {A} (t : A → Z) (id : A → string) (a b : A) : bool :=
  if t a =? t b then String.ltb (id a) (id b) else t a <? t b.

Lemma by_time_then_id_negtrans {A} (t : A → Z) id x y z :
  by_time_then_id t id x y = false → by_time_then_id t id y z = false →
  by_time_then_id t id x z = false.
Proof.
  unfold by_time_then_id.
  destruct (Z.eqb_spec (t x) (t y)), (Z.eqb_spec (t y) (t z)), (Z.eqb_spec (t x) (t z)); try lia.
  apply string_ltb_negtrans.
Qed.

Lemma by_time_then_id_asym {A} (t : A → Z) id x y :
  by_time_then_id t id x y = true → by_time_then_id t id y x = false.
Proof.
  unfold by_time_then_id. rewrite (Z.eqb_sym (t y)).
  destruct (Z.eqb_spec (t x) (t y)); [apply string_ltb_asym|lia].
Qed.

Lemma sort_by_time_then_id {A} (t : A → Z) id (l : list A) :
  StronglySorted (fun x y => by_time_then_id t id y x = false) (sort_slice (by_time_then_id t id) l).
Proof. apply sort_slice_sorted; [apply by_time_then_id_negtrans|apply by_time_then_id_asym]. Qed.

Lemma NoDup_fmap_elem {A B} (f : A → B) l x y :
  NoDup (f <$> l) → x ∈ l → y ∈ l → f x = f y → x = y.
Proof.
  intros Hnd [i Hi]%list_elem_of_lookup [j Hj]%list_elem_of_lookup E.
  assert (i = j) as ->; [|congruence].
  eapply (NoDup_lookup _ i j (f x) Hnd); rewrite list_lookup_fmap; [by rewrite Hi|by rewrite Hj, E].
Qed.

(** Two equations that give one term two different literals. *)
Ltac clash :=
  exfalso; match goal with A : ?x = _, B : ?x = _ |- _ => rewrite A in B; discriminate B end.

(** A concrete lookup, by a test that evaluates. *)
Lemma tested_Some {A} (o : option A) (test : A → bool) :
  match o with Some a => test a | None => false end = true → ∃ a, o = Some a ∧ test a = true.
Proof. destruct o as [a|]; [|done]. by exists a. Qed.
