(* ===== verification/GoJson.v ===== *)
(** * Dynamic values: [any], [map[string]any] and the JSON copies of them

    The payloads, results and event bodies of the code are [map[string]any]
    values that the stores copy by a JSON round trip ([cloneMap]).  This file
    gives the values, the copy, [fmt.Sprint], ranges over maps, slices and
    [reflect.DeepEqual]. *)

From Stdlib Require Import ZArith Lia.
From S2P Require Import Prelude.

(** A value of type [any].  [AInt] is a Go integer, [AFloat m e] the float
    [m * 2 ^ e]; [ATime] stands for a [time.Time] and, after a JSON copy, for
    the RFC 3339 text of that instant. *)
Inductive any : Type :=
| ANil
| ABool (b : bool)
| AInt (z : Z)
| AFloat (m e : Z)
| AStr (s : string)
| ATime (t : Time)
| AArr (l : list any)
| AObj (l : list (string * any)).

#[global] Instance any_eq_dec : EqDecision any.
Proof.
  refine (fix go (a b : any) {struct a} : {a = b} + {a ≠ b} :=
    match a, b with
    | ANil, ANil => left eq_refl
    | ABool x, ABool y => cast_if (decide (x = y))
    | AInt x, AInt y => cast_if (decide (x = y))
    | AFloat x1 x2, AFloat y1 y2 => cast_if_and (decide (x1 = y1)) (decide (x2 = y2))
    | AStr x, AStr y => cast_if (decide (x = y))
    | ATime x, ATime y => cast_if (decide (x = y))
    | AArr x, AArr y => cast_if (@list_eq_dec _ go x y)
    | AObj x, AObj y => cast_if (@list_eq_dec _ (@prod_eq_dec _ _ _ go) x y)
    | _, _ => right _
    end); abstract congruence.
Defined.

(** The float64 nearest to an integer, ties to even: what a JSON number read
    back into [any] holds. *)
Definition round53 (z : Z) : Z :=
  let a := Z.abs z in
  if a <=? 2 ^ 53 then z
  else
    let e := Z.log2 a - 52 in
    let q := a / 2 ^ e in
    let r := a mod 2 ^ e in
    let half := 2 ^ (e - 1) in
    let q' := if (half <? r) || ((half =? r) && Z.odd q) then q + 1 else q in
    Z.sgn z * (q' * 2 ^ e).

Fixpoint json_copy (v : any) : any :=
  match v with
  | AInt z => AFloat (round53 z) 0
  | AArr l => AArr (json_copy <$> l)
  | AObj l => AObj ((fun '(k, w) => (k, json_copy w)) <$> l)
  | _ => v
  end.

(** [map[string]T]: [None] is the nil map. *)
Abbreviation gomap A := (option (gmap string A)).

Definition go_lookup {A} (m : gomap A) (k : string) : option A := m ≫= (.!! k).
Definition go_len {A} (m : gomap A) : nat := match m with Some m' => size m' | None => 0 end.

Definition cloneMap (input : gomap any) : gomap any :=
  match input with
  | Some m => Some (json_copy <$> m)
  | None => None
  end.

(** [cloneInt64Map] and [cloneInt64Pointer] copy values that nothing shares. *)
Definition cloneInt64Map (input : gomap Z) : gomap Z := input.
Definition cloneInt64Pointer (input : option Z) : option Z := input.

(** JSON text with [omitempty]: the nil and the empty map are written alike. *)
Definition omit_empty {A} (m : gomap A) : gomap A :=
  match m with
  | Some m' => if bool_decide (m' = ∅) then None else Some m'
  | None => None
  end.

Definition payload (l : list (string * any)) : gomap any := Some (list_to_map l).

(** [value, _ := m[k].(string)]. *)
Definition string_field (m : gomap any) (k : string) : string :=
  match go_lookup m k with Some (AStr s) => s | _ => "" end.

Lemma json_copy_idem v : json_copy (json_copy v) = json_copy v.
Proof.
  revert v. fix IH 1. intros [| | | | | |l|l]; simpl; try done.
  - apply (f_equal AArr). induction l as [|x l IHl]; [done|].
    rewrite !fmap_cons. apply f_equal2; [apply IH|apply IHl].
  - apply (f_equal AObj). induction l as [|[k x] l IHl]; [done|].
    rewrite !fmap_cons. apply f_equal2; [apply (f_equal (pair k)), IH|apply IHl].
Qed.

Lemma cloneMap_idem m : cloneMap (cloneMap m) = cloneMap m.
Proof.
  destruct m as [m|]; simpl; [|done]. f_equal. rewrite <-map_fmap_compose.
  apply map_fmap_ext. intros k v _. apply json_copy_idem.
Qed.

(** The text of a value that is not a string, an integer or a boolean: floats
    and composites are printed by a parameter. *)
Class Formatting := { sprint_other : any → string }.

(** [fmt.Sprint]. *)
Definition Sprint `{Formatting} (value : any) : string :=
  match value with
  | ANil => "<nil>"
  | AStr s => s
  | AInt z => pretty z
  | ABool b => if b then "true" else "false"
  | _ => sprint_other value
  end.

(** [for k, v := range m]: some order of the entries, which the language leaves
    open and which may differ between maps. *)
Class MapRange := {
  map_range {A} (m : gmap string A) : list (string * A);
  map_range_perm {A} (m : gmap string A) : map_range m ≡ₚ map_to_list m
}.

(** *** Slices: [None] is the nil slice, which [reflect.DeepEqual] tells from the
    empty one. *)
Abbreviation goslice A := (option (list A)).
Definition elems {A} (s : goslice A) : list A := default [] s.
Definition append {A} (s : goslice A) (l : list A) : goslice A :=
  match s, l with None, [] => None | _, _ => Some (elems s ++ l) end.

(** A JSON copy with [omitempty] forgets empty slices and maps. *)
Definition copy_slice {A} (f : A → A) (s : goslice A) : goslice A :=
  match elems s with [] => None | l => Some (f <$> l) end.

Lemma elems_copy_slice {A} (f : A → A) s : elems (copy_slice f s) = f <$> elems s.
Proof. destruct s as [[|a l]|]; done. Qed.

(** *** [reflect.DeepEqual] *)
Definition float_equal (m e m' e' : Z) : bool :=
  if e <=? e' then m =? m' * 2 ^ (e' - e) else m * 2 ^ (e - e') =? m'.

Fixpoint any_lookup (k : string) (l : list (string * any)) : option any :=
  match l with
  | [] => None
  | (k', v) :: l' => if bool_decide (k = k') then Some v else any_lookup k l'
  end.

Fixpoint any_DeepEqual (a b : any) : bool :=
  match a, b with
  | AFloat m e, AFloat m' e' => float_equal m e m' e'
  | AArr x, AArr y =>
      (fix go x y := match x, y with
       | [], [] => true
       | v :: x', w :: y' => any_DeepEqual v w && go x' y'
       | _, _ => false
       end) x y
  | AObj x, AObj y =>
      bool_decide (length x = length y) &&
      forallb (fun '(k, v) => match any_lookup k y with Some w => any_DeepEqual v w | None => false end) x
  | _, _ => bool_decide (a = b)
  end.

Definition map_DeepEqual (m m' : gomap any) : bool :=
  match m, m' with
  | None, None => true
  | Some x, Some y =>
      bool_decide (size x = size y) &&
      forallb (fun '(k, v) => match y !! k with Some w => any_DeepEqual v w | None => false end) (map_to_list x)
  | _, _ => false
  end.
