(* ===== verification/Billing.v ===== *)
(** * Point accounts: [internal/aigc/billing]

    The in-memory ledger of [memory_store.go] with the requests, replay check
    and records of [models.go].  The state is the three maps of [MemoryStore];
    an operation takes the one clock reading it makes and returns the store
    with its result. *)

From Stdlib Require Import ZArith Lia.
From S2P Require Import Prelude GoJson.

Module Billing.

Definition ErrAccountNotFound := errors_New "billing account not found".
Definition ErrTransactionNotFound := errors_New "billing transaction not found".
Definition ErrIdempotencyConflict := errors_New "billing idempotency conflict".
Definition ErrInsufficientPoints := errors_New "insufficient points".
Definition ErrRefundExceedsCharge := errors_New "refund exceeds charged points".

Definition KindCredit := "credit".
Definition KindCharge := "charge".
Definition KindRefund := "refund".

Record Account := mkAccount {
  a_UserID : string;
  a_Balance : Z;
  a_Version : Z;
  a_CreatedAt : Time;
  a_UpdatedAt : Time
}.
#[global] Instance eta_Account : Eta Account := fun r =>
  mkAccount (a_UserID r) (a_Balance r) (a_Version r) (a_CreatedAt r) (a_UpdatedAt r).

Record Transaction := mkTransaction {
  t_ID : string;
  t_UserID : string;
  t_Kind : string;
  t_IdempotencyKey : string;
  t_ReferenceID : string;
  t_OperationID : string;
  t_BatchID : string;
  t_JobID : string;
  t_Points : Z;
  t_Delta : Z;
  t_BalanceAfter : Z;
  t_Breakdown : gomap Z;
  t_Metadata : gomap any;
  t_CreatedAt : Time
}.

Record MutationRequest := mkMutationRequest {
  q_TransactionID : string;
  q_UserID : string;
  q_IdempotencyKey : string;
  q_ReferenceID : string;
  q_OperationID : string;
  q_BatchID : string;
  q_JobID : string;
  q_Points : Z;
  q_Breakdown : gomap Z;
  q_Metadata : gomap any
}.

Record Result := mkResult { r_Transaction : Transaction; r_Duplicate : bool }.

Record MemoryStore := mkStore {
  accounts : gmap string Account;
  transactions : gmap string Transaction;
  byKey : gmap string string
}.
#[global] Instance eta_MemoryStore : Eta MemoryStore := fun r =>
  mkStore (accounts r) (transactions r) (byKey r).

Definition NewMemoryStore : MemoryStore := mkStore ∅ ∅ ∅.

Definition cloneBreakdown (value : gomap Z) : gomap Z := value.
Definition cloneMetadata (value : gomap any) : gomap any := value.

Definition validate (r : MutationRequest) (kind : string) : option error :=
  if blank (q_TransactionID r) then Some (Errorf "billing transaction id is required")
  else if blank (q_UserID r) then Some (Errorf "billing user id is required")
  else if blank (q_IdempotencyKey r) then Some (Errorf "billing idempotency key is required")
  else if q_Points r <=? 0 then Some (Errorf "billing points must be positive")
  else if bool_decide (kind = KindRefund) && blank (q_ReferenceID r)
  then Some (Errorf "refund reference transaction id is required")
  else None.

Definition normalizeMutationRequest (r : MutationRequest) : MutationRequest :=
  mkMutationRequest (TrimSpace (q_TransactionID r)) (TrimSpace (q_UserID r))
    (TrimSpace (q_IdempotencyKey r)) (TrimSpace (q_ReferenceID r))
    (TrimSpace (q_OperationID r)) (TrimSpace (q_BatchID r)) (TrimSpace (q_JobID r))
    (q_Points r) (cloneBreakdown (q_Breakdown r)) (cloneMetadata (q_Metadata r)).

(** Same size and every entry of the left found on the right; the nil map
    reads as the empty one. *)
Definition equalBreakdown (left right : gomap Z) : bool :=
  if negb (Nat.eqb (go_len left) (go_len right)) then false
  else match left with
       | None => true
       | Some l =>
           forallb (fun '(key, value) => bool_decide (go_lookup right key = Some value))
                   (map_to_list l)
       end.

(** The first field on which a stored transaction and a normalized request
    differ, [""] when there is none. *)
Definition replay_mismatch (existing : Transaction) (kind : string)
    (request : MutationRequest) : string :=
  if negb (bool_decide (TrimSpace (t_Kind existing) = TrimSpace kind)) then "kind"
  else if negb (bool_decide (TrimSpace (t_UserID existing) = q_UserID request)) then "user_id"
  else if negb (t_Points existing =? q_Points request) then "points"
  else if negb (bool_decide (TrimSpace (t_ReferenceID existing) = q_ReferenceID request)) then "reference_id"
  else if negb (bool_decide (TrimSpace (t_OperationID existing) = q_OperationID request)) then "operation_id"
  else if negb (bool_decide (TrimSpace (t_BatchID existing) = q_BatchID request)) then "batch_id"
  else if negb (bool_decide (TrimSpace (t_JobID existing) = q_JobID request)) then "job_id"
  else if negb (equalBreakdown (t_Breakdown existing) (q_Breakdown request)) then "breakdown"
  else "".

Definition validateIdempotentReplay (existing : Transaction) (kind : string)
    (request : MutationRequest) : option error :=
  let request := normalizeMutationRequest request in
  let field := replay_mismatch existing kind request in
  if bool_decide (field = "") then None
  else Some (Wrapf "" ErrIdempotencyConflict
         (": idempotency key " +:+ Quote (q_IdempotencyKey request)
          +:+ " is already bound to a mutation with different " +:+ field)).

Definition newTransaction (request : MutationRequest) (kind : string)
    (delta balanceAfter : Z) (now : Time) : Transaction :=
  mkTransaction (TrimSpace (q_TransactionID request)) (TrimSpace (q_UserID request)) kind
    (TrimSpace (q_IdempotencyKey request)) (TrimSpace (q_ReferenceID request))
    (TrimSpace (q_OperationID request)) (TrimSpace (q_BatchID request))
    (TrimSpace (q_JobID request)) (q_Points request) delta balanceAfter
    (cloneBreakdown (q_Breakdown request)) (cloneMetadata (q_Metadata request)) now.

Definition EnsureAccount (s : MemoryStore) (userID : string) (initialBalance : Z)
    (now : Time) : MemoryStore * result Account :=
  let userID := TrimSpace userID in
  if bool_decide (userID = "") || (initialBalance <? 0)
  then (s, Err (Errorf "valid user id and non-negative initial balance are required"))
  else match accounts s !! userID with
       | Some account => (s, Ok account)
       | None =>
           let account := mkAccount userID initialBalance 1 now now in
           (s <| accounts := <[userID := account]> (accounts s) |>, Ok account)
       end.

Definition GetAccount (s : MemoryStore) (userID : string) : result Account :=
  match accounts s !! TrimSpace userID with
  | Some account => Ok account
  | None => Err ErrAccountNotFound
  end.

(** The points already refunded against a charge. *)
Definition refund_of (reference : string) (t : Transaction) : Z :=
  if bool_decide (t_Kind t = KindRefund) && bool_decide (t_ReferenceID t = reference)
  then t_Points t else 0.

Definition refunded (s : MemoryStore) (reference : string) : Z :=
  wrap_sum_map (refund_of reference) (transactions s).

(** The guards of a refund; [None] lets it through. *)
Definition refund_rejected (s : MemoryStore) (request : MutationRequest) : option error :=
  match transactions s !! q_ReferenceID request with
  | None => Some ErrTransactionNotFound
  | Some charged =>
      if negb (bool_decide (t_Kind charged = KindCharge))
         || negb (bool_decide (t_UserID charged = q_UserID request))
      then Some ErrTransactionNotFound
      else if t_Points charged <? wrap64 (refunded s (q_ReferenceID request) + q_Points request)
      then Some ErrRefundExceedsCharge
      else None
  end.

Definition mutate (s : MemoryStore) (request : MutationRequest) (kind : string)
    (now : Time) : MemoryStore * result Result :=
  let request := normalizeMutationRequest request in
  match validate request kind with
  | Some err => (s, Err err)
  | None =>
  match byKey s !! q_IdempotencyKey request with
  | Some transactionID =>
      let existing := default (mkTransaction "" "" "" "" "" "" "" "" 0 0 0 None None zeroTime)
                              (transactions s !! transactionID) in
      match validateIdempotentReplay existing kind request with
      | Some err => (s, Err err)
      | None => (s, Ok (mkResult existing true))
      end
  | None =>
  match accounts s !! q_UserID request with
  | None => (s, Err ErrAccountNotFound)
  | Some account =>
      let charge := bool_decide (kind = KindCharge) in
      let delta := if charge then wrap64 (- q_Points request) else q_Points request in
      if charge && (a_Balance account <? q_Points request)
      then (s, Err ErrInsufficientPoints)
      else
      match (if bool_decide (kind = KindRefund) then refund_rejected s request else None) with
      | Some err => (s, Err err)
      | None =>
          let account := account <| a_Balance := wrap64 (a_Balance account + delta) |>
                                 <| a_Version := incr (a_Version account) |>
                                 <| a_UpdatedAt := now |> in
          let transaction := newTransaction request kind delta (a_Balance account) (a_UpdatedAt account) in
          (mkStore (<[q_UserID request := account]> (accounts s))
                   (<[t_ID transaction := transaction]> (transactions s))
                   (<[t_IdempotencyKey transaction := t_ID transaction]> (byKey s)),
           Ok (mkResult transaction false))
      end
  end end end.

Definition Credit s request now := mutate s request KindCredit now.
Definition Charge s request now := mutate s request KindCharge now.
Definition Refund s request now := mutate s request KindRefund now.

(** ** The ledger invariant *)

Definition signed (kind : string) (points : Z) : Z :=
  if bool_decide (kind = KindCharge) then - points else points.

Definition known_kind (kind : string) : Prop :=
  kind = KindCredit ∨ kind = KindCharge ∨ kind = KindRefund.

(** What a stored transaction satisfies in the store around it. *)
Record transaction_wf (s : MemoryStore) (id : string) (t : Transaction) : Prop := {
  tw_id : t_ID t = id;
  tw_key : byKey s !! t_IdempotencyKey t = Some id;
  tw_points : 0 < t_Points t <= int64_max;
  tw_delta : t_Delta t = signed (t_Kind t) (t_Points t);
  tw_account : is_Some (accounts s !! t_UserID t);
  tw_refund : t_Kind t = KindRefund →
    ∃ c, transactions s !! t_ReferenceID t = Some c ∧ t_Kind c = KindCharge
         ∧ t_UserID c = t_UserID t;
  tw_refunds : t_Kind t = KindCharge →
    sum_map (refund_of id) (transactions s) <= t_Points t
}.

Record ledger_wf (s : MemoryStore) : Prop := {
  lw_balance u a : accounts s !! u = Some a → a_UserID a = u ∧ 0 <= a_Balance a <= int64_max;
  lw_key k id : byKey s !! k = Some id →
    ∃ t, transactions s !! id = Some t ∧ t_IdempotencyKey t = k;
  lw_transaction id t : transactions s !! id = Some t → transaction_wf s id t
}.

(** The requests of a well-behaved client: a transaction id belongs to one
    idempotency key, the points are an [int64] and no sum overflows. *)
Record admissible (s : MemoryStore) (q : MutationRequest) (kind : string) : Prop := {
  ad_kind : known_kind kind;
  ad_points : in_int64 (q_Points q);
  ad_fresh : byKey s !! TrimSpace (q_IdempotencyKey q) = None →
    transactions s !! TrimSpace (q_TransactionID q) = None;
  ad_balance a : accounts s !! TrimSpace (q_UserID q) = Some a →
    kind ≠ KindCharge → a_Balance a + q_Points q <= int64_max;
  ad_refunded : kind = KindRefund →
    refunded s (TrimSpace (q_ReferenceID q)) + q_Points q <= int64_max
}.

(** Runs of the ledger; [o] records the opening balance of every account. *)
Inductive reachable : MemoryStore → gmap string Z → Prop :=
| reach_new : reachable NewMemoryStore ∅
| reach_ensure s o u b now s' r :
    reachable s o → in_int64 b → EnsureAccount s u b now = (s', r) →
    reachable s' (match accounts s !! TrimSpace u, accounts s' !! TrimSpace u with
                  | None, Some _ => <[TrimSpace u := b]> o
                  | _, _ => o
                  end)
| reach_mutate s o q kind now s' r :
    reachable s o → admissible s q kind → mutate s q kind now = (s', r) →
    reachable s' o.

Definition delta_of (u : string) (t : Transaction) : Z :=
  if bool_decide (t_UserID t = u) then t_Delta t else 0.

(** ** What an operation does, branch by branch *)

Lemma wrap64_opp_small z : 0 < z <= int64_max → wrap64 (- z) = - z.
Proof. intros H. apply wrap64_id. unfold in_int64, int64_min, int64_max in *. lia. Qed.

Lemma validate_None q kind :
  validate q kind = None →
  0 < q_Points q ∧ (kind = KindRefund → TrimSpace (q_ReferenceID q) ≠ "").
Proof.
  unfold validate, blank. intros H.
  destruct (Z.leb_spec (q_Points q) 0); repeat case_bool_decide; naive_solver.
Qed.

(** The store after a new transaction. *)
Definition posted_delta (q : MutationRequest) (kind : string) : Z :=
  if bool_decide (kind = KindCharge) then wrap64 (- q_Points q) else q_Points q.

Definition posted_account (q : MutationRequest) (a : Account) (kind : string) (now : Time) : Account :=
  mkAccount (a_UserID a) (wrap64 (a_Balance a + posted_delta q kind)) (incr (a_Version a))
            (a_CreatedAt a) now.

Definition posted_transaction q a kind now : Transaction :=
  newTransaction q kind (posted_delta q kind) (wrap64 (a_Balance a + posted_delta q kind)) now.

Definition posted (s : MemoryStore) q a kind now : MemoryStore :=
  mkStore (<[q_UserID q := posted_account q a kind now]> (accounts s))
          (<[TrimSpace (q_TransactionID q) := posted_transaction q a kind now]> (transactions s))
          (<[TrimSpace (q_IdempotencyKey q) := TrimSpace (q_TransactionID q)]> (byKey s)).

Record accepted (s : MemoryStore) (q : MutationRequest) (a : Account) (kind : string) : Prop := {
  ac_valid : validate q kind = None;
  ac_key : byKey s !! q_IdempotencyKey q = None;
  ac_account : accounts s !! q_UserID q = Some a;
  ac_balance : kind = KindCharge → q_Points q <= a_Balance a;
  ac_refund : kind = KindRefund → refund_rejected s q = None
}.

(** An operation fails and leaves the store, replays and leaves the store, or
    posts one transaction. *)
Inductive mutate_spec (s : MemoryStore) (q : MutationRequest) (kind : string) (now : Time) :
  MemoryStore * result Result → Prop :=
| mutate_fails e : mutate_spec s q kind now (s, Err e)
| mutate_replays id :
    validate (normalizeMutationRequest q) kind = None →
    byKey s !! TrimSpace (q_IdempotencyKey q) = Some id →
    ∀ t, default (mkTransaction "" "" "" "" "" "" "" "" 0 0 0 None None zeroTime)
           (transactions s !! id) = t →
    validateIdempotentReplay t kind (normalizeMutationRequest q) = None →
    mutate_spec s q kind now (s, Ok (mkResult t true))
| mutate_posts a :
    let q' := normalizeMutationRequest q in
    accepted s q' a kind →
    mutate_spec s q kind now
      (posted s q' a kind now, Ok (mkResult (posted_transaction q' a kind now) false)).

Lemma mutate_cases s q kind now : mutate_spec s q kind now (mutate s q kind now).
Proof.
  unfold mutate. set (q' := normalizeMutationRequest q).
  destruct (validate q' kind) eqn:Hv; [constructor|].
  destruct (byKey s !! q_IdempotencyKey q') as [id|] eqn:Hk.
  { destruct (validateIdempotentReplay _ _ _) eqn:Hr; [constructor|].
    by eapply mutate_replays. }
  destruct (accounts s !! q_UserID q') as [a|] eqn:Ha; [|constructor].
  destruct (bool_decide (kind = KindCharge)) eqn:Hc;
    destruct (Z.ltb_spec (a_Balance a) (q_Points q')); simpl; try constructor.
  all: destruct (bool_decide (kind = KindRefund)) eqn:Hf;
    destruct (refund_rejected s q') eqn:Hrr; try constructor.
  all: rewrite ?bool_decide_eq_true, ?bool_decide_eq_false in *.
  all: try (assert (accepted s q' a kind) as Hacc by (by constructor; intros; simplify_eq)).
  all: try (pose proof (mutate_posts s q kind now a Hacc) as Hp;
    unfold posted, posted_transaction, posted_account, posted_delta in Hp;
    rewrite ?bool_decide_true in Hp by done; rewrite ?bool_decide_false in Hp by done; exact Hp).
Qed.

(** ** Preservation of the invariant *)

Lemma new_wf : ledger_wf NewMemoryStore.
Proof. split; intros *; cbn; rewrite lookup_empty; done. Qed.

(** Adding an account breaks nothing: the invariant only asks accounts to exist. *)
Lemma insert_account_wf s u a :
  a_UserID a = u → 0 <= a_Balance a <= int64_max →
  ledger_wf s → ledger_wf (s <| accounts := <[u := a]> (accounts s) |>).
Proof.
  intros Hu Hb [Hacc Hkey Htx]. split; cbn.
  - intros v b. destruct (decide (u = v)) as [->|]; simplify_map_eq; naive_solver.
  - done.
  - intros id t Ht. destruct (Htx id t Ht) as [? ? ? ? Ha ? ?]. split; cbn; try done.
    destruct (decide (u = t_UserID t)) as [->|]; simplify_map_eq; eauto.
Qed.

Lemma EnsureAccount_wf s u b now s' r :
  ledger_wf s → in_int64 b → EnsureAccount s u b now = (s', r) → ledger_wf s'.
Proof.
  unfold EnsureAccount. intros Hwf Hb. case_bool_decide; simpl; [naive_solver|].
  destruct (Z.ltb_spec b 0); [naive_solver|].
  destruct (accounts s !! TrimSpace u); intros [= <- _]; [done|].
  apply insert_account_wf; cbn; [done| |done].
  unfold in_int64 in Hb. lia.
Qed.

(** In a well-formed ledger the wrapped refund total is the true one. *)
Lemma refunded_exact s id c :
  ledger_wf s → transactions s !! id = Some c → t_Kind c = KindCharge →
  refunded s id = sum_map (refund_of id) (transactions s)
  ∧ 0 <= refunded s id <= t_Points c.
Proof.
  intros Hwf Hc Hk. destruct (lw_transaction _ Hwf _ _ Hc) as [_ _ Hp _ _ _ Hr].
  assert (0 <= sum_map (refund_of id) (transactions s)).
  { apply sum_map_nonneg. intros k t Ht. unfold refund_of.
    destruct (lw_transaction _ Hwf _ _ Ht) as [_ _ Hpt _ _ _ _]. case_match; lia. }
  specialize (Hr Hk). unfold refunded. rewrite wrap_sum_map_eq, wrap64_id; [lia|].
  unfold in_int64, int64_min. lia.
Qed.

Lemma refund_accepted s q :
  refund_rejected s q = None →
  ∃ c, transactions s !! q_ReferenceID q = Some c ∧ t_Kind c = KindCharge
       ∧ t_UserID c = q_UserID q
       ∧ wrap64 (refunded s (q_ReferenceID q) + q_Points q) <= t_Points c.
Proof.
  unfold refund_rejected. destruct (transactions s !! q_ReferenceID q) as [c|]; [|done].
  intros H. exists c. repeat case_bool_decide; simpl in *; try done.
  destruct (Z.ltb_spec (t_Points c) (wrap64 (refunded s (q_ReferenceID q) + q_Points q))); naive_solver.
Qed.

Section posting.
Context (s : MemoryStore) (q0 : MutationRequest) (a : Account) (kind : string) (now : Time).
Let q := normalizeMutationRequest q0.
Context (Hwf : ledger_wf s) (Had : admissible s q0 kind) (Hacc : accepted s q a kind).

Lemma posting_points : 0 < q_Points q <= int64_max.
Proof.
  destruct (validate_None _ _ (ac_valid _ _ _ _ Hacc)) as [H _].
  pose proof (ad_points _ _ _ Had) as [_ H']. unfold q in *. cbn in *. lia.
Qed.

Lemma posting_fresh : transactions s !! TrimSpace (q_TransactionID q) = None.
Proof.
  pose proof (ac_key _ _ _ _ Hacc) as Hk. unfold q in *. cbn in *.
  rewrite TrimSpace_idem. by apply (ad_fresh _ _ _ Had).
Qed.

Lemma posting_delta : posted_delta q kind = signed kind (q_Points q).
Proof.
  unfold posted_delta, signed. case_bool_decide; [|done].
  apply wrap64_opp_small, posting_points.
Qed.

Lemma posting_balance :
  wrap64 (a_Balance a + posted_delta q kind) = a_Balance a + signed kind (q_Points q)
  ∧ 0 <= a_Balance a + signed kind (q_Points q) <= int64_max.
Proof.
  pose proof posting_points as Hp.
  destruct (lw_balance _ Hwf _ _ (ac_account _ _ _ _ Hacc)) as [_ Hb].
  rewrite posting_delta.
  assert (0 <= a_Balance a + signed kind (q_Points q) <= int64_max) as H.
  { unfold signed. case_bool_decide as Hk.
    - pose proof (ac_balance _ _ _ _ Hacc Hk). lia.
    - pose proof (ad_balance _ _ _ Had a (ac_account _ _ _ _ Hacc) Hk) as H.
      unfold q in *. cbn in *. lia. }
  split; [|done]. apply wrap64_id. unfold in_int64, int64_min. lia.
Qed.

Lemma posting_refund c :
  kind = KindRefund → transactions s !! q_ReferenceID q = Some c →
  sum_map (refund_of (q_ReferenceID q)) (transactions s) + q_Points q <= t_Points c.
Proof.
  intros Hk Hc. pose proof posting_points as Hp.
  pose proof (ad_refunded _ _ _ Had Hk) as Hov.
  destruct (refund_accepted _ _ (ac_refund _ _ _ _ Hacc Hk)) as (c' & Hc' & Hck & _ & Hle).
  rewrite Hc in Hc'. injection Hc' as <-.
  destruct (refunded_exact _ _ _ Hwf Hc Hck) as [He Hr].
  rewrite wrap64_id in Hle; [lia|]. unfold in_int64, int64_min.
  unfold q in *. cbn in *. lia.
Qed.

Lemma posted_sum f :
  sum_map f (transactions (posted s q a kind now))
  = f (posted_transaction q a kind now) + sum_map f (transactions s).
Proof. apply sum_map_insert, posting_fresh. Qed.

(** The refund total of a charge in the store after the posting. *)
Lemma posted_refunds id t :
  transactions (posted s q a kind now) !! id = Some t → t_Kind t = KindCharge →
  sum_map (refund_of id) (transactions (posted s q a kind now)) <= t_Points t.
Proof.
  intros Ht Hk. rewrite posted_sum. pose proof posting_points as Hp.
  pose proof posting_fresh as Hfresh.
  unfold posted in Ht. cbn in Ht. apply lookup_insert_Some in Ht as [[<- <-]|[Hne Ht]].
  - cbn in Hk |- *. unfold refund_of at 1. cbn. rewrite Hk. simpl.
    assert (sum_map (refund_of (TrimSpace (TrimSpace (q_TransactionID q0)))) (transactions s) <= 0);
      [|unfold q in *; cbn in *; lia].
    enough (sum_map (refund_of (TrimSpace (TrimSpace (q_TransactionID q0)))) (transactions s) = 0) by lia.
    apply sum_map_zero. intros k t Ht. unfold refund_of.
    repeat case_bool_decide; simpl; try done.
    destruct (tw_refund _ _ _ (lw_transaction _ Hwf _ _ Ht) ltac:(done)) as (c & Hc & _).
    unfold q in Hfresh. cbn in Hfresh. congruence.
  - pose proof (tw_refunds _ _ _ (lw_transaction _ Hwf _ _ Ht) Hk) as Hold.
    pose proof (posting_refund t) as Hnew. unfold q in *. cbn in *.
    unfold refund_of at 1. cbn.
    case_bool_decide as E1; simpl; [|lia]. case_bool_decide as E2; simpl; [|lia].
    rewrite TrimSpace_idem in E2. rewrite <-E2 in Ht |- *. specialize (Hnew E1 Ht). lia.
Qed.

Lemma posted_wf : ledger_wf (posted s q a kind now).
Proof.
  pose proof posting_points as Hp. pose proof posting_fresh as Hfresh.
  pose proof posting_balance as [Hbal Hrange]. pose proof posting_delta as Hdelta.
  pose proof (ac_account _ _ _ _ Hacc) as Ha. pose proof (ac_key _ _ _ _ Hacc) as Hk.
  split.
  - intros u b Hb. unfold posted in Hb. cbn in Hb. apply lookup_insert_Some in Hb as [[<- <-]|[? Hb]].
    + cbn. rewrite Hbal. destruct (lw_balance _ Hwf _ _ Ha). done.
    + by apply (lw_balance _ Hwf).
  - intros k id Hid. unfold posted in Hid. cbn in Hid.
    apply lookup_insert_Some in Hid as [[<- <-]|[? Hid]]; unfold posted; cbn.
    + eexists. rewrite lookup_insert_eq. split; [done|]. cbn. by rewrite !TrimSpace_idem.
    + destruct (lw_key _ Hwf _ _ Hid) as (t & Ht & ?). exists t. split; [|done].
      rewrite lookup_insert_ne; [done|]. intros E. unfold q in *; cbn in *. congruence.
  - intros id t Ht. pose proof (posted_refunds id t Ht) as Hr.
    unfold posted in Ht. cbn in Ht. apply lookup_insert_Some in Ht as [[<- <-]|[Hne Ht]].
    + split; try done; cbn; rewrite ?TrimSpace_idem.
      * apply lookup_insert_eq.
      * rewrite lookup_insert_eq. eauto.
      * intros Hkr. destruct (refund_accepted _ _ (ac_refund _ _ _ _ Hacc Hkr)) as (c & Hc & Hck & Hcu & _).
        exists c. unfold q in Hc, Hcu, Hfresh. cbn in Hc, Hcu, Hfresh.
        rewrite TrimSpace_idem in Hfresh.
        rewrite lookup_insert_ne; [done|]. congruence.
    + destruct (lw_transaction _ Hwf _ _ Ht) as [H1 H2 H3 H4 H5 H6 H7].
      split; try done; unfold posted; cbn.
      * rewrite lookup_insert_ne; [done|]. intros E. unfold q in *. cbn in *.
        rewrite TrimSpace_idem in E. congruence.
      * destruct (decide (TrimSpace (q_UserID q0) = t_UserID t)) as [->|];
          [rewrite lookup_insert_eq; eauto|by rewrite lookup_insert_ne].
      * intros Hkr. destruct (H6 Hkr) as (c & Hc & ?). exists c. split; [|done].
        rewrite lookup_insert_ne; [done|]. unfold q in *. cbn in *. congruence.
Qed.

(** Only the payer's balance moves, by the points of the transaction. *)
Lemma posted_conserves (o : gmap string Z) u b :
  (∀ v c, accounts s !! v = Some c →
     a_Balance c = default 0 (o !! v) + sum_map (delta_of v) (transactions s)) →
  accounts (posted s q a kind now) !! u = Some b →
  a_Balance b = default 0 (o !! u) + sum_map (delta_of u) (transactions (posted s q a kind now)).
Proof.
  intros Hcons Hb. rewrite posted_sum. pose proof posting_balance as [Hbal _].
  unfold posted in Hb. cbn in Hb. unfold delta_of at 1. cbn. rewrite posting_delta.
  apply lookup_insert_Some in Hb as [[<- <-]|[Hne Hb]]; cbn.
  - rewrite bool_decide_true by (unfold q; cbn; by rewrite !TrimSpace_idem).
    rewrite Hbal, (Hcons _ _ (ac_account _ _ _ _ Hacc)). unfold q. cbn. lia.
  - rewrite bool_decide_false; [rewrite (Hcons _ _ Hb); lia|].
    unfold q in *. cbn in *. by rewrite TrimSpace_idem.
Qed.
End posting.

Lemma mutate_wf s q kind now s' r :
  ledger_wf s → admissible s q kind → mutate s q kind now = (s', r) → ledger_wf s'.
Proof.
  intros Hwf Had Hm. pose proof (mutate_cases s q kind now) as Hc. rewrite Hm in Hc.
  inversion Hc; subst; try done. by apply posted_wf.
Qed.

Lemma reachable_wf s o : reachable s o → ledger_wf s.
Proof.
  induction 1; eauto using new_wf, EnsureAccount_wf, mutate_wf.
Qed.

(** Accounts have the opening balance recorded for them and every transaction
    since, and nobody has one without an account. *)
Lemma reachable_conserves s o :
  reachable s o →
  (∀ u, is_Some (o !! u) ↔ is_Some (accounts s !! u))
  ∧ ∀ u a, accounts s !! u = Some a →
      a_Balance a = default 0 (o !! u) + sum_map (delta_of u) (transactions s).
Proof.
  induction 1 as [|s o u b now s' r Hreach [Hdom Hcons] Hb He|s o q kind now s' r Hreach [Hdom Hcons] Had Hm].
  - split; intros *; cbn; rewrite ?lookup_empty; [by split; intros [? ?]|done].
  - pose proof (reachable_wf _ _ Hreach) as Hwf. unfold EnsureAccount in He.
    destruct (_ || _); simplify_eq/=; [by destruct (accounts s' !! TrimSpace u)|].
    destruct (accounts s !! TrimSpace u) as [a|] eqn:Ha; simplify_eq/=.
    { by split. }
    rewrite lookup_insert_eq. split.
    + intros v. destruct (decide (TrimSpace u = v)) as [<-|]; simplify_map_eq; naive_solver.
    + intros v a. destruct (decide (TrimSpace u = v)) as [<-|]; simplify_map_eq; [|naive_solver].
      intros [= <-]. rewrite sum_map_zero; [cbn; lia|].
      intros id t Ht. unfold delta_of. case_bool_decide; [|done].
      destruct (tw_account _ _ _ (lw_transaction _ Hwf _ _ Ht)). congruence.
  - pose proof (reachable_wf _ _ Hreach) as Hwf.
    pose proof (mutate_cases s q kind now) as Hc. rewrite Hm in Hc.
    inversion Hc as [| |a q' Hacc]; subst; [done|done|]. split.
    + intros v. rewrite Hdom. unfold posted. cbn.
      pose proof (ac_account _ _ _ _ Hacc) as Ha. cbn in Ha.
      destruct (decide (TrimSpace (q_UserID q) = v)) as [<-|]; simplify_map_eq; naive_solver.
    + intros v b. by apply posted_conserves.
Qed.

(** ** Replays *)

Lemma equalBreakdown_refl m : equalBreakdown m m = true.
Proof.
  unfold equalBreakdown. rewrite Nat.eqb_refl. simpl. destruct m as [m|]; [|done].
  apply forallb_forall. intros [k v] Hin. apply bool_decide_eq_true. simpl.
  by apply elem_of_map_to_list, list_elem_of_In.
Qed.

Lemma normalize_idem q : normalizeMutationRequest (normalizeMutationRequest q) = normalizeMutationRequest q.
Proof. unfold normalizeMutationRequest. cbn. by rewrite !TrimSpace_idem. Qed.

(** A transaction agrees with a request on everything a replay compares. *)
Definition same_mutation (t : Transaction) (kind : string) (q : MutationRequest) : bool :=
  bool_decide (TrimSpace (t_Kind t) = TrimSpace kind)
  && bool_decide (TrimSpace (t_UserID t) = TrimSpace (q_UserID q))
  && (t_Points t =? q_Points q)
  && bool_decide (TrimSpace (t_ReferenceID t) = TrimSpace (q_ReferenceID q))
  && bool_decide (TrimSpace (t_OperationID t) = TrimSpace (q_OperationID q))
  && bool_decide (TrimSpace (t_BatchID t) = TrimSpace (q_BatchID q))
  && bool_decide (TrimSpace (t_JobID t) = TrimSpace (q_JobID q))
  && equalBreakdown (t_Breakdown t) (q_Breakdown q).

Lemma replay_mismatch_spec t kind q :
  bool_decide (replay_mismatch t kind (normalizeMutationRequest q) = "") = same_mutation t kind q.
Proof.
  unfold replay_mismatch, same_mutation. cbn [normalizeMutationRequest q_UserID q_Points
    q_ReferenceID q_OperationID q_BatchID q_JobID q_Breakdown cloneBreakdown].
  unfold cloneBreakdown.
  repeat match goal with
  | |- context [if negb ?b then _ else _] =>
      destruct b; cbn [negb andb]; [|rewrite ?andb_false_r; reflexivity]
  end. reflexivity.
Qed.

Lemma validateIdempotentReplay_spec t kind q :
  match validateIdempotentReplay t kind q with
  | None => same_mutation t kind q = true
  | Some e => same_mutation t kind q = false ∧ errors_Is e ErrIdempotencyConflict = true
  end.
Proof.
  unfold validateIdempotentReplay. rewrite replay_mismatch_spec.
  by destruct (same_mutation t kind q).
Qed.

(** The transaction a request posts is a replay of itself. *)
Lemma replay_of_posted q a kind now :
  validateIdempotentReplay (posted_transaction (normalizeMutationRequest q) a kind now) kind
    (normalizeMutationRequest q) = None.
Proof.
  unfold validateIdempotentReplay. rewrite replay_mismatch_spec. unfold same_mutation. cbn.
  rewrite !TrimSpace_idem, Z.eqb_refl, equalBreakdown_refl.
  by rewrite !bool_decide_true by done.
Qed.

Lemma posted_lookup s q a kind now :
  let s' := posted s (normalizeMutationRequest q) a kind now in
  byKey s' !! TrimSpace (q_IdempotencyKey q) = Some (TrimSpace (q_TransactionID q))
  ∧ transactions s' !! TrimSpace (q_TransactionID q)
    = Some (posted_transaction (normalizeMutationRequest q) a kind now).
Proof. cbn. by rewrite !TrimSpace_idem, !lookup_insert_eq. Qed.

(** After a success the key is bound, to the transaction that was returned. *)
Lemma mutate_binds s q kind now s' r :
  mutate s q kind now = (s', Ok r) →
  ∃ id, byKey s' !! TrimSpace (q_IdempotencyKey q) = Some id
        ∧ default (mkTransaction "" "" "" "" "" "" "" "" 0 0 0 None None zeroTime)
            (transactions s' !! id) = r_Transaction r
        ∧ validate (normalizeMutationRequest q) kind = None
        ∧ validateIdempotentReplay (r_Transaction r) kind (normalizeMutationRequest q) = None.
Proof.
  intros Hm. pose proof (mutate_cases s q kind now) as Hc. rewrite Hm in Hc.
  inversion Hc as [|id Hv Hk t Ht Hr|a q' Hacc]; subst.
  - exists id. by repeat split.
  - destruct (posted_lookup s q a kind now) as [Hk Ht].
    eexists. split; [exact Hk|]. unfold q'. rewrite Ht. split; [done|].
    split; [apply (ac_valid _ _ _ _ Hacc)|apply replay_of_posted].
Qed.

(** What a request does once its key is bound. *)
Lemma mutate_bound s q kind now id :
  byKey s !! TrimSpace (q_IdempotencyKey q) = Some id →
  validate (normalizeMutationRequest q) kind = None →
  mutate s q kind now =
    (s, let t := default (mkTransaction "" "" "" "" "" "" "" "" 0 0 0 None None zeroTime)
                   (transactions s !! id) in
        match validateIdempotentReplay t kind (normalizeMutationRequest q) with
        | Some e => Err e
        | None => Ok (mkResult t true)
        end).
Proof.
  intros Hk Hv. unfold mutate. rewrite Hv. cbn [q_IdempotencyKey normalizeMutationRequest].
  rewrite Hk. by destruct (validateIdempotentReplay _ _ _).
Qed.

(** Whatever is asked under a key that is bound, the store stays as it is; and once a key
    is bound it stays so, whatever the ledger is asked to do. *)
Lemma bound_key_blocks s q kind now :
  is_Some (byKey s !! TrimSpace (q_IdempotencyKey q)) → fst (mutate s q kind now) = s.
Proof.
  intros [id Hk]. unfold mutate. destruct (validate _ _); [done|]. cbn [q_IdempotencyKey normalizeMutationRequest].
  rewrite Hk. by destruct (validateIdempotentReplay _ _ _).
Qed.

Inductive ledger_op (s : MemoryStore) : MemoryStore → Prop :=
| op_ensure userID initialBalance now : ledger_op s (fst (EnsureAccount s userID initialBalance now))
| op_mutate q kind now : ledger_op s (fst (mutate s q kind now)).

Lemma ledger_op_keys s s' key : ledger_op s s' → is_Some (byKey s !! key) → is_Some (byKey s' !! key).
Proof.
  intros [userID b now|q kind now] Hk.
  - unfold EnsureAccount. destruct (_ || _); [done|]. by destruct (accounts s !! _).
  - destruct (mutate_cases s q kind now) as [|?|a q' Hacc]; cbn; [done|done|].
    apply lookup_insert_is_Some'. by right.
Qed.

Lemma ledger_ops_keys s s' key : rtc ledger_op s s' → is_Some (byKey s !! key) → is_Some (byKey s' !! key).
Proof. induction 1; eauto using ledger_op_keys. Qed.

(** ** Properties *)

(** C18. Along every run of a client whose transaction ids belong to one
    idempotency key and whose sums fit an [int64], the ledger keeps its
    invariant: balances are never negative, the key index and the transactions
    correspond one to one, every refund points at a charge of the same user and
    the refunds of a charge never exceed it; and every balance is the opening
    balance plus the deltas of the account's transactions. *)
Theorem ledger_invariant (s : MemoryStore) (o : gmap string Z) :
  reachable s o →
  ledger_wf s
  ∧ ∀ u a, accounts s !! u = Some a →
      ∃ b, o !! u = Some b ∧ a_Balance a = b + sum_map (delta_of u) (transactions s).
Proof.
  intros H. split; [by eapply reachable_wf|].
  destruct (reachable_conserves s o H) as [Hdom Hcons]. intros u a Ha.
  destruct (proj2 (Hdom u) ltac:(eauto)) as [b Hb]. exists b. split; [done|].
  rewrite (Hcons u a Ha), Hb. done.
Qed.

(** A request that succeeded is bound to its key: any later request under
    the same key leaves the store alone, and returns the recorded transaction,
    marked as a duplicate, when it names the same kind, user, points, references
    and breakdown, and an idempotency conflict when it does not. *)
Theorem mutate_idempotent s q kind now s' r q2 kind2 now2 :
  mutate s q kind now = (s', Ok r) →
  TrimSpace (q_IdempotencyKey q2) = TrimSpace (q_IdempotencyKey q) →
  validate (normalizeMutationRequest q2) kind2 = None →
  mutate s' q kind now2 = (s', Ok (mkResult (r_Transaction r) true))
  ∧ fst (mutate s' q2 kind2 now2) = s'
  ∧ match snd (mutate s' q2 kind2 now2) with
    | Ok r2 => same_mutation (r_Transaction r) kind2 (normalizeMutationRequest q2) = true
               ∧ r2 = mkResult (r_Transaction r) true
    | Err e => same_mutation (r_Transaction r) kind2 (normalizeMutationRequest q2) = false
               ∧ errors_Is e ErrIdempotencyConflict = true
    end.
Proof.
  intros Hm Hkey Hv2. destruct (mutate_binds _ _ _ _ _ _ Hm) as (id & Hk & Ht & Hv & Hr).
  rewrite (mutate_bound s' q kind now2 id Hk Hv), Ht. cbn zeta. rewrite Hr. split; [done|].
  rewrite <-Hkey in Hk. rewrite (mutate_bound s' q2 kind2 now2 id Hk Hv2), Ht. cbn zeta. split; [done|].
  pose proof (validateIdempotentReplay_spec (r_Transaction r) kind2 (normalizeMutationRequest q2)) as Hs.
  cbn. destruct (validateIdempotentReplay _ kind2 _); naive_solver.
Qed.

(** A charge under a new key either fails and changes nothing, with "account
    not found" or "insufficient points", or takes exactly its points from the
    balance of its user, which stays non-negative, records the new balance in
    the transaction and touches no other account. *)
Theorem charge_effect s q now :
  ledger_wf s → in_int64 (q_Points q) →
  validate (normalizeMutationRequest q) KindCharge = None →
  byKey s !! TrimSpace (q_IdempotencyKey q) = None →
  let u := TrimSpace (q_UserID q) in
  match accounts s !! u with
  | None => Charge s q now = (s, Err ErrAccountNotFound)
  | Some a =>
      if a_Balance a <? q_Points q then Charge s q now = (s, Err ErrInsufficientPoints)
      else ∃ s' t, Charge s q now = (s', Ok (mkResult t false))
        ∧ 0 <= a_Balance a - q_Points q
        ∧ (a_Balance <$> accounts s' !! u) = Some (a_Balance a - q_Points q)
        ∧ t_BalanceAfter t = a_Balance a - q_Points q
        ∧ t_Delta t = - q_Points q
        ∧ ∀ v, v ≠ u → accounts s' !! v = accounts s !! v
  end.
Proof.
  intros Hwf Hp Hv Hk u. destruct (validate_None _ _ Hv) as [Hpos _]. cbn in Hpos.
  unfold Charge, mutate. rewrite Hv. cbn [q_IdempotencyKey q_UserID q_Points normalizeMutationRequest].
  rewrite Hk. fold u. destruct (accounts s !! u) as [a|] eqn:Ha; [|done].
  rewrite (bool_decide_true (KindCharge = KindCharge)) by done.
  rewrite (bool_decide_false (KindCharge = KindRefund)) by done.
  destruct (Z.ltb_spec (a_Balance a) (q_Points q)) as [|Hle]; [done|].
  destruct (lw_balance _ Hwf _ _ Ha) as [_ Hb]. unfold in_int64 in Hp.
  assert (wrap64 (a_Balance a + wrap64 (- q_Points q)) = a_Balance a - q_Points q) as Hw.
  { rewrite wrap64_opp_small by lia. apply wrap64_id. unfold in_int64, int64_min in *. lia. }
  do 2 eexists. split; [reflexivity|]. cbn. rewrite Hw, lookup_insert_eq. cbn.
  rewrite wrap64_opp_small by lia. repeat split; try done; try lia.
  intros v Hne. by rewrite lookup_insert_ne.
Qed.

(** ** Concrete runs *)

Definition sample_request id key ref points : MutationRequest :=
  mkMutationRequest id "u" key ref "op" "b" "j" points None None.

Definition sample_open : MemoryStore := fst (EnsureAccount NewMemoryStore " u " 100 5).
Definition sample_charged : MemoryStore :=
  fst (Charge sample_open (sample_request "charge:j" "kc" "" 60) 6).
Definition sample_refunded : MemoryStore :=
  fst (Refund sample_charged (sample_request "refund:j" "kr" "charge:j" 40) 7).

Lemma sample_reachable : reachable sample_refunded {[ "u" := 100 ]}.
Proof.
  assert (reachable sample_open {[ "u" := 100 ]}) as H1.
  { pose proof (reach_ensure NewMemoryStore ∅ " u " 100 5 _ _ reach_new
      ltac:(by vm_compute) (surjective_pairing _)) as H.
    eapply eq_ind; [exact H|]. by vm_compute. }
  assert (reachable sample_charged {[ "u" := 100 ]}) as H2.
  { eapply (reach_mutate _ _ (sample_request "charge:j" "kc" "" 60) KindCharge 6); [exact H1| |apply surjective_pairing].
    split; [by right; left|by vm_compute|by vm_compute|done|done]. }
  eapply (reach_mutate _ _ (sample_request "refund:j" "kr" "charge:j" 40) KindRefund 7); [exact H2| |apply surjective_pairing].
  split; [by right; right|by vm_compute|by vm_compute| |by vm_compute].
  intros a Ha _. vm_compute in Ha. simplify_eq. by vm_compute.
Qed.

Lemma ledger_invariant_witness :
  ledger_wf sample_refunded
  ∧ (a_Balance <$> accounts sample_refunded !! "u") = Some 80.
Proof.
  split; [exact (proj1 (ledger_invariant _ _ sample_reachable))|vm_compute; reflexivity].
Defined.

Lemma mutate_idempotent_witness :
  ∃ r, mutate sample_charged (sample_request "charge:j" "kc" "" 60) KindCharge 9
         = (sample_charged, Ok (mkResult r true))
       ∧ fst (mutate sample_charged (sample_request "x" "kc " "" 61) KindCredit 9) = sample_charged.
Proof.
  assert (∃ r, mutate sample_open (sample_request "charge:j" "kc" "" 60) KindCharge 6
               = (sample_charged, Ok r)) as [r Hr]
    by (eexists; vm_compute; reflexivity).
  exists (r_Transaction r).
  destruct (mutate_idempotent _ _ _ _ _ _ (sample_request "x" "kc " "" 61) KindCredit 9 Hr
    ltac:(by vm_compute) ltac:(by vm_compute)) as (H1 & H2 & _).
  exact (conj H1 H2).
Defined.

Lemma charge_effect_witness :
  snd (Charge sample_refunded (sample_request "c2" "k2" "" 81) 9) = Err ErrInsufficientPoints.
Proof.
  pose proof (charge_effect sample_refunded (sample_request "c2" "k2" "" 81) 9
    (reachable_wf _ _ sample_reachable) ltac:(by vm_compute) ltac:(by vm_compute)
    ltac:(by vm_compute)) as H.
  vm_compute in H |- *. exact (f_equal snd H).
Defined.

(** The in-memory store files a transaction under its id without looking
    whether the id is taken: a refund that reuses the id of an earlier one
    erases it from the running total, and a charge of 60 points is refunded
    with 80, every request accepted. *)
Theorem refund_id_reuse_exceeds_charge :
  let s1 := fst (Refund sample_charged (sample_request "refund:j" "kr" "charge:j" 20) 7) in
  let s2 := fst (Refund s1 (sample_request "refund:j" "kr2" "charge:j" 40) 8) in
  let q3 := sample_request "refund:k" "kr3" "charge:j" 20 in
  let s3 := fst (Refund s2 q3 9) in
  (∃ t, snd (Refund s2 q3 9) = Ok (mkResult t false))
  ∧ (t_Points <$> transactions s3 !! "charge:j") = Some 60
  ∧ (a_Balance <$> accounts s3 !! "u") = Some (100 - 60 + 20 + 40 + 20)
  ∧ refunded s3 "charge:j" = 60.
Proof. cbn zeta. repeat split; [eexists; vm_compute; reflexivity|..]; vm_compute; reflexivity. Qed.

(** The refund check adds in [int64]: with one point refunded, a refund of
    the largest [int64] wraps around to a negative total and is accepted against
    a charge of 60 points. *)
Theorem refund_overflow_accepted :
  let s1 := fst (Refund sample_charged (sample_request "refund:j" "kr" "charge:j" 1) 7) in
  let q := sample_request "refund:2" "kr2" "charge:j" int64_max in
  (∃ t, snd (Refund s1 q 8) = Ok (mkResult t false))
  ∧ (a_Balance <$> accounts (fst (Refund s1 q 8)) !! "u") = Some (wrap64 (41 + int64_max))
  ∧ wrap64 (41 + int64_max) < 0.
Proof. cbn zeta. repeat split; [eexists; vm_compute; reflexivity|..]; vm_compute; reflexivity. Qed.

End Billing.
