(* ===== verification/GenModels.v ===== *)
(** * Generation records and state machines

    The data of [internal/aigc/generation/models.go] (operations, batches, jobs,
    delivery policies, binding tokens, costs) and the transition tables of
    [state_machine.go].  A status is the string the source stores; an unknown
    string is therefore a value of the model too. *)

From Stdlib Require Import ZArith Lia.
From S2P Require Import Prelude GoJson.

Definition ErrVersionConflict := errors_New "generation version conflict".
Definition ErrInvalidTransition := errors_New "invalid generation state transition".
Definition ErrDuplicate := errors_New "generation record already exists".
Definition ErrIdempotencyConflict := errors_New "generation idempotency key conflict".
Definition ErrNotFound := errors_New "generation job not found".

Definition StatusQueued := "queued".
Definition StatusRunning := "running".
Definition StatusWaitingProvider := "waiting_provider".
Definition StatusFinalizing := "finalizing".
Definition StatusRetryWait := "retry_wait".
Definition StatusSucceeded := "succeeded".
Definition StatusFailed := "failed".
Definition StatusCancelled := "cancelled".

Definition OperationStatusAccepted := "accepted".
Definition OperationStatusWaitingJobs := "waiting_jobs".
Definition OperationStatusCompleted := "completed".
Definition OperationStatusPartialFailed := "partial_failed".
Definition OperationStatusFailed := "failed".
Definition OperationStatusCancelled := "cancelled".

Definition BatchStatusWaitingJobs := "waiting_jobs".
Definition BatchStatusFinalizing := "finalizing".
Definition BatchStatusCancelling := "cancelling".
Definition BatchStatusCompleted := "completed".
Definition BatchStatusPartialFailed := "partial_failed".
Definition BatchStatusFailed := "failed".
Definition BatchStatusCancelled := "cancelled".

Definition CompletionAllRequired := "all_required".
Definition CompletionAllowPartial := "allow_partial".
Definition CompletionMinSuccess := "min_success".

Definition WakeOnTerminal := "on_terminal".
Definition WakeOnFailure := "on_failure".
Definition WakeNever := "never".

Definition BindingModeCandidate := "candidate".
Definition BindingModeActive := "active".

Definition ApprovalReviewRequired := "review_required".
Definition ApprovalAutoApprove := "auto_approve".

Definition ChargePostpaidNoReservation := "postpaid_no_reservation".
Definition ChargeReserveThenSettle := "reserve_then_settle".

Definition PhaseProviderSubmit := "provider_submit".
Definition PhaseProviderPoll := "provider_poll".
Definition PhaseArtifactFinalize := "artifact_finalize".
Definition PhaseBillingCharge := "billing_charge".
Definition PhaseCompensation := "compensation".

Definition DispositionBoundCandidate := "bound_candidate".
Definition DispositionBoundActive := "bound_active".
Definition DispositionSuperseded := "superseded".
Definition DispositionOrphaned := "orphaned".

Definition BillingNotStarted := "not_started".
Definition BillingCharging := "charging".
Definition BillingCharged := "charged".
Definition BillingFailed := "failed".

Definition CompensationNotRequired := "not_required".
Definition CompensationPending := "pending".
Definition CompensationRunning := "running".
Definition CompensationRetryWait := "retry_wait".
Definition CompensationCompleted := "completed".
Definition CompensationManualFinal := "manual_final".

Definition ProviderImage2 := "image2".
Definition ProviderSeedance := "seedance".
Definition ProviderAudio := "audio".
Definition ProviderAssembly := "assembly".

Definition TargetKeyElement := "key_element".
Definition TargetShot := "shot".
Definition TargetAudioLayer := "audio_layer".

Definition DefaultProviderMaxPollAttempts : Z := 120.

Record GenerationOperation := mkGenerationOperation {
  o_ID : string;
  o_SessionID : string;
  o_UserID : string;
  o_WorkflowRunID : string;
  o_StageRunID : string;
  o_ToolCallID : string;
  o_IdempotencyKey : string;
  o_RequestFingerprint : string;
  o_Kind : string;
  o_Status : string;
  o_BatchID : string;
  o_Result : gomap any;
  o_ErrorCode : string;
  o_ErrorMessage : string;
  o_Version : Z;
  o_CreatedAt : Time;
  o_UpdatedAt : Time;
  o_TerminalAt : option Time
}.
#[global] Instance eta_GenerationOperation : Eta GenerationOperation := fun r =>
  mkGenerationOperation (o_ID r) (o_SessionID r) (o_UserID r) (o_WorkflowRunID r)
  (o_StageRunID r) (o_ToolCallID r) (o_IdempotencyKey r) (o_RequestFingerprint r) (o_Kind r)
  (o_Status r) (o_BatchID r) (o_Result r) (o_ErrorCode r) (o_ErrorMessage r) (o_Version r)
  (o_CreatedAt r) (o_UpdatedAt r) (o_TerminalAt r).
Definition zeroGenerationOperation : GenerationOperation :=
  mkGenerationOperation "" "" "" "" "" "" "" "" "" "" "" None "" "" 0 zeroTime zeroTime None.

Record DeliveryPolicy := mkDeliveryPolicy {
  p_BindingMode : string;
  p_ApprovalPolicy : string;
  p_ChargePolicy : string
}.
#[global] Instance eta_DeliveryPolicy : Eta DeliveryPolicy := fun r =>
  mkDeliveryPolicy (p_BindingMode r) (p_ApprovalPolicy r) (p_ChargePolicy r).
Definition zeroDeliveryPolicy : DeliveryPolicy :=
  mkDeliveryPolicy "" "" "".

Record BindingToken := mkBindingToken {
  k_StoryboardID : string;
  k_TargetID : string;
  k_AssetSlot : string;
  k_TargetRevision : Z;
  k_PromptRevision : Z;
  k_GenerationEpoch : Z;
  k_SpecVersion : Z;
  k_AggregateVersion : Z;
  k_InputFingerprint : string
}.
#[global] Instance eta_BindingToken : Eta BindingToken := fun r =>
  mkBindingToken (k_StoryboardID r) (k_TargetID r) (k_AssetSlot r) (k_TargetRevision r)
  (k_PromptRevision r) (k_GenerationEpoch r) (k_SpecVersion r) (k_AggregateVersion r)
  (k_InputFingerprint r).
Definition zeroBindingToken : BindingToken :=
  mkBindingToken "" "" "" 0 0 0 0 0 "".

Record CostSummary := mkCostSummary {
  c_GrossChargedPoints : Z;
  c_RefundedPoints : Z;
  c_NetChargedPoints : Z;
  c_Breakdown : gomap Z;
  c_BalanceAfter : option Z
}.
#[global] Instance eta_CostSummary : Eta CostSummary := fun r =>
  mkCostSummary (c_GrossChargedPoints r) (c_RefundedPoints r) (c_NetChargedPoints r)
  (c_Breakdown r) (c_BalanceAfter r).
Definition zeroCostSummary : CostSummary :=
  mkCostSummary 0 0 0 None None.

Record GenerationBatch := mkGenerationBatch {
  b_ID : string;
  b_SessionID : string;
  b_UserID : string;
  b_WorkflowRunID : string;
  b_StageRunID : string;
  b_OperationID : string;
  b_ToolCallID : string;
  b_Kind : string;
  b_Status : string;
  b_CompletionPolicy : string;
  b_MinSuccess : Z;
  b_WakePolicy : string;
  b_DeliveryPolicy : DeliveryPolicy;
  b_RequiredJobs : Z;
  b_OptionalJobs : Z;
  b_SucceededJobs : Z;
  b_FailedJobs : Z;
  b_CancelledJobs : Z;
  b_ExpectedSpecVersion : Z;
  b_ExpectedStoryboardVersion : Z;
  b_ResultStoryboardVersion : Z;
  b_Cost : CostSummary;
  b_CancelRequested : bool;
  b_CancelRequestedAt : option Time;
  b_ErrorCode : string;
  b_ErrorMessage : string;
  b_Version : Z;
  b_CreatedAt : Time;
  b_UpdatedAt : Time;
  b_TerminalAt : option Time
}.
#[global] Instance eta_GenerationBatch : Eta GenerationBatch := fun r =>
  mkGenerationBatch (b_ID r) (b_SessionID r) (b_UserID r) (b_WorkflowRunID r) (b_StageRunID r)
  (b_OperationID r) (b_ToolCallID r) (b_Kind r) (b_Status r) (b_CompletionPolicy r)
  (b_MinSuccess r) (b_WakePolicy r) (b_DeliveryPolicy r) (b_RequiredJobs r) (b_OptionalJobs r)
  (b_SucceededJobs r) (b_FailedJobs r) (b_CancelledJobs r) (b_ExpectedSpecVersion r)
  (b_ExpectedStoryboardVersion r) (b_ResultStoryboardVersion r) (b_Cost r)
  (b_CancelRequested r) (b_CancelRequestedAt r) (b_ErrorCode r) (b_ErrorMessage r)
  (b_Version r) (b_CreatedAt r) (b_UpdatedAt r) (b_TerminalAt r).
Definition zeroGenerationBatch : GenerationBatch :=
  mkGenerationBatch "" "" "" "" "" "" "" "" "" "" 0 "" zeroDeliveryPolicy 0 0 0 0 0 0 0 0
  zeroCostSummary false None "" "" 0 zeroTime zeroTime None.

Record GenerationJob := mkGenerationJob {
  j_ID : string;
  j_BatchID : string;
  j_OperationID : string;
  j_SessionID : string;
  j_UserID : string;
  j_WorkflowRunID : string;
  j_StageRunID : string;
  j_StoryboardID : string;
  j_ToolCallID : string;
  j_IdempotencyKey : string;
  j_Provider : string;
  j_MediaKind : string;
  j_TargetType : string;
  j_TargetID : string;
  j_AssetSlot : string;
  j_VariantKey : string;
  j_Required : bool;
  j_StoryboardVersionAtDispatch : Z;
  j_BindingToken : BindingToken;
  j_DeliveryPolicy : DeliveryPolicy;
  j_Status : string;
  j_Phase : string;
  j_RetryCount : Z;
  j_MaxRetries : Z;
  j_Attempt : Z;
  j_MaxAttempts : Z;
  j_ProviderPollAttempts : Z;
  j_MaxProviderPollAttempts : Z;
  j_NextRunAt : Time;
  j_LeaseOwner : string;
  j_LeaseUntil : option Time;
  j_StatusVersion : Z;
  j_ProviderTaskID : string;
  j_ProviderRequestID : string;
  j_ProviderStatus : string;
  j_Payload : gomap any;
  j_Result : gomap any;
  j_ResultAssetIDs : list string;
  j_ResultDisposition : string;
  j_ProviderUsageRecorded : bool;
  j_ProviderUsageReported : bool;
  j_ProviderActualPoints : Z;
  j_ProviderCostBreakdown : gomap Z;
  j_SettlementQuoteRecorded : bool;
  j_SettlementPoints : Z;
  j_SettlementBreakdown : gomap Z;
  j_ChargedPoints : Z;
  j_CompensatedPoints : Z;
  j_NetChargedPoints : Z;
  j_CostBreakdown : gomap Z;
  j_BillingStatus : string;
  j_BillingTransactionID : string;
  j_BillingIdempotencyKey : string;
  j_CompensationStatus : string;
  j_CompensationEventID : string;
  j_RefundTransactionID : string;
  j_BalanceAfter : option Z;
  j_CancelRequested : bool;
  j_ErrorStage : string;
  j_ErrorCode : string;
  j_ErrorMessage : string;
  j_Retryable : bool;
  j_CreatedAt : Time;
  j_UpdatedAt : Time;
  j_StartedAt : option Time;
  j_TerminalAt : option Time
}.
#[global] Instance eta_GenerationJob : Eta GenerationJob := fun r =>
  mkGenerationJob (j_ID r) (j_BatchID r) (j_OperationID r) (j_SessionID r) (j_UserID r)
  (j_WorkflowRunID r) (j_StageRunID r) (j_StoryboardID r) (j_ToolCallID r) (j_IdempotencyKey r)
  (j_Provider r) (j_MediaKind r) (j_TargetType r) (j_TargetID r) (j_AssetSlot r)
  (j_VariantKey r) (j_Required r) (j_StoryboardVersionAtDispatch r) (j_BindingToken r)
  (j_DeliveryPolicy r) (j_Status r) (j_Phase r) (j_RetryCount r) (j_MaxRetries r) (j_Attempt r)
  (j_MaxAttempts r) (j_ProviderPollAttempts r) (j_MaxProviderPollAttempts r) (j_NextRunAt r)
  (j_LeaseOwner r) (j_LeaseUntil r) (j_StatusVersion r) (j_ProviderTaskID r)
  (j_ProviderRequestID r) (j_ProviderStatus r) (j_Payload r) (j_Result r) (j_ResultAssetIDs r)
  (j_ResultDisposition r) (j_ProviderUsageRecorded r) (j_ProviderUsageReported r)
  (j_ProviderActualPoints r) (j_ProviderCostBreakdown r) (j_SettlementQuoteRecorded r)
  (j_SettlementPoints r) (j_SettlementBreakdown r) (j_ChargedPoints r) (j_CompensatedPoints r)
  (j_NetChargedPoints r) (j_CostBreakdown r) (j_BillingStatus r) (j_BillingTransactionID r)
  (j_BillingIdempotencyKey r) (j_CompensationStatus r) (j_CompensationEventID r)
  (j_RefundTransactionID r) (j_BalanceAfter r) (j_CancelRequested r) (j_ErrorStage r)
  (j_ErrorCode r) (j_ErrorMessage r) (j_Retryable r) (j_CreatedAt r) (j_UpdatedAt r)
  (j_StartedAt r) (j_TerminalAt r).
Definition zeroGenerationJob : GenerationJob :=
  mkGenerationJob "" "" "" "" "" "" "" "" "" "" "" "" "" "" "" "" false 0 zeroBindingToken
  zeroDeliveryPolicy "" "" 0 0 0 0 0 0 zeroTime "" None 0 "" "" "" None None [] "" false false
  0 None false 0 None 0 0 0 None "" "" "" "" "" "" None false "" "" "" false zeroTime zeroTime
  None None.

(** ** Policies and tokens *)

Definition DeliveryPolicy_Normalize (p : DeliveryPolicy) : DeliveryPolicy :=
  mkDeliveryPolicy
    (if bool_decide (p_BindingMode p = "") then BindingModeCandidate else p_BindingMode p)
    (if bool_decide (p_ApprovalPolicy p = "") then ApprovalReviewRequired else p_ApprovalPolicy p)
    (if bool_decide (p_ChargePolicy p = "") then ChargePostpaidNoReservation else p_ChargePolicy p).

Definition DeliveryPolicy_Validate (p : DeliveryPolicy) : option error :=
  let p := DeliveryPolicy_Normalize p in
  if negb (bool_decide (p_BindingMode p = BindingModeCandidate))
     && negb (bool_decide (p_BindingMode p = BindingModeActive))
  then Some (Errorf ("invalid binding mode " +:+ Quote (p_BindingMode p)))
  else if negb (bool_decide (p_ApprovalPolicy p = ApprovalReviewRequired))
     && negb (bool_decide (p_ApprovalPolicy p = ApprovalAutoApprove))
  then Some (Errorf ("invalid approval policy " +:+ Quote (p_ApprovalPolicy p)))
  else if negb (bool_decide (p_ChargePolicy p = ChargePostpaidNoReservation))
     && negb (bool_decide (p_ChargePolicy p = ChargeReserveThenSettle))
  then Some (Errorf ("invalid charge policy " +:+ Quote (p_ChargePolicy p)))
  else if bool_decide (p_ApprovalPolicy p = ApprovalReviewRequired)
     && negb (bool_decide (p_BindingMode p = BindingModeCandidate))
  then Some (Errorf "review-required delivery must create a candidate binding")
  else None.

Definition BindingToken_Validate (t : BindingToken) : option error :=
  if blank (k_StoryboardID t) || blank (k_TargetID t) || blank (k_AssetSlot t)
  then Some (Errorf "binding token storyboard, target and asset slot are required")
  else if (k_TargetRevision t <? 0) || (k_PromptRevision t <? 0) || (k_GenerationEpoch t <? 0)
     || (k_SpecVersion t <? 0) || (k_AggregateVersion t <? 0)
  then Some (Errorf "binding token revisions cannot be negative")
  else if blank (k_InputFingerprint t)
  then Some (Errorf "binding token input fingerprint is required")
  else None.

Definition BindingToken_Equal (t other : BindingToken) : bool :=
  bool_decide (TrimSpace (k_StoryboardID t) = TrimSpace (k_StoryboardID other))
  && bool_decide (TrimSpace (k_TargetID t) = TrimSpace (k_TargetID other))
  && bool_decide (TrimSpace (k_AssetSlot t) = TrimSpace (k_AssetSlot other))
  && (k_TargetRevision t =? k_TargetRevision other)
  && (k_PromptRevision t =? k_PromptRevision other)
  && (k_GenerationEpoch t =? k_GenerationEpoch other)
  && (k_SpecVersion t =? k_SpecVersion other)
  && (k_AggregateVersion t =? k_AggregateVersion other)
  && bool_decide (TrimSpace (k_InputFingerprint t) = TrimSpace (k_InputFingerprint other)).

Definition normalizedMaxProviderPollAttempts (value : Z) : Z :=
  if value <=? 0 then DefaultProviderMaxPollAttempts else value.

(** ** Statuses *)

Definition job_statuses : list string :=
  [StatusQueued; StatusRunning; StatusWaitingProvider; StatusFinalizing; StatusRetryWait;
   StatusSucceeded; StatusFailed; StatusCancelled].

Definition NormalizeStatus (status : string) : string :=
  if bool_decide (status ∈ job_statuses) then status else "".

Definition IsTerminalJobStatus (status : string) : bool :=
  bool_decide (status = StatusSucceeded) || bool_decide (status = StatusFailed)
  || bool_decide (status = StatusCancelled).

Definition IsTerminalBatchStatus (status : string) : bool :=
  bool_decide (status = BatchStatusCompleted) || bool_decide (status = BatchStatusPartialFailed)
  || bool_decide (status = BatchStatusFailed) || bool_decide (status = BatchStatusCancelled).

Definition IsTerminalOperationStatus (status : string) : bool :=
  bool_decide (status = OperationStatusCompleted) || bool_decide (status = OperationStatusPartialFailed)
  || bool_decide (status = OperationStatusFailed) || bool_decide (status = OperationStatusCancelled).

(** ** Transition tables *)

Definition table := list (string * list string).

Definition jobTransitions : table :=
  [(StatusQueued, [StatusRunning; StatusCancelled; StatusFailed]);
   (StatusRunning, [StatusWaitingProvider; StatusFinalizing; StatusRetryWait; StatusFailed; StatusCancelled]);
   (StatusWaitingProvider, [StatusRunning; StatusFinalizing; StatusRetryWait; StatusFailed; StatusCancelled]);
   (StatusFinalizing, [StatusRetryWait; StatusSucceeded; StatusFailed; StatusCancelled]);
   (StatusRetryWait, [StatusRunning; StatusFinalizing; StatusFailed; StatusCancelled])].

Definition batchTransitions : table :=
  [(BatchStatusWaitingJobs,
     [BatchStatusFinalizing; BatchStatusCancelling; BatchStatusCompleted; BatchStatusPartialFailed;
      BatchStatusFailed; BatchStatusCancelled]);
   (BatchStatusFinalizing,
     [BatchStatusCancelling; BatchStatusCompleted; BatchStatusPartialFailed; BatchStatusFailed;
      BatchStatusCancelled]);
   (BatchStatusCancelling, [BatchStatusCancelled; BatchStatusCompleted; BatchStatusPartialFailed])].

Definition operationTransitions : table :=
  [(OperationStatusAccepted,
     [OperationStatusWaitingJobs; OperationStatusCompleted; OperationStatusPartialFailed;
      OperationStatusFailed; OperationStatusCancelled]);
   (OperationStatusWaitingJobs,
     [OperationStatusCompleted; OperationStatusPartialFailed; OperationStatusFailed;
      OperationStatusCancelled])].

(** [_, ok := t[from][to]]. *)
Fixpoint allows (t : table) (from to : string) : bool :=
  match t with
  | [] => false
  | (s, tos) :: t' => if bool_decide (s = from) then bool_decide (to ∈ tos) else allows t' from to
  end.

Definition transition_error (what from to : string) : error :=
  Wrapf "" ErrInvalidTransition (": " +:+ what +:+ " " +:+ Quote from +:+ " -> " +:+ Quote to).

Definition ValidateJobTransition (from to : string) : option error :=
  if bool_decide (NormalizeStatus from = "") || bool_decide (NormalizeStatus to = "")
  then Some (transition_error "job" from to)
  else if bool_decide (from = to) then None
  else if allows jobTransitions from to then None
  else Some (transition_error "job" from to).

Definition ValidateBatchTransition (from to : string) : option error :=
  if bool_decide (from = to) then None
  else if allows batchTransitions from to then None
  else Some (transition_error "batch" from to).

Definition ValidateOperationTransition (from to : string) : option error :=
  if bool_decide (from = to) then None
  else if allows operationTransitions from to then None
  else Some (transition_error "operation" from to).

(** ** Decidable equality of the records *)

#[global] Instance DeliveryPolicy_eq_dec : EqDecision DeliveryPolicy.
Proof. solve_decision. Defined.
#[global] Instance BindingToken_eq_dec : EqDecision BindingToken.
Proof. solve_decision. Defined.
#[global] Instance CostSummary_eq_dec : EqDecision CostSummary.
Proof. solve_decision. Defined.
#[global] Instance GenerationOperation_eq_dec : EqDecision GenerationOperation.
Proof. solve_decision. Defined.
#[global] Instance GenerationBatch_eq_dec : EqDecision GenerationBatch.
Proof. solve_decision. Defined.
#[global] Instance GenerationJob_eq_dec : EqDecision GenerationJob.
Proof. solve_decision. Defined.

(** ** The state machines *)

(** [bool_decide] hypotheses on statuses, turned into equalities. *)
Ltac status_cases :=
  repeat match goal with
  | H : _ && _ = true |- _ => apply andb_prop in H as [??]
  | H : _ || _ = true |- _ => apply orb_true_iff in H as [?|?]
  | H : bool_decide _ = true |- _ => apply bool_decide_eq_true in H
  | H : bool_decide _ = false |- _ => apply bool_decide_eq_false in H
  end; subst.

Lemma allows_inv t from to :
  allows t from to = true → ∃ tos, (from, tos) ∈ t ∧ to ∈ tos.
Proof.
  induction t as [|[s tos] t IH]; simpl; [done|].
  case_bool_decide; subst; intros Ha.
  - status_cases. exists tos. split; [left|done].
  - destruct (IH Ha) as (? & ? & ?). eexists. split; [by right|done].
Qed.

(** A property of every edge of a table is decided by running through it. *)
Definition forall_edges (t : table) (P : string → string → bool) : bool :=
  forallb (fun '(s, tos) => forallb (P s) tos) t.

Lemma forall_edges_spec t P from to :
  forall_edges t P = true → allows t from to = true → P from to = true.
Proof.
  intros HP (tos & Hin & Hto)%allows_inv. unfold forall_edges in HP.
  rewrite forallb_forall in HP. apply list_elem_of_In, HP in Hin. simpl in Hin.
  rewrite forallb_forall in Hin. by apply Hin, list_elem_of_In.
Qed.

Lemma empty_not_status : "" ∉ job_statuses.
Proof. apply (bool_decide_unpack _). by vm_compute. Qed.

Lemma ValidateJobTransition_None from to :
  ValidateJobTransition from to = None →
  from ∈ job_statuses ∧ to ∈ job_statuses ∧ (from = to ∨ allows jobTransitions from to = true).
Proof.
  unfold ValidateJobTransition, NormalizeStatus.
  destruct (decide (from ∈ job_statuses)) as [Hf|Hf];
    [rewrite (bool_decide_true (from ∈ _)) by done|rewrite (bool_decide_false (from ∈ _)) by done; done].
  destruct (decide (to ∈ job_statuses)) as [Ht|Ht];
    [rewrite (bool_decide_true (to ∈ _)) by done|rewrite (bool_decide_false (to ∈ _)) by done;
     by rewrite orb_true_r].
  rewrite (bool_decide_false (from = "")) by (intros ->; by apply empty_not_status).
  intros H. split; [done|]. split; [done|]. revert H.
  rewrite (bool_decide_false (to = "")) by (intros ->; by apply empty_not_status).
  cbn [orb]. case_bool_decide; [by left|]. destruct (allows _ _ _); [by right|done].
Qed.

Lemma job_terminal_stays from to :
  IsTerminalJobStatus from = true → ValidateJobTransition from to = None → from = to.
Proof.
  intros Hf (_ & _ & [->|Ha])%ValidateJobTransition_None; [done|].
  apply (forall_edges_spec _ (fun s _ => negb (IsTerminalJobStatus s))) in Ha; [|by vm_compute].
  by rewrite Hf in Ha.
Qed.

Lemma batch_terminal_stays from to :
  IsTerminalBatchStatus from = true → ValidateBatchTransition from to = None → from = to.
Proof.
  unfold ValidateBatchTransition. intros Hf. case_bool_decide; [done|].
  destruct (allows _ _ _) eqn:Ha; [|done].
  apply (forall_edges_spec _ (fun s _ => negb (IsTerminalBatchStatus s))) in Ha; [|by vm_compute].
  by rewrite Hf in Ha.
Qed.

Lemma operation_terminal_stays from to :
  IsTerminalOperationStatus from = true → ValidateOperationTransition from to = None → from = to.
Proof.
  unfold ValidateOperationTransition. intros Hf. case_bool_decide; [done|].
  destruct (allows _ _ _) eqn:Ha; [|done].
  apply (forall_edges_spec _ (fun s _ => negb (IsTerminalOperationStatus s))) in Ha; [|by vm_compute].
  by rewrite Hf in Ha.
Qed.

(** The job state machine: a terminal status is never left; a job succeeds
    only out of finalization; nothing returns to the queue; every accepted
    change is between known statuses; and every job that is not terminal may
    still be failed or cancelled. *)
Theorem job_state_machine from to :
  (ValidateJobTransition from to = None →
     (IsTerminalJobStatus from = true → to = from)
     ∧ (to = StatusSucceeded → from = StatusFinalizing ∨ from = StatusSucceeded)
     ∧ (to = StatusQueued → from = StatusQueued)
     ∧ from ∈ job_statuses ∧ to ∈ job_statuses)
  ∧ (from ∈ job_statuses → IsTerminalJobStatus from = false →
     ValidateJobTransition from StatusFailed = None
     ∧ ValidateJobTransition from StatusCancelled = None).
Proof.
  split.
  - intros Hv. pose proof (job_terminal_stays from to) as Ht.
    destruct (ValidateJobTransition_None _ _ Hv) as (Hf & Hto & Hedge).
    split; [naive_solver|]. repeat split; try done; intros ->; destruct Hedge as [->|Ha]; try tauto.
    + apply (forall_edges_spec _ (fun s t => negb (bool_decide (t = StatusSucceeded))
        || bool_decide (s = StatusFinalizing))) in Ha; [|by vm_compute].
      simpl in Ha. status_cases; try done. by left.
    + apply (forall_edges_spec _ (fun s t => negb (bool_decide (t = StatusQueued)))) in Ha;
        [done|by vm_compute].
  - intros Hin Hnt. unfold job_statuses in Hin. rewrite !elem_of_cons, elem_of_nil in Hin.
    destruct_or! Hin; subst; try done; by vm_compute.
Qed.

Lemma job_state_machine_witness :
  ValidateJobTransition StatusFinalizing StatusSucceeded = None
  ∧ StatusSucceeded ∈ job_statuses.
Proof.
  assert (ValidateJobTransition StatusFinalizing StatusSucceeded = None) as H by (by vm_compute).
  split; [exact H|].
  exact (proj2 (proj2 (proj2 (proj2 (proj1 (job_state_machine StatusFinalizing StatusSucceeded) H))))).
Defined.

(** A batch and an operation never leave a terminal status; a batch whose
    cancellation has started can only end cancelled, completed or partially
    failed. *)
Theorem batch_and_operation_state_machine from to :
  (ValidateBatchTransition from to = None → IsTerminalBatchStatus from = true → to = from)
  ∧ (ValidateOperationTransition from to = None → IsTerminalOperationStatus from = true → to = from)
  ∧ (ValidateBatchTransition BatchStatusCancelling to = None →
       to ∈ [BatchStatusCancelling; BatchStatusCancelled; BatchStatusCompleted; BatchStatusPartialFailed]).
Proof.
  split; [intros ? ?; symmetry; by apply batch_terminal_stays|].
  split; [intros ? ?; symmetry; by apply operation_terminal_stays|].
  unfold ValidateBatchTransition. case_bool_decide; [subst; intros _; left|].
  simpl. case_bool_decide; [|done]. intros _. by right.
Qed.

Lemma batch_and_operation_state_machine_witness :
  ValidateBatchTransition BatchStatusCancelling BatchStatusCancelled = None
  ∧ BatchStatusCancelled ∈ [BatchStatusCancelling; BatchStatusCancelled; BatchStatusCompleted; BatchStatusPartialFailed].
Proof.
  assert (ValidateBatchTransition BatchStatusCancelling BatchStatusCancelled = None) as H by (by vm_compute).
  split; [exact H|].
  exact (proj2 (proj2 (batch_and_operation_state_machine "" BatchStatusCancelled)) H).
Defined.

Lemma DeliveryPolicy_Normalize_idem p :
  DeliveryPolicy_Normalize (DeliveryPolicy_Normalize p) = DeliveryPolicy_Normalize p.
Proof.
  unfold DeliveryPolicy_Normalize. cbn. f_equal.
  all: repeat case_bool_decide; congruence.
Qed.
