(* ===== verification/WorkflowStore.v ===== *)
(** * The generation store: [internal/aigc/generation/workflow_store.go]

    The in-memory [WorkflowStore]: operations, batches, jobs and the outbox that
    is written in the same step as the aggregate it announces.  A state is a
    [world]: the maps of [MemoryStore] and an environment that counts the clock
    readings and the drawn identifiers and holds the state [X] of the services
    outside the store.  A mutation runs while the store is locked, so it may
    touch the environment and not the store. *)

From Stdlib Require Import ZArith Lia Ascii.
From S2P Require Import Prelude GoJson GenModels.

Definition OutboxPending := "pending".
Definition OutboxPublished := "published".
Definition OutboxDead := "dead".

Definition DestinationMediaJobs := "media.jobs".
Definition DestinationSessionSignal := "session.signals".
Definition DestinationBilling := "billing.compensation".

Definition EventOperationAccepted := "operation.accepted".
Definition EventJobDispatch := "job.dispatch".
Definition EventJobCancelRequested := "job.cancel_requested".
Definition EventOperationCancelRequested := "operation.cancel_requested".
Definition EventBatchFinalizeRequested := "batch.finalize_requested".
Definition EventJobLifecycleChanged := "job.lifecycle_changed".
Definition EventBillingCompensationRequested := "billing.compensation_requested".
Definition EventBillingCompensationCompleted := "billing.compensation_completed".
Definition EventBillingCompensationFailed := "billing.compensation_failed".

Record OutboxEvent := mkOutboxEvent {
  e_ID : string;
  e_IdempotencyKey : string;
  e_EventType : string;
  e_Destination : string;
  e_AggregateType : string;
  e_AggregateID : string;
  e_AggregateVersion : Z;
  e_SessionID : string;
  e_WorkflowRunID : string;
  e_StageRunID : string;
  e_OperationID : string;
  e_ToolCallID : string;
  e_BatchID : string;
  e_JobID : string;
  e_Payload : gomap any;
  e_Status : string;
  e_Attempts : Z;
  e_AvailableAt : Time;
  e_CreatedAt : Time;
  e_PublishedAt : option Time
}.
#[global] Instance eta_OutboxEvent : Eta OutboxEvent := fun r =>
  mkOutboxEvent (e_ID r) (e_IdempotencyKey r) (e_EventType r) (e_Destination r)
  (e_AggregateType r) (e_AggregateID r) (e_AggregateVersion r) (e_SessionID r)
  (e_WorkflowRunID r) (e_StageRunID r) (e_OperationID r) (e_ToolCallID r) (e_BatchID r)
  (e_JobID r) (e_Payload r) (e_Status r) (e_Attempts r) (e_AvailableAt r) (e_CreatedAt r)
  (e_PublishedAt r).
Definition zeroOutboxEvent : OutboxEvent :=
  mkOutboxEvent "" "" "" "" "" "" 0 "" "" "" "" "" "" "" None "" 0 zeroTime zeroTime None.

Record WorkflowAggregate := mkWorkflowAggregate {
  wa_Operation : GenerationOperation;
  wa_Batch : GenerationBatch;
  wa_Jobs : list GenerationJob
}.

Record CreateWorkflowCommand := mkCreateWorkflowCommand {
  cw_Operation : GenerationOperation;
  cw_Batch : GenerationBatch;
  cw_Jobs : list GenerationJob
}.
#[global] Instance eta_CreateWorkflowCommand : Eta CreateWorkflowCommand := fun r =>
  mkCreateWorkflowCommand (cw_Operation r) (cw_Batch r) (cw_Jobs r).

Record MemoryStore := mkMemoryStore {
  operations : gmap string GenerationOperation;
  operationByKey : gmap string string;
  batches : gmap string GenerationBatch;
  jobs : gmap string GenerationJob;
  jobIDsByBatch : gmap string (list string);
  outbox : gmap string OutboxEvent;
  outboxByKey : gmap string string
}.
#[global] Instance eta_MemoryStore : Eta MemoryStore := fun r =>
  mkMemoryStore (operations r) (operationByKey r) (batches r) (jobs r) (jobIDsByBatch r)
    (outbox r) (outboxByKey r).

Definition NewMemoryStore : MemoryStore := mkMemoryStore ∅ ∅ ∅ ∅ ∅ ∅ ∅.

(** ** Copies and comparisons *)

Definition cloneOperation (value : GenerationOperation) : GenerationOperation :=
  value <| o_Result := cloneMap (o_Result value) |>.

Definition cloneBatch (value : GenerationBatch) : GenerationBatch :=
  value <| b_Cost := (b_Cost value) <| c_Breakdown := cloneInt64Map (c_Breakdown (b_Cost value)) |>
                                    <| c_BalanceAfter := cloneInt64Pointer (c_BalanceAfter (b_Cost value)) |> |>.

Definition cloneJob (value : GenerationJob) : GenerationJob :=
  value <| j_Payload := cloneMap (j_Payload value) |>
        <| j_Result := cloneMap (j_Result value) |>
        <| j_ProviderCostBreakdown := cloneInt64Map (j_ProviderCostBreakdown value) |>
        <| j_SettlementBreakdown := cloneInt64Map (j_SettlementBreakdown value) |>
        <| j_CostBreakdown := cloneInt64Map (j_CostBreakdown value) |>
        <| j_BalanceAfter := cloneInt64Pointer (j_BalanceAfter value) |>.

Definition cloneOutbox (value : OutboxEvent) : OutboxEvent :=
  value <| e_Payload := cloneMap (e_Payload value) |>.

(** What [json.Marshal] shows of a record: maps after a copy, the nil and the
    empty one alike. *)
Definition shown_operation (o : GenerationOperation) : GenerationOperation :=
  o <| o_Result := omit_empty (cloneMap (o_Result o)) |>.
Definition shown_batch (b : GenerationBatch) : GenerationBatch :=
  b <| b_Cost := (b_Cost b) <| c_Breakdown := omit_empty (c_Breakdown (b_Cost b)) |> |>.
Definition shown_job (j : GenerationJob) : GenerationJob :=
  j <| j_Payload := omit_empty (cloneMap (j_Payload j)) |>
    <| j_Result := omit_empty (cloneMap (j_Result j)) |>
    <| j_ProviderCostBreakdown := omit_empty (j_ProviderCostBreakdown j) |>
    <| j_SettlementBreakdown := omit_empty (j_SettlementBreakdown j) |>
    <| j_CostBreakdown := omit_empty (j_CostBreakdown j) |>.

Definition equalJSON {A} `{EqDecision A} (shown : A → A) (left right : A) : bool :=
  bool_decide (shown left = shown right).

(** ** Small helpers *)

Definition normalizeVersion (version : Z) : Z := if version <=? 0 then 1 else version.

Definition normalizeCompletionPolicy (policy : string) : string :=
  if bool_decide (policy ∈ [CompletionAllRequired; CompletionAllowPartial; CompletionMinSuccess])
  then policy else CompletionAllRequired.

Definition normalizeWakePolicy (policy : string) : string :=
  if bool_decide (policy ∈ [WakeOnTerminal; WakeOnFailure; WakeNever])
  then policy else WakeOnTerminal.

Definition deliveryPolicyOr (policy fallback : DeliveryPolicy) : DeliveryPolicy :=
  if bool_decide (p_BindingMode policy = "") && bool_decide (p_ApprovalPolicy policy = "")
     && bool_decide (p_ChargePolicy policy = "")
  then DeliveryPolicy_Normalize fallback
  else DeliveryPolicy_Normalize policy.

Definition retryBackoff (attempt : Z) : Z :=
  let attempt := if attempt <? 1 then 1 else attempt in
  let attempt := if 8 <? attempt then 8 else attempt in
  second * Z.shiftl 1 (attempt - 1).

Definition jobRunnableAt (job : GenerationJob) (now : Time) : bool :=
  if IsTerminalJobStatus (j_Status job) then false
  else if bool_decide (j_Status job = StatusQueued)
  then IsZero (j_NextRunAt job) || negb (After (j_NextRunAt job) now)
  else if bool_decide (j_Status job = StatusWaitingProvider) || bool_decide (j_Status job = StatusRetryWait)
  then IsZero (j_NextRunAt job) || negb (After (j_NextRunAt job) now)
  else if bool_decide (j_Status job = StatusRunning) || bool_decide (j_Status job = StatusFinalizing)
  then match j_LeaseUntil job with None => true | Some until => negb (After until now) end
  else false.

Definition runnableTime (job : GenerationJob) : Time :=
  let fallback := if negb (IsZero (j_NextRunAt job)) then j_NextRunAt job else j_CreatedAt job in
  if bool_decide (j_Status job = StatusRunning) || bool_decide (j_Status job = StatusFinalizing)
  then match j_LeaseUntil job with Some until => until | None => fallback end
  else fallback.

(** ** Events *)

Definition newJobDispatchEvent (job : GenerationJob) : OutboxEvent :=
  zeroOutboxEvent
    <| e_IdempotencyKey := "job:" +:+ j_ID job +:+ ":dispatch" |>
    <| e_EventType := EventJobDispatch |> <| e_Destination := DestinationMediaJobs |>
    <| e_AggregateType := "job" |> <| e_AggregateID := j_ID job |>
    <| e_AggregateVersion := j_StatusVersion job |>
    <| e_SessionID := j_SessionID job |> <| e_WorkflowRunID := j_WorkflowRunID job |>
    <| e_StageRunID := j_StageRunID job |> <| e_OperationID := j_OperationID job |>
    <| e_ToolCallID := j_ToolCallID job |> <| e_BatchID := j_BatchID job |> <| e_JobID := j_ID job |>
    <| e_Payload := payload [("job_id", AStr (j_ID job)); ("idempotency_key", AStr (j_IdempotencyKey job))] |>.

Definition newBatchFinalizeRequestedEvent (job : GenerationJob) (trigger : string) : OutboxEvent :=
  let trigger := TrimSpace trigger in
  let trigger := if bool_decide (trigger = "") then "state-change" else trigger in
  zeroOutboxEvent
    <| e_IdempotencyKey := "job:" +:+ j_ID job +:+ ":batch-finalize-requested:" +:+ trigger |>
    <| e_EventType := EventBatchFinalizeRequested |>
    <| e_Destination := DestinationSessionSignal |>
    <| e_Payload := payload [("batch_id", AStr (j_BatchID job)); ("job_id", AStr (j_ID job)); ("trigger", AStr trigger)] |>.

Definition isPublicJobLifecycleStatus (status : string) : bool :=
  bool_decide (status ∈ [StatusRunning; StatusWaitingProvider; StatusFinalizing; StatusRetryWait;
                         StatusSucceeded; StatusFailed; StatusCancelled]).

Definition eventBelongsToJob (event : OutboxEvent) (jobID : string) : bool :=
  let jobID := TrimSpace jobID in
  if bool_decide (TrimSpace (e_JobID event) = jobID)
     || (bool_decide (e_AggregateType event = "job") && bool_decide (TrimSpace (e_AggregateID event) = jobID))
  then true
  else bool_decide (TrimSpace (string_field (e_Payload event) "job_id") = jobID).

Definition announces_job (implicitCurrentJob : bool) (jobID : string) (event : OutboxEvent) : bool :=
  bool_decide (e_Destination event = DestinationSessionSignal)
  && HasPrefix (e_EventType event) "job."
  && (implicitCurrentJob || eventBelongsToJob event jobID).

Definition lifecycleEvent (after : GenerationJob) : OutboxEvent :=
  zeroOutboxEvent
    <| e_IdempotencyKey := "job:" +:+ j_ID after +:+ ":lifecycle:" +:+ pretty (wrap64 (j_StatusVersion after + 1)) |>
    <| e_EventType := EventJobLifecycleChanged |>
    <| e_Destination := DestinationSessionSignal |>
    <| e_AggregateType := "job" |>
    <| e_AggregateID := j_ID after |>
    <| e_JobID := j_ID after |>.

Definition ensureJobLifecycleEvent (events : list OutboxEvent) (before after : GenerationJob)
    (implicitCurrentJob : bool) : list OutboxEvent :=
  if bool_decide (j_Status before = j_Status after) && bool_decide (j_Phase before = j_Phase after)
  then events
  else if negb (isPublicJobLifecycleStatus (j_Status after)) then events
  else if existsb (announces_job implicitCurrentJob (j_ID after)) events then events
  else (events ++ [lifecycleEvent after])%list.

Definition fillJobLifecyclePayload (event : OutboxEvent) (job : GenerationJob) : OutboxEvent :=
  let p : gmap string any := default ∅ (e_Payload event) in
  let p := <["job_id" := AStr (j_ID job)]> p in
  let p := <["operation_id" := AStr (j_OperationID job)]> p in
  let p := <["batch_id" := AStr (j_BatchID job)]> p in
  let p := <["session_id" := AStr (j_SessionID job)]> p in
  let p := <["workflow_run_id" := AStr (j_WorkflowRunID job)]> p in
  let p := <["stage_run_id" := AStr (j_StageRunID job)]> p in
  let p := <["tool_call_id" := AStr (j_ToolCallID job)]> p in
  let p := <["status" := AStr (j_Status job)]> p in
  let p := <["phase" := AStr (j_Phase job)]> p in
  let p := <["status_version" := AInt (j_StatusVersion job)]> p in
  let p := <["provider" := AStr (j_Provider job)]> p in
  let p := <["media_kind" := AStr (j_MediaKind job)]> p in
  let p := <["target_type" := AStr (j_TargetType job)]> p in
  let p := <["target_id" := AStr (j_TargetID job)]> p in
  let p := <["asset_slot" := AStr (j_AssetSlot job)]> p in
  let p := <["retry_count" := AInt (j_RetryCount job)]> p in
  let p := <["provider_poll_attempts" := AInt (j_ProviderPollAttempts job)]> p in
  let p := <["provider_status" := AStr (j_ProviderStatus job)]> p in
  let p := <["error_stage" := AStr (j_ErrorStage job)]> p in
  let p := <["error_code" := AStr (j_ErrorCode job)]> p in
  let p := <["error_message" := AStr (j_ErrorMessage job)]> p in
  let p := <["result_disposition" := AStr (j_ResultDisposition job)]> p in
  let p := match j_ResultAssetIDs job with
           | [] => p
           | ids => <["result_asset_ids" := AArr (AStr <$> ids)]> p
           end in
  let p := if IsZero (j_NextRunAt job) then p else <["next_run_at" := ATime (j_NextRunAt job)]> p in
  event <| e_Payload := Some p |>.

(** [if x == "" { x = fallback }]. *)
Definition or_empty (value fallback : string) : string :=
  if bool_decide (value = "") then fallback else value.

(** The two groups of assignments of the fill functions. *)
Definition fill_aggregate (event : OutboxEvent) (kind id : string) (version : Z) : OutboxEvent :=
  event
    <| e_AggregateType := or_empty (e_AggregateType event) kind |>
    <| e_AggregateID := or_empty (e_AggregateID event) id |>
    <| e_AggregateVersion := if e_AggregateVersion event =? 0 then version else e_AggregateVersion event |>.

Definition fill_links (event : OutboxEvent) (session run stage operation tool batch : string) : OutboxEvent :=
  event
    <| e_SessionID := valueOrDefault (e_SessionID event) session |>
    <| e_WorkflowRunID := valueOrDefault (e_WorkflowRunID event) run |>
    <| e_StageRunID := valueOrDefault (e_StageRunID event) stage |>
    <| e_OperationID := valueOrDefault (e_OperationID event) operation |>
    <| e_ToolCallID := valueOrDefault (e_ToolCallID event) tool |>
    <| e_BatchID := valueOrDefault (e_BatchID event) batch |>.

Definition fillJobEvent (event : OutboxEvent) (job : GenerationJob) : OutboxEvent :=
  let event := fill_aggregate event "job" (j_ID job) (j_StatusVersion job) in
  let event := fill_links event (j_SessionID job) (j_WorkflowRunID job) (j_StageRunID job)
                 (j_OperationID job) (j_ToolCallID job) (j_BatchID job) in
  let event := event <| e_JobID := valueOrDefault (e_JobID event) (j_ID job) |> in
  if bool_decide (e_Destination event = DestinationSessionSignal) && HasPrefix (e_EventType event) "job."
  then fillJobLifecyclePayload event job
  else event.

Definition fillBatchEvent (event : OutboxEvent) (operation : GenerationOperation)
    (batch : GenerationBatch) : OutboxEvent :=
  let event := fill_aggregate event "batch" (b_ID batch) (b_Version batch) in
  fill_links event (b_SessionID batch) (b_WorkflowRunID batch) (b_StageRunID batch)
    (o_ID operation) (b_ToolCallID batch) (b_ID batch).

Definition fillWorkflowEvent (event : OutboxEvent) (operation : GenerationOperation)
    (batch : GenerationBatch) (js : list GenerationJob) : OutboxEvent :=
  let jobID := TrimSpace (e_JobID event) in
  let jobID := if bool_decide (jobID = "") && bool_decide (e_AggregateType event = "job")
               then TrimSpace (e_AggregateID event) else jobID in
  if bool_decide (jobID = "") then fillBatchEvent event operation batch
  else match List.find (fun job => bool_decide (j_ID job = jobID)) js with
       | Some job => fillJobEvent event job
       | None => fillBatchEvent event operation batch
       end.

(** ** The request fingerprint: [request_fingerprint.go] *)

Record workflowBatchShape := mkBatchShape {
  bs_Kind : string;
  bs_CompletionPolicy : string;
  bs_MinSuccess : Z;
  bs_WakePolicy : string;
  bs_DeliveryPolicy : DeliveryPolicy;
  bs_ExpectedSpecVersion : Z;
  bs_ExpectedStoryboardVersion : Z
}.

Record workflowJobShape := mkJobShape {
  js_Provider : string;
  js_MediaKind : string;
  js_TargetType : string;
  js_TargetID : string;
  js_AssetSlot : string;
  js_VariantKey : string;
  js_Required : bool;
  js_StoryboardID : string;
  js_StoryboardVersionAtDispatch : Z;
  js_BindingToken : BindingToken;
  js_DeliveryPolicy : DeliveryPolicy;
  js_MaxAttempts : Z;
  js_MaxProviderPollAttempts : Z;
  js_Payload : gomap any
}.

Record workflowRequestShape := mkRequestShape {
  rs_SessionID : string;
  rs_UserID : string;
  rs_Kind : string;
  rs_Batch : workflowBatchShape;
  rs_Jobs : list workflowJobShape
}.

Definition workflow_job_shape (batchPolicy : DeliveryPolicy) (job : GenerationJob) : workflowJobShape :=
  mkJobShape (j_Provider job) (j_MediaKind job) (j_TargetType job) (j_TargetID job)
    (j_AssetSlot job) (j_VariantKey job) (j_Required job) (j_StoryboardID job)
    (j_StoryboardVersionAtDispatch job) (j_BindingToken job)
    (deliveryPolicyOr (j_DeliveryPolicy job) batchPolicy) (j_MaxAttempts job)
    (normalizedMaxProviderPollAttempts (j_MaxProviderPollAttempts job)) (cloneMap (j_Payload job)).

Definition nul : string := String "000"%char "".

Definition shape_key (j : workflowJobShape) : string :=
  js_TargetID j +:+ nul +:+ js_AssetSlot j +:+ nul +:+ js_VariantKey j +:+ nul +:+ js_Provider j.

Definition workflow_shape (command : CreateWorkflowCommand) : workflowRequestShape :=
  let op := cw_Operation command in
  let batch := cw_Batch command in
  let batchPolicy := DeliveryPolicy_Normalize (b_DeliveryPolicy batch) in
  mkRequestShape (TrimSpace (o_SessionID op)) (TrimSpace (o_UserID op)) (TrimSpace (o_Kind op))
    (mkBatchShape (b_Kind batch) (b_CompletionPolicy batch) (b_MinSuccess batch) (b_WakePolicy batch)
       batchPolicy (b_ExpectedSpecVersion batch) (b_ExpectedStoryboardVersion batch))
    (sort_slice (fun a b => String.ltb (shape_key a) (shape_key b))
       (workflow_job_shape batchPolicy <$> cw_Jobs command)).

(** The clock, the identifier source and the digest of a request shape, the hex
    SHA-256 of its JSON text (marshalling may fail), are not the store's: a
    reading or a draw is numbered by the environment. *)
Class Runtime := {
  clock_at : nat → Time;
  fresh_id : nat → string;
  shape_digest : workflowRequestShape → result string
}.

Record env (X : Type) := mkEnv { env_reads : nat; env_ids : nat; env_ext : X }.
Arguments mkEnv {X}.
Arguments env_reads {X}.
Arguments env_ids {X}.
Arguments env_ext {X}.

Record world (X : Type) := mkWorld { w_store : MemoryStore; w_env : env X }.
Arguments mkWorld {X}.
Arguments w_store {X}.
Arguments w_env {X}.

Section memory_store.
Context `{Runtime} {X : Type}.

Definition clock : Eff (env X) Time := fun v =>
  (clock_at (env_reads v), mkEnv (S (env_reads v)) (env_ids v) (env_ext v)).
Definition draw_id : Eff (env X) string := fun v =>
  (fresh_id (env_ids v), mkEnv (env_reads v) (S (env_ids v)) (env_ext v)).

Definition lift_env {A} (c : Eff (env X) A) : Eff (world X) A := fun w =>
  let '(a, v) := c (w_env w) in (a, mkWorld (w_store w) v).

Definition get_store : Eff (world X) MemoryStore := fun w => (w_store w, w).
Definition put_store (s : MemoryStore) : Eff (world X) unit := fun w => (tt, mkWorld s (w_env w)).

Definition s_clock : Eff (world X) Time := lift_env clock.
Definition s_newID : Eff (world X) string := lift_env draw_id.

Definition JobMutation := GenerationJob → Eff (env X) (result (GenerationJob * list OutboxEvent)).
Definition BatchTransaction :=
  GenerationOperation → GenerationBatch → list GenerationJob →
  Eff (env X) (result (GenerationOperation * GenerationBatch * list GenerationJob * list OutboxEvent)).

(** ** Reading *)

Definition job_or_zero (s : MemoryStore) (id : string) : GenerationJob :=
  default zeroGenerationJob (jobs s !! id).

Definition jobsByBatchLocked (s : MemoryStore) (batchID : string) : list GenerationJob :=
  (fun id => cloneJob (job_or_zero s id)) <$> default [] (jobIDsByBatch s !! TrimSpace batchID).

Definition aggregateLocked (s : MemoryStore) (batchID : string) : WorkflowAggregate :=
  let batch := cloneBatch (default zeroGenerationBatch (batches s !! batchID)) in
  mkWorkflowAggregate
    (cloneOperation (default zeroGenerationOperation (operations s !! b_OperationID batch)))
    batch (jobsByBatchLocked s batchID).

Definition not_found {A} (what id : string) : Eff (world X) (result A) :=
  fail (Wrapf "" ErrNotFound (": " +:+ what +:+ " " +:+ id)).

Definition GetOperation (operationID : string) : Eff (world X) (result GenerationOperation) :=
  let* s := get_store in
  match operations s !! TrimSpace operationID with
  | Some operation => ret (Ok (cloneOperation operation))
  | None => not_found "operation" operationID
  end.

Definition GetOperationByIdempotencyKey (key : string) : Eff (world X) (result GenerationOperation) :=
  let* s := get_store in
  match operationByKey s !! TrimSpace key with
  | Some id => ret (Ok (cloneOperation (default zeroGenerationOperation (operations s !! id))))
  | None => not_found "operation idempotency key" key
  end.

Definition GetBatch (batchID : string) : Eff (world X) (result GenerationBatch) :=
  let* s := get_store in
  match batches s !! TrimSpace batchID with
  | Some batch => ret (Ok (cloneBatch batch))
  | None => not_found "batch" batchID
  end.

Definition GetJob (jobID : string) : Eff (world X) (result GenerationJob) :=
  let* s := get_store in
  match jobs s !! TrimSpace jobID with
  | Some job => ret (Ok (cloneJob job))
  | None => not_found "job" jobID
  end.

Definition ListJobsByBatch (batchID : string) : Eff (world X) (result (list GenerationJob)) :=
  let* s := get_store in
  match batches s !! TrimSpace batchID with
  | Some _ => ret (Ok (jobsByBatchLocked s batchID))
  | None => not_found "batch" batchID
  end.

Definition updated_later (a b : GenerationJob) : bool :=
  if j_UpdatedAt a =? j_UpdatedAt b then String.ltb (j_ID a) (j_ID b)
  else After (j_UpdatedAt a) (j_UpdatedAt b).

Definition ListBySession (sessionID : string) : Eff (world X) (result (list GenerationJob)) :=
  let* s := get_store in
  let sessionID := TrimSpace sessionID in
  ret (Ok (sort_slice updated_later
    (cloneJob <$> List.filter (fun job => bool_decide (j_SessionID job = sessionID)) (map_to_list (jobs s)).*2))).

Definition runnable_earlier : GenerationJob → GenerationJob → bool := by_time_then_id runnableTime j_ID.

Definition take_limit {A} (limit : Z) (l : list A) : list A :=
  if (0 <? limit) && (limit <? Z.of_nat (length l)) then take (Z.to_nat limit) l else l.

Definition ListRunnableJobs (now : Time) (limit : Z) : Eff (world X) (result (list GenerationJob)) :=
  let* s := get_store in
  let* now := (if IsZero now then s_clock else ret now) in
  ret (Ok (take_limit limit (sort_slice runnable_earlier
    (cloneJob <$> List.filter (fun job => jobRunnableAt job now) (map_to_list (jobs s)).*2)))).

(** ** The outbox *)

Definition appendOutboxLocked (event : OutboxEvent) : Eff (world X) (result unit) :=
  let event := event <| e_IdempotencyKey := TrimSpace (e_IdempotencyKey event) |> in
  if bool_decide (e_IdempotencyKey event = "") then fail (Errorf "outbox idempotency key is required")
  else
  let* s := get_store in
  match outboxByKey s !! e_IdempotencyKey event with
  | Some _ => ret (Ok tt)
  | None =>
      let* id := (if blank (e_ID event) then s_newID else ret (e_ID event)) in
      match outbox s !! id with
      | Some existing =>
          fail (Wrapf "" ErrDuplicate (": outbox event " +:+ id +:+ " already belongs to key "
                                       +:+ e_IdempotencyKey existing))
      | None =>
          let* now := s_clock in
          let event := event <| e_ID := id |>
            <| e_Status := if bool_decide (e_Status event = "") then OutboxPending else e_Status event |>
            <| e_CreatedAt := timeOr (e_CreatedAt event) now |>
            <| e_AvailableAt := timeOr (e_AvailableAt event) now |> in
          let* _ := put_store (s <| outbox := <[id := cloneOutbox event]> (outbox s) |>
                                 <| outboxByKey := <[e_IdempotencyKey event := id]> (outboxByKey s) |>) in
          ret (Ok tt)
      end
  end.

Fixpoint append_events (events : list OutboxEvent) : Eff (world X) (result unit) :=
  match events with
  | [] => ret (Ok tt)
  | event :: events' => try* _ := appendOutboxLocked event in append_events events'
  end.

(** The loop works on copies of the two maps; an error puts the originals back. *)
Definition appendOutboxBatchLocked (events : list OutboxEvent) : Eff (world X) (result unit) :=
  let* original := get_store in
  let* r := append_events events in
  match r with
  | Ok _ => ret (Ok tt)
  | Err e => let* _ := put_store original in fail e
  end.

Definition outbox_earlier (a b : OutboxEvent) : bool :=
  if negb (e_AvailableAt a =? e_AvailableAt b) then e_AvailableAt a <? e_AvailableAt b
  else if e_CreatedAt a =? e_CreatedAt b then String.ltb (e_ID a) (e_ID b)
  else e_CreatedAt a <? e_CreatedAt b.

Definition ListOutbox (status : string) (limit : Z) : Eff (world X) (result (list OutboxEvent)) :=
  let* s := get_store in
  ret (Ok (take_limit limit (sort_slice outbox_earlier
    (cloneOutbox <$> List.filter (fun event => bool_decide (status = "") || bool_decide (e_Status event = status))
       (map_to_list (outbox s)).*2)))).

Definition MarkOutboxPublished (eventID : string) (at_ : Time) : Eff (world X) (result unit) :=
  let* s := get_store in
  match outbox s !! TrimSpace eventID with
  | None => not_found "outbox event" eventID
  | Some event =>
      if bool_decide (e_Status event = OutboxPublished) then ret (Ok tt)
      else
        let* at_ := (if IsZero at_ then s_clock else ret at_) in
        let event := event <| e_Status := OutboxPublished |> <| e_PublishedAt := Some at_ |> in
        let* _ := put_store (s <| outbox := <[e_ID event := event]> (outbox s) |>) in
        ret (Ok tt)
  end.

Definition MarkOutboxFailed (eventID : string) (at_ : Time) (maxAttempts : Z) : Eff (world X) (result unit) :=
  let* s := get_store in
  match outbox s !! TrimSpace eventID with
  | None => not_found "outbox event" eventID
  | Some event =>
      if negb (bool_decide (e_Status event = OutboxPending)) then ret (Ok tt)
      else
        let* at_ := (if IsZero at_ then s_clock else ret at_) in
        let event := event <| e_Attempts := incr (e_Attempts event) |> in
        let event := if (0 <? maxAttempts) && (maxAttempts <=? e_Attempts event)
                     then event <| e_Status := OutboxDead |>
                     else event <| e_AvailableAt := at_ + retryBackoff (e_Attempts event) |> in
        let* _ := put_store (s <| outbox := <[e_ID event := cloneOutbox event]> (outbox s) |>) in
        ret (Ok tt)
  end.

(** ** Creating a workflow *)

Definition freezeWorkflowRequest (command : CreateWorkflowCommand) : result CreateWorkflowCommand :=
  match shape_digest (workflow_shape command) with
  | Ok digest =>
      Ok (command <| cw_Operation := (cw_Operation command) <| o_RequestFingerprint := digest |> |>)
  | Err e => Err (Wrapf "marshal generation request fingerprint: " e "")
  end.

Definition validateWorkflowReplay (existing requested : GenerationOperation) : option error :=
  if negb (bool_decide (o_SessionID existing = TrimSpace (o_SessionID requested)))
     || negb (bool_decide (o_UserID existing = TrimSpace (o_UserID requested)))
     || negb (bool_decide (o_Kind existing = TrimSpace (o_Kind requested)))
     || (negb (bool_decide (o_RequestFingerprint existing = ""))
         && negb (bool_decide (o_RequestFingerprint existing = o_RequestFingerprint requested)))
  then Some (Wrapf "" ErrIdempotencyConflict
         (": key " +:+ o_IdempotencyKey requested +:+ " belongs to another immutable request"))
  else None.

Definition duplicate_error (what id : string) : error :=
  Wrapf "" ErrDuplicate (": " +:+ what +:+ " " +:+ id).

(** The operation and the batch as they are first stored. *)
Definition created_operation (op : GenerationOperation) (batchID : string) (now : Time) : GenerationOperation :=
  let op := cloneOperation op in
  op <| o_BatchID := batchID |> <| o_Status := OperationStatusWaitingJobs |>
     <| o_Version := normalizeVersion (o_Version op) |>
     <| o_CreatedAt := timeOr (o_CreatedAt op) now |> <| o_UpdatedAt := now |>.

Definition created_batch (input : GenerationBatch) (op : GenerationOperation) : GenerationBatch :=
  let batch := cloneBatch input in
  batch <| b_OperationID := o_ID op |> <| b_SessionID := o_SessionID op |>
    <| b_UserID := valueOrDefault (b_UserID batch) (o_UserID op) |>
    <| b_WorkflowRunID := valueOrDefault (b_WorkflowRunID batch) (o_WorkflowRunID op) |>
    <| b_StageRunID := valueOrDefault (b_StageRunID batch) (o_StageRunID op) |>
    <| b_ToolCallID := valueOrDefault (b_ToolCallID batch) (o_ToolCallID op) |>
    <| b_Status := BatchStatusWaitingJobs |>
    <| b_CompletionPolicy := normalizeCompletionPolicy (b_CompletionPolicy batch) |>
    <| b_WakePolicy := normalizeWakePolicy (b_WakePolicy batch) |>
    <| b_DeliveryPolicy := DeliveryPolicy_Normalize (b_DeliveryPolicy batch) |>.

(** The target, slot and storyboard of a job and of its token complete each other. *)
Definition complete_token (job : GenerationJob) : GenerationJob :=
  let token := j_BindingToken job in
  let token := token <| k_StoryboardID := or_empty (k_StoryboardID token) (j_StoryboardID job) |>
                     <| k_TargetID := or_empty (k_TargetID token) (j_TargetID job) |>
                     <| k_AssetSlot := or_empty (k_AssetSlot token) (j_AssetSlot job) |> in
  job <| j_BindingToken := token |>
      <| j_StoryboardID := or_empty (j_StoryboardID job) (k_StoryboardID token) |>
      <| j_TargetID := or_empty (j_TargetID job) (k_TargetID token) |>
      <| j_AssetSlot := or_empty (j_AssetSlot job) (k_AssetSlot token) |>.

Definition default_limits (job : GenerationJob) (now : Time) : GenerationJob :=
  job <| j_MaxAttempts := if j_MaxAttempts job <=? 0 then Z.max 1 (wrap64 (j_MaxRetries job + 1)) else j_MaxAttempts job |>
      <| j_MaxProviderPollAttempts :=
           if j_MaxProviderPollAttempts job <=? 0 then DefaultProviderMaxPollAttempts else j_MaxProviderPollAttempts job |>
      <| j_BillingStatus := or_empty (j_BillingStatus job) BillingNotStarted |>
      <| j_CompensationStatus := or_empty (j_CompensationStatus job) CompensationNotRequired |>
      <| j_CreatedAt := timeOr (j_CreatedAt job) now |> <| j_UpdatedAt := now |>.

Definition created_job (op : GenerationOperation) (batch : GenerationBatch) (job : GenerationJob) : GenerationJob :=
  job <| j_BatchID := b_ID batch |> <| j_OperationID := o_ID op |> <| j_SessionID := o_SessionID op |>
      <| j_UserID := valueOrDefault (j_UserID job) (o_UserID op) |>
      <| j_WorkflowRunID := valueOrDefault (j_WorkflowRunID job) (o_WorkflowRunID op) |>
      <| j_StageRunID := valueOrDefault (j_StageRunID job) (o_StageRunID op) |>
      <| j_ToolCallID := valueOrDefault (j_ToolCallID job) (o_ToolCallID op) |>
      <| j_Status := StatusQueued |> <| j_Phase := PhaseProviderSubmit |>
      <| j_StatusVersion := normalizeVersion (j_StatusVersion job) |>
      <| j_DeliveryPolicy := deliveryPolicyOr (j_DeliveryPolicy job) (b_DeliveryPolicy batch) |>.

(** One round of the loop over [command.Jobs]; [taken] are the ids already used. *)
Definition prepare_job (taken : string → bool) (defaultAllRequired : bool) (op : GenerationOperation)
    (batch : GenerationBatch) (now : Time) (input : GenerationJob) : result GenerationJob :=
  let job := cloneJob input in
  let job := if defaultAllRequired then job <| j_Required := true |> else job in
  let job := job <| j_ID := TrimSpace (j_ID job) |>
                 <| j_IdempotencyKey := TrimSpace (j_IdempotencyKey job) |> in
  if bool_decide (j_ID job = "") || bool_decide (j_IdempotencyKey job = "")
  then Err (Errorf "job id and idempotency key are required")
  else if taken (j_ID job) then Err (duplicate_error "job" (j_ID job))
  else
  let job := created_job op batch job in
  match DeliveryPolicy_Validate (j_DeliveryPolicy job) with
  | Some e => Err (Wrapf ("job " +:+ j_ID job +:+ ": ") e "")
  | None =>
      let job := complete_token job in
      match (if blank (j_StoryboardID job) then None else BindingToken_Validate (j_BindingToken job)) with
      | Some e => Err (Wrapf ("job " +:+ j_ID job +:+ ": ") e "")
      | None => Ok (default_limits job now)
      end
  end.

Definition count_job (batch : GenerationBatch) (job : GenerationJob) : GenerationBatch :=
  if j_Required job then batch <| b_RequiredJobs := incr (b_RequiredJobs batch) |>
  else batch <| b_OptionalJobs := incr (b_OptionalJobs batch) |>.

(** The whole loop: the batch with its counters and the jobs in order. *)
Fixpoint prepare_jobs (s : MemoryStore) (seen : list string) (defaultAllRequired : bool)
    (op : GenerationOperation) (batch : GenerationBatch) (now : Time) (inputs : list GenerationJob) :
    result (GenerationBatch * list GenerationJob) :=
  match inputs with
  | [] => Ok (batch, [])
  | input :: inputs' =>
      let taken id := bool_decide (id ∈ seen) || bool_decide (is_Some (jobs s !! id)) in
      match prepare_job taken defaultAllRequired op batch now input with
      | Err e => Err e
      | Ok job =>
          match prepare_jobs s (j_ID job :: seen) defaultAllRequired op (count_job batch job) now inputs' with
          | Err e => Err e
          | Ok (batch', js) => Ok (batch', job :: js)
          end
      end
  end.

Definition acceptedEvent (op : GenerationOperation) (batch : GenerationBatch) : OutboxEvent :=
  zeroOutboxEvent
    <| e_IdempotencyKey := "operation:" +:+ o_ID op +:+ ":accepted" |>
    <| e_EventType := EventOperationAccepted |> <| e_Destination := DestinationSessionSignal |>
    <| e_AggregateType := "operation" |> <| e_AggregateID := o_ID op |> <| e_AggregateVersion := o_Version op |>
    <| e_SessionID := o_SessionID op |> <| e_WorkflowRunID := o_WorkflowRunID op |>
    <| e_StageRunID := o_StageRunID op |> <| e_OperationID := o_ID op |> <| e_ToolCallID := o_ToolCallID op |>
    <| e_Payload := payload [("batch_id", AStr (b_ID batch)); ("status", AStr (b_Status batch));
         ("operation_status", AStr (o_Status op)); ("operation_version", AInt (o_Version op));
         ("batch_version", AInt (b_Version batch))] |>.

Definition insert_job (batchID : string) (s : MemoryStore) (job : GenerationJob) : MemoryStore :=
  s <| jobs := <[j_ID job := job]> (jobs s) |>
    <| jobIDsByBatch := <[batchID := default [] (jobIDsByBatch s !! batchID) ++ [j_ID job]]> (jobIDsByBatch s) |>.

Definition insert_workflow (s : MemoryStore) (op : GenerationOperation) (batch : GenerationBatch)
    (js : list GenerationJob) : MemoryStore :=
  let s := s <| operations := <[o_ID op := op]> (operations s) |>
             <| operationByKey := <[o_IdempotencyKey op := o_ID op]> (operationByKey s) |>
             <| batches := <[b_ID batch := batch]> (batches s) |> in
  foldl (insert_job (b_ID batch)) s js.

Definition trim_command (command : CreateWorkflowCommand) : CreateWorkflowCommand :=
  let op := cw_Operation command in
  let batch := cw_Batch command in
  command <| cw_Operation := op <| o_ID := TrimSpace (o_ID op) |>
                                <| o_SessionID := TrimSpace (o_SessionID op) |>
                                <| o_IdempotencyKey := TrimSpace (o_IdempotencyKey op) |> |>
          <| cw_Batch := batch <| b_ID := TrimSpace (b_ID batch) |> |>.

Definition stamp_batch (batch : GenerationBatch) (now : Time) : GenerationBatch :=
  batch <| b_Version := normalizeVersion (b_Version batch) |>
        <| b_CreatedAt := timeOr (b_CreatedAt batch) now |> <| b_UpdatedAt := now |>.

Definition CreateWorkflow (command : CreateWorkflowCommand) :
    Eff (world X) (result (WorkflowAggregate * bool)) :=
  match freezeWorkflowRequest command with
  | Err e => fail e
  | Ok command =>
  let command := trim_command command in
  let op := cw_Operation command in
  if bool_decide (o_ID op = "") || bool_decide (o_SessionID op = "")
     || bool_decide (o_IdempotencyKey op = "") || bool_decide (b_ID (cw_Batch command) = "")
  then fail (Errorf "operation id, session id, idempotency key and batch id are required")
  else
  let* s := get_store in
  match operationByKey s !! o_IdempotencyKey op with
  | Some existingID =>
      let existing := default zeroGenerationOperation (operations s !! existingID) in
      check (validateWorkflowReplay existing op)
        (ret (Ok (aggregateLocked s (o_BatchID existing), false)))
  | None =>
  if bool_decide (is_Some (operations s !! o_ID op)) then fail (duplicate_error "operation" (o_ID op))
  else if bool_decide (is_Some (batches s !! b_ID (cw_Batch command)))
  then fail (duplicate_error "batch" (b_ID (cw_Batch command)))
  else
  match cw_Jobs command with
  | [] => fail (Errorf "at least one generation job is required")
  | inputs =>
  let* now := s_clock in
  let operation := created_operation op (b_ID (cw_Batch command)) now in
  let batch := created_batch (cw_Batch command) operation in
  check (DeliveryPolicy_Validate (b_DeliveryPolicy batch)) (
  let batch := stamp_batch batch now in
  let defaultAllRequired := bool_decide (b_CompletionPolicy batch = CompletionAllRequired)
                            && negb (existsb j_Required inputs) in
  match prepare_jobs s [] defaultAllRequired operation batch now inputs with
  | Err e => fail e
  | Ok (batch, js) =>
      let events := acceptedEvent operation batch :: (newJobDispatchEvent <$> js) in
      try* _ := appendOutboxBatchLocked events in
      let* s := get_store in
      let s := insert_workflow s operation batch js in
      let* _ := put_store s in
      ret (Ok (aggregateLocked s (b_ID batch), true))
  end)
  end end end.

(** ** Leases and mutations *)

Definition RenewJobLease (jobID leaseOwner : string) (leaseUntil : Time) : Eff (world X) (result unit) :=
  let* s := get_store in
  match jobs s !! TrimSpace jobID with
  | None => not_found "job" jobID
  | Some job =>
      if negb (bool_decide (j_LeaseOwner job = TrimSpace leaseOwner))
         || (negb (bool_decide (j_Status job = StatusRunning)) && negb (bool_decide (j_Status job = StatusFinalizing)))
      then fail (Wrapf "" ErrVersionConflict (": generation job lease is not owned by " +:+ leaseOwner))
      else
        let* now := s_clock in
        let job := job <| j_LeaseUntil := Some leaseUntil |> <| j_UpdatedAt := now |> in
        let* _ := put_store (s <| jobs := <[j_ID job := job]> (jobs s) |>) in
        ret (Ok tt)
  end.

(** The stamps of a stored job mutation. *)
Definition stamp_job (before job : GenerationJob) (now : Time) : GenerationJob :=
  job <| j_StatusVersion := incr (j_StatusVersion job) |> <| j_UpdatedAt := now |>
      <| j_StartedAt := match j_StartedAt before with
                        | None => if bool_decide (j_Status job = StatusRunning) then Some now else j_StartedAt job
                        | Some _ => j_StartedAt job
                        end |>
      <| j_TerminalAt := match j_TerminalAt job with
                         | None => if IsTerminalJobStatus (j_Status job) then Some now else None
                         | Some t => Some t
                         end |>.

Definition status_change (validate : string → string → option error) (before after : string) : option error :=
  if bool_decide (before = after) then None else validate before after.

Definition MutateJob (jobID : string) (expectedVersion : Z) (mutation : JobMutation) :
    Eff (world X) (result GenerationJob) :=
  let* s := get_store in
  let jobID := TrimSpace jobID in
  match jobs s !! jobID with
  | None => not_found "job" jobID
  | Some job =>
      if (0 <? expectedVersion) && negb (j_StatusVersion job =? expectedVersion)
      then fail (Wrapf "" ErrVersionConflict
             (": job " +:+ jobID +:+ " expected " +:+ pretty expectedVersion +:+ " got " +:+ pretty (j_StatusVersion job)))
      else
        let before := cloneJob job in
        try* '(job, events) := lift_env (mutation job) in
        let events := ensureJobLifecycleEvent events before job true in
        check (status_change ValidateJobTransition (j_Status before) (j_Status job)) (
        let* now := s_clock in
        let job := stamp_job before job now in
        try* _ := appendOutboxBatchLocked ((fun e => fillJobEvent e job) <$> events) in
        let* s := get_store in
        let* _ := put_store (s <| jobs := <[jobID := cloneJob job]> (jobs s) |>) in
        ret (Ok (cloneJob job)))
  end.

(** ** Batch transactions *)

Definition stamp_batch_change (before batch : GenerationBatch) (now : Time) : GenerationBatch :=
  if equalJSON shown_batch before batch then batch
  else batch <| b_Version := incr (b_Version batch) |> <| b_UpdatedAt := now |>
             <| b_TerminalAt := match b_TerminalAt batch with
                                | None => if IsTerminalBatchStatus (b_Status batch) then Some now else None
                                | Some t => Some t
                                end |>.

Definition stamp_operation_change (before operation : GenerationOperation) (now : Time) : GenerationOperation :=
  if equalJSON shown_operation before operation then operation
  else operation <| o_Version := incr (o_Version operation) |> <| o_UpdatedAt := now |>
                 <| o_TerminalAt := match o_TerminalAt operation with
                                    | None => if IsTerminalOperationStatus (o_Status operation) then Some now else None
                                    | Some t => Some t
                                    end |>.

Definition stamp_job_change (now : Time) (before job : GenerationJob) : GenerationJob :=
  if equalJSON shown_job before job then job
  else job <| j_StatusVersion := incr (j_StatusVersion job) |> <| j_UpdatedAt := now |>
           <| j_TerminalAt := match j_TerminalAt job with
                              | None => if IsTerminalJobStatus (j_Status job) then Some now else None
                              | Some t => Some t
                              end |>.

Fixpoint ensure_lifecycle_events (events : list OutboxEvent) (before after : list GenerationJob) :
    list OutboxEvent :=
  match before, after with
  | b :: before', a :: after' => ensure_lifecycle_events (ensureJobLifecycleEvent events b a false) before' after'
  | _, _ => events
  end.

Fixpoint jobs_transition (before after : list GenerationJob) : option error :=
  match before, after with
  | b :: before', a :: after' =>
      match status_change ValidateJobTransition (j_Status b) (j_Status a) with
      | Some e => Some e
      | None => jobs_transition before' after'
      end
  | _, _ => None
  end.

Definition store_jobs (m : gmap string GenerationJob) (ids : list string) (js : list GenerationJob) :
    gmap string GenerationJob :=
  foldl (fun m '(id, job) => <[id := cloneJob job]> m) m (zip ids js).

Definition TransactBatch (batchID : string) (transaction : BatchTransaction) :
    Eff (world X) (result WorkflowAggregate) :=
  let* s := get_store in
  let batchID := TrimSpace batchID in
  match batches s !! batchID with
  | None => not_found "batch" batchID
  | Some batch =>
  match operations s !! b_OperationID batch with
  | None => not_found "operation" (b_OperationID batch)
  | Some operation =>
      let jobIDs := default [] (jobIDsByBatch s !! batchID) in
      let js := (fun id => cloneJob (job_or_zero s id)) <$> jobIDs in
      let beforeBatch := cloneBatch batch in
      let beforeOperation := cloneOperation operation in
      let beforeJobs := cloneJob <$> js in
      try* '(operation, batch, js, events) := lift_env (transaction operation batch js) in
      let events := ensure_lifecycle_events events beforeJobs js in
      check (status_change ValidateBatchTransition (b_Status beforeBatch) (b_Status batch)) (
      check (status_change ValidateOperationTransition (o_Status beforeOperation) (o_Status operation)) (
      check (jobs_transition beforeJobs js) (
      let* now := s_clock in
      let batch := stamp_batch_change beforeBatch batch now in
      let operation := stamp_operation_change beforeOperation operation now in
      let js := zip_with (stamp_job_change now) beforeJobs js in
      let events := (fun e => fillWorkflowEvent e operation batch js) <$> events in
      try* _ := appendOutboxBatchLocked events in
      let* s := get_store in
      let s := s <| operations := <[o_ID operation := cloneOperation operation]> (operations s) |>
                 <| batches := <[b_ID batch := cloneBatch batch]> (batches s) |>
                 <| jobs := store_jobs (jobs s) jobIDs js |> in
      let* _ := put_store s in
      ret (Ok (aggregateLocked s (b_ID batch))))))
  end end.
End memory_store.

(** A local variable that a closure given to the store assigns: it rides along
    with the state of the outside world while the closure runs. *)
Definition with_local {X L A} (l : L) (c : Eff (world (X * L)) A) : Eff (world X) (A * L) := fun w =>
  let v := w_env w in
  let '(a, w') := c (mkWorld (w_store w) (mkEnv (env_reads v) (env_ids v) (env_ext v, l))) in
  let v' := w_env w' in
  ((a, (env_ext v').2), mkWorld (w_store w') (mkEnv (env_reads v') (env_ids v') (env_ext v').1)).

Definition set_local {X L} (l : L) : Eff (env (X * L)) unit := fun v =>
  (tt, mkEnv (env_reads v) (env_ids v) ((env_ext v).1, l)).

