(* ===== verification/Samples.v ===== *)
(** * Sample data

    A clock, an identifier source, a digest and a small workflow of two jobs on
    which the theorems about the generation runtime are evaluated. *)

From Stdlib Require Import ZArith Lia.
From S2P Require Import Prelude GoJson GenModels WorkflowStore.

Module Sample.
Definition runtime : Runtime := {|
  clock_at n := 1000 + Z.of_nat n;
  fresh_id n := "evt-" +:+ pretty n;
  shape_digest r := Ok (rs_SessionID r +:+ "/" +:+ rs_UserID r +:+ "/" +:+ rs_Kind r +:+ "/" +:+ pretty (length (rs_Jobs r)))
|}.

Definition job (id : string) : GenerationJob :=
  zeroGenerationJob <| j_ID := id |> <| j_IdempotencyKey := "key-" +:+ id |>
    <| j_Provider := ProviderImage2 |> <| j_MediaKind := "image" |>
    <| j_DeliveryPolicy := mkDeliveryPolicy BindingModeCandidate ApprovalReviewRequired ChargePostpaidNoReservation |>
    <| j_MaxAttempts := 3 |>.

Definition operation (user : string) : GenerationOperation :=
  zeroGenerationOperation <| o_ID := "op-1" |> <| o_SessionID := "session-1" |> <| o_UserID := user |>
    <| o_IdempotencyKey := "create-1" |> <| o_Kind := "image" |>.

Definition batch : GenerationBatch := zeroGenerationBatch <| b_ID := "batch-1" |> <| b_Kind := "image" |>.

Definition command_of (user : string) : CreateWorkflowCommand :=
  mkCreateWorkflowCommand (operation user) batch [job "job-1"; job "job-2"].
Definition command : CreateWorkflowCommand := command_of "user-1".

Definition env0 : env unit := mkEnv 0 0 tt.
Definition world0 : world unit := mkWorld NewMemoryStore env0.

(** The world after the sample workflow has been created. *)
Definition world1 : world unit := (CreateWorkflow (H:=runtime) command world0).2.

Definition start : JobMutation (X:=unit) := fun j =>
  ret (Ok (j <| j_Status := StatusRunning |>, [])).
Definition started : world unit := (MutateJob (H:=runtime) "job-1" 1 start world1).2.

(** The samples are what they are meant to be. *)
Example created_jobs : (fun j => (j_ID j, j_Status j)) <$> jobsByBatchLocked (w_store world1) "batch-1"
  = [("job-1", StatusQueued); ("job-2", StatusQueued)].
Proof. vm_compute. reflexivity. Qed.

Example started_job : j_Status (job_or_zero (w_store started) "job-1") = StatusRunning.
Proof. vm_compute. reflexivity. Qed.
End Sample.
