(* ===== verification/WorkflowStoreProps.v ===== *)
(** * What the generation store guarantees

    The invariant of [MemoryStore], its preservation by every command, the
    all-or-nothing behaviour of commands and the facts about the outbox that
    the relay and the workers rely on. *)

From Stdlib Require Import ZArith Lia.
From S2P Require Import Prelude GoJson GenModels WorkflowStore.

#[global] Arguments bind_ok {S A B} c k s /.
#[global] Arguments bind {S A B} c k s /.
#[global] Arguments ret {S A} a s /.
#[global] Arguments fail {S A} e s /.
#[global] Arguments check {S A} v k / s.

(** ** The invariant *)

Record outbox_wf (s : MemoryStore) : Prop := {
  ow_key k id : outboxByKey s !! k = Some id →
    ∃ e, outbox s !! id = Some e ∧ e_IdempotencyKey e = k;
  ow_event id e : outbox s !! id = Some e →
    e_ID e = id ∧ outboxByKey s !! e_IdempotencyKey e = Some id ∧ e_IdempotencyKey e ≠ ""
}.

Record store_wf (s : MemoryStore) : Prop := {
  sw_outbox : outbox_wf s;
  sw_job id j : jobs s !! id = Some j →
    j_ID j = id ∧ TrimSpace id = id ∧ id ≠ "" ∧ j_Status j ∈ job_statuses
    ∧ id ∈ default [] (jobIDsByBatch s !! j_BatchID j);
  sw_members b ids : jobIDsByBatch s !! b = Some ids →
    NoDup ids ∧ is_Some (batches s !! b)
    ∧ ∀ id, id ∈ ids → ∃ j, jobs s !! id = Some j ∧ j_BatchID j = b;
  sw_batch id b : batches s !! id = Some b →
    b_ID b = id ∧ TrimSpace id = id ∧ id ≠ ""
    ∧ ∃ o, operations s !! b_OperationID b = Some o ∧ o_BatchID o = id;
  sw_operation id o : operations s !! id = Some o →
    o_ID o = id ∧ is_Some (batches s !! o_BatchID o)
    ∧ operationByKey s !! o_IdempotencyKey o = Some id;
  sw_operation_key k id : operationByKey s !! k = Some id →
    ∃ o, operations s !! id = Some o ∧ o_IdempotencyKey o = k
}.

(** Everything but the outbox is the same. *)
Definition same_aggregates (s s' : MemoryStore) : Prop :=
  operations s' = operations s ∧ operationByKey s' = operationByKey s ∧ batches s' = batches s
  ∧ jobs s' = jobs s ∧ jobIDsByBatch s' = jobIDsByBatch s.

#[global] Instance same_aggregates_preorder : PreOrder same_aggregates.
Proof. split; unfold same_aggregates; [done|]. intros x y z; naive_solver congruence. Qed.

(** The outbox only grows: an event and the binding of its key stay. *)
Definition outbox_grows (s s' : MemoryStore) : Prop :=
  outbox s ⊆ outbox s' ∧ outboxByKey s ⊆ outboxByKey s'.

#[global] Instance outbox_grows_preorder : PreOrder outbox_grows.
Proof. split; unfold outbox_grows; [done|]. intros x y z [??] [??]; split; by etrans. Qed.

(** The stored form of an event: key trimmed, identifier, status and times
    filled in, payload copied. *)
Definition stored_as (e stored : OutboxEvent) : Prop :=
  ∃ id status created available,
    stored = cloneOutbox (e <| e_IdempotencyKey := TrimSpace (e_IdempotencyKey e) |>
      <| e_ID := id |> <| e_Status := status |> <| e_CreatedAt := created |>
      <| e_AvailableAt := available |>).

Section outbox_lemmas.
Context `{Runtime} {X : Type}.
Implicit Types (w : world X) (e : OutboxEvent) (events : list OutboxEvent).

(** One append: nothing for a bound key, a new event under a new key otherwise. *)
Inductive append_spec w e : result unit * world X → Prop :=
| append_error err w' : w_store w' = w_store w → append_spec w e (Err err, w')
| append_bound id :
    TrimSpace (e_IdempotencyKey e) ≠ "" →
    outboxByKey (w_store w) !! TrimSpace (e_IdempotencyKey e) = Some id →
    append_spec w e (Ok tt, w)
| append_new id stored w' :
    TrimSpace (e_IdempotencyKey e) ≠ "" →
    outboxByKey (w_store w) !! TrimSpace (e_IdempotencyKey e) = None →
    outbox (w_store w) !! id = None →
    stored_as e stored → e_ID stored = id →
    w_store w' = (w_store w) <| outbox := <[id := stored]> (outbox (w_store w)) |>
      <| outboxByKey := <[TrimSpace (e_IdempotencyKey e) := id]> (outboxByKey (w_store w)) |> →
    append_spec w e (Ok tt, w').

Lemma appendOutboxLocked_cases w e : append_spec w e (appendOutboxLocked e w).
Proof.
  unfold appendOutboxLocked. cbn. case_bool_decide as Hne; cbn; [by constructor|].
  destruct (outboxByKey (w_store w) !! TrimSpace (e_IdempotencyKey e)) as [id|] eqn:Hk; cbn.
  { by eapply append_bound. }
  destruct (blank (e_ID e)); cbn.
  all: match goal with |- context [outbox ?s !! ?i] =>
         destruct (outbox s !! i) eqn:Ho end; cbn; try by constructor.
  all: eapply append_new; [done|done|exact Ho| | |reflexivity]; [|reflexivity].
  all: unfold stored_as; do 4 eexists; reflexivity.
Qed.

(** What a list of events leaves behind. *)
Record appended (s : MemoryStore) events (s' : MemoryStore) : Prop := {
  ap_same : same_aggregates s s';
  ap_grows : outbox_grows s s';
  ap_keys : Forall (fun e => is_Some (outboxByKey s' !! TrimSpace (e_IdempotencyKey e))) events;
  ap_new k id : outboxByKey s' !! k = Some id →
    outboxByKey s !! k = Some id
    ∨ ∃ e stored, e ∈ events ∧ TrimSpace (e_IdempotencyKey e) = k
        ∧ outbox s' !! id = Some stored ∧ stored_as e stored;
  ap_wf : outbox_wf s → outbox_wf s'
}.

Lemma appended_nil s : appended s [] s.
Proof. by split; try reflexivity; [constructor|left|]. Qed.

Lemma append_new_wf s e id stored :
  TrimSpace (e_IdempotencyKey e) ≠ "" →
  outboxByKey s !! TrimSpace (e_IdempotencyKey e) = None → outbox s !! id = None →
  stored_as e stored → e_ID stored = id → outbox_wf s →
  outbox_wf (s <| outbox := <[id := stored]> (outbox s) |>
               <| outboxByKey := <[TrimSpace (e_IdempotencyKey e) := id]> (outboxByKey s) |>).
Proof.
  intros Hne Hk Ho (i & st & c & a & ->) Hid [H1 H2]. split; cbn in *.
  - intros k j. rewrite lookup_insert_Some. intros [[<- <-]|[Hnk Hj]].
    + eexists. rewrite lookup_insert_eq. by split.
    + destruct (H1 _ _ Hj) as (e' & He' & ?). exists e'. split; [|done].
      rewrite lookup_insert_ne; [done|]. congruence.
  - intros j e'. rewrite lookup_insert_Some. intros [[<- <-]|[Hnj He']]; cbn.
    + split; [done|]. by rewrite lookup_insert_eq.
    + destruct (H2 _ _ He') as (? & Hb & ?). split; [done|]. split; [|done].
      rewrite lookup_insert_ne; [done|]. congruence.
Qed.

Lemma append_one w e w' :
  appendOutboxLocked e w = (Ok tt, w') → appended (w_store w) [e] (w_store w').
Proof.
  intros Ha. pose proof (appendOutboxLocked_cases w e) as Hc. rewrite Ha in Hc.
  inversion Hc as [|id Hne Hk|id stored w2 Hne Hk Ho Hs Hid Hw]; subst; clear Hc.
  - split; try reflexivity; [|by left|done]. constructor; [by rewrite Hk|constructor].
  - rewrite Hw. split; [done| | | |].
    + split; cbn; by apply insert_subseteq.
    + constructor; [|constructor]. cbn. rewrite lookup_insert_eq. eauto.
    + cbn. intros k id. rewrite lookup_insert_Some. intros [[<- <-]|[? ?]]; [|by left].
      right. exists e, stored. rewrite lookup_insert_eq. split; [by left|done].
    + intros Hwf. by apply append_new_wf.
Qed.

Lemma appended_cons s e s1 events s2 :
  appended s [e] s1 → appended s1 events s2 → appended s (e :: events) s2.
Proof.
  intros [A1 G1 K1 N1 W1] [A2 G2 K2 N2 W2]. split.
  - by etrans.
  - by etrans.
  - constructor; [|done]. apply Forall_inv in K1 as [id Hid].
    exists id. eapply lookup_weaken; [exact Hid|]. apply G2.
  - intros k id Hk. destruct (N2 _ _ Hk) as [Hk1|(e' & st & ? & ? & ? & ?)].
    + destruct (N1 _ _ Hk1) as [?|(e' & st & Hin & ? & Hst & ?)]; [by left|].
      right. exists e', st. apply list_elem_of_singleton in Hin as ->.
      split; [left|]. split; [done|]. split; [|done]. eapply lookup_weaken; [exact Hst|apply G2].
    + right. exists e', st. split; [by right|done].
  - auto.
Qed.

Lemma append_events_ok events w w' :
  append_events events w = (Ok tt, w') → appended (w_store w) events (w_store w').
Proof.
  revert w. induction events as [|e events IH]; intros w; cbn.
  - intros [= <-]. apply appended_nil.
  - destruct (appendOutboxLocked e w) as [[[]|err] w1] eqn:E; [|done].
    intros Ha. eapply appended_cons; [by apply append_one|by apply IH].
Qed.

Lemma appendOutboxBatchLocked_ok events w w' :
  appendOutboxBatchLocked events w = (Ok tt, w') → appended (w_store w) events (w_store w').
Proof.
  unfold appendOutboxBatchLocked. cbn.
  destruct (append_events events w) as [[[]|err] w1] eqn:E; cbn; [|done].
  intros [= <-]. by apply append_events_ok.
Qed.

Lemma appendOutboxBatchLocked_err events w err w' :
  appendOutboxBatchLocked events w = (Err err, w') → w_store w' = w_store w.
Proof.
  unfold appendOutboxBatchLocked. cbn.
  destruct (append_events events w) as [[[]|err'] w1] eqn:E; cbn; [done|]. by intros [= _ <-].
Qed.

(** Appending reads the clock and draws identifiers, nothing else. *)
Lemma appendOutboxLocked_ext e w : env_ext (w_env (appendOutboxLocked e w).2) = env_ext (w_env w).
Proof.
  unfold appendOutboxLocked. cbn. case_bool_decide; cbn; [done|].
  destruct (outboxByKey (w_store w) !! _); cbn; [done|].
  destruct (blank (e_ID e)); cbn; destruct (outbox (w_store w) !! _); done.
Qed.

Lemma append_events_ext events w : env_ext (w_env (append_events events w).2) = env_ext (w_env w).
Proof.
  revert w. induction events as [|e events IH]; intros w; cbn; [done|].
  pose proof (appendOutboxLocked_ext e w) as He.
  destruct (appendOutboxLocked e w) as [[[]|err] w1]; cbn in *; [|done]. by rewrite IH.
Qed.

Lemma appendOutboxBatchLocked_ext events w r w' :
  appendOutboxBatchLocked events w = (r, w') → env_ext (w_env w') = env_ext (w_env w).
Proof.
  unfold appendOutboxBatchLocked. cbn. pose proof (append_events_ext events w) as He.
  destruct (append_events events w) as [[[]|err'] w1]; cbn in *; by intros [= _ <-].
Qed.

Lemma append_one_succeeds e w :
  TrimSpace (e_IdempotencyKey e) ≠ "" → blank (e_ID e) = true →
  outbox (w_store w) !! fresh_id (env_ids (w_env w)) = None →
  ∃ w', appendOutboxBatchLocked [e] w = (Ok tt, w').
Proof.
  intros Hne Hb Hf. unfold appendOutboxBatchLocked, append_events, appendOutboxLocked. cbn.
  rewrite bool_decide_false by done. cbn. destruct (outboxByKey (w_store w) !! _); cbn; [by eexists|].
  rewrite Hb. cbn. rewrite Hf. cbn. by eexists.
Qed.

End outbox_lemmas.

(** ** The commands, branch by branch *)

Lemma status_change_None (validate : string → string → option error) before after :
  status_change validate before after = None → before = after ∨ validate before after = None.
Proof. unfold status_change. case_bool_decide; auto. Qed.

Section commands.
Context `{Runtime} {X : Type}.
Implicit Types (w : world X).

(** The events of a mutation, filled from the stamped job. *)
Definition filled_events (stamped : GenerationJob) (events : list OutboxEvent) : list OutboxEvent :=
  (fun e => fillJobEvent e stamped) <$> events.

Inductive mutate_job_spec id version (mutation : JobMutation) w : result GenerationJob * world X → Prop :=
| mutate_job_fails err w' : w_store w' = w_store w → mutate_job_spec id version mutation w (Err err, w')
| mutate_job_stores before job events v now s1 w' :
    jobs (w_store w) !! TrimSpace id = Some before →
    (0 < version → j_StatusVersion before = version) →
    mutation before (w_env w) = (Ok (job, events), v) →
    j_Status before = j_Status job ∨ ValidateJobTransition (j_Status before) (j_Status job) = None →
    appended (w_store w) (filled_events (stamp_job (cloneJob before) job now)
      (ensureJobLifecycleEvent events (cloneJob before) job true)) s1 →
    w_store w' = s1 <| jobs := <[TrimSpace id := cloneJob (stamp_job (cloneJob before) job now)]> (jobs s1) |> →
    env_ext (w_env w') = env_ext v →
    mutate_job_spec id version mutation w (Ok (cloneJob (stamp_job (cloneJob before) job now)), w').

Lemma MutateJob_cases id version mutation w :
  mutate_job_spec id version mutation w (MutateJob id version mutation w).
Proof.
  unfold MutateJob. cbn [bind get_store].
  destruct (jobs (w_store w) !! TrimSpace id) as [before|] eqn:Hj; [|by constructor].
  destruct ((0 <? version) && negb (j_StatusVersion before =? version)) eqn:Hv; [by constructor|].
  assert (0 < version → j_StatusVersion before = version) as Hv'.
  { intros Hpos. destruct (Z.ltb_spec 0 version); [|lia].
    destruct (Z.eqb_spec (j_StatusVersion before) version); [done|]. done. }
  unfold lift_env. cbn [bind_ok].
  destruct (mutation before (w_env w)) as [[[job events]|err] v] eqn:Hm; [|by constructor].
  destruct (status_change _ _ _) eqn:Hs; cbn [check]; [by constructor|].
  cbn [bind s_clock lift_env clock bind_ok w_store w_env].
  destruct (appendOutboxBatchLocked _ _) as [[[]|err] w1] eqn:Ha.
  - pose proof (appendOutboxBatchLocked_ext _ _ _ _ Ha) as Hext.
    cbn. eapply mutate_job_stores; [done|done|done| | |reflexivity|exact Hext].
    + by apply status_change_None in Hs.
    + apply appendOutboxBatchLocked_ok in Ha. exact Ha.
  - constructor. apply appendOutboxBatchLocked_err in Ha. exact Ha.
Qed.

(** The inputs of a batch transaction in a store. *)
Definition batch_jobs (s : MemoryStore) (batchID : string) : list GenerationJob :=
  (fun id => cloneJob (job_or_zero s id)) <$> default [] (jobIDsByBatch s !! batchID).

Inductive transact_spec id (transaction : BatchTransaction) w : result WorkflowAggregate * world X → Prop :=
| transact_fails err w' : w_store w' = w_store w → transact_spec id transaction w (Err err, w')
| transact_stores batch operation operation1 batch1 js1 events v now s1 s2 w' :
    let bid := TrimSpace id in
    let js := batch_jobs (w_store w) bid in
    batches (w_store w) !! bid = Some batch →
    operations (w_store w) !! b_OperationID batch = Some operation →
    transaction operation batch js (w_env w) = (Ok (operation1, batch1, js1, events), v) →
    b_Status batch = b_Status batch1 ∨ ValidateBatchTransition (b_Status batch) (b_Status batch1) = None →
    o_Status operation = o_Status operation1 ∨ ValidateOperationTransition (o_Status operation) (o_Status operation1) = None →
    jobs_transition (cloneJob <$> js) js1 = None →
    let batch2 := stamp_batch_change (cloneBatch batch) batch1 now in
    let operation2 := stamp_operation_change (cloneOperation operation) operation1 now in
    let js2 := zip_with (stamp_job_change now) (cloneJob <$> js) js1 in
    appended (w_store w)
      ((fun e => fillWorkflowEvent e operation2 batch2 js2)
         <$> ensure_lifecycle_events events (cloneJob <$> js) js1) s1 →
    s2 = s1 <| operations := <[o_ID operation2 := cloneOperation operation2]> (operations s1) |>
            <| batches := <[b_ID batch2 := cloneBatch batch2]> (batches s1) |>
            <| jobs := store_jobs (jobs s1) (default [] (jobIDsByBatch (w_store w) !! bid)) js2 |> →
    w_store w' = s2 → env_ext (w_env w') = env_ext v →
    transact_spec id transaction w (Ok (aggregateLocked s2 (b_ID batch2)), w').

Lemma TransactBatch_cases id transaction w :
  transact_spec id transaction w (TransactBatch id transaction w).
Proof.
  unfold TransactBatch. cbn [bind get_store].
  destruct (batches (w_store w) !! TrimSpace id) as [batch|] eqn:Hb; [|by constructor].
  destruct (operations (w_store w) !! b_OperationID batch) as [operation|] eqn:Ho; [|by constructor].
  unfold lift_env. cbn [bind_ok]. fold (batch_jobs (w_store w) (TrimSpace id)).
  destruct (transaction _ _ _ _) as [[[[[operation1 batch1] js1] events]|err] v] eqn:Ht; [|by constructor].
  destruct (status_change ValidateBatchTransition _ _) eqn:Hs1; cbn [check]; [by constructor|].
  destruct (status_change ValidateOperationTransition _ _) eqn:Hs2; cbn [check]; [by constructor|].
  destruct (jobs_transition _ _) eqn:Hs3; cbn [check]; [by constructor|].
  cbn [bind s_clock lift_env clock bind_ok w_store w_env].
  destruct (appendOutboxBatchLocked _ _) as [[[]|err] w1] eqn:Ha.
  - pose proof (appendOutboxBatchLocked_ext _ _ _ _ Ha) as Hext.
    apply status_change_None in Hs1, Hs2. apply appendOutboxBatchLocked_ok in Ha.
    cbn. eapply transact_stores; done.
  - constructor. apply appendOutboxBatchLocked_err in Ha. exact Ha.
Qed.

(** A creation stores a prepared workflow, answers a replay or fails. *)
Inductive create_spec (command : CreateWorkflowCommand) w : result (WorkflowAggregate * bool) * world X → Prop :=
| create_fails err w' : w_store w' = w_store w → create_spec command w (Err err, w')
| create_replays frozen existingID existing :
    freezeWorkflowRequest command = Ok frozen →
    let op := cw_Operation (trim_command frozen) in
    operationByKey (w_store w) !! o_IdempotencyKey op = Some existingID →
    existing = default zeroGenerationOperation (operations (w_store w) !! existingID) →
    validateWorkflowReplay existing op = None →
    create_spec command w (Ok (aggregateLocked (w_store w) (o_BatchID existing), false), w)
| create_stores frozen now allRequired batch js s1 s2 w' :
    freezeWorkflowRequest command = Ok frozen →
    let command' := trim_command frozen in
    let op := cw_Operation command' in
    let operation := created_operation op (b_ID (cw_Batch command')) now in
    o_ID op ≠ "" → o_SessionID op ≠ "" → o_IdempotencyKey op ≠ "" → b_ID (cw_Batch command') ≠ "" →
    operationByKey (w_store w) !! o_IdempotencyKey op = None →
    operations (w_store w) !! o_ID op = None →
    batches (w_store w) !! b_ID (cw_Batch command') = None →
    cw_Jobs command' ≠ [] →
    prepare_jobs (w_store w) [] allRequired operation
      (stamp_batch (created_batch (cw_Batch command') operation) now) now (cw_Jobs command') = Ok (batch, js) →
    appended (w_store w) (acceptedEvent operation batch :: (newJobDispatchEvent <$> js)) s1 →
    s2 = insert_workflow s1 operation batch js → w_store w' = s2 →
    create_spec command w (Ok (aggregateLocked s2 (b_ID batch), true), w').

Lemma CreateWorkflow_cases command w : create_spec command w (CreateWorkflow command w).
Proof.
  unfold CreateWorkflow.
  destruct (freezeWorkflowRequest command) as [frozen|err] eqn:Hf; [|by constructor].
  cbv zeta. set (c := trim_command frozen). set (op := cw_Operation c).
  destruct (bool_decide (o_ID op = "")) eqn:E1; [by constructor|].
  destruct (bool_decide (o_SessionID op = "")) eqn:E2; [by constructor|].
  destruct (bool_decide (o_IdempotencyKey op = "")) eqn:E3; [by constructor|].
  destruct (bool_decide (b_ID (cw_Batch c) = "")) eqn:E4; [by constructor|].
  cbn [orb bind get_store].
  destruct (operationByKey (w_store w) !! o_IdempotencyKey op) as [eid|] eqn:Hk.
  { destruct (validateWorkflowReplay _ _) eqn:Hr; cbn [check]; [by constructor|].
    by eapply (create_replays command w frozen eid). }
  destruct (bool_decide (is_Some (operations (w_store w) !! o_ID op))) eqn:E5; [by constructor|].
  destruct (bool_decide (is_Some (batches (w_store w) !! b_ID (cw_Batch c)))) eqn:E6; [by constructor|].
  apply bool_decide_eq_false in E1, E2, E3, E4, E5, E6. apply eq_None_not_Some in E5, E6.
  destruct (cw_Jobs c) as [|input inputs] eqn:Hjobs; [by constructor|].
  cbn [bind s_clock lift_env clock].
  destruct (DeliveryPolicy_Validate _); cbn [check]; [by constructor|].
  rewrite <-Hjobs.
  destruct (prepare_jobs _ _ _ _ _ _ _) as [[batch js]|err] eqn:Hp; [|by constructor].
  cbn [bind_ok].
  destruct (appendOutboxBatchLocked _ _) as [[[]|err] w1] eqn:Ha.
  - apply appendOutboxBatchLocked_ok in Ha. cbn.
    eapply (create_stores command w frozen); try done; fold c; by rewrite Hjobs.
  - constructor. apply appendOutboxBatchLocked_err in Ha. exact Ha.
Qed.
End commands.

(** ** Preservation of the invariant *)

Lemma new_store_wf : store_wf NewMemoryStore.
Proof. split; [split|..]; intros *; cbn; rewrite lookup_empty; done. Qed.

Lemma appended_wf s events s' : store_wf s → appended s events s' → store_wf s'.
Proof.
  intros [Ho Hj Hm Hb Hop Hk] [(E1 & E2 & E3 & E4 & E5) _ _ _ Hw].
  split; rewrite ?E1, ?E2, ?E3, ?E4, ?E5; auto.
Qed.

Definition keeps_job (j j' : GenerationJob) : Prop :=
  j_ID j' = j_ID j ∧ j_BatchID j' = j_BatchID j.

Lemma update_job_wf s id j j' :
  store_wf s → jobs s !! id = Some j → keeps_job j j' → j_Status j' ∈ job_statuses →
  store_wf (s <| jobs := <[id := j']> (jobs s) |>).
Proof.
  intros [Ho Hj Hm Hb Hop Hk] Hid [K1 K2] Hs. split; cbn; try done.
  - destruct Ho. by split.
  - intros i x. rewrite lookup_insert_Some. intros [[<- <-]|[_ Hx]]; [|by apply Hj].
    destruct (Hj _ _ Hid) as (? & ? & ? & _ & ?). rewrite K1, K2. by repeat split.
  - intros b ids Hids. destruct (Hm _ _ Hids) as (? & ? & Hall). split; [done|]. split; [done|].
    intros i Hi. destruct (Hall i Hi) as (x & Hx & Hxb).
    destruct (decide (id = i)) as [->|Hne].
    + exists j'. rewrite lookup_insert_eq. split; [done|]. rewrite K2. congruence.
    + exists x. by rewrite lookup_insert_ne.
Qed.

Lemma update_batch_wf s id b b' :
  store_wf s → batches s !! id = Some b → b_ID b' = id → b_OperationID b' = b_OperationID b →
  store_wf (s <| batches := <[id := b']> (batches s) |>).
Proof.
  intros [Ho Hj Hm Hb Hop Hk] Hid K1 K2.
  assert (∀ i, is_Some (batches s !! i) → is_Some (<[id := b']> (batches s) !! i)) as Hsome.
  { intros i. destruct (decide (id = i)) as [->|]; [rewrite lookup_insert_eq; eauto|by rewrite lookup_insert_ne]. }
  split; cbn; try done.
  - destruct Ho. by split.
  - intros i ids Hids. destruct (Hm _ _ Hids) as (? & ? & ?). auto.
  - intros i x. rewrite lookup_insert_Some. intros [[<- <-]|[_ Hx]]; [|by apply Hb].
    destruct (Hb _ _ Hid) as (? & ? & ? & ?). rewrite K2. by repeat split.
  - intros i o Hi. destruct (Hop _ _ Hi) as (? & ? & ?). auto.
Qed.

Lemma update_operation_wf s id o o' :
  store_wf s → operations s !! id = Some o → o_ID o' = id → o_BatchID o' = o_BatchID o →
  o_IdempotencyKey o' = o_IdempotencyKey o →
  store_wf (s <| operations := <[id := o']> (operations s) |>).
Proof.
  intros [Ho Hj Hm Hb Hop Hk] Hid K1 K2 K3. split; cbn; try done.
  - destruct Ho. by split.
  - intros i b Hi. destruct (Hb _ _ Hi) as (? & ? & ? & x & Hx & Hxb). repeat (split; [done|]).
    destruct (decide (id = b_OperationID b)) as [->|].
    + exists o'. rewrite lookup_insert_eq. split; [done|]. congruence.
    + exists x. by rewrite lookup_insert_ne.
  - intros i x. rewrite lookup_insert_Some. intros [[<- <-]|[_ Hx]]; [|by apply Hop].
    destruct (Hop _ _ Hid) as (? & ? & ?). rewrite K2, K3. by repeat split.
  - intros k i Hi. destruct (Hk _ _ Hi) as (x & Hx & ?).
    destruct (decide (id = i)) as [->|].
    + exists o'. rewrite lookup_insert_eq. split; [done|]. congruence.
    + exists x. by rewrite lookup_insert_ne.
Qed.

Section preservation.
Context `{Runtime} {X : Type}.
Implicit Types (w : world X).

(** Mutations and transactions may change everything about a record but the
    identifiers the maps are keyed by. *)
Definition mutation_keeps (mutation : JobMutation (X:=X)) : Prop :=
  ∀ j v j' events v', mutation j v = (Ok (j', events), v') → keeps_job j j'.

Definition transaction_keeps (transaction : BatchTransaction (X:=X)) : Prop :=
  ∀ o b js v o' b' js' events v', transaction o b js v = (Ok (o', b', js', events), v') →
    (o_ID o' = o_ID o ∧ o_BatchID o' = o_BatchID o ∧ o_IdempotencyKey o' = o_IdempotencyKey o)
    ∧ (b_ID b' = b_ID b ∧ b_OperationID b' = b_OperationID b)
    ∧ Forall2 keeps_job js js'.

Lemma changed_status_known (before after : string) :
  before ∈ job_statuses → before = after ∨ ValidateJobTransition before after = None →
  after ∈ job_statuses.
Proof. intros Hb [->|Hv]; [done|]. by apply ValidateJobTransition_None in Hv as (_ & ? & _). Qed.

Lemma MutateJob_wf id version mutation w r w' :
  store_wf (w_store w) → mutation_keeps mutation →
  MutateJob id version mutation w = (r, w') → store_wf (w_store w').
Proof.
  intros Hwf Hk Hm. pose proof (MutateJob_cases id version mutation w) as Hc. rewrite Hm in Hc.
  inversion Hc as [err w1 Hw|before job events v now s1 w1 Hj Hv Hmut Hst Ha Hw _]; subst; rewrite Hw; [done|].
  destruct (Hk _ _ _ _ _ Hmut) as [K1 K2].
  destruct (ap_same _ _ _ Ha) as (_ & _ & _ & E & _).
  eapply update_job_wf; [by eapply appended_wf|by rewrite E|done|].
  cbn. eapply changed_status_known; [|exact Hst]. by apply (sw_job _ Hwf _ _ Hj).
Qed.

Lemma jobs_transition_None before after i a b :
  jobs_transition before after = None → before !! i = Some b → after !! i = Some a →
  j_Status b = j_Status a ∨ ValidateJobTransition (j_Status b) (j_Status a) = None.
Proof.
  revert after i. induction before as [|b0 before IH]; intros [|a0 after] [|i]; simpl; try done.
  - destruct (status_change _ _ _) eqn:E; [done|]. intros _ [= ->] [= ->]. by apply status_change_None in E.
  - destruct (status_change _ _ _) eqn:E; [done|]. apply IH.
Qed.

(** Storing the jobs of a transaction, one id at a time. *)
Lemma store_jobs_wf s ids js' :
  store_wf s → length ids = length js' →
  (∀ i id j', ids !! i = Some id → js' !! i = Some j' →
     ∃ j, jobs s !! id = Some j ∧ keeps_job j j' ∧ j_Status j' ∈ job_statuses) →
  NoDup ids →
  store_wf (s <| jobs := store_jobs (jobs s) ids js' |>).
Proof.
  revert s js'. induction ids as [|id ids IH]; intros s [|j' js'] Hwf Hlen Hall Hnd; try done.
  - by destruct s.
  - apply NoDup_cons in Hnd as [Hnotin Hnd].
    destruct (Hall 0%nat id j' eq_refl eq_refl) as (j & Hj & Hk & Hs).
    unfold store_jobs. cbn [zip_with foldl]. fold (store_jobs (<[id := cloneJob j']> (jobs s)) ids js').
    pose proof (update_job_wf s id j (cloneJob j') Hwf Hj Hk Hs) as Hwf1.
    eapply (IH _ js') in Hwf1; [exact Hwf1|by injection Hlen| |done].
    intros i id2 j2 Hid2 Hj2. destruct (Hall (S i) id2 j2 Hid2 Hj2) as (x & Hx & ?).
    exists x. cbn. rewrite lookup_insert_ne; [done|].
    intros ->. apply Hnotin. by eapply list_elem_of_lookup_2.
Qed.

Lemma store_jobs_notin m ids js id : id ∉ ids → store_jobs m ids js !! id = m !! id.
Proof.
  revert m js. induction ids as [|i ids IH]; intros m [|j js] Hn; try done.
  apply not_elem_of_cons in Hn as [Hne Hn]. unfold store_jobs. cbn [zip_with foldl].
  fold (store_jobs (<[i := cloneJob j]> m) ids js). rewrite IH by done. by rewrite lookup_insert_ne.
Qed.

Lemma store_jobs_lookup m ids js i id j :
  NoDup ids → ids !! i = Some id → js !! i = Some j → store_jobs m ids js !! id = Some (cloneJob j).
Proof.
  revert m js i. induction ids as [|i0 ids IH]; intros m [|j0 js] i Hnd Hid Hj; try done.
  apply NoDup_cons in Hnd as [Hn Hnd]. unfold store_jobs. cbn [zip_with foldl].
  fold (store_jobs (<[i0 := cloneJob j0]> m) ids js).
  destruct i as [|i]; simpl in *; [|by eapply IH]. simplify_eq.
  rewrite store_jobs_notin by done. by rewrite lookup_insert_eq.
Qed.

Lemma stamp_job_change_keeps now b a :
  j_ID (stamp_job_change now b a) = j_ID a ∧ j_BatchID (stamp_job_change now b a) = j_BatchID a
  ∧ j_Status (stamp_job_change now b a) = j_Status a.
Proof. unfold stamp_job_change. destruct (equalJSON _ _ _); repeat split. Qed.

Lemma stamp_batch_change_keeps b b' now :
  b_ID (stamp_batch_change b b' now) = b_ID b'
  ∧ b_OperationID (stamp_batch_change b b' now) = b_OperationID b'
  ∧ b_Status (stamp_batch_change b b' now) = b_Status b'.
Proof. unfold stamp_batch_change. destruct (equalJSON _ _ _); repeat split. Qed.

Lemma stamp_operation_change_keeps o o' now :
  o_ID (stamp_operation_change o o' now) = o_ID o'
  ∧ o_BatchID (stamp_operation_change o o' now) = o_BatchID o'
  ∧ o_IdempotencyKey (stamp_operation_change o o' now) = o_IdempotencyKey o'
  ∧ o_Status (stamp_operation_change o o' now) = o_Status o'.
Proof. unfold stamp_operation_change. destruct (equalJSON _ _ _); repeat split. Qed.

Lemma batch_jobs_lookup s bid i id :
  store_wf s → default [] (jobIDsByBatch s !! bid) !! i = Some id →
  ∃ j, jobs s !! id = Some j ∧ j_BatchID j = bid ∧ batch_jobs s bid !! i = Some (cloneJob j).
Proof.
  intros Hwf Hid. destruct (jobIDsByBatch s !! bid) as [ids|] eqn:E; [|done]. simpl in Hid.
  destruct (sw_members _ Hwf _ _ E) as (_ & _ & Hall).
  destruct (Hall id) as (j & Hj & Hb); [by eapply list_elem_of_lookup_2|].
  exists j. split; [done|]. split; [done|].
  unfold batch_jobs, job_or_zero. rewrite E. simpl. rewrite list_lookup_fmap, Hid. simpl. by rewrite Hj.
Qed.

Lemma batch_ids_NoDup s bid : store_wf s → NoDup (default [] (jobIDsByBatch s !! bid)).
Proof.
  intros Hwf. destruct (jobIDsByBatch s !! bid) as [ids|] eqn:E; simpl; [|constructor].
  by apply (sw_members _ Hwf _ _ E).
Qed.

(** The jobs a committed transaction stores, position by position. *)
Lemma transacted_job s bid now js1 i id j2 :
  store_wf s → Forall2 keeps_job (batch_jobs s bid) js1 →
  jobs_transition (cloneJob <$> batch_jobs s bid) js1 = None →
  default [] (jobIDsByBatch s !! bid) !! i = Some id →
  zip_with (stamp_job_change now) (cloneJob <$> batch_jobs s bid) js1 !! i = Some j2 →
  ∃ j, jobs s !! id = Some j ∧ keeps_job j j2
       ∧ (j_Status j = j_Status j2 ∨ ValidateJobTransition (j_Status j) (j_Status j2) = None).
Proof.
  intros Hwf Hf Ht Hid Hj2. destruct (batch_jobs_lookup _ _ _ _ Hwf Hid) as (j & Hj & _ & Hb).
  apply lookup_zip_with_Some in Hj2 as (b1 & a1 & -> & Hb1 & Ha1).
  rewrite list_lookup_fmap, Hb in Hb1. simpl in Hb1. injection Hb1 as <-.
  destruct (Forall2_lookup_lr _ _ _ _ _ _ Hf Hb Ha1) as [K1 K2].
  destruct (stamp_job_change_keeps now (cloneJob (cloneJob j)) a1) as (S1 & S2 & S3).
  exists j. split; [done|]. split; [split; [by rewrite S1|by rewrite S2]|]. rewrite S3.
  by apply (jobs_transition_None _ _ i a1 (cloneJob (cloneJob j)) Ht);
    [rewrite list_lookup_fmap, Hb|].
Qed.

Lemma TransactBatch_wf id transaction w r w' :
  store_wf (w_store w) → transaction_keeps transaction →
  TransactBatch id transaction w = (r, w') → store_wf (w_store w').
Proof.
  intros Hwf Hk Hm. pose proof (TransactBatch_cases id transaction w) as Hc. rewrite Hm in Hc.
  inversion Hc as [err w1 Hw|batch operation operation1 batch1 js1 events v now s1 s2 w1 bid js
    Hb Ho Ht _ _ Hst batch2 operation2 js2 Ha Hs2 Hw _]; subst; rewrite Hw; [done|].
  destruct (Hk _ _ _ _ _ _ _ _ _ Ht) as ((O1 & O2 & O3) & (B1 & B2) & Hf).
  destruct (sw_batch _ Hwf _ _ Hb) as (Bid & _).
  destruct (sw_operation _ Hwf _ _ Ho) as (Oid & _).
  destruct (ap_same _ _ _ Ha) as (E1 & _ & E3 & E4 & E5).
  destruct (stamp_batch_change_keeps (cloneBatch batch) batch1 now) as (SB1 & SB2 & _).
  destruct (stamp_operation_change_keeps (cloneOperation operation) operation1 now) as (SO1 & SO2 & SO3 & _).
  fold batch2 in SB1, SB2. fold operation2 in SO1, SO2, SO3.
  pose proof (appended_wf _ _ _ Hwf Ha) as Hwf1.
  assert (store_wf (s1 <| jobs := store_jobs (jobs s1) (default [] (jobIDsByBatch (w_store w) !! bid)) js2 |>)) as Hwf2.
  { apply store_jobs_wf; [done| | |by apply batch_ids_NoDup].
    - unfold js2. rewrite length_zip_with, length_fmap, <-(Forall2_length _ _ _ Hf), Nat.min_id.
      unfold js, batch_jobs. by rewrite length_fmap.
    - intros i jid j2 Hid Hj2. rewrite E4.
      destruct (transacted_job _ _ _ _ _ _ _ Hwf Hf Hst Hid Hj2) as (j & Hj & Hkeep & Htr).
      exists j. split; [done|]. split; [done|].
      eapply changed_status_known; [|exact Htr]. by apply (sw_job _ Hwf _ _ Hj). }
  eapply (update_batch_wf _ bid batch (cloneBatch batch2)) in Hwf2;
    [|cbn; by rewrite E3|cbn; by rewrite SB1, B1, Bid|cbn; by rewrite SB2, B2].
  eapply (update_operation_wf _ (b_OperationID batch) operation (cloneOperation operation2)) in Hwf2;
    [|cbn; by rewrite E1|cbn; by rewrite SO1, O1, Oid|cbn; by rewrite SO2, O2|cbn; by rewrite SO3, O3].
  cbn in Hwf2 |- *. by rewrite SB1, B1, Bid, SO1, O1, Oid.
Qed.

(** A job as a creation stores it. *)
Record fresh_job (op : GenerationOperation) (batch : GenerationBatch) (j : GenerationJob) : Prop := {
  fj_trim : TrimSpace (j_ID j) = j_ID j;
  fj_nonempty : j_ID j ≠ "";
  fj_status : j_Status j = StatusQueued;
  fj_phase : j_Phase j = PhaseProviderSubmit;
  fj_batch : j_BatchID j = b_ID batch;
  fj_operation : j_OperationID j = o_ID op;
  fj_attempts : 0 < j_MaxAttempts j;
  fj_polls : 0 < j_MaxProviderPollAttempts j
}.

Lemma prepare_job_fresh taken allRequired op batch now input job :
  prepare_job taken allRequired op batch now input = Ok job →
  fresh_job op batch job ∧ taken (j_ID job) = false.
Proof.
  unfold prepare_job. cbv zeta.
  set (j0 := (if allRequired then _ else _) <| j_ID := _ |> <| j_IdempotencyKey := _ |>).
  assert (TrimSpace (j_ID j0) = j_ID j0) as Htrim by apply TrimSpace_idem.
  case_bool_decide as Hne; [done|]. case_bool_decide; [done|]. cbn [orb].
  destruct (taken (j_ID j0)) eqn:Ht; [done|].
  destruct (DeliveryPolicy_Validate _); [done|].
  destruct (if blank _ then _ else _); [done|]. intros [= <-]. clearbody j0.
  split; [|done]. split; try done; cbn; case_match eqn:E; unfold DefaultProviderMaxPollAttempts; lia.
Qed.

Lemma count_job_keeps batch j :
  b_ID (count_job batch j) = b_ID batch ∧ b_OperationID (count_job batch j) = b_OperationID batch
  ∧ b_Status (count_job batch j) = b_Status batch.
Proof. unfold count_job. by case_match. Qed.

Lemma prepare_jobs_fresh s seen allRequired op batch now inputs batch' js :
  prepare_jobs s seen allRequired op batch now inputs = Ok (batch', js) →
  (b_ID batch' = b_ID batch ∧ b_OperationID batch' = b_OperationID batch ∧ b_Status batch' = b_Status batch)
  ∧ length js = length inputs
  ∧ NoDup (j_ID <$> js)
  ∧ Forall (fun j => fresh_job op batch j ∧ jobs s !! j_ID j = None ∧ j_ID j ∉ seen) js.
Proof.
  revert seen batch batch' js. induction inputs as [|input inputs IH]; intros seen batch batch' js; simpl.
  { intros [= <- <-]. repeat split; constructor. }
  destruct (prepare_job _ _ _ _ _ _) as [job|] eqn:Hp; [|done].
  destruct (prepare_jobs _ _ _ _ _ _ _) as [[b2 js2]|] eqn:Hps; [|done]. intros [= <- <-].
  apply prepare_job_fresh in Hp as [Hf Ht]. apply orb_false_iff in Ht as [Ht1 Ht2].
  apply bool_decide_eq_false in Ht1, Ht2. apply eq_None_not_Some in Ht2.
  destruct (IH _ _ _ _ Hps) as (Hb & Hlen & Hnd & Hall).
  destruct (count_job_keeps batch job) as (C1 & C2 & C3). rewrite C1, C2, C3 in Hb.
  split; [done|]. split; [simpl; lia|]. rewrite fmap_cons, NoDup_cons, Forall_cons.
  split; [split; [|done]|split; [done|]].
  - rewrite list_elem_of_fmap. intros (j & Heq & Hin). rewrite Forall_forall in Hall.
    destruct (Hall j Hin) as (_ & _ & Hns). apply Hns. rewrite <-Heq. left.
  - eapply Forall_impl; [exact Hall|]. intros j (Hj & ? & Hns). split; [|set_solver].
    destruct Hj. split; try done. by rewrite <-C1.
Qed.

Lemma insert_job_wf bid s j :
  store_wf s → is_Some (batches s !! bid) → jobs s !! j_ID j = None →
  TrimSpace (j_ID j) = j_ID j → j_ID j ≠ "" → j_Status j ∈ job_statuses → j_BatchID j = bid →
  store_wf (insert_job bid s j).
Proof.
  intros [Ho Hj Hm Hb Hop Hk] Hbs Hnone Htrim Hne Hs Hbid. split; cbn; try done.
  - destruct Ho. by split.
  - intros i x. rewrite lookup_insert_Some. intros [[<- <-]|[Hni Hx]].
    + repeat (split; [done|]). rewrite Hbid, lookup_insert_eq. apply elem_of_app. right. left.
    + destruct (Hj _ _ Hx) as (? & ? & ? & ? & Hin). repeat (split; [done|]).
      destruct (decide (bid = j_BatchID x)) as [->|]; [|by rewrite lookup_insert_ne].
      rewrite lookup_insert_eq. apply elem_of_app. by left.
  - intros b ids. rewrite lookup_insert_Some. intros [[<- <-]|[Hnb Hids]].
    + destruct (jobIDsByBatch s !! bid) as [ids|] eqn:E; simpl.
      * destruct (Hm _ _ E) as (Hnd & _ & Hall). split; [|split; [done|]].
        -- apply NoDup_app. split; [done|]. split; [|apply NoDup_singleton].
           intros i Hi ->%list_elem_of_singleton. destruct (Hall _ Hi) as (? & ? & ?). congruence.
        -- intros i [Hi| ->%list_elem_of_singleton]%elem_of_app.
           ++ destruct (Hall _ Hi) as (x & Hx & ?). exists x. rewrite lookup_insert_ne; [done|congruence].
           ++ exists j. by rewrite lookup_insert_eq.
      * split; [apply NoDup_singleton|]. split; [done|].
        intros i ->%list_elem_of_singleton. exists j. by rewrite lookup_insert_eq.
    + destruct (Hm _ _ Hids) as (? & ? & Hall). split; [done|]. split; [done|].
      intros i Hi. destruct (Hall _ Hi) as (x & Hx & ?). exists x.
      rewrite lookup_insert_ne; [done|congruence].
Qed.

Lemma insert_jobs_wf op batch s js :
  store_wf s → is_Some (batches s !! b_ID batch) → NoDup (j_ID <$> js) →
  Forall (fun j => fresh_job op batch j ∧ jobs s !! j_ID j = None) js →
  store_wf (foldl (insert_job (b_ID batch)) s js).
Proof.
  revert s. induction js as [|j js IH]; intros s Hwf Hb Hnd Hall; simpl; [done|].
  apply Forall_cons in Hall as [[Hf Hnone] Hall]. apply NoDup_cons in Hnd as [Hnotin Hnd].
  apply IH; [|done|done|].
  - destruct Hf as [? ? Hst]. apply insert_job_wf; try done. rewrite Hst. unfold job_statuses. set_solver.
  - rewrite Forall_forall in Hall |- *. intros x Hx. destruct (Hall x Hx) as [? ?]. split; [done|].
    cbn. rewrite lookup_insert_ne; [done|]. intros Heq. apply Hnotin. rewrite Heq.
    by apply list_elem_of_fmap_2.
Qed.

(** A new operation with its batch. *)
Lemma insert_header_wf s op batch :
  store_wf s → operations s !! o_ID op = None → operationByKey s !! o_IdempotencyKey op = None →
  batches s !! b_ID batch = None → o_BatchID op = b_ID batch → b_OperationID batch = o_ID op →
  TrimSpace (b_ID batch) = b_ID batch → b_ID batch ≠ "" →
  store_wf (s <| operations := <[o_ID op := op]> (operations s) |>
              <| operationByKey := <[o_IdempotencyKey op := o_ID op]> (operationByKey s) |>
              <| batches := <[b_ID batch := batch]> (batches s) |>).
Proof.
  intros [Ho Hj Hm Hb Hop Hk] N1 N2 N3 E1 E2 Ht Hne. split; cbn; try done.
  - destruct Ho. by split.
  - intros b ids Hids. destruct (Hm _ _ Hids) as (? & [x Hx] & ?). split; [done|]. split; [|done].
    exists x. rewrite lookup_insert_ne; [done|congruence].
  - intros i b. rewrite lookup_insert_Some. intros [[<- <-]|[Hni Hi]].
    + repeat (split; [done|]). exists op. by rewrite E2, lookup_insert_eq.
    + destruct (Hb _ _ Hi) as (? & ? & ? & x & Hx & ?). repeat (split; [done|]). exists x.
      rewrite lookup_insert_ne; [done|congruence].
  - intros i o. rewrite lookup_insert_Some. intros [[<- <-]|[Hni Hi]].
    + rewrite E1, !lookup_insert_eq. eauto.
    + destruct (Hop _ _ Hi) as (? & [x Hx] & ?). split; [done|]. split.
      * exists x. rewrite lookup_insert_ne; [done|congruence].
      * rewrite lookup_insert_ne; [done|congruence].
  - intros k i. rewrite lookup_insert_Some. intros [[<- <-]|[Hnk Hi]].
    + exists op. by rewrite lookup_insert_eq.
    + destruct (Hk _ _ Hi) as (x & Hx & ?). exists x. rewrite lookup_insert_ne; [done|congruence].
Qed.

Lemma CreateWorkflow_wf command w r w' :
  store_wf (w_store w) → CreateWorkflow command w = (r, w') → store_wf (w_store w').
Proof.
  intros Hwf Hm. pose proof (CreateWorkflow_cases command w) as Hc. rewrite Hm in Hc.
  inversion Hc as [err w1 Hw|frozen eid existing Hfr op Hk He Hv|
    frozen now allRequired batch js s1 s2 w1 Hfr command' op operation N1 N1' N2 N3 Hk Ho Hb Hjs Hp Ha Hs2 Hw];
    subst; [by rewrite Hw|done|]. rewrite Hw.
  destruct (prepare_jobs_fresh _ _ _ _ _ _ _ _ _ Hp) as ((B1 & B2 & _) & _ & Hnd & Hall).
  destruct (ap_same _ _ _ Ha) as (E1 & E2 & E3 & E4 & _).
  assert (b_ID batch = b_ID (cw_Batch command')) as Bid by exact B1.
  unfold insert_workflow. apply (insert_jobs_wf operation batch).
  - apply insert_header_wf; rewrite ?E1, ?E2, ?E3, ?Bid; try done.
    + by eapply appended_wf.
    + cbn. apply TrimSpace_idem.
  - cbn. rewrite lookup_insert_eq. eauto.
  - done.
  - cbn. rewrite E4. eapply Forall_impl; [exact Hall|]. intros j (Hf & ? & _). split; [|done].
    destruct Hf. split; try done. by rewrite B1.
Qed.
End preservation.

(** ** Runs

    A step is one command on the store, or the environment moving on its own. *)

Section runs.
Context `{Runtime} {X : Type}.
Implicit Types (w : world X).

Inductive store_step w : world X → Prop :=
| step_create command r w' : CreateWorkflow command w = (r, w') → store_step w w'
| step_mutate id version mutation r w' :
    mutation_keeps mutation → MutateJob id version mutation w = (r, w') → store_step w w'
| step_transact id transaction r w' :
    transaction_keeps transaction → TransactBatch id transaction w = (r, w') → store_step w w'
| step_renew id owner until r w' : RenewJobLease id owner until w = (r, w') → store_step w w'
| step_published id at_ r w' : MarkOutboxPublished id at_ w = (r, w') → store_step w w'
| step_failed id at_ n r w' : MarkOutboxFailed id at_ n w = (r, w') → store_step w w'
| step_env v : store_step w (mkWorld (w_store w) v).

(** *** Leases and outbox marks *)

Inductive renew_spec id owner until w : result unit * world X → Prop :=
| renew_fails err w' : w_store w' = w_store w → renew_spec id owner until w (Err err, w')
| renew_stores job now w' :
    jobs (w_store w) !! TrimSpace id = Some job →
    j_LeaseOwner job = TrimSpace owner →
    j_Status job = StatusRunning ∨ j_Status job = StatusFinalizing →
    let job' := job <| j_LeaseUntil := Some until |> <| j_UpdatedAt := now |> in
    w_store w' = (w_store w) <| jobs := <[j_ID job := job']> (jobs (w_store w)) |> →
    renew_spec id owner until w (Ok tt, w').

Lemma RenewJobLease_cases id owner until w : renew_spec id owner until w (RenewJobLease id owner until w).
Proof.
  unfold RenewJobLease. cbn [bind get_store].
  destruct (jobs (w_store w) !! TrimSpace id) as [job|] eqn:Hj; [|by constructor].
  case_bool_decide as Ho; cbn [negb orb]; [|by constructor].
  case_bool_decide as Hr; cbn [negb andb orb]; [cbn; eapply renew_stores; eauto|].
  case_bool_decide as Hf; cbn [negb andb orb]; [cbn; eapply renew_stores; eauto|by constructor].
Qed.

(** What a mark may change of a stored event. *)
Definition event_moves (e e' : OutboxEvent) : Prop :=
  ∃ status attempts available published,
    cloneOutbox e' = cloneOutbox (e <| e_Status := status |> <| e_Attempts := attempts |>
                                    <| e_AvailableAt := available |> <| e_PublishedAt := published |>)
    ∧ (e_Status e = OutboxPublished → status = OutboxPublished ∧ published = e_PublishedAt e).

Inductive mark_spec w : result unit * world X → Prop :=
| mark_nothing r w' : w_store w' = w_store w → mark_spec w (r, w')
| mark_stores id e e' w' :
    outbox (w_store w) !! id = Some e → e_Status e ≠ OutboxPublished →
    event_moves e e' → e_ID e' = e_ID e → e_IdempotencyKey e' = e_IdempotencyKey e →
    w_store w' = (w_store w) <| outbox := <[e_ID e := e']> (outbox (w_store w)) |> →
    mark_spec w (Ok tt, w').

Lemma MarkOutboxPublished_cases id at_ w : mark_spec w (MarkOutboxPublished id at_ w).
Proof.
  unfold MarkOutboxPublished. cbn [bind get_store].
  destruct (outbox (w_store w) !! TrimSpace id) as [e|] eqn:He; [|by constructor].
  case_bool_decide as Hp; [by constructor|].
  destruct (IsZero at_); cbn.
  all: eapply (mark_stores _ _ e); cycle 5; [reflexivity|exact He|done| |reflexivity|reflexivity].
  all: by do 4 eexists.
Qed.

Lemma MarkOutboxFailed_cases id at_ n w : mark_spec w (MarkOutboxFailed id at_ n w).
Proof.
  unfold MarkOutboxFailed. cbn [bind get_store].
  destruct (outbox (w_store w) !! TrimSpace id) as [e|] eqn:He; [|by constructor].
  case_bool_decide as Hp; cbn [negb]; [|by constructor].
  destruct (IsZero at_); cbn; destruct ((0 <? n) && (n <=? incr (e_Attempts e))); cbn.
  all: eapply (mark_stores _ _ e); cycle 5; [reflexivity|exact He|by rewrite Hp| |reflexivity|reflexivity].
  all: do 4 eexists; split; [unfold cloneOutbox; cbn; by rewrite cloneMap_idem|by rewrite Hp].
Qed.

Lemma mark_wf w r w' : store_wf (w_store w) → mark_spec w (r, w') → store_wf (w_store w').
Proof.
  intros Hwf Hm. inversion Hm as [? ? Hw|id e e' ? He Hs Hmv E1 E2 Hw]; subst; rewrite Hw; [done|].
  destruct Hwf as [[Hk Hev] Hj Hmem Hb Hop Hkey]. destruct (Hev _ _ He) as (Eid & Ek & ?).
  split; cbn; try done. split; cbn.
  - intros k i Hi. destruct (Hk _ _ Hi) as (x & Hx & ?). rewrite Eid.
    destruct (decide (id = i)) as [->|]; [|exists x; by rewrite lookup_insert_ne].
    exists e'. rewrite lookup_insert_eq. split; [done|]. congruence.
  - intros i x. rewrite lookup_insert_Some. intros [[<- <-]|[_ Hx]]; [|by apply Hev].
    rewrite E1, E2, Eid. done.
Qed.

Lemma store_step_wf w w' : store_wf (w_store w) → store_step w w' → store_wf (w_store w').
Proof.
  intros Hwf Hstep. destruct Hstep as [c r w' E|id v m r w' Hk E|id t r w' Hk E|id o u r w' E|id a r w' E|id a n r w' E|v].
  - by eapply CreateWorkflow_wf.
  - by eapply MutateJob_wf.
  - by eapply TransactBatch_wf.
  - pose proof (RenewJobLease_cases id o u w) as Hc. rewrite E in Hc.
    inversion Hc as [? ? Hw|job now ? Hj ? ? job' Hw]; subst; rewrite Hw; [done|].
    destruct (sw_job _ Hwf _ _ Hj) as (Eid & _ & _ & Hs & _). rewrite Eid.
    by eapply update_job_wf.
  - eapply mark_wf; [done|]. rewrite <-E. apply MarkOutboxPublished_cases.
  - eapply mark_wf; [done|]. rewrite <-E. apply MarkOutboxFailed_cases.
  - done.
Qed.
End runs.

(** ** Local variables of closures

    A transaction that assigns a variable of its caller is, for the store, the
    transaction with that variable dropped. *)

Section locals.
Context `{Runtime} {X L : Type}.

Definition add_local (l : L) (v : env X) : env (X * L) := mkEnv (env_reads v) (env_ids v) (env_ext v, l).
Definition drop_env (v : env (X * L)) : env X := mkEnv (env_reads v) (env_ids v) (env_ext v).1.
Definition drop_world (w : world (X * L)) : world X := mkWorld (w_store w) (drop_env (w_env w)).

Definition run_local (l : L) (transaction : BatchTransaction (X := X * L)) : BatchTransaction (X := X) :=
  fun operation batch js v =>
  let '(r, v') := transaction operation batch js (add_local l v) in (r, drop_env v').

Lemma appendOutboxLocked_drop e (w : world (X * L)) :
  appendOutboxLocked e (drop_world w)
  = ((appendOutboxLocked e w).1, drop_world (appendOutboxLocked e w).2).
Proof.
  unfold appendOutboxLocked. cbn. case_bool_decide; cbn; [done|].
  destruct (outboxByKey (w_store w) !! _); cbn; [done|].
  destruct (blank (e_ID e)); cbn; destruct (outbox (w_store w) !! _); done.
Qed.

Lemma append_events_drop events (w : world (X * L)) :
  append_events events (drop_world w) = ((append_events events w).1, drop_world (append_events events w).2).
Proof.
  revert w. induction events as [|e events IH]; intros w; cbn; [done|].
  rewrite appendOutboxLocked_drop. destruct (appendOutboxLocked e w) as [[[]|err] w1]; cbn; [apply IH|done].
Qed.

Lemma appendOutboxBatchLocked_drop events (w : world (X * L)) :
  appendOutboxBatchLocked events (drop_world w)
  = ((appendOutboxBatchLocked events w).1, drop_world (appendOutboxBatchLocked events w).2).
Proof.
  unfold appendOutboxBatchLocked. cbn. rewrite append_events_drop.
  by destruct (append_events events w) as [[[]|err] w1].
Qed.

Lemma TransactBatch_local id (transaction : BatchTransaction (X := X * L)) l (w : world X) :
  let '(r, w') := TransactBatch id transaction (mkWorld (w_store w) (add_local l (w_env w))) in
  TransactBatch id (run_local l transaction) w = (r, drop_world w').
Proof.
  destruct (TransactBatch id transaction _) as [r w'] eqn:E. revert E. unfold TransactBatch. cbn [bind get_store w_store].
  assert (w = drop_world (mkWorld (w_store w) (add_local l (w_env w)))) as Hd by (by destruct w as [? []]).
  destruct (batches (w_store w) !! TrimSpace id) as [batch|]; [|cbn; by intros [= <- <-]; rewrite Hd at 1].
  destruct (operations (w_store w) !! b_OperationID batch) as [operation|];
    [|cbn; by intros [= <- <-]; rewrite Hd at 1].
  unfold lift_env, run_local. cbn [bind_ok w_env w_store].
  destruct (transaction _ _ _ _) as [[[[[operation1 batch1] js1] events]|err] v]; [|by intros [= <- <-]].
  destruct (status_change ValidateBatchTransition _ _); cbn [check]; [by intros [= <- <-]|].
  destruct (status_change ValidateOperationTransition _ _); cbn [check]; [by intros [= <- <-]|].
  destruct (jobs_transition _ _); cbn [check]; [by intros [= <- <-]|].
  cbn [bind s_clock lift_env clock bind_ok w_store w_env drop_env env_reads env_ids env_ext].
  match goal with |- context [appendOutboxBatchLocked ?ev (mkWorld ?s ?v1)] =>
    change (mkWorld (w_store w) (mkEnv (S (env_reads v)) (env_ids v) (env_ext v).1))
      with (drop_world (mkWorld s v1)); rewrite (appendOutboxBatchLocked_drop ev (mkWorld s v1));
    destruct (appendOutboxBatchLocked ev (mkWorld s v1)) as [[[]|err] w1] end.
  - cbn. by intros [= <- <-].
  - cbn. by intros [= <- <-].
Qed.
End locals.
