(* ===== verification/WorkflowRuns.v ===== *)
(** * Runs of the generation store

    How records evolve along any sequence of commands ([store_step]): nothing
    is lost, statuses follow the tables of [state_machine.go], events are kept.
    The theorems about single commands that clients of the store rely on come
    after, with their witnesses. *)

From Stdlib Require Import ZArith Lia Sorted.
From S2P Require Import Prelude GoJson GenModels WorkflowStore Samples WorkflowStoreProps.

(** One accepted change of a status. *)
Definition job_move (a b : string) : Prop := ValidateJobTransition a b = None.
Definition batch_move (a b : string) : Prop := ValidateBatchTransition a b = None.
Definition operation_move (a b : string) : Prop := ValidateOperationTransition a b = None.

(** [s'] comes after [s]. *)
Record evolves (s s' : MemoryStore) : Prop := {
  ev_job id j : jobs s !! id = Some j →
    ∃ j', jobs s' !! id = Some j' ∧ j_BatchID j' = j_BatchID j ∧ rtc job_move (j_Status j) (j_Status j');
  ev_batch id b : batches s !! id = Some b →
    ∃ b', batches s' !! id = Some b' ∧ rtc batch_move (b_Status b) (b_Status b');
  ev_operation id o : operations s !! id = Some o →
    ∃ o', operations s' !! id = Some o' ∧ rtc operation_move (o_Status o) (o_Status o');
  ev_event id e : outbox s !! id = Some e → ∃ e', outbox s' !! id = Some e' ∧ rtc event_moves e e';
  ev_key : outboxByKey s ⊆ outboxByKey s';
  ev_operation_key : operationByKey s ⊆ operationByKey s'
}.

#[global] Instance evolves_preorder : PreOrder evolves.
Proof.
  split.
  - intros s. split; try reflexivity; naive_solver eauto using rtc_refl.
  - intros s1 s2 s3 [J1 B1 O1 E1 K1 P1] [J2 B2 O2 E2 K2 P2]. split; try (by etrans).
    + intros id j Hj. destruct (J1 _ _ Hj) as (j1 & Hj1 & ? & ?).
      destruct (J2 _ _ Hj1) as (j2 & Hj2 & ? & ?). exists j2. split; [done|]. split; [congruence|by etrans].
    + intros id b Hb. destruct (B1 _ _ Hb) as (b1 & Hb1 & ?).
      destruct (B2 _ _ Hb1) as (b2 & Hb2 & ?). exists b2. split; [done|by etrans].
    + intros id o Ho. destruct (O1 _ _ Ho) as (o1 & Ho1 & ?).
      destruct (O2 _ _ Ho1) as (o2 & Ho2 & ?). exists o2. split; [done|by etrans].
    + intros id e He. destruct (E1 _ _ He) as (e1 & He1 & ?).
      destruct (E2 _ _ He1) as (e2 & He2 & ?). exists e2. split; [done|by etrans].
Qed.

(** A change of one map is an evolution when it is one there. *)
Lemma appended_evolves s events s' : appended s events s' → evolves s s'.
Proof.
  intros [(E1 & E2 & E3 & E4 & E5) [G1 G2] _ _ _]. split; rewrite ?E1, ?E2, ?E3, ?E4; try done.
  1-3: naive_solver eauto using rtc_refl.
  intros id e He. exists e. split; [|apply rtc_refl]. by eapply lookup_weaken.
Qed.

Lemma changed_rtc (R : string → string → Prop) a b : a = b ∨ R a b → rtc R a b.
Proof. intros [->|?]; [apply rtc_refl|by apply rtc_once]. Qed.

Lemma update_job_evolves s id j j' :
  jobs s !! id = Some j → j_BatchID j' = j_BatchID j →
  j_Status j = j_Status j' ∨ job_move (j_Status j) (j_Status j') →
  evolves s (s <| jobs := <[id := j']> (jobs s) |>).
Proof.
  intros Hj Hb Hs. split; cbn; try done; try naive_solver eauto using rtc_refl.
  intros i x Hx. destruct (decide (id = i)) as [<-|]; [|rewrite lookup_insert_ne by done; naive_solver eauto using rtc_refl].
  exists j'. rewrite lookup_insert_eq. simplify_eq. split; [done|]. split; [done|]. by apply changed_rtc.
Qed.

Lemma update_batch_evolves s id b b' :
  batches s !! id = Some b → b_Status b = b_Status b' ∨ batch_move (b_Status b) (b_Status b') →
  evolves s (s <| batches := <[id := b']> (batches s) |>).
Proof.
  intros Hb Hs. split; cbn; try done; try naive_solver eauto using rtc_refl.
  intros i x Hx. destruct (decide (id = i)) as [<-|]; [|rewrite lookup_insert_ne by done; naive_solver eauto using rtc_refl].
  exists b'. rewrite lookup_insert_eq. simplify_eq. split; [done|]. by apply changed_rtc.
Qed.

Lemma update_operation_evolves s id o o' :
  operations s !! id = Some o → o_Status o = o_Status o' ∨ operation_move (o_Status o) (o_Status o') →
  evolves s (s <| operations := <[id := o']> (operations s) |>).
Proof.
  intros Ho Hs. split; cbn; try done; try naive_solver eauto using rtc_refl.
  intros i x Hx. destruct (decide (id = i)) as [<-|]; [|rewrite lookup_insert_ne by done; naive_solver eauto using rtc_refl].
  exists o'. rewrite lookup_insert_eq. simplify_eq. split; [done|]. by apply changed_rtc.
Qed.

Lemma update_event_evolves s id e e' :
  outbox s !! id = Some e → event_moves e e' → evolves s (s <| outbox := <[id := e']> (outbox s) |>).
Proof.
  intros He Hs. split; cbn; try done; try naive_solver eauto using rtc_refl.
  intros i x Hx. destruct (decide (id = i)) as [<-|]; [|rewrite lookup_insert_ne by done; naive_solver eauto using rtc_refl].
  exists e'. rewrite lookup_insert_eq. simplify_eq. split; [done|]. by apply rtc_once.
Qed.

Lemma store_jobs_evolves s ids js' :
  length ids = length js' → NoDup ids →
  (∀ i id j', ids !! i = Some id → js' !! i = Some j' →
     ∃ j, jobs s !! id = Some j ∧ keeps_job j j'
          ∧ (j_Status j = j_Status j' ∨ job_move (j_Status j) (j_Status j'))) →
  evolves s (s <| jobs := store_jobs (jobs s) ids js' |>).
Proof.
  revert s js'. induction ids as [|id ids IH]; intros s [|j' js'] Hlen Hnd Hall; try done.
  - by destruct s.
  - apply NoDup_cons in Hnd as [Hnotin Hnd].
    destruct (Hall 0%nat id j' eq_refl eq_refl) as (j & Hj & [_ Hk] & Hs).
    unfold store_jobs. cbn [zip_with foldl]. fold (store_jobs (<[id := cloneJob j']> (jobs s)) ids js').
    etrans; [by apply (update_job_evolves s id j (cloneJob j') Hj)|].
    refine ((fun h => h) (IH (s <| jobs := <[id := cloneJob j']> (jobs s) |>) js' _ Hnd _)); [by injection Hlen|].
    intros i id2 j2 Hid2 Hj2. destruct (Hall (S i) id2 j2 Hid2 Hj2) as (x & Hx & ?).
    exists x. cbn. rewrite lookup_insert_ne; [done|].
    intros ->. apply Hnotin. by eapply list_elem_of_lookup_2.
Qed.

Lemma insert_jobs_lookup bid s js id j :
  jobs s !! id = Some j → id ∉ (j_ID <$> js) → jobs (foldl (insert_job bid) s js) !! id = Some j.
Proof.
  revert s. induction js as [|x js IH]; intros s Hj Hn; simpl; [done|].
  rewrite fmap_cons, not_elem_of_cons in Hn. destruct Hn. apply IH; [|done].
  cbn. by rewrite lookup_insert_ne.
Qed.

(** The other maps are not touched by the loop that inserts the jobs. *)
Lemma insert_jobs_same bid s js :
  let s' := foldl (insert_job bid) s js in
  operations s' = operations s ∧ operationByKey s' = operationByKey s ∧ batches s' = batches s
  ∧ outbox s' = outbox s ∧ outboxByKey s' = outboxByKey s.
Proof. revert s. induction js as [|x js IH]; intros s; simpl; [done|]. apply (IH (insert_job bid s x)). Qed.

Lemma insert_workflow_evolves s op batch js :
  operations s !! o_ID op = None → operationByKey s !! o_IdempotencyKey op = None →
  batches s !! b_ID batch = None → Forall (fun j => jobs s !! j_ID j = None) js →
  evolves s (insert_workflow s op batch js).
Proof.
  intros N1 N2 N3 Hall. unfold insert_workflow. cbv zeta.
  set (s1 := s <| operations := _ |> <| operationByKey := _ |> <| batches := _ |>).
  destruct (insert_jobs_same (b_ID batch) s1 js) as (E1 & E2 & E3 & E4 & E5).
  split; rewrite ?E1, ?E2, ?E3, ?E4, ?E5; cbn; try naive_solver eauto using rtc_refl.
  - intros id j Hj. exists j. split; [|eauto using rtc_refl]. apply insert_jobs_lookup; [done|].
    intros (x & -> & Hx)%list_elem_of_fmap. rewrite Forall_forall in Hall. naive_solver.
  - intros id b Hb. exists b. rewrite lookup_insert_ne by congruence. eauto using rtc_refl.
  - intros id o Ho. exists o. rewrite lookup_insert_ne by congruence. eauto using rtc_refl.
  - by apply insert_subseteq.
Qed.

Section theorems.
Context `{Runtime} {X : Type}.
Implicit Types (w : world X).

Lemma MutateJob_evolves id version mutation w r w' :
  mutation_keeps mutation → MutateJob id version mutation w = (r, w') → evolves (w_store w) (w_store w').
Proof.
  intros Hk Hm. pose proof (MutateJob_cases id version mutation w) as Hc. rewrite Hm in Hc.
  inversion Hc as [err w1 Hw|before job events v now s1 w1 Hj Hv Hmut Hst Ha Hw _]; subst; rewrite Hw; [done|].
  destruct (Hk _ _ _ _ _ Hmut) as [_ K]. destruct (ap_same _ _ _ Ha) as (_ & _ & _ & E & _).
  etrans; [by eapply appended_evolves|]. eapply update_job_evolves; [by rewrite E|done|exact Hst].
Qed.

Lemma TransactBatch_evolves id transaction w r w' :
  store_wf (w_store w) → transaction_keeps transaction → TransactBatch id transaction w = (r, w') →
  evolves (w_store w) (w_store w').
Proof.
  intros Hwf Hk Hm. pose proof (TransactBatch_cases id transaction w) as Hc. rewrite Hm in Hc.
  inversion Hc as [err w1 Hw|batch operation operation1 batch1 js1 events v now s1 s2 w1 bid js
    Hb Ho Ht Hsb Hso Hst batch2 operation2 js2 Ha Hs2 Hw _]; subst; rewrite Hw; [done|].
  destruct (Hk _ _ _ _ _ _ _ _ _ Ht) as ((O1 & O2 & O3) & (B1 & B2) & Hf).
  destruct (sw_batch _ Hwf _ _ Hb) as (Bid & _).
  destruct (sw_operation _ Hwf _ _ Ho) as (Oid & _).
  destruct (ap_same _ _ _ Ha) as (E1 & _ & E3 & E4 & E5).
  destruct (stamp_batch_change_keeps (cloneBatch batch) batch1 now) as (SB1 & _ & SB2).
  destruct (stamp_operation_change_keeps (cloneOperation operation) operation1 now) as (SO1 & _ & _ & SO2).
  fold batch2 in SB1, SB2. fold operation2 in SO1, SO2.
  assert (evolves s1 (s1 <| jobs := store_jobs (jobs s1) (default [] (jobIDsByBatch (w_store w) !! bid)) js2 |>)) as Hj.
  { apply store_jobs_evolves; [|by apply batch_ids_NoDup|].
    - unfold js2. rewrite length_zip_with, length_fmap, <-(Forall2_length _ _ _ Hf), Nat.min_id.
      unfold js, batch_jobs. by rewrite length_fmap.
    - intros i jid j2 Hid Hj2. rewrite E4. by eapply transacted_job. }
  etrans; [by eapply appended_evolves|]. etrans; [exact Hj|].
  etrans; [eapply (update_batch_evolves _ bid batch (cloneBatch batch2)); [cbn; by rewrite E3|cbn; by rewrite SB2]|].
  etrans; [eapply (update_operation_evolves _ (b_OperationID batch) operation (cloneOperation operation2));
    [cbn; by rewrite E1|cbn; by rewrite SO2]|].
  cbn. by rewrite SB1, B1, Bid, SO1, O1, Oid.
Qed.

Lemma CreateWorkflow_evolves command w r w' :
  CreateWorkflow command w = (r, w') → evolves (w_store w) (w_store w').
Proof.
  intros Hm. pose proof (CreateWorkflow_cases command w) as Hc. rewrite Hm in Hc.
  inversion Hc as [err w1 Hw|frozen eid existing Hfr op Hk He Hv|
    frozen now allRequired batch js s1 s2 w1 Hfr command' op operation N1 N1' N2 N3 Hk Ho Hb Hjs Hp Ha Hs2 Hw];
    subst; [by rewrite Hw|done|]. rewrite Hw.
  destruct (prepare_jobs_fresh _ _ _ _ _ _ _ _ _ Hp) as ((B1 & _) & _ & _ & Hall).
  destruct (ap_same _ _ _ Ha) as (E1 & E2 & E3 & E4 & _).
  etrans; [by eapply appended_evolves|]. apply insert_workflow_evolves.
  - by rewrite E1.
  - by rewrite E2.
  - rewrite E3, B1. exact Hb.
  - rewrite E4. eapply Forall_impl; [exact Hall|]. by intros j (_ & ? & _).
Qed.

Lemma store_step_evolves w w' : store_wf (w_store w) → store_step w w' → evolves (w_store w) (w_store w').
Proof.
  intros Hwf Hstep. destruct Hstep as [c r w' E|id v m r w' Hk E|id t r w' Hk E|id o u r w' E|id a r w' E|id a n r w' E|v].
  - by eapply CreateWorkflow_evolves.
  - by eapply MutateJob_evolves.
  - by eapply TransactBatch_evolves.
  - pose proof (RenewJobLease_cases id o u w) as Hc. rewrite E in Hc.
    inversion Hc as [? ? Hw|job now ? Hj ? ? job' Hw]; subst; rewrite Hw; [done|].
    destruct (sw_job _ Hwf _ _ Hj) as (Eid & _). rewrite Eid.
    eapply update_job_evolves; [done|done|by left].
  - pose proof (MarkOutboxPublished_cases id a w) as Hc. rewrite E in Hc.
    inversion Hc as [? ? Hw|i e e' ? He Hs Hmv _ _ Hw]; subst; rewrite Hw; [done|].
    destruct (ow_event _ (sw_outbox _ Hwf) _ _ He) as (-> & _). by eapply update_event_evolves.
  - pose proof (MarkOutboxFailed_cases id a n w) as Hc. rewrite E in Hc.
    inversion Hc as [? ? Hw|i e e' ? He Hs Hmv _ _ Hw]; subst; rewrite Hw; [done|].
    destruct (ow_event _ (sw_outbox _ Hwf) _ _ He) as (-> & _). by eapply update_event_evolves.
  - done.
Qed.

Lemma run_evolves w w' :
  store_wf (w_store w) → rtc store_step w w' → store_wf (w_store w') ∧ evolves (w_store w) (w_store w').
Proof.
  intros Hwf Hr. induction Hr as [|w1 w2 w3 H12 _ IH]; [done|].
  pose proof (store_step_wf _ _ Hwf H12) as Hwf2. destruct (IH Hwf2) as [? ?].
  split; [done|]. etrans; [by apply store_step_evolves|done].
Qed.

(** C25. Whatever commands run, in whatever order and interleaved with whatever
    the services outside do, the store is well formed: maps and records agree on
    identifiers, batches list each of their jobs once, every job and operation
    has its batch, every idempotency key names the record it was made for. *)
Theorem store_invariant (v : env X) w :
  rtc store_step (mkWorld NewMemoryStore v) w → store_wf (w_store w).
Proof. intros Hr. apply (run_evolves (mkWorld NewMemoryStore v)); [apply new_store_wf|done]. Qed.

(** No command of the store has half an effect: one that answers an error
    leaves every map of the store as it was, the outbox included. *)
Theorem failed_commands_change_nothing w err w' :
  (∀ command, CreateWorkflow command w = (Err err, w') → w_store w' = w_store w)
  ∧ (∀ id version mutation, MutateJob id version mutation w = (Err err, w') → w_store w' = w_store w)
  ∧ (∀ id transaction, TransactBatch id transaction w = (Err err, w') → w_store w' = w_store w)
  ∧ (∀ id owner until, RenewJobLease id owner until w = (Err err, w') → w_store w' = w_store w)
  ∧ (∀ id at_, MarkOutboxPublished id at_ w = (Err err, w') → w_store w' = w_store w)
  ∧ (∀ id at_ n, MarkOutboxFailed id at_ n w = (Err err, w') → w_store w' = w_store w).
Proof.
  repeat split; intros * E.
  - pose proof (CreateWorkflow_cases command w) as Hc. rewrite E in Hc. by inversion Hc.
  - pose proof (MutateJob_cases id version mutation w) as Hc. rewrite E in Hc. by inversion Hc.
  - pose proof (TransactBatch_cases id transaction w) as Hc. rewrite E in Hc. by inversion Hc.
  - pose proof (RenewJobLease_cases id owner until w) as Hc. rewrite E in Hc. by inversion Hc.
  - pose proof (MarkOutboxPublished_cases id at_ w) as Hc. rewrite E in Hc. by inversion Hc.
  - pose proof (MarkOutboxFailed_cases id at_ n w) as Hc. rewrite E in Hc. by inversion Hc.
Qed.

Lemma rtc_absorbing (R : string → string → Prop) (final : string → bool) a b :
  (∀ x y, final x = true → R x y → x = y) → rtc R a b → final a = true → b = a.
Proof. intros HR Hr. induction Hr as [|x y z Hxy _ IH]; [done|]. intros Hf. pose proof (HR _ _ Hf Hxy). naive_solver. Qed.

(** Along every run jobs, batches and operations are kept and their
    statuses only move along the transition tables; what has reached a terminal
    status keeps it. *)
Theorem statuses_follow_the_tables w w' :
  store_wf (w_store w) → rtc store_step w w' →
  (∀ id j, jobs (w_store w) !! id = Some j →
     ∃ j', jobs (w_store w') !! id = Some j' ∧ rtc job_move (j_Status j) (j_Status j')
           ∧ (IsTerminalJobStatus (j_Status j) = true → j_Status j' = j_Status j))
  ∧ (∀ id b, batches (w_store w) !! id = Some b →
     ∃ b', batches (w_store w') !! id = Some b' ∧ rtc batch_move (b_Status b) (b_Status b')
           ∧ (IsTerminalBatchStatus (b_Status b) = true → b_Status b' = b_Status b))
  ∧ (∀ id o, operations (w_store w) !! id = Some o →
     ∃ o', operations (w_store w') !! id = Some o' ∧ rtc operation_move (o_Status o) (o_Status o')
           ∧ (IsTerminalOperationStatus (o_Status o) = true → o_Status o' = o_Status o)).
Proof.
  intros Hwf Hr. destruct (run_evolves _ _ Hwf Hr) as [_ [Hj Hb Ho _ _ _]]. split; [|split].
  - intros id j E. destruct (Hj _ _ E) as (j' & ? & _ & Hm). exists j'. split; [done|]. split; [done|].
    eapply rtc_absorbing; [apply job_terminal_stays|done].
  - intros id b E. destruct (Hb _ _ E) as (b' & ? & Hm). exists b'. split; [done|]. split; [done|].
    eapply rtc_absorbing; [apply batch_terminal_stays|done].
  - intros id o E. destruct (Ho _ _ E) as (o' & ? & Hm). exists o'. split; [done|]. split; [done|].
    eapply rtc_absorbing; [apply operation_terminal_stays|done].
Qed.

(** The content of an event, less its delivery state. *)
Definition event_content (e : OutboxEvent) : OutboxEvent :=
  cloneOutbox (e <| e_Status := "" |> <| e_Attempts := 0 |> <| e_AvailableAt := zeroTime |> <| e_PublishedAt := None |>).

Lemma event_moves_content e e' :
  event_moves e e' →
  event_content e' = event_content e
  ∧ (e_Status e = OutboxPublished → e_Status e' = OutboxPublished ∧ e_PublishedAt e' = e_PublishedAt e).
Proof.
  intros (st & at_ & av & pu & E & Hp). destruct e, e'. unfold cloneOutbox, event_content in *. cbn in *.
  injection E as -> -> -> -> -> -> -> -> -> -> -> -> -> -> Hpl -> -> -> -> ->.
  split; [by unfold cloneOutbox; cbn; rewrite Hpl|done].
Qed.

(** The outbox is append-only: along every run a stored event stays under
    its identifier with the content it was stored with, its idempotency key
    stays bound to it, and once published it stays published. *)
Theorem outbox_is_append_only w w' id e :
  store_wf (w_store w) → rtc store_step w w' → outbox (w_store w) !! id = Some e →
  ∃ e', outbox (w_store w') !! id = Some e' ∧ event_content e' = event_content e
        ∧ outboxByKey (w_store w') !! e_IdempotencyKey e = Some id
        ∧ (e_Status e = OutboxPublished → e_Status e' = OutboxPublished ∧ e_PublishedAt e' = e_PublishedAt e).
Proof.
  intros Hwf Hr He. destruct (run_evolves _ _ Hwf Hr) as [_ [_ _ _ Hev Hk _]].
  destruct (Hev _ _ He) as (e' & He' & Hm). exists e'. split; [done|].
  destruct (ow_event _ (sw_outbox _ Hwf) _ _ He) as (_ & Hkey & _).
  enough (event_content e' = event_content e
    ∧ (e_Status e = OutboxPublished → e_Status e' = OutboxPublished ∧ e_PublishedAt e' = e_PublishedAt e)) as [? ?].
  { split; [done|]. split; [by eapply lookup_weaken|done]. }
  clear -Hm. induction Hm as [|x y z Hxy _ [IH1 IH2]]; [done|].
  apply event_moves_content in Hxy as [E1 E2]. split; [congruence|].
  intros Hx. destruct (E2 Hx) as [Ey1 Ey2]. destruct (IH2 Ey1). split; congruence.
Qed.
End theorems.

Lemma sample_run : rtc (store_step (H:=Sample.runtime)) Sample.world0 Sample.world1.
Proof. apply rtc_once. eapply step_create. unfold Sample.world1. apply surjective_pairing. Qed.

Lemma store_invariant_witness :
  rtc (store_step (H:=Sample.runtime)) Sample.world0 Sample.world1 ∧ store_wf (w_store Sample.world1).
Proof. split; [exact sample_run|]. exact (store_invariant (H:=Sample.runtime) Sample.env0 Sample.world1 sample_run). Defined.

Lemma failed_commands_change_nothing_witness :
  ∃ err, MutateJob (H:=Sample.runtime) "nobody" 0 Sample.start Sample.world1 = (Err err, Sample.world1)
         ∧ w_store Sample.world1 = w_store Sample.world1.
Proof.
  eexists. assert (MutateJob (H:=Sample.runtime) "nobody" 0 Sample.start Sample.world1
    = (Err (Wrapf "" ErrNotFound ": job nobody"), Sample.world1)) as E by (by vm_compute).
  split; [exact E|].
  exact (proj1 (proj2 (failed_commands_change_nothing (H:=Sample.runtime) _ _ _)) _ _ _ E).
Defined.

Lemma start_keeps : mutation_keeps Sample.start.
Proof. intros j v j' events v' [= <- _ _]. done. Qed.

Lemma sample_start_run : rtc (store_step (H:=Sample.runtime)) Sample.world1 Sample.started.
Proof. apply rtc_once. eapply step_mutate; [apply start_keeps|]. unfold Sample.started. apply surjective_pairing. Qed.

Lemma sample_wf : store_wf (w_store Sample.world1).
Proof.
  apply (run_evolves (H:=Sample.runtime) Sample.world0); [apply new_store_wf|exact sample_run].
Qed.

Lemma statuses_follow_the_tables_witness :
  store_wf (w_store Sample.world1) ∧ rtc (store_step (H:=Sample.runtime)) Sample.world1 Sample.started
  ∧ ∃ j, jobs (w_store Sample.world1) !! "job-1" = Some j ∧ j_Status j = StatusQueued
  ∧ ∃ j', jobs (w_store Sample.started) !! "job-1" = Some j' ∧ rtc job_move (j_Status j) (j_Status j')
           ∧ (IsTerminalJobStatus (j_Status j) = true → j_Status j' = j_Status j).
Proof.
  split; [exact sample_wf|]. split; [exact sample_start_run|].
  assert (∃ j, jobs (w_store Sample.world1) !! "job-1" = Some j ∧ j_Status j = StatusQueued) as (j & Hj & Hs)
    by (vm_compute; eexists; split; reflexivity).
  exists j. split; [exact Hj|]. split; [exact Hs|].
  exact (proj1 (statuses_follow_the_tables (H:=Sample.runtime) _ _ sample_wf sample_start_run) _ _ Hj).
Defined.

Lemma outbox_is_append_only_witness :
  ∃ e, outbox (w_store Sample.world1) !! "evt-0" = Some e ∧ e_EventType e = EventOperationAccepted
  ∧ ∃ e', outbox (w_store Sample.started) !! "evt-0" = Some e' ∧ event_content e' = event_content e.
Proof.
  assert (∃ e, outbox (w_store Sample.world1) !! "evt-0" = Some e ∧ e_EventType e = EventOperationAccepted)
    as (e & He & Ht) by (vm_compute; eexists; split; reflexivity).
  exists e. split; [exact He|]. split; [exact Ht|].
  destruct (outbox_is_append_only (H:=Sample.runtime) _ _ _ _ sample_wf sample_start_run He) as (e' & H1 & H2 & _).
  exists e'. split; [exact H1|exact H2].
Defined.

(** ** Single commands *)

Section commands.
Context `{Runtime} {X : Type}.
Implicit Types (w : world X).

(** A mutation that leaves the version to the store. *)
Definition keeps_version (mutation : JobMutation (X:=X)) : Prop :=
  ∀ j v j' events v', mutation j v = (Ok (j', events), v') → j_StatusVersion j' = j_StatusVersion j.

Lemma incr_neq z : incr z ≠ z.
Proof.
  unfold incr, wrap64. intros E.
  assert ((z + 1 + 2 ^ 63) mod 2 ^ 64 = z + 2 ^ 63) as E2 by lia.
  pose proof (Z.mod_pos_bound (z + 1 + 2 ^ 63) (2 ^ 64)).
  pose proof (Z.div_mod (z + 1 + 2 ^ 63) (2 ^ 64)). lia.
Qed.

(** Optimistic concurrency: a mutation against an expected version runs on
    exactly that version of the job, stores what it made with the next version,
    and any other writer that read the same version is refused afterwards with
    a version conflict and no effect, so no update is lost. *)
Theorem mutate_job_compare_and_set id version m1 m2 w job w1 :
  0 < version → keeps_version m1 →
  MutateJob id version m1 w = (Ok job, w1) →
  (∃ before made events v now,
     jobs (w_store w) !! TrimSpace id = Some before ∧ j_StatusVersion before = version
     ∧ m1 before (w_env w) = (Ok (made, events), v)
     ∧ job = cloneJob (stamp_job (cloneJob before) made now)
     ∧ jobs (w_store w1) = <[TrimSpace id := job]> (jobs (w_store w))
     ∧ j_StatusVersion job = incr version)
  ∧ ∃ err, MutateJob id version m2 w1 = (Err err, w1) ∧ errors_Is err ErrVersionConflict = true.
Proof.
  intros Hpos Hkv Hm. pose proof (MutateJob_cases id version m1 w) as Hc. rewrite Hm in Hc.
  inversion Hc as [|before made events v now s1 ? Hj Hv Hmut Hst Ha Hw _]; subst.
  pose proof (Hkv _ _ _ _ _ Hmut) as Hver. specialize (Hv Hpos).
  destruct (ap_same _ _ _ Ha) as (_ & _ & _ & E & _).
  assert (j_StatusVersion (cloneJob (stamp_job (cloneJob before) made now)) = incr version) as Hnew
    by (cbn; congruence).
  assert (jobs (w_store w1) = <[TrimSpace id := cloneJob (stamp_job (cloneJob before) made now)]> (jobs (w_store w))) as Hjobs
    by (rewrite Hw; cbn; by rewrite E).
  split; [by exists before, made, events, v, now|].
  unfold MutateJob. cbn [bind get_store]. rewrite Hjobs, lookup_insert_eq, Hnew.
  destruct (Z.ltb_spec 0 version); [|lia]. destruct (Z.eqb_spec (incr version) version) as [Heq|_].
  { by apply incr_neq in Heq. }
  cbn. eexists. split; [reflexivity|]. by vm_compute.
Qed.

(** ** Announcements *)

(** The stored event shows the job as it was stored. *)
Definition announces (stored : OutboxEvent) (job : GenerationJob) : Prop :=
  e_Destination stored = DestinationSessionSignal ∧ HasPrefix (e_EventType stored) "job." = true
  ∧ string_field (e_Payload stored) "job_id" = j_ID job
  ∧ string_field (e_Payload stored) "status" = j_Status job
  ∧ string_field (e_Payload stored) "phase" = j_Phase job.

Lemma ensure_announces events before after :
  j_Status before ≠ j_Status after ∨ j_Phase before ≠ j_Phase after →
  isPublicJobLifecycleStatus (j_Status after) = true →
  ∃ e, e ∈ ensureJobLifecycleEvent events before after true ∧ (e ∈ events ∨ e = lifecycleEvent after)
       ∧ announces_job true (j_ID after) e = true.
Proof.
  intros Hch Hpub. unfold ensureJobLifecycleEvent. rewrite Hpub.
  replace (bool_decide _ && bool_decide _) with false
    by (symmetry; apply andb_false_iff; destruct Hch; [left|right]; by apply bool_decide_eq_false).
  destruct (existsb _ events) eqn:E.
  - apply existsb_exists in E as (e & Hin & He). apply list_elem_of_In in Hin. exists e. auto.
  - exists (lifecycleEvent after). split; [apply elem_of_app; right; by left|]. split; [by right|]. reflexivity.
Qed.

Lemma lifecycle_payload_fields e job :
  let p := cloneMap (e_Payload (fillJobLifecyclePayload e job)) in
  string_field p "job_id" = j_ID job ∧ string_field p "status" = j_Status job
  ∧ string_field p "phase" = j_Phase job.
Proof.
  unfold fillJobLifecyclePayload, string_field, go_lookup. cbn.
  destruct (j_ResultAssetIDs job), (IsZero (j_NextRunAt job)).
  all: rewrite !lookup_fmap; repeat split.
  all: repeat (rewrite lookup_insert_ne by done); rewrite lookup_insert_eq; reflexivity.
Qed.

Lemma fillJobEvent_announces e job stored :
  announces_job true (j_ID job) e = true → stored_as (fillJobEvent e job) stored → announces stored job.
Proof.
  unfold announces_job. rewrite orb_true_l, andb_true_r. intros Ha (i & st & c & a & ->). status_cases.
  assert (e_Destination (fillJobEvent e job) = e_Destination e
    ∧ e_EventType (fillJobEvent e job) = e_EventType e
    ∧ ∃ e0, e_Payload (fillJobEvent e job) = e_Payload (fillJobLifecyclePayload e0 job)) as (E1 & E2 & e0 & E3).
  { unfold fillJobEvent. cbv zeta.
    set (e1 := fill_aggregate _ _ _ _). set (e2 := fill_links _ _ _ _ _ _ _). set (e3 := e2 <| e_JobID := _ |>).
    assert (e_Destination e3 = e_Destination e) as D by reflexivity.
    assert (e_EventType e3 = e_EventType e) as T by reflexivity.
    clearbody e3. rewrite D, T, bool_decide_true by done.
    match goal with Hp : HasPrefix _ _ = true |- _ => rewrite Hp end.
    cbn [andb]. split; [exact D|]. split; [exact T|]. by eexists. }
  revert E1 E2 E3. generalize (fillJobEvent e job). intros e1 E1 E2 E3.
  unfold announces. cbn. rewrite E1, E2, E3. split; [done|]. split; [done|]. apply lifecycle_payload_fields.
Qed.

Lemma fillJobEvent_key e job : e_IdempotencyKey (fillJobEvent e job) = e_IdempotencyKey e.
Proof. unfold fillJobEvent. cbv zeta. by destruct (_ && _). Qed.

Lemma announces_clone stored job : announces stored job → announces stored (cloneJob job).
Proof. intros (? & ? & ? & ? & ?). unfold announces. cbn. auto. Qed.

(** The events a mutation hands over, filled from the stamped job, leave an
    announcement of the change in the outbox. *)
Lemma change_is_announced s s1 events before made stamped :
  appended s (filled_events stamped (ensureJobLifecycleEvent events before made true)) s1 →
  j_ID stamped = j_ID made →
  NoDup ((TrimSpace ∘ e_IdempotencyKey) <$> ensureJobLifecycleEvent events before made true) →
  j_Status before ≠ j_Status made ∨ j_Phase before ≠ j_Phase made →
  isPublicJobLifecycleStatus (j_Status made) = true →
  ∃ e, (e ∈ events ∨ e = lifecycleEvent made)
       ∧ ∃ eid, outboxByKey s1 !! TrimSpace (e_IdempotencyKey e) = Some eid
         ∧ (outboxByKey s !! TrimSpace (e_IdempotencyKey e) = Some eid
            ∨ ∃ stored, outbox s1 !! eid = Some stored ∧ announces stored stamped).
Proof.
  intros Ha Hid Hnd Hch Hpub.
  destruct (ensure_announces events before made Hch Hpub) as (e & Hin & Hor & Hann).
  exists e. split; [done|].
  assert (fillJobEvent e stamped ∈ filled_events stamped (ensureJobLifecycleEvent events before made true))
    as Hfin by (apply list_elem_of_fmap; by exists e).
  destruct (proj1 (Forall_forall _ _) (ap_keys _ _ _ Ha) _ Hfin) as [eid Heid]. rewrite fillJobEvent_key in Heid.
  exists eid. split; [done|].
  destruct (ap_new _ _ _ Ha _ _ Heid) as [?|(e' & stored & Hin' & Hk' & Hst' & Has)]; [by left|].
  right. exists stored. split; [done|]. apply list_elem_of_fmap in Hin' as (e2 & -> & Hin2).
  rewrite fillJobEvent_key in Hk'.
  assert (e2 = e) as -> by exact (NoDup_fmap_elem _ _ _ _ Hnd Hin2 Hin Hk').
  eapply fillJobEvent_announces; [|exact Has]. by rewrite Hid.
Qed.

(** Every change of a job's status or phase that users may see is announced
    in the same step: the mutation's own announcement, or the default one, is
    bound in the outbox, and unless its key had been used before the stored
    event carries the job's identifier, status and phase as stored. *)
Theorem job_change_is_announced id version mutation w before made events v job w1 :
  jobs (w_store w) !! TrimSpace id = Some before →
  mutation before (w_env w) = (Ok (made, events), v) →
  NoDup ((TrimSpace ∘ e_IdempotencyKey) <$> ensureJobLifecycleEvent events (cloneJob before) made true) →
  MutateJob id version mutation w = (Ok job, w1) →
  j_Status before ≠ j_Status job ∨ j_Phase before ≠ j_Phase job →
  isPublicJobLifecycleStatus (j_Status job) = true →
  ∃ e, (e ∈ events ∨ e = lifecycleEvent made)
       ∧ ∃ eid, outboxByKey (w_store w1) !! TrimSpace (e_IdempotencyKey e) = Some eid
         ∧ (outboxByKey (w_store w) !! TrimSpace (e_IdempotencyKey e) = Some eid
            ∨ ∃ stored, outbox (w_store w1) !! eid = Some stored ∧ announces stored job).
Proof.
  intros Hj Hmut Hnd Hm Hch Hpub. pose proof (MutateJob_cases id version mutation w) as Hc. rewrite Hm in Hc.
  inversion Hc as [|before' made' events' v' now s1 ? Hj' Hv Hmut' Hst Ha Hw _]; subst; clear Hc.
  rewrite Hj in Hj'. injection Hj' as <-. rewrite Hmut in Hmut'. injection Hmut' as <- <- <-.
  destruct (change_is_announced _ _ _ _ _ _ Ha eq_refl Hnd Hch Hpub) as (e & Hor & eid & Hk & Hann).
  exists e. split; [done|]. exists eid. rewrite Hw. split; [exact Hk|].
  destruct Hann as [?|(stored & Hs & Hann)]; [by left|right]. exists stored. split; [exact Hs|].
  by apply announces_clone.
Qed.
End commands.

Lemma start_keeps_version : keeps_version Sample.start.
Proof. intros j v j' events v' [= <- _ _]. done. Qed.

Lemma started_ok : ∃ job,
  MutateJob (H:=Sample.runtime) "job-1" 1 Sample.start Sample.world1 = (Ok job, Sample.started)
  ∧ j_Status job = StatusRunning.
Proof.
  unfold Sample.started.
  assert (match (MutateJob (H:=Sample.runtime) "job-1" 1 Sample.start Sample.world1).1 with
          | Ok job => j_Status job = StatusRunning | Err _ => False end) as Hok by (vm_compute; reflexivity).
  destruct (MutateJob "job-1" 1 Sample.start Sample.world1) as [[job|err] w]; [by exists job|done].
Qed.

Lemma mutate_job_compare_and_set_witness :
  ∃ job, MutateJob (H:=Sample.runtime) "job-1" 1 Sample.start Sample.world1 = (Ok job, Sample.started)
  ∧ ∃ err, MutateJob (H:=Sample.runtime) "job-1" 1 Sample.start Sample.started = (Err err, Sample.started)
           ∧ errors_Is err ErrVersionConflict = true.
Proof.
  destruct started_ok as (job & Hjob & _). exists job. split; [exact Hjob|].
  exact (proj2 (mutate_job_compare_and_set (H:=Sample.runtime) "job-1" 1 Sample.start Sample.start
    Sample.world1 job Sample.started eq_refl start_keeps_version Hjob)).
Defined.

Lemma ensure_nil_NoDup before after :
  NoDup ((TrimSpace ∘ e_IdempotencyKey) <$> ensureJobLifecycleEvent [] before after true).
Proof.
  unfold ensureJobLifecycleEvent. destruct (_ && _); [constructor|]. destruct (negb _); [constructor|].
  apply NoDup_singleton.
Qed.

Lemma job_change_is_announced_witness :
  ∃ job e eid, MutateJob (H:=Sample.runtime) "job-1" 1 Sample.start Sample.world1 = (Ok job, Sample.started)
  ∧ outboxByKey (w_store Sample.started) !! TrimSpace (e_IdempotencyKey e) = Some eid
  ∧ (outboxByKey (w_store Sample.world1) !! TrimSpace (e_IdempotencyKey e) = Some eid
     ∨ ∃ stored, outbox (w_store Sample.started) !! eid = Some stored ∧ announces stored job).
Proof.
  destruct started_ok as (job & Hjob & Hrun).
  assert (jobs (w_store Sample.world1) !! TrimSpace "job-1" = Some (job_or_zero (w_store Sample.world1) "job-1")) as Hb
    by (vm_compute; reflexivity).
  assert (j_Status (job_or_zero (w_store Sample.world1) "job-1") = StatusQueued) as Hq by (vm_compute; reflexivity).
  assert (j_Status (job_or_zero (w_store Sample.world1) "job-1") ≠ j_Status job) as Hne by (rewrite Hq, Hrun; done).
  assert (isPublicJobLifecycleStatus (j_Status job) = true) as Hpub by (rewrite Hrun; done).
  destruct (job_change_is_announced (H:=Sample.runtime) "job-1" 1 Sample.start Sample.world1 _ _ _ _ job Sample.started
    Hb eq_refl (ensure_nil_NoDup _ _) Hjob (or_introl Hne) Hpub) as (e & _ & eid & He).
  exists job, e, eid. split; [exact Hjob|exact He].
Defined.

(** ** Creation and replay *)

Lemma cloneJob_idem j : cloneJob (cloneJob j) = cloneJob j.
Proof. unfold cloneJob. cbn. by rewrite !cloneMap_idem. Qed.

Lemma insert_jobs_stored bid s js :
  NoDup (j_ID <$> js) →
  let s' := foldl (insert_job bid) s js in
  jobIDsByBatch s' !! bid = (if decide (js = []) then jobIDsByBatch s !! bid
                             else Some (default [] (jobIDsByBatch s !! bid) ++ (j_ID <$> js)))
  ∧ Forall (fun j => jobs s' !! j_ID j = Some j) js.
Proof.
  revert s. induction js as [|j js IH]; intros s Hnd; cbn [foldl]; [done|].
  rewrite fmap_cons in Hnd. apply NoDup_cons in Hnd as [Hn Hnd].
  destruct (IH (insert_job bid s j) Hnd) as [H1 H2]. cbv zeta. rewrite H1. split.
  - rewrite (decide_False (P := j :: js = [])) by done. cbn. rewrite lookup_insert_eq. cbn.
    destruct (decide (js = [])) as [->|]; [done|]. by rewrite <-app_assoc.
  - constructor; [|exact H2]. apply insert_jobs_lookup; [|done]. cbn. by rewrite lookup_insert_eq.
Qed.

Section creation.
Context `{Runtime} {X : Type}.
Implicit Types (w : world X).

(** The prepared jobs are copies: copying them once more changes nothing. *)
Lemma prepare_job_cloned taken allRequired op batch now input job :
  prepare_job taken allRequired op batch now input = Ok job → cloneJob job = job.
Proof.
  unfold prepare_job. cbv zeta.
  set (j0 := (if allRequired then _ else _) <| j_ID := _ |> <| j_IdempotencyKey := _ |>).
  assert (cloneMap (j_Payload j0) = j_Payload j0 ∧ cloneMap (j_Result j0) = j_Result j0) as [Hp Hr].
  { unfold j0. destruct allRequired; cbn; by rewrite !cloneMap_idem. }
  case_bool_decide; [done|]. case_bool_decide; [done|]. cbn [orb].
  destruct (taken (j_ID j0)); [done|]. destruct (DeliveryPolicy_Validate _); [done|].
  destruct (if blank _ then _ else _); [done|]. intros [= <-]. clearbody j0.
  unfold cloneJob. cbn. by rewrite Hp, Hr.
Qed.

Lemma prepare_jobs_cloned s seen allRequired op batch now inputs batch' js :
  prepare_jobs s seen allRequired op batch now inputs = Ok (batch', js) → cloneJob <$> js = js.
Proof.
  revert seen batch js. induction inputs as [|input inputs IH]; intros seen batch js; simpl; [by intros [= <- <-]|].
  destruct (prepare_job _ _ _ _ _ _) as [job|] eqn:Hp; [|done].
  destruct (prepare_jobs _ _ _ _ _ _ _) as [[b2 js2]|] eqn:Hps; [|done]. intros [= <- <-].
  rewrite fmap_cons. f_equal; [by eapply prepare_job_cloned|by eapply IH].
Qed.

(** What a successful creation leaves in the store. *)
Lemma CreateWorkflow_stored command w agg w' :
  store_wf (w_store w) →
  CreateWorkflow command w = (Ok (agg, true), w') →
  ∃ frozen now allRequired batch js,
    freezeWorkflowRequest command = Ok frozen
    ∧ let op := cw_Operation (trim_command frozen) in
      let operation := created_operation op (b_ID batch) now in
      operations (w_store w') !! o_ID op = Some operation
      ∧ operationByKey (w_store w') !! o_IdempotencyKey op = Some (o_ID op)
      ∧ batches (w_store w') !! b_ID batch = Some batch
      ∧ b_OperationID batch = o_ID op
      ∧ jobIDsByBatch (w_store w') !! b_ID batch = Some (j_ID <$> js)
      ∧ Forall (fun j => jobs (w_store w') !! j_ID j = Some j) js
      ∧ prepare_jobs (w_store w) [] allRequired operation
          (stamp_batch (created_batch (cw_Batch (trim_command frozen)) operation) now) now (cw_Jobs frozen) = Ok (batch, js)
      ∧ (o_ID op ≠ "" ∧ o_SessionID op ≠ "" ∧ o_IdempotencyKey op ≠ "" ∧ b_ID (cw_Batch (trim_command frozen)) ≠ "")
      ∧ js ≠ [] ∧ agg = aggregateLocked (w_store w') (b_ID batch)
      ∧ Forall (fun e => is_Some (outboxByKey (w_store w') !! TrimSpace (e_IdempotencyKey e)))
          (acceptedEvent operation batch :: (newJobDispatchEvent <$> js)).
Proof.
  intros Hwf Hm. pose proof (CreateWorkflow_cases command w) as Hc. rewrite Hm in Hc.
  inversion Hc as [| |frozen now allRequired batch js s1 s2 w1 Hfr command' op operation N1 N1' N2 N3 Hk Ho Hb Hjs Hp Ha Hs2 Hw];
    subst. exists frozen, now, allRequired, batch, js. split; [done|].
  destruct (prepare_jobs_fresh _ _ _ _ _ _ _ _ _ Hp) as ((B1 & B2 & _) & Hlen & Hnd & Hall).
  destruct (ap_same _ _ _ Ha) as (E1 & E2 & E3 & E4 & E5).
  assert (b_ID batch = b_ID (cw_Batch command')) as Bid by exact B1.
  cbv zeta. fold command'. fold op. rewrite Bid. fold operation.
  rewrite Hw. unfold insert_workflow. cbv zeta.
  set (s2 := s1 <| operations := _ |> <| operationByKey := _ |> <| batches := _ |>).
  destruct (insert_jobs_same (b_ID batch) s2 js) as (F1 & F2 & F3 & F4 & F5).
  destruct (insert_jobs_stored (b_ID batch) s2 js Hnd) as [G1 G2].
  rewrite F1, F2, F3, F5, <-Bid. unfold s2 at 1 2 3 7. cbn. rewrite !lookup_insert_eq.
  assert (js ≠ []) as Hne by (intros ->; apply Hjs; by destruct (cw_Jobs command')).
  split; [done|]. split; [done|]. split; [done|]. split; [exact B2|]. split.
  { rewrite G1, decide_False by done.
    unfold s2. cbn. rewrite E5. destruct (jobIDsByBatch (w_store w) !! b_ID batch) eqn:E; [|done].
    destruct (sw_members _ Hwf _ _ E) as (_ & [b Hbs] & _). rewrite Bid in Hbs. congruence. }
  split; [exact G2|]. split; [exact Hp|].
  split; [rewrite ?Bid; exact (conj N1 (conj N1' (conj N2 N3)))|]. split; [done|]. split; [done|]. exact (ap_keys _ _ _ Ha).
Qed.

Lemma jobs_of_ids s ids js :
  ids = j_ID <$> js → Forall (fun j => jobs s !! j_ID j = Some j) js →
  (fun id => cloneJob (job_or_zero s id)) <$> ids = cloneJob <$> js.
Proof.
  intros ->. induction 1 as [|j js Hj _ IH]; [done|].
  rewrite !fmap_cons, IH. f_equal. unfold job_or_zero. by rewrite Hj.
Qed.

Lemma freeze_keeps command frozen :
  freezeWorkflowRequest command = Ok frozen →
  cw_Jobs frozen = cw_Jobs command ∧ cw_Batch frozen = cw_Batch command
  ∧ ∃ digest, cw_Operation frozen = (cw_Operation command) <| o_RequestFingerprint := digest |>.
Proof. unfold freezeWorkflowRequest. destruct (shape_digest _); [|done]. intros [= <-]. eauto. Qed.

Lemma fresh_job_ids op op' batch batch' j :
  o_ID op = o_ID op' → b_ID batch = b_ID batch' → fresh_job op batch j → fresh_job op' batch' j.
Proof. intros E1 E2 []. split; congruence. Qed.

(** A created workflow is complete: one queued job for each job of the
    command, in order, with distinct identifiers, limits above zero and the
    links to its batch and operation; and in the same step the outbox holds the
    acceptance and one dispatch for every job. *)
Theorem create_workflow_contract command w agg w' :
  store_wf (w_store w) →
  CreateWorkflow command w = (Ok (agg, true), w') →
  wa_Jobs agg ≠ [] ∧ length (wa_Jobs agg) = length (cw_Jobs command)
  ∧ NoDup (j_ID <$> wa_Jobs agg)
  ∧ Forall (fresh_job (wa_Operation agg) (wa_Batch agg)) (wa_Jobs agg)
  ∧ b_Status (wa_Batch agg) = BatchStatusWaitingJobs
  ∧ o_Status (wa_Operation agg) = OperationStatusWaitingJobs
  ∧ Forall (fun j => jobs (w_store w') !! j_ID j = Some j
                     ∧ is_Some (outboxByKey (w_store w') !! ("job:" +:+ j_ID j +:+ ":dispatch"))) (wa_Jobs agg)
  ∧ is_Some (outboxByKey (w_store w') !! ("operation:" +:+ o_ID (wa_Operation agg) +:+ ":accepted")).
Proof.
  intros Hwf Hm. destruct (CreateWorkflow_stored _ _ _ _ Hwf Hm)
    as (frozen & now & ar & batch & js & Hfr & Ho & Hk & Hb & Hbo & Hids & Hjs & Hp & Hreq & Hne & -> & Hout).
  destruct (freeze_keeps _ _ Hfr) as (Fj & Fb & _). rewrite Fj in Hp.
  destruct (prepare_jobs_fresh _ _ _ _ _ _ _ _ _ Hp) as ((B1 & B2 & B3) & Hlen & Hnd & Hall).
  pose proof (CreateWorkflow_wf _ _ _ _ Hwf Hm) as Hwf'.
  destruct (sw_batch _ Hwf' _ _ Hb) as (_ & Htrim & _).
  assert (wa_Jobs (aggregateLocked (w_store w') (b_ID batch)) = js) as Ejs.
  { unfold aggregateLocked, jobsByBatchLocked. cbn [wa_Jobs]. rewrite Htrim, Hids.
    rewrite (jobs_of_ids _ _ js) by done. by eapply prepare_jobs_cloned. }
  assert (wa_Batch (aggregateLocked (w_store w') (b_ID batch)) = cloneBatch batch) as Eb
    by (unfold aggregateLocked; cbn [wa_Batch]; by rewrite Hb).
  assert (wa_Operation (aggregateLocked (w_store w') (b_ID batch))
    = cloneOperation (created_operation (cw_Operation (trim_command frozen)) (b_ID batch) now)) as Eo.
  { unfold aggregateLocked. cbn [wa_Operation]. rewrite Hb. cbn [default from_option].
    assert (b_OperationID (cloneBatch (id batch)) = o_ID (cw_Operation (trim_command frozen))) as -> by exact Hbo.
    by rewrite Ho. }
  rewrite Ejs, Eb, Eo. apply Forall_cons in Hout as [Hacc Hdisp].
  split; [done|].
  split; [done|]. split; [done|]. split.
  { eapply Forall_impl; [exact Hall|]. intros j (Hf & _ & _). eapply fresh_job_ids; [| |exact Hf].
    - reflexivity.
    - symmetry. exact B1. }
  split; [trans (b_Status batch); [reflexivity|by rewrite B3]|]. split; [reflexivity|]. split.
  - rewrite Forall_forall in Hjs. rewrite Forall_forall in Hdisp. apply Forall_forall.
    intros j Hj. split; [by apply Hjs|].
    rewrite <-(TrimSpace_firm "job:" (j_ID j) ":dispatch") by reflexivity.
    apply (Hdisp (newJobDispatchEvent j)). apply list_elem_of_fmap. by exists j.
  - cbn in Hacc. rewrite TrimSpace_firm in Hacc by reflexivity. exact Hacc.
Qed.

(** A command whose key is known answers by the replay check alone. *)
Lemma CreateWorkflow_known command frozen w existingID existing :
  freezeWorkflowRequest command = Ok frozen →
  let op := cw_Operation (trim_command frozen) in
  (o_ID op ≠ "" ∧ o_SessionID op ≠ "" ∧ o_IdempotencyKey op ≠ "" ∧ b_ID (cw_Batch (trim_command frozen)) ≠ "") →
  operationByKey (w_store w) !! o_IdempotencyKey op = Some existingID →
  operations (w_store w) !! existingID = Some existing →
  CreateWorkflow command w
  = match validateWorkflowReplay existing op with
    | Some err => (Err err, w)
    | None => (Ok (aggregateLocked (w_store w) (o_BatchID existing), false), w)
    end.
Proof.
  intros Hfr op (N1 & N2 & N3 & N4) Hk Ho. unfold CreateWorkflow. rewrite Hfr. cbv zeta. fold op.
  rewrite !bool_decide_false by done. cbn [orb bind get_store]. rewrite Hk, Ho.
  cbn [default from_option id]. by destruct (validateWorkflowReplay existing op).
Qed.

Definition replay_conflict (op : GenerationOperation) : error :=
  Wrapf "" ErrIdempotencyConflict (": key " +:+ o_IdempotencyKey op +:+ " belongs to another immutable request").

(** The operation a command created, compared with the command. *)
Lemma validate_own_replay op batchID now :
  TrimSpace (o_SessionID op) = o_SessionID op →
  validateWorkflowReplay (created_operation op batchID now) op
  = if bool_decide (TrimSpace (o_UserID op) = o_UserID op) && bool_decide (TrimSpace (o_Kind op) = o_Kind op)
    then None else Some (replay_conflict op).
Proof.
  intros Hs. unfold validateWorkflowReplay. cbn. rewrite Hs, (bool_decide_true (o_SessionID op = _)) by done.
  rewrite (bool_decide_true (o_RequestFingerprint op = o_RequestFingerprint op)) by done.
  cbn [negb orb]. rewrite andb_false_r, orb_false_r.
  rewrite (bool_decide_ext (o_UserID op = _) (TrimSpace (o_UserID op) = o_UserID op)) by done.
  rewrite (bool_decide_ext (o_Kind op = _) (TrimSpace (o_Kind op) = o_Kind op)) by done.
  by destruct (bool_decide _), (bool_decide _).
Qed.

(** Replaying a creation with the same idempotency key answers with the
    workflow that was created, and changes nothing -- when the user and the kind
    carry no surrounding blanks.  They are stored as given but compared trimmed,
    so the very same command is otherwise refused as a key conflict. *)
Theorem create_workflow_replay command w agg w' :
  store_wf (w_store w) →
  CreateWorkflow command w = (Ok (agg, true), w') →
  let op := cw_Operation command in
  (TrimSpace (o_UserID op) = o_UserID op → TrimSpace (o_Kind op) = o_Kind op →
     CreateWorkflow command w' = (Ok (agg, false), w'))
  ∧ (TrimSpace (o_UserID op) ≠ o_UserID op ∨ TrimSpace (o_Kind op) ≠ o_Kind op →
     ∃ err, CreateWorkflow command w' = (Err err, w') ∧ errors_Is err ErrIdempotencyConflict = true).
Proof.
  intros Hwf Hm op. destruct (CreateWorkflow_stored _ _ _ _ Hwf Hm)
    as (frozen & now & ar & batch & js & Hfr & Ho & Hk & Hb & Hbo & Hids & Hjs & Hp & Hreq & Hne & -> & Hout).
  rewrite (CreateWorkflow_known command frozen w' _ _ Hfr Hreq Hk Ho).
  destruct (freeze_keeps _ _ Hfr) as (_ & _ & digest & Fo).
  rewrite (validate_own_replay (cw_Operation (trim_command frozen))) by (cbn; apply TrimSpace_idem).
  cbn [trim_command cw_Operation o_UserID o_Kind update_field]. rewrite Fo.
  change (o_BatchID (created_operation _ (b_ID batch) now)) with (b_ID batch).
  split.
  - intros Hu Hk'. rewrite !bool_decide_true by done. reflexivity.
  - intros Hne'. replace (_ && _) with false.
    + eexists. split; [reflexivity|]. by vm_compute.
    + symmetry. apply andb_false_iff. destruct Hne' as [Hn|Hn]; [left|right]; by apply bool_decide_eq_false.
Qed.
End creation.

Lemma created_ok : ∃ agg, CreateWorkflow (H:=Sample.runtime) Sample.command Sample.world0 = (Ok (agg, true), Sample.world1).
Proof.
  unfold Sample.world1.
  assert (match (CreateWorkflow (H:=Sample.runtime) Sample.command Sample.world0).1 with
          | Ok (_, created) => created = true | Err _ => False end) as Hok by (vm_compute; reflexivity).
  destruct (CreateWorkflow Sample.command Sample.world0) as [[[agg []]|err] w]; [by exists agg|done|done].
Qed.

Lemma create_workflow_contract_witness :
  ∃ agg, CreateWorkflow (H:=Sample.runtime) Sample.command Sample.world0 = (Ok (agg, true), Sample.world1)
  ∧ length (wa_Jobs agg) = 2%nat ∧ Forall (fresh_job (wa_Operation agg) (wa_Batch agg)) (wa_Jobs agg).
Proof.
  destruct created_ok as [agg Hagg]. exists agg. split; [exact Hagg|].
  destruct (create_workflow_contract (H:=Sample.runtime) Sample.command Sample.world0 agg Sample.world1 new_store_wf Hagg) as (_ & Hl & _ & Hf & _).
  split; [exact Hl|exact Hf].
Defined.

Lemma create_workflow_replay_witness :
  ∃ agg, CreateWorkflow (H:=Sample.runtime) Sample.command Sample.world0 = (Ok (agg, true), Sample.world1)
  ∧ CreateWorkflow (H:=Sample.runtime) Sample.command Sample.world1 = (Ok (agg, false), Sample.world1).
Proof.
  destruct created_ok as [agg Hagg]. exists agg. split; [exact Hagg|].
  refine (proj1 (create_workflow_replay (H:=Sample.runtime) Sample.command Sample.world0 agg Sample.world1 new_store_wf Hagg) _ _); vm_compute; reflexivity.
Defined.

(** ** Listings and back-off *)

(** A retry is scheduled between one and 128 seconds ahead, never earlier
    for a later attempt, and the delay doubles until the cap. *)
Theorem retry_backoff_bounds m n :
  second <= retryBackoff m <= 128 * second
  ∧ (m <= n → retryBackoff m <= retryBackoff n)
  ∧ (1 <= m < 8 → retryBackoff (m + 1) = 2 * retryBackoff m).
Proof.
  assert (∀ k, retryBackoff k = second * 2 ^ (Z.min 8 (Z.max 1 k) - 1)) as Heq.
  { intros k. unfold retryBackoff. rewrite Z.shiftl_1_l.
    destruct (Z.ltb_spec k 1); [rewrite (proj2 (Z.ltb_ge 8 1)) by lia; do 2 f_equal; lia|].
    destruct (Z.ltb_spec 8 k); do 2 f_equal; lia. }
  rewrite !Heq. unfold second. split; [|split].
  - assert (2 ^ 0 <= 2 ^ (Z.min 8 (Z.max 1 m) - 1) <= 2 ^ 7); [|lia].
    split; apply Z.pow_le_mono_r; lia.
  - intros Hmn. apply Z.mul_le_mono_nonneg_l; [lia|]. apply Z.pow_le_mono_r; lia.
  - intros Hm. rewrite !(Z.max_r 1), !(Z.min_r 8) by lia.
    replace (m + 1 - 1) with (Z.succ (m - 1)) by lia. rewrite Z.pow_succ_r by lia. lia.
Qed.

Lemma retry_backoff_bounds_witness : retryBackoff 3 <= retryBackoff 5 ∧ retryBackoff 4 = 2 * retryBackoff 3.
Proof.
  split; [refine (proj1 (proj2 (retry_backoff_bounds 3 5)) _); lia|].
  refine (proj2 (proj2 (retry_backoff_bounds 3 0)) _); lia.
Defined.

Section listing.
Context `{Runtime} {X : Type}.
Implicit Types (w : world X).

Lemma take_limit_prefix {A} limit (l : list A) : ∃ rest, l = take_limit limit l ++ rest.
Proof. unfold take_limit. case_match; [|exists []; by rewrite app_nil_r]. eexists. symmetry. apply take_drop. Qed.

Lemma StronglySorted_prefix {A} (R : A → A → Prop) l1 l2 : StronglySorted R (l1 ++ l2) → StronglySorted R l1.
Proof.
  induction l1 as [|a l1 IH]; simpl; [constructor|]. intros [Hs Hf]%StronglySorted_inv.
  apply Forall_app in Hf as [? _]. constructor; auto.
Qed.

Lemma ListRunnableJobs_spec now limit w l w' :
  now ≠ 0 → ListRunnableJobs now limit w = (Ok l, w') →
  w' = w
  ∧ StronglySorted (fun a b => runnable_earlier b a = false) l
  ∧ (0 < limit → Z.of_nat (length l) <= limit)
  ∧ (∀ j, j ∈ l → (∃ id stored, jobs (w_store w) !! id = Some stored ∧ j = cloneJob stored
                    ∧ jobRunnableAt stored now = true) ∧ IsTerminalJobStatus (j_Status j) = false)
  ∧ (limit <= 0 → ∀ id stored, jobs (w_store w) !! id = Some stored → jobRunnableAt stored now = true →
       cloneJob stored ∈ l).
Proof.
  intros Hnow. unfold ListRunnableJobs. cbn [bind get_store].
  rewrite (proj2 (Z.eqb_neq now 0) Hnow : IsZero now = false). cbn [ret].
  set (all := sort_slice _ _). intros [= <- <-]. split; [done|].
  assert (all ≡ₚ cloneJob <$> List.filter (fun job => jobRunnableAt job now) (map_to_list (jobs (w_store w))).*2) as Hall
    by apply sort_slice_perm.
  destruct (take_limit_prefix limit all) as [rest Hrest]. split.
  { apply (StronglySorted_prefix _ _ rest). rewrite <-Hrest. apply sort_by_time_then_id. }
  split.
  { unfold take_limit. intros Hl. case_match eqn:E; [rewrite length_take; lia|lia]. }
  assert (∀ j, j ∈ all ↔ ∃ id stored, jobs (w_store w) !! id = Some stored ∧ j = cloneJob stored
                                      ∧ jobRunnableAt stored now = true) as Hin.
  { intros j. rewrite Hall, list_elem_of_fmap. split.
    - intros (stored & -> & [Hs Hr]%list_elem_of_In%filter_In).
      apply list_elem_of_In, list_elem_of_fmap in Hs as ([id x] & -> & Hx%elem_of_map_to_list). eauto.
    - intros (id & stored & Hs & -> & Hr). exists stored. split; [done|]. apply list_elem_of_In, filter_In.
      split; [|done]. apply list_elem_of_In, list_elem_of_fmap. exists (id, stored). split; [done|].
      by apply elem_of_map_to_list. }
  split.
  - intros j Hj. assert (j ∈ all) as Hj2 by (rewrite Hrest; apply elem_of_app; by left).
    apply Hin in Hj2 as (id & stored & Hs & -> & Hr). split; [eauto|].
    unfold jobRunnableAt in Hr. change (j_Status (cloneJob stored)) with (j_Status stored).
    by destruct (IsTerminalJobStatus (j_Status stored)).
  - intros Hl id stored Hs Hr. unfold take_limit. rewrite (proj2 (Z.ltb_ge 0 limit)) by lia. cbn [andb].
    apply Hin. eauto.
Qed.

(** The scheduler's listing holds exactly the stored jobs that may run at
    the given time, the longest due first, cut to the limit when one is given;
    a job in a terminal status is never in it. *)
Theorem runnable_listing now limit w l w' :
  now ≠ 0 → ListRunnableJobs now limit w = (Ok l, w') →
  w' = w
  ∧ StronglySorted (fun a b => runnable_earlier b a = false) l
  ∧ (0 < limit → Z.of_nat (length l) <= limit)
  ∧ (∀ j, j ∈ l → (∃ id stored, jobs (w_store w) !! id = Some stored ∧ j = cloneJob stored
                    ∧ jobRunnableAt stored now = true) ∧ IsTerminalJobStatus (j_Status j) = false)
  ∧ (limit <= 0 → ∀ id stored, jobs (w_store w) !! id = Some stored → jobRunnableAt stored now = true →
       cloneJob stored ∈ l).
Proof. apply ListRunnableJobs_spec. Qed.
End listing.

Lemma runnable_listing_witness :
  ∃ l, ListRunnableJobs (H:=Sample.runtime) 5000 1 Sample.world1 = (Ok l, Sample.world1)
  ∧ (j_ID <$> l) = ["job-1"] ∧ StronglySorted (fun a b => runnable_earlier b a = false) l.
Proof.
  assert (∃ l, ListRunnableJobs (H:=Sample.runtime) 5000 1 Sample.world1 = (Ok l, Sample.world1)
    ∧ (j_ID <$> l) = ["job-1"]) as (l & Hl & Hids) by (vm_compute; eexists; split; reflexivity).
  exists l. split; [exact Hl|]. split; [exact Hids|].
  refine (proj1 (proj2 (runnable_listing (H:=Sample.runtime) 5000 1 Sample.world1 l Sample.world1 _ Hl))). lia.
Defined.
