(* ===== verification/Barrier.v ===== *)
(** * The batch barrier and the command service

    [internal/aigc/generation/barrier.go]: the only producer of a batch's
    terminal event, and [command.go]: creation and cancellation.  Both run inside
    [TransactBatch] or [CreateWorkflow] of the store. *)

From Stdlib Require Import ZArith Lia.
From S2P Require Import Prelude GoJson GenModels WorkflowStore.

Record JobTerminalResult := mkJobTerminalResult {
  jt_JobID : string;
  jt_TargetID : string;
  jt_AssetSlot : string;
  jt_Status : string;
  jt_ResultDisposition : string;
  jt_ResultAssetIDs : list string;
  jt_ErrorCode : string;
  jt_GrossPoints : Z;
  jt_RefundedPoints : Z;
  jt_NetPoints : Z
}.
#[global] Instance eta_JobTerminalResult : Eta JobTerminalResult := fun r =>
  mkJobTerminalResult (jt_JobID r) (jt_TargetID r) (jt_AssetSlot r) (jt_Status r)
  (jt_ResultDisposition r) (jt_ResultAssetIDs r) (jt_ErrorCode r) (jt_GrossPoints r)
  (jt_RefundedPoints r) (jt_NetPoints r).
Definition zeroJobTerminalResult : JobTerminalResult :=
  mkJobTerminalResult "" "" "" "" "" [] "" 0 0 0.

Record PostBatchPayload := mkPostBatchPayload {
  pb_SessionID : string;
  pb_WorkflowRunID : string;
  pb_StageRunID : string;
  pb_OperationID : string;
  pb_ToolCallID : string;
  pb_BatchID : string;
  pb_BatchVersion : Z;
  pb_Status : string;
  pb_Cost : CostSummary;
  pb_Jobs : list JobTerminalResult;
  pb_NeedsAgentExplanation : bool;
  pb_CreatedAt : Time
}.
#[global] Instance eta_PostBatchPayload : Eta PostBatchPayload := fun r =>
  mkPostBatchPayload (pb_SessionID r) (pb_WorkflowRunID r) (pb_StageRunID r) (pb_OperationID r)
  (pb_ToolCallID r) (pb_BatchID r) (pb_BatchVersion r) (pb_Status r) (pb_Cost r) (pb_Jobs r)
  (pb_NeedsAgentExplanation r) (pb_CreatedAt r).
Definition zeroPostBatchPayload : PostBatchPayload :=
  mkPostBatchPayload "" "" "" "" "" "" 0 "" zeroCostSummary [] false zeroTime.

Record BarrierResult := mkBarrierResult {
  br_Terminal : bool;
  br_EventCreated : bool;
  br_Payload : PostBatchPayload
}.
#[global] Instance eta_BarrierResult : Eta BarrierResult := fun r =>
  mkBarrierResult (br_Terminal r) (br_EventCreated r) (br_Payload r).
Definition zeroBarrierResult : BarrierResult := mkBarrierResult false false zeroPostBatchPayload.

(** ** Pure parts *)

Definition recount_job (batch : GenerationBatch) (job : GenerationJob) : GenerationBatch :=
  let batch := if j_Required job then batch <| b_RequiredJobs := incr (b_RequiredJobs batch) |>
               else batch <| b_OptionalJobs := incr (b_OptionalJobs batch) |> in
  if bool_decide (j_Status job = StatusSucceeded)
  then batch <| b_SucceededJobs := incr (b_SucceededJobs batch) |>
  else if bool_decide (j_Status job = StatusFailed)
  then batch <| b_FailedJobs := incr (b_FailedJobs batch) |>
  else if bool_decide (j_Status job = StatusCancelled)
  then batch <| b_CancelledJobs := incr (b_CancelledJobs batch) |>
  else batch.

Definition recountBatch (batch : GenerationBatch) (js : list GenerationJob) : GenerationBatch :=
  foldl recount_job
    (batch <| b_RequiredJobs := 0 |> <| b_OptionalJobs := 0 |> <| b_SucceededJobs := 0 |>
           <| b_FailedJobs := 0 |> <| b_CancelledJobs := 0 |>) js.

Definition len {A} (l : list A) : Z := Z.of_nat (length l).

Definition evaluateCompletionPolicy (batch : GenerationBatch) (js : list GenerationJob) : string :=
  if bool_decide (b_CompletionPolicy batch = CompletionAllowPartial)
  then if b_SucceededJobs batch =? len js then BatchStatusCompleted
       else if 0 <? b_SucceededJobs batch then BatchStatusPartialFailed
       else BatchStatusFailed
  else if bool_decide (b_CompletionPolicy batch = CompletionMinSuccess)
  then let minimum := if b_MinSuccess batch <=? 0 then 1 else b_MinSuccess batch in
       if minimum <=? b_SucceededJobs batch then BatchStatusCompleted else BatchStatusFailed
  else if existsb (fun job => j_Required job && negb (bool_decide (j_Status job = StatusSucceeded))) js
  then BatchStatusFailed
  else BatchStatusCompleted.

(** [m[k] += v] on a [map[string]int64]. *)
Definition add_at (m : gmap string Z) (k : string) (v : Z) : gmap string Z :=
  <[k := wrap64 (default 0 (m !! k) + v)]> m.

(** [for key, value := range breakdown { m[key] += value }]: keys are distinct,
    so the order of the iteration does not matter. *)
Definition add_breakdown (m : gmap string Z) (breakdown : gomap Z) : gmap string Z :=
  foldl (fun m '(k, v) => add_at m k v) m (map_to_list (default ∅ breakdown)).

Record cost_acc := mkCostAcc {
  ca_gross_seen : gset string;
  ca_refund_seen : gset string;
  ca_gross : Z;
  ca_refunded : Z;
  ca_breakdown : gmap string Z;
  ca_balance : option Z;
  ca_balance_at : Time
}.
#[global] Instance eta_cost_acc : Eta cost_acc := fun r =>
  mkCostAcc (ca_gross_seen r) (ca_refund_seen r) (ca_gross r) (ca_refunded r) (ca_breakdown r)
    (ca_balance r) (ca_balance_at r).

(** One round of the loop of [aggregateCost], in three parts. *)
Definition note_charge (acc : cost_acc) (job : GenerationJob) : cost_acc :=
  let transactionID := TrimSpace (j_BillingTransactionID job) in
  if bool_decide (transactionID = "") || bool_decide (transactionID ∈ ca_gross_seen acc) then acc
  else acc <| ca_gross_seen := {[transactionID]} ∪ ca_gross_seen acc |>
           <| ca_gross := wrap64 (ca_gross acc + j_ChargedPoints job) |>
           <| ca_breakdown := add_breakdown (ca_breakdown acc) (j_CostBreakdown job) |>.

Definition note_refund (acc : cost_acc) (job : GenerationJob) : cost_acc :=
  let refundID := TrimSpace (j_RefundTransactionID job) in
  if bool_decide (refundID = "") || bool_decide (refundID ∈ ca_refund_seen acc) then acc
  else acc <| ca_refund_seen := {[refundID]} ∪ ca_refund_seen acc |>
           <| ca_refunded := wrap64 (ca_refunded acc + j_CompensatedPoints job) |>.

Definition note_balance (acc : cost_acc) (job : GenerationJob) : cost_acc :=
  match j_BalanceAfter job with
  | Some balance =>
      if match ca_balance acc with None => true | Some _ => After (j_UpdatedAt job) (ca_balance_at acc) end
      then acc <| ca_balance := Some balance |> <| ca_balance_at := j_UpdatedAt job |>
      else acc
  | None => acc
  end.

Definition cost_step (acc : cost_acc) (job : GenerationJob) : cost_acc :=
  note_balance (note_refund (note_charge acc job) job) job.

Definition aggregateCost (js : list GenerationJob) : CostSummary :=
  let acc := foldl cost_step (mkCostAcc ∅ ∅ 0 0 ∅ None zeroTime) js in
  let breakdown := if ca_refunded acc =? 0 then ca_breakdown acc
                   else add_at (ca_breakdown acc) "refund" (- ca_refunded acc) in
  mkCostSummary (ca_gross acc) (ca_refunded acc) (wrap64 (ca_gross acc - ca_refunded acc))
    (if bool_decide (breakdown = ∅) then None else Some breakdown) (ca_balance acc).

Definition needsAgentExplanation (policy status : string) : bool :=
  if bool_decide (policy = WakeNever) then false
  else if bool_decide (policy = WakeOnFailure)
  then bool_decide (status ∈ [BatchStatusPartialFailed; BatchStatusFailed; BatchStatusCancelled])
  else true.

Definition job_terminal_result (job : GenerationJob) : JobTerminalResult :=
  mkJobTerminalResult (j_ID job) (j_TargetID job) (j_AssetSlot job) (j_Status job)
    (j_ResultDisposition job) (j_ResultAssetIDs job) (j_ErrorCode job)
    (j_ChargedPoints job) (j_CompensatedPoints job) (wrap64 (j_ChargedPoints job - j_CompensatedPoints job)).

Definition buildPostBatchPayload (operation : GenerationOperation) (batch : GenerationBatch)
    (js : list GenerationJob) (now : Time) : PostBatchPayload :=
  mkPostBatchPayload (b_SessionID batch) (b_WorkflowRunID batch) (b_StageRunID batch)
    (o_ID operation) (b_ToolCallID batch) (b_ID batch) (b_Version batch) (b_Status batch)
    (b_Cost batch) (job_terminal_result <$> js)
    (needsAgentExplanation (b_WakePolicy batch) (b_Status batch))
    (match b_TerminalAt batch with Some t => t | None => now end).

Definition operationStatusForBatch (status : string) : string :=
  if bool_decide (status = BatchStatusCompleted) then OperationStatusCompleted
  else if bool_decide (status = BatchStatusPartialFailed) then OperationStatusPartialFailed
  else if bool_decide (status = BatchStatusCancelled) then OperationStatusCancelled
  else OperationStatusFailed.

Definition terminalEventType (status : string) : string := "batch." +:+ status.

Definition normalizedCompensationStatus (status : string) : string :=
  if blank status then CompensationNotRequired else status.

(** The JSON objects of the two structs, [omitempty] fields left out when zero. *)
Definition omit_str (k v : string) : list (string * any) :=
  if bool_decide (v = "") then [] else [(k, AStr v)].
Definition omit_int (k : string) (v : Z) : list (string * any) :=
  if v =? 0 then [] else [(k, AInt v)].

Definition json_of_cost (c : CostSummary) : any :=
  AObj ([("gross_charged_points", AInt (c_GrossChargedPoints c));
         ("refunded_points", AInt (c_RefundedPoints c));
         ("net_charged_points", AInt (c_NetChargedPoints c))]
        ++ match omit_empty (c_Breakdown c) with
           | Some m => [("breakdown", AObj (prod_map id AInt <$> map_to_list m))]
           | None => []
           end
        ++ match c_BalanceAfter c with Some b => [("balance_after", AInt b)] | None => [] end).

Definition json_of_job_result (r : JobTerminalResult) : any :=
  AObj ([("job_id", AStr (jt_JobID r))]
        ++ omit_str "target_id" (jt_TargetID r) ++ omit_str "asset_slot" (jt_AssetSlot r)
        ++ [("status", AStr (jt_Status r))]
        ++ omit_str "result_disposition" (jt_ResultDisposition r)
        ++ match jt_ResultAssetIDs r with [] => [] | ids => [("result_asset_ids", AArr (AStr <$> ids))] end
        ++ omit_str "error_code" (jt_ErrorCode r)
        ++ omit_int "gross_points" (jt_GrossPoints r) ++ omit_int "refunded_points" (jt_RefundedPoints r)
        ++ omit_int "net_points" (jt_NetPoints r)).

Definition mapFromPostBatchPayload (p : PostBatchPayload) : gomap any :=
  cloneMap (payload
    [("session_id", AStr (pb_SessionID p)); ("workflow_run_id", AStr (pb_WorkflowRunID p));
     ("stage_run_id", AStr (pb_StageRunID p)); ("operation_id", AStr (pb_OperationID p));
     ("tool_call_id", AStr (pb_ToolCallID p)); ("batch_id", AStr (pb_BatchID p));
     ("batch_version", AInt (pb_BatchVersion p)); ("status", AStr (pb_Status p));
     ("cost", json_of_cost (pb_Cost p)); ("jobs", AArr (json_of_job_result <$> pb_Jobs p));
     ("needs_agent_explanation", ABool (pb_NeedsAgentExplanation p));
     ("created_at", ATime (pb_CreatedAt p))]).

(** The loop over the compensation statuses: [true] when all are settled. *)
Fixpoint compensation_settled (js : list GenerationJob) : result bool :=
  match js with
  | [] => Ok true
  | job :: js' =>
      if blank (j_BillingTransactionID job) then compensation_settled js'
      else
        let status := normalizedCompensationStatus (j_CompensationStatus job) in
        if bool_decide (status ∈ [CompensationPending; CompensationRunning; CompensationRetryWait])
        then Ok false
        else if bool_decide (status ∈ [CompensationNotRequired; CompensationCompleted; CompensationManualFinal])
        then compensation_settled js'
        else Err (Errorf ("job " +:+ j_ID job +:+ " has invalid compensation status "
                          +:+ Quote (j_CompensationStatus job)))
  end.

(** The status of a batch whose jobs are all terminal and settled. *)
Definition terminal_status (batch : GenerationBatch) (js : list GenerationJob) : string :=
  if b_CancelRequested batch
  then if b_SucceededJobs batch =? len js then BatchStatusCompleted
       else if 0 <? b_SucceededJobs batch then BatchStatusPartialFailed
       else BatchStatusCancelled
  else evaluateCompletionPolicy batch js.

Definition terminal_event (batch : GenerationBatch) (p : PostBatchPayload) : OutboxEvent :=
  zeroOutboxEvent
    <| e_IdempotencyKey := "batch:" +:+ b_ID batch +:+ ":terminal" |>
    <| e_EventType := terminalEventType (b_Status batch) |>
    <| e_Destination := DestinationSessionSignal |>
    <| e_AggregateType := "batch" |> <| e_AggregateID := b_ID batch |>
    <| e_AggregateVersion := incr (b_Version batch) |>
    <| e_Payload := mapFromPostBatchPayload p |>.

Section barrier.
Context `{Runtime} {X : Type}.

Definition barrier_transaction : BatchTransaction (X := X * BarrierResult) :=
  fun operation batch js =>
  if IsTerminalBatchStatus (b_Status batch)
  then
    let* now := clock in
    let* _ := set_local (mkBarrierResult true false (buildPostBatchPayload operation batch js now)) in
    ret (Ok (operation, batch, js, []))
  else
  let batch := recountBatch batch js in
  if existsb (fun job => negb (IsTerminalJobStatus (j_Status job))) js
  then
    let batch := if b_CancelRequested batch then batch <| b_Status := BatchStatusCancelling |> else batch in
    ret (Ok (operation, batch, js, []))
  else
  match compensation_settled js with
  | Err e => fail e
  | Ok false =>
      let batch := batch <| b_Status := if b_CancelRequested batch then BatchStatusCancelling
                                        else BatchStatusFinalizing |> in
      ret (Ok (operation, batch, js, []))
  | Ok true =>
      let batch := batch <| b_Cost := aggregateCost js |> in
      let batch := batch <| b_Status := terminal_status batch js |> in
      let operation := operation <| o_Status := operationStatusForBatch (b_Status batch) |>
                                 <| o_ErrorCode := b_ErrorCode batch |>
                                 <| o_ErrorMessage := b_ErrorMessage batch |> in
      let* now := clock in
      let p := (buildPostBatchPayload operation batch js now) <| pb_BatchVersion := incr (b_Version batch) |> in
      let* _ := set_local (mkBarrierResult true true p) in
      let operation := operation <| o_Result := mapFromPostBatchPayload p |> in
      ret (Ok (operation, batch, js, [terminal_event batch p]))
  end.

Definition TryFinalize (batchID : string) : Eff (world X) (result BarrierResult) :=
  let* '(r, captured) := with_local zeroBarrierResult (TransactBatch batchID barrier_transaction) in
  match r with
  | Err e => fail e
  | Ok aggregate =>
      if br_Terminal captured && bool_decide (pb_BatchID (br_Payload captured) = "")
      then
        let* now := s_clock in
        ret (Ok (captured <| br_Payload := buildPostBatchPayload (wa_Operation aggregate) (wa_Batch aggregate)
                                             (wa_Jobs aggregate) now |>))
      else ret (Ok captured)
  end.

Definition tryFinalizeBatchBestEffort (batchID : string) : Eff (world X) unit :=
  if blank batchID then ret tt
  else let* _ := TryFinalize batchID in ret tt.

(** ** The command service *)

Fixpoint name_jobs (js : list GenerationJob) : Eff (world X) (list GenerationJob) :=
  match js with
  | [] => ret []
  | job :: js' =>
      let* id := (if blank (j_ID job) then s_newID else ret (j_ID job)) in
      let job := job <| j_ID := id |> in
      let job := if blank (j_IdempotencyKey job)
                 then job <| j_IdempotencyKey := "generation:job:" +:+ j_ID job |> else job in
      let* js' := name_jobs js' in
      ret (job :: js')
  end.

Definition Create (command : CreateWorkflowCommand) : Eff (world X) (result (WorkflowAggregate * bool)) :=
  let* opID := (if blank (o_ID (cw_Operation command)) then s_newID else ret (o_ID (cw_Operation command))) in
  let* batchID := (if blank (b_ID (cw_Batch command)) then s_newID else ret (b_ID (cw_Batch command))) in
  let* js := name_jobs (cw_Jobs command) in
  CreateWorkflow (command <| cw_Operation := (cw_Operation command) <| o_ID := opID |> |>
                          <| cw_Batch := (cw_Batch command) <| b_ID := batchID |> |>
                          <| cw_Jobs := js |>).

Definition cancel_requested_event (operation : GenerationOperation) (batch : GenerationBatch) : OutboxEvent :=
  zeroOutboxEvent
    <| e_IdempotencyKey := "operation:" +:+ o_ID operation +:+ ":cancel-requested" |>
    <| e_EventType := EventOperationCancelRequested |> <| e_Destination := DestinationSessionSignal |>
    <| e_Payload := payload [("batch_id", AStr (b_ID batch))] |>.

Definition job_cancel_event (job : GenerationJob) : OutboxEvent :=
  zeroOutboxEvent
    <| e_IdempotencyKey := "job:" +:+ j_ID job +:+ ":cancel-requested" |>
    <| e_EventType := EventJobCancelRequested |> <| e_Destination := DestinationMediaJobs |>
    <| e_AggregateType := "job" |> <| e_AggregateID := j_ID job |> <| e_JobID := j_ID job |>
    <| e_Payload := payload [("job_id", AStr (j_ID job))] |>.

Definition cancel_finalize_event (batch : GenerationBatch) : OutboxEvent :=
  zeroOutboxEvent
    <| e_IdempotencyKey := "batch:" +:+ b_ID batch +:+ ":finalize-requested:cancel" |>
    <| e_EventType := EventBatchFinalizeRequested |> <| e_Destination := DestinationSessionSignal |>
    <| e_Payload := payload [("batch_id", AStr (b_ID batch))] |>.

(** One job of a cancelled batch: a job still in the queue ends here, a job that
    is out at its provider keeps the request for the worker. *)
Definition cancel_job (job : GenerationJob) : GenerationJob :=
  if IsTerminalJobStatus (j_Status job) then job
  else
    let job := job <| j_CancelRequested := true |> in
    if bool_decide (j_Status job = StatusQueued) && blank (j_ProviderTaskID job)
    then job <| j_Status := StatusCancelled |> <| j_ErrorCode := "cancelled_by_user" |>
             <| j_ErrorMessage := "generation was cancelled before provider submission" |>
    else job.

Definition cancel_transaction : BatchTransaction (X := X) :=
  fun operation batch js =>
  if IsTerminalBatchStatus (b_Status batch) then ret (Ok (operation, batch, js, []))
  else if b_CancelRequested batch then ret (Ok (operation, batch, js, []))
  else
    let* now := clock in
    let batch := batch <| b_CancelRequested := true |> <| b_CancelRequestedAt := Some now |>
                       <| b_Status := BatchStatusCancelling |> in
    let open := List.filter (fun job => negb (IsTerminalJobStatus (j_Status job))) js in
    ret (Ok (operation, batch, cancel_job <$> js,
             cancel_requested_event operation batch :: (job_cancel_event <$> open)
             ++ [cancel_finalize_event batch])).

Definition CancelBatch (batchID : string) : Eff (world X) (result WorkflowAggregate) :=
  TransactBatch batchID cancel_transaction.
End barrier.
