(* ===== verification/BarrierProps.v ===== *)
(** * What the batch barrier guarantees

    A batch is finalized once, only when all of its jobs are terminal and every
    charge is settled, with the costs of its jobs; cancellation is recorded once
    and reaches every open job. *)

From Stdlib Require Import ZArith Lia.
From S2P Require Import Prelude GoJson GenModels WorkflowStore Samples WorkflowStoreProps WorkflowRuns Barrier.

(** ** Counting *)

Definition count {A} (P : A → bool) (l : list A) : Z := len (List.filter P l).

Lemma count_nonneg {A} (P : A → bool) l : 0 <= count P l.
Proof. unfold count, len. lia. Qed.

Lemma count_le {A} (P : A → bool) l : count P l <= len l.
Proof. unfold count, len. pose proof (List.filter_length_le P l). lia. Qed.

Lemma count_snoc {A} (P : A → bool) l a : count P (l ++ [a]) = count P l + (if P a then 1 else 0).
Proof. unfold count, len. rewrite List.filter_app, length_app. simpl. destruct (P a); simpl; lia. Qed.

Lemma count_zero {A} (P : A → bool) l a : count P l = 0 → a ∈ l → P a = false.
Proof.
  unfold count, len. intros H Ha. destruct (P a) eqn:E; [|done].
  assert (a ∈ List.filter P l) as Hin by (apply list_elem_of_In, filter_In; split; [by apply list_elem_of_In|done]).
  destruct (List.filter P l); [by apply elem_of_nil in Hin|simpl in H; lia].
Qed.

Lemma count_full {A} (P : A → bool) l a : count P l = len l → a ∈ l → P a = true.
Proof.
  induction l as [|b l IH]; intros H Ha; [by apply elem_of_nil in Ha|].
  unfold count, len in *. simpl in H. pose proof (List.filter_length_le P l).
  destruct (P b) eqn:E; simpl in H; [|lia]. apply elem_of_cons in Ha as [->|Ha]; [done|]. apply IH; [lia|done].
Qed.

Definition has_status (status : string) (job : GenerationJob) : bool := bool_decide (j_Status job = status).

(** The counters a recount leaves, and the fields it does not touch. *)
Record recounted (batch : GenerationBatch) (js : list GenerationJob) (batch' : GenerationBatch) : Prop := {
  rc_required : b_RequiredJobs batch' = count j_Required js;
  rc_optional : b_OptionalJobs batch' = count (negb ∘ j_Required) js;
  rc_succeeded : b_SucceededJobs batch' = count (has_status StatusSucceeded) js;
  rc_failed : b_FailedJobs batch' = count (has_status StatusFailed) js;
  rc_cancelled : b_CancelledJobs batch' = count (has_status StatusCancelled) js;
  rc_id : b_ID batch' = b_ID batch;
  rc_operation : b_OperationID batch' = b_OperationID batch;
  rc_status : b_Status batch' = b_Status batch;
  rc_cancel : b_CancelRequested batch' = b_CancelRequested batch;
  rc_policy : b_CompletionPolicy batch' = b_CompletionPolicy batch;
  rc_min : b_MinSuccess batch' = b_MinSuccess batch;
  rc_version : b_Version batch' = b_Version batch
}.

Lemma incr_count {A} (P : A → bool) l : len l < int64_max → incr (count P l) = count P l + 1.
Proof. intros Hl. pose proof (count_nonneg P l). pose proof (count_le P l). apply incr_small. lia. Qed.

Lemma recount_job_recounted batch js batch' job :
  len js < int64_max → recounted batch js batch' → recounted batch (js ++ [job]) (recount_job batch' job).
Proof.
  intros Hl [R1 R2 R3 R4 R5 ? ? ? ? ? ? ?].
  assert (∀ P : GenerationJob → bool, incr (count P js) = count P js + 1) as Hi by (intros; by apply incr_count).
  unfold recount_job. split; rewrite ?count_snoc; unfold has_status, compose in *.
  all: destruct (j_Required job), (bool_decide (j_Status job = StatusSucceeded)) eqn:E1,
    (bool_decide (j_Status job = StatusFailed)) eqn:E2, (bool_decide (j_Status job = StatusCancelled)) eqn:E3.
  all: try (status_cases; clash).
  all: cbn; rewrite ?R1, ?R2, ?R3, ?R4, ?R5, ?Hi; try done; lia.
Qed.

Lemma recountBatch_recounted batch js : len js < int64_max → recounted batch js (recountBatch batch js).
Proof.
  unfold recountBatch. intros Hl. induction js as [|job js IH] using rev_ind; [by split|].
  rewrite foldl_snoc. assert (len js < int64_max) by (unfold len in *; rewrite length_app in Hl; lia).
  apply recount_job_recounted; [done|]. by apply IH.
Qed.

(** A recount leaves the identity and the status alone however many jobs there are. *)
Lemma recountBatch_keeps batch js :
  b_ID (recountBatch batch js) = b_ID batch ∧ b_OperationID (recountBatch batch js) = b_OperationID batch
  ∧ b_Status (recountBatch batch js) = b_Status batch
  ∧ b_CancelRequested (recountBatch batch js) = b_CancelRequested batch.
Proof.
  unfold recountBatch. induction js as [|job js IH] using rev_ind; [done|].
  rewrite foldl_snoc. unfold recount_job. destruct IH as (E1 & E2 & E3 & E4).
  destruct (j_Required job), (bool_decide (j_Status job = StatusSucceeded)),
    (bool_decide (j_Status job = StatusFailed)), (bool_decide (j_Status job = StatusCancelled)); cbn; done.
Qed.

(** ** Costs *)

(** Points charged by the jobs that carry a transaction, and refunded ones. *)
Definition charged_points (job : GenerationJob) : Z :=
  if blank (j_BillingTransactionID job) then 0 else j_ChargedPoints job.
Definition refunded_points (job : GenerationJob) : Z :=
  if blank (j_RefundTransactionID job) then 0 else j_CompensatedPoints job.
Definition sum_of (f : GenerationJob → Z) (js : list GenerationJob) : Z := foldr (fun j acc => f j + acc) 0 js.

Lemma sum_of_snoc f js j : sum_of f (js ++ [j]) = sum_of f js + f j.
Proof. unfold sum_of. induction js as [|x js IH]; simpl in *; [lia|]. rewrite IH. lia. Qed.

(** The transaction identifiers in use, blank ones aside. *)
Definition used_ids (f : GenerationJob → string) (js : list GenerationJob) : list string :=
  List.filter (fun id => negb (bool_decide (id = ""))) (TrimSpace ∘ f <$> js).

Lemma used_ids_snoc f js j :
  used_ids f (js ++ [j]) = used_ids f js ++ (if blank (f j) then [] else [TrimSpace (f j)]).
Proof.
  unfold used_ids, blank. rewrite fmap_app, List.filter_app. cbn. by case_bool_decide.
Qed.

Definition cost_start : cost_acc := mkCostAcc ∅ ∅ 0 0 ∅ None zeroTime.

Lemma note_balance_keeps acc job :
  ca_gross_seen (note_balance acc job) = ca_gross_seen acc ∧ ca_gross (note_balance acc job) = ca_gross acc
  ∧ ca_refund_seen (note_balance acc job) = ca_refund_seen acc ∧ ca_refunded (note_balance acc job) = ca_refunded acc.
Proof. unfold note_balance. destruct (j_BalanceAfter job); [|done].
  destruct (ca_balance acc); [by destruct (After _ _)|done]. Qed.

Lemma note_charge_keeps acc job :
  ca_refund_seen (note_charge acc job) = ca_refund_seen acc ∧ ca_refunded (note_charge acc job) = ca_refunded acc.
Proof. unfold note_charge. by destruct (_ || _). Qed.

Lemma note_refund_keeps acc job :
  ca_gross_seen (note_refund acc job) = ca_gross_seen acc ∧ ca_gross (note_refund acc job) = ca_gross acc.
Proof. unfold note_refund. by destruct (_ || _). Qed.

(** With one transaction per job the loop adds up what the jobs say. *)
Lemma cost_loop_gross js :
  NoDup (used_ids j_BillingTransactionID js) →
  let acc := foldl cost_step cost_start js in
  (∀ id, id ∈ ca_gross_seen acc ↔ id ∈ used_ids j_BillingTransactionID js)
  ∧ ca_gross acc = wrap64 (sum_of charged_points js).
Proof.
  induction js as [|job js IH] using rev_ind; intros Hnd; cbv zeta.
  { cbn. split; [set_solver|reflexivity]. }
  rewrite used_ids_snoc in Hnd |- *. apply NoDup_app in Hnd as (Hnd & Hdis & _).
  destruct (IH Hnd) as [Hs Hg]. rewrite foldl_snoc, sum_of_snoc.
  set (acc := foldl cost_step cost_start js) in *. unfold cost_step.
  destruct (note_balance_keeps (note_refund (note_charge acc job) job) job) as (-> & -> & _ & _).
  destruct (note_refund_keeps (note_charge acc job) job) as (-> & ->).
  unfold note_charge, charged_points, blank in *. destruct (bool_decide (TrimSpace _ = "")) eqn:E; cbn [orb].
  - rewrite app_nil_r, Z.add_0_r. done.
  - rewrite (bool_decide_false (_ ∈ ca_gross_seen acc)).
    + cbn [orb]. split; [|cbn; by rewrite Hg, wrap64_add_l].
      intros id. cbn. rewrite elem_of_union, elem_of_singleton, elem_of_app, list_elem_of_singleton, Hs. tauto.
    + rewrite Hs. intros Hin. apply (Hdis _ Hin). by left.
Qed.

Lemma cost_loop_refund js :
  NoDup (used_ids j_RefundTransactionID js) →
  let acc := foldl cost_step cost_start js in
  (∀ id, id ∈ ca_refund_seen acc ↔ id ∈ used_ids j_RefundTransactionID js)
  ∧ ca_refunded acc = wrap64 (sum_of refunded_points js).
Proof.
  induction js as [|job js IH] using rev_ind; intros Hnd; cbv zeta.
  { cbn. split; [set_solver|reflexivity]. }
  rewrite used_ids_snoc in Hnd |- *. apply NoDup_app in Hnd as (Hnd & Hdis & _).
  destruct (IH Hnd) as [Hs Hg]. rewrite foldl_snoc, sum_of_snoc.
  set (acc := foldl cost_step cost_start js) in *. unfold cost_step.
  destruct (note_balance_keeps (note_refund (note_charge acc job) job) job) as (_ & _ & -> & ->).
  destruct (note_charge_keeps acc job) as (K1 & K2).
  unfold note_refund, refunded_points, blank in *. rewrite K1.
  destruct (bool_decide (TrimSpace (j_RefundTransactionID job) = "")) eqn:E; cbn [orb].
  - rewrite app_nil_r, Z.add_0_r, K1, K2. done.
  - rewrite (bool_decide_false (_ ∈ ca_refund_seen acc)).
    + cbn [orb]. split; [|cbn; by rewrite K2, Hg, wrap64_add_l].
      intros id. cbn. rewrite elem_of_union, elem_of_singleton, elem_of_app, list_elem_of_singleton, Hs. tauto.
    + rewrite Hs. intros Hin. apply (Hdis _ Hin). by left.
Qed.

(** The cost of a batch is what its jobs paid: with one transaction per job
    and no overflow, gross is the sum of the charged points of the billed jobs,
    refunded the sum of the refunds, and net their difference, the very sum of
    what each job has left. *)
Theorem batch_cost_is_the_sum_of_its_jobs js :
  NoDup (used_ids j_BillingTransactionID js) → NoDup (used_ids j_RefundTransactionID js) →
  in_int64 (sum_of charged_points js) → in_int64 (sum_of refunded_points js) →
  in_int64 (sum_of charged_points js - sum_of refunded_points js) →
  c_GrossChargedPoints (aggregateCost js) = sum_of charged_points js
  ∧ c_RefundedPoints (aggregateCost js) = sum_of refunded_points js
  ∧ c_NetChargedPoints (aggregateCost js) = sum_of (fun j => charged_points j - refunded_points j) js.
Proof.
  intros H1 H2 B1 B2 B3. unfold aggregateCost. cbn. fold cost_start.
  destruct (cost_loop_gross js H1) as [_ ->]. destruct (cost_loop_refund js H2) as [_ ->].
  rewrite !wrap64_id by (rewrite ?wrap64_id; done). split; [done|]. split; [done|].
  clear. unfold sum_of. induction js as [|j js IH]; simpl in *; lia.
Qed.

Lemma batch_cost_is_the_sum_of_its_jobs_witness :
  let js := [(Sample.job "a") <| j_BillingTransactionID := "t1" |> <| j_ChargedPoints := 12 |>;
             (Sample.job "b") <| j_BillingTransactionID := "t2" |> <| j_ChargedPoints := 30 |>
               <| j_RefundTransactionID := "r2" |> <| j_CompensatedPoints := 30 |>] in
  c_NetChargedPoints (aggregateCost js) = sum_of (fun j => charged_points j - refunded_points j) js.
Proof.
  intros js. refine (proj2 (proj2 (batch_cost_is_the_sum_of_its_jobs js _ _ _ _ _))).
  1-2: apply (bool_decide_unpack _); vm_compute; exact I.
  all: vm_compute; split; discriminate.
Defined.

(** ** The decision of the barrier *)

(** All jobs are terminal and every charge is settled. *)
Definition job_settled (job : GenerationJob) : Prop :=
  IsTerminalJobStatus (j_Status job) = true
  ∧ (blank (j_BillingTransactionID job) = true
     ∨ normalizedCompensationStatus (j_CompensationStatus job)
         ∈ [CompensationNotRequired; CompensationCompleted; CompensationManualFinal]).

#[global] Instance job_settled_dec job : Decision (job_settled job).
Proof. unfold job_settled. apply _. Defined.

Lemma compensation_settled_true js :
  compensation_settled js = Ok true ↔
  Forall (fun job => blank (j_BillingTransactionID job) = true
     ∨ normalizedCompensationStatus (j_CompensationStatus job)
         ∈ [CompensationNotRequired; CompensationCompleted; CompensationManualFinal]) js.
Proof.
  induction js as [|job js IH]; simpl; [split; [constructor|done]|].
  rewrite Forall_cons, <-IH. destruct (blank (j_BillingTransactionID job)) eqn:Eb; [naive_solver|].
  case_bool_decide as H1.
  { split; [done|]. intros [[?|H2] _]; [done|]. exfalso. revert H1 H2.
    rewrite !elem_of_cons, elem_of_nil. intros; destruct_or!; try done; clash. }
  case_bool_decide as H2; [naive_solver|]. split; [done|]. naive_solver.
Qed.

Section barrier_facts.
Context `{Runtime} {X : Type}.
Implicit Types (w : world X).

(** The four ways through the closure of [TryFinalize]. *)
Inductive barrier_outcome (operation : GenerationOperation) (batch : GenerationBatch) (js : list GenerationJob) :
    GenerationOperation → GenerationBatch → list OutboxEvent → option BarrierResult → Prop :=
| barrier_already now :
    IsTerminalBatchStatus (b_Status batch) = true →
    barrier_outcome operation batch js operation batch []
      (Some (mkBarrierResult true false (buildPostBatchPayload operation batch js now)))
| barrier_waits batch' :
    IsTerminalBatchStatus (b_Status batch) = false →
    ¬ Forall job_settled js →
    (batch' = recountBatch batch js
     ∨ batch' = (recountBatch batch js) <| b_Status := BatchStatusCancelling |> ∧ b_CancelRequested batch = true
     ∨ batch' = (recountBatch batch js) <| b_Status := BatchStatusFinalizing |> ∧ b_CancelRequested batch = false) →
    barrier_outcome operation batch js operation batch' [] None
| barrier_finalizes now batch' operation' p :
    IsTerminalBatchStatus (b_Status batch) = false →
    Forall job_settled js →
    batch' = (recountBatch batch js) <| b_Cost := aggregateCost js |>
               <| b_Status := terminal_status (recountBatch batch js) js |> →
    p = (buildPostBatchPayload (operation <| o_Status := operationStatusForBatch (b_Status batch') |>
           <| o_ErrorCode := b_ErrorCode batch' |> <| o_ErrorMessage := b_ErrorMessage batch' |>) batch' js now)
          <| pb_BatchVersion := incr (b_Version batch') |> →
    operation' = operation <| o_Status := operationStatusForBatch (b_Status batch') |>
           <| o_ErrorCode := b_ErrorCode batch' |> <| o_ErrorMessage := b_ErrorMessage batch' |>
           <| o_Result := mapFromPostBatchPayload p |> →
    barrier_outcome operation batch js operation' batch' [terminal_event batch' p] (Some (mkBarrierResult true true p)).

Lemma barrier_transaction_cases operation batch js (v : env (X * BarrierResult)) operation' batch' js' events v' :
  barrier_transaction operation batch js v = (Ok (operation', batch', js', events), v') →
  js' = js ∧ ∃ captured, barrier_outcome operation batch js operation' batch' events captured
    ∧ env_ext v' = ((env_ext v).1, default (env_ext v).2 captured).
Proof.
  unfold barrier_transaction. destruct (IsTerminalBatchStatus (b_Status batch)) eqn:Ht.
  { cbn. intros [= <- <- <- <- <-]. split; [done|]. eexists. split; [by constructor|done]. }
  cbv zeta. destruct (existsb _ js) eqn:Eo.
  { intros E. destruct (recountBatch_keeps batch js) as (_ & _ & _ & Hc).
    assert (¬ Forall job_settled js) as Hns.
    { apply existsb_exists in Eo as (job & Hin & Hj). rewrite Forall_forall. intros Hall.
      destruct (Hall job) as [Hterm _]; [by apply list_elem_of_In|]. by rewrite Hterm in Hj. }
    rewrite Hc in E. destruct (b_CancelRequested batch) eqn:Ec; injection E as <- <- <- <- <-.
    all: split; [done|]; exists None; split; [constructor; auto|by destruct (env_ext v)]. }
  assert (Forall (fun job => IsTerminalJobStatus (j_Status job) = true) js) as Hterm.
  { apply Forall_forall. intros job Hin. destruct (IsTerminalJobStatus (j_Status job)) eqn:E; [done|].
    exfalso. assert (existsb (fun job => negb (IsTerminalJobStatus (j_Status job))) js = true) as E2.
    { apply existsb_exists. exists job. split; [by apply list_elem_of_In|by rewrite E]. }
    congruence. }
  destruct (compensation_settled js) as [[|]|err] eqn:Ec; [| |done].
  - apply compensation_settled_true in Ec. cbn. intros [= <- <- <- <- <-]. split; [done|].
    eexists. split; [eapply barrier_finalizes; try done|done].
    apply Forall_and. split; [exact Hterm|exact Ec].
  - intros E. destruct (recountBatch_keeps batch js) as (_ & _ & _ & Hc). rewrite Hc in E.
    assert (¬ Forall job_settled js) as Hns.
    { intros [_ H2]%Forall_and. apply compensation_settled_true in H2. congruence. }
    destruct (b_CancelRequested batch) eqn:Ecr; injection E as <- <- <- <- <-.
    all: split; [done|]; exists None; split; [constructor; auto|by destruct (env_ext v)].
Qed.

Lemma ensure_lifecycle_same events js : ensure_lifecycle_events events (cloneJob <$> js) js = events.
Proof.
  induction js as [|j js IH]; [done|]. rewrite fmap_cons. cbn [ensure_lifecycle_events].
  replace (ensureJobLifecycleEvent events (cloneJob j) j false) with events; [exact IH|].
  unfold ensureJobLifecycleEvent. change (j_Status (cloneJob j)) with (j_Status j).
  change (j_Phase (cloneJob j)) with (j_Phase j). by rewrite !bool_decide_true.
Qed.

Lemma stamp_jobs_same now js :
  (∀ j, j ∈ js → cloneJob j = j) → zip_with (stamp_job_change now) (cloneJob <$> js) js = js.
Proof.
  induction js as [|j js IH]; intros Hc; [done|]. rewrite fmap_cons. cbn [zip_with].
  rewrite IH by (intros; apply Hc; by right). f_equal.
  unfold stamp_job_change, equalJSON. rewrite (Hc j) by left. by rewrite bool_decide_true.
Qed.

Lemma batch_jobs_cloned s bid j : j ∈ batch_jobs s bid → cloneJob j = j.
Proof. intros (id & -> & _)%list_elem_of_fmap. apply cloneJob_idem. Qed.

Lemma fill_terminal_key batch p o b js :
  e_IdempotencyKey (fillWorkflowEvent (terminal_event batch p) o b js) = "batch:" +:+ b_ID batch +:+ ":terminal".
Proof. reflexivity. Qed.

Lemma appended_nil_inv s s' :
  outbox_wf s → appended s [] s' → outbox s' = outbox s ∧ outboxByKey s' = outboxByKey s.
Proof.
  intros Hwf Ha. destruct Ha as [_ [G1 G] _ N W].
  assert (∀ k id, outboxByKey s' !! k = Some id → outboxByKey s !! k = Some id) as Hback.
  { intros k id E. destruct (N _ _ E) as [?|(e & _ & Hin & _)]; [done|]. by apply elem_of_nil in Hin. }
  split; apply map_eq; intros k.
  - destruct (outbox s' !! k) as [e|] eqn:E.
    + destruct (ow_event _ (W Hwf) _ _ E) as (_ & Hk & _). apply Hback in Hk.
      destruct (ow_key _ Hwf _ _ Hk) as (e' & He' & _). pose proof (lookup_weaken _ _ _ _ He' G1). congruence.
    + destruct (outbox s !! k) as [e|] eqn:E2; [|done]. pose proof (lookup_weaken _ _ _ _ E2 G1). congruence.
  - destruct (outboxByKey s' !! k) as [id|] eqn:E; [by rewrite (Hback _ _ E)|].
    destruct (outboxByKey s !! k) as [id|] eqn:E2; [|done]. pose proof (lookup_weaken _ _ _ _ E2 G). congruence.
Qed.

(** What [TryFinalize] does to the store. *)
Inductive try_finalize_spec id w : result BarrierResult * world X → Prop :=
| tf_fails err w' : w_store w' = w_store w → try_finalize_spec id w (Err err, w')
| tf_stores batch operation operation1 batch1 events captured now s1 w' r :
    let bid := TrimSpace id in
    let js := batch_jobs (w_store w) bid in
    batches (w_store w) !! bid = Some batch →
    operations (w_store w) !! b_OperationID batch = Some operation →
    barrier_outcome operation batch js operation1 batch1 events captured →
    let batch2 := stamp_batch_change (cloneBatch batch) batch1 now in
    let operation2 := stamp_operation_change (cloneOperation operation) operation1 now in
    appended (w_store w) ((fun e => fillWorkflowEvent e operation2 batch2 js) <$> events) s1 →
    w_store w' = s1 <| operations := <[o_ID operation2 := cloneOperation operation2]> (operations s1) |>
            <| batches := <[b_ID batch2 := cloneBatch batch2]> (batches s1) |>
            <| jobs := store_jobs (jobs s1) (default [] (jobIDsByBatch (w_store w) !! bid)) js |> →
    br_Terminal r = br_Terminal (default zeroBarrierResult captured) →
    br_EventCreated r = br_EventCreated (default zeroBarrierResult captured) →
    (pb_BatchID (br_Payload (default zeroBarrierResult captured)) ≠ "" → r = default zeroBarrierResult captured) →
    try_finalize_spec id w (Ok r, w').

Lemma TryFinalize_cases id w : try_finalize_spec id w (TryFinalize id w).
Proof.
  unfold TryFinalize, with_local. cbn [bind].
  set (wl := mkWorld (w_store w) _).
  pose proof (TransactBatch_cases id barrier_transaction wl) as Hc.
  destruct (TransactBatch id barrier_transaction wl) as [r0 wl'] eqn:E.
  inversion Hc as [err w1 Hw|batch operation operation1 batch1 js1 events v now s1 s2 w1 bid js
    Hb Ho Ht _ _ _ batch2 operation2 js2 Ha Hs2 Hw Hext]; subst; clear Hc.
  { constructor. exact Hw. }
  apply barrier_transaction_cases in Ht as (-> & captured & Hout & Hv).
  rewrite ensure_lifecycle_same in Ha.
  assert (js2 = js) as Ejs by (apply stamp_jobs_same; intros j; apply batch_jobs_cloned).
  rewrite Ejs in Ha, Hw.
  assert ((env_ext (w_env wl')).2 = default zeroBarrierResult captured) as Hcap by (rewrite Hext, Hv; reflexivity).
  rewrite Hcap. cbn [fst snd].
  destruct (br_Terminal (default zeroBarrierResult captured)
            && bool_decide (pb_BatchID (br_Payload (default zeroBarrierResult captured)) = "")) eqn:Eb.
  - cbn. eapply (tf_stores id w batch operation operation1 batch1 events captured now s1); try done.
    apply andb_prop in Eb as [_ Eb%bool_decide_eq_true]. done.
  - cbn. eapply (tf_stores id w batch operation operation1 batch1 events captured now s1); done.
Qed.

Lemma terminal_status_terminal batch js : IsTerminalBatchStatus (terminal_status batch js) = true.
Proof. unfold terminal_status, evaluateCompletionPolicy. repeat case_match; reflexivity. Qed.

Lemma outcome_keeps operation batch js operation' batch' events captured :
  barrier_outcome operation batch js operation' batch' events captured →
  (o_ID operation' = o_ID operation ∧ o_BatchID operation' = o_BatchID operation
   ∧ o_IdempotencyKey operation' = o_IdempotencyKey operation)
  ∧ b_ID batch' = b_ID batch ∧ b_OperationID batch' = b_OperationID batch.
Proof.
  destruct (recountBatch_keeps batch js) as (K1 & K2 & _ & _).
  destruct 1 as [|? ? ? [->|[[-> _]|[-> _]]]|? ? ? ? ? ? -> ? ->]; auto 10.
Qed.

Lemma barrier_transaction_keeps : transaction_keeps (X := X * BarrierResult) barrier_transaction.
Proof.
  intros o b js v o' b' js' events v' (-> & captured & Hout & _)%barrier_transaction_cases.
  destruct (outcome_keeps _ _ _ _ _ _ _ Hout) as (? & ? & ?). split; [done|]. split; [done|].
  clear. induction js; constructor; done.
Qed.

Lemma outcome_created operation batch js operation' batch' events captured :
  barrier_outcome operation batch js operation' batch' events captured →
  br_EventCreated (default zeroBarrierResult captured) = true →
  Forall job_settled js ∧ IsTerminalBatchStatus (b_Status batch') = true
  ∧ o_Status operation' = operationStatusForBatch (b_Status batch')
  ∧ b_Cost batch' = aggregateCost js ∧ ∃ p, events = [terminal_event batch' p].
Proof.
  destruct 1 as [|? ? ? ?|now ? ? p ? Hset -> -> ->]; [done|done|]. intros _.
  split; [exact Hset|]. split; [apply terminal_status_terminal|]. split; [reflexivity|].
  split; [reflexivity|]. by eexists.
Qed.

Lemma stamp_batch_change_cost b b' now : b_Cost (stamp_batch_change b b' now) = b_Cost b'.
Proof. unfold stamp_batch_change. by destruct (equalJSON _ _ _). Qed.

(** The stored batch and operation after [TryFinalize]. *)
Lemma TryFinalize_stored id w r w' :
  store_wf (w_store w) → TryFinalize id w = (Ok r, w') →
  ∃ batch operation operation1 batch1 events captured now,
    let js := batch_jobs (w_store w) (TrimSpace id) in
    batches (w_store w) !! TrimSpace id = Some batch
    ∧ operations (w_store w) !! b_OperationID batch = Some operation
    ∧ barrier_outcome operation batch js operation1 batch1 events captured
    ∧ batches (w_store w') !! TrimSpace id = Some (cloneBatch (stamp_batch_change (cloneBatch batch) batch1 now))
    ∧ operations (w_store w') !! b_OperationID batch
        = Some (cloneOperation (stamp_operation_change (cloneOperation operation) operation1 now))
    ∧ br_Terminal r = br_Terminal (default zeroBarrierResult captured)
    ∧ br_EventCreated r = br_EventCreated (default zeroBarrierResult captured)
    ∧ Forall (fun e => is_Some (outboxByKey (w_store w') !! TrimSpace (e_IdempotencyKey e)))
        ((fun e => fillWorkflowEvent e (stamp_operation_change (cloneOperation operation) operation1 now)
                     (stamp_batch_change (cloneBatch batch) batch1 now) js) <$> events)
    ∧ (events = [] → outbox (w_store w') = outbox (w_store w) ∧ outboxByKey (w_store w') = outboxByKey (w_store w)).
Proof.
  intros Hwf E. pose proof (TryFinalize_cases id w) as Hc. rewrite E in Hc.
  inversion Hc as [|batch operation operation1 batch1 events captured now s1 ? ? bid js Hb Ho Hout batch2 operation2
    Ha Hw Ht He _]; subst; clear Hc.
  exists batch, operation, operation1, batch1, events, captured, now. cbv zeta. fold js.
  destruct (outcome_keeps _ _ _ _ _ _ _ Hout) as ((O1 & _) & B1 & _).
  destruct (sw_batch _ Hwf _ _ Hb) as (Bid & _). destruct (sw_operation _ Hwf _ _ Ho) as (Oid & _).
  destruct (stamp_batch_change_keeps (cloneBatch batch) batch1 now) as (SB1 & _).
  destruct (stamp_operation_change_keeps (cloneOperation operation) operation1 now) as (SO1 & _).
  fold batch2 in SB1. fold operation2 in SO1.
  split; [done|]. split; [done|]. split; [exact Hout|]. rewrite Hw. cbn.
  rewrite SB1, B1, Bid, SO1, O1, Oid, !lookup_insert_eq.
  split; [done|]. split; [done|]. split; [done|]. split; [done|]. split; [exact (ap_keys _ _ _ Ha)|].
  intros ->. apply appended_nil_inv; [apply Hwf|exact Ha].
Qed.

(** C4. A batch is finalized only when it may be: whenever the barrier creates
    the terminal event, every job of the batch is terminal with its charge
    settled, and in the same step the batch is stored terminal with the cost of
    its jobs, the operation with the matching status, and the event's key is
    bound in the outbox. *)
Theorem barrier_finalizes_only_settled id w r w' :
  store_wf (w_store w) → TryFinalize id w = (Ok r, w') → br_EventCreated r = true →
  Forall job_settled (batch_jobs (w_store w) (TrimSpace id))
  ∧ ∃ batch operation, batches (w_store w') !! TrimSpace id = Some batch
    ∧ operations (w_store w') !! b_OperationID batch = Some operation
    ∧ IsTerminalBatchStatus (b_Status batch) = true
    ∧ o_Status operation = operationStatusForBatch (b_Status batch)
    ∧ b_Cost batch = aggregateCost (batch_jobs (w_store w) (TrimSpace id))
    ∧ is_Some (outboxByKey (w_store w') !! ("batch:" +:+ TrimSpace id +:+ ":terminal")).
Proof.
  intros Hwf E Hev.
  destruct (TryFinalize_stored _ _ _ _ Hwf E) as (batch & operation & operation1 & batch1 & events & captured & now &
    Hb & Ho & Hout & Hb' & Ho' & _ & Hcap & Hkeys & _).
  rewrite Hev in Hcap. destruct (sw_batch _ Hwf _ _ Hb) as (Bid & _).
  destruct (outcome_created _ _ _ _ _ _ _ Hout (eq_sym Hcap)) as (Hset & Hterm & Hos & Hcost & p & ->).
  destruct (outcome_keeps _ _ _ _ _ _ _ Hout) as (_ & B1 & B2). split; [exact Hset|].
  set (batch2 := stamp_batch_change (cloneBatch batch) batch1 now) in *.
  set (operation2 := stamp_operation_change (cloneOperation operation) operation1 now) in *.
  destruct (stamp_batch_change_keeps (cloneBatch batch) batch1 now) as (SB1 & SB2 & SB3).
  destruct (stamp_operation_change_keeps (cloneOperation operation) operation1 now) as (_ & _ & _ & SO).
  pose proof (stamp_batch_change_cost (cloneBatch batch) batch1 now) as SC.
  fold batch2 in SB1, SB2, SB3, SC. fold operation2 in SO. clearbody batch2 operation2.
  exists (cloneBatch batch2), (cloneOperation operation2). cbn. rewrite SB2, B2, SB3, SO.
  split; [exact Hb'|]. split; [exact Ho'|]. split; [exact Hterm|]. split; [exact Hos|]. split.
  { rewrite <-Hcost, <-SC. by destruct (b_Cost batch2). }
  apply Forall_inv in Hkeys. rewrite fill_terminal_key, TrimSpace_firm in Hkeys by reflexivity.
  rewrite B1, Bid in Hkeys. exact Hkeys.
Qed.

Lemma run_local_keeps {L} (l : L) (transaction : BatchTransaction (X := X * L)) :
  transaction_keeps transaction → transaction_keeps (run_local l transaction).
Proof.
  intros Hk o b js v o' b' js' events v'. unfold run_local.
  destruct (transaction o b js (add_local l v)) as [r v1] eqn:E. intros [= -> <-]. by eapply Hk.
Qed.

(** Finalization moves the store by one transaction. *)
Lemma TryFinalize_steps id w r w' : TryFinalize id w = (r, w') → rtc store_step w w'.
Proof.
  unfold TryFinalize, with_local. cbn [bind].
  pose proof (TransactBatch_local id barrier_transaction zeroBarrierResult w) as Hl. unfold add_local in Hl.
  destruct (TransactBatch id barrier_transaction _) as [r0 wl]. intros E.
  assert (store_step w (drop_world wl)) as Hs.
  { eapply step_transact; [|exact Hl]. apply run_local_keeps, barrier_transaction_keeps. }
  apply rtc_l with (drop_world wl); [done|]. unfold drop_world, drop_env in *. cbn [fst snd] in E.
  destruct r0 as [agg|err]; [|injection E as <- <-; apply rtc_refl].
  destruct (_ && _); injection E as <- <-; [|apply rtc_refl].
  apply rtc_once. apply (step_env (mkWorld _ _)).
Qed.

(** Nothing happens to a batch that is terminal. *)
Lemma TryFinalize_terminal id w batch :
  store_wf (w_store w) → batches (w_store w) !! TrimSpace id = Some batch →
  IsTerminalBatchStatus (b_Status batch) = true →
  ∃ r w', TryFinalize id w = (Ok r, w') ∧ br_Terminal r = true ∧ br_EventCreated r = false
    ∧ outbox (w_store w') = outbox (w_store w) ∧ outboxByKey (w_store w') = outboxByKey (w_store w).
Proof.
  intros Hwf Hb Ht. destruct (TryFinalize id w) as [[r|err] w'] eqn:E.
  - exists r, w'. split; [done|].
    destruct (TryFinalize_stored _ _ _ _ Hwf E) as (b2 & operation & operation1 & batch1 & events & captured & now &
      Hb2 & Ho & Hout & _ & _ & H1 & H2 & _ & Hnil).
    assert (b2 = batch) as -> by congruence. rewrite H1, H2.
    inversion Hout; subst; [|congruence|congruence]. split; [done|]. split; [done|]. by apply Hnil.
  - exfalso. destruct (sw_batch _ Hwf _ _ Hb) as (_ & _ & _ & operation & Ho & _).
    revert E. unfold TryFinalize, with_local, TransactBatch. cbn [bind get_store w_store]. rewrite Hb, Ho.
    unfold lift_env, barrier_transaction. rewrite Ht. cbn [bind bind_ok clock set_local ret w_env fst snd].
    unfold status_change. rewrite !bool_decide_true by done. cbn [check].
    fold (batch_jobs (w_store w) (TrimSpace id)). rewrite ensure_lifecycle_same.
    assert (jobs_transition (cloneJob <$> batch_jobs (w_store w) (TrimSpace id)) (batch_jobs (w_store w) (TrimSpace id)) = None) as ->.
    { induction (batch_jobs _ _) as [|j js IH]; [done|]. rewrite fmap_cons. cbn [jobs_transition].
      unfold status_change. by rewrite bool_decide_true. }
    cbn. destruct (bool_decide _); done.
Qed.

(** C5. A batch is finalized exactly once: after the barrier has reported a
    terminal batch, whatever runs in between, it reports the batch terminal
    again, creates no second terminal event and leaves the outbox as it is. *)
Theorem batch_finalized_once id w r w1 w2 res w3 :
  store_wf (w_store w) → TryFinalize id w = (Ok r, w1) → br_Terminal r = true →
  rtc store_step w1 w2 → TryFinalize id w2 = (res, w3) →
  ∃ r', res = Ok r' ∧ br_Terminal r' = true ∧ br_EventCreated r' = false
    ∧ outbox (w_store w3) = outbox (w_store w2) ∧ outboxByKey (w_store w3) = outboxByKey (w_store w2).
Proof.
  intros Hwf E Ht Hr E2.
  destruct (TryFinalize_stored _ _ _ _ Hwf E) as (batch & operation & operation1 & batch1 & events & captured & now &
    Hb & Ho & Hout & Hb' & _ & Hcap & _).
  assert (IsTerminalBatchStatus (b_Status batch1) = true) as Hterm.
  { rewrite Ht in Hcap. inversion Hout; subst; [done|done|apply terminal_status_terminal]. }
  destruct (run_evolves _ _ Hwf (TryFinalize_steps _ _ _ _ E)) as [Hwf1 _].
  destruct (run_evolves _ _ Hwf1 Hr) as [Hwf2 [_ Hev _ _ _ _]].
  destruct (Hev _ _ Hb') as (b2 & Hb2 & Hmove).
  destruct (stamp_batch_change_keeps (cloneBatch batch) batch1 now) as (_ & _ & SB3).
  assert (IsTerminalBatchStatus (b_Status b2) = true) as Ht2.
  { cbn in Hmove. rewrite SB3 in Hmove.
    assert (b_Status b2 = b_Status batch1) as -> by (eapply rtc_absorbing; [apply batch_terminal_stays|done|done]). done. }
  destruct (TryFinalize_terminal id w2 b2 Hwf2 Hb2 Ht2) as (r' & w3' & E3 & H1 & H2 & H3 & H4).
  rewrite E2 in E3. injection E3 as -> ->. by exists r'.
Qed.

(** A batch the runtime may finalize: open, and cancelling only on request. *)
Definition batch_open (batch : GenerationBatch) : Prop :=
  b_Status batch ∈ [BatchStatusWaitingJobs; BatchStatusFinalizing; BatchStatusCancelling]
  ∧ (b_Status batch = BatchStatusCancelling → b_CancelRequested batch = true).

Lemma terminal_status_valid batch batch' js :
  batch_open batch → b_CancelRequested batch' = b_CancelRequested batch →
  ValidateBatchTransition (b_Status batch) (terminal_status batch' js) = None.
Proof.
  intros [Hin Hc] E. unfold terminal_status, evaluateCompletionPolicy. rewrite E.
  rewrite !elem_of_cons, elem_of_nil in Hin.
  destruct Hin as [Hs|[Hs|[Hs|[]]]]; rewrite Hs in *; [| |rewrite (Hc eq_refl)];
    repeat case_match; reflexivity.
Qed.

Lemma operation_status_valid status batchStatus :
  status ∈ [OperationStatusAccepted; OperationStatusWaitingJobs] →
  ValidateOperationTransition status (operationStatusForBatch batchStatus) = None.
Proof.
  rewrite !elem_of_cons, elem_of_nil. unfold operationStatusForBatch.
  intros [->|[->|[]]]; repeat case_match; reflexivity.
Qed.

Lemma barrier_transaction_settled operation batch js (v : env (X * BarrierResult)) :
  IsTerminalBatchStatus (b_Status batch) = false → Forall job_settled js →
  ∃ operation' batch' p v', barrier_transaction operation batch js v
      = (Ok (operation', batch', js, [terminal_event batch' p]), v')
    ∧ env_ids v' = env_ids v
    ∧ b_ID batch' = b_ID batch ∧ b_Status batch' = terminal_status (recountBatch batch js) js
    ∧ o_Status operation' = operationStatusForBatch (b_Status batch')
    ∧ (env_ext v').2 = mkBarrierResult true true p.
Proof.
  intros Ht [Hterm Hset]%Forall_and. unfold barrier_transaction. rewrite Ht. cbv zeta.
  assert (existsb (fun job => negb (IsTerminalJobStatus (j_Status job))) js = false) as ->.
  { apply not_true_is_false. intros (job & Hin & Hj)%existsb_exists. rewrite Forall_forall in Hterm.
    rewrite (Hterm job) in Hj; [done|by apply list_elem_of_In]. }
  rewrite (proj2 (compensation_settled_true js) Hset).
  destruct (recountBatch_keeps batch js) as (K1 & _).
  cbn [bind clock set_local ret]. do 4 eexists. split; [reflexivity|]. split; [reflexivity|].
  split; [exact K1|]. split; [reflexivity|]. split; reflexivity.
Qed.

(** The barrier never strands a settled batch: when every job is terminal
    with its charge settled, an open batch of an open operation is finalized,
    whatever its completion policy and whether or not cancellation was asked
    for; no transition it computes is refused by the state machine. *)
Theorem barrier_finalizes_when_settled id w batch operation :
  store_wf (w_store w) →
  batches (w_store w) !! TrimSpace id = Some batch → batch_open batch →
  operations (w_store w) !! b_OperationID batch = Some operation →
  o_Status operation ∈ [OperationStatusAccepted; OperationStatusWaitingJobs] →
  Forall job_settled (batch_jobs (w_store w) (TrimSpace id)) →
  outbox (w_store w) !! fresh_id (env_ids (w_env w)) = None →
  ∃ r w', TryFinalize id w = (Ok r, w') ∧ br_Terminal r = true ∧ br_EventCreated r = true.
Proof.
  intros Hwf Hb Hopen Ho Hos Hset Hfresh.
  assert (IsTerminalBatchStatus (b_Status batch) = false) as Hnt.
  { destruct Hopen as [Hin _]. rewrite !elem_of_cons, elem_of_nil in Hin.
    destruct Hin as [->|[->|[->|[]]]]; reflexivity. }
  unfold TryFinalize, with_local, TransactBatch. cbn [bind get_store w_store]. rewrite Hb, Ho.
  fold (batch_jobs (w_store w) (TrimSpace id)). set (js := batch_jobs (w_store w) (TrimSpace id)) in *.
  unfold lift_env at 1. cbn [bind_ok w_env].
  destruct (barrier_transaction_settled operation batch js
    (mkEnv (env_reads (w_env w)) (env_ids (w_env w)) (env_ext (w_env w), zeroBarrierResult)) Hnt Hset)
    as (operation' & batch' & p & v & -> & Hids & Bid & Bst & Ost & Hcap).
  rewrite ensure_lifecycle_same. unfold status_change.
  change (b_Status (cloneBatch batch)) with (b_Status batch).
  change (o_Status (cloneOperation operation)) with (o_Status operation).
  rewrite Bst, terminal_status_valid by (done || apply recountBatch_keeps).
  rewrite Ost, operation_status_valid by done.
  replace (jobs_transition (cloneJob <$> js) js) with (@None error).
  2: { clear. induction js as [|j js IH]; [done|]. rewrite fmap_cons. cbn [jobs_transition].
       unfold status_change. by rewrite bool_decide_true. }
  assert (∀ b : bool, (if b then @None error else None) = None) as Hif by (by intros []).
  rewrite !Hif. cbn [check bind s_clock lift_env clock bind_ok w_store w_env].
  match goal with |- context [appendOutboxBatchLocked (?f <$> [?e]) ?w1] =>
    destruct (append_one_succeeds (f e) w1) as [w2 Ha] end.
  - rewrite fill_terminal_key, TrimSpace_firm by reflexivity. done.
  - reflexivity.
  - cbn. rewrite Hids. exact Hfresh.
  - match goal with |- context [appendOutboxBatchLocked ?ev ?w1] =>
      change (appendOutboxBatchLocked ev w1 = (Ok tt, w2)) in Ha; rewrite Ha end.
    pose proof (appendOutboxBatchLocked_ext _ _ _ _ Ha) as Hext. cbn in Hext.
    cbn [bind get_store put_store ret fst snd w_env w_store]. rewrite Hext, Hcap. cbn.
    destruct (bool_decide _); do 2 eexists; (split; [reflexivity|]); split; reflexivity.
Qed.

(** ** Cancellation *)

Lemma cancel_job_keeps job : keeps_job job (cancel_job job).
Proof. unfold cancel_job. destruct (IsTerminalJobStatus _); [done|]. by destruct (_ && _). Qed.

Lemma cancel_transaction_keeps : transaction_keeps (X := X) cancel_transaction.
Proof.
  intros o b js v o' b' js' events v'. unfold cancel_transaction.
  assert (Forall2 keeps_job js js) by (induction js; constructor; done).
  destruct (IsTerminalBatchStatus _); [by intros [= <- <- <- <- <-]|].
  destruct (b_CancelRequested b); [by intros [= <- <- <- <- <-]|].
  cbn. intros [= <- <- <- <- <-]. split; [done|]. split; [done|].
  clear. induction js as [|j js IH]; [constructor|]. rewrite fmap_cons. constructor; [apply cancel_job_keeps|done].
Qed.

Lemma CancelBatch_steps id w r w' : CancelBatch id w = (r, w') → rtc store_step w w'.
Proof. intros E. apply rtc_once. eapply step_transact; [apply cancel_transaction_keeps|exact E]. Qed.

Lemma stamp_batch_change_cancel b b' now :
  b_CancelRequested (stamp_batch_change b b' now) = b_CancelRequested b'.
Proof. unfold stamp_batch_change. by destruct (equalJSON _ _ _). Qed.

Lemma stamp_job_change_cancel now b b' :
  j_CancelRequested (stamp_job_change now b b') = j_CancelRequested b'.
Proof. unfold stamp_job_change. by destruct (equalJSON _ _ _). Qed.

(** What is asked of one job by a cancellation. *)
Definition cancelled_as (j j' : GenerationJob) : Prop :=
  if IsTerminalJobStatus (j_Status j) then j_Status j' = j_Status j ∧ j_CancelRequested j' = j_CancelRequested j
  else j_CancelRequested j' = true
       ∧ j_Status j' = (if bool_decide (j_Status j = StatusQueued) && blank (j_ProviderTaskID j)
                        then StatusCancelled else j_Status j).

Lemma cancel_job_as j j' :
  j_Status j' = j_Status (cancel_job j) → j_CancelRequested j' = j_CancelRequested (cancel_job j) → cancelled_as j j'.
Proof.
  unfold cancelled_as, cancel_job. destruct (IsTerminalJobStatus (j_Status j)); [done|]. cbn.
  by destruct (_ && _).
Qed.

Lemma appended_fill_bound s s1 o b js events e :
  appended s ((fun e => fillWorkflowEvent e o b js) <$> events) s1 → e ∈ events →
  is_Some (outboxByKey s1 !! TrimSpace (e_IdempotencyKey (fillWorkflowEvent e o b js))).
Proof.
  intros Ha Hin. pose proof (ap_keys _ _ _ Ha) as Hk. rewrite Forall_forall in Hk.
  apply Hk. apply list_elem_of_fmap. by exists e.
Qed.

Lemma cancel_job_clone j :
  j_Status (cancel_job (cloneJob j)) = j_Status (cancel_job j)
  ∧ j_CancelRequested (cancel_job (cloneJob j)) = j_CancelRequested (cancel_job j).
Proof.
  unfold cancel_job. change (j_Status (cloneJob j)) with (j_Status j).
  destruct (IsTerminalJobStatus (j_Status j)); [done|]. cbn. by destruct (_ && _).
Qed.

Lemma cancelled_as_clone j x : cancelled_as j x → cancelled_as j (cloneJob x).
Proof. done. Qed.

Lemma cancelled_stamped now b j : cancelled_as j (cloneJob (stamp_job_change now b (cancel_job (cloneJob j)))).
Proof.
  apply cancelled_as_clone. destruct (cancel_job_clone j) as [C1 C2].
  destruct (stamp_job_change_keeps now b (cancel_job (cloneJob j))) as (_ & _ & S1).
  apply cancel_job_as; [by rewrite S1|]. by rewrite stamp_job_change_cancel.
Qed.

Lemma ensure_lifecycle_grows events before after e :
  e ∈ events → e ∈ ensure_lifecycle_events events before after.
Proof.
  revert events after. induction before as [|b before IH]; intros events [|a after] He; cbn; try done.
  apply IH. unfold ensureJobLifecycleEvent. destruct (_ && _); [done|]. destruct (negb _); [done|].
  destruct (existsb _ _); [done|]. apply elem_of_app. by left.
Qed.

Lemma fill_job_cancel_key job o b js :
  e_IdempotencyKey (fillWorkflowEvent (job_cancel_event job) o b js) = "job:" +:+ j_ID job +:+ ":cancel-requested".
Proof.
  unfold fillWorkflowEvent. cbv zeta. destruct (bool_decide _); [reflexivity|].
  destruct (List.find _ _); [apply fillJobEvent_key|reflexivity].
Qed.

Lemma cancel_transaction_open o b js (v : env X) o' b' js' events v' :
  IsTerminalBatchStatus (b_Status b) = false → b_CancelRequested b = false →
  cancel_transaction o b js v = (Ok (o', b', js', events), v') →
  js' = cancel_job <$> js ∧ b_ID b' = b_ID b ∧ b_CancelRequested b' = true ∧ b_Status b' = BatchStatusCancelling
  ∧ ∀ j, j ∈ js → IsTerminalJobStatus (j_Status j) = false → job_cancel_event j ∈ events.
Proof.
  intros Hnt Hnc. unfold cancel_transaction. rewrite Hnt, Hnc. cbn [bind clock ret]. intros [= _ <- <- <- _].
  repeat split. intros j Hj Hopen. right. apply elem_of_app. left. apply list_elem_of_fmap. exists j.
  split; [done|]. apply list_elem_of_In, filter_In. split; [by apply list_elem_of_In|by rewrite Hopen].
Qed.

(** Cancelling an open batch reaches every one of its jobs in one step: the
    request is recorded on the batch and on each job that is not terminal, jobs
    that have not left the queue end cancelled, terminal jobs are left alone,
    and each open job's worker is told through the outbox. *)
Theorem cancel_reaches_every_job id w batch agg w' i jid :
  store_wf (w_store w) → batches (w_store w) !! TrimSpace id = Some batch →
  IsTerminalBatchStatus (b_Status batch) = false → b_CancelRequested batch = false →
  CancelBatch id w = (Ok agg, w') →
  default [] (jobIDsByBatch (w_store w) !! TrimSpace id) !! i = Some jid →
  ∃ batch' j j', batches (w_store w') !! TrimSpace id = Some batch'
    ∧ b_CancelRequested batch' = true ∧ b_Status batch' = BatchStatusCancelling
    ∧ jobs (w_store w) !! jid = Some j ∧ jobs (w_store w') !! jid = Some j' ∧ cancelled_as j j'
    ∧ (IsTerminalJobStatus (j_Status j) = false →
       is_Some (outboxByKey (w_store w') !! ("job:" +:+ jid +:+ ":cancel-requested"))).
Proof.
  intros Hwf Hb Hnt Hnc E Hi. unfold CancelBatch in E.
  pose proof (TransactBatch_cases id cancel_transaction w) as Hc. rewrite E in Hc.
  inversion Hc as [|b2 operation operation1 batch1 js1 events v now s1 s2 w1 bid js
    Hb2 Ho Ht _ _ _ batch2 operation2 js2 Ha Hs2 Hw _]; subst; clear Hc.
  unfold bid in *. assert (b2 = batch) as -> by congruence.
  apply cancel_transaction_open in Ht as (-> & B1 & B2 & B3 & Hev); [|done|done].
  destruct (batch_jobs_lookup _ _ _ _ Hwf Hi) as (j & Hj & _ & Hjs). fold js in Hjs.
  destruct (sw_job _ Hwf _ _ Hj) as (Jid & _). destruct (sw_batch _ Hwf _ _ Hb) as (Bid & _).
  destruct (stamp_batch_change_keeps (cloneBatch batch) batch1 now) as (SB1 & _ & SB3).
  pose proof (stamp_batch_change_cancel (cloneBatch batch) batch1 now) as SB2.
  fold batch2 in SB1, SB2, SB3.
  set (j2 := stamp_job_change now (cloneJob (cloneJob j)) (cancel_job (cloneJob j))).
  assert (js2 !! i = Some j2) as Hj2.
  { unfold js2. rewrite lookup_zip_with, !list_lookup_fmap, Hjs. reflexivity. }
  clearbody batch2 operation2 js2.
  assert (batches (w_store w') = <[TrimSpace id := cloneBatch batch2]> (batches s1)) as Hbs
    by (rewrite Hw; cbn; by rewrite SB1, B1, Bid).
  assert (jobs (w_store w') = store_jobs (jobs s1) (default [] (jobIDsByBatch (w_store w) !! TrimSpace id)) js2) as Hjobs
    by (by rewrite Hw).
  assert (outboxByKey (w_store w') = outboxByKey s1) as Hkeys by (by rewrite Hw).
  exists (cloneBatch batch2), j, (cloneJob j2). rewrite Hbs, Hjobs, Hkeys, lookup_insert_eq.
  split; [done|]. split; [exact (eq_trans SB2 B2)|]. split; [exact (eq_trans SB3 B3)|]. split; [done|]. split.
  { eapply store_jobs_lookup; [by apply batch_ids_NoDup|exact Hi|exact Hj2]. }
  clear Hw Hbs Hjobs Hkeys E. split.
  { apply cancelled_stamped. }
  intros Hopen. assert (job_cancel_event (cloneJob j) ∈ events) as Hin.
  { apply Hev; [by eapply list_elem_of_lookup_2|exact Hopen]. }
  apply (ensure_lifecycle_grows _ (cloneJob <$> js) (cancel_job <$> js)) in Hin.
  pose proof (appended_fill_bound _ _ _ _ _ _ _ Ha Hin) as Hk.
  rewrite fill_job_cancel_key, TrimSpace_firm in Hk by reflexivity.
  assert (j_ID (cloneJob j) = jid) as Ej by exact Jid. by rewrite Ej in Hk.
Qed.
End barrier_facts.

(** ** The sample batch, cancelled and then finalized *)

Module BarrierSample.
Definition cancelled : world unit := (CancelBatch (H:=Sample.runtime) "batch-1" Sample.world1).2.
Definition finalized : world unit := (TryFinalize (H:=Sample.runtime) "batch-1" cancelled).2.

Lemma cancelled_ok : ∃ agg, CancelBatch (H:=Sample.runtime) "batch-1" Sample.world1 = (Ok agg, cancelled).
Proof.
  unfold cancelled.
  assert (match (CancelBatch (H:=Sample.runtime) "batch-1" Sample.world1).1 with Ok _ => True | Err _ => False end)
    as Hok by (vm_compute; exact I).
  destruct (CancelBatch "batch-1" Sample.world1) as [[agg|err] w]; [by exists agg|done].
Qed.

Lemma cancelled_run : rtc (store_step (H:=Sample.runtime)) Sample.world1 cancelled.
Proof.
  destruct cancelled_ok as [agg E]. exact (CancelBatch_steps (H:=Sample.runtime) _ _ _ _ E).
Qed.

Lemma cancelled_wf : store_wf (w_store cancelled).
Proof. exact (proj1 (run_evolves (H:=Sample.runtime) _ _ sample_wf cancelled_run)). Qed.

Lemma finalized_ok : ∃ r, TryFinalize (H:=Sample.runtime) "batch-1" cancelled = (Ok r, finalized)
  ∧ br_Terminal r = true ∧ br_EventCreated r = true.
Proof.
  unfold finalized.
  assert (match (TryFinalize (H:=Sample.runtime) "batch-1" cancelled).1 with
          | Ok r => br_Terminal r = true ∧ br_EventCreated r = true | Err _ => False end)
    as Hok by (vm_compute; split; reflexivity).
  destruct (TryFinalize "batch-1" cancelled) as [[r|err] w]; [by exists r|done].
Qed.
End BarrierSample.

Lemma barrier_finalizes_only_settled_witness :
  ∃ r, TryFinalize (H:=Sample.runtime) "batch-1" BarrierSample.cancelled = (Ok r, BarrierSample.finalized)
  ∧ Forall job_settled (batch_jobs (w_store BarrierSample.cancelled) (TrimSpace "batch-1")).
Proof.
  destruct BarrierSample.finalized_ok as (r & Hr & _ & Hev). exists r. split; [exact Hr|].
  exact (proj1 (barrier_finalizes_only_settled (H:=Sample.runtime) _ _ _ _ BarrierSample.cancelled_wf Hr Hev)).
Defined.

Lemma batch_finalized_once_witness :
  ∃ res w3, TryFinalize (H:=Sample.runtime) "batch-1" BarrierSample.finalized = (res, w3)
  ∧ ∃ r', res = Ok r' ∧ br_Terminal r' = true ∧ br_EventCreated r' = false
    ∧ outbox (w_store w3) = outbox (w_store BarrierSample.finalized)
    ∧ outboxByKey (w_store w3) = outboxByKey (w_store BarrierSample.finalized).
Proof.
  destruct BarrierSample.finalized_ok as (r & Hr & Ht & _).
  destruct (TryFinalize (H:=Sample.runtime) "batch-1" BarrierSample.finalized) as [res w3] eqn:E.
  exists res, w3. split; [reflexivity|].
  exact (batch_finalized_once (H:=Sample.runtime) "batch-1" _ r _ _ res w3 BarrierSample.cancelled_wf Hr Ht (rtc_refl _ _) E).
Defined.

Lemma barrier_finalizes_when_settled_witness :
  ∃ r w', TryFinalize (H:=Sample.runtime) "batch-1" BarrierSample.cancelled = (Ok r, w')
  ∧ br_Terminal r = true ∧ br_EventCreated r = true.
Proof.
  assert (∃ batch, batches (w_store BarrierSample.cancelled) !! TrimSpace "batch-1" = Some batch
    ∧ b_Status batch = BatchStatusCancelling ∧ b_CancelRequested batch = true
    ∧ b_OperationID batch = "op-1") as (batch & Hb & Hs & Hc & Hop)
    by (vm_compute; eexists; split; [reflexivity|]; repeat split).
  assert (∃ operation, operations (w_store BarrierSample.cancelled) !! "op-1" = Some operation
    ∧ o_Status operation = OperationStatusWaitingJobs) as (operation & Ho & Hos)
    by (vm_compute; eexists; split; [reflexivity|]; repeat split).
  refine (barrier_finalizes_when_settled (H:=Sample.runtime) "batch-1" BarrierSample.cancelled batch operation
    BarrierSample.cancelled_wf Hb _ _ _ _ _).
  - split; [rewrite Hs; right; right; left|intros _; exact Hc].
  - rewrite Hop. exact Ho.
  - rewrite Hos. right. left.
  - apply (bool_decide_unpack _). vm_compute. exact I.
  - vm_compute. reflexivity.
Defined.

Lemma cancel_reaches_every_job_witness :
  ∃ batch' j j', batches (w_store BarrierSample.cancelled) !! TrimSpace "batch-1" = Some batch'
    ∧ b_CancelRequested batch' = true
    ∧ jobs (w_store Sample.world1) !! "job-2" = Some j ∧ jobs (w_store BarrierSample.cancelled) !! "job-2" = Some j'
    ∧ cancelled_as j j'.
Proof.
  destruct BarrierSample.cancelled_ok as [agg Hagg].
  assert (∃ batch, batches (w_store Sample.world1) !! TrimSpace "batch-1" = Some batch
    ∧ IsTerminalBatchStatus (b_Status batch) = false ∧ b_CancelRequested batch = false) as (batch & Hb & Hs & Hc)
    by (vm_compute; eexists; split; [reflexivity|]; repeat split).
  assert (default [] (jobIDsByBatch (w_store Sample.world1) !! TrimSpace "batch-1") !! 1%nat = Some "job-2") as Hi
    by (vm_compute; reflexivity).
  destruct (cancel_reaches_every_job (H:=Sample.runtime) _ _ _ _ _ _ _ sample_wf Hb Hs Hc Hagg Hi)
    as (b' & j & j' & H1 & H2 & _ & H3 & H4 & H5 & _).
  exists b', j, j'. split; [exact H1|]. split; [exact H2|]. split; [exact H3|]. split; [exact H4|exact H5].
Defined.
