(* ===== verification/ProviderPolicy.v ===== *)
(** * Provider policy and execution errors

    [internal/aigc/generation/provider_policy.go]: the checks on the parameters
    of a provider call and the classification of failures; and the
    [ExecutionError] of [finalization.go]. *)

From Stdlib Require Import ZArith Lia Ascii.
From S2P Require Import Prelude GoJson GenModels WorkflowStore.

Definition ErrorStageProvider := "provider".
Definition ErrorStageArtifact := "artifact".
Definition ErrorStageBilling := "billing".
Definition ErrorStageBinding := "storyboard_bind".

Definition ErrorResultSuperseded := "result_superseded".
Definition ErrorTargetOrphaned := "target_orphaned".
Definition ErrorBindingConflictAfterCharge := "binding_conflict_after_charge".
Definition ErrorBillingRejected := "billing_rejected".
Definition ErrorFinalizeFailed := "finalize_failed".

(** ** Execution errors *)

(** [&ExecutionError{...}] around an error: the text is the cause's and
    [Unwrap] leads to it. *)
Definition NewExecutionError (stage code : string) (retryable : bool) (cause : error) : error :=
  mkError (err_text cause) (err_is cause) (Some (mkExec stage code retryable)).

Definition permanentMarkers : list string :=
  [" is required"; "required for"; "not configured"; "not registered"; "unsupported"; "invalid ";
   "must be "; "api key"; "unauthorized"; "forbidden"; "bad request";
   " 400"; "status 400"; " 401"; "status 401"; " 403"; "status 403";
   " 404"; "status 404"; " 405"; "status 405"; " 413"; "status 413";
   " 422"; "status 422"].

Definition ProviderErrorRetryable (err : error) : bool :=
  match err_exec err with
  | Some execution => exec_retryable execution
  | None => let message := ToLower (err_text err) in
            negb (existsb (fun marker => Contains message marker) permanentMarkers)
  end.

Definition classifyExecutionError (err : error) (defaultStage defaultCode : string) : string * string * bool :=
  match err_exec err with
  | Some execution =>
      (valueOrDefault (exec_stage execution) defaultStage, valueOrDefault (exec_code execution) defaultCode,
       exec_retryable execution)
  | None => (defaultStage, defaultCode, ProviderErrorRetryable err)
  end.

(** ** Provider parameters *)

Definition DefaultImageModel := "gpt-image-2".
Definition MaxImageOutputVariants : Z := 4.
Definition DefaultVideoModel := "doubao-seedance-2-0-fast-260128".
Definition MaxVideoDurationSeconds : Z := 30.
Definition MaxVideoFramesPerSecond : Z := 60.
Definition MaxProviderPromptRunes : Z := 20000.

Definition allowedImageModels : list string := [DefaultImageModel].
Definition allowedImageSizes : list string := ["1024x1024"; "1024x1536"; "1536x1024"].
Definition allowedVideoModels : list string := [DefaultVideoModel; "doubao-seedance-2-0-260128"].
Definition allowedVideoRatios : list string := ["16:9"; "9:16"; "1:1"; "4:3"; "3:4"; "21:9"].
Definition allowedVideoResolutions : list string := ["480p"; "720p"; "1080p"].

(** The integer a value holds.  A float is taken when it is integral and within
    [int64]; outside that range Go leaves the conversion to the machine, and the
    comparison that follows rejects the result (as on amd64). *)
Definition boundedInteger (value : option any) (fallback : Z) : result Z :=
  match value with
  | None | Some ANil => Ok fallback
  | Some (AInt z) => Ok z
  | Some (AFloat m e) =>
      let integral := if 0 <=? e then true else (m mod 2 ^ (- e) =? 0) in
      let v := if 0 <=? e then m * 2 ^ e else m / 2 ^ (- e) in
      if integral && (int64_min <=? v) && (v <=? int64_max) then Ok v else Err (Errorf "not an integer")
  | Some (ABool _) => Err (Errorf "unsupported integer type bool")
  | Some (AStr _) => Err (Errorf "unsupported integer type string")
  | Some (ATime _) => Err (Errorf "unsupported integer type time.Time")
  | Some (AArr _) => Err (Errorf "unsupported integer type []interface {}")
  | Some (AObj _) => Err (Errorf "unsupported integer type map[string]interface {}")
  end.

(** [len([]rune(s))]: bytes that start no valid UTF-8 sequence count one each. *)
Definition byte_in (lo hi : nat) (l : list ascii) : bool :=
  match l with a :: _ => (lo <=? nat_of_ascii a)%nat && (nat_of_ascii a <=? hi)%nat | [] => false end.

Definition cont (l : list ascii) : bool := byte_in 0x80 0xBF l.

Definition rune_size (a : ascii) (l : list ascii) : nat :=
  let n := nat_of_ascii a in
  let l2 := tail l in
  let l3 := tail l2 in
  if byte_in 0xC2 0xDF [a] && cont l then 2%nat
  else if ((n =? 0xE0)%nat && byte_in 0xA0 0xBF l || byte_in 0xE1 0xEC [a] && cont l
           || (n =? 0xED)%nat && byte_in 0x80 0x9F l || byte_in 0xEE 0xEF [a] && cont l) && cont l2 then 3%nat
  else if ((n =? 0xF0)%nat && byte_in 0x90 0xBF l || byte_in 0xF1 0xF3 [a] && cont l
           || (n =? 0xF4)%nat && byte_in 0x80 0x8F l) && cont l2 && cont l3 then 4%nat
  else 1%nat.

Fixpoint rune_count_from (skip : nat) (l : list ascii) : nat :=
  match l with
  | [] => 0%nat
  | a :: l' =>
      match skip with
      | S skip' => rune_count_from skip' l'
      | O => S (rune_count_from (pred (rune_size a l')) l')
      end
  end.

Definition rune_count (s : string) : Z := Z.of_nat (rune_count_from 0 (String.list_ascii_of_string s)).

Section policy.
Context `{Formatting}.

Definition stringValue (value : option any) : string :=
  match value with
  | None | Some ANil => ""
  | Some v => TrimSpace (Sprint v)
  end.

Definition outside (lo hi : Z) (r : result Z) : bool :=
  match r with Ok n => (n <? lo) || (hi <? n) | Err _ => true end.

Definition ValidateProviderJob (job : GenerationJob) : option error :=
  let field k := go_lookup (j_Payload job) k in
  let prompt := TrimSpace (stringValue (field "prompt")) in
  if (bool_decide (j_Provider job = ProviderImage2) || bool_decide (j_Provider job = ProviderSeedance))
     && bool_decide (prompt = "")
  then Some (Errorf "provider prompt is required")
  else if MaxProviderPromptRunes <? rune_count prompt
  then Some (Errorf ("provider prompt exceeds " +:+ pretty MaxProviderPromptRunes +:+ " characters"))
  else if bool_decide (TrimSpace (j_Provider job) = ProviderImage2)
  then
    let model := valueOrDefault (stringValue (field "model")) DefaultImageModel in
    if negb (bool_decide (model ∈ allowedImageModels))
    then Some (Errorf ("unsupported image model " +:+ Quote model))
    else
    let size := valueOrDefault (stringValue (field "size")) "1024x1024" in
    if negb (bool_decide (size ∈ allowedImageSizes))
    then Some (Errorf ("unsupported image size " +:+ Quote size))
    else if outside 1 MaxImageOutputVariants (boundedInteger (field "n") 1)
    then Some (Errorf ("image output count n must be an integer between 1 and " +:+ pretty MaxImageOutputVariants))
    else None
  else if bool_decide (TrimSpace (j_Provider job) = ProviderSeedance)
  then
    let model := valueOrDefault (stringValue (field "model")) DefaultVideoModel in
    if negb (bool_decide (model ∈ allowedVideoModels))
    then Some (Errorf ("unsupported video model " +:+ Quote model))
    else
    let ratio := stringValue (field "ratio") in
    if negb (bool_decide (ratio = "")) && negb (bool_decide (ratio ∈ allowedVideoRatios))
    then Some (Errorf ("unsupported video ratio " +:+ Quote ratio))
    else
    let resolution := ToLower (stringValue (field "resolution")) in
    if negb (bool_decide (resolution = "")) && negb (bool_decide (resolution ∈ allowedVideoResolutions))
    then Some (Errorf ("unsupported video resolution " +:+ Quote resolution))
    else if outside 0 MaxVideoDurationSeconds (boundedInteger (field "duration_seconds") 0)
    then Some (Errorf ("video duration_seconds must be an integer between 0 and " +:+ pretty MaxVideoDurationSeconds))
    else if outside 0 MaxVideoFramesPerSecond (boundedInteger (field "fps") 0)
    then Some (Errorf ("video fps must be an integer between 0 and " +:+ pretty MaxVideoFramesPerSecond))
    else None
  else None.
End policy.

Definition OutputVariantCount (job : GenerationJob) : Z :=
  if negb (bool_decide (TrimSpace (j_Provider job) = ProviderImage2)) then 1
  else match boundedInteger (go_lookup (j_Payload job) "n") 1 with
       | Ok n => if n <? 1 then 1 else n
       | Err _ => 1
       end.

(** ** What the checks give *)

Lemma outside_false lo hi r : outside lo hi r = false → ∃ n, r = Ok n ∧ lo <= n <= hi.
Proof. destruct r as [n|]; simpl; [|done]. intros H. exists n. split; [done|]. lia. Qed.

(** C40. The trust boundary of provider calls: an image job that passes uses an
    allowed model and size and asks for one to four images, which is the very
    number it is later billed for; a video job that passes uses an allowed model
    and stays within the limits on duration and frame rate; and neither goes out
    without a prompt or with one of more than 20000 characters. *)
Theorem provider_parameters_bounded `{Formatting} job :
  ValidateProviderJob job = None →
  rune_count (TrimSpace (stringValue (go_lookup (j_Payload job) "prompt"))) <= 20000
  ∧ (j_Provider job = ProviderImage2 →
       TrimSpace (stringValue (go_lookup (j_Payload job) "prompt")) ≠ ""
       ∧ valueOrDefault (stringValue (go_lookup (j_Payload job) "model")) DefaultImageModel ∈ allowedImageModels
       ∧ valueOrDefault (stringValue (go_lookup (j_Payload job) "size")) "1024x1024" ∈ allowedImageSizes
       ∧ boundedInteger (go_lookup (j_Payload job) "n") 1 = Ok (OutputVariantCount job)
       ∧ 1 <= OutputVariantCount job <= 4)
  ∧ (j_Provider job = ProviderSeedance →
       TrimSpace (stringValue (go_lookup (j_Payload job) "prompt")) ≠ ""
       ∧ valueOrDefault (stringValue (go_lookup (j_Payload job) "model")) DefaultVideoModel ∈ allowedVideoModels
       ∧ OutputVariantCount job = 1
       ∧ ∃ seconds fps, boundedInteger (go_lookup (j_Payload job) "duration_seconds") 0 = Ok seconds
         ∧ boundedInteger (go_lookup (j_Payload job) "fps") 0 = Ok fps
         ∧ 0 <= seconds <= 30 ∧ 0 <= fps <= 60).
Proof.
  unfold ValidateProviderJob. cbv zeta. set (prompt := TrimSpace (stringValue _)).
  destruct ((_ || _) && bool_decide (prompt = "")) eqn:Ep; [done|].
  destruct (Z.ltb_spec MaxProviderPromptRunes (rune_count prompt)) as [|Hlen]; [done|].
  intros Hv. split; [exact Hlen|]. split; intros Hp; rewrite Hp in Hv, Ep.
  - change (TrimSpace ProviderImage2) with ProviderImage2 in Hv. rewrite (bool_decide_true (ProviderImage2 = _)) in Hv, Ep by done.
    cbn [orb andb] in Ep. apply bool_decide_eq_false in Ep. split; [done|]. revert Hv.
    case_bool_decide as Hm; [|done]. cbn [negb]. case_bool_decide as Hs; [|done]. cbn [negb].
    destruct (outside 1 _ _) eqn:Eo; [done|]. intros _. apply outside_false in Eo as (n & En & Hn).
    split; [done|]. split; [done|]. unfold OutputVariantCount. rewrite Hp, En.
    change (TrimSpace ProviderImage2) with ProviderImage2. rewrite bool_decide_true by done. cbn [negb].
    unfold MaxImageOutputVariants in Hn. destruct (Z.ltb_spec n 1); [lia|]. done.
  - change (TrimSpace ProviderSeedance) with ProviderSeedance in Hv.
    rewrite (bool_decide_true (ProviderSeedance = ProviderSeedance)) in Hv, Ep by done.
    rewrite (bool_decide_false (ProviderSeedance = ProviderImage2)) in Hv, Ep by done.
    cbn [orb andb] in Ep. apply bool_decide_eq_false in Ep. split; [done|]. revert Hv.
    case_bool_decide as Hm; [|done]. cbn [negb].
    destruct (negb _ && negb _); [done|]. destruct (negb _ && negb _); [done|].
    destruct (outside 0 MaxVideoDurationSeconds _) eqn:Ed; [done|].
    destruct (outside 0 MaxVideoFramesPerSecond _) eqn:Ef; [done|]. intros _.
    apply outside_false in Ed as (d & Ed & Hd), Ef as (f & Ef & Hf).
    split; [done|]. split; [unfold OutputVariantCount; by rewrite Hp|]. exists d, f. done.
Qed.

Lemma provider_parameters_bounded_witness :
  let job := zeroGenerationJob <| j_Provider := ProviderImage2 |>
    <| j_Payload := payload [("prompt", AStr "a lighthouse at dawn"); ("n", AFloat 2 0); ("size", AStr "1024x1536")] |> in
  1 <= OutputVariantCount job <= 4.
Proof.
  intros job.
  assert (ValidateProviderJob (H := {| sprint_other := fun _ => "?" |}) job = None) as Hv by (vm_compute; reflexivity).
  destruct (provider_parameters_bounded job Hv) as (_ & Himage & _).
  destruct (Himage eq_refl) as (_ & _ & _ & _ & Hn). exact Hn.
Defined.
