(* ===== verification/Finalization.v ===== *)
(** * Finalization and compensation

    [internal/aigc/generation/finalization.go]: from a provider's result to a
    delivered, charged and announced job, and the refunds of jobs that were
    charged and could not be delivered.  The services the engine calls
    (artifact store, binding guard, committer, inspector, discarder, billing,
    cost calculator) are fields of the engine, each possibly absent; they act on
    the whole world, so anything may happen to the store while they run.
    [others] stands for the other workers, which may run before every call of
    the store. *)

From Stdlib Require Import ZArith Lia.
From S2P Require Import Prelude GoJson GenModels WorkflowStore Barrier ProviderPolicy.

Record ProviderResult := mkProviderResult {
  pr_TaskID : string;
  pr_RequestID : string;
  pr_Status : string;
  pr_AssetIDs : list string;
  pr_Payload : gomap any;
  pr_UsageReported : bool;
  pr_ActualPoints : Z;
  pr_CostBreakdown : gomap Z
}.
#[global] Instance eta_ProviderResult : Eta ProviderResult := fun r =>
  mkProviderResult (pr_TaskID r) (pr_RequestID r) (pr_Status r) (pr_AssetIDs r) (pr_Payload r)
  (pr_UsageReported r) (pr_ActualPoints r) (pr_CostBreakdown r).
Definition zeroProviderResult : ProviderResult :=
  mkProviderResult "" "" "" [] None false 0 None.

Record ChargeRequest := mkChargeRequest {
  cq_UserID : string;
  cq_SessionID : string;
  cq_OperationID : string;
  cq_BatchID : string;
  cq_JobID : string;
  cq_IdempotencyKey : string;
  cq_Points : Z;
  cq_Breakdown : gomap Z
}.
#[global] Instance eta_ChargeRequest : Eta ChargeRequest := fun r =>
  mkChargeRequest (cq_UserID r) (cq_SessionID r) (cq_OperationID r) (cq_BatchID r) (cq_JobID r)
  (cq_IdempotencyKey r) (cq_Points r) (cq_Breakdown r).
Definition zeroChargeRequest : ChargeRequest :=
  mkChargeRequest "" "" "" "" "" "" 0 None.

Record ChargeResult := mkChargeResult {
  cr_TransactionID : string;
  cr_ChargedPoints : Z;
  cr_Breakdown : gomap Z;
  cr_BalanceAfter : option Z
}.
#[global] Instance eta_ChargeResult : Eta ChargeResult := fun r =>
  mkChargeResult (cr_TransactionID r) (cr_ChargedPoints r) (cr_Breakdown r) (cr_BalanceAfter r).
Definition zeroChargeResult : ChargeResult :=
  mkChargeResult "" 0 None None.

Record RefundRequest := mkRefundRequest {
  rq_UserID : string;
  rq_SessionID : string;
  rq_OperationID : string;
  rq_BatchID : string;
  rq_JobID : string;
  rq_BillingTransactionID : string;
  rq_IdempotencyKey : string;
  rq_Points : Z
}.
#[global] Instance eta_RefundRequest : Eta RefundRequest := fun r =>
  mkRefundRequest (rq_UserID r) (rq_SessionID r) (rq_OperationID r) (rq_BatchID r) (rq_JobID r)
  (rq_BillingTransactionID r) (rq_IdempotencyKey r) (rq_Points r).
Definition zeroRefundRequest : RefundRequest :=
  mkRefundRequest "" "" "" "" "" "" "" 0.

Record RefundResult := mkRefundResult {
  rr_TransactionID : string;
  rr_RefundedPoints : Z;
  rr_BalanceAfter : option Z
}.
#[global] Instance eta_RefundResult : Eta RefundResult := fun r =>
  mkRefundResult (rr_TransactionID r) (rr_RefundedPoints r) (rr_BalanceAfter r).
Definition zeroRefundResult : RefundResult :=
  mkRefundResult "" 0 None.

Record BindingCheck := mkBindingCheck {
  bc_TargetExists : bool;
  bc_Matches : bool;
  bc_Current : BindingToken
}.

Record FinalizationCommit := mkFinalizationCommit {
  fc_Job : GenerationJob;
  fc_AssetIDs : list string;
  fc_BindingToken : BindingToken;
  fc_BindingMode : string;
  fc_ApprovalPolicy : string
}.

Definition providerUsageWasReported (r : ProviderResult) : bool :=
  pr_UsageReported r || negb (pr_ActualPoints r =? 0) || (0 <? Z.of_nat (go_len (pr_CostBreakdown r))).

Definition refundIdempotencyKey (job : GenerationJob) : string :=
  "generation:refund:" +:+ j_ID job +:+ ":" +:+ j_BillingTransactionID job.

(** A Go pair [(GenerationJob, error)]. *)
Definition job_error : Type := GenerationJob * option error.
Definition as_job (r : result GenerationJob) : job_error :=
  match r with Ok job => (job, None) | Err e => (zeroGenerationJob, Some e) end.

(** [x, err := c; if err != nil { return GenerationJob{}, err }; k]. *)
Definition or_fail {S A} (c : Eff S (result A)) (k : A → Eff S job_error) : Eff S job_error := fun s =>
  let '(r, s') := c s in
  match r with Ok a => k a s' | Err e => ((zeroGenerationJob, Some e), s') end.
Notation "'got*' x ':=' c 'in' k" := (or_fail c (fun x => k))
  (at level 10, x name, c at level 100, k at level 200) : go_scope.

(** The jobs a closure leaves: the lease released, the error cleared. *)
Definition release (job : GenerationJob) : GenerationJob :=
  job <| j_LeaseOwner := "" |> <| j_LeaseUntil := None |>.
Definition clear_error (job : GenerationJob) : GenerationJob :=
  job <| j_ErrorStage := "" |> <| j_ErrorCode := "" |> <| j_ErrorMessage := "" |>.

Definition session_event (key type : string) (fields : list (string * any)) : OutboxEvent :=
  zeroOutboxEvent <| e_IdempotencyKey := key |> <| e_EventType := type |>
    <| e_Destination := DestinationSessionSignal |> <| e_Payload := payload fields |>.

Class Concurrency (X : Type) := { others : Eff (world X) unit }.

Section finalization.
Context `{Runtime} {X : Type} `{Concurrency X}.

(** A call of the store: the other workers may run first. *)
Definition call {A} (c : Eff (world X) A) : Eff (world X) A := let* _ := others in c.

Record BillingGateway := mkBillingGateway {
  gw_Charge : ChargeRequest → Eff (world X) (result ChargeResult);
  gw_Refund : RefundRequest → Eff (world X) (result RefundResult)
}.

(** The committer runs inside [MutateJob], while the store is locked. *)
Record FinalizationEngine := mkFinalizationEngine {
  f_artifacts : option (GenerationJob → ProviderResult → Eff (world X) (result (list string)));
  f_bindings : option (BindingToken → Eff (world X) (result BindingCheck));
  f_committer : option (FinalizationCommit → Eff (env X) (result unit));
  f_inspector : option (GenerationJob → list string → Eff (world X) (result bool));
  f_discarder : option (GenerationJob → list string → string → Eff (world X) (result unit));
  f_billing : option BillingGateway;
  f_calculator : option (GenerationJob → ProviderResult → Eff (world X) (result (Z * gomap Z)))
}.

Definition pure_mutation (change : GenerationJob → GenerationJob) (events : GenerationJob → list OutboxEvent) :
    JobMutation (X := X) := fun current =>
  let current := change current in ret (Ok (current, events current)).

Definition no_events (job : GenerationJob) : list OutboxEvent := [].

(** [updated, err := store.MutateJob(...); if err == nil { tryFinalize... }; return updated, err]. *)
Definition mutate_and_finalize (job : GenerationJob) (mutation : JobMutation) : Eff (world X) job_error :=
  let* r := call (MutateJob (j_ID job) (j_StatusVersion job) mutation) in
  match r with
  | Ok updated => let* _ := call (tryFinalizeBatchBestEffort (j_BatchID updated)) in ret (updated, None)
  | Err e => ret (zeroGenerationJob, Some e)
  end.

Section engine.
Variable f : FinalizationEngine.

Definition discardResult (job : GenerationJob) (disposition : string) : Eff (world X) (result unit) :=
  match f_discarder f, j_ResultAssetIDs job with
  | None, _ | _, [] => ret (Ok tt)
  | Some discard, ids => discard job ids disposition
  end.

Definition DiscardUndelivered (job : GenerationJob) (disposition : string) : Eff (world X) (result unit) :=
  discardResult job disposition.

Definition checkBinding (token : BindingToken) : Eff (world X) (result BindingCheck) :=
  match f_bindings f with
  | None => ret (Ok (mkBindingCheck true true token))
  | Some check => check token
  end.

Definition calculateCost (job : GenerationJob) (r : ProviderResult) : Eff (world X) (result (Z * gomap Z)) :=
  match f_calculator f with
  | Some calculate => calculate job r
  | None => ret (Ok (pr_ActualPoints r, cloneInt64Map (pr_CostBreakdown r)))
  end.

(** ** Terminal mutations *)

Definition succeed (assetIDs : list string) (disposition : string) (current : GenerationJob) : GenerationJob :=
  clear_error (release (current <| j_Status := StatusSucceeded |> <| j_Phase := PhaseArtifactFinalize |>
    <| j_ResultAssetIDs := assetIDs |> <| j_ResultDisposition := disposition |>
    <| j_CompensationStatus := CompensationNotRequired |>)).

Definition disposition_of (policy : DeliveryPolicy) : string :=
  if bool_decide (p_BindingMode policy = BindingModeActive) then DispositionBoundActive else DispositionBoundCandidate.

Definition completeCommittedReceipt (job : GenerationJob) (assetIDs : list string) : Eff (world X) job_error :=
  let disposition := disposition_of (DeliveryPolicy_Normalize (j_DeliveryPolicy job)) in
  mutate_and_finalize job (pure_mutation (succeed assetIDs disposition) (fun current =>
    [session_event ("job:" +:+ j_ID current +:+ ":succeeded") "job.succeeded"
       [("status", AStr StatusSucceeded); ("result_disposition", AStr disposition);
        ("recovered_domain_commit", ABool true)];
     newBatchFinalizeRequestedEvent current "terminal"])).

Definition failWithoutCharge (job : GenerationJob) (disposition code : string) : Eff (world X) job_error :=
  got* _ := discardResult job disposition in
  mutate_and_finalize job (pure_mutation
    (fun current => release (current <| j_Status := StatusFailed |> <| j_ResultDisposition := disposition |>
       <| j_ErrorStage := ErrorStageBinding |> <| j_ErrorCode := code |> <| j_ErrorMessage := code |>
       <| j_CompensationStatus := CompensationNotRequired |>))
    (fun current =>
    [session_event ("job:" +:+ j_ID current +:+ ":failed:" +:+ code) "job.failed"
       [("status", AStr StatusFailed); ("error_code", AStr code); ("result_disposition", AStr disposition)];
     newBatchFinalizeRequestedEvent current "terminal"])).

Definition compensation_requested (current : GenerationJob) (key : string) (availableAt : Time) : OutboxEvent :=
  zeroOutboxEvent <| e_IdempotencyKey := key |> <| e_EventType := EventBillingCompensationRequested |>
    <| e_Destination := DestinationBilling |> <| e_AvailableAt := availableAt |>
    <| e_Payload := payload [("job_id", AStr (j_ID current));
         ("billing_transaction_id", AStr (j_BillingTransactionID current));
         ("idempotency_key", AStr (refundIdempotencyKey current))] |>.

Definition charged_failure (disposition : string) (current : GenerationJob) : GenerationJob :=
  let current := if j_CancelRequested current
                 then current <| j_Status := StatusCancelled |> <| j_ErrorCode := "cancelled_after_charge" |>
                 else current <| j_Status := StatusFailed |> <| j_ErrorCode := ErrorBindingConflictAfterCharge |> in
  (release (current <| j_ErrorStage := ErrorStageBinding |> <| j_ErrorMessage := j_ErrorCode current |>
     <| j_ResultDisposition := disposition |> <| j_CompensationStatus := CompensationPending |>))
    <| j_CompensationEventID := "compensation:" +:+ j_ID current |>.

Definition failAfterCharge (job : GenerationJob) (check : BindingCheck) : Eff (world X) job_error :=
  let disposition := if bc_TargetExists check then DispositionSuperseded else DispositionOrphaned in
  got* _ := discardResult job disposition in
  mutate_and_finalize job (pure_mutation (charged_failure disposition) (fun current =>
    [compensation_requested current
       ("job:" +:+ j_ID current +:+ ":compensation-requested:" +:+ j_BillingTransactionID current) zeroTime;
     newBatchFinalizeRequestedEvent current "terminal"])).

Definition superseded : BindingCheck := mkBindingCheck true false zeroBindingToken.

Definition cancelBeforeCommit (job : GenerationJob) : Eff (world X) job_error :=
  if negb (blank (j_BillingTransactionID job)) then failAfterCharge job superseded
  else
  got* _ := discardResult job "cancelled" in
  mutate_and_finalize job (pure_mutation
    (fun current => release (current <| j_Status := StatusCancelled |> <| j_ErrorCode := "cancelled_by_user" |>
       <| j_ErrorMessage := "generation was cancelled before finalization commit" |>
       <| j_CompensationStatus := CompensationNotRequired |>))
    (fun current =>
    [session_event ("job:" +:+ j_ID current +:+ ":cancelled") "job.cancelled"
       [("status", AStr StatusCancelled); ("error_code", AStr (j_ErrorCode current))];
     newBatchFinalizeRequestedEvent current "terminal"])).

Definition permanent_failure (stage code : string) (cause : error) (current : GenerationJob) : GenerationJob :=
  let current := current <| j_Status := StatusFailed |> <| j_ErrorStage := stage |> <| j_ErrorCode := code |>
                         <| j_ErrorMessage := err_text cause |> <| j_Retryable := false |> in
  let current := if bool_decide (stage = ErrorStageBilling) then current <| j_BillingStatus := BillingFailed |>
                 else current in
  release (current <| j_CompensationStatus := CompensationNotRequired |>).

Definition failed_events (code : string) (current : GenerationJob) : list OutboxEvent :=
  [session_event ("job:" +:+ j_ID current +:+ ":failed:" +:+ code) "job.failed"
     [("status", AStr StatusFailed); ("error_code", AStr code)];
   newBatchFinalizeRequestedEvent current "terminal"].

Definition failPermanent (job : GenerationJob) (stage code : string) (cause : error) : Eff (world X) job_error :=
  got* _ := (if blank (j_BillingTransactionID job) then discardResult job "failed" else ret (Ok tt)) in
  let* '(updated, err) := mutate_and_finalize job (pure_mutation (permanent_failure stage code cause) (failed_events code)) in
  match err with
  | Some e => ret (zeroGenerationJob, Some e)
  | None => ret (updated, Some cause)
  end.

Definition retry_later (stage code : string) (cause : error) (now : Time) (current : GenerationJob) : GenerationJob :=
  let retries := incr (j_RetryCount current) in
  release (current <| j_Status := StatusRetryWait |> <| j_ErrorStage := stage |> <| j_ErrorCode := code |>
    <| j_ErrorMessage := err_text cause |> <| j_Retryable := true |> <| j_RetryCount := retries |>
    <| j_NextRunAt := now + retryBackoff retries |>).

Definition scheduleRetry (job : GenerationJob) (stage code : string) (cause : error) : Eff (world X) job_error :=
  if (0 <? j_MaxAttempts job) && (j_MaxAttempts job <=? wrap64 (j_RetryCount job + 1))
  then if bool_decide (stage = ErrorStageBinding) && negb (blank (j_BillingTransactionID job))
       then failAfterCharge job superseded
       else failPermanent job stage code cause
  else
  got* updated := call (MutateJob (j_ID job) (j_StatusVersion job) (fun current =>
    let* now := clock in
    ret (Ok (retry_later stage code cause now current, [])))) in
  ret (updated, Some cause).

Definition handleFinalizeError (job : GenerationJob) (cause : error) (stage code : string) : Eff (world X) job_error :=
  let '(errorStage, errorCode, retryable) := classifyExecutionError cause stage code in
  if retryable then scheduleRetry job errorStage errorCode cause
  else if negb (blank (j_BillingTransactionID job)) then failAfterCharge job superseded
  else failPermanent job errorStage errorCode cause.

(** ** The settlement quote and the charge *)

Definition quote_mutation (points : Z) (breakdown : gomap Z) : JobMutation (X := X) :=
  pure_mutation (fun current =>
    if j_SettlementQuoteRecorded current then current
    else current <| j_SettlementQuoteRecorded := true |> <| j_SettlementPoints := points |>
                 <| j_SettlementBreakdown := cloneInt64Map breakdown |>) no_events.

Definition quote_of (job : GenerationJob) : Z * gomap Z :=
  (j_SettlementPoints job, cloneInt64Map (j_SettlementBreakdown job)).

Fixpoint freeze_quote (attempts : nat) (job : GenerationJob) (points : Z) (breakdown : gomap Z) :
    Eff (world X) (result (Z * gomap Z)) :=
  match attempts with
  | O => fail (Wrapf "" ErrVersionConflict (": could not freeze settlement quote for job " +:+ j_ID job))
  | S attempts' =>
      let* r := call (MutateJob (j_ID job) (j_StatusVersion job) (quote_mutation points breakdown)) in
      match r with
      | Ok updated => ret (Ok (quote_of updated))
      | Err e =>
          if negb (errors_Is e ErrVersionConflict) then fail e
          else
            try* job := call (GetJob (j_ID job)) in
            if j_SettlementQuoteRecorded job then ret (Ok (quote_of job))
            else freeze_quote attempts' job points breakdown
      end
  end.

Definition freezeSettlementQuote (job : GenerationJob) (r : ProviderResult) : Eff (world X) (result (Z * gomap Z)) :=
  if j_SettlementQuoteRecorded job then ret (Ok (quote_of job))
  else
    try* '(points, breakdown) := calculateCost job r in
    if points <? 0 then fail (Errorf "settlement points cannot be negative")
    else freeze_quote 4 job points breakdown.

Definition charge_mutation (charge : ChargeResult) : JobMutation (X := X) := fun current =>
  if negb (bool_decide (j_BillingTransactionID current = ""))
     && negb (bool_decide (j_BillingTransactionID current = cr_TransactionID charge))
  then fail (Errorf ("job " +:+ j_ID current +:+ " already references a different billing transaction"))
  else ret (Ok (current <| j_BillingStatus := BillingCharged |>
                        <| j_BillingTransactionID := cr_TransactionID charge |>
                        <| j_ChargedPoints := cr_ChargedPoints charge |>
                        <| j_NetChargedPoints := cr_ChargedPoints charge |>
                        <| j_CostBreakdown := cloneInt64Map (cr_Breakdown charge) |>
                        <| j_BalanceAfter := cloneInt64Pointer (cr_BalanceAfter charge) |>, [])).

Fixpoint record_charge (attempts : nat) (job : GenerationJob) (charge : ChargeResult) :
    Eff (world X) (result GenerationJob) :=
  match attempts with
  | O => fail (Wrapf "" ErrVersionConflict (": could not record billing transaction for job " +:+ j_ID job))
  | S attempts' =>
      let* r := call (MutateJob (j_ID job) (j_StatusVersion job) (charge_mutation charge)) in
      match r with
      | Ok updated => ret (Ok updated)
      | Err e =>
          if negb (errors_Is e ErrVersionConflict) then fail e
          else
            try* job := call (GetJob (j_ID job)) in
            if bool_decide (j_BillingTransactionID job = cr_TransactionID charge) then ret (Ok job)
            else record_charge attempts' job charge
      end
  end.

Definition recordCharge (job : GenerationJob) (charge : ChargeResult) : Eff (world X) (result GenerationJob) :=
  record_charge 4 job charge.

(** ** Finalize *)

Definition receipt_mutation (r : ProviderResult) : JobMutation (X := X) :=
  pure_mutation (fun current =>
    let current := current <| j_Status := StatusFinalizing |> <| j_Phase := PhaseArtifactFinalize |>
      <| j_ProviderTaskID := valueOrDefault (pr_TaskID r) (j_ProviderTaskID current) |>
      <| j_ProviderRequestID := valueOrDefault (pr_RequestID r) (j_ProviderRequestID current) |>
      <| j_ProviderStatus := valueOrDefault (pr_Status r) (j_ProviderStatus current) |> in
    let current := match pr_Payload r with
                   | Some _ => current <| j_Result := cloneMap (pr_Payload r) |>
                   | None => current
                   end in
    if j_ProviderUsageRecorded current then current
    else current <| j_ProviderUsageRecorded := true |>
                 <| j_ProviderUsageReported := providerUsageWasReported r |>
                 <| j_ProviderActualPoints := pr_ActualPoints r |>
                 <| j_ProviderCostBreakdown := cloneInt64Map (pr_CostBreakdown r) |>) no_events.

Definition commit_mutation (policy : DeliveryPolicy) (assetIDs : list string) (disposition : string) :
    JobMutation (X := X) := fun current =>
  if j_CancelRequested current
  then fail (Wrapf "" ErrVersionConflict ": cancellation won finalization CAS")
  else
    try* _ := match f_committer f with
              | None => ret (Ok tt)
              | Some commit => commit (mkFinalizationCommit (cloneJob current) assetIDs (j_BindingToken current)
                                         (p_BindingMode policy) (p_ApprovalPolicy policy))
              end in
    let current := succeed assetIDs disposition current in
    ret (Ok (current,
      [session_event ("job:" +:+ j_ID current +:+ ":succeeded") "job.succeeded"
         [("status", AStr StatusSucceeded); ("result_disposition", AStr disposition)];
       newBatchFinalizeRequestedEvent current "terminal"])).

(** The last part: check the policy, commit, and sort out a refused commit. *)
Definition finalize_commit (beforeCommit : GenerationJob) (assetIDs : list string) : Eff (world X) job_error :=
  let policy := DeliveryPolicy_Normalize (j_DeliveryPolicy beforeCommit) in
  match DeliveryPolicy_Validate policy with
  | Some err => handleFinalizeError beforeCommit err ErrorStageBinding ErrorFinalizeFailed
  | None =>
  let* r := call (MutateJob (j_ID beforeCommit) (j_StatusVersion beforeCommit)
                    (commit_mutation policy assetIDs (disposition_of policy))) in
  match r with
  | Ok updated => let* _ := call (tryFinalizeBatchBestEffort (j_BatchID updated)) in ret (updated, None)
  | Err commitErr =>
      let* g := call (GetJob (j_ID beforeCommit)) in
      match g with
      | Err getErr =>
          ret (beforeCommit, Some (errors_Join commitErr
            (Wrapf ("reload generation job " +:+ j_ID beforeCommit +:+ " after finalization commit failure: ") getErr "")))
      | Ok latest =>
          if j_CancelRequested latest
          then if negb (blank (j_BillingTransactionID latest)) then failAfterCharge latest superseded
               else cancelBeforeCommit latest
          else
          let '(stage, code, retryable) := classifyExecutionError commitErr ErrorStageBinding ErrorFinalizeFailed in
          if retryable then scheduleRetry latest stage code commitErr
          else if negb (blank (j_BillingTransactionID latest)) then failAfterCharge latest superseded
          else failPermanent latest stage code commitErr
      end
  end end.

(** After the charge: the target is checked once more. *)
Definition finalize_recheck (job : GenerationJob) (assetIDs : list string) : Eff (world X) job_error :=
  let* c := checkBinding (j_BindingToken job) in
  match c with
  | Err err => handleFinalizeError job err ErrorStageBinding ErrorFinalizeFailed
  | Ok check =>
      if negb (bc_TargetExists check) || negb (bc_Matches check) || j_CancelRequested job
      then failAfterCharge job check
      else finalize_commit job assetIDs
  end.

Definition charge_key (job : GenerationJob) : string :=
  valueOrDefault (j_BillingIdempotencyKey job) ("generation:charge:" +:+ j_ID job).

Definition finalize_charge (job : GenerationJob) (assetIDs : list string) (points : Z) (breakdown : gomap Z) :
    Eff (world X) job_error :=
  if 0 <? points
  then
    match f_billing f with
    | None => handleFinalizeError job (Errorf "billing gateway is required for non-zero charge")
                ErrorStageBilling ErrorFinalizeFailed
    | Some billing =>
        let key := charge_key job in
        got* job := call (MutateJob (j_ID job) (j_StatusVersion job) (pure_mutation (fun current =>
          current <| j_Phase := PhaseBillingCharge |> <| j_BillingStatus := BillingCharging |>
                  <| j_BillingIdempotencyKey := key |>) no_events)) in
        let* c := gw_Charge billing (mkChargeRequest (j_UserID job) (j_SessionID job) (j_OperationID job)
                    (j_BatchID job) (j_ID job) key points (cloneInt64Map breakdown)) in
        match c with
        | Err err =>
            let '(stage, code, retryable) := classifyExecutionError err ErrorStageBilling ErrorBillingRejected in
            if retryable then scheduleRetry job stage code err else failPermanent job stage code err
        | Ok charge =>
            if blank (cr_TransactionID charge)
            then handleFinalizeError job (Errorf "billing transaction id is required") ErrorStageBilling ErrorFinalizeFailed
            else
              got* job := recordCharge job charge in
              finalize_recheck job assetIDs
        end
    end
  else finalize_recheck job assetIDs.

(** Before the charge: is the target still there and still the same. *)
Definition finalize_check (job : GenerationJob) (assetIDs : list string) (points : Z) (breakdown : gomap Z) :
    Eff (world X) job_error :=
  let* c := checkBinding (j_BindingToken job) in
  match c with
  | Err err => handleFinalizeError job err ErrorStageBinding ErrorFinalizeFailed
  | Ok check =>
      if negb (bc_TargetExists check)
      then if negb (blank (j_BillingTransactionID job)) then failAfterCharge job check
           else failWithoutCharge job DispositionOrphaned ErrorTargetOrphaned
      else if negb (bc_Matches check)
      then if negb (blank (j_BillingTransactionID job)) then failAfterCharge job check
           else failWithoutCharge job DispositionSuperseded ErrorResultSuperseded
      else finalize_charge job assetIDs points breakdown
  end.

Definition finalize_assets (job : GenerationJob) (r : ProviderResult) (points : Z) (breakdown : gomap Z) :
    Eff (world X) job_error :=
  match j_ResultAssetIDs job with
  | [] =>
      let* a := match pr_AssetIDs r, f_artifacts f with
                | [], Some persist => persist job r
                | ids, _ => ret (Ok ids)
                end in
      match a with
      | Err err => handleFinalizeError job err ErrorStageArtifact ErrorFinalizeFailed
      | Ok assetIDs =>
          got* job := call (MutateJob (j_ID job) (j_StatusVersion job)
                              (pure_mutation (fun current => current <| j_ResultAssetIDs := assetIDs |>) no_events)) in
          finalize_check job assetIDs points breakdown
      end
  | assetIDs => finalize_check job assetIDs points breakdown
  end.

Definition finalize_rest (job : GenerationJob) (r : ProviderResult) (points : Z) (breakdown : gomap Z) :
    Eff (world X) job_error :=
  if j_CancelRequested job then cancelBeforeCommit job else finalize_assets job r points breakdown.

Definition finalize_receipt (job : GenerationJob) (r : ProviderResult) (points : Z) (breakdown : gomap Z) :
    Eff (world X) job_error :=
  let receiptAssetIDs := match j_ResultAssetIDs job with [] => pr_AssetIDs r | ids => ids end in
  match f_inspector f, receiptAssetIDs with
  | None, _ | _, [] => finalize_rest job r points breakdown
  | Some inspect, _ =>
      let* c := inspect job receiptAssetIDs in
      match c with
      | Err inspectErr =>
          handleFinalizeError job (NewExecutionError ErrorStageBinding ErrorFinalizeFailed true inspectErr)
            ErrorStageBinding ErrorFinalizeFailed
      | Ok true => completeCommittedReceipt job receiptAssetIDs
      | Ok false => finalize_rest job r points breakdown
      end
  end.

Definition Finalize (jobID : string) (r : ProviderResult) : Eff (world X) job_error :=
  got* job := call (GetJob jobID) in
  if IsTerminalJobStatus (j_Status job) then ret (job, None)
  else
  got* job := call (MutateJob (j_ID job) (j_StatusVersion job) (receipt_mutation r)) in
  let r := r <| pr_ActualPoints := j_ProviderActualPoints job |>
             <| pr_CostBreakdown := cloneInt64Map (j_ProviderCostBreakdown job) |>
             <| pr_UsageReported := j_ProviderUsageReported job |> in
  let* q := freezeSettlementQuote job r in
  match q with
  | Err err => handleFinalizeError job err ErrorStageBilling ErrorFinalizeFailed
  | Ok (points, breakdown) =>
      got* job := call (GetJob (j_ID job)) in
      finalize_receipt job r points breakdown
  end.
End engine.

(** ** Compensation *)

Section compensation.
Variable billing : BillingGateway.

Definition minute : Z := 60 * second.

Definition compensation_claim (claimID : string) : JobMutation (X := X) := fun current =>
  let* now := clock in
  ret (Ok (current <| j_CompensationStatus := CompensationRunning |> <| j_Phase := PhaseCompensation |>
                   <| j_LeaseOwner := claimID |> <| j_LeaseUntil := Some (now + 5 * minute) |>, [])).

Definition compensation_error (retryable : bool) (err : error) (current : GenerationJob) : GenerationJob :=
  current <| j_CompensationStatus := if retryable then CompensationRetryWait else CompensationPending |>
          <| j_Phase := PhaseCompensation |>
          <| j_ErrorStage := ErrorStageBilling |> <| j_ErrorCode := "compensation_failed" |>
          <| j_ErrorMessage := err_text err |> <| j_Retryable := retryable |>.

(** A refund that will not succeed by itself waits for [ManualFinalize]. *)
Definition compensation_rejected (err : error) : JobMutation (X := X) :=
  pure_mutation (fun current => release ((compensation_error false err current) <| j_NextRunAt := zeroTime |>))
  (fun current =>
    [session_event ("job:" +:+ j_ID current +:+ ":compensation-failed:" +:+ j_BillingTransactionID current)
       EventBillingCompensationFailed
       [("job_id", AStr (j_ID current)); ("billing_transaction_id", AStr (j_BillingTransactionID current));
        ("requires_manual_finalization", ABool true)]]).

Definition compensation_retry (err : error) : JobMutation (X := X) := fun current =>
  let* now := clock in
  let current := compensation_error true err current in
  let retries := incr (j_RetryCount current) in
  let current := release (current <| j_RetryCount := retries |> <| j_NextRunAt := now + retryBackoff retries |>) in
  ret (Ok (current, [compensation_requested current
    ("job:" +:+ j_ID current +:+ ":compensation-retry:" +:+ pretty (j_RetryCount current)) (j_NextRunAt current)])).

Definition settle_compensation (status : string) (refunded : Z) (transactionID : string) (current : GenerationJob) : GenerationJob :=
  current <| j_CompensationStatus := status |> <| j_CompensatedPoints := refunded |>
          <| j_NetChargedPoints := wrap64 (j_ChargedPoints current - refunded) |>
          <| j_RefundTransactionID := transactionID |> <| j_Retryable := false |>.

Definition compensation_completed (refund : RefundResult) : JobMutation (X := X) :=
  pure_mutation (fun current =>
    release ((settle_compensation CompensationCompleted (rr_RefundedPoints refund) (rr_TransactionID refund) current)
               <| j_BalanceAfter := cloneInt64Pointer (rr_BalanceAfter refund) |>))
  (fun current =>
    [session_event ("job:" +:+ j_ID current +:+ ":compensation-completed:" +:+ rr_TransactionID refund)
       EventBillingCompensationCompleted
       [("job_id", AStr (j_ID current)); ("refund_transaction_id", AStr (rr_TransactionID refund));
        ("refunded_points", AInt (rr_RefundedPoints refund))];
     newBatchFinalizeRequestedEvent current "compensation-settled"]).

(** What the service makes of the gateway's answer. *)
Definition check_refund (job : GenerationJob) (r : result RefundResult) : result RefundResult :=
  match r with
  | Err err => Err err
  | Ok refund =>
      if blank (rr_TransactionID refund) then Err (Errorf "billing refund transaction id is required")
      else if (rr_RefundedPoints refund <? 0) || (j_ChargedPoints job <? rr_RefundedPoints refund)
      then Err (Errorf ("refunded points " +:+ pretty (rr_RefundedPoints refund) +:+ " are outside charged range 0.."
                        +:+ pretty (j_ChargedPoints job)))
      else Ok refund
  end.

Definition refund_request (job : GenerationJob) : RefundRequest :=
  mkRefundRequest (j_UserID job) (j_SessionID job) (j_OperationID job) (j_BatchID job) (j_ID job)
    (j_BillingTransactionID job) (refundIdempotencyKey job) (j_ChargedPoints job).

Definition compensation_in_progress (job : GenerationJob) (status : string) : Eff (world X) bool :=
  if bool_decide (status = CompensationRunning)
  then match j_LeaseUntil job with
       | Some until => let* now := s_clock in ret (After until now)
       | None => ret false
       end
  else ret false.

Definition run_compensation (job : GenerationJob) : Eff (world X) job_error :=
  let* id := s_newID in
  got* job := call (MutateJob (j_ID job) (j_StatusVersion job) (compensation_claim ("compensation:" +:+ id))) in
  let* r := gw_Refund billing (refund_request job) in
  match check_refund job r with
  | Err err =>
      let retryable := match err_exec err with Some execution => exec_retryable execution | None => true end in
      got* updated := call (MutateJob (j_ID job) (j_StatusVersion job)
                              (if retryable then compensation_retry err else compensation_rejected err)) in
      ret (updated, Some err)
  | Ok refund => mutate_and_finalize job (compensation_completed refund)
  end.

Definition Run (jobID : string) : Eff (world X) job_error :=
  got* job := call (GetJob jobID) in
  let status := normalizedCompensationStatus (j_CompensationStatus job) in
  if bool_decide (status ∈ [CompensationCompleted; CompensationManualFinal; CompensationNotRequired])
  then ret (job, None)
  else
  let* busy := compensation_in_progress job status in
  if busy
  then ret (job, Some (NewExecutionError ErrorStageBilling "compensation_in_progress" true
                         (Errorf ("job " +:+ j_ID job +:+ " compensation is already in progress"))))
  else if negb (bool_decide (status ∈ [CompensationPending; CompensationRetryWait; CompensationRunning]))
  then ret (zeroGenerationJob, Some (Errorf ("job " +:+ j_ID job +:+ " has invalid compensation status " +:+ Quote status)))
  else if blank (j_BillingTransactionID job)
  then ret (zeroGenerationJob, Some (Errorf ("job " +:+ j_ID job +:+ " has no billing transaction to compensate")))
  else run_compensation job.
End compensation.

Definition manual_final (refundedPoints : Z) (refundTransactionID : string) : JobMutation (X := X) :=
  pure_mutation (fun current =>
    (settle_compensation CompensationManualFinal refundedPoints refundTransactionID current) <| j_NextRunAt := zeroTime |>)
  (fun current =>
    [session_event ("job:" +:+ j_ID current +:+ ":compensation-manual-final") EventBillingCompensationCompleted
       [("job_id", AStr (j_ID current)); ("refund_transaction_id", AStr refundTransactionID);
        ("refunded_points", AInt refundedPoints); ("manual_final", ABool true)];
     newBatchFinalizeRequestedEvent current "compensation-settled"]).

Definition ManualFinalize (jobID : string) (refundedPoints : Z) (refundTransactionID : string) : Eff (world X) job_error :=
  got* job := call (GetJob jobID) in
  let refuse text := ret (zeroGenerationJob, Some (Errorf text)) in
  if (refundedPoints <? 0) || (j_ChargedPoints job <? refundedPoints)
  then refuse "manual refunded points must be between zero and charged points"
  else
  let status := normalizedCompensationStatus (j_CompensationStatus job) in
  if bool_decide (status = CompensationManualFinal) then ret (job, None)
  else if negb (bool_decide (status = CompensationPending)) || j_Retryable job
          || negb (bool_decide (j_ErrorCode job = "compensation_failed"))
  then refuse ("job " +:+ j_ID job +:+ " compensation status " +:+ Quote status +:+ " cannot be manually finalized")
  else
  let refundTransactionID := TrimSpace refundTransactionID in
  if (0 <? refundedPoints) && bool_decide (refundTransactionID = "")
  then refuse "manual refund transaction id is required when refunded points are non-zero"
  else mutate_and_finalize job (manual_final refundedPoints refundTransactionID).
End finalization.
