(* ===== verification/Steps.v ===== *)
(** * Reasoning about handlers

    Two properties of a computation on the world, each closed under the ways
    the handlers are put together, with hint databases that find the proofs:
    [moves c], the store is only moved by its own commands; and
    [answers P c], every answer of [c] satisfies [P]. *)

From Stdlib Require Import ZArith Lia.
From S2P Require Import Prelude GoJson GenModels WorkflowStore WorkflowStoreProps WorkflowRuns Barrier BarrierProps.
From S2P Require Import ProviderPolicy Finalization.

Create HintDb moves.
Create HintDb answers.

Section moves.
Context `{Runtime} {X : Type}.

Definition moves {A} (c : Eff (world X) A) : Prop :=
  ∀ w a w', c w = (a, w') → rtc store_step w w'.

Lemma moves_ret {A} (a : A) : moves (ret a).
Proof. intros w b w' [= _ <-]. apply rtc_refl. Qed.

Lemma moves_bind {A B} (c : Eff (world X) A) (k : A → Eff (world X) B) :
  moves c → (∀ a, moves (k a)) → moves (bind c k).
Proof.
  intros Hc Hk w b w'. unfold bind. destruct (c w) as [a w1] eqn:E. intros E2.
  etrans; [by eapply Hc|by eapply Hk].
Qed.

Lemma moves_bind_ok {A B} (c : Eff (world X) (result A)) (k : A → Eff (world X) (result B)) :
  moves c → (∀ a, moves (k a)) → moves (bind_ok c k).
Proof.
  intros Hc Hk w b w'. unfold bind_ok. destruct (c w) as [[a|e] w1] eqn:E; intros E2.
  - etrans; [by eapply Hc|by eapply Hk].
  - injection E2 as _ <-. by eapply Hc.
Qed.

Lemma moves_or_fail {A} (c : Eff (world X) (result A)) k : moves c → (∀ a, moves (k a)) → moves (or_fail c k).
Proof.
  intros Hc Hk w b w'. unfold or_fail. destruct (c w) as [[a|e] w1] eqn:E; intros E2.
  - etrans; [by eapply Hc|by eapply Hk].
  - injection E2 as _ <-. by eapply Hc.
Qed.

Lemma moves_env {A} (c : Eff (env X) A) : moves (lift_env c).
Proof.
  intros w a w'. unfold lift_env. destruct (c (w_env w)) as [b v]. intros [= _ <-].
  apply rtc_once, step_env.
Qed.

Lemma moves_s_clock : moves s_clock.
Proof. apply moves_env. Qed.

Lemma moves_s_newID : moves s_newID.
Proof. apply moves_env. Qed.

Lemma moves_MutateJob id version mutation : mutation_keeps mutation → moves (MutateJob id version mutation).
Proof. intros Hk w a w' E. apply rtc_once. by eapply step_mutate. Qed.

Lemma moves_RenewJobLease id owner until : moves (RenewJobLease id owner until).
Proof. intros w a w' E. apply rtc_once. by eapply step_renew. Qed.

Lemma moves_MarkOutboxPublished id at_ : moves (MarkOutboxPublished id at_).
Proof. intros w a w' E. apply rtc_once. by eapply step_published. Qed.

Lemma moves_MarkOutboxFailed id at_ n : moves (MarkOutboxFailed id at_ n).
Proof. intros w a w' E. apply rtc_once. by eapply step_failed. Qed.

(** A read leaves the world alone, the clock aside. *)
Lemma moves_GetJob id : moves (GetJob id).
Proof.
  intros w a w'. unfold GetJob. cbn [bind get_store].
  destruct (jobs (w_store w) !! TrimSpace id); intros [= _ <-]; apply rtc_refl.
Qed.

Lemma moves_ListOutbox status limit : moves (ListOutbox status limit).
Proof. intros w a w'. unfold ListOutbox. cbn. intros [= _ <-]. apply rtc_refl. Qed.

Lemma moves_ListRunnableJobs now limit : moves (ListRunnableJobs now limit).
Proof.
  intros w a w'. unfold ListRunnableJobs. cbn. destruct (IsZero now); cbn; intros [= _ <-]; [|apply rtc_refl].
  apply rtc_once, (step_env w).
Qed.

Lemma moves_tryFinalizeBatchBestEffort id : moves (tryFinalizeBatchBestEffort id).
Proof.
  unfold tryFinalizeBatchBestEffort. destruct (blank id); [apply moves_ret|].
  apply moves_bind; [|intros; apply moves_ret]. intros w r w'. apply TryFinalize_steps.
Qed.

(** The other workers only use the store's commands. *)
Context `{Concurrency X} (others_move : moves others).

Lemma moves_call {A} (c : Eff (world X) A) : moves c → moves (call c).
Proof. intros Hc. apply moves_bind; [apply others_move|done]. Qed.
End moves.

(** ** Answers *)

Section answers.
Context {W : Type}.

Definition answers {A} (P : A → Prop) (c : Eff W A) : Prop := ∀ w a w', c w = (a, w') → P a.

Lemma answers_ret {A} (P : A → Prop) (a : A) : P a → answers P (ret a).
Proof. intros Ha w b w' [= <- _]. done. Qed.

Lemma answers_bind {A B} (Q : A → Prop) (P : B → Prop) (c : Eff W A) (k : A → Eff W B) :
  answers Q c → (∀ a, Q a → answers P (k a)) → answers P (bind c k).
Proof.
  intros Hc Hk w b w'. unfold bind. destruct (c w) as [a w1] eqn:E. intros E2.
  eapply Hk; [by eapply Hc|done].
Qed.

Lemma answers_any {A} (c : Eff W A) : answers (fun _ => True) c.
Proof. by intros w a w' _. Qed.

Lemma answers_then {A B} (P : B → Prop) (c : Eff W A) (k : A → Eff W B) :
  (∀ a, answers P (k a)) → answers P (bind c k).
Proof. intros Hk. apply (answers_bind (fun _ => True)); [apply answers_any|auto]. Qed.

Lemma answers_or_fail {A} (P : job_error → Prop) (c : Eff W (result A)) k :
  (∀ e, P (zeroGenerationJob, Some e)) → (∀ a, answers P (k a)) → answers P (or_fail c k).
Proof.
  intros He Hk w b w'. unfold or_fail. destruct (c w) as [[a|e] w1] eqn:E; intros E2.
  - by eapply Hk.
  - by injection E2 as <- _.
Qed.
End answers.

(** A pure mutation keeps the identifiers when its change does. *)
Lemma pure_mutation_keeps {X} change events :
  (∀ j, keeps_job j (change j)) → mutation_keeps (X:=X) (pure_mutation change events).
Proof. intros Hk j v j' ev v' [= <- _ _]. apply Hk. Qed.

#[export] Hint Resolve moves_ret moves_bind moves_bind_ok moves_or_fail moves_env moves_s_clock moves_s_newID
  moves_MutateJob moves_RenewJobLease moves_MarkOutboxPublished moves_MarkOutboxFailed moves_GetJob
  moves_ListOutbox moves_ListRunnableJobs moves_tryFinalizeBatchBestEffort moves_call : moves.
#[export] Hint Resolve answers_ret answers_then answers_or_fail : answers.

(** [fail e] is an answer like any other. *)
Lemma moves_fail `{Runtime} {X A} (e : error) : moves (X:=X) (@fail (world X) A e).
Proof. apply moves_ret. Qed.
#[export] Hint Resolve moves_fail : moves.

(** Follow the shape of a handler: binds, tests and matches. *)
Ltac moves_tac :=
  repeat first
    [ progress intros
    | solve [eauto 3 with moves]
    | apply moves_ret | apply moves_fail
    | apply moves_or_fail | apply moves_bind_ok | apply moves_bind
    | apply moves_call; [assumption|]
    | apply moves_MutateJob
    | apply pure_mutation_keeps
    | match goal with
      | |- moves (match ?x with _ => _ end) => destruct x
      | |- moves (let '_ := ?x in _) => destruct x
      end
    | done ].
