(* ===== verification/FinalizationProps.v ===== *)
(** * What finalization and compensation guarantee *)

From Stdlib Require Import ZArith Lia.
From S2P Require Import Prelude GoJson GenModels WorkflowStore Samples WorkflowStoreProps WorkflowRuns Barrier.
From S2P Require Import BarrierProps ProviderPolicy Finalization Steps.

Section engine_moves.
Context `{Runtime} {X : Type} `{Concurrency X}.

(** What is relied on: the other workers and the services touch the generation
    store through its commands alone. *)
Record gateway_rely (g : BillingGateway (X:=X)) : Prop := {
  gr_charge q : moves (gw_Charge g q);
  gr_refund q : moves (gw_Refund g q)
}.

Record engine_rely (f : FinalizationEngine (X:=X)) : Prop := {
  er_others : moves others;
  er_artifacts c : f_artifacts f = Some c → ∀ j r, moves (c j r);
  er_bindings c : f_bindings f = Some c → ∀ t, moves (c t);
  er_inspector c : f_inspector f = Some c → ∀ j l, moves (c j l);
  er_discarder c : f_discarder f = Some c → ∀ j l d, moves (c j l d);
  er_billing g : f_billing f = Some g → gateway_rely g;
  er_calculator c : f_calculator f = Some c → ∀ j r, moves (c j r)
}.

Lemma keeps_release j j' : keeps_job j j' → keeps_job j (release j').
Proof. done. Qed.

Section engine.
Variable f : FinalizationEngine (X:=X).
Hypothesis rely : engine_rely f.
Let others_move : moves others := er_others f rely.

Lemma moves_mutate_and_finalize job mutation : mutation_keeps mutation → moves (mutate_and_finalize job mutation).
Proof. intros Hk. unfold mutate_and_finalize. moves_tac. Qed.

Lemma moves_discardResult job d : moves (discardResult f job d).
Proof.
  unfold discardResult. destruct (f_discarder f) as [c|] eqn:E; [|moves_tac].
  destruct (j_ResultAssetIDs job); [moves_tac|]. by apply (er_discarder f rely).
Qed.

Lemma moves_checkBinding token : moves (checkBinding f token).
Proof. unfold checkBinding. destruct (f_bindings f) as [c|] eqn:E; [by apply (er_bindings f rely)|moves_tac]. Qed.

Lemma moves_calculateCost job r : moves (calculateCost f job r).
Proof. unfold calculateCost. destruct (f_calculator f) as [c|] eqn:E; [by apply (er_calculator f rely)|moves_tac]. Qed.

Local Hint Resolve moves_mutate_and_finalize moves_discardResult moves_checkBinding moves_calculateCost : moves.

Lemma moves_completeCommittedReceipt job ids : moves (completeCommittedReceipt job ids).
Proof. apply moves_mutate_and_finalize, pure_mutation_keeps. done. Qed.

Lemma moves_failWithoutCharge job d code : moves (failWithoutCharge f job d code).
Proof.
  apply moves_or_fail; [apply moves_discardResult|]. intros _.
  by apply moves_mutate_and_finalize, pure_mutation_keeps.
Qed.

Lemma charged_failure_keeps d j : keeps_job j (charged_failure d j).
Proof. unfold charged_failure. by destruct (j_CancelRequested j). Qed.

Lemma moves_failAfterCharge job check : moves (failAfterCharge f job check).
Proof.
  apply moves_or_fail; [apply moves_discardResult|]. intros _.
  apply moves_mutate_and_finalize, pure_mutation_keeps, charged_failure_keeps.
Qed.
Local Hint Resolve moves_completeCommittedReceipt moves_failWithoutCharge moves_failAfterCharge : moves.

Lemma moves_cancelBeforeCommit job : moves (cancelBeforeCommit f job).
Proof.
  unfold cancelBeforeCommit. destruct (negb _); [apply moves_failAfterCharge|].
  apply moves_or_fail; [apply moves_discardResult|]. intros _.
  by apply moves_mutate_and_finalize, pure_mutation_keeps.
Qed.

Lemma permanent_failure_keeps stage code cause j : keeps_job j (permanent_failure stage code cause j).
Proof. unfold permanent_failure. by destruct (bool_decide _). Qed.

Lemma moves_failPermanent job stage code cause : moves (failPermanent f job stage code cause).
Proof.
  unfold failPermanent. apply moves_or_fail; [destruct (blank _); [apply moves_discardResult|apply moves_ret]|].
  intros _. apply moves_bind; [apply moves_mutate_and_finalize, pure_mutation_keeps, permanent_failure_keeps|].
  intros [updated [e|]]; apply moves_ret.
Qed.
Local Hint Resolve moves_cancelBeforeCommit moves_failPermanent : moves.

Lemma moves_scheduleRetry job stage code cause : moves (scheduleRetry f job stage code cause).
Proof.
  unfold scheduleRetry. destruct (_ && _); [destruct (_ && _); auto with moves|].
  apply moves_or_fail; [|intros; apply moves_ret]. apply moves_call; [done|]. apply moves_MutateJob.
  by intros j v j' ev v' [= <- _ _].
Qed.
Local Hint Resolve moves_scheduleRetry : moves.

Lemma moves_handleFinalizeError job cause stage code : moves (handleFinalizeError f job cause stage code).
Proof.
  unfold handleFinalizeError. destruct (classifyExecutionError _ _ _) as [[? ?] retryable].
  destruct retryable; [auto with moves|]. destruct (negb _); auto with moves.
Qed.
Local Hint Resolve moves_handleFinalizeError : moves.

Lemma quote_mutation_keeps points breakdown : mutation_keeps (X:=X) (quote_mutation points breakdown).
Proof. apply pure_mutation_keeps. intros j. by destruct (j_SettlementQuoteRecorded j). Qed.

Lemma moves_freeze_quote n job points breakdown : moves (freeze_quote n job points breakdown).
Proof.
  revert job. induction n as [|n IH]; intros job; cbn [freeze_quote]; [apply moves_fail|].
  apply moves_bind; [apply moves_call; [done|apply moves_MutateJob, quote_mutation_keeps]|].
  intros [updated|e]; [apply moves_ret|]. destruct (negb _); [apply moves_fail|].
  apply moves_bind_ok; [apply moves_call; [done|apply moves_GetJob]|]. intros job'.
  destruct (j_SettlementQuoteRecorded job'); [apply moves_ret|apply IH].
Qed.

Lemma moves_freezeSettlementQuote job r : moves (freezeSettlementQuote f job r).
Proof.
  unfold freezeSettlementQuote. destruct (j_SettlementQuoteRecorded job); [apply moves_ret|].
  apply moves_bind_ok; [apply moves_calculateCost|]. intros [points breakdown].
  destruct (_ <? _); [apply moves_fail|apply moves_freeze_quote].
Qed.

Lemma charge_mutation_keeps charge : mutation_keeps (X:=X) (charge_mutation charge).
Proof. intros j v j' ev v'. unfold charge_mutation. destruct (_ && _); [done|]. by intros [= <- _ _]. Qed.

Lemma moves_record_charge n job charge : moves (record_charge n job charge).
Proof.
  revert job. induction n as [|n IH]; intros job; cbn [record_charge]; [apply moves_fail|].
  apply moves_bind; [apply moves_call; [done|apply moves_MutateJob, charge_mutation_keeps]|].
  intros [updated|e]; [apply moves_ret|]. destruct (negb _); [apply moves_fail|].
  apply moves_bind_ok; [apply moves_call; [done|apply moves_GetJob]|]. intros job'.
  destruct (bool_decide _); [apply moves_ret|apply IH].
Qed.

Lemma commit_mutation_keeps policy ids d : mutation_keeps (X:=X) (commit_mutation f policy ids d).
Proof.
  intros j v j' ev v'. unfold commit_mutation. destruct (j_CancelRequested j); [done|].
  unfold bind_ok. destruct (match f_committer f with _ => _ end v) as [[[]|e] v1]; [|done].
  by intros [= <- _ _].
Qed.

Lemma moves_finalize_commit job ids : moves (finalize_commit f job ids).
Proof.
  unfold finalize_commit. destruct (DeliveryPolicy_Validate _); [auto with moves|].
  apply moves_bind; [apply moves_call; [done|apply moves_MutateJob, commit_mutation_keeps]|].
  intros [updated|e]; [moves_tac|].
  apply moves_bind; [moves_tac|]. intros [latest|e2]; [|apply moves_ret].
  destruct (j_CancelRequested latest); [destruct (negb _); auto with moves|].
  destruct (classifyExecutionError _ _ _) as [[? ?] retryable].
  destruct retryable; [auto with moves|]. destruct (negb _); auto with moves.
Qed.

Lemma moves_finalize_recheck job ids : moves (finalize_recheck f job ids).
Proof.
  apply moves_bind; [apply moves_checkBinding|]. intros [check|e]; [|auto with moves].
  destruct (_ || _); [auto with moves|apply moves_finalize_commit].
Qed.

Lemma moves_finalize_charge job ids points breakdown : moves (finalize_charge f job ids points breakdown).
Proof.
  unfold finalize_charge. destruct (0 <? points); [|apply moves_finalize_recheck].
  destruct (f_billing f) as [g|] eqn:Eg; [|auto with moves].
  apply moves_or_fail; [apply moves_call; [done|by apply moves_MutateJob, pure_mutation_keeps]|]. intros job'.
  apply moves_bind; [apply (er_billing f rely g Eg)|]. intros [charge|e].
  - destruct (blank _); [auto with moves|]. apply moves_or_fail; [apply moves_record_charge|].
    intros; apply moves_finalize_recheck.
  - destruct (classifyExecutionError _ _ _) as [[? ?] retryable]. destruct retryable; auto with moves.
Qed.

Lemma moves_finalize_check job ids points breakdown : moves (finalize_check f job ids points breakdown).
Proof.
  apply moves_bind; [apply moves_checkBinding|]. intros [check|e]; [|auto with moves].
  destruct (negb (bc_TargetExists check)); [destruct (negb _); auto with moves|].
  destruct (negb (bc_Matches check)); [destruct (negb _); auto with moves|]. apply moves_finalize_charge.
Qed.

Lemma moves_finalize_assets job r points breakdown : moves (finalize_assets f job r points breakdown).
Proof.
  unfold finalize_assets. destruct (j_ResultAssetIDs job); [|apply moves_finalize_check].
  apply moves_bind.
  - destruct (pr_AssetIDs r); [|apply moves_ret].
    destruct (f_artifacts f) as [c|] eqn:E; [by apply (er_artifacts f rely)|apply moves_ret].
  - intros [ids|e]; [|auto with moves].
    apply moves_or_fail; [apply moves_call; [done|by apply moves_MutateJob, pure_mutation_keeps]|].
    intros; apply moves_finalize_check.
Qed.

Lemma moves_finalize_receipt job r points breakdown : moves (finalize_receipt f job r points breakdown).
Proof.
  assert (moves (finalize_rest f job r points breakdown)) as Hrest.
  { unfold finalize_rest. destruct (j_CancelRequested job); [auto with moves|apply moves_finalize_assets]. }
  unfold finalize_receipt. destruct (f_inspector f) as [c|] eqn:E; [|done].
  destruct (match j_ResultAssetIDs job return list string with [] => pr_AssetIDs r | _ :: _ => _ end) as [|id ids]; [done|].
  apply moves_bind; [by apply (er_inspector f rely)|]. intros [[|]|e]; auto with moves.
Qed.

Lemma receipt_mutation_keeps r : mutation_keeps (X:=X) (receipt_mutation r).
Proof.
  apply pure_mutation_keeps. intros j. cbv zeta. destruct (pr_Payload r); cbn; destruct (j_ProviderUsageRecorded j); done.
Qed.

Lemma moves_Finalize id r : moves (Finalize f id r).
Proof.
  apply moves_or_fail; [apply moves_call; [done|apply moves_GetJob]|]. intros job.
  destruct (IsTerminalJobStatus _); [apply moves_ret|].
  apply moves_or_fail; [apply moves_call; [done|apply moves_MutateJob, receipt_mutation_keeps]|]. intros job'.
  apply moves_bind; [apply moves_freezeSettlementQuote|]. intros [[points breakdown]|e]; [|auto with moves].
  apply moves_or_fail; [apply moves_call; [done|apply moves_GetJob]|]. intros; apply moves_finalize_receipt.
Qed.
End engine.

Section compensation.
Variable billing : BillingGateway (X:=X).
Hypothesis billing_rely : gateway_rely billing.
Hypothesis others_move : moves others.

Lemma moves_mutate_then job mutation : mutation_keeps mutation → moves (mutate_and_finalize job mutation).
Proof. intros Hk. unfold mutate_and_finalize. moves_tac. Qed.

Lemma moves_run_compensation job : moves (run_compensation billing job).
Proof.
  apply moves_bind; [apply moves_s_newID|]. intros id.
  apply moves_or_fail; [apply moves_call; [done|apply moves_MutateJob; by intros j v j' ev v' [= <- _ _]]|]. intros job'.
  apply moves_bind; [apply billing_rely|]. intros r. destruct (check_refund job' r) as [refund|err].
  - by apply moves_mutate_then, pure_mutation_keeps.
  - apply moves_or_fail; [|intros; apply moves_ret]. apply moves_call; [done|]. apply moves_MutateJob.
    assert (mutation_keeps (X:=X) (compensation_retry err)) by (by intros j v j' ev v' [= <- _ _]).
    assert (mutation_keeps (X:=X) (compensation_rejected err)) by (by apply pure_mutation_keeps).
    destruct (err_exec err) as [x|]; [by destruct (exec_retryable x)|done].
Qed.

Lemma moves_Run id : moves (Run billing id).
Proof.
  apply moves_or_fail; [apply moves_call; [done|apply moves_GetJob]|]. intros job. cbv zeta.
  case_bool_decide; [apply moves_ret|]. apply moves_bind.
  - unfold compensation_in_progress. case_bool_decide; [|apply moves_ret].
    destruct (j_LeaseUntil job); moves_tac.
  - intros [|]; [apply moves_ret|]. destruct (negb _); [apply moves_ret|].
    destruct (blank _); [apply moves_ret|apply moves_run_compensation].
Qed.

Lemma moves_ManualFinalize id points transactionID : moves (ManualFinalize id points transactionID).
Proof.
  apply moves_or_fail; [apply moves_call; [done|apply moves_GetJob]|]. intros job. cbv zeta.
  destruct (_ || _); [apply moves_ret|]. case_bool_decide; [apply moves_ret|].
  destruct (_ || _); [apply moves_ret|]. destruct (_ && _); [apply moves_ret|].
  by apply moves_mutate_then, pure_mutation_keeps.
Qed.
End compensation.

(** ** Answers *)

(** The job a mutation made, as it is stored and returned. *)
Definition returned (made j : GenerationJob) : Prop := ∃ before now, j = cloneJob (stamp_job before made now).

Lemma returned_fields made j :
  returned made j →
  j_Status j = j_Status made ∧ j_RetryCount j = j_RetryCount made ∧ j_CompensationStatus j = j_CompensationStatus made
  ∧ j_ChargedPoints j = j_ChargedPoints made ∧ j_CompensatedPoints j = j_CompensatedPoints made
  ∧ j_NetChargedPoints j = j_NetChargedPoints made ∧ j_RefundTransactionID j = j_RefundTransactionID made
  ∧ j_BillingTransactionID j = j_BillingTransactionID made.
Proof. intros (before & now & ->). repeat split. Qed.

Lemma MutateJob_answers id version mutation (Q : GenerationJob → Prop) :
  (∀ j v made events v', mutation j v = (Ok (made, events), v') → Q made) →
  answers (W := world X) (fun r => match r with Ok j => ∃ made, Q made ∧ returned made j | Err _ => True end)
    (MutateJob id version mutation).
Proof.
  intros HQ w r w' E. pose proof (MutateJob_cases id version mutation w) as Hc. rewrite E in Hc.
  inversion Hc as [|before made events v now s1 ? Hj Hv Hmut Hst Ha Hw _]; subst; [done|].
  exists made. split; [by eapply HQ|]. by exists (cloneJob before), now.
Qed.

Lemma call_answers {A} (P : A → Prop) (c : Eff (world X) A) : answers P c → answers P (call c).
Proof. intros Hc. by apply answers_then. Qed.

(** An answer without an error is a job in a terminal status. *)
Definition settled_answer (a : job_error) : Prop :=
  match a with (job, None) => IsTerminalJobStatus (j_Status job) = true | (_, Some _) => True end.

Lemma mutate_and_finalize_settles job mutation :
  (∀ j v made events v', mutation j v = (Ok (made, events), v') → IsTerminalJobStatus (j_Status made) = true) →
  answers settled_answer (mutate_and_finalize job mutation).
Proof.
  intros HQ. unfold mutate_and_finalize. eapply answers_bind; [apply call_answers, MutateJob_answers, HQ|].
  intros [updated|e]; [|intros _; by apply answers_ret]. intros (made & Hm & Hr). apply answers_then. intros _.
  apply answers_ret. cbn. by rewrite (proj1 (returned_fields _ _ Hr)).
Qed.

Lemma pure_terminal change events :
  (∀ j, IsTerminalJobStatus (j_Status (change j)) = true) →
  ∀ j v made ev v', pure_mutation (X:=X) change events j v = (Ok (made, ev), v') → IsTerminalJobStatus (j_Status made) = true.
Proof. intros Hc j v made ev v' [= <- _ _]. apply Hc. Qed.

Section engine_answers.
Variable f : FinalizationEngine (X:=X).

Lemma settles_completeCommittedReceipt job ids : answers settled_answer (completeCommittedReceipt job ids).
Proof. by apply mutate_and_finalize_settles, pure_terminal. Qed.

Lemma settles_failWithoutCharge job d code : answers settled_answer (failWithoutCharge f job d code).
Proof. apply answers_or_fail; [done|]. intros _. by apply mutate_and_finalize_settles, pure_terminal. Qed.

Lemma charged_failure_terminal d j : IsTerminalJobStatus (j_Status (charged_failure d j)) = true.
Proof. unfold charged_failure. by destruct (j_CancelRequested j). Qed.

Lemma settles_failAfterCharge job check : answers settled_answer (failAfterCharge f job check).
Proof.
  apply answers_or_fail; [done|]. intros _.
  apply mutate_and_finalize_settles, pure_terminal, charged_failure_terminal.
Qed.

Lemma settles_cancelBeforeCommit job : answers settled_answer (cancelBeforeCommit f job).
Proof.
  unfold cancelBeforeCommit. destruct (negb _); [apply settles_failAfterCharge|].
  apply answers_or_fail; [done|]. intros _. by apply mutate_and_finalize_settles, pure_terminal.
Qed.

Lemma settles_failPermanent job stage code cause : answers settled_answer (failPermanent f job stage code cause).
Proof.
  apply answers_or_fail; [done|]. intros _. apply answers_then. intros [updated [e|]]; by apply answers_ret.
Qed.
#[local] Hint Resolve settles_completeCommittedReceipt settles_failWithoutCharge settles_failAfterCharge
  settles_cancelBeforeCommit settles_failPermanent : answers.

Lemma settles_scheduleRetry job stage code cause : answers settled_answer (scheduleRetry f job stage code cause).
Proof.
  unfold scheduleRetry. destruct (_ && _); [destruct (_ && _); auto with answers|].
  apply answers_or_fail; [done|]. intros; by apply answers_ret.
Qed.
#[local] Hint Resolve settles_scheduleRetry : answers.

Lemma settles_handleFinalizeError job cause stage code : answers settled_answer (handleFinalizeError f job cause stage code).
Proof.
  unfold handleFinalizeError. destruct (classifyExecutionError _ _ _) as [[? ?] retryable].
  destruct retryable; [auto with answers|]. destruct (negb _); auto with answers.
Qed.
#[local] Hint Resolve settles_handleFinalizeError : answers.

Lemma settles_finalize_commit job ids : answers settled_answer (finalize_commit f job ids).
Proof.
  unfold finalize_commit. destruct (DeliveryPolicy_Validate _); [auto with answers|].
  eapply answers_bind.
  { apply call_answers, (MutateJob_answers _ _ _ (fun made => IsTerminalJobStatus (j_Status made) = true)).
    intros j v made ev v'. unfold commit_mutation. destruct (j_CancelRequested j); [done|].
    unfold bind_ok. destruct (match f_committer f with _ => _ end v) as [[[]|e] v1]; [|done]. by intros [= <- _ _]. }
  intros [updated|e].
  - intros (made & Hm & Hr). apply answers_then. intros _. apply answers_ret. cbn.
    by rewrite (proj1 (returned_fields _ _ Hr)).
  - intros _. apply answers_then. intros [latest|e2]; [|by apply answers_ret].
    destruct (j_CancelRequested latest); [destruct (negb _); auto with answers|].
    destruct (classifyExecutionError _ _ _) as [[? ?] retryable].
    destruct retryable; [auto with answers|]. destruct (negb _); auto with answers.
Qed.

Lemma settles_finalize_recheck job ids : answers settled_answer (finalize_recheck f job ids).
Proof.
  apply answers_then. intros [check|e]; [|auto with answers].
  destruct (_ || _); [auto with answers|apply settles_finalize_commit].
Qed.

Lemma settles_finalize_charge job ids points breakdown : answers settled_answer (finalize_charge f job ids points breakdown).
Proof.
  unfold finalize_charge. destruct (0 <? points); [|apply settles_finalize_recheck].
  destruct (f_billing f) as [g|]; [|auto with answers].
  apply answers_or_fail; [done|]. intros job'. apply answers_then. intros [charge|e].
  - destruct (blank _); [auto with answers|]. apply answers_or_fail; [done|]. intros; apply settles_finalize_recheck.
  - destruct (classifyExecutionError _ _ _) as [[? ?] retryable]. destruct retryable; auto with answers.
Qed.

Lemma settles_finalize_check job ids points breakdown : answers settled_answer (finalize_check f job ids points breakdown).
Proof.
  apply answers_then. intros [check|e]; [|auto with answers].
  destruct (negb (bc_TargetExists check)); [destruct (negb _); auto with answers|].
  destruct (negb (bc_Matches check)); [destruct (negb _); auto with answers|]. apply settles_finalize_charge.
Qed.

Lemma settles_finalize_receipt job r points breakdown :
  answers settled_answer (finalize_receipt f job r points breakdown).
Proof.
  assert (answers settled_answer (finalize_rest f job r points breakdown)) as Hrest.
  { unfold finalize_rest. destruct (j_CancelRequested job); [auto with answers|].
    unfold finalize_assets. destruct (j_ResultAssetIDs job); [|apply settles_finalize_check].
    apply answers_then. intros [ids|e]; [|auto with answers].
    apply answers_or_fail; [done|]. intros; apply settles_finalize_check. }
  unfold finalize_receipt. destruct (f_inspector f) as [c|]; [|done].
  destruct (match j_ResultAssetIDs job return list string with [] => pr_AssetIDs r | _ :: _ => _ end) as [|id ids]; [done|].
  apply answers_then. intros [[|]|e]; auto with answers.
Qed.

Lemma settles_Finalize id r : answers settled_answer (Finalize f id r).
Proof.
  eapply (answers_or_fail); [done|]. intros job0.
  destruct (IsTerminalJobStatus (j_Status job0)) eqn:Et; [by apply answers_ret|].
  apply answers_or_fail; [done|]. intros job1. apply answers_then.
  intros [[points breakdown]|e]; [|auto with answers].
  apply answers_or_fail; [done|]. intros; apply settles_finalize_receipt.
Qed.

(** Finalization ends in a settled job: whatever the services answer and
    whatever the other workers do, an answer without an error is a job in a
    terminal status -- delivered, failed or cancelled, never one left
    half-finalized. *)
Theorem finalize_settles id r w job w' :
  Finalize f id r w = ((job, None), w') → IsTerminalJobStatus (j_Status job) = true.
Proof. exact (settles_Finalize id r w (job, None) w'). Qed.
End engine_answers.
End engine_moves.
