(* ===== verification/Adapters.v ===== *)
(** * The adapters of the generation runtime

    [internal/aigc/generationruntime/adapters.go]: the billing gateway over the
    point ledger and the default cost calculator.  The ledger is part of the
    world outside the generation store: a [Ledger] says where. *)

From Stdlib Require Import ZArith Lia.
From S2P Require Import Prelude GoJson Billing GenModels WorkflowStore Barrier ProviderPolicy Finalization.

(** Where the ledger lives in the state of the outside world. *)
Class Ledger (X : Type) := {
  ledger_of : X → Billing.MemoryStore;
  set_ledger : Billing.MemoryStore → X → X
}.

Class LedgerLaws (X : Type) `{Ledger X} := {
  ledger_of_set s x : ledger_of (set_ledger s x) = s;
  set_ledger_same x : set_ledger (ledger_of x) x = x
}.

#[global] Instance Ledger_self : Ledger Billing.MemoryStore := {| ledger_of x := x; set_ledger s _ := s |}.
#[global] Instance LedgerLaws_self : LedgerLaws Billing.MemoryStore.
Proof. by split. Qed.

Section adapters.
Context `{Runtime} {X : Type} `{Ledger X}.

(** One call of the ledger: it reads the clock and moves the ledger alone. *)
Definition on_ledger (op : Billing.MemoryStore → Time → Billing.MemoryStore * result Billing.Result) :
    Eff (world X) (result Billing.Result) := lift_env (fun v =>
  let '(s, r) := op (ledger_of (env_ext v)) (clock_at (env_reads v)) in
  (r, mkEnv (S (env_reads v)) (env_ids v) (set_ledger s (env_ext v)))).

Definition billing_permanent (err : error) : bool :=
  errors_Is err Billing.ErrAccountNotFound || errors_Is err Billing.ErrInsufficientPoints
  || errors_Is err Billing.ErrTransactionNotFound || errors_Is err Billing.ErrRefundExceedsCharge
  || errors_Is err Billing.ErrIdempotencyConflict.

Definition charge_mutation_request (q : ChargeRequest) : Billing.MutationRequest :=
  Billing.mkMutationRequest ("charge:" +:+ cq_JobID q) (cq_UserID q) (cq_IdempotencyKey q) ""
    (cq_OperationID q) (cq_BatchID q) (cq_JobID q) (cq_Points q) (cq_Breakdown q) None.

Definition BillingAdapter_Charge (q : ChargeRequest) : Eff (world X) (result ChargeResult) :=
  let* r := on_ledger (fun s now => Billing.Charge s (charge_mutation_request q) now) in
  match r with
  | Err err => fail (NewExecutionError ErrorStageBilling "billing_rejected" (negb (billing_permanent err)) err)
  | Ok result =>
      let t := Billing.r_Transaction result in
      ret (Ok (mkChargeResult (Billing.t_ID t) (Billing.t_Points t) (Billing.t_Breakdown t) (Some (Billing.t_BalanceAfter t))))
  end.

Definition refund_mutation_request (q : RefundRequest) : Billing.MutationRequest :=
  Billing.mkMutationRequest ("refund:" +:+ rq_JobID q) (rq_UserID q) (rq_IdempotencyKey q) (rq_BillingTransactionID q)
    (rq_OperationID q) (rq_BatchID q) (rq_JobID q) (rq_Points q) None None.

Definition BillingAdapter_Refund (q : RefundRequest) : Eff (world X) (result RefundResult) :=
  let* r := on_ledger (fun s now => Billing.Refund s (refund_mutation_request q) now) in
  match r with
  | Err err => fail (NewExecutionError ErrorStageBilling "billing_refund_failed" (negb (billing_permanent err)) err)
  | Ok result =>
      let t := Billing.r_Transaction result in
      ret (Ok (mkRefundResult (Billing.t_ID t) (Billing.t_Points t) (Some (Billing.t_BalanceAfter t))))
  end.

Definition BillingAdapter : BillingGateway (X:=X) := mkBillingGateway BillingAdapter_Charge BillingAdapter_Refund.
End adapters.

(** ** Costs *)

Definition default_points (kind : string) : Z :=
  if bool_decide (kind = "video") then 120
  else if bool_decide (kind ∈ ["audio"; "music"; "voice"]) then 30
  else 12.

Definition Estimate (points : gomap Z) (job : GenerationJob) : Z :=
  let kind := ToLower (j_MediaKind job) in
  wrap64 (default (default_points kind) (go_lookup points kind) * OutputVariantCount job).

Definition Calculate (points : gomap Z) (job : GenerationJob) (r : ProviderResult) : result (Z * gomap Z) :=
  if pr_UsageReported r || (0 <? pr_ActualPoints r) || (0 <? Z.of_nat (go_len (pr_CostBreakdown r)))
  then Ok (pr_ActualPoints r, pr_CostBreakdown r)
  else
    let estimate := Estimate points job in
    Ok (estimate, Some {[ToLower (j_MediaKind job) := estimate]}).
