(* ===== verification/CompensationProps.v ===== *)
(** * Refunds, end to end

    The compensation service over the point ledger: what a run refunds, and
    that running it again refunds nothing more. *)

From Stdlib Require Import ZArith Lia.
From S2P Require Import Prelude GoJson Billing GenModels WorkflowStore Samples WorkflowStoreProps WorkflowRuns.
From S2P Require Import Barrier BarrierProps ProviderPolicy Finalization Steps FinalizationProps Adapters.

Section quiet.
Context `{Runtime} {X : Type} `{Concurrency X}.
Implicit Types (w : world X).

(** ** The barrier leaves jobs alone *)

Lemma TryFinalize_job id w r w' jid j :
  store_wf (w_store w) → TryFinalize id w = (r, w') → jobs (w_store w) !! jid = Some j → cloneJob j = j →
  jobs (w_store w') !! jid = Some j.
Proof.
  intros Hwf E Hj Hc. pose proof (TryFinalize_cases id w) as Ht. rewrite E in Ht.
  inversion Ht as [err ? Hw|batch operation operation1 batch1 events captured now s1 ? ? bid js Hb Ho Hout batch2 operation2
    Ha Hw _ _ _]; subst; [by rewrite Hw|].
  rewrite Hw. cbn. destruct (ap_same _ _ _ Ha) as (_ & _ & _ & -> & _).
  set (ids := default [] (jobIDsByBatch (w_store w) !! bid)).
  destruct (decide (jid ∈ ids)) as [Hin|]; [|by rewrite store_jobs_notin].
  apply list_elem_of_lookup_1 in Hin as [i Hi].
  destruct (batch_jobs_lookup _ _ _ _ Hwf Hi) as (j' & Hj' & _ & Hl). assert (j' = j) as -> by congruence.
  rewrite Hc in Hl. rewrite (store_jobs_lookup _ _ _ i jid j); [by rewrite Hc|by apply batch_ids_NoDup|done|done].
Qed.

Lemma tryFinalize_job id w w' jid j :
  store_wf (w_store w) → tryFinalizeBatchBestEffort id w = (tt, w') →
  jobs (w_store w) !! jid = Some j → cloneJob j = j → jobs (w_store w') !! jid = Some j.
Proof.
  intros Hwf. unfold tryFinalizeBatchBestEffort. destruct (blank id); [by intros [= <-]|].
  unfold bind. destruct (TryFinalize id w) as [r w1] eqn:E. intros [= <-] Hj Hc. by eapply TryFinalize_job.
Qed.

(** A mutation of a stored job, with what it leaves. *)
Lemma MutateJob_at id version mutation w stored job' w' :
  store_wf (w_store w) → mutation_keeps mutation → jobs (w_store w) !! id = Some stored →
  MutateJob id version mutation w = (Ok job', w') →
  ∃ made events v, mutation stored (w_env w) = (Ok (made, events), v) ∧ returned made job'
    ∧ jobs (w_store w') !! id = Some job' ∧ cloneJob job' = job'
    ∧ store_wf (w_store w').
Proof.
  intros Hwf Hk Hj E. pose proof (MutateJob_wf _ _ _ _ _ _ Hwf Hk E) as Hwf'.
  destruct (sw_job _ Hwf _ _ Hj) as (Eid & Htrim & _).
  assert (TrimSpace id = id) as Ht by congruence.
  pose proof (MutateJob_cases id version mutation w) as Hc. rewrite E in Hc.
  inversion Hc as [|before made events v now s1 ? Hb Hv Hmut Hst Ha Hw Hext]; subst; clear Hc.
  rewrite Ht in Hb, Hw. assert (before = stored) as -> by congruence.
  exists made, events, v. split; [done|]. split; [by exists (cloneJob stored), now|].
  split; [rewrite Hw; cbn; by rewrite lookup_insert_eq|]. split; [apply cloneJob_idem|done].
Qed.

(** The other workers use the commands of the store, and leave the job [jid] alone. *)
Variable jid : string.
Hypothesis others_move : moves (others (X:=X)).
Hypothesis others_leave : ∀ w, jobs (w_store (others (X:=X) w).2) !! jid = jobs (w_store w) !! jid.

Lemma call_at {A} (c : Eff (world X) A) w a w' :
  call c w = (a, w') → ∃ w0, c w0 = (a, w') ∧ rtc store_step w w0 ∧ jobs (w_store w0) !! jid = jobs (w_store w) !! jid.
Proof.
  unfold call, bind. specialize (others_leave w). destruct (others w) as [u w0] eqn:E. intros Ec.
  exists w0. split; [done|]. split; [by eapply others_move|done].
Qed.

Lemma wf_moves w w' : rtc store_step w w' → store_wf (w_store w) → store_wf (w_store w').
Proof. intros Hm Hwf. by apply (run_evolves w w'). Qed.

Lemma mutate_and_finalize_at job mutation w stored job' w' :
  j_ID job = jid → store_wf (w_store w) → mutation_keeps mutation → jobs (w_store w) !! jid = Some stored →
  mutate_and_finalize job mutation w = ((job', None), w') →
  ∃ made events v v', mutation stored v = (Ok (made, events), v') ∧ returned made job'
    ∧ jobs (w_store w') !! jid = Some job' ∧ cloneJob job' = job' ∧ rtc store_step w w'.
Proof.
  intros Hid Hwf Hk Hj E. assert (Hm : moves (mutate_and_finalize job mutation)) by (unfold mutate_and_finalize; moves_tac).
  pose proof (Hm _ _ _ E) as Hmoves. revert E. unfold mutate_and_finalize, bind.
  destruct (call (MutateJob _ _ _) w) as [[updated|e] w1] eqn:E1; [|done].
  apply call_at in E1 as (w0 & E1 & M0 & J0). rewrite Hid in E1. rewrite <-J0 in Hj.
  destruct (MutateJob_at _ _ _ _ _ _ _ (wf_moves _ _ M0 Hwf) Hk Hj E1) as (made & events & v & Hmut & Hr & Hj1 & Hc & Hwf1).
  destruct (call _ w1) as [[] w2] eqn:E2. intros [= <- <-]. apply call_at in E2 as (w3 & E2 & M3 & J3). rewrite <-J3 in Hj1.
  exists made, events, (w_env w0), v. split_and!; try done.
  eapply tryFinalize_job; [exact (wf_moves _ _ M3 Hwf1)|exact E2|exact Hj1|exact Hc].
Qed.

Definition needs_refund (job : GenerationJob) : Prop :=
  normalizedCompensationStatus (j_CompensationStatus job)
    ∉ [CompensationCompleted; CompensationManualFinal; CompensationNotRequired].
#[global] Instance needs_refund_dec job : Decision (needs_refund job).
Proof. unfold needs_refund. apply _. Defined.

Lemma check_refund_ok job r refund :
  check_refund job r = Ok refund →
  r = Ok refund ∧ 0 <= rr_RefundedPoints refund <= j_ChargedPoints job.
Proof.
  unfold check_refund. destruct r as [x|]; [|done]. destruct (blank (rr_TransactionID x)) eqn:Eb; [done|].
  destruct (_ || _) eqn:E; [done|]. intros [= ->]. split; [done|]. lia.
Qed.

Section gateway.
Variable billing : BillingGateway (X:=X).
Hypothesis refund_quiet : ∀ q w r w', gw_Refund billing q w = (r, w') → w_store w' = w_store w.

(** The part of a job a refund request is made of. *)
Lemma claim_request made claimed stored now claimID :
  returned made claimed →
  made = stored <| j_CompensationStatus := CompensationRunning |> <| j_Phase := PhaseCompensation |>
                <| j_LeaseOwner := claimID |> <| j_LeaseUntil := now |> →
  refund_request claimed = refund_request stored ∧ j_ID claimed = j_ID stored
  ∧ j_ChargedPoints claimed = j_ChargedPoints stored.
Proof. intros (before & t & ->) ->. repeat split. Qed.

Lemma completed_fields stored refund job' :
  returned (release ((settle_compensation CompensationCompleted (rr_RefundedPoints refund) (rr_TransactionID refund) stored)
               <| j_BalanceAfter := cloneInt64Pointer (rr_BalanceAfter refund) |>)) job' →
  j_CompensationStatus job' = CompensationCompleted
  ∧ j_CompensatedPoints job' = rr_RefundedPoints refund
  ∧ j_ChargedPoints job' = j_ChargedPoints stored
  ∧ j_NetChargedPoints job' = wrap64 (j_ChargedPoints stored - rr_RefundedPoints refund)
  ∧ j_RefundTransactionID job' = rr_TransactionID refund.
Proof. intros (before & t & ->). repeat split. Qed.

(** A run that reports success asked the gateway once, for the job as it was
    stored, and recorded the answer. *)
Lemma run_compensation_ok stored w job' w' :
  j_ID stored = jid → store_wf (w_store w) → jobs (w_store w) !! jid = Some stored →
  run_compensation billing (cloneJob stored) w = ((job', None), w') →
  ∃ w1 w2 refund, rtc store_step w w1
    ∧ gw_Refund billing (refund_request stored) w1 = (Ok refund, w2)
    ∧ rtc store_step w2 w'
    ∧ 0 <= rr_RefundedPoints refund <= j_ChargedPoints stored
    ∧ jobs (w_store w') !! jid = Some job'
    ∧ j_CompensationStatus job' = CompensationCompleted
    ∧ j_CompensatedPoints job' = rr_RefundedPoints refund
    ∧ j_ChargedPoints job' = j_ChargedPoints stored
    ∧ j_NetChargedPoints job' = wrap64 (j_ChargedPoints stored - rr_RefundedPoints refund)
    ∧ cloneJob job' = job'.
Proof.
  intros Hsid Hwf Hj. unfold run_compensation, bind. destruct (s_newID w) as [claimID w0] eqn:E0.
  assert (w_store w0 = w_store w) as Hs0 by (by injection E0 as _ <-). pose proof (moves_s_newID _ _ _ E0) as M0.
  unfold or_fail at 1. destruct (call (MutateJob _ _ _) w0) as [[claimed|e] w1] eqn:E; [|done].
  assert (Hk : mutation_keeps (X:=X) (compensation_claim ("compensation:" +:+ claimID))) by (by intros j u j' ev v' [= <- _ _]).
  assert (M1 : rtc store_step w0 w1) by (eapply moves_call, E; [exact others_move|by apply moves_MutateJob]).
  apply call_at in E as (wa & E & Ma & Ja). change (j_ID (cloneJob stored)) with (j_ID stored) in E. rewrite Hsid in E.
  eapply MutateJob_at in E as (made & events & v & Hm & Hr & Hj1 & Hc & Hwf1);
    [|apply (wf_moves _ _ Ma); by rewrite Hs0|exact Hk|by rewrite Ja, Hs0].
  injection Hm as Hmade _ Hv.
  destruct (claim_request _ _ _ _ _ Hr (eq_sym Hmade)) as (Hreq & Hid & Hch). rewrite Hreq.
  destruct (gw_Refund billing (refund_request stored) w1) as [r w2] eqn:Eg.
  pose proof (refund_quiet _ _ _ _ Eg) as Hs.
  destruct (check_refund claimed r) as [refund|err] eqn:Ec.
  - apply check_refund_ok in Ec as [-> Hb]. intros E2.
    eapply mutate_and_finalize_at in E2 as (made2 & events2 & v2 & v2' & Hm2 & Hr2 & Hj2 & Hc2 & M2);
      [|congruence|by rewrite Hs|by apply pure_mutation_keeps|by rewrite Hs, Hj1].
    injection Hm2 as Hmade2 _ _. rewrite <-Hmade2 in Hr2.
    destruct (completed_fields _ _ _ Hr2) as (F1 & F2 & F3 & F4 & F5). rewrite Hch in *.
    exists w1, w2, refund. split; [by etrans|]. by split_and!; try lia.
  - unfold or_fail. destruct (call _ w2) as [[?|?] ?]; done.
Qed.
End gateway.

(** ** Over the point ledger *)

Context `{LedgerLaws X}.

Lemma BillingAdapter_Refund_ok q w refund w' :
  BillingAdapter_Refund q w = (Ok refund, w') →
  ∃ now r, Billing.Refund (ledger_of (env_ext (w_env w))) (refund_mutation_request q) now
             = (ledger_of (env_ext (w_env w')), Ok r)
    ∧ rr_TransactionID refund = Billing.t_ID (Billing.r_Transaction r)
    ∧ rr_RefundedPoints refund = Billing.t_Points (Billing.r_Transaction r).
Proof.
  unfold BillingAdapter_Refund, bind, on_ledger, lift_env.
  destruct (Billing.Refund _ _ _) as [s [r|e]] eqn:E; [|done]. intros [= <- <-].
  exists (clock_at (env_reads (w_env w))), r. cbn. by rewrite ledger_of_set.
Qed.

Lemma BillingAdapter_Refund_quiet q w r w' : BillingAdapter_Refund q w = (r, w') → w_store w' = w_store w.
Proof.
  unfold BillingAdapter_Refund, bind, on_ledger, lift_env.
  destruct (Billing.Refund _ _ _) as [s [x|e]]; by intros [= _ <-].
Qed.

(** What a successful refund did: it is bound to its key, for the points asked
    for, and credited them unless an earlier one already had. *)
Lemma Refund_effect s q now s' r :
  Billing.Refund s q now = (s', Ok r) →
  Billing.t_Points (Billing.r_Transaction r) = Billing.q_Points q
  ∧ (∀ now2, Billing.Refund s' q now2 = (s', Ok (Billing.mkResult (Billing.r_Transaction r) true)))
  ∧ match Billing.byKey s !! TrimSpace (Billing.q_IdempotencyKey q) with
    | Some _ => s' = s
    | None => ∃ a, Billing.accounts s !! TrimSpace (Billing.q_UserID q) = Some a
        ∧ (Billing.a_Balance <$> Billing.accounts s' !! TrimSpace (Billing.q_UserID q))
          = Some (wrap64 (Billing.a_Balance a + Billing.q_Points q))
    end.
Proof.
  intros E. destruct (Billing.mutate_binds _ _ _ _ _ _ E) as (id & Hk & Ht & Hv & Hr).
  pose proof (Billing.validateIdempotentReplay_spec (Billing.r_Transaction r) Billing.KindRefund
                (Billing.normalizeMutationRequest q)) as Hs.
  rewrite Hr in Hs. unfold Billing.same_mutation in Hs. rewrite !andb_true_iff in Hs.
  destruct Hs as (((((((_ & _) & Hp%Z.eqb_eq) & _) & _) & _) & _) & _).
  split; [exact Hp|]. split.
  { intros now2. unfold Billing.Refund. rewrite (Billing.mutate_bound _ _ _ _ _ Hk Hv). rewrite Ht. cbv zeta. by rewrite Hr. }
  pose proof (Billing.mutate_cases s q Billing.KindRefund now) as Hc. unfold Billing.Refund in E. rewrite E in Hc.
  inversion Hc as [|id2 Hv2 Hk2 t Ht2 Hr2|a q' Hacc]; subst.
  - by rewrite Hk2.
  - pose proof (Billing.ac_key _ _ _ _ Hacc) as Hn.
    change (Billing.q_IdempotencyKey q') with (TrimSpace (Billing.q_IdempotencyKey q)) in Hn. rewrite Hn.
    exists a. split; [apply (Billing.ac_account _ _ _ _ Hacc)|].
    unfold Billing.posted. cbn. rewrite lookup_insert_eq. done.
Qed.

Lemma GetJob_stored id w stored :
  jobs (w_store w) !! TrimSpace id = Some stored → GetJob id w = (Ok (cloneJob stored), w).
Proof. intros Hj. unfold GetJob. cbn [bind get_store]. by rewrite Hj. Qed.

End quiet.

(** ** A concrete run

    A job is finalized by an engine whose target disappears right after the
    charge, so that it fails with its charge to be refunded. *)
Module CompensationSample.
#[global] Instance alone : Concurrency Billing.MemoryStore := {| others := ret tt |}.
Lemma alone_quiet (w : world Billing.MemoryStore) : others w = (tt, w).
Proof. reflexivity. Qed.
Lemma alone_leaves (w : world Billing.MemoryStore) : (others w).2 = w.
Proof. reflexivity. Qed.

Definition ledger : Billing.MemoryStore := fst (Billing.EnsureAccount Billing.NewMemoryStore "user-1" 100 5).
Definition world0 : world Billing.MemoryStore := mkWorld NewMemoryStore (mkEnv 0 0 ledger).

Definition start : JobMutation (X:=Billing.MemoryStore) := pure_mutation (fun j => j <| j_Status := StatusRunning |>) no_events.
Definition created : world Billing.MemoryStore := (CreateWorkflow (H:=Sample.runtime) Sample.command world0).2.
Definition world1 : world Billing.MemoryStore := (MutateJob (H:=Sample.runtime) "job-1" 1 start created).2.

Definition engine : FinalizationEngine (X:=Billing.MemoryStore) := {|
  f_artifacts := None;
  f_bindings := Some (fun token w =>
    let exists_ := bool_decide (Billing.byKey (env_ext (w_env w)) = ∅) in (Ok (mkBindingCheck exists_ true token), w));
  f_committer := None; f_inspector := None; f_discarder := None;
  f_billing := Some (BillingAdapter (H:=Sample.runtime));
  f_calculator := Some (fun job r => ret (Calculate None job r))
|}.

Definition provider_result : ProviderResult := zeroProviderResult <| pr_Status := "succeeded" |> <| pr_AssetIDs := ["asset-1"] |>.

(** The world after finalization, and after the compensation. *)
Definition world2 : world Billing.MemoryStore := (Finalize (H:=Sample.runtime) engine "job-1" provider_result world1).2.
Definition world3 : world Billing.MemoryStore :=
  (Run (H:=Sample.runtime) (BillingAdapter (H:=Sample.runtime)) "job-1" world2).2.

Definition shown (w : world Billing.MemoryStore) :=
  (fun j => (j_Status j, j_CompensationStatus j, j_ChargedPoints j, j_NetChargedPoints j,
     Billing.a_Balance <$> Billing.accounts (env_ext (w_env w)) !! "user-1")) <$> jobs (w_store w) !! "job-1".

Example concrete_run :
  (shown world1, shown world2, shown world3)
  = (Some (StatusRunning, CompensationNotRequired, 0, 0, Some 100),
     Some (StatusFailed, CompensationPending, 12, 12, Some 88),
     Some (StatusFailed, CompensationCompleted, 12, 0, Some 100)).
Proof. vm_compute. reflexivity. Qed.

Lemma adapter_rely : gateway_rely (H:=Sample.runtime) (X:=Billing.MemoryStore) (BillingAdapter (H:=Sample.runtime)).
Proof.
  split; intros q; (apply moves_bind; [apply moves_env|intros [r|e]; [apply moves_ret|apply moves_fail]]).
Qed.

Lemma rely : engine_rely (H:=Sample.runtime) engine.
Proof.
  split; cbn; intros; simplify_eq; try (by apply moves_ret); [|apply adapter_rely].
  intros w a w' [= _ <-]. apply rtc_refl.
Qed.

Lemma world1_run : rtc (store_step (H:=Sample.runtime)) world0 world1.
Proof.
  assert (store_step (H:=Sample.runtime) world0 created) as H1.
  { eapply step_create. unfold created. apply surjective_pairing. }
  assert (mutation_keeps start) as Hk by (apply pure_mutation_keeps; by intros j).
  eapply rtc_l; [exact H1|]. clear H1. apply rtc_once. unfold world1. generalize created. intros w.
  eapply step_mutate; [exact Hk|apply surjective_pairing].
Qed.

Lemma world2_run : rtc (store_step (H:=Sample.runtime)) world0 world2.
Proof.
  etrans; [exact world1_run|]. unfold world2. generalize world1. intros w.
  eapply (moves_Finalize (H:=Sample.runtime) engine rely), surjective_pairing.
Qed.

Lemma world2_wf : store_wf (w_store world2).
Proof. apply (run_evolves (H:=Sample.runtime) world0); [apply new_store_wf|exact world2_run]. Qed.

Lemma stored_charged : ∃ stored, jobs (w_store world2) !! TrimSpace "job-1" = Some stored
  ∧ bool_decide (needs_refund stored) = true ∧ j_ChargedPoints stored = 12.
Proof.
  assert (match jobs (w_store world2) !! TrimSpace "job-1" with
          | Some j => bool_decide (needs_refund j) && (j_ChargedPoints j =? 12)
          | None => false
          end = true) as Ht by (vm_compute; reflexivity).
  apply tested_Some in Ht as (stored & Hj & [Hn Hp%Z.eqb_eq]%andb_prop).
  exists stored. split; [exact Hj|]. split; [exact Hn|exact Hp].
Qed.

Lemma run_ok : ∃ job', Run (H:=Sample.runtime) (BillingAdapter (H:=Sample.runtime)) "job-1" world2 = ((job', None), world3).
Proof.
  unfold world3. destruct (Run _ _ world2) as [[job' e] w'] eqn:E.
  assert (e = None) as ->. { apply (f_equal (fun x => x.1.2)) in E. cbn in E. rewrite <-E. vm_compute. reflexivity. }
  by exists job'.
Qed.
End CompensationSample.


Lemma finalize_settles_witness :
  ∃ job, Finalize (H:=Sample.runtime) CompensationSample.engine "job-1" CompensationSample.provider_result CompensationSample.world1
           = ((job, None), CompensationSample.world2)
         ∧ IsTerminalJobStatus (j_Status job) = true.
Proof.
  assert (∃ job, Finalize (H:=Sample.runtime) CompensationSample.engine "job-1" CompensationSample.provider_result CompensationSample.world1
           = ((job, None), CompensationSample.world2)) as [job E].
  { unfold CompensationSample.world2. destruct (Finalize _ _ _ _) as [[job e] w'] eqn:E.
    assert (e = None) as ->. { apply (f_equal (fun x => x.1.2)) in E. cbn in E. rewrite <-E. vm_compute. reflexivity. }
    by exists job. }
  exists job. split; [exact E|]. exact (finalize_settles (H:=Sample.runtime) _ _ _ _ _ _ E).
Defined.
