(* ===== verification/LifecycleWorker.v ===== *)
(** * The lifecycle worker

    [internal/aigc/generation/lifecycle_worker.go]: one wake-up of a job, from
    the claim of its lease through the provider call to finalization, and
    [legacy_provider_adapter.go].  The providers and the receipt recovery are
    fields of the worker.  While a provider call or a finalization runs, the
    worker's heartbeat goroutine renews the lease: [ticks] says how often it
    fires before and after the call's own work; its ticks in between are
    part of what [others] may do. *)

From Stdlib Require Import ZArith Lia.
From S2P Require Import Prelude GoJson GenModels WorkflowStore Barrier ProviderPolicy Finalization.

Definition ProviderStateAccepted := "accepted".
Definition ProviderStatePending := "pending".
Definition ProviderStateCompleted := "completed".
Definition ProviderStateFailed := "failed".
Definition ProviderStateCancelled := "cancelled".

Record ProviderResponse := mkProviderResponse {
  ps_State : string;
  ps_TaskID : string;
  ps_RequestID : string;
  ps_Status : string;
  ps_RetryAfter : Z;
  ps_Result : ProviderResult
}.
#[global] Instance eta_ProviderResponse : Eta ProviderResponse := fun r =>
  mkProviderResponse (ps_State r) (ps_TaskID r) (ps_RequestID r) (ps_Status r)
  (ps_RetryAfter r) (ps_Result r).
Definition zeroProviderResponse : ProviderResponse :=
  mkProviderResponse "" "" "" "" 0 zeroProviderResult.

Record ProviderCancelResult := mkProviderCancelResult {
  pc_Confirmed : bool;
  pc_Status : string
}.

Record QueuePayload := mkQueuePayload {
  qp_JobID : string;
  qp_IdempotencyKey : string;
  qp_EnqueuedAt : Time
}.

(** ** Receipts *)

Definition count_values (left : list string) : gmap string Z :=
  foldl (fun seen value => <[value := default 0 (seen !! value) + 1]> seen) ∅ left.

Fixpoint uses_up (seen : gmap string Z) (right : list string) : bool :=
  match right with
  | [] => true
  | value :: right' =>
      let n := default 0 (seen !! value) in
      if n =? 0 then false else uses_up (<[value := n - 1]> seen) right'
  end.

Definition sameStringSet (left right : list string) : bool :=
  if negb (bool_decide (length left = length right)) then false else uses_up (count_values left) right.

Definition providerResultFromJob (job : GenerationJob) : ProviderResult :=
  let charged := negb (j_ProviderUsageRecorded job) && bool_decide (j_BillingStatus job = BillingCharged) in
  mkProviderResult (j_ProviderTaskID job) (j_ProviderRequestID job) (j_ProviderStatus job)
    (j_ResultAssetIDs job) (cloneMap (j_Result job)) (j_ProviderUsageReported job)
    (if charged then j_ChargedPoints job else j_ProviderActualPoints job)
    (cloneInt64Map (if charged then j_CostBreakdown job else j_ProviderCostBreakdown job)).

(** The part of a receipt a job keeps: the usage is recorded once. *)
Definition record_usage (r : ProviderResult) (current : GenerationJob) : GenerationJob :=
  if j_ProviderUsageRecorded current then current
  else current <| j_ProviderUsageRecorded := true |>
               <| j_ProviderUsageReported := providerUsageWasReported r |>
               <| j_ProviderActualPoints := pr_ActualPoints r |>
               <| j_ProviderCostBreakdown := cloneInt64Map (pr_CostBreakdown r) |>.

Definition keep_outputs (r : ProviderResult) (current : GenerationJob) : GenerationJob :=
  current <| j_Result := cloneMap (pr_Payload r) |> <| j_ResultAssetIDs := pr_AssetIDs r |>.

Definition heartbeat_interval (leaseDuration : Z) : Z :=
  let interval := Z.quot leaseDuration 3 in if interval <? second then second else interval.

Definition dispatch_event (key : string) (job : GenerationJob) (fields : list (string * any)) : OutboxEvent :=
  zeroOutboxEvent <| e_IdempotencyKey := key |> <| e_EventType := EventJobDispatch |>
    <| e_Destination := DestinationMediaJobs |> <| e_AvailableAt := j_NextRunAt job |>
    <| e_Payload := payload fields |>.

(** ** The worker *)

Class Ticking (X : Type) := { ticks : env X → nat }.

Section worker.
Context `{Runtime} {X : Type} `{Concurrency X} `{Ticking X}.

Record ProviderAdapter := mkProviderAdapter {
  pa_Submit : GenerationJob → Eff (world X) (result ProviderResponse);
  pa_Poll : GenerationJob → Eff (world X) (result ProviderResponse);
  pa_Cancel : GenerationJob → Eff (world X) (result ProviderCancelResult)
}.

Record LifecycleWorker := mkLifecycleWorker {
  lw_queue : option (Z → Eff (world X) (QueuePayload * bool * option error));
  lw_providers : gmap string ProviderAdapter;
  lw_finalizer : FinalizationEngine (X:=X);
  lw_resultRecovery : option (GenerationJob → Eff (world X) (result (ProviderResult * bool)));
  lw_workerID : string;
  lw_leaseDuration : Z;
  lw_pollTimeout : Z
}.

Record LifecycleWorkerConfig := mkLifecycleWorkerConfig {
  lc_Queue : option (Z → Eff (world X) (QueuePayload * bool * option error));
  lc_Providers : option (gmap string ProviderAdapter);
  lc_Finalizer : option (FinalizationEngine (X:=X));
  lc_ResultRecovery : option (GenerationJob → Eff (world X) (result (ProviderResult * bool)));
  lc_WorkerID : string;
  lc_LeaseDuration : Z;
  lc_PollTimeout : Z
}.

Definition NewLifecycleWorker (config : LifecycleWorkerConfig) : Eff (world X) LifecycleWorker :=
  let* workerID := (if blank (lc_WorkerID config)
                    then let* id := s_newID in ret ("generation-worker-" +:+ id)
                    else ret (lc_WorkerID config)) in
  ret (mkLifecycleWorker (lc_Queue config) (default ∅ (lc_Providers config))
    (default (mkFinalizationEngine None None None None None None None) (lc_Finalizer config))
    (lc_ResultRecovery config) workerID
    (if lc_LeaseDuration config <=? 0 then 30 * second else lc_LeaseDuration config)
    (if lc_PollTimeout config <=? 0 then second else lc_PollTimeout config)).

Section methods.
Variable w : LifecycleWorker.

(** *** The heartbeat *)

(** [n] ticks; the first that cannot renew the lease ends the heartbeat. *)
Fixpoint renew_lease (n : nat) (job : GenerationJob) : Eff (world X) (option error) :=
  match n with
  | O => ret None
  | S n' =>
      let* now := s_clock in
      let* r := call (RenewJobLease (j_ID job) (lw_workerID w) (now + lw_leaseDuration w)) in
      match r with
      | Err e => ret (Some e)
      | Ok _ => renew_lease n' job
      end
  end.

Definition ticks_now : Eff (world X) nat := fun s => (ticks (w_env s), s).

(** A call under a heartbeat, and the heartbeat's error. *)
Definition startProviderHeartbeat {A} (job : GenerationJob) (body : Eff (world X) A) : Eff (world X) (A * option error) :=
  let* early := ticks_now in
  let* failed := renew_lease early job in
  let* a := body in
  let* late := ticks_now in
  let* failed := (match failed with Some e => ret (Some e) | None => renew_lease late job end) in
  ret (a, failed).

(** *** Claims and ends *)

Definition lease (now : Time) (current : GenerationJob) : GenerationJob :=
  current <| j_LeaseOwner := lw_workerID w |> <| j_LeaseUntil := Some (now + lw_leaseDuration w) |>.

Definition timed_mutation (change : Time → GenerationJob → GenerationJob) (events : GenerationJob → list OutboxEvent) :
    JobMutation (X := X) := fun current =>
  let* now := clock in
  let current := change now current in ret (Ok (current, events current)).

Definition cancelJob (job : GenerationJob) (code : string) : Eff (world X) job_error :=
  got* _ := DiscardUndelivered (lw_finalizer w) job "cancelled" in
  mutate_and_finalize job (pure_mutation
    (fun current => release (current <| j_Status := StatusCancelled |> <| j_ErrorCode := code |>
       <| j_ErrorMessage := code |> <| j_CompensationStatus := CompensationNotRequired |>))
    (fun current =>
    [session_event ("job:" +:+ j_ID current +:+ ":cancelled") "job.cancelled"
       [("status", AStr StatusCancelled); ("error_code", AStr code)];
     newBatchFinalizeRequestedEvent current "terminal"])).

Definition provider_failure (code : string) (cause : error) (current : GenerationJob) : GenerationJob :=
  release (current <| j_Status := StatusFailed |> <| j_ErrorStage := ErrorStageProvider |> <| j_ErrorCode := code |>
    <| j_ErrorMessage := err_text cause |> <| j_Retryable := false |>
    <| j_CompensationStatus := CompensationNotRequired |>).

Definition failProvider (job : GenerationJob) (code : string) (cause : error) : Eff (world X) job_error :=
  got* _ := DiscardUndelivered (lw_finalizer w) job "provider_failed" in
  let* '(updated, err) := mutate_and_finalize job (pure_mutation (provider_failure code cause) (failed_events code)) in
  match err with
  | Some e => ret (zeroGenerationJob, Some e)
  | None => ret (updated, Some cause)
  end.

Definition provider_retry (code : string) (cause : error) : JobMutation (X := X) :=
  timed_mutation (fun now current => retry_later ErrorStageProvider code cause now current) (fun current =>
    [dispatch_event ("job:" +:+ j_ID current +:+ ":retry:" +:+ pretty (incr (j_StatusVersion current))) current
       [("job_id", AStr (j_ID current)); ("retry_count", AInt (j_RetryCount current))]]).

Definition scheduleProviderRetry (job : GenerationJob) (code : string) (cause : error) : Eff (world X) job_error :=
  got* updated := call (MutateJob (j_ID job) (j_StatusVersion job) (provider_retry code cause)) in
  ret (updated, Some cause).

Definition claimFinalization (job : GenerationJob) : Eff (world X) (result GenerationJob) :=
  call (MutateJob (j_ID job) (j_StatusVersion job)
    (timed_mutation (fun now current => lease now (current <| j_Status := StatusFinalizing |>)) no_events)).

Definition finalizeWithHeartbeat (job : GenerationJob) (r : ProviderResult) : Eff (world X) job_error :=
  let* '((updated, finalizeErr), heartbeatErr) := startProviderHeartbeat job (Finalize (lw_finalizer w) (j_ID job) r) in
  match finalizeErr, heartbeatErr with
  | Some e, _ => ret (updated, Some e)
  | None, None => ret (updated, None)
  | None, Some heartbeatErr =>
      let* latest := call (GetJob (j_ID job)) in
      match latest with
      | Err _ => ret (zeroGenerationJob, Some heartbeatErr)
      | Ok latest =>
          if negb (bool_decide (j_LeaseOwner latest = "")) && negb (bool_decide (j_LeaseOwner latest = lw_workerID w))
          then ret (zeroGenerationJob, Some heartbeatErr)
          else ret (updated, None)
      end
  end.

(** *** Provider receipts *)

Definition recovered_receipt (r : ProviderResult) : JobMutation (X := X) :=
  timed_mutation (fun now current =>
    lease now (record_usage r (keep_outputs r
      (current <| j_Status := StatusFinalizing |> <| j_Phase := PhaseArtifactFinalize |>)))) no_events.

Definition recoverProviderReceipt (job : GenerationJob) : Eff (world X) (result (GenerationJob * ProviderResult * bool)) :=
  match lw_resultRecovery w with
  | None => ret (Ok (job, zeroProviderResult, false))
  | Some recover =>
      try* '(r, complete) := recover job in
      match pr_AssetIDs r with
      | [] => ret (Ok (job, r, complete))
      | _ =>
          if complete
          then
            try* updated := call (MutateJob (j_ID job) (j_StatusVersion job) (recovered_receipt r)) in
            ret (Ok (updated, r, true))
          else if sameStringSet (j_ResultAssetIDs job) (pr_AssetIDs r) then ret (Ok (job, r, false))
          else
            try* updated := call (MutateJob (j_ID job) (j_StatusVersion job) (pure_mutation (keep_outputs r) no_events)) in
            ret (Ok (updated, r, false))
      end
  end.

Definition handleProviderError (job : GenerationJob) (cause : error) : Eff (world X) job_error :=
  got* recovered := recoverProviderReceipt job in
  let '(job, r, complete) := recovered in
  if complete then finalizeWithHeartbeat job r
  else
  let '(_, code, retryable) := classifyExecutionError cause ErrorStageProvider "provider_error" in
  if retryable && ((j_MaxAttempts job <=? 0) || (wrap64 (j_RetryCount job + 1) <? j_MaxAttempts job))
  then scheduleProviderRetry job code cause
  else failProvider job code cause.

(** *** Provider responses *)

Definition polls_exhausted (job : GenerationJob) : bool :=
  normalizedMaxProviderPollAttempts (j_MaxProviderPollAttempts job) <=? j_ProviderPollAttempts job.

Definition poll_exhausted_error (job : GenerationJob) : error :=
  Errorf ("provider task did not finish after " +:+ pretty (j_ProviderPollAttempts job) +:+ " polls").

Definition waiting (response : ProviderResponse) (state taskID : string) (delay : Z) : JobMutation (X := X) :=
  timed_mutation (fun now current =>
    release (current <| j_Status := StatusWaitingProvider |> <| j_Phase := PhaseProviderPoll |>
      <| j_ProviderTaskID := taskID |>
      <| j_ProviderRequestID := valueOrDefault (ps_RequestID response) (j_ProviderRequestID current) |>
      <| j_ProviderStatus := valueOrDefault (ps_Status response) state |>
      <| j_NextRunAt := now + delay |>)) (fun current =>
    [dispatch_event ("job:" +:+ j_ID current +:+ ":poll:" +:+ pretty (incr (j_StatusVersion current))) current
       [("job_id", AStr (j_ID current)); ("provider_task_id", AStr (j_ProviderTaskID current))]]).

Definition completed (r : ProviderResult) : JobMutation (X := X) :=
  timed_mutation (fun now current =>
    lease now (record_usage r (keep_outputs r
      (current <| j_Status := StatusFinalizing |> <| j_Phase := PhaseArtifactFinalize |>
        <| j_ProviderTaskID := valueOrDefault (pr_TaskID r) (j_ProviderTaskID current) |>
        <| j_ProviderRequestID := valueOrDefault (pr_RequestID r) (j_ProviderRequestID current) |>
        <| j_ProviderStatus := valueOrDefault (pr_Status r) ProviderStateCompleted |>)))) no_events.

Definition applyProviderResponse (job : GenerationJob) (response : ProviderResponse) : Eff (world X) job_error :=
  let state := TrimSpace (ps_State response) in
  if bool_decide (state = ProviderStateAccepted) || bool_decide (state = ProviderStatePending)
  then
    if bool_decide (j_Phase job = PhaseProviderPoll) && polls_exhausted job
    then failProvider job "provider_poll_exhausted" (poll_exhausted_error job)
    else
    let delay := if ps_RetryAfter response <=? 0 then second else ps_RetryAfter response in
    let taskID := valueOrDefault (ps_TaskID response) (j_ProviderTaskID job) in
    if blank taskID
    then failProvider job "provider_protocol_error" (Errorf ("provider " +:+ state +:+ " response is missing task id"))
    else
      let* r := call (MutateJob (j_ID job) (j_StatusVersion job) (waiting response state taskID delay)) in
      ret (as_job r)
  else if bool_decide (state = ProviderStateCompleted)
  then
    let r := ps_Result response in
    let r := r <| pr_TaskID := valueOrDefault (pr_TaskID r) (ps_TaskID response) |>
               <| pr_RequestID := valueOrDefault (pr_RequestID r) (ps_RequestID response) |>
               <| pr_Status := valueOrDefault (pr_Status r) (ps_Status response) |> in
    got* finalizing := call (MutateJob (j_ID job) (j_StatusVersion job) (completed r)) in
    finalizeWithHeartbeat finalizing r
  else if bool_decide (state = ProviderStateFailed)
  then failProvider job "provider_failed" (Errorf ("provider task failed with status " +:+ Quote (ps_Status response)))
  else if bool_decide (state = ProviderStateCancelled)
  then cancelJob job "provider_cancelled"
  else failProvider job "provider_protocol_error" (Errorf ("unsupported provider response state " +:+ Quote state)).

Definition after_provider (running : GenerationJob) (answer : result ProviderResponse * option error) : Eff (world X) job_error :=
  match answer with
  | (Ok response, _) => applyProviderResponse running response
  | (Err _, Some heartbeatErr) => ret (zeroGenerationJob, Some heartbeatErr)
  | (Err err, None) => handleProviderError running err
  end.

Definition submit_claim : JobMutation (X := X) :=
  timed_mutation (fun now current =>
    (lease now (current <| j_Status := StatusRunning |> <| j_Phase := PhaseProviderSubmit |>))
      <| j_Attempt := incr (j_Attempt current) |> <| j_Retryable := false |>) no_events.

Definition submit (job : GenerationJob) (provider : ProviderAdapter) : Eff (world X) job_error :=
  got* running := call (MutateJob (j_ID job) (j_StatusVersion job) submit_claim) in
  let* answer := startProviderHeartbeat running (pa_Submit provider running) in
  after_provider running answer.

Definition poll_claim : JobMutation (X := X) :=
  timed_mutation (fun now current =>
    (lease now (current <| j_Status := StatusRunning |> <| j_Phase := PhaseProviderPoll |>))
      <| j_Attempt := incr (j_Attempt current) |>
      <| j_ProviderPollAttempts := incr (j_ProviderPollAttempts current) |> <| j_Retryable := false |>) no_events.

Definition poll (job : GenerationJob) (provider : ProviderAdapter) : Eff (world X) job_error :=
  if polls_exhausted job
  then failProvider job "provider_poll_exhausted" (poll_exhausted_error job)
  else
  got* running := call (MutateJob (j_ID job) (j_StatusVersion job) poll_claim) in
  let* answer := startProviderHeartbeat running (pa_Poll provider running) in
  after_provider running answer.

Definition cancel_claim : JobMutation (X := X) :=
  timed_mutation (fun now current =>
    lease now (current <| j_Status := StatusRunning |> <| j_Phase := PhaseProviderPoll |>)) no_events.

Definition processCancellation (job : GenerationJob) (provider : ProviderAdapter) : Eff (world X) job_error :=
  if blank (j_ProviderTaskID job) then cancelJob job "cancelled_before_submit"
  else
  got* running := call (MutateJob (j_ID job) (j_StatusVersion job) cancel_claim) in
  let* '(r, heartbeatErr) := startProviderHeartbeat running (pa_Cancel provider running) in
  match r, heartbeatErr with
  | Err _, Some heartbeatErr => ret (zeroGenerationJob, Some heartbeatErr)
  | Err err, None =>
      let '(_, _, retryable) := classifyExecutionError err ErrorStageProvider "provider_cancel_failed" in
      if retryable then scheduleProviderRetry running "provider_cancel_failed" err
      else poll running provider
  | Ok r, _ =>
      if pc_Confirmed r then cancelJob running "provider_cancelled"
      else poll running provider
  end.

(** *** One wake-up *)

Definition leased (job : GenerationJob) (now : Time) : bool :=
  bool_decide (j_Status job ∈ [StatusRunning; StatusFinalizing])
  && match j_LeaseUntil job with Some until => After until now | None => false end.

Definition not_due (job : GenerationJob) (now : Time) : bool :=
  bool_decide (j_Status job ∈ [StatusWaitingProvider; StatusRetryWait])
  && negb (IsZero (j_NextRunAt job)) && After (j_NextRunAt job) now.

(** Whether [Process] reads the clock for a test. *)
Definition clock_if (needed : bool) : Eff (world X) Time :=
  if needed then s_clock else ret zeroTime.

Definition in_finalization (job : GenerationJob) : bool :=
  bool_decide (j_Status job = StatusFinalizing)
  || (bool_decide (j_Status job = StatusRetryWait)
      && (bool_decide (j_Phase job = PhaseArtifactFinalize) || bool_decide (j_Phase job = PhaseBillingCharge))).

Definition process_cancel_request (job : GenerationJob) (provider : ProviderAdapter) : Eff (world X) job_error :=
  if blank (j_ProviderTaskID job) && (0 <? j_Attempt job)
  then
    let* '(submitted, submitErr) := submit job provider in
    if match submitErr with Some _ => true | None => false end
       || IsTerminalJobStatus (j_Status submitted) || bool_decide (j_Status submitted = StatusFinalizing)
    then ret (submitted, submitErr)
    else if negb (blank (j_ProviderTaskID submitted)) then processCancellation submitted provider
    else ret (submitted, None)
  else processCancellation job provider.

Definition process_claimed (job : GenerationJob) : Eff (world X) job_error :=
  match lw_providers w !! TrimSpace (j_Provider job) with
  | None => failProvider job "provider_not_registered"
              (Errorf ("provider " +:+ Quote (j_Provider job) +:+ " is not registered"))
  | Some provider =>
      if in_finalization job
      then got* claimed := claimFinalization job in
           finalizeWithHeartbeat claimed (providerResultFromJob claimed)
      else if j_CancelRequested job then process_cancel_request job provider
      else if blank (j_ProviderTaskID job) then submit job provider
      else poll job provider
  end.

Definition process_loaded (job : GenerationJob) : Eff (world X) job_error :=
  if IsTerminalJobStatus (j_Status job) then ret (job, None)
  else
  let* now := clock_if (bool_decide (j_Status job ∈ [StatusRunning; StatusFinalizing])
                        && match j_LeaseUntil job with Some _ => true | None => false end) in
  if leased job now then ret (job, None)
  else
  let* now := clock_if (bool_decide (j_Status job ∈ [StatusWaitingProvider; StatusRetryWait])
                        && negb (IsZero (j_NextRunAt job))) in
  if not_due job now then ret (job, None)
  else if (0 <? j_Attempt job) && match lw_resultRecovery w with Some _ => true | None => false end
  then
    got* recovered := recoverProviderReceipt job in
    let '(job, r, complete) := recovered in
    if complete then finalizeWithHeartbeat job r else process_claimed job
  else process_claimed job.

Definition Process (jobID : string) : Eff (world X) job_error :=
  got* job := call (GetJob jobID) in
  process_loaded job.

Definition RunOnce : Eff (world X) (bool * option error) :=
  match lw_queue w with
  | None => ret (false, Some (Errorf "lifecycle worker queue is required"))
  | Some dequeue =>
      let* '(payload, ok, err) := dequeue (lw_pollTimeout w) in
      match err, ok with
      | None, true => let* '(_, err) := Process (qp_JobID payload) in ret (true, err)
      | _, _ => ret (ok, err)
      end
  end.
End methods.

(** ** Synchronous handlers behind the provider interface *)

Record HandlerResult := mkHandlerResult { hr_AssetIDs : list string; hr_Result : gomap any }.

Definition handler_submit (handler : option (GenerationJob → Eff (world X) (result HandlerResult))) (job : GenerationJob) :
    Eff (world X) (result ProviderResponse) :=
  match handler with
  | None => fail (Errorf "legacy generation job handler is required")
  | Some handle =>
      let* r := handle job in
      match r with
      | Err err =>
          match err_exec err with
          | Some _ => fail err
          | None => fail (NewExecutionError ErrorStageProvider "provider_handler_failed" (ProviderErrorRetryable err) err)
          end
      | Ok result =>
          ret (Ok (zeroProviderResponse <| ps_State := ProviderStateCompleted |> <| ps_Status := ProviderStateCompleted |>
            <| ps_Result := zeroProviderResult <| pr_AssetIDs := hr_AssetIDs result |>
                              <| pr_Payload := cloneMap (hr_Result result) |> |>))
      end
  end.

Definition JobHandlerProviderAdapter (handler : option (GenerationJob → Eff (world X) (result HandlerResult))) : ProviderAdapter := {|
  pa_Submit := handler_submit handler;
  pa_Poll _ := fail (NewExecutionError ErrorStageProvider "legacy_provider_poll_unsupported" false
                 (Errorf "legacy synchronous provider cannot be polled"));
  pa_Cancel _ := fail (NewExecutionError ErrorStageProvider "legacy_provider_cancel_unsupported" true
                   (Errorf "legacy synchronous provider cannot be cancelled after submit"))
|}.
End worker.
