(* ===== verification/Relay.v ===== *)
(** * Delivery: the outbox relay, the recovery scheduler, the dispatcher

    [outbox_dispatcher.go], [recovery_scheduler.go] and [dispatcher.go] of
    [internal/aigc/generation]: what carries events and jobs to the queue.  The
    publisher and the queue are code outside the generation store: functions on
    the world. *)

From Stdlib Require Import ZArith Lia.
From S2P Require Import Prelude GoJson GenModels WorkflowStore Barrier ProviderPolicy Finalization LifecycleWorker.

(** [errors.Join] with an error that may be [nil]. *)
Definition join (e1 : option error) (e2 : error) : option error :=
  Some (match e1 with None => e2 | Some e => errors_Join e e2 end).

Section relay.
Context `{Runtime} {X : Type} `{Concurrency X}.

Definition OutboxPublisher := OutboxEvent → Eff (world X) (option error).
Definition DispatchQueue := QueuePayload → Eff (world X) (option error).

(** ** The outbox relay *)

Definition max_attempts (event : OutboxEvent) : Z :=
  if bool_decide (e_EventType event = EventBatchFinalizeRequested) then 0 else 10.

(** The counters and the error of the loop. *)
Record relay_state := mkRelay {
  rl_due : Z;
  rl_published : Z;
  rl_error : option error
}.

Definition publish_one (publisher : OutboxPublisher) (event : OutboxEvent) (st : relay_state) : Eff (world X) relay_state :=
  let* err := publisher event in
  let due := incr (rl_due st) in
  match err with
  | Some err =>
      let dispatchErr := join (rl_error st) (Wrapf ("publish outbox " +:+ e_ID event +:+ ": ") err "") in
      let* now := s_clock in
      let* r := call (MarkOutboxFailed (e_ID event) now (max_attempts event)) in
      ret (mkRelay due (rl_published st)
        (match r with
         | Err markErr => join dispatchErr (Wrapf ("mark outbox " +:+ e_ID event +:+ " failed: ") markErr "")
         | Ok _ => dispatchErr
         end))
  | None =>
      let* now := s_clock in
      let* r := call (MarkOutboxPublished (e_ID event) now) in
      ret (match r with
           | Err err => mkRelay due (rl_published st)
                          (join (rl_error st) (Wrapf ("mark outbox " +:+ e_ID event +:+ " published: ") err ""))
           | Ok _ => mkRelay due (incr (rl_published st)) (rl_error st)
           end)
  end.

Fixpoint dispatch_events (publisher : OutboxPublisher) (limit : Z) (now : Time) (events : list OutboxEvent)
    (st : relay_state) : Eff (world X) relay_state :=
  match events with
  | [] => ret st
  | event :: events' =>
      if After (e_AvailableAt event) now then dispatch_events publisher limit now events' st
      else if (0 <? limit) && (limit <=? rl_due st) then ret st
      else
        let* st' := publish_one publisher event st in
        dispatch_events publisher limit now events' st'
  end.

Definition DispatchPending (publisher : OutboxPublisher) (limit : Z) : Eff (world X) (Z * option error) :=
  let* r := call (ListOutbox OutboxPending 0) in
  match r with
  | Err e => ret (0, Some e)
  | Ok events =>
      let* now := s_clock in
      let* st := dispatch_events publisher limit now events (mkRelay 0 0 None) in
      ret (rl_published st, rl_error st)
  end.

(** The bridge to the media queue; other destinations go to [next]. *)
Definition QueueOutboxPublisher (queue : option DispatchQueue) (next : option OutboxPublisher) : OutboxPublisher := fun event =>
  if negb (bool_decide (e_Destination event = DestinationMediaJobs))
  then match next with None => ret None | Some publish => publish event end
  else
    match queue with
    | None => ret (Some (Errorf "generation dispatch queue is required"))
    | Some enqueue =>
        let jobID := string_field (e_Payload event) "job_id" in
        let idempotencyKey := string_field (e_Payload event) "idempotency_key" in
        enqueue (mkQueuePayload jobID (valueOrDefault idempotencyKey (e_IdempotencyKey event)) (e_AvailableAt event))
    end.

(** ** The recovery scheduler *)

Fixpoint enqueue_jobs (queue : DispatchQueue) (js : list GenerationJob) (enqueued : Z) : Eff (world X) (Z * option error) :=
  match js with
  | [] => ret (enqueued, None)
  | job :: js' =>
      let wakeKey := "job:" +:+ j_ID job +:+ ":wake:" +:+ pretty (j_StatusVersion job) in
      let* now := s_clock in
      let* err := queue (mkQueuePayload (j_ID job) wakeKey now) in
      match err with
      | Some e => ret (enqueued, Some e)
      | None => enqueue_jobs queue js' (incr enqueued)
      end
  end.

Definition EnqueueDue (queue : DispatchQueue) (limit : Z) : Eff (world X) (Z * option error) :=
  let* now := s_clock in
  let* r := call (ListRunnableJobs now limit) in
  match r with
  | Err e => ret (0, Some e)
  | Ok js => enqueue_jobs queue js 0
  end.

(** ** The dispatcher *)

Record DispatchStore := mkDispatchStore {
  ds_Save : GenerationJob → Eff (world X) (result GenerationJob);
  ds_GetByIdempotencyKey : string → Eff (world X) (result GenerationJob)
}.

Definition trimmed_job (job : GenerationJob) : GenerationJob :=
  job <| j_ID := TrimSpace (j_ID job) |> <| j_SessionID := TrimSpace (j_SessionID job) |>
      <| j_IdempotencyKey := TrimSpace (j_IdempotencyKey job) |>.

Definition queued_job (job : GenerationJob) : GenerationJob :=
  let job := if bool_decide (j_Status job = "") then job <| j_Status := StatusQueued |> else job in
  if j_StatusVersion job <=? 0 then job <| j_StatusVersion := 1 |> else job.

Definition Dispatch (store : DispatchStore) (queue : DispatchQueue) (job : GenerationJob) :
    Eff (world X) (result (GenerationJob * bool)) :=
  let job := trimmed_job job in
  if bool_decide (j_ID job = "") then fail (Errorf "generation job id is required")
  else if bool_decide (j_SessionID job = "") then fail (Errorf "session id is required")
  else if bool_decide (j_IdempotencyKey job = "") then fail (Errorf "idempotency key is required")
  else
  let* existing := ds_GetByIdempotencyKey store (j_IdempotencyKey job) in
  match existing with
  | Ok existing => ret (Ok (existing, false))
  | Err err =>
      if negb (errors_Is err ErrNotFound) then fail err
      else
        try* saved := ds_Save store (queued_job job) in
        let* err := queue (mkQueuePayload (j_ID saved) (j_IdempotencyKey saved) zeroTime) in
        match err with
        | Some e => fail e
        | None => ret (Ok (saved, true))
        end
  end.
End relay.
