(* ===== verification/LifecycleProps.v ===== *)
(** * What the lifecycle worker guarantees *)

From Stdlib Require Import ZArith Lia.
From S2P Require Import Prelude GoJson GenModels WorkflowStore Samples WorkflowStoreProps WorkflowRuns Barrier.
From S2P Require Import BarrierProps ProviderPolicy Finalization Steps FinalizationProps LifecycleWorker.

(** ** Receipts *)

(** How often a value occurs. *)
Definition occurs (v : string) (l : list string) : Z := Z.of_nat (length (filter (.= v) l)).

Lemma occurs_cons v x l : occurs v (x :: l) = (if decide (x = v) then 1 else 0) + occurs v l.
Proof. unfold occurs. rewrite filter_cons. destruct (decide (x = v)); simpl length; lia. Qed.

Lemma occurs_perm v l r : l ≡ₚ r → occurs v l = occurs v r.
Proof. intros E. unfold occurs. by rewrite E. Qed.

Lemma count_values_from l (seen : gmap string Z) v :
  default 0 (foldl (fun seen value => <[value := default 0 (seen !! value) + 1]> seen) seen l !! v)
  = default 0 (seen !! v) + occurs v l.
Proof.
  revert seen. induction l as [|x l IH]; intros seen; simpl; [unfold occurs; simpl; lia|].
  rewrite IH, occurs_cons. destruct (decide (x = v)) as [->|]; [rewrite lookup_insert_eq|rewrite lookup_insert_ne by done]; simpl; lia.
Qed.

Lemma uses_up_spec r (seen : gmap string Z) :
  (∀ v, 0 <= default 0 (seen !! v)) →
  uses_up seen r = true ↔ ∀ v, occurs v r <= default 0 (seen !! v).
Proof.
  revert seen. induction r as [|x r IH]; intros seen Hpos; simpl.
  { split; [|done]. intros _ v. apply Hpos. }
  pose proof (Hpos x) as Hx. destruct (Z.eqb_spec (default 0 (seen !! x)) 0) as [E|E].
  { split; [done|]. intros Hall. specialize (Hall x). rewrite occurs_cons, decide_True in Hall by done.
    unfold occurs in Hall. lia. }
  rewrite IH.
  - apply forall_proper. intros v. rewrite occurs_cons.
    destruct (decide (x = v)) as [->|]; [rewrite lookup_insert_eq|rewrite lookup_insert_ne by done]; simpl; lia.
  - intros v. destruct (decide (x = v)) as [->|]; [rewrite lookup_insert_eq; simpl; lia|]. rewrite lookup_insert_ne by done. apply Hpos.
Qed.

Lemma occurs_submseteq l r : (∀ v, occurs v r <= occurs v l) → r ⊆+ l.
Proof.
  revert l. induction r as [|x r IH]; intros l Hall; [apply submseteq_nil_l|].
  assert (x ∈ l) as (l' & Hl)%elem_of_Permutation.
  { pose proof (Hall x) as Hx. rewrite occurs_cons, decide_True in Hx by done.
    destruct (filter (.= x) l) as [|y ys] eqn:E; [unfold occurs in Hx; rewrite E in Hx; simpl in Hx; lia|].
    assert (y ∈ filter (.= x) l) as [-> ?]%list_elem_of_filter by (rewrite E; left). done. }
  rewrite Hl. apply submseteq_skip, IH. intros v. specialize (Hall v).
  rewrite (occurs_perm _ _ _ Hl), !occurs_cons in Hall. lia.
Qed.

(** The comparison of a recovered receipt with the stored one is exact:
    [sameStringSet] accepts two lists of asset ids precisely when one is a
    reordering of the other, repetitions counted. *)
Theorem same_string_set_is_permutation l r : sameStringSet l r = true ↔ l ≡ₚ r.
Proof.
  unfold sameStringSet. case_bool_decide as Hlen; simpl.
  - rewrite uses_up_spec.
    + split.
      * intros Hall. symmetry. apply submseteq_length_Permutation; [|lia]. apply occurs_submseteq.
        intros v. specialize (Hall v). unfold count_values in Hall. rewrite count_values_from, lookup_empty in Hall. exact Hall.
      * intros E v. unfold count_values. rewrite count_values_from, lookup_empty. by rewrite (occurs_perm _ _ _ E).
    + intros v. unfold count_values. rewrite count_values_from, lookup_empty. unfold occurs. simpl. lia.
  - split; [done|]. intros E. by rewrite E in Hlen.
Qed.

(** ** The worker only uses the store's commands *)

Section worker.
Context `{Runtime} {X : Type} `{Concurrency X} `{Ticking X}.
Implicit Types (job : GenerationJob).

Record provider_rely (p : ProviderAdapter (X:=X)) : Prop := {
  py_submit job : moves (pa_Submit p job);
  py_poll job : moves (pa_Poll p job);
  py_cancel job : moves (pa_Cancel p job)
}.

Record worker_rely (lw : LifecycleWorker (X:=X)) : Prop := {
  wr_finalizer : engine_rely (lw_finalizer lw);
  wr_provider k p : lw_providers lw !! k = Some p → provider_rely p;
  wr_recovery c : lw_resultRecovery lw = Some c → ∀ job, moves (c job);
  wr_queue c : lw_queue lw = Some c → ∀ t, moves (c t)
}.

Lemma timed_mutation_keeps change events :
  (∀ now j, keeps_job j (change now j)) → mutation_keeps (X:=X) (timed_mutation change events).
Proof. intros Hk j v j' ev v' [= <- _ _]. apply Hk. Qed.

Section methods.
Variable lw : LifecycleWorker (X:=X).
Hypothesis rely : worker_rely lw.
Let engine : engine_rely (lw_finalizer lw) := wr_finalizer lw rely.
Let others_move : moves others := er_others _ engine.

Lemma moves_renew_lease n job : moves (renew_lease lw n job).
Proof.
  induction n as [|n IH]; cbn [renew_lease]; [apply moves_ret|].
  apply moves_bind; [apply moves_s_clock|]. intros now.
  apply moves_bind; [apply moves_call; [done|apply moves_RenewJobLease]|]. intros [[]|e]; [exact IH|apply moves_ret].
Qed.

Lemma moves_ticks : moves ticks_now.
Proof. intros w a w' [= _ <-]. apply rtc_refl. Qed.

Lemma moves_heartbeat {A} job (body : Eff (world X) A) : moves body → moves (startProviderHeartbeat lw job body).
Proof.
  intros Hb. apply moves_bind; [apply moves_ticks|]. intros n.
  apply moves_bind; [apply moves_renew_lease|]. intros failed. apply moves_bind; [done|]. intros a.
  apply moves_bind; [apply moves_ticks|]. intros late.
  apply moves_bind; [|intros; apply moves_ret]. destruct failed; [apply moves_ret|apply moves_renew_lease].
Qed.

Lemma moves_cancelJob job code : moves (cancelJob lw job code).
Proof.
  apply moves_or_fail; [by apply moves_discardResult|]. intros _.
  apply (moves_mutate_and_finalize _ engine), pure_mutation_keeps. intros j. split; reflexivity.
Qed.

Lemma moves_failProvider job code cause : moves (failProvider lw job code cause).
Proof.
  apply moves_or_fail; [by apply moves_discardResult|]. intros _.
  apply moves_bind; [apply (moves_mutate_and_finalize _ engine), pure_mutation_keeps; intros j; split; reflexivity|].
  intros [updated [e|]]; apply moves_ret.
Qed.

Lemma moves_mutate job mutation : mutation_keeps mutation → moves (call (MutateJob (j_ID job) (j_StatusVersion job) mutation)).
Proof. intros Hk. apply moves_call; [done|by apply moves_MutateJob]. Qed.

Lemma moves_scheduleProviderRetry job code cause : moves (scheduleProviderRetry job code cause).
Proof.
  apply moves_or_fail; [|intros; apply moves_ret]. apply moves_mutate, timed_mutation_keeps. intros now j. split; reflexivity.
Qed.

Lemma moves_finalizeWithHeartbeat job r : moves (finalizeWithHeartbeat lw job r).
Proof.
  apply moves_bind; [by apply moves_heartbeat, moves_Finalize|]. intros [[updated [e|]] [h|]]; try apply moves_ret.
  apply moves_bind; [apply moves_call; [done|apply moves_GetJob]|]. intros [latest|e]; [|apply moves_ret].
  destruct (_ && _); apply moves_ret.
Qed.

Lemma record_usage_keeps r j j' : keeps_job j j' → keeps_job j (record_usage r j').
Proof. unfold record_usage. by destruct (j_ProviderUsageRecorded j'). Qed.

Lemma keep_outputs_keeps r j j' : keeps_job j j' → keeps_job j (keep_outputs r j').
Proof. intros [E1 E2]. split; [exact E1|exact E2]. Qed.

Lemma lease_keeps now j j' : keeps_job j j' → keeps_job j (lease lw now j').
Proof. intros [E1 E2]. split; [exact E1|exact E2]. Qed.

Lemma recovered_receipt_keeps r : mutation_keeps (X:=X) (recovered_receipt lw r).
Proof.
  apply timed_mutation_keeps. intros now j. apply lease_keeps, record_usage_keeps, keep_outputs_keeps. split; reflexivity.
Qed.

Lemma completed_keeps r : mutation_keeps (X:=X) (completed lw r).
Proof.
  apply timed_mutation_keeps. intros now j. apply lease_keeps, record_usage_keeps, keep_outputs_keeps. split; reflexivity.
Qed.

Lemma moves_recoverProviderReceipt job : moves (recoverProviderReceipt lw job).
Proof.
  unfold recoverProviderReceipt. destruct (lw_resultRecovery lw) as [c|] eqn:E; [|apply moves_ret].
  apply moves_bind_ok; [by apply (wr_recovery lw rely)|]. intros [r complete].
  destruct (pr_AssetIDs r); [apply moves_ret|]. destruct complete; [|destruct (sameStringSet _ _); [apply moves_ret|]].
  all: apply moves_bind_ok; [apply moves_mutate|intros; apply moves_ret].
  - apply recovered_receipt_keeps.
  - apply pure_mutation_keeps. intros j. split; reflexivity.
Qed.
Local Hint Resolve moves_ret moves_cancelJob moves_failProvider moves_scheduleProviderRetry moves_finalizeWithHeartbeat : moves.

Lemma moves_handleProviderError job cause : moves (handleProviderError lw job cause).
Proof.
  apply moves_or_fail; [apply moves_recoverProviderReceipt|]. intros [[job' r] [|]]; [auto with moves|].
  destruct (classifyExecutionError _ _ _) as [[? code] retryable]. destruct (_ && _); auto with moves.
Qed.

Lemma moves_applyProviderResponse job response : moves (applyProviderResponse lw job response).
Proof.
  unfold applyProviderResponse. cbv zeta. destruct (_ || _).
  { destruct (_ && _); [auto with moves|]. destruct (blank _); [auto with moves|].
    apply moves_bind; [|intros; apply moves_ret]. apply moves_mutate, timed_mutation_keeps. intros now j. split; reflexivity. }
  destruct (bool_decide _).
  { apply moves_or_fail; [apply moves_mutate, completed_keeps|auto with moves]. }
  destruct (bool_decide _); [auto with moves|]. destruct (bool_decide _); auto with moves.
Qed.

Lemma moves_after_provider running answer : moves (after_provider lw running answer).
Proof.
  destruct answer as [[response|e] [h|]]; cbn [after_provider];
    [apply moves_applyProviderResponse..|apply moves_ret|apply moves_handleProviderError].
Qed.

Lemma moves_submit job p : provider_rely p → moves (submit lw job p).
Proof.
  intros Hp. apply moves_or_fail; [apply moves_mutate, timed_mutation_keeps; intros now j; split; reflexivity|]. intros running.
  apply moves_bind; [apply moves_heartbeat, (py_submit p Hp)|]. intros; apply moves_after_provider.
Qed.

Lemma moves_poll job p : provider_rely p → moves (poll lw job p).
Proof.
  intros Hp. unfold poll. destruct (polls_exhausted job); [auto with moves|].
  apply moves_or_fail; [apply moves_mutate, timed_mutation_keeps; intros now j; split; reflexivity|]. intros running.
  apply moves_bind; [apply moves_heartbeat, (py_poll p Hp)|]. intros; apply moves_after_provider.
Qed.

Lemma moves_processCancellation job p : provider_rely p → moves (processCancellation lw job p).
Proof.
  intros Hp. unfold processCancellation. destruct (blank _); [auto with moves|].
  apply moves_or_fail; [apply moves_mutate, timed_mutation_keeps; intros now j; split; reflexivity|]. intros running.
  apply moves_bind; [apply moves_heartbeat, (py_cancel p Hp)|].
  intros [[r|e] [h|]]; try apply moves_ret.
  1,2: destruct (pc_Confirmed r); [auto with moves|by apply moves_poll].
  destruct (classifyExecutionError _ _ _) as [[? ?] retryable]. destruct retryable; [auto with moves|by apply moves_poll].
Qed.

Lemma moves_process_claimed job : moves (process_claimed lw job).
Proof.
  unfold process_claimed. destruct (lw_providers lw !! _) as [p|] eqn:Ep; [|auto with moves].
  pose proof (wr_provider lw rely _ _ Ep) as Hp. destruct (in_finalization job).
  { apply moves_or_fail; [apply moves_mutate, timed_mutation_keeps; intros now j; split; reflexivity|auto with moves]. }
  destruct (j_CancelRequested job); [|destruct (blank _); [by apply moves_submit|by apply moves_poll]].
  unfold process_cancel_request. destruct (_ && _); [|by apply moves_processCancellation].
  apply moves_bind; [by apply moves_submit|]. intros [submitted err].
  destruct (_ || _); [apply moves_ret|]. destruct (negb _); [by apply moves_processCancellation|apply moves_ret].
Qed.

Lemma moves_clock_if b : moves (clock_if (X:=X) b).
Proof. destruct b; [apply moves_s_clock|apply moves_ret]. Qed.

Lemma moves_Process id : moves (Process lw id).
Proof.
  apply moves_or_fail; [apply moves_call; [done|apply moves_GetJob]|]. intros job. unfold process_loaded.
  destruct (IsTerminalJobStatus _); [apply moves_ret|].
  apply moves_bind; [apply moves_clock_if|]. intros now. destruct (leased job now); [apply moves_ret|].
  apply moves_bind; [apply moves_clock_if|]. intros now2. destruct (not_due job now2); [apply moves_ret|].
  destruct (_ && _); [|apply moves_process_claimed].
  apply moves_or_fail; [apply moves_recoverProviderReceipt|]. intros [[job' r] [|]]; [auto with moves|apply moves_process_claimed].
Qed.

Lemma moves_RunOnce : moves (RunOnce lw).
Proof.
  unfold RunOnce. destruct (lw_queue lw) as [dequeue|] eqn:E; [|apply moves_ret].
  apply moves_bind; [by apply (wr_queue lw rely)|]. intros [[q ok] [e|]]; [apply moves_ret|].
  destruct ok; [|apply moves_ret]. apply moves_bind; [apply moves_Process|]. intros [job err]. apply moves_ret.
Qed.
End methods.

(** ** Outcomes of a wake-up *)

Section outcomes.
Variable lw : LifecycleWorker (X:=X).

(** Waiting for the provider, with a task to ask about and no lease held. *)
Definition waiting_released job : Prop :=
  j_Status job = StatusWaitingProvider ∧ j_LeaseOwner job = "" ∧ j_LeaseUntil job = None
  ∧ blank (j_ProviderTaskID job) = false.

Definition progressed (a : job_error) : Prop :=
  match a with
  | (job, None) => IsTerminalJobStatus (j_Status job) = true ∨ waiting_released job
  | (_, Some _) => True
  end.

Lemma settled_progressed {A} (c : Eff A job_error) : answers settled_answer c → answers progressed c.
Proof. intros Hc w [job [e|]] w' E; [done|]. left. exact (Hc _ _ _ E). Qed.

Lemma progressed_error {A} (c : Eff A job_error) : answers (fun a => is_Some a.2) c → answers progressed c.
Proof. intros Hc w [job e] w' E. destruct (Hc _ _ _ E) as [x Hx]. cbn in Hx. by subst. Qed.

Lemma answers_heartbeat {A} job (body : Eff (world X) A) P :
  answers P body → answers (fun a => P a.1) (startProviderHeartbeat lw job body).
Proof.
  intros Hb. apply answers_then. intros n. apply answers_then. intros failed.
  eapply answers_bind; [exact Hb|]. intros a Ha. apply answers_then. intros late.
  apply answers_then. intros failed2. by apply answers_ret.
Qed.

Lemma failProvider_error job code cause : answers (fun a => is_Some a.2) (failProvider lw job code cause).
Proof.
  apply answers_or_fail; [done|]. intros _. apply answers_then. intros [updated [e|]]; by apply answers_ret.
Qed.

Lemma progressed_failProvider job code cause : answers progressed (failProvider lw job code cause).
Proof. apply progressed_error, failProvider_error. Qed.

Lemma progressed_cancelJob job code : answers progressed (cancelJob lw job code).
Proof.
  apply settled_progressed, answers_or_fail; [done|]. intros _. by apply mutate_and_finalize_settles, pure_terminal.
Qed.

Lemma progressed_scheduleProviderRetry job code cause : answers progressed (scheduleProviderRetry job code cause).
Proof. apply progressed_error, answers_or_fail; [done|]. intros. by apply answers_ret. Qed.

Lemma progressed_finalizeWithHeartbeat job r : answers progressed (finalizeWithHeartbeat lw job r).
Proof.
  apply settled_progressed. eapply answers_bind; [apply answers_heartbeat, settles_Finalize|].
  intros [[updated [e|]] [h|]] Hs; try by apply answers_ret.
  apply answers_then. intros [latest|e]; [|by apply answers_ret]. destruct (_ && _); by apply answers_ret.
Qed.
#[local] Hint Resolve progressed_failProvider progressed_cancelJob progressed_scheduleProviderRetry
  progressed_finalizeWithHeartbeat : answers.

Lemma progressed_handleProviderError job cause : answers progressed (handleProviderError lw job cause).
Proof.
  apply answers_or_fail; [done|]. intros [[job' r] [|]]; [auto with answers|].
  destruct (classifyExecutionError _ _ _) as [[? code] retryable]. destruct (_ && _); auto with answers.
Qed.

Lemma returned_waiting made j :
  returned made j → waiting_released made → waiting_released j.
Proof. intros (before & now & ->) Hw. exact Hw. Qed.

Lemma waiting_made response state taskID delay j (v : env X) made events v' :
  blank taskID = false → waiting response state taskID delay j v = (Ok (made, events), v') → waiting_released made.
Proof. intros Hb [= <- _ _]. split; [reflexivity|]. split; [reflexivity|]. split; [reflexivity|exact Hb]. Qed.

Lemma progressed_applyProviderResponse job response : answers progressed (applyProviderResponse lw job response).
Proof.
  unfold applyProviderResponse. cbv zeta. destruct (_ || _).
  { destruct (_ && _); [auto with answers|].
    destruct (blank (valueOrDefault (ps_TaskID response) (j_ProviderTaskID job))) eqn:Eb; [auto with answers|].
    eapply answers_bind.
    { apply call_answers, (MutateJob_answers _ _ _ waiting_released). intros j v made events v'. by apply waiting_made. }
    intros [updated|e]; [|by intros; apply answers_ret]. intros (made & Hm & Hr). apply answers_ret. right.
    exact (returned_waiting _ _ Hr Hm). }
  destruct (bool_decide _); [apply answers_or_fail; [done|auto with answers]|].
  destruct (bool_decide _); [auto with answers|]. destruct (bool_decide _); auto with answers.
Qed.

Lemma progressed_after_provider running answer : answers progressed (after_provider lw running answer).
Proof.
  destruct answer as [[response|e] [h|]]; cbn [after_provider];
    [apply progressed_applyProviderResponse..|by apply answers_ret|apply progressed_handleProviderError].
Qed.

Lemma progressed_submit job p : answers progressed (submit lw job p).
Proof. apply answers_or_fail; [done|]. intros. apply answers_then. intros; apply progressed_after_provider. Qed.

Lemma progressed_poll job p : answers progressed (poll lw job p).
Proof.
  unfold poll. destruct (polls_exhausted job); [auto with answers|].
  apply answers_or_fail; [done|]. intros. apply answers_then. intros; apply progressed_after_provider.
Qed.

Lemma progressed_processCancellation job p : answers progressed (processCancellation lw job p).
Proof.
  unfold processCancellation. destruct (blank _); [auto with answers|].
  apply answers_or_fail; [done|]. intros running. apply answers_then.
  intros [[r|e] [h|]]; try by apply answers_ret.
  1,2: destruct (pc_Confirmed r); [auto with answers|apply progressed_poll].
  destruct (classifyExecutionError _ _ _) as [[? ?] retryable]. destruct retryable; [auto with answers|apply progressed_poll].
Qed.

Lemma progressed_process_claimed job : answers progressed (process_claimed lw job).
Proof.
  unfold process_claimed. destruct (lw_providers lw !! _) as [p|]; [|auto with answers].
  destruct (in_finalization job); [apply answers_or_fail; [done|auto with answers]|].
  destruct (j_CancelRequested job); [|destruct (blank _); [apply progressed_submit|apply progressed_poll]].
  unfold process_cancel_request. destruct (_ && _); [|apply progressed_processCancellation].
  eapply answers_bind; [apply progressed_submit|]. intros [submitted [e|]] Hs; cbn [orb].
  - by apply answers_ret.
  - destruct (IsTerminalJobStatus _ || _); [by apply answers_ret|].
    destruct (negb _); [apply progressed_processCancellation|by apply answers_ret].
Qed.
End outcomes.

(** [Process] left the job alone: it is answered as it was read and the store is as
    it was then, because at that moment its lease was held or its next run still to come. *)
Definition left_alone (id : string) job (w w' : world X) : Prop :=
  ∃ w1, call (GetJob id) w = (Ok job, w1) ∧ w_store w' = w_store w1 ∧
    (leased job (clock_at (env_reads (w_env w1))) = true ∨ not_due job (clock_at (env_reads (w_env w1))) = true).

Lemma clock_if_reads b w : (clock_if (X:=X) b w).1 = (if b then clock_at (env_reads (w_env w)) else zeroTime) ∧
  w_store (clock_if (X:=X) b w).2 = w_store w ∧ (b = false → (clock_if (X:=X) b w).2 = w).
Proof. destruct b; [done|]. by destruct w. Qed.

(** What follows the tests of the lease and of the time. *)
Lemma answers_continue lw job :
  answers progressed (if (0 <? j_Attempt job) && match lw_resultRecovery lw with Some _ => true | None => false end
    then or_fail (recoverProviderReceipt lw job) (fun recovered =>
      let '(job, r, complete) := recovered in
      if complete : bool then finalizeWithHeartbeat lw job r else process_claimed lw job)
    else process_claimed lw job).
Proof.
  destruct (_ && _); [|apply progressed_process_claimed].
  apply answers_or_fail; [done|]. intros [[job' r] [|]]; [apply progressed_finalizeWithHeartbeat|apply progressed_process_claimed].
Qed.

(** A job that has not been left alone has been brought to an answer of its own. *)
Lemma process_loaded_ends lw job w a w' :
  process_loaded lw job w = (a, w') →
  progressed a ∨
  a = (job, None) ∧ w_store w' = w_store w ∧
    (leased job (clock_at (env_reads (w_env w))) = true ∨ not_due job (clock_at (env_reads (w_env w))) = true).
Proof.
  unfold process_loaded. destruct (IsTerminalJobStatus (j_Status job)) eqn:Et; [intros [= <- <-]; left; by left|].
  unfold bind at 1. set (b := bool_decide (j_Status job ∈ [StatusRunning; StatusFinalizing]) && _).
  destruct (clock_if_reads b w) as (Ht & Hs & Hw). destruct (clock_if b w) as [now w1]. cbn [fst snd] in *.
  destruct (leased job now) eqn:El.
  { intros [= <- <-]. right. split_and!; [done|done|left]. rewrite Ht in El. destruct b eqn:Eb; [done|].
    exfalso. revert El Eb. unfold leased, b. destruct (bool_decide _); [|done]. by destruct (j_LeaseUntil job). }
  unfold bind at 1. set (c := bool_decide (j_Status job ∈ [StatusWaitingProvider; StatusRetryWait]) && _).
  destruct (clock_if_reads c w1) as (Ht2 & Hs2 & _). destruct (clock_if c w1) as [now2 w2]. cbn [fst snd] in *.
  destruct (not_due job now2) eqn:En.
  { intros [= <- <-]. right. split_and!; [done|congruence|right].
    assert (Hc : c = true) by (unfold not_due in En; by apply andb_prop in En as [? _]).
    assert (Hb : b = false).
    { unfold b. rewrite bool_decide_false; [done|]. apply andb_prop in Hc as [Hc%bool_decide_eq_true _].
      rewrite !elem_of_cons, elem_of_nil in *. intros Hr. destruct Hc as [|[|[]]], Hr as [|[|[]]]; clash. }
    rewrite (Hw Hb), Hc in Ht2. by rewrite <-Ht2. }
  intros E. left. eapply answers_continue, E.
Qed.

(** C30. No wake-up without an error leaves a job half-way.  Whatever the provider,
    the services and the other workers do, the job [Process] answers is terminal; or waits for
    its provider with a task to ask about and the lease released; or it was not the worker's turn:
    when the job was read its lease was held or its next run still to come, and it is
    answered as it was read, with nothing written. *)
Theorem process_leaves_no_job_halfway lw id w job w' :
  Process lw id w = ((job, None), w') →
  IsTerminalJobStatus (j_Status job) = true ∨ waiting_released job ∨ left_alone id job w w'.
Proof.
  unfold Process, or_fail. destruct (call (GetJob id) w) as [[loaded|e] w1] eqn:E1; [|done].
  intros [Hp|(Ha & Hs & Hc)]%process_loaded_ends.
  - destruct Hp; [by left|by right; left].
  - assert (job = loaded) as -> by congruence. right; right. by exists w1.
Qed.

(** ** Who may run *)

(** The scheduler and the worker agree on what is due: a job is listed as
    runnable exactly when a worker waking it at that time would not leave it
    alone -- except that only the scheduler waits for the start time of a job
    still in the queue. *)
Theorem scheduler_and_worker_agree job now :
  j_Status job ∈ job_statuses →
  jobRunnableAt job now
  = negb (IsTerminalJobStatus (j_Status job)) && negb (leased job now) && negb (not_due job now)
    && (negb (bool_decide (j_Status job = StatusQueued)) || IsZero (j_NextRunAt job) || negb (After (j_NextRunAt job) now)).
Proof.
  intros Hs. unfold jobRunnableAt, leased, not_due. unfold job_statuses in Hs.
  destruct (j_LeaseUntil job) as [until|]; [destruct (After until now)|];
    destruct (IsZero (j_NextRunAt job)), (After (j_NextRunAt job) now);
    revert Hs; generalize (j_Status job); intros s Hs;
    do 8 (apply elem_of_cons in Hs as [->|Hs]; [vm_compute; reflexivity|]); by apply elem_of_nil in Hs.
Qed.

Lemma clock_if_world b w : ∃ v, clock_if (X:=X) b w = (if b then clock_at (env_reads (w_env w)) else zeroTime, mkWorld (w_store w) v).
Proof. destruct b; [by eexists|]. exists (w_env w). by destruct w. Qed.

Lemma leave_loaded lw job w :
  IsTerminalJobStatus (j_Status job) = true
  ∨ leased job (clock_at (env_reads (w_env w))) = true ∨ not_due job (clock_at (env_reads (w_env w))) = true →
  ∃ v, process_loaded lw job w = ((job, None), mkWorld (w_store w) v).
Proof.
  intros Hcase. unfold process_loaded.
  destruct (IsTerminalJobStatus (j_Status job)) eqn:Et; [exists (w_env w); by destruct w|].
  destruct Hcase as [?|Hcase]; [done|]. unfold bind at 1.
  destruct (bool_decide (j_Status job ∈ [StatusRunning; StatusFinalizing])) eqn:Er.
  - destruct (clock_if_world (true && match j_LeaseUntil job with Some _ => true | None => false end) w) as [v ->].
    destruct Hcase as [Hl|Hn].
    + assert (j_LeaseUntil job <> None) as Hu. { intros Hu. unfold leased in Hl. rewrite Hu, andb_false_r in Hl. done. }
      destruct (j_LeaseUntil job); [|done]. cbn [andb]. rewrite Hl. by exists v.
    + exfalso. unfold not_due in Hn. apply bool_decide_eq_true in Er. rewrite bool_decide_false in Hn; [done|].
      intros Hw. rewrite !elem_of_cons, elem_of_nil in Er, Hw. destruct Er as [|[|[]]], Hw as [|[|[]]]; clash.
  - assert (∀ now, leased job now = false) as Hl by (intros; unfold leased; by rewrite Er).
    destruct Hcase as [Hc|Hn]; [by rewrite Hl in Hc|]. cbn [andb clock_if ret]. rewrite Hl. unfold bind at 1.
    assert (bool_decide (j_Status job ∈ [StatusWaitingProvider; StatusRetryWait]) && negb (IsZero (j_NextRunAt job)) = true) as ->.
    { unfold not_due in Hn. by apply andb_prop in Hn as [? _]. }
    destruct (clock_if_world true w) as [v ->]. rewrite Hn. by exists v.
Qed.

Lemma leased_clone job now : leased (cloneJob job) now = leased job now.
Proof. reflexivity. Qed.
Lemma not_due_clone job now : not_due (cloneJob job) now = not_due job now.
Proof. reflexivity. Qed.
Lemma status_clone job : j_Status (cloneJob job) = j_Status job.
Proof. reflexivity. Qed.

(** A job that must not run is left exactly as it is: one that is terminal,
    one whose lease another worker still holds and one whose next run is in the
    future are answered without an error and without touching the store. *)
Theorem process_leaves_alone lw id w w1 job :
  others w = (tt, w1) → jobs (w_store w1) !! TrimSpace id = Some job →
  IsTerminalJobStatus (j_Status job) = true
  ∨ leased job (clock_at (env_reads (w_env w1))) = true ∨ not_due job (clock_at (env_reads (w_env w1))) = true →
  ∃ v, Process lw id w = ((cloneJob job, None), mkWorld (w_store w1) v).
Proof.
  intros Ho Hj Hcase. unfold Process, or_fail, call, bind at 1. rewrite Ho.
  unfold GetJob. cbn [bind get_store]. rewrite Hj. cbn [ret].
  apply leave_loaded. by rewrite status_clone, leased_clone, not_due_clone.
Qed.
End worker.
