(* ===== verification/RuntimeProps.v ===== *)
(** * The generation runtime as a whole

    The handlers of the runtime as one transition system, its refinement to the
    commands of the store, and what the relay and the scheduler deliver. *)

From Stdlib Require Import ZArith Lia.
From S2P Require Import Prelude GoJson GenModels WorkflowStore Samples WorkflowStoreProps WorkflowRuns Barrier.
From S2P Require Import BarrierProps ProviderPolicy Finalization Steps FinalizationProps LifecycleWorker Relay LifecycleProps.

Section runtime.
Context `{Runtime} {X : Type} `{Concurrency X} `{Ticking X}.
Implicit Types (w : world X).

Lemma moves_name_jobs js : moves (X:=X) (name_jobs js).
Proof.
  induction js as [|job js IH]; cbn [name_jobs]; [apply moves_ret|].
  apply moves_bind; [destruct (blank _); [apply moves_s_newID|apply moves_ret]|]. intros id.
  apply moves_bind; [exact IH|]. intros; apply moves_ret.
Qed.

Lemma moves_Create command : moves (X:=X) (Create command).
Proof.
  unfold Create. apply moves_bind; [destruct (blank _); [apply moves_s_newID|apply moves_ret]|]. intros op.
  apply moves_bind; [destruct (blank _); [apply moves_s_newID|apply moves_ret]|]. intros batch.
  apply moves_bind; [apply moves_name_jobs|]. intros js w r w' E. apply rtc_once. by eapply step_create.
Qed.

Section relay.
Hypothesis others_move : moves (X:=X) others.

Lemma moves_dispatch_events publisher limit now events st :
  (∀ e, moves (X:=X) (publisher e)) → moves (dispatch_events publisher limit now events st).
Proof.
  intros Hp. revert st. induction events as [|e events IH]; intros st; cbn [dispatch_events]; [apply moves_ret|].
  destruct (After _ _); [apply IH|]. destruct (_ && _); [apply moves_ret|].
  apply moves_bind; [|intros; apply IH]. apply moves_bind; [apply Hp|]. intros [err|];
    (apply moves_bind; [apply moves_s_clock|]; intros t; apply moves_bind; [apply moves_call; [done|]|intros; apply moves_ret]).
  - apply moves_MarkOutboxFailed.
  - apply moves_MarkOutboxPublished.
Qed.

Lemma moves_DispatchPending publisher limit :
  (∀ e, moves (X:=X) (publisher e)) → moves (DispatchPending publisher limit).
Proof.
  intros Hp. apply moves_bind; [apply moves_call; [done|apply moves_ListOutbox]|]. intros [events|e]; [|apply moves_ret].
  apply moves_bind; [apply moves_s_clock|]. intros now.
  apply moves_bind; [by apply moves_dispatch_events|]. intros; apply moves_ret.
Qed.

Lemma moves_enqueue_jobs queue js n : (∀ q, moves (X:=X) (queue q)) → moves (enqueue_jobs queue js n).
Proof.
  intros Hq. revert n. induction js as [|j js IH]; intros n; cbn [enqueue_jobs]; [apply moves_ret|].
  apply moves_bind; [apply moves_s_clock|]. intros now. apply moves_bind; [apply Hq|]. intros [e|]; [apply moves_ret|apply IH].
Qed.

Lemma moves_EnqueueDue queue limit : (∀ q, moves (X:=X) (queue q)) → moves (EnqueueDue queue limit).
Proof.
  intros Hq. apply moves_bind; [apply moves_s_clock|]. intros now.
  apply moves_bind; [apply moves_call; [done|apply moves_ListRunnableJobs]|].
  intros [js|e]; [by apply moves_enqueue_jobs|apply moves_ret].
Qed.
End relay.

(** One step of the runtime: a command of a client, a wake-up of a worker, a run
    of the compensation, a round of the relay or of the scheduler.  The other
    workers may interfere inside each, through [others]. *)
Inductive runtime_step w : world X → Prop :=
| run_create command r w' : Create command w = (r, w') → runtime_step w w'
| run_cancel id r w' : CancelBatch id w = (r, w') → runtime_step w w'
| run_barrier id r w' : TryFinalize id w = (r, w') → runtime_step w w'
| run_wake lw id r w' : worker_rely lw → Process lw id w = (r, w') → runtime_step w w'
| run_queue lw r w' : worker_rely lw → RunOnce lw w = (r, w') → runtime_step w w'
| run_compensation_step g id r w' : gateway_rely g → Run g id w = (r, w') → runtime_step w w'
| run_manual id points transactionID r w' : ManualFinalize id points transactionID w = (r, w') → runtime_step w w'
| run_relay publisher limit r w' :
    (∀ e, moves (publisher e)) → DispatchPending publisher limit w = (r, w') → runtime_step w w'
| run_schedule queue limit r w' :
    (∀ q, moves (queue q)) → EnqueueDue queue limit w = (r, w') → runtime_step w w'.

Hypothesis others_move : moves (X:=X) others.

Lemma runtime_step_moves w w' : runtime_step w w' → rtc store_step w w'.
Proof.
  destruct 1 as [command r w' E|id r w' E|id r w' E|lw id r w' Hr E|lw r w' Hr E|g id r w' Hg E|id points t r w' E
    |publisher limit r w' Hp E|queue limit r w' Hq E].
  - by eapply moves_Create.
  - by eapply CancelBatch_steps.
  - by eapply TryFinalize_steps.
  - by eapply moves_Process.
  - by eapply moves_RunOnce.
  - by eapply moves_Run.
  - by eapply moves_ManualFinalize.
  - by eapply moves_DispatchPending.
  - by eapply moves_EnqueueDue.
Qed.

(** C1. The runtime refines the store: every run of the handlers -- clients,
    workers, compensation, relay and scheduler, with whatever the other workers
    do in between -- is a run of the store's own commands.  So from an empty
    store the store's invariant holds throughout, statuses only move along the
    tables of the state machine, and a job, batch or operation that is terminal
    stays as it ended. *)
Theorem runtime_refines_store (v : env X) w w' :
  rtc runtime_step (mkWorld NewMemoryStore v) w → rtc runtime_step w w' →
  rtc store_step w w' ∧ store_wf (w_store w) ∧ store_wf (w_store w')
  ∧ (∀ id j, jobs (w_store w) !! id = Some j → ∃ j', jobs (w_store w') !! id = Some j'
       ∧ rtc job_move (j_Status j) (j_Status j')
       ∧ (IsTerminalJobStatus (j_Status j) = true → j_Status j' = j_Status j))
  ∧ (∀ id b, batches (w_store w) !! id = Some b → ∃ b', batches (w_store w') !! id = Some b'
       ∧ rtc batch_move (b_Status b) (b_Status b'))
  ∧ (∀ id e, outbox (w_store w) !! id = Some e → ∃ e', outbox (w_store w') !! id = Some e'
       ∧ event_content e' = event_content e).
Proof.
  assert (∀ a b, rtc runtime_step a b → rtc store_step a b) as Hsteps.
  { induction 1; [apply rtc_refl|]. etrans; [by apply runtime_step_moves|done]. }
  intros Hto%Hsteps Hfrom%Hsteps. destruct (run_evolves (mkWorld NewMemoryStore v) w new_store_wf Hto) as [Hwf _].
  destruct (run_evolves _ _ Hwf Hfrom) as [Hwf' [EJ EB EO EE _ _]].
  split; [done|]. split; [done|]. split; [done|]. split; [|split].
  - intros id j Hj. destruct (EJ _ _ Hj) as (j' & Hj' & _ & Hm). exists j'. split; [done|]. split; [done|].
    eapply rtc_absorbing; [apply job_terminal_stays|done].
  - intros id b Hb. destruct (EB _ _ Hb) as (b' & Hb' & Hm). by exists b'.
  - intros id e He. destruct (EE _ _ He) as (e' & He' & Hm). exists e'. split; [done|].
    clear -Hm. induction Hm as [|x y z Hxy _ IH]; [done|]. rewrite IH. by apply event_moves_content.
Qed.
End runtime.
