(* ===== verification/RelayProps.v ===== *)
(** * What the relay and the scheduler deliver *)

From Stdlib Require Import ZArith Lia Sorted.
From S2P Require Import Prelude GoJson GenModels WorkflowStore Samples WorkflowStoreProps WorkflowRuns Barrier.
From S2P Require Import ProviderPolicy Finalization LifecycleWorker Relay.

(** Whether one more failure ends the delivery of an event. *)
Definition gives_up (e : OutboxEvent) : bool :=
  (0 <? max_attempts e) && (max_attempts e <=? incr (e_Attempts e)).

(** What a round makes of a due event, given the publisher's answer. *)
Definition relayed (answer : option error) (e e' : OutboxEvent) : Prop :=
  match answer with
  | None => e_Status e' = OutboxPublished
  | Some _ => e_Attempts e' = incr (e_Attempts e)
              ∧ e_Status e' = if gives_up e then OutboxDead else OutboxPending
  end.

Lemma filter_is_sublist {A} (P : A → bool) l : sublist (List.filter P l) l.
Proof. induction l as [|a l IH]; simpl; [constructor|]. destruct (P a); by constructor. Qed.

Section round.
Context `{Runtime} {X : Type} `{Concurrency X}.
Implicit Types (w : world X).

(** Nobody else is at work, and the publisher leaves the generation store alone. *)
Context (others_quiet : ∀ w, others (X:=X) w = (tt, w)).
Variable publisher : OutboxPublisher (X:=X).
Variable answer : OutboxEvent → option error.
Hypothesis publisher_quiet : ∀ e w, ∃ v, publisher e w = (answer e, mkWorld (w_store w) v).

Lemma call_alone {A} (c : Eff (world X) A) w : call c w = c w.
Proof. unfold call, bind. by rewrite others_quiet. Qed.

Lemma publish_one_effect stored st w :
  outbox (w_store w) !! e_ID stored = Some stored → TrimSpace (e_ID stored) = e_ID stored →
  e_Status stored = OutboxPending →
  ∃ st' v e', publish_one publisher (cloneOutbox stored) st w
      = (st', mkWorld ((w_store w) <| outbox := <[e_ID stored := e']> (outbox (w_store w)) |>) v)
    ∧ relayed (answer (cloneOutbox stored)) stored e' ∧ rl_due st' = incr (rl_due st).
Proof.
  intros He Ht Hs. unfold publish_one, bind at 1.
  destruct (publisher_quiet (cloneOutbox stored) w) as [v1 ->].
  destruct (answer (cloneOutbox stored)) as [err|]; unfold bind at 1, s_clock, lift_env; cbn [clock w_env w_store];
    unfold bind at 1; rewrite call_alone; change (e_ID (cloneOutbox stored)) with (e_ID stored).
  - unfold MarkOutboxFailed. cbn [bind get_store w_store]. rewrite Ht, He, Hs, bool_decide_true by done. cbn [negb].
    change (max_attempts (cloneOutbox stored)) with (max_attempts stored).
    unfold relayed, gives_up.
    destruct (IsZero _); cbn; destruct (_ && _); (do 3 eexists; split; [reflexivity|]; split; [split; [reflexivity|done]|reflexivity]).
  - unfold MarkOutboxPublished. cbn [bind get_store w_store]. rewrite Ht, He, Hs, bool_decide_false by done.
    destruct (IsZero _); cbn; (do 3 eexists; split; [reflexivity|]; split; reflexivity).
Qed.

(** An event in the state in which it was listed. *)
Definition listed w (e : OutboxEvent) : Prop :=
  ∃ stored, outbox (w_store w) !! e_ID stored = Some stored ∧ TrimSpace (e_ID stored) = e_ID stored
            ∧ e_Status stored = OutboxPending ∧ e = cloneOutbox stored.

Lemma listed_other w e id e' v :
  e_ID e ≠ id → listed w e →
  listed (mkWorld ((w_store w) <| outbox := <[id := e']> (outbox (w_store w)) |>) v) e.
Proof.
  intros Hne (stored & He & ? & ? & ->). exists stored. split; [|done]. cbn.
  rewrite lookup_insert_ne; [done|]. intros E. apply Hne. exact (eq_sym E).
Qed.

(** What a round without a limit does to the event stored under [id]. *)
Definition round_effect (now : Time) (l : list OutboxEvent) (id : string) (e e' : OutboxEvent) : Prop :=
  if bool_decide (id ∈ e_ID <$> l) && negb (After (e_AvailableAt e) now)
  then relayed (answer (cloneOutbox e)) e e'
  else e' = e.

Lemma dispatch_events_effect limit now l st w :
  limit <= 0 → NoDup (e_ID <$> l) → Forall (listed w) l →
  ∃ st' v s', dispatch_events publisher limit now l st w
      = (st', mkWorld ((w_store w) <| outbox := s' |>) v)
    ∧ ∀ id e, outbox (w_store w) !! id = Some e → ∃ e', s' !! id = Some e' ∧ round_effect now l id e e'.
Proof.
  intros Hl. revert st w. induction l as [|x l IH]; intros st w Hnd Hall; cbn [dispatch_events].
  { exists st, (w_env w), (outbox (w_store w)). split; [by destruct w as [[] ?]|]. intros id e He. exists e. split; [done|].
    unfold round_effect. by rewrite bool_decide_false by apply not_elem_of_nil. }
  rewrite fmap_cons in Hnd. apply NoDup_cons in Hnd as [Hnx Hnd]. apply Forall_cons in Hall as [Hx Hall].
  pose proof Hx as (stored & Hs & Ht & Hp & ->). change (e_ID (cloneOutbox stored)) with (e_ID stored) in *.
  change (e_AvailableAt (cloneOutbox stored)) with (e_AvailableAt stored).
  destruct (After (e_AvailableAt stored) now) eqn:Ea.
  - destruct (IH st w Hnd Hall) as (st' & v & s' & E & Heff). exists st', v, s'. split; [exact E|].
    intros id e He. destruct (Heff id e He) as (e' & He' & Hr). exists e'. split; [done|].
    unfold round_effect in *. destruct (decide (id = e_ID stored)) as [->|Hne].
    + assert (e = stored) as -> by congruence. rewrite Ea, andb_false_r in *. exact Hr.
    + rewrite (bool_decide_ext (id ∈ e_ID <$> cloneOutbox stored :: l) (id ∈ e_ID <$> l)); [exact Hr|].
      rewrite fmap_cons, elem_of_cons. change (e_ID (cloneOutbox stored)) with (e_ID stored). tauto.
  - rewrite (proj2 (Z.ltb_ge 0 limit)) by lia. cbn [andb].
    destruct (publish_one_effect stored st w Hs Ht Hp) as (st1 & v1 & e1 & E1 & Hrel & _).
    unfold bind. rewrite E1. set (w1 := mkWorld _ v1).
    destruct (IH st1 w1 Hnd) as (st' & v & s' & E & Heff).
    { apply Forall_forall. intros y Hy. apply listed_other; [|by eapply Forall_forall in Hall].
      intros Ey. apply Hnx. rewrite <-Ey. by apply list_elem_of_fmap_2. }
    exists st', v, s'. split; [exact E|]. intros id e He.
      destruct (decide (id = e_ID stored)) as [->|Hne].
      * assert (e = stored) as -> by congruence.
        destruct (Heff (e_ID stored) e1) as (e' & He' & Hr); [cbn; by rewrite lookup_insert_eq|].
        unfold round_effect in *. rewrite (bool_decide_false (e_ID stored ∈ e_ID <$> l)) in Hr by done. cbn in Hr. subst e'.
        exists e1. split; [done|]. rewrite bool_decide_true, Ea; [exact Hrel|]. rewrite fmap_cons. left.
      * destruct (Heff id e) as (e' & He' & Hr); [cbn; by rewrite lookup_insert_ne|]. exists e'. split; [done|].
        unfold round_effect in *.
        rewrite (bool_decide_ext (id ∈ e_ID <$> cloneOutbox stored :: l) (id ∈ e_ID <$> l)); [exact Hr|].
        rewrite fmap_cons, elem_of_cons. change (e_ID (cloneOutbox stored)) with (e_ID stored). tauto.
Qed.

(** The pending events as the store lists them. *)
Lemma pending_listed w l w' :
  outbox_wf (w_store w) → (∀ id e, outbox (w_store w) !! id = Some e → TrimSpace id = id) →
  ListOutbox OutboxPending 0 w = (Ok l, w') →
  w' = w ∧ NoDup (e_ID <$> l) ∧ Forall (listed w) l
  ∧ ∀ id e, outbox (w_store w) !! id = Some e → (id ∈ e_ID <$> l ↔ e_Status e = OutboxPending).
Proof.
  intros Hwf Htrim. unfold ListOutbox. cbn [bind get_store ret]. unfold take_limit. cbn [Z.ltb Z.compare andb].
  intros [= <- <-]. split; [done|]. set (pending := List.filter _ _).
  assert (sort_slice outbox_earlier (cloneOutbox <$> pending) ≡ₚ cloneOutbox <$> pending) as Hp by apply sort_slice_perm.
  assert (∀ e, e ∈ pending ↔ ∃ id, outbox (w_store w) !! id = Some e ∧ e_Status e = OutboxPending) as Hin.
  { intros e. unfold pending. rewrite list_elem_of_In, filter_In, <-list_elem_of_In, list_elem_of_fmap.
    change (bool_decide (OutboxPending = "")) with false. cbn [orb]. rewrite bool_decide_eq_true. split.
    - intros [([id x] & -> & Hx%elem_of_map_to_list) Hs]. by exists id.
    - intros (id & He & Hs). split; [|done]. exists (id, e). split; [done|]. by apply elem_of_map_to_list. }
  assert (e_ID <$> (cloneOutbox <$> pending) = e_ID <$> pending) as Eids by (rewrite <-list_fmap_compose; reflexivity).
  split; [|split].
  - rewrite Hp, Eids. unfold pending. apply (sublist_NoDup _ (e_ID <$> (map_to_list (outbox (w_store w))).*2)).
    + assert (e_ID <$> (map_to_list (outbox (w_store w))).*2 = (map_to_list (outbox (w_store w))).*1) as ->.
      { rewrite <-list_fmap_compose. apply list_fmap_ext. intros i [id e] Hi. cbn.
        apply (ow_event _ Hwf). apply elem_of_map_to_list. by eapply list_elem_of_lookup_2. }
      apply NoDup_fst_map_to_list.
    + apply fmap_sublist, filter_is_sublist.
  - apply Forall_forall. intros e. rewrite Hp. intros (x & -> & (id & He & Hs)%Hin)%list_elem_of_fmap.
    destruct (ow_event _ Hwf _ _ He) as (Eid & _). exists x. rewrite Eid. split; [done|]. split; [by eapply Htrim|done].
  - intros id e He. rewrite Hp, Eids, list_elem_of_fmap. destruct (ow_event _ Hwf _ _ He) as (Eid & _). split.
    + intros (x & -> & (id2 & Hx & Hs)%Hin). destruct (ow_event _ Hwf _ _ Hx) as (Ex & _). congruence.
    + intros Hs. exists e. split; [done|]. apply Hin. by exists id.
Qed.

(** A round of the relay delivers every due event: each pending event whose
    time has come is handed to the publisher and ends published when it was
    accepted; when it was refused it counts one more attempt and stays pending,
    or dead after the tenth -- but the request to finalize a batch is never given
    up.  Events not due, published or dead are left alone, and so is everything
    else in the store. *)
Theorem relay_round limit w n err w' :
  limit <= 0 → outbox_wf (w_store w) → (∀ id e, outbox (w_store w) !! id = Some e → TrimSpace id = id) →
  DispatchPending publisher limit w = ((n, err), w') →
  let now := clock_at (env_reads (w_env w)) in
  (∀ id e, outbox (w_store w) !! id = Some e →
     ∃ e', outbox (w_store w') !! id = Some e'
       ∧ if bool_decide (e_Status e = OutboxPending) && negb (After (e_AvailableAt e) now)
         then relayed (answer (cloneOutbox e)) e e'
              ∧ (e_EventType e = EventBatchFinalizeRequested → e_Status e' ≠ OutboxDead)
         else e' = e)
  ∧ w_store w' = (w_store w) <| outbox := outbox (w_store w') |>.
Proof.
  intros Hl Hwf Htrim. cbv zeta. unfold DispatchPending, bind at 1. rewrite call_alone.
  destruct (ListOutbox OutboxPending 0 w) as [[l|e] w1] eqn:El; [|done].
  destruct (pending_listed _ _ _ Hwf Htrim El) as (-> & Hnd & Hall & Hin).
  unfold bind at 1, s_clock, lift_env. cbn [clock]. set (w1 := mkWorld (w_store w) _). unfold bind.
  destruct (dispatch_events_effect limit (clock_at (env_reads (w_env w))) l (mkRelay 0 0 None) w1 Hl Hnd Hall)
    as (st & v & s' & -> & Heff).
  intros [= _ _ <-]. split; [|by destruct w as [[] ?]]. intros id e He.
  destruct (Heff id e He) as (e' & He' & Hr). exists e'. split; [exact He'|]. unfold round_effect in Hr.
  rewrite (bool_decide_ext _ _ (Hin id e He)) in Hr. destruct (_ && _); [|done]. split; [done|]. intros Hf.
  unfold relayed, gives_up, max_attempts in Hr. rewrite Hf in Hr. rewrite (bool_decide_true (EventBatchFinalizeRequested = _)) in Hr by done.
  destruct (answer _); [|by rewrite Hr]. destruct Hr as [_ ->]. done.
Qed.
End round.

(** ** The recovery scheduler *)

Section scheduler.
Context `{Runtime} {X : Type} `{Concurrency X}.
Implicit Types (w : world X).
Context (others_quiet : ∀ w, others (X:=X) w = (tt, w)).

(** A queue that takes everything, and where to see what it was given. *)
Variable queue : DispatchQueue (X:=X).
Variable enqueued : X → list QueuePayload.
Hypothesis queue_takes : ∀ q w, ∃ v, queue q w = (None, mkWorld (w_store w) v)
  ∧ enqueued (env_ext v) = enqueued (env_ext (w_env w)) ++ [q].

Definition wakes (q : QueuePayload) (job : GenerationJob) : Prop :=
  qp_JobID q = j_ID job
  ∧ qp_IdempotencyKey q = "job:" +:+ j_ID job +:+ ":wake:" +:+ pretty (j_StatusVersion job).

Lemma enqueue_jobs_all js n w :
  ∃ v qs, enqueue_jobs queue js n w = ((Nat.iter (length js) incr n, None), mkWorld (w_store w) v)
    ∧ enqueued (env_ext v) = enqueued (env_ext (w_env w)) ++ qs ∧ Forall2 wakes qs js.
Proof.
  revert n w. induction js as [|j js IH]; intros n w; cbn [enqueue_jobs].
  { exists (w_env w), []. rewrite app_nil_r. split; [by destruct w|]. by split; [|constructor]. }
  unfold bind at 1, s_clock, lift_env. cbn [clock]. set (w1 := mkWorld (w_store w) _). unfold bind.
  set (q := mkQueuePayload _ _ _). destruct (queue_takes q w1) as (v1 & -> & Hlog).
  destruct (IH (incr n) (mkWorld (w_store w1) v1)) as (v & qs & E & Hlog2 & Hall).
  exists v, (q :: qs). split; [|split].
  - rewrite E. cbn [length]. by rewrite Nat.iter_succ_r.
  - rewrite Hlog2. cbn [w_env]. rewrite Hlog, <-app_assoc. reflexivity.
  - constructor; [split; reflexivity|exact Hall].
Qed.

(** No due job is lost: a round of the recovery scheduler without a limit
    puts a wake-up on the queue for every stored job that may run -- a due job, or
    one whose worker let its lease expire -- each under a key made of the job and
    its version, and wakes nothing that may not run; the store is left alone. *)
Theorem recovery_reaches_every_due_job limit w n err w' :
  limit <= 0 → store_wf (w_store w) → clock_at (env_reads (w_env w)) ≠ 0 →
  EnqueueDue queue limit w = ((n, err), w') →
  let now := clock_at (env_reads (w_env w)) in
  err = None ∧ w_store w' = w_store w
  ∧ ∃ qs, enqueued (env_ext (w_env w')) = enqueued (env_ext (w_env w)) ++ qs
    ∧ (∀ id j, jobs (w_store w) !! id = Some j → jobRunnableAt j now = true →
         ∃ q, q ∈ qs ∧ qp_JobID q = id ∧ qp_IdempotencyKey q = "job:" +:+ id +:+ ":wake:" +:+ pretty (j_StatusVersion j))
    ∧ (∀ q, q ∈ qs → ∃ j, jobs (w_store w) !! qp_JobID q = Some j ∧ jobRunnableAt j now = true).
Proof.
  intros Hl Hwf Hnow. cbv zeta. unfold EnqueueDue, bind at 1, s_clock, lift_env. cbn [clock].
  set (w1 := mkWorld (w_store w) _). unfold bind. unfold call, bind. rewrite others_quiet.
  destruct (ListRunnableJobs _ limit w1) as [[js|e] w2] eqn:E; [|by unfold ListRunnableJobs in E; cbn in E; destruct (IsZero _)].
  apply ListRunnableJobs_spec in E as (-> & _ & _ & Hin & Hall); [|done].
  destruct (enqueue_jobs_all js 0 w1) as (v & qs & -> & Hlog & Hq). intros [= _ <- <-].
  split; [done|]. split; [done|]. exists qs. split; [exact Hlog|]. split.
  - intros id j Hj Hr. destruct (sw_job _ Hwf _ _ Hj) as (Eid & _).
    assert (cloneJob j ∈ js) as [i Hi]%list_elem_of_lookup_1 by (by eapply Hall).
    destruct (Forall2_lookup_r _ _ _ _ _ Hq Hi) as (q & Hqi & W1 & W2). exists q.
    split; [by eapply list_elem_of_lookup_2|].
    change (j_ID (cloneJob j)) with (j_ID j) in W1, W2. change (j_StatusVersion (cloneJob j)) with (j_StatusVersion j) in W2.
    by rewrite W1, W2, Eid.
  - intros q [i Hi]%list_elem_of_lookup_1. destruct (Forall2_lookup_l _ _ _ _ _ Hq Hi) as (c & Hc & W1 & _).
    destruct (Hin c) as [(id & j & Hj & -> & Hr) _]; [by eapply list_elem_of_lookup_2|].
    destruct (sw_job _ Hwf _ _ Hj) as (Eid & _). exists j. change (j_ID (cloneJob j)) with (j_ID j) in W1.
    rewrite W1, Eid. done.
Qed.
End scheduler.

(** ** Concrete rounds *)

Module RelaySample.
#[global] Instance alone : Concurrency unit := {| others := ret tt |}.
Lemma relay_alone (w : world unit) : others w = (tt, w).
Proof. reflexivity. Qed.

(** Session signals are refused, everything else is accepted. *)
Definition answer (e : OutboxEvent) : option error :=
  if bool_decide (e_Destination e = DestinationSessionSignal) then Some (Errorf "no session") else None.
Definition publisher : OutboxPublisher (X:=unit) := fun e => ret (answer e).
Lemma publisher_quiet e (w : world unit) : ∃ v, publisher e w = (answer e, mkWorld (w_store w) v).
Proof. exists (w_env w). by destruct w. Qed.

Definition after_round : world unit := (DispatchPending (H:=Sample.runtime) publisher 0 Sample.world1).2.

Definition shown (s : MemoryStore) : list (string * string * Z) :=
  (fun p => (e_EventType p.2, e_Status p.2, e_Attempts p.2)) <$> map_to_list (outbox s).

#[global] Instance queue_alone : Concurrency (list QueuePayload) := {| others := ret tt |}.
Lemma queue_quiet (w : world (list QueuePayload)) : others w = (tt, w).
Proof. reflexivity. Qed.
Definition queue : DispatchQueue (X:=list QueuePayload) := fun q w =>
  (None, mkWorld (w_store w) (mkEnv (env_reads (w_env w)) (env_ids (w_env w)) (env_ext (w_env w) ++ [q]))).
Lemma queue_takes q (w : world (list QueuePayload)) :
  ∃ v, queue q w = (None, mkWorld (w_store w) v) ∧ id (env_ext v) = id (env_ext (w_env w)) ++ [q].
Proof. by eexists. Qed.
Definition queue_world : world (list QueuePayload) := mkWorld (w_store Sample.world1) (mkEnv 1 1 []).
End RelaySample.

Lemma outbox_trimmed_by (s : MemoryStore) :
  forallb (fun p => bool_decide (TrimSpace p.1 = p.1)) (map_to_list (outbox s)) = true →
  ∀ id e, outbox s !! id = Some e → TrimSpace id = id.
Proof.
  rewrite forallb_forall. intros Hall id e He. specialize (Hall (id, e)).
  rewrite <-list_elem_of_In, elem_of_map_to_list, bool_decide_eq_true in Hall. by apply Hall.
Qed.

Lemma pair_of_first {A B} (p : A * B) a : p.1 = a → p = (a, p.2).
Proof. destruct p. by intros <-. Qed.

Lemma sample_trimmed : ∀ id e, outbox (w_store Sample.world1) !! id = Some e → TrimSpace id = id.
Proof. apply outbox_trimmed_by. vm_compute. reflexivity. Qed.

Lemma relay_round_witness :
  ∃ n err, DispatchPending (H:=Sample.runtime) RelaySample.publisher 0 Sample.world1 = ((n, err), RelaySample.after_round)
  ∧ n = 2 ∧ w_store RelaySample.after_round = (w_store Sample.world1) <| outbox := outbox (w_store RelaySample.after_round) |>
  ∧ RelaySample.shown (w_store RelaySample.after_round)
    = [(EventJobDispatch, OutboxPublished, 0); (EventJobDispatch, OutboxPublished, 0); (EventOperationAccepted, OutboxPending, 1)].
Proof.
  exists (DispatchPending (H:=Sample.runtime) RelaySample.publisher 0 Sample.world1).1.1.
  exists (DispatchPending (H:=Sample.runtime) RelaySample.publisher 0 Sample.world1).1.2.
  assert (DispatchPending (H:=Sample.runtime) RelaySample.publisher 0 Sample.world1
    = ((DispatchPending (H:=Sample.runtime) RelaySample.publisher 0 Sample.world1).1.1,
       (DispatchPending (H:=Sample.runtime) RelaySample.publisher 0 Sample.world1).1.2, RelaySample.after_round)) as E.
  { unfold RelaySample.after_round. generalize (DispatchPending (H:=Sample.runtime) RelaySample.publisher 0 Sample.world1).
    by intros [[n err] w]. }
  split; [exact E|]. split; [vm_compute; reflexivity|]. split; [|vm_compute; reflexivity].
  exact (proj2 (relay_round (H:=Sample.runtime) RelaySample.relay_alone RelaySample.publisher RelaySample.answer
    RelaySample.publisher_quiet 0 Sample.world1 _ _ _ (Z.le_refl 0) (sw_outbox _ sample_wf)
    sample_trimmed E)).
Defined.

Definition woken : (Z * option error) * world (list QueuePayload) :=
  EnqueueDue (H:=Sample.runtime) RelaySample.queue 0 RelaySample.queue_world.

Example woken_jobs : woken.1 = (2, None) ∧ (qp_JobID <$> env_ext (w_env woken.2)) = ["job-1"; "job-2"].
Proof. split; vm_compute; reflexivity. Qed.

Lemma recovery_reaches_every_due_job_witness :
  ∃ n err w', EnqueueDue (H:=Sample.runtime) RelaySample.queue 0 RelaySample.queue_world = ((n, err), w')
  ∧ err = None ∧ w_store w' = w_store RelaySample.queue_world.
Proof.
  destruct (EnqueueDue (H:=Sample.runtime) RelaySample.queue 0 RelaySample.queue_world) as [[n err] w'] eqn:E.
  exists n, err, w'. split; [reflexivity|].
  assert (clock_at (Runtime:=Sample.runtime) (env_reads (w_env RelaySample.queue_world)) ≠ 0) as Hnow by (by vm_compute).
  destruct (recovery_reaches_every_due_job (H:=Sample.runtime) RelaySample.queue_quiet RelaySample.queue id RelaySample.queue_takes 0
    RelaySample.queue_world n err w' (Z.le_refl 0) sample_wf Hnow E) as (Herr & Hs & _).
  exact (conj Herr Hs).
Defined.
