(* ===== verification/WorkerRuns.v ===== *)
(** * Concrete runs of the worker

    A worker with a provider that accepts a task and completes it at the first
    poll, over the point ledger; the witnesses of the worker's theorems; and two
    runs in which a charged job fails without a refund. *)

From Stdlib Require Import ZArith Lia.
From S2P Require Import Prelude GoJson Billing GenModels WorkflowStore Samples WorkflowStoreProps WorkflowRuns.
From S2P Require Import Barrier BarrierProps ProviderPolicy Finalization Steps FinalizationProps Adapters CompensationProps.
From S2P Require Import LifecycleWorker Relay LifecycleProps RuntimeProps.

Module WorkerSample.
(** A clock that moves an hour between two readings. *)
Definition runtime : Runtime := {|
  clock_at n := 1000 + Z.of_nat n * (3600 * second);
  fresh_id n := "evt-" +:+ pretty n;
  shape_digest r := Ok (rs_SessionID r)
|}.
#[global] Instance ticking : Ticking Billing.MemoryStore := {| ticks _ := 1%nat |}.

Definition X := Billing.MemoryStore.
Definition created : world X := (CreateWorkflow (H:=runtime) Sample.command CompensationSample.world0).2.

Definition provider : ProviderAdapter (X:=X) := {|
  pa_Submit job := ret (Ok (zeroProviderResponse <| ps_State := ProviderStateAccepted |> <| ps_TaskID := "task-" +:+ j_ID job |>));
  pa_Poll job := ret (Ok (zeroProviderResponse <| ps_State := ProviderStateCompleted |>
    <| ps_Result := zeroProviderResult <| pr_AssetIDs := ["asset-" +:+ j_ID job] |> |>));
  pa_Cancel _ := ret (Ok (mkProviderCancelResult true "cancelled"))
|}.

Definition engine_with (gateway : BillingGateway (X:=X)) (committer : FinalizationCommit → Eff (env X) (result unit)) :
    FinalizationEngine (X:=X) := {|
  f_artifacts := None; f_bindings := None; f_committer := Some committer; f_inspector := None; f_discarder := None;
  f_billing := Some gateway; f_calculator := Some (fun job r => ret (Calculate None job r))
|}.
Definition engine : FinalizationEngine (X:=X) := engine_with (BillingAdapter (H:=runtime)) (fun _ => ret (Ok tt)).

Definition worker_with (providers : gmap string (ProviderAdapter (X:=X))) (engine : FinalizationEngine (X:=X)) : LifecycleWorker (X:=X) :=
  mkLifecycleWorker None providers engine None "worker-1" (30 * second) second.
Definition worker : LifecycleWorker (X:=X) := worker_with {[ProviderImage2 := provider]} engine.

Definition wake (w : world X) : world X := (Process (H:=runtime) worker "job-1" w).2.

Definition shown (w : world X) :=
  (fun j => (j_Status j, j_CompensationStatus j, j_ChargedPoints j, j_LeaseOwner j,
     Billing.a_Balance <$> Billing.accounts (env_ext (w_env w)) !! "user-1")) <$> jobs (w_store w) !! "job-1".


(** The commit fails in a way that may pass. *)
Definition bad_committer (_ : FinalizationCommit) : Eff (env X) (result unit) := fail (Errorf "database is busy").
Definition worker_busy : LifecycleWorker (X:=X) :=
  worker_with {[ProviderImage2 := provider]} (engine_with (BillingAdapter (H:=runtime)) bad_committer).
Definition charged : world X := (Process (H:=runtime) worker_busy "job-1" (wake created)).2.
Definition unregistered : LifecycleWorker (X:=X) := worker_with ∅ engine.
Definition lost : world X := (Process (H:=runtime) unregistered "job-1" charged).2.

Definition flaky : BillingGateway (X:=X) := {|
  gw_Charge q w := if bool_decide (Billing.byKey (env_ext (w_env w)) = ∅) then BillingAdapter_Charge (H:=runtime) q w
                   else (Err (Errorf "ledger is unavailable"), w);
  gw_Refund := BillingAdapter_Refund (H:=runtime)
|}.
Definition worker_flaky : LifecycleWorker (X:=X) :=
  worker_with {[ProviderImage2 := provider]} (engine_with flaky bad_committer).
Definition wake_flaky (w : world X) : world X := (Process (H:=runtime) worker_flaky "job-1" w).2.

(** What the record and the ledger say of the job. *)
Definition account (w : world X) : option (string * string * Z * string) * option Z :=
  ((fun j => (j_Status j, j_BillingTransactionID j, j_ChargedPoints j, j_CompensationStatus j)) <$> jobs (w_store w) !! "job-1",
   Billing.a_Balance <$> Billing.accounts (env_ext (w_env w)) !! "user-1").

Example normal_run : (account (wake created), account (wake (wake created)))
  = ((Some (StatusWaitingProvider, "", 0, CompensationNotRequired), Some 100),
     (Some (StatusSucceeded, "charge:job-1", 12, CompensationNotRequired), Some 88)).
Proof. vm_compute. reflexivity. Qed.

Definition compensate (w : world X) : world X := (Run (H:=runtime) (BillingAdapter (H:=runtime)) "job-1" w).2.
End WorkerSample.
Import WorkerSample.

(** A charged job can lose its refund to a missing provider: a job that was
    charged and waits to retry its commit is woken by a worker on which its
    provider is not registered; the worker tests this before it looks at the
    finalization phase, fails the job and records that no compensation is
    required.  The 12 points stay with the ledger, and the compensation service
    refuses to do anything. *)
Theorem unregistered_provider_loses_the_refund :
  account charged = (Some (StatusRetryWait, "charge:job-1", 12, CompensationNotRequired), Some 88)
  ∧ account lost = (Some (StatusFailed, "charge:job-1", 12, CompensationNotRequired), Some 88)
  ∧ account (compensate lost) = account lost.
Proof. split; [|split]; vm_compute; reflexivity. Qed.

(** A charged job can lose its refund to the billing gateway: the charge is
    repeated on every retry of the finalization, and when the repeated call fails
    until the retry budget is used up, the job fails permanently with no
    compensation required, although its first charge went through and its
    transaction is on record. *)
Theorem failed_recharge_loses_the_refund :
  let w1 := wake_flaky (wake created) in
  let w3 := wake_flaky (wake_flaky w1) in
  account w1 = (Some (StatusRetryWait, "charge:job-1", 12, CompensationNotRequired), Some 88)
  ∧ account w3 = (Some (StatusFailed, "charge:job-1", 12, CompensationNotRequired), Some 88)
  ∧ account (compensate w3) = account w3.
Proof. cbv zeta. split; [|split]; vm_compute; reflexivity. Qed.

(** ** Witnesses *)

Lemma process_leaves_no_job_halfway_witness :
  ∃ job w', Process (H:=runtime) worker "job-1" created = ((job, None), w') ∧ j_Status job = StatusWaitingProvider
  ∧ (IsTerminalJobStatus (j_Status job) = true ∨ waiting_released job
     ∨ left_alone (H:=runtime) "job-1" job created w').
Proof.
  destruct (Process (H:=runtime) worker "job-1" created) as [[job err] w'] eqn:E.
  assert ((err, j_Status job) = (None, StatusWaitingProvider)) as [= -> Hs].
  { apply (f_equal (fun x => (x.1.2, j_Status x.1.1))) in E. cbn [fst snd] in E. rewrite <-E. vm_compute. reflexivity. }
  exists job, w'. split; [reflexivity|]. split; [exact Hs|].
  exact (process_leaves_no_job_halfway (H:=runtime) worker "job-1" created job w' E).
Defined.

Definition leased_sample : GenerationJob := (Sample.job "j") <| j_Status := StatusRunning |> <| j_LeaseUntil := Some 10 |>.

Lemma scheduler_and_worker_agree_witness :
  jobRunnableAt leased_sample 5 = false.
Proof.
  rewrite (scheduler_and_worker_agree leased_sample 5
    ltac:(vm_compute; do 1 right; left)). vm_compute. reflexivity.
Defined.

Lemma process_leaves_alone_witness :
  ∃ job v, jobs (w_store (wake (wake created))) !! "job-1" = Some job
  ∧ Process (H:=runtime) worker "job-1" (wake (wake created)) = ((cloneJob job, None), mkWorld (w_store (wake (wake created))) v).
Proof.
  assert (match jobs (w_store (wake (wake created))) !! TrimSpace "job-1" with
          | Some j => IsTerminalJobStatus (j_Status j) | None => false end = true) as Ht by (vm_compute; reflexivity).
  apply tested_Some in Ht as (job & Hj & Ht).
  destruct (process_leaves_alone (H:=runtime) worker "job-1" (wake (wake created)) (wake (wake created)) job
    (CompensationSample.alone_quiet _) Hj (or_introl Ht)) as [v E].
  exists job, v. split; [exact Hj|exact E].
Defined.

Lemma sample_provider_rely : provider_rely (H:=runtime) provider.
Proof. split; intros; apply moves_ret. Qed.

Lemma sample_worker_rely : worker_rely (H:=runtime) worker.
Proof.
  split.
  - split; cbn; intros; simplify_eq; try (by apply moves_ret).
    split; intros q; (apply moves_bind; [apply moves_env|intros [r|e]; [apply moves_ret|apply moves_fail]]).
  - intros k p. cbn [worker worker_with lw_providers]. intros [_ <-]%lookup_singleton_Some. apply sample_provider_rely.
  - intros c [=].
  - intros c [=].
Qed.

Lemma alone_moves : moves (H:=runtime) (X:=X) (others (Concurrency:=CompensationSample.alone)).
Proof. apply moves_ret. Qed.

Lemma wake_run w : runtime_step (H:=runtime) w (wake w).
Proof. eapply run_wake; [exact sample_worker_rely|apply surjective_pairing]. Qed.

Definition world_created : world X := (Create (H:=runtime) Sample.command CompensationSample.world0).2.

Lemma created_run : rtc (runtime_step (H:=runtime)) CompensationSample.world0 world_created.
Proof.
  apply rtc_once. unfold world_created. generalize CompensationSample.world0. intros w.
  eapply run_create, surjective_pairing.
Qed.

Lemma runtime_refines_store_witness :
  rtc (runtime_step (H:=runtime)) CompensationSample.world0 world_created
  ∧ rtc (store_step (H:=runtime)) world_created (wake (wake world_created)) ∧ store_wf (w_store (wake (wake world_created))).
Proof.
  split; [exact created_run|].
  assert (rtc (runtime_step (H:=runtime)) world_created (wake (wake world_created))) as Hr.
  { generalize world_created. intros w. eapply rtc_l; [apply wake_run|]. apply rtc_once, wake_run. }
  destruct (runtime_refines_store (H:=runtime) alone_moves (w_env CompensationSample.world0) world_created
    (wake (wake world_created)) created_run Hr) as (H1 & _ & H2 & _).
  exact (conj H1 H2).
Defined.
