(* ===== verification/SessionModels.v ===== *)
(** * Session runtime: data, [internal/aigc/sessionruntime/models.go]

    The durable inputs of a session, the runtime lease with its fence, the run
    of a turn, approval continuations and their commands, with the identities
    and the validation of the inputs; and [terminal_event.go], the event that
    announces a dead input.  A [json.RawMessage] is its bytes.  [encoding/json]
    and SHA-256 are the operations of the class [Codec]; every theorem holds for
    each of its instances. *)

From Stdlib Require Import ZArith Lia Ascii.
From S2P Require Import Prelude GoJson.

Definition ErrInputNotFound := errors_New "session input not found".
Definition ErrNoInputAvailable := errors_New "no session input available".
Definition ErrLeaseHeld := errors_New "session runtime lease is held by another owner".
Definition ErrFenceRejected := errors_New "session runtime fence rejected".
Definition ErrInvalidTransition := errors_New "invalid session runtime transition".
Definition ErrTurnNotFound := errors_New "session turn run not found".
Definition ErrContinuationNotFound := errors_New "approval continuation not found".
Definition ErrContinuationClaimed := errors_New "approval continuation is already claimed".
Definition ErrIdempotencyConflict := errors_New "session runtime idempotency conflict".
Definition ErrManagerStopped := errors_New "session runtime manager is stopped".

Definition InputTypeUserMessage := "user_message".
Definition InputTypeResumeRequested := "resume_requested".
Definition InputTypeApprovalContinuation := "approval_continuation_result".
Definition InputTypeBatchContinuationResult := "batch_continuation_result".

Definition PriorityUserMessage := 300.
Definition PriorityResumeRequested := 200.
Definition PriorityApprovalContinuation := 200.
Definition PriorityBatchContinuationResult := 100.

Definition InputStatusPending := "pending".
Definition InputStatusClaimed := "claimed".
Definition InputStatusRunning := "running".
Definition InputStatusRetryWait := "retry_wait".
Definition InputStatusResolved := "resolved".
Definition InputStatusDead := "dead".

Definition TurnStatusPrepared := "prepared".
Definition TurnStatusRunning := "running".
Definition TurnStatusWaitingInterrupt := "waiting_interrupt".
Definition TurnStatusCommitting := "committing".
Definition TurnStatusCommitted := "committed".
Definition TurnStatusRetryWait := "retry_wait".
Definition TurnStatusDead := "dead".

Definition isTerminalInputStatus (status : string) : bool :=
  bool_decide (status = InputStatusResolved) || bool_decide (status = InputStatusDead).

Definition isTerminalTurnStatus (status : string) : bool :=
  bool_decide (status = TurnStatusWaitingInterrupt) || bool_decide (status = TurnStatusCommitted)
  || bool_decide (status = TurnStatusDead).

Definition ContinuationExecutorRunnerResume := "runner_resume".
Definition ContinuationExecutorDeterministic := "deterministic_continuation".

Definition ContinuationStatusRequested := "requested".
Definition ContinuationStatusClaimed := "claimed".
Definition ContinuationStatusApplied := "applied".
Definition ContinuationStatusFailed := "failed".

Definition RawMessage := string.
#[global] Instance RawMessage_eq_dec : EqDecision RawMessage := String.string_dec.

(** ** Records *)

Record InputIdentity := mkInputIdentity {
  id_InputID : string;
  id_EventID : string;
  id_Type : string;
  id_SourceID : string;
  id_Priority : Z
}.
#[global] Instance eta_InputIdentity : Eta InputIdentity := fun r =>
  mkInputIdentity (id_InputID r) (id_EventID r) (id_Type r) (id_SourceID r) (id_Priority r).
Definition zeroInputIdentity : InputIdentity :=
  mkInputIdentity "" "" "" "" 0.

Record UserMessage := mkUserMessage {
  um_InputID : string;
  um_EventID : string;
  um_MessageID : string;
  um_ContextMessageSeq : Z
}.
#[global] Instance eta_UserMessage : Eta UserMessage := fun r =>
  mkUserMessage (um_InputID r) (um_EventID r) (um_MessageID r) (um_ContextMessageSeq r).
Definition zeroUserMessage : UserMessage :=
  mkUserMessage "" "" "" 0.

Record ResumeRequested := mkResumeRequested {
  rr_InputID : string;
  rr_EventID : string;
  rr_ApprovalID : string;
  rr_DecisionVersion : Z;
  rr_MappingID : string;
  rr_MappingEpoch : Z;
  rr_CheckpointID : string;
  rr_InterruptID : string;
  rr_Content : string;
  rr_Data : RawMessage
}.
#[global] Instance eta_ResumeRequested : Eta ResumeRequested := fun r =>
  mkResumeRequested (rr_InputID r) (rr_EventID r) (rr_ApprovalID r) (rr_DecisionVersion r)
  (rr_MappingID r) (rr_MappingEpoch r) (rr_CheckpointID r) (rr_InterruptID r) (rr_Content r)
  (rr_Data r).
Definition zeroResumeRequested : ResumeRequested :=
  mkResumeRequested "" "" "" 0 "" 0 "" "" "" "".

Record ApprovalContinuationResult := mkApprovalContinuationResult {
  ar_InputID : string;
  ar_EventID : string;
  ar_ApprovalID : string;
  ar_DecisionVersion : Z;
  ar_ExecutionEpoch : Z;
  ar_RequestedDecision : string;
  ar_EffectiveStatus : string;
  ar_ArtifactType : string;
  ar_ArtifactID : string;
  ar_ArtifactVersion : Z;
  ar_StoryboardID : string;
  ar_StoryboardVersion : Z;
  ar_CommandKind : string;
  ar_CommandResult : RawMessage;
  ar_ContextMessageSeq : Z
}.
#[global] Instance eta_ApprovalContinuationResult : Eta ApprovalContinuationResult := fun r =>
  mkApprovalContinuationResult (ar_InputID r) (ar_EventID r) (ar_ApprovalID r)
  (ar_DecisionVersion r) (ar_ExecutionEpoch r) (ar_RequestedDecision r) (ar_EffectiveStatus r)
  (ar_ArtifactType r) (ar_ArtifactID r) (ar_ArtifactVersion r) (ar_StoryboardID r)
  (ar_StoryboardVersion r) (ar_CommandKind r) (ar_CommandResult r) (ar_ContextMessageSeq r).
Definition zeroApprovalContinuationResult : ApprovalContinuationResult :=
  mkApprovalContinuationResult "" "" "" 0 0 "" "" "" "" 0 "" 0 "" "" 0.

Record BatchContinuationResult := mkBatchContinuationResult {
  br_InputID : string;
  br_EventID : string;
  br_ResultVersion : Z;
  br_OperationID : string;
  br_BatchID : string;
  br_StageStatus : string;
  br_ApprovalID : string;
  br_NeedsAgentExplanation : bool;
  br_ContextMessageSeq : Z;
  br_Result : RawMessage
}.
#[global] Instance eta_BatchContinuationResult : Eta BatchContinuationResult := fun r =>
  mkBatchContinuationResult (br_InputID r) (br_EventID r) (br_ResultVersion r)
  (br_OperationID r) (br_BatchID r) (br_StageStatus r) (br_ApprovalID r)
  (br_NeedsAgentExplanation r) (br_ContextMessageSeq r) (br_Result r).
Definition zeroBatchContinuationResult : BatchContinuationResult :=
  mkBatchContinuationResult "" "" 0 "" "" "" "" false 0 "".

Record SessionInputRecord := mkSessionInputRecord {
  in_InputID : string;
  in_SessionID : string;
  in_InputType : string;
  in_SourceID : string;
  in_EventID : string;
  in_Payload : RawMessage;
  in_Priority : Z;
  in_EnqueueSeq : Z;
  in_ContextMessageSeq : Z;
  in_Status : string;
  in_TurnID : string;
  in_ClaimOwner : string;
  in_ClaimFence : Z;
  in_LeaseUntil : option Time;
  in_Attempts : Z;
  in_AvailableAt : Time;
  in_ErrorCode : string;
  in_ErrorMessage : string;
  in_CreatedAt : Time;
  in_UpdatedAt : Time;
  in_ResolvedAt : option Time
}.
#[global] Instance eta_SessionInputRecord : Eta SessionInputRecord := fun r =>
  mkSessionInputRecord (in_InputID r) (in_SessionID r) (in_InputType r) (in_SourceID r)
  (in_EventID r) (in_Payload r) (in_Priority r) (in_EnqueueSeq r) (in_ContextMessageSeq r)
  (in_Status r) (in_TurnID r) (in_ClaimOwner r) (in_ClaimFence r) (in_LeaseUntil r)
  (in_Attempts r) (in_AvailableAt r) (in_ErrorCode r) (in_ErrorMessage r) (in_CreatedAt r)
  (in_UpdatedAt r) (in_ResolvedAt r).
Definition zeroSessionInputRecord : SessionInputRecord :=
  mkSessionInputRecord "" "" "" "" "" "" 0 0 0 "" "" "" 0 None 0 zeroTime "" "" zeroTime
  zeroTime None.

Record SessionRuntimeLease := mkSessionRuntimeLease {
  sl_SessionID : string;
  sl_OwnerID : string;
  sl_FenceToken : Z;
  sl_LeaseUntil : Time;
  sl_UpdatedAt : Time
}.
#[global] Instance eta_SessionRuntimeLease : Eta SessionRuntimeLease := fun r =>
  mkSessionRuntimeLease (sl_SessionID r) (sl_OwnerID r) (sl_FenceToken r) (sl_LeaseUntil r)
  (sl_UpdatedAt r).
Definition zeroSessionRuntimeLease : SessionRuntimeLease :=
  mkSessionRuntimeLease "" "" 0 zeroTime zeroTime.

Record Fence := mkFence {
  fn_SessionID : string;
  fn_OwnerID : string;
  fn_FenceToken : Z
}.
#[global] Instance eta_Fence : Eta Fence := fun r =>
  mkFence (fn_SessionID r) (fn_OwnerID r) (fn_FenceToken r).
Definition zeroFence : Fence :=
  mkFence "" "" 0.

Record SessionTurnRun := mkSessionTurnRun {
  tr_TurnID : string;
  tr_InputID : string;
  tr_SessionID : string;
  tr_RunnerRunID : string;
  tr_ParentTurnID : string;
  tr_ClaimFence : Z;
  tr_Kind : string;
  tr_Status : string;
  tr_RunnerCheckpointID : string;
  tr_Attempt : Z;
  tr_ContextMessageSeq : Z;
  tr_ContextSeqFrozen : bool;
  tr_OutputPayload : RawMessage;
  tr_OutputDigest : string;
  tr_ErrorCode : string;
  tr_ErrorMessage : string;
  tr_CreatedAt : Time;
  tr_UpdatedAt : Time;
  tr_CommittedAt : option Time
}.
#[global] Instance eta_SessionTurnRun : Eta SessionTurnRun := fun r =>
  mkSessionTurnRun (tr_TurnID r) (tr_InputID r) (tr_SessionID r) (tr_RunnerRunID r)
  (tr_ParentTurnID r) (tr_ClaimFence r) (tr_Kind r) (tr_Status r) (tr_RunnerCheckpointID r)
  (tr_Attempt r) (tr_ContextMessageSeq r) (tr_ContextSeqFrozen r) (tr_OutputPayload r)
  (tr_OutputDigest r) (tr_ErrorCode r) (tr_ErrorMessage r) (tr_CreatedAt r) (tr_UpdatedAt r)
  (tr_CommittedAt r).
Definition zeroSessionTurnRun : SessionTurnRun :=
  mkSessionTurnRun "" "" "" "" "" 0 "" "" "" 0 0 false "" "" "" "" zeroTime zeroTime None.

Record TurnSpec := mkTurnSpec {
  ts_TurnID : string;
  ts_RunnerRunID : string;
  ts_ParentTurnID : string;
  ts_RunnerCheckpointID : string
}.
#[global] Instance eta_TurnSpec : Eta TurnSpec := fun r =>
  mkTurnSpec (ts_TurnID r) (ts_RunnerRunID r) (ts_ParentTurnID r) (ts_RunnerCheckpointID r).
Definition zeroTurnSpec : TurnSpec :=
  mkTurnSpec "" "" "" "".

Record ApprovalContinuation := mkApprovalContinuation {
  ac_ApprovalID : string;
  ac_DecisionVersion : Z;
  ac_SessionID : string;
  ac_Executor : string;
  ac_ExecutionEpoch : Z;
  ac_Status : string;
  ac_LeaseOwner : string;
  ac_LeaseUntil : option Time;
  ac_ErrorCode : string;
  ac_ErrorMessage : string;
  ac_CreatedAt : Time;
  ac_UpdatedAt : Time;
  ac_AppliedAt : option Time
}.
#[global] Instance eta_ApprovalContinuation : Eta ApprovalContinuation := fun r =>
  mkApprovalContinuation (ac_ApprovalID r) (ac_DecisionVersion r) (ac_SessionID r)
  (ac_Executor r) (ac_ExecutionEpoch r) (ac_Status r) (ac_LeaseOwner r) (ac_LeaseUntil r)
  (ac_ErrorCode r) (ac_ErrorMessage r) (ac_CreatedAt r) (ac_UpdatedAt r) (ac_AppliedAt r).
Definition zeroApprovalContinuation : ApprovalContinuation :=
  mkApprovalContinuation "" 0 "" "" 0 "" "" None "" "" zeroTime zeroTime None.

Record ContinuationClaim := mkContinuationClaim {
  cc_ApprovalID : string;
  cc_DecisionVersion : Z;
  cc_Executor : string;
  cc_ExecutionEpoch : Z;
  cc_LeaseOwner : string
}.
#[global] Instance eta_ContinuationClaim : Eta ContinuationClaim := fun r =>
  mkContinuationClaim (cc_ApprovalID r) (cc_DecisionVersion r) (cc_Executor r)
  (cc_ExecutionEpoch r) (cc_LeaseOwner r).
Definition zeroContinuationClaim : ContinuationClaim :=
  mkContinuationClaim "" 0 "" 0 "".

Record ApprovalCommandLedger := mkApprovalCommandLedger {
  cl_ApprovalID : string;
  cl_DecisionVersion : Z;
  cl_CommandKind : string;
  cl_ExecutionEpoch : Z;
  cl_IdempotencyKey : string;
  cl_CommandPayload : RawMessage;
  cl_ResultPayload : RawMessage;
  cl_CreatedAt : Time
}.
#[global] Instance eta_ApprovalCommandLedger : Eta ApprovalCommandLedger := fun r =>
  mkApprovalCommandLedger (cl_ApprovalID r) (cl_DecisionVersion r) (cl_CommandKind r)
  (cl_ExecutionEpoch r) (cl_IdempotencyKey r) (cl_CommandPayload r) (cl_ResultPayload r)
  (cl_CreatedAt r).
Definition zeroApprovalCommandLedger : ApprovalCommandLedger :=
  mkApprovalCommandLedger "" 0 "" 0 "" "" "" zeroTime.

Record SessionEvent := mkSessionEvent {
  ev_SessionID : string;
  ev_Seq : Z;
  ev_EventID : string;
  ev_EventType : string;
  ev_ProducerKind : string;
  ev_SourceKey : string;
  ev_ProjectionIndex : Z;
  ev_SurfaceID : string;
  ev_DataModelKey : string;
  ev_Payload : RawMessage;
  ev_CreatedAt : Time
}.
#[global] Instance eta_SessionEvent : Eta SessionEvent := fun r =>
  mkSessionEvent (ev_SessionID r) (ev_Seq r) (ev_EventID r) (ev_EventType r)
  (ev_ProducerKind r) (ev_SourceKey r) (ev_ProjectionIndex r) (ev_SurfaceID r)
  (ev_DataModelKey r) (ev_Payload r) (ev_CreatedAt r).
Definition zeroSessionEvent : SessionEvent :=
  mkSessionEvent "" 0 "" "" "" "" 0 "" "" "" zeroTime.

Record Failure := mkFailure { fl_Code : string; fl_Message : string }.
Record EnqueueResult := mkEnqueueResult { er_Input : SessionInputRecord; er_Enqueued : bool }.
Record ClaimOptions := mkClaimOptions { co_Fence : Fence; co_ClaimTTL : Z; co_MaxAttempts : Z }.

(** [SessionRuntimeLease.Fence]. *)
Definition Lease_Fence (lease : SessionRuntimeLease) : Fence :=
  mkFence (sl_SessionID lease) (sl_OwnerID lease) (sl_FenceToken lease).

(** ** The inputs

    The interface [SessionInput] is implemented by four structs and their
    pointers; an interface value is nil, a struct, or a pointer, which may be
    nil. *)

Inductive TypedInput : Type :=
| TUserMessage (value : UserMessage)
| TResumeRequested (value : ResumeRequested)
| TBatchContinuation (value : BatchContinuationResult)
| TApprovalContinuation (value : ApprovalContinuationResult).

Inductive SessionInput : Type :=
| NilInput
| ByValue (value : TypedInput)
| ByPointer (value : TypedInput)
| NilPointer (kind : string).

(** [encoding/json] on the values of this package and SHA-256. *)
Class Codec := {
  json_Marshal_input : TypedInput → result RawMessage;
  json_Marshal_map : gomap any → RawMessage;
  json_Valid : RawMessage → bool;
  json_Unmarshal_any : RawMessage → option any;
  json_Unmarshal_UserMessage : RawMessage → result UserMessage;
  json_Unmarshal_ResumeRequested : RawMessage → result ResumeRequested;
  json_Unmarshal_BatchContinuationResult : RawMessage → result BatchContinuationResult;
  json_Unmarshal_ApprovalContinuationResult : RawMessage → result ApprovalContinuationResult;
  sha256_Sum256 : string → string
}.

Definition nul : string := String "000" "".

Definition UserMessage_InputIdentity (input : UserMessage) : InputIdentity :=
  mkInputIdentity (um_InputID input) (um_EventID input) InputTypeUserMessage (um_MessageID input)
    PriorityUserMessage.

Definition ResumeRequested_InputIdentity (input : ResumeRequested) : InputIdentity :=
  if bool_decide (TrimSpace (rr_ApprovalID input) = "") then
    let mappingID := TrimSpace (rr_MappingID input) in
    let inputID := "checkpoint:" +:+ mappingID +:+ ":resume:" +:+ pretty (rr_MappingEpoch input) in
    let source := mappingID +:+ ":" +:+ pretty (rr_MappingEpoch input) in
    mkInputIdentity inputID (rr_EventID input) InputTypeResumeRequested source PriorityResumeRequested
  else
    let source := rr_ApprovalID input +:+ ":" +:+ pretty (rr_DecisionVersion input) in
    mkInputIdentity (rr_InputID input) (rr_EventID input) InputTypeResumeRequested source
      PriorityResumeRequested.

Definition ApprovalContinuationResult_InputIdentity (input : ApprovalContinuationResult) : InputIdentity :=
  let source := ar_ApprovalID input +:+ ":" +:+ pretty (ar_DecisionVersion input) in
  mkInputIdentity (ar_InputID input) (ar_EventID input) InputTypeApprovalContinuation source
    PriorityApprovalContinuation.

Definition BatchContinuationResult_InputIdentity (input : BatchContinuationResult) : InputIdentity :=
  let source := br_BatchID input +:+ ":" +:+ pretty (br_ResultVersion input) in
  mkInputIdentity (br_InputID input) (br_EventID input) InputTypeBatchContinuationResult source
    PriorityBatchContinuationResult.

(** The call [input.InputIdentity()] of the interface. *)
Definition TypedInput_InputIdentity (input : TypedInput) : InputIdentity :=
  match input with
  | TUserMessage value => UserMessage_InputIdentity value
  | TResumeRequested value => ResumeRequested_InputIdentity value
  | TBatchContinuation value => BatchContinuationResult_InputIdentity value
  | TApprovalContinuation value => ApprovalContinuationResult_InputIdentity value
  end.

(** [if strings.TrimSpace(eventID) == "" { eventID = inputID }]. *)
Definition event_or_input (eventID inputID : string) : string :=
  if blank eventID then inputID else eventID.

Definition NewUserMessage (messageID eventID : string) : UserMessage :=
  let messageID := TrimSpace messageID in
  let inputID := "message:" +:+ messageID in
  zeroUserMessage <| um_InputID := inputID |> <| um_EventID := event_or_input eventID inputID |>
    <| um_MessageID := messageID |>.

Definition NewResumeRequested (approvalID : string) (decisionVersion : Z) (eventID : string) : ResumeRequested :=
  let approvalID := TrimSpace approvalID in
  let inputID := "approval:" +:+ approvalID +:+ ":resume:" +:+ pretty decisionVersion in
  zeroResumeRequested <| rr_InputID := inputID |> <| rr_EventID := event_or_input eventID inputID |>
    <| rr_ApprovalID := approvalID |> <| rr_DecisionVersion := decisionVersion |>.

Definition NewApprovalContinuationResult (approvalID : string) (decisionVersion executionEpoch : Z)
    (eventID : string) : ApprovalContinuationResult :=
  let approvalID := TrimSpace approvalID in
  let inputID := "approval:" +:+ approvalID +:+ ":continuation-result:" +:+ pretty decisionVersion in
  zeroApprovalContinuationResult <| ar_InputID := inputID |>
    <| ar_EventID := event_or_input eventID inputID |> <| ar_ApprovalID := approvalID |>
    <| ar_DecisionVersion := decisionVersion |> <| ar_ExecutionEpoch := executionEpoch |>.

Definition NewInterruptResumeRequested (mappingID : string) (epoch : Z)
    (checkpointID interruptID content : string) (data : RawMessage) (eventID : string) : ResumeRequested :=
  let mappingID := TrimSpace mappingID in
  let checkpointID := TrimSpace checkpointID in
  let interruptID := TrimSpace interruptID in
  let inputID := "checkpoint:" +:+ mappingID +:+ ":resume:" +:+ pretty epoch in
  zeroResumeRequested <| rr_InputID := inputID |> <| rr_EventID := event_or_input eventID inputID |>
    <| rr_MappingID := mappingID |> <| rr_MappingEpoch := epoch |>
    <| rr_CheckpointID := checkpointID |> <| rr_InterruptID := interruptID |>
    <| rr_Content := content |> <| rr_Data := data |>.

Definition NewBatchContinuationResult (batchID : string) (resultVersion : Z) (eventID : string)
    : BatchContinuationResult :=
  let batchID := TrimSpace batchID in
  let inputID := "batch:" +:+ batchID +:+ ":continuation:" +:+ pretty resultVersion in
  zeroBatchContinuationResult <| br_InputID := inputID |>
    <| br_EventID := event_or_input eventID inputID |> <| br_BatchID := batchID |>
    <| br_ResultVersion := resultVersion |>.

Definition nil_pointer_error (kind : string) : error :=
  if bool_decide (kind = InputTypeUserMessage) then Errorf "user message input is required"
  else if bool_decide (kind = InputTypeResumeRequested) then Errorf "resume requested input is required"
  else if bool_decide (kind = InputTypeBatchContinuationResult) then Errorf "batch continuation input is required"
  else Errorf "approval continuation input is required".

(** A nil [*ResumeRequested] is passed through, the other nil pointers are
    refused. *)
Definition set_context_seq (value : TypedInput) (seq : Z) : TypedInput :=
  match value with
  | TUserMessage value => TUserMessage (value <| um_ContextMessageSeq := seq |>)
  | TBatchContinuation value => TBatchContinuation (value <| br_ContextMessageSeq := seq |>)
  | TApprovalContinuation value => TApprovalContinuation (value <| ar_ContextMessageSeq := seq |>)
  | TResumeRequested value => TResumeRequested value
  end.

Definition WithContextMessageSeq (input : SessionInput) (seq : Z) : result SessionInput :=
  if seq <? 0 then Err (Errorf "context message sequence cannot be negative")
  else match input with
       | NilInput => Ok NilInput
       | ByValue value => Ok (ByValue (set_context_seq value seq))
       | ByPointer (TResumeRequested value) => Ok (ByPointer (TResumeRequested value))
       | ByPointer value => Ok (ByValue (set_context_seq value seq))
       | NilPointer kind =>
           if bool_decide (kind = InputTypeResumeRequested) then Ok (NilPointer kind)
           else Err (nil_pointer_error kind)
       end.

Definition context_seq_of (value : TypedInput) : Z :=
  match value with
  | TUserMessage value => um_ContextMessageSeq value
  | TBatchContinuation value => br_ContextMessageSeq value
  | TApprovalContinuation value => ar_ContextMessageSeq value
  | TResumeRequested _ => 0
  end.

Definition inputContextMessageSeq (input : SessionInput) : Z :=
  match input with
  | ByValue value | ByPointer value => context_seq_of value
  | NilInput | NilPointer _ => 0
  end.

(** ** Stable identifiers *)

Fixpoint hex_bytes (s : string) : string :=
  match s with
  | EmptyString => EmptyString
  | String a s' =>
      let n := nat_of_ascii a in
      String (hex_digit (n / 16)) (String (hex_digit (n mod 16)) (hex_bytes s'))
  end.

Section codec.
Context `{Codec}.

Definition StableTurnID (sessionID inputID : string) : string :=
  let sum := sha256_Sum256 (TrimSpace sessionID +:+ nul +:+ TrimSpace inputID) in
  "turn_" +:+ hex_bytes (String.substring 0 16 sum).

Definition StableRunnerRunID (sessionID inputID : string) : string :=
  let sum := sha256_Sum256 ("runner" +:+ nul +:+ TrimSpace sessionID +:+ nul +:+ TrimSpace inputID) in
  "run_" +:+ hex_bytes (String.substring 0 16 sum).

(** ** Validation and encoding *)

Definition validateTyped (value : TypedInput) : option error :=
  match value with
  | TUserMessage value =>
      if bool_decide (TrimSpace (um_MessageID value) = "") then Some (Errorf "message id is required")
      else if um_ContextMessageSeq value <? 0
      then Some (Errorf "context message sequence cannot be negative")
      else None
  | TResumeRequested value =>
      if bool_decide (TrimSpace (rr_MappingID value) = "") || (rr_MappingEpoch value <=? 0)
      then Some (Errorf "mapping id and positive mapping epoch are required")
      else if negb (bool_decide (TrimSpace (rr_ApprovalID value) = "")) then
        if rr_DecisionVersion value <=? 0
        then Some (Errorf "approval id and positive decision version are required")
        else if negb (bool_decide (TrimSpace (rr_CheckpointID value) = ""))
                || negb (bool_decide (TrimSpace (rr_InterruptID value) = ""))
                || negb (bool_decide (rr_Content value = "")) || negb (bool_decide (rr_Data value = ""))
        then Some (Errorf "approval resume cannot include generic interrupt fields")
        else None
      else if negb (rr_DecisionVersion value =? 0)
      then Some (Errorf "generic interrupt resume cannot include approval fields")
      else if bool_decide (TrimSpace (rr_CheckpointID value) = "")
              || bool_decide (TrimSpace (rr_InterruptID value) = "")
      then Some (Errorf "checkpoint id and interrupt id are required")
      else if negb (json_Valid (rr_Data value))
      then Some (Errorf "generic interrupt resume data must be valid JSON")
      else None
  | TBatchContinuation value =>
      if bool_decide (TrimSpace (br_BatchID value) = "") || (br_ResultVersion value <=? 0)
      then Some (Errorf "batch id and positive result version are required")
      else if br_ContextMessageSeq value <? 0
      then Some (Errorf "context message sequence cannot be negative")
      else None
  | TApprovalContinuation value =>
      if bool_decide (TrimSpace (ar_ApprovalID value) = "") || (ar_DecisionVersion value <=? 0)
         || (ar_ExecutionEpoch value <=? 0)
      then Some (Errorf "approval id, positive decision version, and positive execution epoch are required")
      else if bool_decide (TrimSpace (ar_RequestedDecision value) = "")
              || bool_decide (TrimSpace (ar_EffectiveStatus value) = "")
      then Some (Errorf "requested decision and effective status are required")
      else if ar_ContextMessageSeq value <? 0
      then Some (Errorf "context message sequence cannot be negative")
      else if negb (bool_decide (ar_CommandResult value = "")) && negb (json_Valid (ar_CommandResult value))
      then Some (Errorf "approval command result must be valid JSON")
      else None
  end.

Definition validateTypedInput (input : SessionInput) : option error :=
  match input with
  | NilInput => Some (Errorf "unsupported session input type <nil>")
  | ByValue value | ByPointer value => validateTyped value
  | NilPointer kind => Some (nil_pointer_error kind)
  end.

Definition encode_value (input : SessionInput) (value : TypedInput) : result (InputIdentity * RawMessage) :=
  let identity := TypedInput_InputIdentity value in
  let identity := identity <| id_InputID := TrimSpace (id_InputID identity) |> in
  let identity := identity <| id_EventID := TrimSpace (id_EventID identity) |> in
  let identity := identity <| id_SourceID := TrimSpace (id_SourceID identity) |> in
  if bool_decide (id_InputID identity = "") || bool_decide (id_EventID identity = "")
     || bool_decide (id_SourceID identity = "")
  then Err (Errorf "input id, event id, and source id are required")
  else if id_Priority identity <=? 0 then Err (Errorf "input priority must be positive")
  else match validateTypedInput input with
       | Some err => Err err
       | None =>
           match json_Marshal_input value with
           | Err err => Err (Wrapf "marshal session input: " err "")
           | Ok raw => Ok (identity, raw)
           end
       end.

Definition encodeInput (input : SessionInput) : result (InputIdentity * RawMessage) :=
  match input with
  | NilInput => Err (Errorf "session input is required")
  | NilPointer kind => Err (nil_pointer_error kind)
  | ByValue value | ByPointer value => encode_value input value
  end.

(** The decoded value is always a struct, so it is given as a [TypedInput]. *)
Definition decode_as {A} (what : string) (wrap : A → TypedInput) (r : result A) : result TypedInput :=
  match r with
  | Err err => Err (Wrapf ("decode " +:+ what +:+ ": ") err "")
  | Ok value => Ok (wrap value)
  end.

Definition DecodeInput (record : SessionInputRecord) : result TypedInput :=
  let payload := in_Payload record in
  if bool_decide (in_InputType record = InputTypeUserMessage) then
    decode_as "user message input" TUserMessage (json_Unmarshal_UserMessage payload)
  else if bool_decide (in_InputType record = InputTypeResumeRequested) then
    decode_as "resume requested input" TResumeRequested (json_Unmarshal_ResumeRequested payload)
  else if bool_decide (in_InputType record = InputTypeBatchContinuationResult) then
    decode_as "batch continuation input" TBatchContinuation
      (json_Unmarshal_BatchContinuationResult payload)
  else if bool_decide (in_InputType record = InputTypeApprovalContinuation) then
    decode_as "approval continuation input" TApprovalContinuation
      (json_Unmarshal_ApprovalContinuationResult payload)
  else Err (Errorf ("unsupported input type " +:+ Quote (in_InputType record))).

(** ** The event of a dead input: [terminal_event.go] *)

Definition ProducerSessionRuntime := "session_runtime".
Definition EventError := "a2ui.error".

(** The Chinese text of the event, by its UTF-8 bytes. *)
Definition terminal_failure_message : string :=
  "创作处理未能完成，请重新提交或稍后重试。".

Definition terminalFailureEvent (input : SessionInputRecord) (turnID : string) : SessionEvent :=
  let turnID := TrimSpace turnID in
  let identity :=
    if negb (bool_decide (turnID = "")) then "turn:" +:+ turnID +:+ ":dead"
    else "input:" +:+ TrimSpace (in_InputID input) +:+ ":dead" in
  let sum := sha256_Sum256 identity in
  let payload := json_Marshal_map (payload
    [("code", AStr "session_turn_failed"); ("message", AStr terminal_failure_message);
     ("input_id", AStr (in_InputID input)); ("turn_id", AStr turnID);
     ("input_type", AStr (in_InputType input)); ("retryable", ABool false)]) in
  zeroSessionEvent <| ev_SessionID := in_SessionID input |>
    <| ev_EventID := "runtime_dead_" +:+ hex_bytes (String.substring 0 12 sum) |>
    <| ev_EventType := EventError |> <| ev_ProducerKind := ProducerSessionRuntime |>
    <| ev_SourceKey := identity |> <| ev_Payload := payload |>.
End codec.
