(* ===== verification/SessionStore.v ===== *)
(** * Session runtime: the store, [internal/aigc/sessionruntime/memory_store.go]

    The in-memory [MemoryStore] of the session runtime: the input lane of each
    session, its runtime lease and fence, the turns, the approval continuations
    and the events of dead inputs.  A state is an [sworld]: the maps of the
    store, the number of clock readings so far and the state [X] of what lies
    outside.  Every method runs under the store's lock and is one step.  The
    copies [cloneInput], [cloneTurn] and [cloneCommand] protect slices and pointers
    that nothing else holds here, so they are identities. *)

From Stdlib Require Import ZArith Lia.
From S2P Require Import Prelude GoJson SessionModels.

Record MemoryStore := mkMemoryStore {
  inputCounters : gmap string Z;
  inputs : gmap string SessionInputRecord;
  inputSources : gmap string string;
  leases : gmap string SessionRuntimeLease;
  turns : gmap string SessionTurnRun;
  turnByInput : gmap string string;
  continuations : gmap string ApprovalContinuation;
  commands : gmap string ApprovalCommandLedger;
  commandKeys : gmap string string;
  terminalEvents : gmap string SessionEvent
}.
#[global] Instance eta_MemoryStore : Eta MemoryStore := fun r =>
  mkMemoryStore (inputCounters r) (inputs r) (inputSources r) (leases r) (turns r)
    (turnByInput r) (continuations r) (commands r) (commandKeys r) (terminalEvents r).

Definition NewMemoryStore : MemoryStore := mkMemoryStore ∅ ∅ ∅ ∅ ∅ ∅ ∅ ∅ ∅ ∅.

Record sworld (X : Type) := mkSWorld { sw_store : MemoryStore; sw_reads : nat; sw_ext : X }.
Arguments mkSWorld {X}.
Arguments sw_store {X}.
Arguments sw_reads {X}.
Arguments sw_ext {X}.

(** ** Identities, copies and comparisons *)

Definition inputSourceIdentity (sessionID inputType sourceID : string) : string :=
  sessionID +:+ nul +:+ inputType +:+ nul +:+ sourceID.

Definition continuationIdentity (approvalID : string) (decisionVersion : Z) : string :=
  TrimSpace approvalID +:+ nul +:+ pretty decisionVersion.

Definition commandIdentity (approvalID : string) (decisionVersion : Z) (commandKind : string) : string :=
  TrimSpace approvalID +:+ nul +:+ pretty decisionVersion +:+ nul +:+ TrimSpace commandKind.

Definition cappedLeaseUntil (now : Time) (ttl : Z) (runtimeUntil : Time) : Time :=
  let until := now + ttl in
  if runtimeUntil <? until then runtimeUntil else until.

Definition cloneInput (record : SessionInputRecord) : SessionInputRecord := record.
Definition cloneTurn (record : SessionTurnRun) : SessionTurnRun := record.
Definition cloneCommand (record : ApprovalCommandLedger) : ApprovalCommandLedger := record.

(** [if x == "" { return zero }] on a map that may lack the key. *)
Definition string_at (m : gmap string string) (k : string) : string := default "" (m !! k).
Definition counter_at (m : gmap string Z) (k : string) : Z := default 0 (m !! k).
Definition turn_at (m : gmap string SessionTurnRun) (k : string) : SessionTurnRun :=
  default zeroSessionTurnRun (m !! k).

Section codec.
Context `{Codec}.

(** Both texts are read into [any] and compared. *)
Definition jsonEqual (left right : RawMessage) : bool :=
  match json_Unmarshal_any left, json_Unmarshal_any right with
  | Some leftValue, Some rightValue => bool_decide (leftValue = rightValue)
  | _, _ => false
  end.

Definition sameInput (existing requested : SessionInputRecord) : bool :=
  bool_decide (in_InputID existing = in_InputID requested)
  && bool_decide (in_SessionID existing = in_SessionID requested)
  && bool_decide (in_InputType existing = in_InputType requested)
  && bool_decide (in_SourceID existing = in_SourceID requested)
  && bool_decide (in_EventID existing = in_EventID requested)
  && (in_Priority existing =? in_Priority requested)
  && (in_ContextMessageSeq existing =? in_ContextMessageSeq requested)
  && jsonEqual (in_Payload existing) (in_Payload requested).

Definition sameCommand (left right : ApprovalCommandLedger) : bool :=
  bool_decide (cl_ApprovalID left = cl_ApprovalID right)
  && (cl_DecisionVersion left =? cl_DecisionVersion right)
  && bool_decide (cl_CommandKind left = cl_CommandKind right)
  && (cl_ExecutionEpoch left =? cl_ExecutionEpoch right)
  && bool_decide (cl_IdempotencyKey left = cl_IdempotencyKey right)
  && jsonEqual (cl_CommandPayload left) (cl_CommandPayload right)
  && jsonEqual (cl_ResultPayload left) (cl_ResultPayload right).

Definition normalizeContinuation (record : ApprovalContinuation) : result ApprovalContinuation :=
  let record := record <| ac_ApprovalID := TrimSpace (ac_ApprovalID record) |> in
  let record := record <| ac_SessionID := TrimSpace (ac_SessionID record) |> in
  if bool_decide (ac_ApprovalID record = "") || bool_decide (ac_SessionID record = "")
     || (ac_DecisionVersion record <=? 0)
  then Err (Errorf "approval id, session id, and positive decision version are required")
  else if negb (bool_decide (ac_Executor record = ContinuationExecutorRunnerResume))
          && negb (bool_decide (ac_Executor record = ContinuationExecutorDeterministic))
  then Err (Errorf ("invalid continuation executor " +:+ Quote (ac_Executor record)))
  else if ac_ExecutionEpoch record <=? 0 then Err (Errorf "execution epoch must be positive")
  else Ok record.

Definition validateContinuationClaim (claim : ContinuationClaim) : option error :=
  let claim := claim <| cc_ApprovalID := TrimSpace (cc_ApprovalID claim) |> in
  let claim := claim <| cc_LeaseOwner := TrimSpace (cc_LeaseOwner claim) |> in
  if bool_decide (cc_ApprovalID claim = "") || (cc_DecisionVersion claim <=? 0)
     || (cc_ExecutionEpoch claim <=? 0) || bool_decide (cc_LeaseOwner claim = "")
  then Some (Errorf "approval id, decision version, execution epoch, and lease owner are required")
  else if negb (bool_decide (cc_Executor claim = ContinuationExecutorRunnerResume))
          && negb (bool_decide (cc_Executor claim = ContinuationExecutorDeterministic))
  then Some (Errorf ("invalid continuation executor " +:+ Quote (cc_Executor claim)))
  else None.

Definition normalizeCommand (command : ApprovalCommandLedger) (claim : ContinuationClaim)
    : result ApprovalCommandLedger :=
  let command := if blank (cl_ApprovalID command)
    then command <| cl_ApprovalID := cc_ApprovalID claim |> else command in
  let command := if cl_DecisionVersion command =? 0
    then command <| cl_DecisionVersion := cc_DecisionVersion claim |> else command in
  let command := if cl_ExecutionEpoch command =? 0
    then command <| cl_ExecutionEpoch := cc_ExecutionEpoch claim |> else command in
  let command := command <| cl_ApprovalID := TrimSpace (cl_ApprovalID command) |> in
  let command := command <| cl_CommandKind := TrimSpace (cl_CommandKind command) |> in
  let command := command <| cl_IdempotencyKey := TrimSpace (cl_IdempotencyKey command) |> in
  if negb (bool_decide (cl_ApprovalID command = cc_ApprovalID claim))
     || negb (cl_DecisionVersion command =? cc_DecisionVersion claim)
     || negb (cl_ExecutionEpoch command =? cc_ExecutionEpoch claim)
  then Err (Wrapf "" ErrFenceRejected ": command continuation identity differs")
  else if bool_decide (cl_CommandKind command = "") || bool_decide (cl_IdempotencyKey command = "")
  then Err (Errorf "command kind and idempotency key are required")
  else
    let command := if bool_decide (cl_CommandPayload command = "")
      then command <| cl_CommandPayload := "{}" |> else command in
    let command := if bool_decide (cl_ResultPayload command = "")
      then command <| cl_ResultPayload := "{}" |> else command in
    if negb (json_Valid (cl_CommandPayload command)) || negb (json_Valid (cl_ResultPayload command))
    then Err (Errorf "command and result payloads must be valid JSON")
    else Ok command.

(** ** Parts that run under the lock *)

Definition recordTerminalFailureLocked (s : MemoryStore) (input : SessionInputRecord) (turnID : string)
    : MemoryStore :=
  let event := terminalFailureEvent input turnID in
  match terminalEvents s !! ev_SourceKey event with
  | Some _ => s
  | None => s <| terminalEvents := <[ev_SourceKey event := event]> (terminalEvents s) |>
  end.

Definition put_input (s : MemoryStore) (record : SessionInputRecord) : MemoryStore :=
  s <| inputs := <[in_InputID record := cloneInput record]> (inputs s) |>.
Definition put_turn (s : MemoryStore) (turn : SessionTurnRun) : MemoryStore :=
  s <| turns := <[tr_TurnID turn := cloneTurn turn]> (turns s) |>.

Definition validateFenceLocked (s : MemoryStore) (fence : Fence) (now : Time) : result SessionRuntimeLease :=
  let fence := fence <| fn_SessionID := TrimSpace (fn_SessionID fence) |> in
  let fence := fence <| fn_OwnerID := TrimSpace (fn_OwnerID fence) |> in
  let rejected := Err (Wrapf "" ErrFenceRejected
    (": session_id=" +:+ fn_SessionID fence +:+ " owner_id=" +:+ fn_OwnerID fence
     +:+ " fence_token=" +:+ pretty (fn_FenceToken fence))) in
  match leases s !! fn_SessionID fence with
  | None => rejected
  | Some lease =>
      if bool_decide (fn_SessionID fence = "") || bool_decide (fn_OwnerID fence = "")
         || (fn_FenceToken fence <=? 0)
         || negb (bool_decide (sl_OwnerID lease = fn_OwnerID fence))
         || negb (sl_FenceToken lease =? fn_FenceToken fence)
         || negb (After (sl_LeaseUntil lease) now)
      then rejected
      else Ok lease
  end.

Definition inputHasFrozenOutputLocked (s : MemoryStore) (input : SessionInputRecord) : bool :=
  let turnID := TrimSpace (in_TurnID input) in
  let turnID := if bool_decide (turnID = "") then string_at (turnByInput s) (in_InputID input) else turnID in
  match turns s !! turnID with
  | Some turn => negb (bool_decide (tr_OutputPayload turn = ""))
  | None => false
  end.

(** An input that has been claimed and is not terminal. *)
Definition is_started (record : SessionInputRecord) : bool :=
  (0 <? in_Attempts record) && negb (isTerminalInputStatus (in_Status record)).

(** The earlier of two inputs, the first to be met when they tie. *)
Definition earlier (head : option SessionInputRecord) (record : SessionInputRecord)
    : option SessionInputRecord :=
  match head with
  | Some h => if in_EnqueueSeq record <? in_EnqueueSeq h then Some record else Some h
  | None => Some record
  end.

Definition startedHeadLocked (s : MemoryStore) (sessionID : string) : option SessionInputRecord :=
  foldl (fun head '(_, record) =>
    if bool_decide (in_SessionID record = sessionID) && is_started record
    then earlier head record else head)
    None (map_to_list (inputs s)).

Definition exhausted_input (record : SessionInputRecord) (now : Time) : SessionInputRecord :=
  record <| in_Status := InputStatusDead |>
    <| in_ClaimOwner := "" |> <| in_ClaimFence := 0 |> <| in_LeaseUntil := None |>
    <| in_ErrorCode := "max_attempts_exceeded" |>
    <| in_ErrorMessage := "session input exceeded maximum attempts" |>
    <| in_UpdatedAt := now |>.

(** The turn of a dead input dies with it, unless it has ended. *)
Definition kill_turn (s : MemoryStore) (record : SessionInputRecord) (now : Time) : MemoryStore :=
  if bool_decide (TrimSpace (in_TurnID record) = "") then s
  else match turns s !! in_TurnID record with
       | None => s
       | Some turn =>
           if isTerminalTurnStatus (tr_Status turn) then s
           else put_turn s (turn <| tr_Status := TurnStatusDead |>
                  <| tr_ErrorCode := in_ErrorCode record |> <| tr_ErrorMessage := in_ErrorMessage record |>
                  <| tr_UpdatedAt := now |>)
       end.

Definition deadExhaustedInputLocked (s : MemoryStore) (record : SessionInputRecord) (now : Time)
    : MemoryStore :=
  let s := recordTerminalFailureLocked s record (in_TurnID record) in
  let record := exhausted_input record now in
  let s := put_input s record in
  kill_turn s record now.

Definition waits (record : SessionInputRecord) : bool :=
  bool_decide (in_Status record = InputStatusPending) || bool_decide (in_Status record = InputStatusRetryWait).

Definition holds_claim (record : SessionInputRecord) : bool :=
  bool_decide (in_Status record = InputStatusClaimed) || bool_decide (in_Status record = InputStatusRunning).

(** A fresh input of the session that may be claimed now. *)
Definition is_candidate (sessionID : string) (now : Time) (candidate : SessionInputRecord) : bool :=
  bool_decide (in_SessionID candidate = sessionID) && (in_Attempts candidate =? 0)
  && negb (After (in_AvailableAt candidate) now) && waits candidate.

Definition candidate_less (a b : SessionInputRecord) : bool :=
  if negb (in_Priority a =? in_Priority b) then in_Priority b <? in_Priority a
  else in_EnqueueSeq a <? in_EnqueueSeq b.

Definition claim_candidates (s : MemoryStore) (sessionID : string) (now : Time) : list SessionInputRecord :=
  sort_slice candidate_less
    (List.filter (is_candidate sessionID now) ((map_to_list (inputs s)).*2)).

(** The loop of [ClaimNext]: each round that continues has killed a started
    input.  [None] as the record is an empty fuel. *)
Fixpoint claim_select (fuel : nat) (s : MemoryStore) (options : ClaimOptions) (now : Time)
    : option (result SessionInputRecord) * MemoryStore :=
  match fuel with
  | O => (None, s)
  | S fuel' =>
      match startedHeadLocked s (fn_SessionID (co_Fence options)) with
      | Some started =>
          if negb (waits started) then (Some (Err ErrNoInputAvailable), s)
          else if After (in_AvailableAt started) now then (Some (Err ErrNoInputAvailable), s)
          else if (0 <? co_MaxAttempts options) && (co_MaxAttempts options <=? in_Attempts started)
                  && negb (inputHasFrozenOutputLocked s started)
          then claim_select fuel' (deadExhaustedInputLocked s started now) options now
          else (Some (Ok started), s)
      | None =>
          match claim_candidates s (fn_SessionID (co_Fence options)) now with
          | [] => (Some (Err ErrNoInputAvailable), s)
          | record :: _ => (Some (Ok record), s)
          end
      end
  end.

(** Every round kills one of the inputs of the store. *)
Definition claim_fuel (s : MemoryStore) : nat := S (size (inputs s)).

Definition claim_record (record : SessionInputRecord) (options : ClaimOptions) (until now : Time)
    : SessionInputRecord :=
  record <| in_Status := InputStatusClaimed |>
    <| in_ClaimOwner := fn_OwnerID (co_Fence options) |>
    <| in_ClaimFence := fn_FenceToken (co_Fence options) |>
    <| in_LeaseUntil := Some until |>
    <| in_Attempts := incr (in_Attempts record) |>
    <| in_UpdatedAt := now |> <| in_ErrorCode := "" |> <| in_ErrorMessage := "" |>.

(** [record.ClaimOwner, record.ClaimFence, record.LeaseUntil = "", 0, nil]. *)
Definition unclaim (record : SessionInputRecord) : SessionInputRecord :=
  record <| in_ClaimOwner := "" |> <| in_ClaimFence := 0 |> <| in_LeaseUntil := None |>.

Definition stale_claim (fence : Fence) (now : Time) (record : SessionInputRecord) : bool :=
  bool_decide (in_SessionID record = fn_SessionID fence) && holds_claim record
  && negb (bool_decide (in_ClaimOwner record = fn_OwnerID fence)
           && (in_ClaimFence record =? fn_FenceToken fence)
           && match in_LeaseUntil record with Some until => After until now | None => false end).

Definition recovered_input (record : SessionInputRecord) (now : Time) : SessionInputRecord :=
  unclaim (record <| in_Status := InputStatusRetryWait |> <| in_AvailableAt := now |>)
    <| in_ErrorCode := "claim_recovered" |>
    <| in_ErrorMessage := "previous runtime claim expired or was fenced" |>
    <| in_UpdatedAt := now |>.

Definition recovered_turn (turn : SessionTurnRun) (now : Time) : SessionTurnRun :=
  turn <| tr_Status := TurnStatusRetryWait |> <| tr_ErrorCode := "claim_recovered" |>
    <| tr_ErrorMessage := "previous runtime claim expired or was fenced" |> <| tr_UpdatedAt := now |>.

(** One round of the loop of [RecoverExpiredInputs] that does not skip. *)
Definition recover_one (now : Time) (s : MemoryStore) (id : string) (record : SessionInputRecord)
    : MemoryStore :=
  let s := s <| inputs := <[id := recovered_input record now]> (inputs s) |> in
  let turnID := string_at (turnByInput s) id in
  if bool_decide (turnID = "") then s
  else
    let turn := turn_at (turns s) turnID in
    if negb (bool_decide (tr_Status turn = TurnStatusCommitted))
       && negb (bool_decide (tr_Status turn = TurnStatusDead))
       && negb (bool_decide (tr_Status turn = TurnStatusWaitingInterrupt))
    then s <| turns := <[turnID := recovered_turn turn now]> (turns s) |>
    else s.

Definition recover_step (fence : Fence) (now : Time) (acc : Z * MemoryStore)
    (entry : string * SessionInputRecord) : Z * MemoryStore :=
  let '(count, s) := acc in
  let '(id, record) := entry in
  if stale_claim fence now record then (incr count, recover_one now s id record) else (count, s).
End codec.

(** ** The operations *)

Section memory_store.
Context `{Codec} `{Clock} {X : Type}.

Definition s_now : Eff (sworld X) Time := fun w =>
  (now_at (sw_reads w), mkSWorld (sw_store w) (S (sw_reads w)) (sw_ext w)).
Definition get_store : Eff (sworld X) MemoryStore := fun w => (sw_store w, w).
Definition put_store (s : MemoryStore) : Eff (sworld X) unit := fun w =>
  (tt, mkSWorld s (sw_reads w) (sw_ext w)).

(** Store [s'] and answer [a]. *)
Definition commit {A} (s : MemoryStore) (a : A) : Eff (sworld X) (result A) :=
  let* _ := put_store s in ret (Ok a).

(** *** The input lane *)

Definition new_input (sessionID : string) (identity : InputIdentity) (payload : RawMessage)
    (input : SessionInput) : SessionInputRecord :=
  zeroSessionInputRecord
    <| in_InputID := id_InputID identity |> <| in_SessionID := sessionID |>
    <| in_InputType := id_Type identity |> <| in_SourceID := id_SourceID identity |>
    <| in_EventID := id_EventID identity |> <| in_Payload := payload |>
    <| in_Priority := id_Priority identity |>
    <| in_ContextMessageSeq := inputContextMessageSeq input |>.

Definition enqueue_record (requested : SessionInputRecord) (seq : Z) (now : Time) : SessionInputRecord :=
  requested <| in_EnqueueSeq := seq |> <| in_Status := InputStatusPending |>
    <| in_AvailableAt := now |> <| in_CreatedAt := now |> <| in_UpdatedAt := now |>.

Definition EnqueueInput (sessionID : string) (input : SessionInput) : Eff (sworld X) (result EnqueueResult) :=
  let sessionID := TrimSpace sessionID in
  if bool_decide (sessionID = "") then fail (Errorf "session id is required")
  else match encodeInput input with
  | Err err => fail err
  | Ok (identity, payload) =>
      let* s := get_store in
      let requested := new_input sessionID identity payload input in
      match inputs s !! id_InputID identity with
      | Some existing =>
          if negb (sameInput existing requested)
          then fail (Wrapf "" ErrIdempotencyConflict (": input_id=" +:+ id_InputID identity))
          else ret (Ok (mkEnqueueResult (cloneInput existing) false))
      | None =>
          let sourceKey := inputSourceIdentity sessionID (id_Type identity) (id_SourceID identity) in
          match inputSources s !! sourceKey with
          | Some existingID =>
              let existing := default zeroSessionInputRecord (inputs s !! existingID) in
              if negb (sameInput existing requested)
              then fail (Wrapf "" ErrIdempotencyConflict (": source_id=" +:+ id_SourceID identity))
              else ret (Ok (mkEnqueueResult (cloneInput existing) false))
          | None =>
              let* now := s_now in
              let seq := incr (counter_at (inputCounters s) sessionID) in
              let requested := enqueue_record requested seq now in
              let s := s <| inputCounters := <[sessionID := seq]> (inputCounters s) |> in
              let s := put_input s requested in
              let s := s <| inputSources := <[sourceKey := in_InputID requested]> (inputSources s) |> in
              commit s (mkEnqueueResult (cloneInput requested) true)
          end
      end
  end.

Definition GetInput (inputID : string) : Eff (sworld X) (result SessionInputRecord) :=
  let* s := get_store in
  match inputs s !! TrimSpace inputID with
  | None => fail (Wrapf "" ErrInputNotFound (": input_id=" +:+ inputID))
  | Some record => ret (Ok (cloneInput record))
  end.

(** The two maps that [ListRunnableSessions] builds. *)
Definition add_started_head (heads : gmap string SessionInputRecord) (record : SessionInputRecord)
    : gmap string SessionInputRecord :=
  if isTerminalInputStatus (in_Status record) || (in_Attempts record <=? 0) then heads
  else match heads !! in_SessionID record with
       | Some head =>
           if in_EnqueueSeq record <? in_EnqueueSeq head
           then <[in_SessionID record := record]> heads else heads
       | None => <[in_SessionID record := record]> heads
       end.

Definition runnable_now (now : Time) (record : SessionInputRecord) : bool :=
  (waits record && negb (After (in_AvailableAt record) now))
  || (holds_claim record
      && match in_LeaseUntil record with Some until => negb (After until now) | None => true end).

Definition is_listed (heads : gmap string SessionInputRecord) (now : Time) (record : SessionInputRecord)
    : bool :=
  match heads !! in_SessionID record with
  | Some head => bool_decide (in_InputID record = in_InputID head)
  | None => negb (0 <? in_Attempts record)
  end && runnable_now now record.

Definition add_first_seq (heads : gmap string SessionInputRecord) (now : Time) (firstSeq : gmap string Z)
    (record : SessionInputRecord) : gmap string Z :=
  if negb (is_listed heads now record) then firstSeq
  else match firstSeq !! in_SessionID record with
       | Some seq =>
           if in_EnqueueSeq record <? seq
           then <[in_SessionID record := in_EnqueueSeq record]> firstSeq else firstSeq
       | None => <[in_SessionID record := in_EnqueueSeq record]> firstSeq
       end.

Definition started_heads (s : MemoryStore) : gmap string SessionInputRecord :=
  foldl add_started_head ∅ ((map_to_list (inputs s)).*2).

Definition first_seqs (s : MemoryStore) (now : Time) : gmap string Z :=
  foldl (add_first_seq (started_heads s) now) ∅ ((map_to_list (inputs s)).*2).

Definition ListRunnableSessions (limit : Z) : Eff (sworld X) (result (list string)) :=
  let limit := if (limit <=? 0) || (1000 <? limit) then 100 else limit in
  let* s := get_store in
  let* now := s_now in
  let firstSeq := first_seqs s now in
  let sessions := (map_to_list firstSeq).*1 in
  let sessions := sort_slice (by_time_then_id (counter_at firstSeq) id) sessions in
  ret (Ok (take (Z.to_nat limit) sessions)).

(** [now := s.now()] and the validation of the fence, which open every method
    that carries one. *)
Definition with_fence {A} (fence : Fence)
    (k : Time → SessionRuntimeLease → Eff (sworld X) (result A)) : Eff (sworld X) (result A) :=
  let* now := s_now in
  let* s := get_store in
  match validateFenceLocked s fence now with
  | Err err => fail err
  | Ok lease => k now lease
  end.

Definition ClaimNext (options : ClaimOptions) : Eff (sworld X) (result SessionInputRecord) :=
  if co_ClaimTTL options <=? 0 then fail (Errorf "claim ttl must be positive")
  else with_fence (co_Fence options) (fun now lease =>
    let* s := get_store in
    let '(selected, s) := claim_select (claim_fuel s) s options now in
    let* _ := put_store s in
    match selected with
    | None => fail (Errorf "the loop has not ended")
    | Some (Err err) => fail err
    | Some (Ok record) =>
        let until := cappedLeaseUntil now (co_ClaimTTL options) (sl_LeaseUntil lease) in
        let record := claim_record record options until now in
        commit (put_input s record) (cloneInput record)
    end).

(** The clock is read a second time. *)
Definition claimedInputLocked (fence : Fence) (inputID : string) (statuses : list string)
    : Eff (sworld X) (result SessionInputRecord) :=
  let* s := get_store in
  match inputs s !! TrimSpace inputID with
  | None => fail (Wrapf "" ErrInputNotFound (": input_id=" +:+ inputID))
  | Some record =>
      if negb (bool_decide (in_SessionID record = fn_SessionID fence))
         || negb (bool_decide (in_ClaimOwner record = fn_OwnerID fence))
         || negb (in_ClaimFence record =? fn_FenceToken fence)
      then fail (Wrapf "" ErrFenceRejected (": input_id=" +:+ inputID))
      else
        let expired := fail (Wrapf "" ErrFenceRejected (": input claim expired for input_id=" +:+ inputID)) in
        match in_LeaseUntil record with
        | None => expired
        | Some until =>
            let* now := s_now in
            if negb (After until now) then expired
            else if negb (existsb (fun status => bool_decide (in_Status record = status)) statuses)
            then fail (Wrapf "" ErrInvalidTransition
                         (": input " +:+ inputID +:+ " is " +:+ in_Status record))
            else ret (Ok record)
        end
  end.

Definition claimed_or_running : list string := [InputStatusClaimed; InputStatusRunning].

Definition transitionInput (fence : Fence) (inputID : string) (ttl : Z) (from : list string) (to : string)
    (failure : Failure) : Eff (sworld X) (result SessionInputRecord) :=
  if ttl <=? 0 then fail (Errorf "input lease ttl must be positive")
  else with_fence fence (fun now lease =>
    try* record := claimedInputLocked fence inputID from in
    let* s := get_store in
    let until := cappedLeaseUntil now ttl (sl_LeaseUntil lease) in
    let record := record <| in_Status := to |> <| in_LeaseUntil := Some until |>
      <| in_ErrorCode := TrimSpace (fl_Code failure) |>
      <| in_ErrorMessage := TrimSpace (fl_Message failure) |> <| in_UpdatedAt := now |> in
    commit (put_input s record) (cloneInput record)).

Definition MarkInputRunning (fence : Fence) (inputID : string) (ttl : Z)
    : Eff (sworld X) (result SessionInputRecord) :=
  transitionInput fence inputID ttl claimed_or_running InputStatusRunning (mkFailure "" "").

(** [if availableAt.IsZero() || availableAt.Before(now) { availableAt = now }]. *)
Definition available_or_now (availableAt now : Time) : Time :=
  if IsZero availableAt || (availableAt <? now) then now else availableAt.

Definition RetryInput (fence : Fence) (inputID : string) (availableAt : Time) (failure : Failure)
    : Eff (sworld X) (result SessionInputRecord) :=
  with_fence fence (fun now _ =>
    try* record := claimedInputLocked fence inputID claimed_or_running in
    let* s := get_store in
    let record := unclaim (record <| in_Status := InputStatusRetryWait |>
        <| in_AvailableAt := available_or_now availableAt now |>)
      <| in_ErrorCode := TrimSpace (fl_Code failure) |>
      <| in_ErrorMessage := TrimSpace (fl_Message failure) |> <| in_UpdatedAt := now |> in
    commit (put_input s record) (cloneInput record)).

Definition finished_input (record : SessionInputRecord) (status : string) (failure : Failure)
    : SessionInputRecord :=
  unclaim (record <| in_Status := status |>)
    <| in_ErrorCode := TrimSpace (fl_Code failure) |>
    <| in_ErrorMessage := TrimSpace (fl_Message failure) |>.

Definition finishInput (fence : Fence) (inputID : string) (status : string) (failure : Failure)
    : Eff (sworld X) (result SessionInputRecord) :=
  with_fence fence (fun now _ =>
    try* record := claimedInputLocked fence inputID claimed_or_running in
    let* s := get_store in
    let record := finished_input record status failure in
    let s := if bool_decide (status = InputStatusDead)
      then recordTerminalFailureLocked s record (in_TurnID record) else s in
    let record := if bool_decide (status = InputStatusResolved)
      then record <| in_ResolvedAt := Some now |> else record in
    let record := record <| in_UpdatedAt := now |> in
    commit (put_input s record) (cloneInput record)).

Definition ResolveInput (fence : Fence) (inputID : string) : Eff (sworld X) (result SessionInputRecord) :=
  finishInput fence inputID InputStatusResolved (mkFailure "" "").

Definition DeadInput (fence : Fence) (inputID : string) (failure : Failure)
    : Eff (sworld X) (result SessionInputRecord) :=
  finishInput fence inputID InputStatusDead failure.

Definition RecoverExpiredInputs (fence : Fence) : Eff (sworld X) (result Z) :=
  with_fence fence (fun now _ =>
    let* s := get_store in
    let '(count, s) := foldl (recover_step fence now) (0, s) (map_to_list (inputs s)) in
    commit s count).

(** *** The runtime lease *)

Definition set_lease (lease : SessionRuntimeLease) (until now : Time) : SessionRuntimeLease :=
  lease <| sl_LeaseUntil := until |> <| sl_UpdatedAt := now |>.

Definition AcquireLease (sessionID ownerID : string) (ttl : Z) : Eff (sworld X) (result SessionRuntimeLease) :=
  let sessionID := TrimSpace sessionID in
  let ownerID := TrimSpace ownerID in
  if bool_decide (sessionID = "") || bool_decide (ownerID = "") || (ttl <=? 0)
  then fail (Errorf "session id, owner id, and positive ttl are required")
  else
    let* now := s_now in
    let* s := get_store in
    let save lease :=
      let lease := lease <| sl_SessionID := sessionID |> <| sl_OwnerID := ownerID |> in
      let lease := set_lease lease (now + ttl) now in
      commit (s <| leases := <[sessionID := lease]> (leases s) |>) lease in
    match leases s !! sessionID with
    | Some lease =>
        if negb (bool_decide (sl_OwnerID lease = ownerID)) && After (sl_LeaseUntil lease) now
        then fail (Wrapf "" ErrLeaseHeld
                     (": session_id=" +:+ sessionID +:+ " owner_id=" +:+ sl_OwnerID lease))
        else if negb (bool_decide (sl_OwnerID lease = ownerID))
        then save (lease <| sl_FenceToken := incr (sl_FenceToken lease) |>)
        else save lease
    | None => save (zeroSessionRuntimeLease <| sl_FenceToken := 1 |>)
    end.

Definition RenewLease (fence : Fence) (ttl : Z) : Eff (sworld X) (result SessionRuntimeLease) :=
  if ttl <=? 0 then fail (Errorf "lease ttl must be positive")
  else with_fence fence (fun now lease =>
    let* s := get_store in
    let lease := set_lease lease (now + ttl) now in
    commit (s <| leases := <[fn_SessionID fence := lease]> (leases s) |>) lease).

Definition HandoffLease (fence : Fence) (newOwnerID : string) (ttl : Z)
    : Eff (sworld X) (result SessionRuntimeLease) :=
  let newOwnerID := TrimSpace newOwnerID in
  if bool_decide (newOwnerID = "") || (ttl <=? 0)
  then fail (Errorf "new owner id and positive ttl are required")
  else with_fence fence (fun now lease =>
    let* s := get_store in
    let lease := if negb (bool_decide (newOwnerID = sl_OwnerID lease))
      then lease <| sl_FenceToken := incr (sl_FenceToken lease) |> else lease in
    let lease := set_lease (lease <| sl_OwnerID := newOwnerID |>) (now + ttl) now in
    commit (s <| leases := <[fn_SessionID fence := lease]> (leases s) |>) lease).

Definition ReleaseLease (fence : Fence) : Eff (sworld X) (result unit) :=
  with_fence fence (fun now lease =>
    let* s := get_store in
    commit (s <| leases := <[fn_SessionID fence := set_lease lease now now]> (leases s) |>) tt).

Definition ValidateFence (fence : Fence) : Eff (sworld X) (result unit) :=
  with_fence fence (fun _ _ => ret (Ok tt)).

(** *** Turns *)

Definition turn_not_found (turnID : string) : error :=
  Wrapf "" ErrTurnNotFound (": turn_id=" +:+ turnID).

Definition turnAndClaimedInputLocked (fence : Fence) (turnID : string)
    : Eff (sworld X) (result (SessionTurnRun * SessionInputRecord)) :=
  let* s := get_store in
  match turns s !! TrimSpace turnID with
  | None => fail (turn_not_found turnID)
  | Some turn =>
      if negb (bool_decide (tr_SessionID turn = fn_SessionID fence))
      then fail (Wrapf "" ErrFenceRejected (": turn_id=" +:+ turnID))
      else
        try* input := claimedInputLocked fence (tr_InputID turn) claimed_or_running in
        ret (Ok (cloneTurn turn, input))
  end.

Definition new_turn (turnID runnerRunID : string) (input : SessionInputRecord) (fence : Fence)
    (spec : TurnSpec) (now : Time) : SessionTurnRun :=
  zeroSessionTurnRun
    <| tr_TurnID := turnID |> <| tr_InputID := in_InputID input |> <| tr_SessionID := in_SessionID input |>
    <| tr_RunnerRunID := runnerRunID |> <| tr_ParentTurnID := TrimSpace (ts_ParentTurnID spec) |>
    <| tr_ClaimFence := fn_FenceToken fence |> <| tr_Kind := in_InputType input |>
    <| tr_Status := TurnStatusPrepared |>
    <| tr_RunnerCheckpointID := TrimSpace (ts_RunnerCheckpointID spec) |>
    <| tr_Attempt := in_Attempts input |>
    <| tr_ContextMessageSeq := in_ContextMessageSeq input |>
    <| tr_ContextSeqFrozen := bool_decide (in_InputType input = InputTypeUserMessage)
                              && (0 <? in_ContextMessageSeq input) |>
    <| tr_CreatedAt := now |> <| tr_UpdatedAt := now |>.

Definition GetOrCreateTurn (fence : Fence) (inputID : string) (spec : TurnSpec)
    : Eff (sworld X) (result (SessionTurnRun * bool)) :=
  with_fence fence (fun now _ =>
    try* input := claimedInputLocked fence inputID claimed_or_running in
    let* s := get_store in
    let turnID := string_at (turnByInput s) (in_InputID input) in
    if negb (bool_decide (turnID = "")) then ret (Ok (cloneTurn (turn_at (turns s) turnID), false))
    else
      let turnID := TrimSpace (ts_TurnID spec) in
      let turnID := if bool_decide (turnID = "")
        then StableTurnID (in_SessionID input) (in_InputID input) else turnID in
      match turns s !! turnID with
      | Some existing =>
          fail (Wrapf "" ErrIdempotencyConflict
                  (": turn_id=" +:+ turnID +:+ " belongs to input_id=" +:+ tr_InputID existing))
      | None =>
          let runnerRunID := TrimSpace (ts_RunnerRunID spec) in
          let runnerRunID := if bool_decide (runnerRunID = "")
            then StableRunnerRunID (in_SessionID input) (in_InputID input) else runnerRunID in
          let turn := new_turn turnID runnerRunID input fence spec now in
          let input := input <| in_TurnID := turnID |> <| in_UpdatedAt := now |> in
          let s := put_turn (put_input s input) turn in
          let s := s <| turnByInput := <[in_InputID input := turnID]> (turnByInput s) |> in
          commit s (cloneTurn turn, true)
      end).

Definition GetTurn (turnID : string) : Eff (sworld X) (result SessionTurnRun) :=
  let* s := get_store in
  match turns s !! TrimSpace turnID with
  | None => fail (turn_not_found turnID)
  | Some turn => ret (Ok (cloneTurn turn))
  end.

(** [%w: turn %s cannot <what> from %s]. *)
Definition cannot (turnID what status : string) : error :=
  Wrapf "" ErrInvalidTransition (": turn " +:+ turnID +:+ " cannot " +:+ what +:+ " from " +:+ status).

Definition status_in (status : string) (allowed : list string) : bool :=
  existsb (fun a => bool_decide (status = a)) allowed.

Definition BeginTurn (fence : Fence) (turnID : string) : Eff (sworld X) (result SessionTurnRun) :=
  with_fence fence (fun now _ =>
    try* ' (turn, input) := turnAndClaimedInputLocked fence turnID in
    if negb (status_in (tr_Status turn) [TurnStatusPrepared; TurnStatusRetryWait; TurnStatusRunning])
    then fail (cannot (tr_TurnID turn) "run" (tr_Status turn))
    else
      let* s := get_store in
      let turn := turn <| tr_Status := TurnStatusRunning |> <| tr_ClaimFence := fn_FenceToken fence |>
        <| tr_Attempt := in_Attempts input |> <| tr_ErrorCode := "" |> <| tr_ErrorMessage := "" |>
        <| tr_UpdatedAt := now |> in
      let input := input <| in_Status := InputStatusRunning |> <| in_UpdatedAt := now |> in
      commit (put_input (put_turn s turn) input) (cloneTurn turn)).

(** What the two methods that freeze the context share; [through] reads the
    boundary. *)
Definition freeze_context (fence : Fence) (turnID : string) (through : MemoryStore → Z)
    : Eff (sworld X) (result SessionTurnRun) :=
  with_fence fence (fun now _ =>
    try* ' (turn, _) := turnAndClaimedInputLocked fence turnID in
    if tr_ContextSeqFrozen turn then ret (Ok (cloneTurn turn))
    else if negb (status_in (tr_Status turn) [TurnStatusRunning; TurnStatusRetryWait])
    then fail (cannot turnID "freeze context" (tr_Status turn))
    else
      let* s := get_store in
      let turn := turn <| tr_ContextMessageSeq := through s |> <| tr_ContextSeqFrozen := true |>
        <| tr_UpdatedAt := now |> in
      commit (put_turn s turn) (cloneTurn turn)).

Definition FreezeTurnContextMessageSeq (fence : Fence) (turnID : string) (throughSeq : Z)
    : Eff (sworld X) (result SessionTurnRun) :=
  if throughSeq <? 0 then fail (Errorf "context message sequence cannot be negative")
  else freeze_context fence turnID (fun _ => throughSeq).

(** The last message boundary of the user inputs that are done. *)
Definition terminal_user_seq (sessionID : string) (s : MemoryStore) : Z :=
  foldl (fun throughSeq '(_, input) =>
    if negb (bool_decide (in_SessionID input = sessionID))
       || negb (bool_decide (in_InputType input = InputTypeUserMessage))
       || negb (isTerminalInputStatus (in_Status input)) then throughSeq
    else if throughSeq <? in_ContextMessageSeq input then in_ContextMessageSeq input else throughSeq)
    0 (map_to_list (inputs s)).

Definition FreezeTurnContextFromTerminalUserInputs (fence : Fence) (turnID : string)
    : Eff (sworld X) (result SessionTurnRun) :=
  freeze_context fence turnID (terminal_user_seq (fn_SessionID fence)).

Definition SaveTurnCheckpoint (fence : Fence) (turnID checkpointID : string)
    : Eff (sworld X) (result SessionTurnRun) :=
  let checkpointID := TrimSpace checkpointID in
  if bool_decide (checkpointID = "") then fail (Errorf "runner checkpoint id is required")
  else with_fence fence (fun now _ =>
    try* ' (turn, _) := turnAndClaimedInputLocked fence turnID in
    if negb (status_in (tr_Status turn) [TurnStatusRunning; TurnStatusRetryWait])
    then fail (cannot turnID "save checkpoint" (tr_Status turn))
    else
      let* s := get_store in
      let turn := turn <| tr_RunnerCheckpointID := checkpointID |> <| tr_UpdatedAt := now |> in
      commit (put_turn s turn) (cloneTurn turn)).

Definition SaveTurnOutput (fence : Fence) (turnID : string) (payload : RawMessage) (digest : string)
    : Eff (sworld X) (result SessionTurnRun) :=
  if bool_decide (payload = "") || negb (json_Valid payload)
  then fail (Errorf "turn output payload must be non-empty valid JSON")
  else
    let digest := TrimSpace digest in
    with_fence fence (fun now _ =>
      let* s := get_store in
      match turns s !! TrimSpace turnID with
      | None => fail (turn_not_found turnID)
      | Some turn =>
          if negb (bool_decide (tr_SessionID turn = fn_SessionID fence))
          then fail (Wrapf "" ErrFenceRejected (": turn_id=" +:+ turnID))
          else if negb (status_in (tr_Status turn) [TurnStatusRunning; TurnStatusRetryWait])
          then fail (cannot turnID "save output" (tr_Status turn))
          else
            try* _ := claimedInputLocked fence (tr_InputID turn) claimed_or_running in
            if negb (bool_decide (tr_OutputPayload turn = "")) then
              if negb (bool_decide (tr_OutputDigest turn = digest))
                 || negb (jsonEqual (tr_OutputPayload turn) payload)
              then fail (Wrapf "" ErrIdempotencyConflict (": turn " +:+ turnID +:+ " output receipt changed"))
              else ret (Ok (cloneTurn turn))
            else
              let turn := turn <| tr_OutputPayload := payload |> <| tr_OutputDigest := digest |>
                <| tr_UpdatedAt := now |> in
              commit (put_turn s turn) (cloneTurn turn)
      end).

(** The input of a turn that has come to its end. *)
Definition resolved_input (input : SessionInputRecord) (now : Time) : SessionInputRecord :=
  unclaim (input <| in_Status := InputStatusResolved |>)
    <| in_ResolvedAt := Some now |> <| in_UpdatedAt := now |>.

Definition WaitForInterrupt (fence : Fence) (turnID checkpointID : string)
    : Eff (sworld X) (result SessionTurnRun) :=
  let checkpointID := TrimSpace checkpointID in
  if bool_decide (checkpointID = "") then fail (Errorf "runner checkpoint id is required")
  else with_fence fence (fun now _ =>
    let* s := get_store in
    match turns s !! TrimSpace turnID with
    | None => fail (turn_not_found turnID)
    | Some turn =>
        if bool_decide (tr_Status turn = TurnStatusWaitingInterrupt)
           && bool_decide (tr_RunnerCheckpointID turn = checkpointID)
        then ret (Ok (cloneTurn turn))
        else if bool_decide (tr_Status turn = TurnStatusWaitingInterrupt)
        then fail (Wrapf "" ErrIdempotencyConflict (": turn " +:+ turnID +:+ " checkpoint changed"))
        else
          try* input := claimedInputLocked fence (tr_InputID turn) claimed_or_running in
          if negb (bool_decide (tr_Status turn = TurnStatusRunning))
          then fail (cannot (tr_TurnID turn) "wait" (tr_Status turn))
          else
            let turn := turn <| tr_Status := TurnStatusWaitingInterrupt |>
              <| tr_RunnerCheckpointID := checkpointID |> <| tr_UpdatedAt := now |> in
            commit (put_input (put_turn s turn) (resolved_input input now)) (cloneTurn turn)
    end).

Definition RetryTurnAt (fence : Fence) (turnID : string) (availableAt : Time) (failure : Failure)
    : Eff (sworld X) (result SessionTurnRun) :=
  with_fence fence (fun now _ =>
    try* ' (turn, input) := turnAndClaimedInputLocked fence turnID in
    if negb (status_in (tr_Status turn) [TurnStatusPrepared; TurnStatusRunning; TurnStatusRetryWait])
    then fail (cannot (tr_TurnID turn) "retry" (tr_Status turn))
    else
      let* s := get_store in
      let turn := turn <| tr_Status := TurnStatusRetryWait |>
        <| tr_ErrorCode := TrimSpace (fl_Code failure) |>
        <| tr_ErrorMessage := TrimSpace (fl_Message failure) |> <| tr_UpdatedAt := now |> in
      let input := unclaim (input <| in_Status := InputStatusRetryWait |>
          <| in_AvailableAt := available_or_now availableAt now |>)
        <| in_ErrorCode := tr_ErrorCode turn |> <| in_ErrorMessage := tr_ErrorMessage turn |>
        <| in_UpdatedAt := now |> in
      commit (put_input (put_turn s turn) input) (cloneTurn turn)).

Definition RetryTurn (fence : Fence) (turnID : string) (failure : Failure)
    : Eff (sworld X) (result SessionTurnRun) :=
  RetryTurnAt fence turnID zeroTime failure.

Definition CommitTurn (fence : Fence) (turnID outputDigest : string)
    : Eff (sworld X) (result SessionTurnRun) :=
  with_fence fence (fun now _ =>
    let* s := get_store in
    match turns s !! TrimSpace turnID with
    | None => fail (turn_not_found turnID)
    | Some turn =>
        let changed := fail (Wrapf "" ErrIdempotencyConflict (": turn " +:+ turnID +:+ " output digest changed")) in
        if bool_decide (tr_Status turn = TurnStatusCommitted) then
          if negb (bool_decide (tr_OutputDigest turn = TrimSpace outputDigest)) then changed
          else ret (Ok (cloneTurn turn))
        else if negb (bool_decide (tr_OutputPayload turn = ""))
                && negb (bool_decide (tr_OutputDigest turn = TrimSpace outputDigest))
        then changed
        else
          try* input := claimedInputLocked fence (tr_InputID turn) claimed_or_running in
          if negb (status_in (tr_Status turn) [TurnStatusRunning; TurnStatusCommitting])
          then fail (cannot (tr_TurnID turn) "commit" (tr_Status turn))
          else
            let turn := turn <| tr_Status := TurnStatusCommitted |>
              <| tr_OutputDigest := TrimSpace outputDigest |> <| tr_CommittedAt := Some now |>
              <| tr_UpdatedAt := now |> in
            commit (put_input (put_turn s turn) (resolved_input input now)) (cloneTurn turn)
    end).

Definition DeadTurn (fence : Fence) (turnID : string) (failure : Failure)
    : Eff (sworld X) (result SessionTurnRun) :=
  with_fence fence (fun now _ =>
    let* s := get_store in
    match turns s !! TrimSpace turnID with
    | None => fail (turn_not_found turnID)
    | Some turn =>
        if bool_decide (tr_Status turn = TurnStatusDead) then
          match inputs s !! tr_InputID turn with
          | Some input => commit (recordTerminalFailureLocked s input (tr_TurnID turn)) (cloneTurn turn)
          | None => ret (Ok (cloneTurn turn))
          end
        else
          try* input := claimedInputLocked fence (tr_InputID turn) claimed_or_running in
          if status_in (tr_Status turn) [TurnStatusCommitted; TurnStatusWaitingInterrupt]
          then fail (cannot (tr_TurnID turn) "die" (tr_Status turn))
          else
            let s := recordTerminalFailureLocked s input (tr_TurnID turn) in
            let turn := turn <| tr_Status := TurnStatusDead |>
              <| tr_ErrorCode := TrimSpace (fl_Code failure) |>
              <| tr_ErrorMessage := TrimSpace (fl_Message failure) |> <| tr_UpdatedAt := now |> in
            let input := unclaim (input <| in_Status := InputStatusDead |>)
              <| in_ErrorCode := tr_ErrorCode turn |> <| in_ErrorMessage := tr_ErrorMessage turn |>
              <| in_UpdatedAt := now |> in
            commit (put_input (put_turn s turn) input) (cloneTurn turn)
    end).

(** *** Approval continuations *)

Definition continuation_not_found (approvalID : string) (decisionVersion : Z) : error :=
  Wrapf "" ErrContinuationNotFound
    (": approval_id=" +:+ approvalID +:+ " decision_version=" +:+ pretty decisionVersion).

Definition put_continuation (s : MemoryStore) (key : string) (record : ApprovalContinuation) : MemoryStore :=
  s <| continuations := <[key := record]> (continuations s) |>.

Definition RequestContinuation (continuation : ApprovalContinuation)
    : Eff (sworld X) (result (ApprovalContinuation * bool)) :=
  match normalizeContinuation continuation with
  | Err err => fail err
  | Ok continuation =>
      let* s := get_store in
      let key := continuationIdentity (ac_ApprovalID continuation) (ac_DecisionVersion continuation) in
      match continuations s !! key with
      | Some existing =>
          if negb (bool_decide (ac_SessionID existing = ac_SessionID continuation))
             || negb (bool_decide (ac_Executor existing = ac_Executor continuation))
             || negb (ac_ExecutionEpoch existing =? ac_ExecutionEpoch continuation)
          then fail (Wrapf "" ErrIdempotencyConflict
                 (": approval_id=" +:+ ac_ApprovalID continuation +:+ " decision_version="
                  +:+ pretty (ac_DecisionVersion continuation)))
          else ret (Ok (existing, false))
      | None =>
          let* now := s_now in
          let continuation := continuation <| ac_Status := ContinuationStatusRequested |>
            <| ac_CreatedAt := now |> <| ac_UpdatedAt := now |> in
          commit (put_continuation s key continuation) (continuation, true)
      end
  end.

Definition GetContinuation (approvalID : string) (decisionVersion : Z)
    : Eff (sworld X) (result ApprovalContinuation) :=
  let* s := get_store in
  match continuations s !! continuationIdentity approvalID decisionVersion with
  | None => fail (continuation_not_found approvalID decisionVersion)
  | Some record => ret (Ok record)
  end.

(** [record.Status == claimed && record.LeaseUntil != nil && record.LeaseUntil.After(now)]. *)
Definition claim_is_live (record : ApprovalContinuation) (now : Time) : bool :=
  bool_decide (ac_Status record = ContinuationStatusClaimed)
  && match ac_LeaseUntil record with Some until => After until now | None => false end.

Definition already_claimed (record : ApprovalContinuation) : error :=
  Wrapf "" ErrContinuationClaimed (": lease_owner=" +:+ ac_LeaseOwner record).

Definition ClaimContinuation (claim : ContinuationClaim) (ttl : Z)
    : Eff (sworld X) (result ApprovalContinuation) :=
  check (validateContinuationClaim claim) (
  if ttl <=? 0 then fail (Errorf "continuation lease ttl must be positive")
  else
    let* s := get_store in
    let key := continuationIdentity (cc_ApprovalID claim) (cc_DecisionVersion claim) in
    match continuations s !! key with
    | None => fail (continuation_not_found (cc_ApprovalID claim) (cc_DecisionVersion claim))
    | Some record =>
        let* now := s_now in
        if negb (bool_decide (ac_Executor record = cc_Executor claim))
           || negb (ac_ExecutionEpoch record =? cc_ExecutionEpoch claim)
        then fail (Wrapf "" ErrFenceRejected ": continuation executor or epoch changed")
        else if bool_decide (ac_Status record = ContinuationStatusApplied) then ret (Ok record)
        else if claim_is_live record now then fail (already_claimed record)
        else if negb (status_in (ac_Status record)
                 [ContinuationStatusRequested; ContinuationStatusClaimed; ContinuationStatusFailed])
        then fail (Wrapf "" ErrInvalidTransition (": continuation cannot claim from " +:+ ac_Status record))
        else
          let record := record <| ac_Status := ContinuationStatusClaimed |>
            <| ac_LeaseOwner := cc_LeaseOwner claim |> <| ac_LeaseUntil := Some (now + ttl) |>
            <| ac_ErrorCode := "" |> <| ac_ErrorMessage := "" |> <| ac_UpdatedAt := now |> in
          commit (put_continuation s key record) record
    end).

Definition validateContinuationLeaseLocked (record : ApprovalContinuation) (claim : ContinuationClaim)
    : Eff (sworld X) (option error) :=
  let* now := s_now in
  if negb (bool_decide (ac_Executor record = cc_Executor claim))
     || negb (ac_ExecutionEpoch record =? cc_ExecutionEpoch claim)
     || negb (bool_decide (ac_Status record = ContinuationStatusClaimed))
     || negb (bool_decide (ac_LeaseOwner record = cc_LeaseOwner claim))
     || match ac_LeaseUntil record with Some until => negb (After until now) | None => true end
  then ret (Some (Wrapf "" ErrFenceRejected ": approval continuation claim is stale"))
  else ret None.

(** The first loop of [ApplyContinuation]: nothing is written. *)
Fixpoint normalize_commands (s : MemoryStore) (claim : ContinuationClaim) (l : list ApprovalCommandLedger)
    : result (list ApprovalCommandLedger) :=
  match l with
  | [] => Ok []
  | command :: l' =>
      match normalizeCommand command claim with
      | Err err => Err err
      | Ok item =>
          let ledgerKey := commandIdentity (cl_ApprovalID item) (cl_DecisionVersion item) (cl_CommandKind item) in
          if match commands s !! ledgerKey with
             | Some existing => negb (sameCommand existing item) | None => false end
          then Err (Wrapf "" ErrIdempotencyConflict (": command_kind=" +:+ cl_CommandKind item))
          else if match commandKeys s !! cl_IdempotencyKey item with
                  | Some otherKey => negb (bool_decide (otherKey = ledgerKey)) | None => false end
          then Err (Wrapf "" ErrIdempotencyConflict (": command idempotency_key=" +:+ cl_IdempotencyKey item))
          else match normalize_commands s claim l' with
               | Err err => Err err
               | Ok items => Ok (item :: items)
               end
      end
  end.

Definition record_command (now : Time) (s : MemoryStore) (command : ApprovalCommandLedger) : MemoryStore :=
  let command := if IsZero (cl_CreatedAt command) then command <| cl_CreatedAt := now |> else command in
  let ledgerKey := commandIdentity (cl_ApprovalID command) (cl_DecisionVersion command) (cl_CommandKind command) in
  s <| commands := <[ledgerKey := cloneCommand command]> (commands s) |>
    <| commandKeys := <[cl_IdempotencyKey command := ledgerKey]> (commandKeys s) |>.

Definition ApplyContinuation (claim : ContinuationClaim) (cmds : list ApprovalCommandLedger)
    : Eff (sworld X) (result ApprovalContinuation) :=
  check (validateContinuationClaim claim) (
  let* s := get_store in
  let key := continuationIdentity (cc_ApprovalID claim) (cc_DecisionVersion claim) in
  match continuations s !! key with
  | None => fail (continuation_not_found (cc_ApprovalID claim) (cc_DecisionVersion claim))
  | Some record =>
      if bool_decide (ac_Status record = ContinuationStatusApplied) then ret (Ok record)
      else
        let* stale := validateContinuationLeaseLocked record claim in
        check stale (
        match normalize_commands s claim cmds with
        | Err err => fail err
        | Ok normalized =>
            let* now := s_now in
            let s := foldl (record_command now) s normalized in
            let record := record <| ac_Status := ContinuationStatusApplied |> <| ac_LeaseUntil := None |>
              <| ac_UpdatedAt := now |> <| ac_AppliedAt := Some now |> in
            commit (put_continuation s key record) record
        end)
  end).

Definition FailContinuation (claim : ContinuationClaim) (failure : Failure)
    : Eff (sworld X) (result ApprovalContinuation) :=
  check (validateContinuationClaim claim) (
  let* s := get_store in
  let key := continuationIdentity (cc_ApprovalID claim) (cc_DecisionVersion claim) in
  match continuations s !! key with
  | None => fail (continuation_not_found (cc_ApprovalID claim) (cc_DecisionVersion claim))
  | Some record =>
      let* stale := validateContinuationLeaseLocked record claim in
      check stale (
        let* now := s_now in
        let record := record <| ac_Status := ContinuationStatusFailed |> <| ac_LeaseUntil := None |>
          <| ac_ErrorCode := TrimSpace (fl_Code failure) |>
          <| ac_ErrorMessage := TrimSpace (fl_Message failure) |> <| ac_UpdatedAt := now |> in
        commit (put_continuation s key record) record)
  end).

Definition FallbackContinuation (approvalID : string) (decisionVersion expectedEpoch : Z)
    : Eff (sworld X) (result ApprovalContinuation) :=
  let* s := get_store in
  let key := continuationIdentity approvalID decisionVersion in
  match continuations s !! key with
  | None => fail (continuation_not_found approvalID decisionVersion)
  | Some record =>
      let* now := s_now in
      if bool_decide (ac_Status record = ContinuationStatusApplied) then ret (Ok record)
      else if negb (bool_decide (ac_Executor record = ContinuationExecutorRunnerResume))
              || negb (ac_ExecutionEpoch record =? expectedEpoch)
      then fail (Wrapf "" ErrFenceRejected ": continuation executor or epoch changed")
      else if claim_is_live record now then fail (already_claimed record)
      else
        let record := record <| ac_Executor := ContinuationExecutorDeterministic |>
          <| ac_ExecutionEpoch := incr (ac_ExecutionEpoch record) |>
          <| ac_Status := ContinuationStatusRequested |> <| ac_LeaseOwner := "" |>
          <| ac_LeaseUntil := None |> <| ac_ErrorCode := "" |> <| ac_ErrorMessage := "" |>
          <| ac_UpdatedAt := now |> in
        commit (put_continuation s key record) record
  end.

Definition GetCommand (approvalID : string) (decisionVersion : Z) (commandKind : string)
    : Eff (sworld X) (result ApprovalCommandLedger) :=
  let* s := get_store in
  match commands s !! commandIdentity approvalID decisionVersion commandKind with
  | None => fail (Wrapf "" ErrContinuationNotFound ": approval command not found")
  | Some record => ret (Ok (cloneCommand record))
  end.
End memory_store.
