(* ===== verification/SessionEffects.v ===== *)
(** * Session runtime: the commands and their effects on the store

    All methods of the store as one type of commands, and the few kinds of
    changes they make, as a relation on stores ([effect]).  Each command is
    shown to make a sequence of such changes, so that invariants are proved on
    the changes once. *)

From Stdlib Require Import ZArith Lia.
From S2P Require Import Prelude GoJson SessionModels SessionStore.

(** ** The commands *)

Inductive session_command : Type :=
| CEnqueueInput (sessionID : string) (input : SessionInput)
| CGetInput (inputID : string)
| CListRunnableSessions (limit : Z)
| CClaimNext (options : ClaimOptions)
| CMarkInputRunning (fence : Fence) (inputID : string) (ttl : Z)
| CRetryInput (fence : Fence) (inputID : string) (availableAt : Time) (failure : Failure)
| CResolveInput (fence : Fence) (inputID : string)
| CDeadInput (fence : Fence) (inputID : string) (failure : Failure)
| CRecoverExpiredInputs (fence : Fence)
| CAcquireLease (sessionID ownerID : string) (ttl : Z)
| CRenewLease (fence : Fence) (ttl : Z)
| CHandoffLease (fence : Fence) (newOwnerID : string) (ttl : Z)
| CReleaseLease (fence : Fence)
| CValidateFence (fence : Fence)
| CGetOrCreateTurn (fence : Fence) (inputID : string) (spec : TurnSpec)
| CGetTurn (turnID : string)
| CBeginTurn (fence : Fence) (turnID : string)
| CFreezeTurnContextMessageSeq (fence : Fence) (turnID : string) (throughSeq : Z)
| CFreezeTurnContextFromTerminalUserInputs (fence : Fence) (turnID : string)
| CSaveTurnCheckpoint (fence : Fence) (turnID checkpointID : string)
| CSaveTurnOutput (fence : Fence) (turnID : string) (payload : RawMessage) (digest : string)
| CWaitForInterrupt (fence : Fence) (turnID checkpointID : string)
| CRetryTurn (fence : Fence) (turnID : string) (failure : Failure)
| CRetryTurnAt (fence : Fence) (turnID : string) (availableAt : Time) (failure : Failure)
| CCommitTurn (fence : Fence) (turnID outputDigest : string)
| CDeadTurn (fence : Fence) (turnID : string) (failure : Failure)
| CRequestContinuation (continuation : ApprovalContinuation)
| CGetContinuation (approvalID : string) (decisionVersion : Z)
| CClaimContinuation (claim : ContinuationClaim) (ttl : Z)
| CApplyContinuation (claim : ContinuationClaim) (cmds : list ApprovalCommandLedger)
| CFailContinuation (claim : ContinuationClaim) (failure : Failure)
| CFallbackContinuation (approvalID : string) (decisionVersion expectedEpoch : Z)
| CGetCommand (approvalID : string) (decisionVersion : Z) (commandKind : string).

(** The fence a command carries. *)
Definition fence_of (c : session_command) : option Fence :=
  match c with
  | CClaimNext options => Some (co_Fence options)
  | CMarkInputRunning f _ _ | CRetryInput f _ _ _ | CResolveInput f _ | CDeadInput f _ _
  | CRecoverExpiredInputs f | CRenewLease f _ | CHandoffLease f _ _ | CReleaseLease f | CValidateFence f
  | CGetOrCreateTurn f _ _ | CBeginTurn f _ | CFreezeTurnContextMessageSeq f _ _
  | CFreezeTurnContextFromTerminalUserInputs f _ | CSaveTurnCheckpoint f _ _ | CSaveTurnOutput f _ _ _
  | CWaitForInterrupt f _ _ | CRetryTurn f _ _ | CRetryTurnAt f _ _ _ | CCommitTurn f _ _ | CDeadTurn f _ _ =>
      Some f
  | _ => None
  end.

Section commands.
Context `{Codec} `{Clock} {X : Type}.

(** Only the error of the answer. *)
Definition only_error {A} (c : Eff (sworld X) (result A)) : Eff (sworld X) (option error) :=
  let* r := c in ret (match r with Ok _ => None | Err e => Some e end).

Definition run_command (c : session_command) : Eff (sworld X) (option error) :=
  match c with
  | CEnqueueInput sessionID input => only_error (EnqueueInput sessionID input)
  | CGetInput inputID => only_error (GetInput inputID)
  | CListRunnableSessions limit => only_error (ListRunnableSessions limit)
  | CClaimNext options => only_error (ClaimNext options)
  | CMarkInputRunning f inputID ttl => only_error (MarkInputRunning f inputID ttl)
  | CRetryInput f inputID at_ failure => only_error (RetryInput f inputID at_ failure)
  | CResolveInput f inputID => only_error (ResolveInput f inputID)
  | CDeadInput f inputID failure => only_error (DeadInput f inputID failure)
  | CRecoverExpiredInputs f => only_error (RecoverExpiredInputs f)
  | CAcquireLease sessionID ownerID ttl => only_error (AcquireLease sessionID ownerID ttl)
  | CRenewLease f ttl => only_error (RenewLease f ttl)
  | CHandoffLease f owner ttl => only_error (HandoffLease f owner ttl)
  | CReleaseLease f => only_error (ReleaseLease f)
  | CValidateFence f => only_error (ValidateFence f)
  | CGetOrCreateTurn f inputID spec => only_error (GetOrCreateTurn f inputID spec)
  | CGetTurn turnID => only_error (GetTurn turnID)
  | CBeginTurn f turnID => only_error (BeginTurn f turnID)
  | CFreezeTurnContextMessageSeq f turnID seq => only_error (FreezeTurnContextMessageSeq f turnID seq)
  | CFreezeTurnContextFromTerminalUserInputs f turnID =>
      only_error (FreezeTurnContextFromTerminalUserInputs f turnID)
  | CSaveTurnCheckpoint f turnID checkpoint => only_error (SaveTurnCheckpoint f turnID checkpoint)
  | CSaveTurnOutput f turnID payload digest => only_error (SaveTurnOutput f turnID payload digest)
  | CWaitForInterrupt f turnID checkpoint => only_error (WaitForInterrupt f turnID checkpoint)
  | CRetryTurn f turnID failure => only_error (RetryTurn f turnID failure)
  | CRetryTurnAt f turnID at_ failure => only_error (RetryTurnAt f turnID at_ failure)
  | CCommitTurn f turnID digest => only_error (CommitTurn f turnID digest)
  | CDeadTurn f turnID failure => only_error (DeadTurn f turnID failure)
  | CRequestContinuation continuation => only_error (RequestContinuation continuation)
  | CGetContinuation approvalID version => only_error (GetContinuation approvalID version)
  | CClaimContinuation claim ttl => only_error (ClaimContinuation claim ttl)
  | CApplyContinuation claim cmds => only_error (ApplyContinuation claim cmds)
  | CFailContinuation claim failure => only_error (FailContinuation claim failure)
  | CFallbackContinuation approvalID version epoch => only_error (FallbackContinuation approvalID version epoch)
  | CGetCommand approvalID version kind => only_error (GetCommand approvalID version kind)
  end.

(** ** How a record may change *)

(** What an input keeps for ever. *)
Definition in_key (r : SessionInputRecord) :=
  (in_InputID r, in_SessionID r, in_InputType r, in_SourceID r, in_EventID r, in_Payload r,
   in_Priority r, in_EnqueueSeq r, in_ContextMessageSeq r, in_CreatedAt r).

Definition unclaimed (r : SessionInputRecord) : Prop :=
  in_ClaimOwner r = "" ∧ in_ClaimFence r = 0 ∧ in_LeaseUntil r = None.

(** A started input keeps its claim, gives it up to wait, or ends. *)
Definition input_move (r r' : SessionInputRecord) : Prop :=
  in_key r' = in_key r ∧ in_TurnID r' = in_TurnID r ∧ in_Attempts r' = in_Attempts r ∧
  ((holds_claim r = true ∧ holds_claim r' = true ∧ in_ClaimOwner r' = in_ClaimOwner r ∧
    in_ClaimFence r' = in_ClaimFence r ∧ is_Some (in_LeaseUntil r')) ∨
   (unclaimed r' ∧ holds_claim r = true ∧
    in_Status r' ∈ [InputStatusRetryWait; InputStatusResolved; InputStatusDead]) ∨
   (unclaimed r' ∧ is_started r = true ∧ waits r = true ∧ in_Status r' = InputStatusDead)).

(** What a turn keeps for ever. *)
Definition tr_key (t : SessionTurnRun) :=
  (tr_TurnID t, tr_InputID t, tr_SessionID t, tr_RunnerRunID t, tr_ParentTurnID t, tr_Kind t, tr_CreatedAt t).

Definition live_statuses : list string := [TurnStatusPrepared; TurnStatusRunning; TurnStatusRetryWait].

(** An open turn moves between its live statuses or ends; its output, once
    saved, and its context, once frozen, stay. *)
Definition turn_move (t t' : SessionTurnRun) : Prop :=
  tr_key t' = tr_key t ∧ isTerminalTurnStatus (tr_Status t) = false ∧
  tr_Status t' ∈ tr_Status t :: live_statuses ++ [TurnStatusWaitingInterrupt; TurnStatusCommitted; TurnStatusDead] ∧
  (tr_OutputPayload t ≠ "" → tr_OutputPayload t' = tr_OutputPayload t ∧ tr_OutputDigest t' = tr_OutputDigest t) ∧
  (tr_ContextSeqFrozen t = true →
   tr_ContextSeqFrozen t' = true ∧ tr_ContextMessageSeq t' = tr_ContextMessageSeq t).

(** The end of a turn is the end of its input. *)
Definition turn_agrees (t : SessionTurnRun) (r : SessionInputRecord) : Prop :=
  (tr_Status t ∈ [TurnStatusWaitingInterrupt; TurnStatusCommitted] → in_Status r = InputStatusResolved) ∧
  (tr_Status t = TurnStatusDead → in_Status r = InputStatusDead).

Definition put_turn_opt (s : MemoryStore) (t : option SessionTurnRun) : MemoryStore :=
  match t with Some t => put_turn s t | None => s end.

Definition announce_death (s : MemoryStore) (r : SessionInputRecord) : MemoryStore :=
  if bool_decide (in_Status r = InputStatusDead) then recordTerminalFailureLocked s r (in_TurnID r) else s.

Definition lease_move (k : string) (before : option SessionRuntimeLease) (l' : SessionRuntimeLease) : Prop :=
  TrimSpace (sl_OwnerID l') = sl_OwnerID l' ∧ sl_OwnerID l' ≠ "" ∧
  match before with
  | None => sl_FenceToken l' = 1 ∧ sl_SessionID l' = k
  | Some l =>
      (sl_SessionID l' = sl_SessionID l ∨ sl_SessionID l' = k) ∧
      ((sl_OwnerID l' = sl_OwnerID l ∧ sl_FenceToken l' = sl_FenceToken l) ∨
       sl_FenceToken l' = sl_FenceToken l + 1)
  end.

(** An applied continuation stays as it is; the epoch changes only with the
    executor, which falls back once. *)
Definition continuation_move (before : option ApprovalContinuation) (c' : ApprovalContinuation) : Prop :=
  match before with
  | None => ac_Status c' = ContinuationStatusRequested
  | Some c =>
      ac_Status c ≠ ContinuationStatusApplied ∧
      ac_ApprovalID c' = ac_ApprovalID c ∧ ac_DecisionVersion c' = ac_DecisionVersion c ∧
      ac_SessionID c' = ac_SessionID c ∧
      ((ac_ExecutionEpoch c' = ac_ExecutionEpoch c ∧ ac_Executor c' = ac_Executor c ∧
        (ac_Status c' = ContinuationStatusApplied → ac_Status c = ContinuationStatusClaimed)) ∨
       (ac_ExecutionEpoch c' = incr (ac_ExecutionEpoch c) ∧
        ac_Executor c = ContinuationExecutorRunnerResume ∧ ac_Executor c' = ContinuationExecutorDeterministic ∧
        ac_Status c' = ContinuationStatusRequested))
  end.

(** ** The effects *)

Inductive effect : MemoryStore → MemoryStore → Prop :=
| eff_enqueue s r :
    TrimSpace (in_InputID r) = in_InputID r → in_InputID r ≠ "" →
    TrimSpace (in_SessionID r) = in_SessionID r → in_SessionID r ≠ "" →
    inputs s !! in_InputID r = None →
    inputSources s !! inputSourceIdentity (in_SessionID r) (in_InputType r) (in_SourceID r) = None →
    in_EnqueueSeq r = counter_at (inputCounters s) (in_SessionID r) + 1 →
    in_Status r = InputStatusPending → in_Attempts r = 0 → in_TurnID r = "" → unclaimed r →
    effect s (s <| inputCounters := <[in_SessionID r := in_EnqueueSeq r]> (inputCounters s) |>
                <| inputs := <[in_InputID r := r]> (inputs s) |>
                <| inputSources := <[inputSourceIdentity (in_SessionID r) (in_InputType r) (in_SourceID r)
                                     := in_InputID r]> (inputSources s) |>)
| eff_lease s k l :
    (TrimSpace k = k → lease_move k (leases s !! k) l) →
    (sl_FenceToken l = 1 ∨ ∃ k0 l0, leases s !! k0 = Some l0 ∧
       sl_FenceToken l0 <= sl_FenceToken l <= sl_FenceToken l0 + 1) →
    effect s (s <| leases := <[k := l]> (leases s) |>)
| eff_claim s r r' l :
    inputs s !! in_InputID r = Some r → in_key r' = in_key r → in_TurnID r' = in_TurnID r →
    waits r = true → in_Status r' = InputStatusClaimed →
    in_Attempts r' = in_Attempts r + 1 → is_Some (in_LeaseUntil r') →
    leases s !! TrimSpace (in_SessionID r) = Some l → TrimSpace (in_ClaimOwner r') = sl_OwnerID l →
    in_ClaimFence r' = sl_FenceToken l → 0 < sl_FenceToken l →
    (is_started r = true ∨ ∀ k r2, inputs s !! k = Some r2 → in_SessionID r2 = in_SessionID r → is_started r2 = false) →
    effect s (put_input s r')
| eff_lane s r r' t' :
    inputs s !! in_InputID r = Some r → input_move r r' →
    match t' with
    | Some t' => ∃ t, turns s !! tr_TurnID t' = Some t ∧ turn_move t t' ∧ tr_InputID t = in_InputID r ∧
                      turn_agrees t' r'
    | None => True
    end →
    effect s (put_input (put_turn_opt (announce_death s r') t') r')
| eff_create_turn s r r' t :
    inputs s !! in_InputID r = Some r → holds_claim r = true →
    in_key r' = in_key r → in_Status r' = in_Status r → in_Attempts r' = in_Attempts r →
    in_ClaimOwner r' = in_ClaimOwner r → in_ClaimFence r' = in_ClaimFence r → in_LeaseUntil r' = in_LeaseUntil r →
    in_TurnID r' = tr_TurnID t → string_at (turnByInput s) (in_InputID r) = "" →
    turns s !! tr_TurnID t = None → TrimSpace (tr_TurnID t) = tr_TurnID t → tr_TurnID t ≠ "" →
    tr_InputID t = in_InputID r → tr_SessionID t = in_SessionID r → tr_Status t = TurnStatusPrepared →
    effect s ((put_turn (put_input s r') t)
                <| turnByInput := <[in_InputID r := tr_TurnID t]> (turnByInput s) |>)
| eff_again s r t :
    turns s !! tr_TurnID t = Some t → tr_Status t = TurnStatusDead → inputs s !! tr_InputID t = Some r →
    effect s (recordTerminalFailureLocked s r (tr_TurnID t))
| eff_continuation s k c :
    continuation_move (continuations s !! k) c →
    effect s (put_continuation s k c)
| eff_commands s cmds' keys' :
    (∀ k c, commands s !! k = Some c → ∃ c', cmds' !! k = Some c' ∧ (c' = c ∨ sameCommand c c' = true)) →
    effect s (s <| commands := cmds' |> <| commandKeys := keys' |>).

(** An [int64] that can be incremented. *)
Definition room (z : Z) : Prop := int64_min <= z < int64_max.

(** The counters of the store that are incremented stand at most at [n]. *)
Definition within (n : Z) (s : MemoryStore) : Prop :=
  (∀ k, 0 <= counter_at (inputCounters s) k <= n) ∧
  (∀ k r, inputs s !! k = Some r → 0 <= in_Attempts r <= n) ∧
  (∀ k l, leases s !! k = Some l → 0 <= sl_FenceToken l <= n).

(** No counter stands at the largest [int64]. *)
Definition small (s : MemoryStore) : Prop :=
  (∀ k, room (counter_at (inputCounters s) k)) ∧
  (∀ k r, inputs s !! k = Some r → room (in_Attempts r)) ∧
  (∀ k l, leases s !! k = Some l → room (sl_FenceToken l)).

(** An effect that increments nothing, and what a command does: such effects,
    then at most one other. *)
Definition quiet (s s' : MemoryStore) : Prop := effect s s' ∧ ∀ n, within n s → within n s'.

Definition command_effect (s s' : MemoryStore) : Prop :=
  ∃ s1, rtc quiet s s1 ∧ (s1 = s' ∨ effect s1 s').

(** ** The invariant *)

(** The status of an input, its attempts and its claim go together. *)
Definition input_ok (r : SessionInputRecord) : Prop :=
  in_Status r ∈ [InputStatusPending; InputStatusClaimed; InputStatusRunning; InputStatusRetryWait;
                 InputStatusResolved; InputStatusDead] ∧
  0 <= in_Attempts r ∧ (in_Status r = InputStatusPending ↔ in_Attempts r = 0) ∧
  (if holds_claim r then is_Some (in_LeaseUntil r) else unclaimed r).

(** The lane of inputs: keys, sequence numbers, and at most one started input
    in a session. *)
Record lane_inv (s : MemoryStore) : Prop := {
  lane_key : ∀ k r, inputs s !! k = Some r →
    in_InputID r = k ∧ TrimSpace k = k ∧ k ≠ "" ∧
    TrimSpace (in_SessionID r) = in_SessionID r ∧ in_SessionID r ≠ "" ∧ input_ok r;
  lane_seq : ∀ k r, inputs s !! k = Some r →
    1 <= in_EnqueueSeq r <= counter_at (inputCounters s) (in_SessionID r);
  lane_order : ∀ k1 k2 r1 r2, inputs s !! k1 = Some r1 → inputs s !! k2 = Some r2 →
    in_SessionID r1 = in_SessionID r2 → in_EnqueueSeq r1 = in_EnqueueSeq r2 → k1 = k2;
  lane_single : ∀ k1 k2 r1 r2, inputs s !! k1 = Some r1 → inputs s !! k2 = Some r2 →
    in_SessionID r1 = in_SessionID r2 → is_started r1 = true → is_started r2 = true → k1 = k2;
  lane_counters : ∀ k, 0 <= counter_at (inputCounters s) k
}.

(** Sources name the input they came from. *)
Definition source_of (r : SessionInputRecord) : string :=
  inputSourceIdentity (in_SessionID r) (in_InputType r) (in_SourceID r).

Record source_inv (s : MemoryStore) : Prop := {
  source_known : ∀ k r, inputs s !! k = Some r → inputSources s !! source_of r = Some k;
  source_input : ∀ src k, inputSources s !! src = Some k → ∃ r, inputs s !! k = Some r ∧ source_of r = src
}.

(** A claim was made under a fence that the lease has not taken back to
    another owner: its token is at most the lease's, and the owner is the
    lease's when the tokens agree. *)
Record lease_inv (s : MemoryStore) : Prop := {
  lease_ok : ∀ k l, TrimSpace k = k → leases s !! k = Some l →
    sl_SessionID l = k ∧ TrimSpace (sl_OwnerID l) = sl_OwnerID l ∧ sl_OwnerID l ≠ "" ∧ 0 < sl_FenceToken l;
  lease_claim : ∀ k r, inputs s !! k = Some r → holds_claim r = true →
    ∃ l, leases s !! in_SessionID r = Some l ∧ 0 < in_ClaimFence r <= sl_FenceToken l ∧
         (in_ClaimFence r = sl_FenceToken l → TrimSpace (in_ClaimOwner r) = sl_OwnerID l)
}.

(** Turns and inputs name each other, and a turn that has ended has ended its
    input. *)
Record turn_inv (s : MemoryStore) : Prop := {
  turn_key : ∀ k t, turns s !! k = Some t →
    tr_TurnID t = k ∧ TrimSpace k = k ∧ k ≠ "" ∧ turnByInput s !! tr_InputID t = Some k ∧
    tr_Status t ∈ live_statuses ++ [TurnStatusWaitingInterrupt; TurnStatusCommitted; TurnStatusDead];
  turn_link : ∀ i k, turnByInput s !! i = Some k →
    ∃ t r, turns s !! k = Some t ∧ tr_InputID t = i ∧ inputs s !! i = Some r ∧ in_TurnID r = k ∧
           tr_SessionID t = in_SessionID r ∧ turn_agrees t r;
  turn_back : ∀ i r, inputs s !! i = Some r → in_TurnID r ≠ "" → turnByInput s !! i = Some (in_TurnID r)
}.

(** The events of dead inputs, one for each. *)
Definition death_event (r : SessionInputRecord) : SessionEvent := terminalFailureEvent r (in_TurnID r).

Record event_inv (s : MemoryStore) : Prop := {
  event_dead : ∀ k r, inputs s !! k = Some r → in_Status r = InputStatusDead →
    terminalEvents s !! ev_SourceKey (death_event r) = Some (death_event r);
  event_input : ∀ key e, terminalEvents s !! key = Some e →
    ∃ k r, inputs s !! k = Some r ∧ in_Status r = InputStatusDead ∧
           key = ev_SourceKey (death_event r) ∧ e = death_event r
}.

Record session_inv (s : MemoryStore) : Prop := {
  inv_lane : lane_inv s;
  inv_source : source_inv s;
  inv_lease : lease_inv s;
  inv_turn : turn_inv s;
  inv_event : event_inv s
}.
End commands.
