(* ===== verification/SessionInv.v ===== *)
(** * Session runtime: the invariant is kept by every effect *)

From Stdlib Require Import ZArith Lia Ascii.
From S2P Require Import Prelude GoJson SessionModels SessionStore SessionEffects.

(** ** Records *)

Lemma in_key_fields r r' :
  in_key r' = in_key r →
  in_InputID r' = in_InputID r ∧ in_SessionID r' = in_SessionID r ∧ in_InputType r' = in_InputType r ∧
  in_SourceID r' = in_SourceID r ∧ in_Priority r' = in_Priority r ∧ in_EnqueueSeq r' = in_EnqueueSeq r ∧
  in_ContextMessageSeq r' = in_ContextMessageSeq r.
Proof. unfold in_key. intros [=]. done. Qed.

Lemma tr_key_fields t t' :
  tr_key t' = tr_key t →
  tr_TurnID t' = tr_TurnID t ∧ tr_InputID t' = tr_InputID t ∧ tr_SessionID t' = tr_SessionID t.
Proof. unfold tr_key. intros [=]. done. Qed.

Lemma source_of_key r r' : in_key r' = in_key r → source_of r' = source_of r.
Proof. intros Hk. unfold source_of. by destruct (in_key_fields _ _ Hk) as (_ & -> & -> & -> & _). Qed.

Lemma holds_claim_status r :
  holds_claim r = true ↔ in_Status r = InputStatusClaimed ∨ in_Status r = InputStatusRunning.
Proof. unfold holds_claim. rewrite orb_true_iff, !bool_decide_eq_true. done. Qed.

Lemma waits_status r :
  waits r = true ↔ in_Status r = InputStatusPending ∨ in_Status r = InputStatusRetryWait.
Proof. unfold waits. rewrite orb_true_iff, !bool_decide_eq_true. done. Qed.

Lemma is_started_spec r :
  is_started r = true ↔ 0 < in_Attempts r ∧ in_Status r ≠ InputStatusResolved ∧ in_Status r ≠ InputStatusDead.
Proof.
  unfold is_started, isTerminalInputStatus.
  rewrite andb_true_iff, negb_true_iff, orb_false_iff, !bool_decide_eq_false, Z.ltb_lt. done.
Qed.

Lemma holds_is_started r : input_ok r → holds_claim r = true → is_started r = true.
Proof.
  intros (_ & Ha & Hp & _) Hh%holds_claim_status. apply is_started_spec.
  assert (in_Attempts r ≠ 0) by (rewrite <-Hp; destruct Hh as [-> | ->]; done).
  split; [lia|]. destruct Hh as [-> | ->]; done.
Qed.

Lemma lane_claims s k1 k2 r1 r2 :
  lane_inv s → inputs s !! k1 = Some r1 → inputs s !! k2 = Some r2 → in_SessionID r1 = in_SessionID r2 →
  holds_claim r1 = true → holds_claim r2 = true → k1 = k2.
Proof.
  intros L Hk1 Hk2 Hs C1 C2. destruct (lane_key _ L _ _ Hk1) as (_ & _ & _ & _ & _ & O1).
  destruct (lane_key _ L _ _ Hk2) as (_ & _ & _ & _ & _ & O2).
  by apply (lane_single _ L _ _ _ _ Hk1 Hk2 Hs); apply holds_is_started.
Qed.

(** The status alone decides whether an input holds a claim or waits. *)
Lemma holds_claim_ext r r' : in_Status r' = in_Status r → holds_claim r' = holds_claim r.
Proof. unfold holds_claim. by intros ->. Qed.

Lemma is_started_ext r r' :
  in_Status r' = in_Status r → in_Attempts r' = in_Attempts r → is_started r' = is_started r.
Proof. unfold is_started. by intros -> ->. Qed.

(** ** The parts of the invariant under an update of one input *)

Section effects.
Context `{Codec}.
Implicit Types (s : MemoryStore) (r : SessionInputRecord).

Lemma lane_update s s' r r' :
  lane_inv s → inputs s !! in_InputID r = Some r → in_key r' = in_key r → input_ok r' →
  (is_started r' = true → is_started r = true ∨
     ∀ k r2, inputs s !! k = Some r2 → in_SessionID r2 = in_SessionID r → is_started r2 = false) →
  inputs s' = <[in_InputID r := r']> (inputs s) → inputCounters s' = inputCounters s →
  lane_inv s'.
Proof.
  intros L Hr Hkey Hok Hst Hi Hc.
  destruct (in_key_fields _ _ Hkey) as (Hid & Hsid & _ & _ & _ & Hseq & _).
  destruct (lane_key _ L _ _ Hr) as (_ & Htrim & Hne & Hts & Hns & _).
  constructor; rewrite ?Hi, ?Hc.
  - intros k r1 [[<- <-]|[? H1]]%lookup_insert_Some; [|by apply (lane_key _ L)].
    by rewrite Hid, Hsid.
  - intros k r1 [[<- <-]|[? H1]]%lookup_insert_Some; [|by apply (lane_seq _ L k)].
    rewrite Hseq, Hsid. by apply (lane_seq _ L (in_InputID r)).
  - intros k1 k2 r1 r2 [[<- <-]|[? H1]]%lookup_insert_Some [[<- <-]|[? H2]]%lookup_insert_Some;
      rewrite ?Hseq, ?Hsid; try done; intros ??; by eapply (lane_order _ L).
  - intros k1 k2 r1 r2 [[<- <-]|[? H1]]%lookup_insert_Some [[<- <-]|[? H2]]%lookup_insert_Some; rewrite ?Hsid.
    + done.
    + intros Hs Hs1 Hs2. destruct (Hst Hs1) as [Hs1'|Hno]; [by eapply (lane_single _ L)|].
      rewrite (Hno k2 r2 H2) in Hs2; [done|congruence].
    + intros Hs Hs1 Hs2. destruct (Hst Hs2) as [Hs2'|Hno]; [by eapply (lane_single _ L)|].
      rewrite (Hno k1 r1 H1) in Hs1; [done|congruence].
    + intros Hs Hs1 Hs2. by eapply (lane_single _ L).
  - apply (lane_counters _ L).
Qed.

Lemma source_update s s' r r' :
  source_inv s → inputs s !! in_InputID r = Some r → in_key r' = in_key r →
  inputs s' = <[in_InputID r := r']> (inputs s) → inputSources s' = inputSources s →
  source_inv s'.
Proof.
  intros L Hr Hkey Hi Hs. constructor; rewrite ?Hi, ?Hs.
  - intros k r1 [[<- <-]|[? H1]]%lookup_insert_Some; [|by apply (source_known _ L)].
    rewrite (source_of_key _ _ Hkey). by apply (source_known _ L).
  - intros src k Hsrc. destruct (source_input _ L _ _ Hsrc) as (r1 & H1 & <-).
    destruct (decide (k = in_InputID r)) as [->|Hne].
    + exists r'. rewrite lookup_insert_eq. split; [done|]. rewrite (source_of_key _ _ Hkey). congruence.
    + exists r1. by rewrite lookup_insert_ne.
Qed.

Definition claim_ok s r : Prop :=
  holds_claim r = true →
  ∃ l, leases s !! in_SessionID r = Some l ∧ 0 < in_ClaimFence r <= sl_FenceToken l ∧
       (in_ClaimFence r = sl_FenceToken l → TrimSpace (in_ClaimOwner r) = sl_OwnerID l).

Lemma lease_update s s' k r' :
  lease_inv s → claim_ok s r' → inputs s' = <[k := r']> (inputs s) → leases s' = leases s → lease_inv s'.
Proof.
  intros L Hc Hi Hl. constructor; rewrite ?Hi, ?Hl; [apply (lease_ok _ L)|].
  intros k1 r1 [[<- <-]|[? H1]]%lookup_insert_Some; [exact Hc|by apply (lease_claim _ L k1)].
Qed.

Lemma event_update s s' r r' :
  event_inv s → inputs s !! in_InputID r = Some r → in_Status r ≠ InputStatusDead →
  in_Status r' ≠ InputStatusDead →
  inputs s' = <[in_InputID r := r']> (inputs s) → terminalEvents s' = terminalEvents s → event_inv s'.
Proof.
  intros L Hr Hn Hn' Hi He. constructor; rewrite ?Hi, ?He.
  - intros k r1 [[<- <-]|[? H1]]%lookup_insert_Some Hd; [done|by apply (event_dead _ L k)].
  - intros key e Hke. destruct (event_input _ L _ _ Hke) as (k & r1 & H1 & Hd & -> & ->).
    exists k, r1. rewrite lookup_insert_ne; [done|]. intros <-. congruence.
Qed.

(** The turns are untouched, the input keeps the name of its turn. *)
Lemma turn_update s s' r r' :
  turn_inv s → inputs s !! in_InputID r = Some r → in_key r' = in_key r → in_TurnID r' = in_TurnID r →
  (∀ t, tr_InputID t = in_InputID r → turn_agrees t r → turn_agrees t r') →
  inputs s' = <[in_InputID r := r']> (inputs s) → turns s' = turns s → turnByInput s' = turnByInput s →
  turn_inv s'.
Proof.
  intros L Hr Hkey Ht Hag Hi Htu Hb. destruct (in_key_fields _ _ Hkey) as (Hid & Hsid & _).
  constructor; rewrite ?Hi, ?Htu, ?Hb.
  - apply (turn_key _ L).
  - intros i k Hik. destruct (turn_link _ L _ _ Hik) as (t & r1 & H1 & H2 & H3 & H4 & H5 & H6).
    destruct (decide (i = in_InputID r)) as [->|Hne].
    + assert (r1 = r) as -> by congruence. exists t, r'. rewrite lookup_insert_eq, Hsid, Ht.
      repeat (split; [done|]). by apply Hag.
    + exists t, r1. by rewrite lookup_insert_ne.
  - intros i r1 [[<- <-]|[? H1]]%lookup_insert_Some Hne; [|by apply (turn_back _ L)].
    rewrite Ht in Hne |- *. by apply (turn_back _ L).
Qed.

(** The turn of the input is updated with it. *)
Lemma turn_update_both s s' r r' t t' :
  turn_inv s → inputs s !! in_InputID r = Some r → in_key r' = in_key r → in_TurnID r' = in_TurnID r →
  turns s !! tr_TurnID t = Some t → tr_key t' = tr_key t → tr_InputID t = in_InputID r → turn_agrees t' r' →
  tr_Status t' ∈ live_statuses ++ [TurnStatusWaitingInterrupt; TurnStatusCommitted; TurnStatusDead] →
  inputs s' = <[in_InputID r := r']> (inputs s) → turns s' = <[tr_TurnID t := t']> (turns s) →
  turnByInput s' = turnByInput s → turn_inv s'.
Proof.
  intros L Hr Hkey Ht Htt Htk Hti Hag Hst Hi Htu Hb.
  destruct (in_key_fields _ _ Hkey) as (Hid & Hsid & _).
  destruct (tr_key_fields _ _ Htk) as (Htid & Htin & Hts).
  destruct (turn_key _ L _ _ Htt) as (_ & K1 & K2 & K3 & _).
  constructor; rewrite ?Hi, ?Htu, ?Hb.
  - intros k t1 [[<- <-]|[? H1]]%lookup_insert_Some; [|by apply (turn_key _ L)]. by rewrite Htid, Htin.
  - intros i k Hik. destruct (turn_link _ L _ _ Hik) as (t1 & r1 & H1 & H2 & H3 & H4 & H5 & H6).
    destruct (decide (i = in_InputID r)) as [->|Hne].
    + assert (r1 = r) as -> by congruence. assert (k = tr_TurnID t) as -> by congruence.
      assert (t1 = t) as -> by congruence.
      exists t', r'. rewrite !lookup_insert_eq, Hsid, Ht, Htin, Hts. done.
    + exists t1, r1. rewrite !lookup_insert_ne; [done| |congruence].
      intros <-. apply Hne. congruence.
  - intros i r1 [[<- <-]|[? H1]]%lookup_insert_Some Hne; [|by apply (turn_back _ L)].
    rewrite Ht in Hne |- *. by apply (turn_back _ L).
Qed.

(** ** Events of the dead *)

Lemma append_inj_l (p a b : string) : p +:+ a = p +:+ b → a = b.
Proof. induction p as [|c p IH]; [done|]. intros [=]. by apply IH. Qed.

Lemma append_inj_r (a b q : string) : a +:+ q = b +:+ q → a = b.
Proof.
  intros E%(f_equal String.list_ascii_of_string). rewrite !list_ascii_of_string_app in E.
  apply app_inv_tail in E.
  by rewrite <-(String.string_of_list_ascii_of_string a), E, String.string_of_list_ascii_of_string.
Qed.

Lemma death_key r :
  ev_SourceKey (death_event r) =
    if negb (bool_decide (TrimSpace (in_TurnID r) = "")) then "turn:" +:+ TrimSpace (in_TurnID r) +:+ ":dead"
    else "input:" +:+ TrimSpace (in_InputID r) +:+ ":dead".
Proof. reflexivity. Qed.

(** The events of two inputs have two keys. *)
Lemma death_key_inj s k1 k2 r1 r2 :
  lane_inv s → turn_inv s → inputs s !! k1 = Some r1 → inputs s !! k2 = Some r2 →
  ev_SourceKey (death_event r1) = ev_SourceKey (death_event r2) → k1 = k2.
Proof.
  intros L T H1 H2. rewrite !death_key.
  destruct (lane_key _ L _ _ H1) as (I1 & Tr1 & _). destruct (lane_key _ L _ _ H2) as (I2 & Tr2 & _).
  assert (∀ k r, inputs s !! k = Some r → TrimSpace (in_TurnID r) = in_TurnID r) as Htrim.
  { intros k r Hr. destruct (decide (in_TurnID r = "")) as [->|Hne]; [done|].
    destruct (turn_link _ T _ _ (turn_back _ T _ _ Hr Hne)) as (t & _ & Ht & _).
    by destruct (turn_key _ T _ _ Ht) as (_ & ? & _). }
  rewrite (Htrim _ _ H1), (Htrim _ _ H2), I1, I2, Tr1, Tr2.
  do 2 (case_bool_decide; cbn [negb]).
  - by intros E%append_inj_l%append_inj_r.
  - by intros [=].
  - by intros [=].
  - intros E%append_inj_l%append_inj_r.
    pose proof (turn_back _ T _ _ H1 ltac:(done)) as B1.
    pose proof (turn_back _ T _ _ H2 ltac:(done)) as B2. rewrite <-E in B2.
    destruct (turn_link _ T _ _ B1) as (t1 & _ & Ht1 & E1 & _).
    destruct (turn_link _ T _ _ B2) as (t2 & _ & Ht2 & E2 & _). congruence.
Qed.

Lemma death_event_ext r r' :
  in_key r' = in_key r → in_TurnID r' = in_TurnID r → death_event r' = death_event r.
Proof.
  intros Hk Ht. destruct (in_key_fields _ _ Hk) as (H1 & H2 & H3 & _).
  unfold death_event, terminalFailureEvent. by rewrite Ht, H1, H2, H3.
Qed.

Lemma recorded s r turnID :
  terminalEvents (recordTerminalFailureLocked s r turnID) =
    match terminalEvents s !! ev_SourceKey (terminalFailureEvent r turnID) with
    | Some _ => terminalEvents s
    | None => <[ev_SourceKey (terminalFailureEvent r turnID) := terminalFailureEvent r turnID]> (terminalEvents s)
    end.
Proof. unfold recordTerminalFailureLocked. by case_match. Qed.

Lemma event_death s s' r r' :
  event_inv s → lane_inv s → turn_inv s → inputs s !! in_InputID r = Some r → in_Status r ≠ InputStatusDead →
  in_key r' = in_key r → in_TurnID r' = in_TurnID r → in_Status r' = InputStatusDead →
  inputs s' = <[in_InputID r := r']> (inputs s) →
  terminalEvents s' = terminalEvents (recordTerminalFailureLocked s r' (in_TurnID r')) → event_inv s'.
Proof.
  intros E L T Hr Hn Hkey Ht Hd Hi He. fold (death_event r') in *.
  rewrite recorded in He. fold (death_event r') in He. pose proof (death_event_ext _ _ Hkey Ht) as Hde.
  assert (terminalEvents s !! ev_SourceKey (death_event r') = None) as Hnone.
  { destruct (terminalEvents s !! _) as [e|] eqn:Eq; [|done]. exfalso.
    destruct (event_input _ E _ _ Eq) as (k & r1 & H1 & Hd1 & Hk & _). rewrite Hde in Hk.
    pose proof (death_key_inj _ _ _ _ _ L T Hr H1 Hk) as <-. congruence. }
  rewrite Hnone in He. constructor; rewrite ?Hi, ?He.
  - intros k r1 [[<- <-]|[Hne H1]]%lookup_insert_Some Hd1; [by rewrite lookup_insert_eq|].
    rewrite lookup_insert_ne; [by apply (event_dead _ E k)|]. rewrite Hde. intros Hk.
    by apply Hne, (death_key_inj _ _ _ _ _ L T Hr H1 Hk).
  - intros key e [[<- <-]|[Hne H1]]%lookup_insert_Some.
    + exists (in_InputID r), r'. by rewrite lookup_insert_eq.
    + destruct (event_input _ E _ _ H1) as (k & r1 & H2 & Hd1 & -> & ->).
      exists k, r1. rewrite lookup_insert_ne; [done|]. intros <-. congruence.
Qed.

(** ** Moves of an input *)

Lemma input_move_ok r r' : input_ok r → input_move r r' → input_ok r'.
Proof.
  intros Hok (_ & _ & Ha & Hm). pose proof (holds_is_started r Hok) as Hs.
  destruct Hok as (_ & Hnn & _ & _). unfold input_ok. rewrite Ha.
  assert (is_started r = true → 0 < in_Attempts r) as Hpos by (intros (? & _)%is_started_spec; done).
  destruct Hm as [(Hh & Hh' & _ & _ & Hl)|[(Hu & Hh & Hst)|(Hu & Hst & _ & Hd)]].
  - rewrite Hh'. apply holds_claim_status in Hh'. specialize (Hpos (Hs Hh)).
    destruct Hh' as [-> | ->]; (split; [set_solver|]; split; [done|]; split; [split; [done|lia]|done]).
  - specialize (Hpos (Hs Hh)).
    assert (holds_claim r' = false) as ->.
    { unfold holds_claim. set_unfold in Hst. by destruct Hst as [-> |[-> |[-> |[]]]]. }
    set_unfold in Hst. destruct Hst as [-> |[-> |[-> |[]]]];
      (split; [set_solver|]; split; [done|]; split; [split; [done|lia]|done]).
  - specialize (Hpos Hst). assert (holds_claim r' = false) as -> by (unfold holds_claim; by rewrite Hd).
    rewrite Hd. split; [set_solver|]; split; [done|]; split; [split; [done|lia]|done].
Qed.

Lemma input_move_started r r' : input_ok r → input_move r r' → is_started r = true.
Proof. intros Hok (_ & _ & _ & [(?&_)|[(_&?&_)|(_&?&_)]]); [by apply holds_is_started..|done]. Qed.

(** An open input has an open turn. *)
Lemma started_turn_open t r : is_started r = true → turn_agrees t r → isTerminalTurnStatus (tr_Status t) = false.
Proof.
  intros (_ & Hnr & Hnd)%is_started_spec [H1 H2]. unfold isTerminalTurnStatus.
  rewrite !orb_false_iff, !bool_decide_eq_false. repeat split; intros E; [apply Hnr, H1|apply Hnr, H1|by apply Hnd, H2];
    rewrite E; set_solver.
Qed.

Lemma open_turn_agrees t r : isTerminalTurnStatus (tr_Status t) = false → turn_agrees t r.
Proof.
  unfold isTerminalTurnStatus. rewrite !orb_false_iff, !bool_decide_eq_false. intros [[H1 H2] H3].
  split; [intros [?|[?|[]%not_elem_of_nil]%elem_of_cons]%elem_of_cons; done|done].
Qed.

Lemma input_move_claim s r r' : lease_inv s → inputs s !! in_InputID r = Some r → input_move r r' → claim_ok s r'.
Proof.
  intros L Hr (Hk & _ & _ & Hm) Hh'. destruct (in_key_fields _ _ Hk) as (_ & -> & _).
  destruct Hm as [(Hh & _ & -> & -> & _)|Hm]; [by apply (lease_claim _ L _ _ Hr)|]. exfalso.
  assert (in_Status r' ∈ [InputStatusRetryWait; InputStatusResolved; InputStatusDead]) as Hst
    by (destruct Hm as [(_&_&?)|(_&_&_& ->)]; [done|set_solver]).
  unfold holds_claim in Hh'. set_unfold in Hst. by destruct Hst as [E|[E|[E|[]]]]; rewrite E in Hh'.
Qed.

(** ** The lane effect *)

Lemma announced_fields s r :
  inputs (announce_death s r) = inputs s ∧ inputCounters (announce_death s r) = inputCounters s ∧
  inputSources (announce_death s r) = inputSources s ∧ leases (announce_death s r) = leases s ∧
  turns (announce_death s r) = turns s ∧ turnByInput (announce_death s r) = turnByInput s ∧
  continuations (announce_death s r) = continuations s ∧ commands (announce_death s r) = commands s ∧
  commandKeys (announce_death s r) = commandKeys s.
Proof.
  unfold announce_death, recordTerminalFailureLocked.
  destruct (bool_decide _); [|done]. by destruct (terminalEvents s !! _).
Qed.

Lemma lane_effect_inv s s' r r' t' :
  session_inv s → inputs s !! in_InputID r = Some r → input_move r r' →
  match t' with
  | Some t' => ∃ t, turns s !! tr_TurnID t' = Some t ∧ turn_move t t' ∧ tr_InputID t = in_InputID r ∧ turn_agrees t' r'
  | None => True
  end →
  s' = put_input (put_turn_opt (announce_death s r') t') r' → session_inv s'.
Proof.
  intros [L S E T V] Hr Hm Ht Hs'.
  assert (input_ok r) as Hok by (by destruct (lane_key _ L _ _ Hr) as (_&_&_&_&_&?)).
  pose proof (input_move_started _ _ Hok Hm) as Hst.
  pose proof Hm as (Hkey & HT & Ha & _).
  destruct (in_key_fields _ _ Hkey) as (Hid & _).
  destruct (announced_fields s r') as (F1 & F2 & F3 & F4 & F5 & F6 & F7 & F8 & F9).
  assert (inputs s' = <[in_InputID r := r']> (inputs s) ∧ inputCounters s' = inputCounters s ∧
          inputSources s' = inputSources s ∧ leases s' = leases s ∧ turnByInput s' = turnByInput s ∧
          continuations s' = continuations s ∧ terminalEvents s' = terminalEvents (announce_death s r'))
    as (G1 & G2 & G3 & G4 & G5 & G6 & G7).
  { subst s'. destruct t'; cbn; rewrite ?F1, ?Hid; done. }
  constructor.
  - eapply (lane_update s s' r r'); eauto using input_move_ok.
  - by eapply (source_update s s' r r').
  - eapply (lease_update s s'); eauto using input_move_claim.
  - destruct t' as [t'|].
    + destruct Ht as (t & H1 & H2 & H3 & H4). pose proof H2 as (H5 & _ & H6 & _).
      destruct (tr_key_fields _ _ H5) as (H7 & _).
      assert (tr_TurnID t = tr_TurnID t') as H8 by congruence. rewrite <-H8 in H1.
      eapply (turn_update_both s s' r r' t t'); try done.
      * destruct (turn_key _ T _ _ H1) as (_&_&_&_&H9). apply elem_of_cons in H6 as [-> |H6]; done.
      * subst s'. cbn. by rewrite F5, H8.
    + eapply (turn_update s s' r r'); try done; [|subst s'; done].
      intros t Hti Hag. apply open_turn_agrees. by eapply started_turn_open.
  - apply is_started_spec in Hst as (_ & _ & Hnd).
    destruct (decide (in_Status r' = InputStatusDead)) as [Hd|Hd].
    + eapply (event_death s s' r r'); try done. rewrite G7. unfold announce_death. by rewrite bool_decide_true.
    + eapply (event_update s s' r r'); try done. rewrite G7. unfold announce_death. by rewrite bool_decide_false.
Qed.

(** ** The other effects *)

(** Nothing but leases, continuations, commands or the like has changed: the
    parts that do not speak of them carry over. *)
Lemma lane_same s s' :
  lane_inv s → inputs s' = inputs s → inputCounters s' = inputCounters s → lane_inv s'.
Proof. intros [] Hi Hc. constructor; rewrite ?Hi, ?Hc; assumption. Qed.

Lemma source_same s s' :
  source_inv s → inputs s' = inputs s → inputSources s' = inputSources s → source_inv s'.
Proof. intros [] Hi Hc. constructor; rewrite ?Hi, ?Hc; assumption. Qed.

Lemma lease_same s s' : lease_inv s → inputs s' = inputs s → leases s' = leases s → lease_inv s'.
Proof. intros [] Hi Hc. constructor; rewrite ?Hi, ?Hc; assumption. Qed.

Lemma turn_same s s' :
  turn_inv s → inputs s' = inputs s → turns s' = turns s → turnByInput s' = turnByInput s → turn_inv s'.
Proof. intros [] Hi Hc Hb. constructor; rewrite ?Hi, ?Hc, ?Hb; assumption. Qed.

Lemma event_same s s' :
  event_inv s → inputs s' = inputs s → terminalEvents s' = terminalEvents s → event_inv s'.
Proof. intros [] Hi Hc. constructor; rewrite ?Hi, ?Hc; assumption. Qed.

Lemma lease_effect_inv s k l :
  session_inv s → (TrimSpace k = k → lease_move k (leases s !! k) l) →
  session_inv (s <| leases := <[k := l]> (leases s) |>).
Proof.
  intros [L S E T V] Hm. constructor; [by eapply lane_same|by eapply source_same| |by eapply turn_same|by eapply event_same].
  constructor; cbn.
  - intros k1 l1 Hk1 [[<- <-]|[? H1]]%lookup_insert_Some; [|by apply (lease_ok _ E)].
    destruct (Hm Hk1) as (H1 & H2 & H3). destruct (leases s !! k) as [l0|] eqn:E0.
    + destruct (lease_ok _ E _ _ Hk1 E0) as (H4 & H5 & H6 & H7).
      destruct H3 as [H3 H8]. repeat split; try done; [by destruct H3; congruence|destruct H8; lia].
    + destruct H3 as [H3 H8]. repeat split; try done. lia.
  - intros k1 r1 H1 Hh. destruct (lease_claim _ E _ _ H1 Hh) as (l0 & H2 & H3 & H4).
    destruct (lane_key _ L _ _ H1) as (_ & _ & _ & Htrim & _).
    destruct (decide (in_SessionID r1 = k)) as [<-|Hne]; [|exists l0; by rewrite lookup_insert_ne].
    exists l. rewrite lookup_insert_eq. split; [done|].
    destruct (Hm Htrim) as (_ & _ & Hm'). rewrite H2 in Hm'.
    destruct Hm' as (_ & [[-> ->]|Hm']); [done|]. split; [lia|]. intros. lia.
Qed.

Lemma enqueue_effect_inv s r :
  session_inv s →
  TrimSpace (in_InputID r) = in_InputID r → in_InputID r ≠ "" →
  TrimSpace (in_SessionID r) = in_SessionID r → in_SessionID r ≠ "" →
  inputs s !! in_InputID r = None → inputSources s !! source_of r = None →
  in_EnqueueSeq r = counter_at (inputCounters s) (in_SessionID r) + 1 →
  in_Status r = InputStatusPending → in_Attempts r = 0 → in_TurnID r = "" → unclaimed r →
  session_inv (s <| inputCounters := <[in_SessionID r := in_EnqueueSeq r]> (inputCounters s) |>
                <| inputs := <[in_InputID r := r]> (inputs s) |>
                <| inputSources := <[source_of r := in_InputID r]> (inputSources s) |>).
Proof.
  intros [L S E T V] Hti Hni Hts Hns Hfresh Hsrc Hseq Hst Hatt Hturn Hun.
  assert (is_started r = false) as Hnst by (unfold is_started; by rewrite Hatt).
  assert (holds_claim r = false) as Hnh by (unfold holds_claim; by rewrite Hst).
  assert (∀ sid, counter_at (<[in_SessionID r := in_EnqueueSeq r]> (inputCounters s)) sid
                 = if decide (sid = in_SessionID r) then in_EnqueueSeq r else counter_at (inputCounters s) sid) as Hcnt.
  { intros sid. unfold counter_at. case_decide as Hd; [subst; by rewrite lookup_insert_eq|].
    rewrite lookup_insert_ne; [done|congruence]. }
  pose proof (lane_counters _ L) as Hnn.
  assert (∀ k r1, inputs s !! k = Some r1 → in_SessionID r1 = in_SessionID r → in_EnqueueSeq r1 ≠ in_EnqueueSeq r) as Hlt.
  { intros k r1 H1 Hs Heq. pose proof (lane_seq _ L _ _ H1) as Hb. rewrite Hs in Hb. lia. }
  constructor.
  - constructor; cbn.
    + intros k r1 [[<- <-]|[? H1]]%lookup_insert_Some; [|by apply (lane_key _ L)].
      repeat (split; [done|]). unfold input_ok. rewrite Hnh, Hst, Hatt.
      split; [set_solver|]. done.
    + intros k r1 [[<- <-]|[? H1]]%lookup_insert_Some; rewrite Hcnt.
      * rewrite decide_True by done. specialize (Hnn (in_SessionID r)). lia.
      * pose proof (lane_seq _ L _ _ H1) as Hb. case_decide as Hd; [|done]. rewrite Hd in Hb. lia.
    + intros k1 k2 r1 r2 [[<- <-]|[? H1]]%lookup_insert_Some [[<- <-]|[? H2]]%lookup_insert_Some Hs Hq; try done.
      * exfalso. by apply (Hlt _ _ H2).
      * exfalso. by apply (Hlt _ _ H1).
      * by eapply (lane_order _ L).
    + intros k1 k2 r1 r2 [[<- <-]|[? H1]]%lookup_insert_Some [[<- <-]|[? H2]]%lookup_insert_Some Hs Hq1 Hq2;
        try congruence. by eapply (lane_single _ L).
    + intros k. rewrite Hcnt. specialize (Hnn (in_SessionID r)). case_decide; [lia|apply (lane_counters _ L)].
  - constructor; cbn.
    + intros k r1 [[<- <-]|[? H1]]%lookup_insert_Some; [by rewrite lookup_insert_eq|].
      rewrite lookup_insert_ne; [by apply (source_known _ S)|]. intros Heq.
      pose proof (source_known _ S _ _ H1). congruence.
    + intros src k [[<- <-]|[? H1]]%lookup_insert_Some; [exists r; by rewrite lookup_insert_eq|].
      destruct (source_input _ S _ _ H1) as (r1 & H2 & <-). exists r1. split; [|done].
      rewrite lookup_insert_ne; [done|congruence].
  - eapply (lease_update s _ (in_InputID r) r); [done|intros ?; congruence|done|done].
  - constructor; cbn; [apply (turn_key _ T)| |].
    + intros i k Hik. destruct (turn_link _ T _ _ Hik) as (t & r1 & H1 & H2 & H3 & H4).
      exists t, r1. rewrite lookup_insert_ne; [done|congruence].
    + intros i r1 [[<- <-]|[? H1]]%lookup_insert_Some Hne; [done|by apply (turn_back _ T)].
  - constructor; cbn.
    + intros k r1 [[<- <-]|[? H1]]%lookup_insert_Some Hd; [by rewrite Hst in Hd|by apply (event_dead _ V k)].
    + intros key e Hke. destruct (event_input _ V _ _ Hke) as (k & r1 & H1 & H2).
      exists k, r1. rewrite lookup_insert_ne; [done|congruence].
Qed.

Lemma claim_effect_inv s r r' l :
  session_inv s →
  inputs s !! in_InputID r = Some r → in_key r' = in_key r → in_TurnID r' = in_TurnID r →
  waits r = true → in_Status r' = InputStatusClaimed →
  in_Attempts r' = in_Attempts r + 1 → is_Some (in_LeaseUntil r') →
  leases s !! TrimSpace (in_SessionID r) = Some l → TrimSpace (in_ClaimOwner r') = sl_OwnerID l →
  in_ClaimFence r' = sl_FenceToken l → 0 < sl_FenceToken l →
  (is_started r = true ∨ ∀ k r2, inputs s !! k = Some r2 → in_SessionID r2 = in_SessionID r → is_started r2 = false) →
  session_inv (put_input s r').
Proof.
  intros [L S E T V] Hr Hkey HT Hw Hst Hatt Hlu Hl Ho Hf Hpos Hfree.
  destruct (in_key_fields _ _ Hkey) as (Hid & Hsid & _).
  destruct (lane_key _ L _ _ Hr) as (_ & _ & _ & Htrim & _ & (_ & Hnn & _)).
  rewrite Htrim in Hl. apply waits_status in Hw.
  assert (inputs (put_input s r') = <[in_InputID r := r']> (inputs s)) as Hi by (cbn; by rewrite Hid).
  assert (holds_claim r' = true) as Hh by (apply holds_claim_status; by left).
  constructor.
  - eapply (lane_update s _ r r'); try done.
    unfold input_ok. rewrite Hh, Hst, Hatt. split; [set_solver|]. split; [lia|]. split; [split; [done|lia]|done].
  - by eapply (source_update s _ r r').
  - eapply (lease_update s _ (in_InputID r)); try done. intros _. exists l. rewrite Hsid, Hf. split; [done|]. split; [lia|done].
  - eapply (turn_update s _ r r'); try done. intros t _ [Hag1 Hag2]. apply open_turn_agrees.
    unfold isTerminalTurnStatus. rewrite !orb_false_iff, !bool_decide_eq_false.
    repeat split; intros Ht; [rewrite Hag1 in Hw|rewrite Hag1 in Hw|rewrite (Hag2 Ht) in Hw];
      first [by destruct Hw|rewrite Ht; set_solver].
  - eapply (event_update s _ r r'); try done; [by destruct Hw as [-> | ->]|by rewrite Hst].
Qed.

Lemma create_turn_effect_inv s r r' t :
  session_inv s →
  inputs s !! in_InputID r = Some r → holds_claim r = true →
  in_key r' = in_key r → in_Status r' = in_Status r → in_Attempts r' = in_Attempts r →
  in_ClaimOwner r' = in_ClaimOwner r → in_ClaimFence r' = in_ClaimFence r → in_LeaseUntil r' = in_LeaseUntil r →
  in_TurnID r' = tr_TurnID t → string_at (turnByInput s) (in_InputID r) = "" →
  turns s !! tr_TurnID t = None → TrimSpace (tr_TurnID t) = tr_TurnID t → tr_TurnID t ≠ "" →
  tr_InputID t = in_InputID r → tr_SessionID t = in_SessionID r → tr_Status t = TurnStatusPrepared →
  session_inv ((put_turn (put_input s r') t)
                <| turnByInput := <[in_InputID r := tr_TurnID t]> (turnByInput s) |>).
Proof.
  intros [L S E T V] Hr Hh Hkey Hst Hatt Ho Hf Hlu Htid Hnone Hfresh Htrim Hne Hti Hts Hprep.
  destruct (in_key_fields _ _ Hkey) as (Hid & Hsid & _).
  destruct (lane_key _ L _ _ Hr) as (_ & _ & _ & _ & _ & Hok).
  assert (turnByInput s !! in_InputID r = None) as Hnone'.
  { destruct (turnByInput s !! in_InputID r) as [k|] eqn:Ek; [|done]. exfalso.
    unfold string_at in Hnone. rewrite Ek in Hnone. cbn in Hnone. subst k.
    destruct (turn_link _ T _ _ Ek) as (t1 & _ & Ht1 & _). by destruct (turn_key _ T _ _ Ht1) as (_ & _ & ? & _). }
  set (s' := _ <| turnByInput := _ |>).
  assert (inputs s' = <[in_InputID r := r']> (inputs s)) as Hi by (cbn; by rewrite Hid).
  assert (input_ok r') as Hok'.
  { unfold input_ok, unclaimed in *. by rewrite (holds_claim_ext _ _ Hst), Hst, Hatt, Ho, Hf, Hlu. }
  assert (in_Status r ≠ InputStatusDead) as Hnd by (apply holds_claim_status in Hh; by destruct Hh as [-> | ->]).
  constructor.
  - eapply (lane_update s s' r r'); try done. rewrite (is_started_ext _ _ Hst Hatt). by left.
  - by eapply (source_update s s' r r').
  - eapply (lease_update s s' (in_InputID r) r'); try done. intros _. rewrite Hsid, Ho, Hf.
    by apply (lease_claim _ E _ _ Hr).
  - constructor; rewrite ?Hi; cbn; unfold cloneTurn.
    + intros k t1 [[<- <-]|[? H1]]%lookup_insert_Some.
      * rewrite Hti, lookup_insert_eq, Hprep. repeat (split; [done|]). set_solver.
      * destruct (turn_key _ T _ _ H1) as (H2 & H3 & H4 & H5 & H6).
        rewrite lookup_insert_ne; [done|congruence].
    + intros i k [[<- <-]|[Hi' H1]]%lookup_insert_Some.
      * exists t, r'. rewrite !lookup_insert_eq, Hsid. repeat (split; [done|]).
        apply open_turn_agrees. by rewrite Hprep.
      * destruct (turn_link _ T _ _ H1) as (t1 & r1 & H2 & H3 & H4 & H5).
        exists t1, r1. rewrite !lookup_insert_ne; [done|congruence..].
    + intros i r1 [[<- <-]|[? H1]]%lookup_insert_Some Hne'; [by rewrite lookup_insert_eq, Htid|].
      rewrite lookup_insert_ne by done. by apply (turn_back _ T).
  - eapply (event_update s s' r r'); try done. by rewrite Hst.
Qed.

(** The event of a turn that is dead is already there. *)
Lemma again_effect s r t :
  session_inv s → turns s !! tr_TurnID t = Some t → tr_Status t = TurnStatusDead → inputs s !! tr_InputID t = Some r →
  recordTerminalFailureLocked s r (tr_TurnID t) = s.
Proof.
  intros [L S E T V] Ht Hd Hr. destruct (turn_key _ T _ _ Ht) as (_ & _ & _ & Hk & _).
  destruct (turn_link _ T _ _ Hk) as (t1 & r1 & H1 & _ & H2 & H3 & _ & [_ Hag]).
  assert (t1 = t) as -> by congruence. assert (r1 = r) as -> by congruence.
  pose proof (event_dead _ V _ _ H2 (Hag Hd)) as Hev. unfold death_event in Hev. rewrite H3 in Hev.
  unfold recordTerminalFailureLocked. by rewrite Hev.
Qed.

Lemma effect_inv s s' : effect s s' → session_inv s → session_inv s'.
Proof.
  intros He Hinv. destruct He.
  - by apply enqueue_effect_inv.
  - by apply lease_effect_inv.
  - by eapply claim_effect_inv.
  - by eapply lane_effect_inv.
  - by apply create_turn_effect_inv.
  - by rewrite again_effect.
  - destruct Hinv as [L S E T V].
    constructor; [by eapply lane_same|by eapply source_same|by eapply lease_same|by eapply turn_same|by eapply event_same].
  - destruct Hinv as [L S E T V].
    constructor; [by eapply lane_same|by eapply source_same|by eapply lease_same|by eapply turn_same|by eapply event_same].
Qed.

Lemma effects_inv s s' : rtc effect s s' → session_inv s → session_inv s'.
Proof. induction 1; [done|]. intros. by eauto using effect_inv. Qed.

Lemma initial_inv : session_inv NewMemoryStore.
Proof. constructor; constructor; done. Qed.

(** ** Counters *)

Lemma within_le n m s : n <= m → within n s → within m s.
Proof.
  intros Hle (H1 & H2 & H3). split_and!.
  - intros k. specialize (H1 k). lia.
  - intros k r Hk. specialize (H2 _ _ Hk). lia.
  - intros k l Hk. specialize (H3 _ _ Hk). lia.
Qed.

Lemma within_small n s : n < int64_max → within n s → small s.
Proof.
  intros Hle (H1 & H2 & H3). unfold small, room, int64_min. split_and!.
  - intros k. specialize (H1 k). lia.
  - intros k r Hk. specialize (H2 _ _ Hk). lia.
  - intros k l Hk. specialize (H3 _ _ Hk). lia.
Qed.

(** An input replaced by one with as many attempts. *)
Lemma within_input n s s' r r' :
  within n s → inputs s !! in_InputID r = Some r → in_Attempts r' = in_Attempts r →
  inputs s' = <[in_InputID r := r']> (inputs s) → inputCounters s' = inputCounters s → leases s' = leases s →
  within n s'.
Proof.
  intros (H1 & H2 & H3) Hr Ha Hi Hc Hl. unfold within. rewrite Hi, Hc, Hl. split_and!; try done.
  intros k r1 [[<- <-]|[_ Hk]]%lookup_insert_Some; [rewrite Ha|]; by eapply H2.
Qed.

Lemma lane_effect_within n s r r' t' :
  within n s → inputs s !! in_InputID r = Some r → input_move r r' →
  within n (put_input (put_turn_opt (announce_death s r') t') r').
Proof.
  intros Hw Hr (Hk & _ & Ha & _). destruct (in_key_fields _ _ Hk) as (Hid & _).
  destruct (announced_fields s r') as (F1 & F2 & _ & F4 & _).
  generalize dependent (announce_death s r'). intros s1 F1 F2 F4.
  eapply (within_input n s _ r r'); try done; destruct t'; cbn; unfold cloneInput; rewrite ?F1, ?Hid; done.
Qed.

Lemma lane_quiet s r r' t' :
  inputs s !! in_InputID r = Some r → input_move r r' →
  effect s (put_input (put_turn_opt (announce_death s r') t') r') →
  quiet s (put_input (put_turn_opt (announce_death s r') t') r').
Proof. intros Hr Hm He. split; [done|]. intros n Hw. by apply lane_effect_within with (r := r). Qed.

Lemma same_within n s s' :
  inputs s' = inputs s → inputCounters s' = inputCounters s → leases s' = leases s → within n s → within n s'.
Proof. intros Hi Hc Hl. unfold within. by rewrite Hi, Hc, Hl. Qed.

Lemma effect_within n s s' : session_inv s → effect s s' → within n s → within (n + 1) s'.
Proof.
  intros Hinv He Hw. destruct He as [s r|s k l Hm Htok|s r r' l Hr Hkey|s r r' t' Hr Hm|s r r' t Hr Hh Hkey Hst Ha|s r t Ht Hd Hr|s k c|s cmds' keys'].
  - destruct Hw as (W1 & W2 & W3). split_and!; cbn.
    + intros k. unfold counter_at. destruct (decide (k = in_SessionID r)) as [->|Hne].
      * rewrite lookup_insert_eq. cbn. specialize (W1 (in_SessionID r)). lia.
      * rewrite lookup_insert_ne by congruence. specialize (W1 k). unfold counter_at in W1. lia.
    + intros k r1 [[<- <-]|[_ Hk]]%lookup_insert_Some; [specialize (W1 (in_SessionID r)); lia|].
      specialize (W2 _ _ Hk). lia.
    + intros k l Hk. specialize (W3 _ _ Hk). lia.
  - destruct Hw as (W1 & W2 & W3). split_and!; cbn.
    + intros k1. specialize (W1 k1). lia.
    + intros k1 r1 Hk1. specialize (W2 _ _ Hk1). lia.
    + intros k1 l1 [[<- <-]|[_ Hk]]%lookup_insert_Some; [|specialize (W3 _ _ Hk); lia].
      specialize (W1 k). destruct Htok as [->|(k0 & l0 & Hl0 & Hb)]; [lia|]. specialize (W3 _ _ Hl0). lia.
  - destruct (in_key_fields _ _ Hkey) as (Hid & _). destruct Hw as (W1 & W2 & W3). split_and!; cbn.
    + intros k. specialize (W1 k). lia.
    + intros k r1. rewrite Hid. unfold cloneInput. intros [[<- <-]|[_ Hk]]%lookup_insert_Some; [specialize (W2 _ _ Hr)|specialize (W2 _ _ Hk)]; lia.
    + intros k l1 Hk. specialize (W3 _ _ Hk). lia.
  - apply (within_le n); [lia|]. by apply lane_effect_within with (r := r).
  - destruct (in_key_fields _ _ Hkey) as (Hid & _). apply (within_le n); [lia|].
    eapply (within_input n s _ r r'); try done. cbn. by rewrite Hid.
  - apply (within_le n); [lia|]. by rewrite again_effect.
  - by apply (within_le n); [lia|].
  - by apply (within_le n); [lia|].
Qed.
End effects.
