(* ===== verification/SessionOps.v ===== *)
(** * Session runtime: every command makes effects

    Inversion lemmas for the guards that the methods share, and for each method
    the effects it makes on the store. *)

From Stdlib Require Import ZArith Lia Ascii Sorted.
From S2P Require Import Prelude GoJson SessionModels SessionStore SessionEffects SessionInv.

Lemma incr_room z : room z → incr z = z + 1.
Proof. unfold room, incr. intros H. apply wrap64_id. unfold in_int64, int64_min, int64_max in *. lia. Qed.

(** ** Stable identifiers are trimmed *)

Lemma hex_digit_firm n : (n < 16)%nat → firm_byte (hex_digit n) = true.
Proof. intros Hn. do 16 (destruct n as [|n]; [vm_compute; reflexivity|]). lia. Qed.

Lemma hex_bytes_last s a : last (String.list_ascii_of_string (hex_bytes s)) = Some a → firm_byte a = true.
Proof.
  induction s as [|c s IH]; cbn [hex_bytes String.list_ascii_of_string]; [done|].
  destruct (String.list_ascii_of_string (hex_bytes s)) as [|b l] eqn:E.
  - intros [= <-]. apply hex_digit_firm. lia.
  - intros Hl. apply IH. rewrite <-Hl. by rewrite !last_cons_cons.
Qed.

Lemma firm_hex p s : firm_key p "_" = true → TrimSpace (p +:+ "_" +:+ hex_bytes s) = p +:+ "_" +:+ hex_bytes s.
Proof.
  intros Hp. destruct (last (String.list_ascii_of_string (hex_bytes s))) as [a|] eqn:E.
  - apply TrimSpace_firm. unfold firm_key in *. rewrite E, (hex_bytes_last _ _ E).
    destruct (head _); [|done]. by apply andb_prop in Hp as [-> _].
  - apply last_None in E. destruct s; [|done]. exact (TrimSpace_firm p "" "_" Hp).
Qed.

Section ops.
Context `{Codec} `{Clock} {X : Type}.
Implicit Types (w : sworld X) (s : MemoryStore).

Lemma StableTurnID_trimmed sid i : TrimSpace (StableTurnID sid i) = StableTurnID sid i.
Proof. exact (firm_hex "turn" (String.substring 0 16 _) eq_refl). Qed.

(** ** What a command does *)

Lemma no_effect s : command_effect s s.
Proof. exists s. split; [apply rtc_refl|by left]. Qed.

#[local] Hint Resolve no_effect : core.

Lemma one_effect s s' : effect s s' → command_effect s s'.
Proof. intros He. exists s. split; [apply rtc_refl|by right]. Qed.

Lemma quiet_effects s s' : rtc quiet s s' → command_effect s s'.
Proof. intros He. exists s'. split; [done|by left]. Qed.

Lemma quiet_then s s1 s' : rtc quiet s s1 → effect s1 s' → command_effect s s'.
Proof. intros He Hl. exists s1. split; [done|by right]. Qed.

Lemma quiet_rtc s s' : rtc quiet s s' → rtc effect s s'.
Proof. induction 1 as [|s s1 s' [He _] _ IH]; [apply rtc_refl|by eapply rtc_l]. Qed.

Lemma command_effect_rtc s s' : command_effect s s' → rtc effect s s'.
Proof. intros (s1 & Hq%quiet_rtc & [-> | He]); [done|]. by eapply rtc_r. Qed.

Lemma command_effect_within n s s' :
  session_inv s → command_effect s s' → within n s → within (n + 1) s'.
Proof.
  intros Hi (s1 & Hq & Hlast) Hw.
  assert (within n s1) as Hw1.
  { clear Hlast Hi. induction Hq as [|s s1 s2 [_ Hk] _ IH]; [done|]. by apply IH, Hk. }
  pose proof (effects_inv _ _ (quiet_rtc _ _ Hq) Hi) as Hi1.
  destruct Hlast as [<- | He]; [apply (within_le n); [lia|done]|by eapply effect_within].
Qed.

(** ** The shared guards *)

Lemma validateFence_Ok s f now l :
  validateFenceLocked s f now = Ok l →
  leases s !! TrimSpace (fn_SessionID f) = Some l ∧ TrimSpace (fn_SessionID f) ≠ "" ∧
  sl_OwnerID l = TrimSpace (fn_OwnerID f) ∧ TrimSpace (fn_OwnerID f) ≠ "" ∧
  sl_FenceToken l = fn_FenceToken f ∧ 0 < fn_FenceToken f ∧ now < sl_LeaseUntil l.
Proof.
  unfold validateFenceLocked. cbn. destruct (leases s !! _) as [l'|]; [|done].
  destruct (_ || _) eqn:E; [done|]. intros [= ->].
  rewrite !orb_false_iff, !negb_false_iff, !bool_decide_eq_false, bool_decide_eq_true in E.
  unfold After in E. rewrite Z.eqb_eq, Z.leb_gt, Z.ltb_lt in E. naive_solver.
Qed.

Lemma with_fence_inv {A} f (k : Time → SessionRuntimeLease → Eff (sworld X) (result A)) w a w' :
  with_fence f k w = (a, w') →
  (∃ e, a = Err e ∧ sw_store w' = sw_store w) ∨
  (∃ now l w1, sw_store w1 = sw_store w ∧ validateFenceLocked (sw_store w) f now = Ok l ∧ k now l w1 = (a, w')).
Proof.
  unfold with_fence, bind, s_now, get_store, fail, ret. cbn.
  destruct (validateFenceLocked _ _ _) as [l|e] eqn:E; intros Hk; [right|left].
  - eexists _, _, _. split; [|split; [exact E|exact Hk]]. done.
  - exists e. by injection Hk as <- <-.
Qed.

Lemma commit_inv {A} s (a : A) w r w' : commit s a w = (r, w') → r = Ok a ∧ sw_store w' = s.
Proof. by intros [= <- <-]. Qed.

(** The input is the fence's claim. *)
Definition claimed_by (f : Fence) (s : MemoryStore) (id : string) (r : SessionInputRecord) : Prop :=
  inputs s !! TrimSpace id = Some r ∧ in_SessionID r = fn_SessionID f ∧ in_ClaimOwner r = fn_OwnerID f ∧
  in_ClaimFence r = fn_FenceToken f ∧ holds_claim r = true ∧ is_Some (in_LeaseUntil r).

Lemma claimed_inv f id w a w' :
  claimedInputLocked f id claimed_or_running w = (a, w') →
  sw_store w' = sw_store w ∧ ∀ r, a = Ok r → claimed_by f (sw_store w) id r.
Proof.
  unfold claimedInputLocked, bind, get_store, fail, ret. cbn.
  destruct (inputs _ !! _) as [r|] eqn:Er; [|by intros [= <- <-]].
  destruct (_ || _) eqn:E1; [by intros [= <- <-]|].
  destruct (in_LeaseUntil r) as [until|] eqn:El; [|by intros [= <- <-]]. cbn.
  destruct (After until _); cbn [negb]; [|by intros [= <- <-]].
  destruct (_ || (_ || false)) eqn:E2; cbn [negb]; [|by intros [= <- <-]].
  intros [= <- <-]. split; [done|]. intros r' [= <-].
  rewrite !orb_false_iff, !negb_false_iff, !bool_decide_eq_true, Z.eqb_eq in E1.
  rewrite orb_false_r in E2. destruct E1 as [[? ?] ?].
  repeat (split; [done|]). by rewrite El.
Qed.

Lemma try_claimed_inv {A} f id (k : SessionInputRecord → Eff (sworld X) (result A)) w a w' :
  bind_ok (claimedInputLocked f id claimed_or_running) k w = (a, w') →
  (∃ e, a = Err e ∧ sw_store w' = sw_store w) ∨
  (∃ r w1, sw_store w1 = sw_store w ∧ claimed_by f (sw_store w) id r ∧ k r w1 = (a, w')).
Proof.
  unfold bind_ok. destruct (claimedInputLocked _ _ _ w) as [[r|e] w1] eqn:E; intros Hk;
    apply claimed_inv in E as [Hs Hr]; [right; eauto 10|left].
  injection Hk as <- <-. eauto.
Qed.

Lemma try_turn_inv {A} f id (k : SessionTurnRun * SessionInputRecord → Eff (sworld X) (result A)) w a w' :
  bind_ok (turnAndClaimedInputLocked f id) k w = (a, w') →
  (∃ e, a = Err e ∧ sw_store w' = sw_store w) ∨
  (∃ t r w1, sw_store w1 = sw_store w ∧ turns (sw_store w) !! TrimSpace id = Some t ∧
             tr_SessionID t = fn_SessionID f ∧ claimed_by f (sw_store w) (tr_InputID t) r ∧ k (t, r) w1 = (a, w')).
Proof.
  unfold bind_ok at 1, turnAndClaimedInputLocked, bind at 1, get_store, fail, ret. cbn.
  destruct (turns _ !! _) as [t|] eqn:Et; [|intros [= <- <-]; eauto].
  destruct (bool_decide _) eqn:Es; cbn [negb]; [|intros [= <- <-]; eauto].
  apply bool_decide_eq_true in Es.
  destruct (bind_ok _ _ w) as [b w1] eqn:E. apply try_claimed_inv in E as [(e & -> & Hs)|(r & w2 & Hs & Hc & [= <- <-])].
  - intros [= <- <-]. eauto.
  - intros Hk. right. exists t, r, w2. done.
Qed.

(** ** Effects on the lane *)

Lemma effect_alive s r r' t' :
  inputs s !! in_InputID r = Some r → input_move r r' → in_Status r' ≠ InputStatusDead →
  match t' with
  | Some t' => ∃ t, turns s !! tr_TurnID t' = Some t ∧ turn_move t t' ∧ tr_InputID t = in_InputID r ∧ turn_agrees t' r'
  | None => True
  end →
  effect s (put_input (put_turn_opt s t') r').
Proof.
  intros Hr Hm Hd Ht. pose proof (eff_lane s r r' t' Hr Hm Ht) as He.
  unfold announce_death in He. by rewrite bool_decide_false in He.
Qed.

Lemma effect_dead s r r' t' r0 turnID :
  inputs s !! in_InputID r = Some r → input_move r r' → in_Status r' = InputStatusDead →
  terminalFailureEvent r0 turnID = death_event r' →
  match t' with
  | Some t' => ∃ t, turns s !! tr_TurnID t' = Some t ∧ turn_move t t' ∧ tr_InputID t = in_InputID r ∧ turn_agrees t' r'
  | None => True
  end →
  effect s (put_input (put_turn_opt (recordTerminalFailureLocked s r0 turnID) t') r').
Proof.
  intros Hr Hm Hd Hev Ht. pose proof (eff_lane s r r' t' Hr Hm Ht) as He.
  unfold announce_death in He. rewrite bool_decide_true in He by done.
  unfold recordTerminalFailureLocked, death_event in *. by rewrite Hev.
Qed.

(** The two forms in which the methods show them. *)
Definition turn_moves (s : MemoryStore) (r r' : SessionInputRecord) (t t' : SessionTurnRun) : Prop :=
  turns s !! tr_TurnID t = Some t ∧ tr_InputID t = in_InputID r ∧ turn_move t t' ∧ turn_agrees t' r'.

Lemma turn_moves_opt s r r' t t' :
  turn_moves s r r' t t' →
  ∃ t, turns s !! tr_TurnID t' = Some t ∧ turn_move t t' ∧ tr_InputID t = in_InputID r ∧ turn_agrees t' r'.
Proof.
  intros (H1 & H2 & H3 & H4). exists t. destruct H3 as [Hk Hm].
  destruct (tr_key_fields _ _ Hk) as (-> & _). done.
Qed.

Lemma effect_alive_alone s r r' :
  inputs s !! in_InputID r = Some r → input_move r r' → in_Status r' ≠ InputStatusDead →
  effect s (put_input s r').
Proof. intros Hr Hm Hd. exact (effect_alive s r r' None Hr Hm Hd I). Qed.

Lemma effect_alive_turn s r r' t t' :
  inputs s !! in_InputID r = Some r → input_move r r' → in_Status r' ≠ InputStatusDead →
  turn_moves s r r' t t' → effect s (put_input (put_turn s t') r').
Proof. intros Hr Hm Hd Ht. exact (effect_alive s r r' (Some t') Hr Hm Hd (turn_moves_opt _ _ _ _ _ Ht)). Qed.

Lemma effect_dead_alone s s1 r r' r0 turnID :
  inputs s !! in_InputID r = Some r → input_move r r' → in_Status r' = InputStatusDead →
  terminalFailureEvent r0 turnID = death_event r' → s1 = recordTerminalFailureLocked s r0 turnID →
  effect s (put_input s1 r').
Proof. intros Hr Hm Hd He ->. exact (effect_dead s r r' None r0 turnID Hr Hm Hd He I). Qed.

Lemma effect_dead_turn s s1 r r' r0 turnID t t' :
  inputs s !! in_InputID r = Some r → input_move r r' → in_Status r' = InputStatusDead →
  terminalFailureEvent r0 turnID = death_event r' → s1 = recordTerminalFailureLocked s r0 turnID →
  turn_moves s r r' t t' → effect s (put_input (put_turn s1 t') r').
Proof.
  intros Hr Hm Hd He -> Ht.
  exact (effect_dead s r r' (Some t') r0 turnID Hr Hm Hd He (turn_moves_opt _ _ _ _ _ Ht)).
Qed.

(** The claimed input under its own key. *)
Lemma claimed_key f s id r : session_inv s → claimed_by f s id r → inputs s !! in_InputID r = Some r.
Proof. intros Hi (Hr & _). by destruct (lane_key _ (inv_lane _ Hi) _ _ Hr) as (-> & _). Qed.

Lemma move_hold r r' :
  holds_claim r = true → in_key r' = in_key r → in_TurnID r' = in_TurnID r → in_Attempts r' = in_Attempts r →
  holds_claim r' = true → in_ClaimOwner r' = in_ClaimOwner r → in_ClaimFence r' = in_ClaimFence r →
  is_Some (in_LeaseUntil r') → input_move r r'.
Proof. intros. repeat (split; [done|]). by left. Qed.

Lemma move_release r r' :
  holds_claim r = true → in_key r' = in_key r → in_TurnID r' = in_TurnID r → in_Attempts r' = in_Attempts r →
  unclaimed r' → in_Status r' ∈ [InputStatusRetryWait; InputStatusResolved; InputStatusDead] → input_move r r'.
Proof. intros. repeat (split; [done|]). by right; left. Qed.

Lemma put_input_same s r : inputs s !! in_InputID r = Some r → put_input s r = s.
Proof. intros Hr. unfold put_input, cloneInput. destruct s; cbn in *. by rewrite insert_id. Qed.

(** ** Enqueueing *)

Lemma encodeInput_Ok input identity payload :
  encodeInput input = Ok (identity, payload) →
  TrimSpace (id_InputID identity) = id_InputID identity ∧ id_InputID identity ≠ "".
Proof.
  assert (∀ v, encode_value input v = Ok (identity, payload) →
    TrimSpace (id_InputID identity) = id_InputID identity ∧ id_InputID identity ≠ "") as He.
  { intros v. unfold encode_value. cbn. destruct (_ || _ || _) eqn:E; [done|].
    destruct (_ <=? 0); [done|]. destruct (validateTypedInput input); [done|].
    destruct (json_Marshal_input v); [|done]. intros [= <- _]. cbn.
    rewrite !orb_false_iff, !bool_decide_eq_false in E. split; [apply TrimSpace_idem|naive_solver]. }
  destruct input; cbn; eauto; done.
Qed.

(** The payload is a text the encoder has written. *)
Lemma encodeInput_marshal input identity payload :
  encodeInput input = Ok (identity, payload) → ∃ v, json_Marshal_input v = Ok payload.
Proof.
  assert (∀ v, encode_value input v = Ok (identity, payload) → json_Marshal_input v = Ok payload) as He.
  { intros v. unfold encode_value. cbn. destruct (_ || _ || _); [done|]. destruct (_ <=? 0); [done|].
    destruct (validateTypedInput input); [done|]. destruct (json_Marshal_input v); [|done]. by intros [= _ ->]. }
  destruct input; cbn; eauto; done.
Qed.

Lemma EnqueueInput_effect sid input w a w' :
  session_inv (sw_store w) → small (sw_store w) → EnqueueInput sid input w = (a, w') →
  command_effect (sw_store w) (sw_store w').
Proof.
  intros Hi (Hroom & _) E. unfold EnqueueInput in E. case_bool_decide as Hsid; [injection E as _ <-; done|].
  destruct (encodeInput input) as [[identity payload]|e] eqn:Ei; [|injection E as _ <-; done].
  unfold bind at 1, get_store in E. destruct (inputs _ !! _) as [ex|] eqn:Ex.
  { destruct (negb _); injection E as _ <-; done. }
  destruct (inputSources _ !! _) as [ex|] eqn:Es.
  { destruct (negb _); injection E as _ <-; done. }
  unfold bind at 1, s_now in E. apply commit_inv in E as [_ ->].
  destruct (encodeInput_Ok _ _ _ Ei) as [Ht Hn].
  apply one_effect.
  match goal with |- effect ?s (_ <| inputSources := <[_ := in_InputID ?r]> _ |>) =>
    apply (eff_enqueue s r) end; try done.
  - apply TrimSpace_idem.
  - cbn. by apply incr_room.
Qed.

(** ** The head of a lane *)

Lemma earlier_fold (p : SessionInputRecord → bool) (l : list (string * SessionInputRecord)) acc :
  match foldl (fun head '(_, record) => if p record then earlier head record else head) acc l with
  | Some r =>
      (acc = Some r ∨ ∃ k, (k, r) ∈ l ∧ p r = true) ∧
      (∀ a, acc = Some a → in_EnqueueSeq r <= in_EnqueueSeq a) ∧
      (∀ k r2, (k, r2) ∈ l → p r2 = true → in_EnqueueSeq r <= in_EnqueueSeq r2)
  | None => acc = None ∧ ∀ k r2, (k, r2) ∈ l → p r2 = false
  end.
Proof.
  revert acc. induction l as [|[k0 r0] l IH]; intros acc; cbn [foldl].
  - destruct acc as [a|]; [|split; [done|]; intros ???%not_elem_of_nil; done].
    split; [by left|]. split; [intros ? [= ->]; lia|]. intros ???%not_elem_of_nil; done.
  - set (acc' := if p r0 then earlier acc r0 else acc). specialize (IH acc').
    destruct (foldl _ acc' l) as [r|].
    + destruct IH as (H1 & H2 & H3). split; [|split].
      * destruct H1 as [H1|(k & H1 & Hp)]; [|right; exists k; split; [by right|done]].
        unfold acc' in H1. destruct (p r0) eqn:Ep; [|by left].
        unfold earlier in H1. destruct acc as [a|]; [destruct (_ <? _)|]; simplify_eq;
          first [by left|right; exists k0; split; [by left|done]].
      * intros a ->. unfold acc' in H2. destruct (p r0); [|by apply H2]. cbn in H2.
        destruct (Z.ltb_spec (in_EnqueueSeq r0) (in_EnqueueSeq a)); [specialize (H2 r0 eq_refl); lia|by apply H2].
      * intros k r2 [[= -> ->]|Hin]%elem_of_cons Hp; [|by eapply H3]. unfold acc' in H2. rewrite Hp in H2.
        destruct acc as [a|]; cbn in H2; [|by apply H2].
        destruct (Z.ltb_spec (in_EnqueueSeq r0) (in_EnqueueSeq a)); [by apply H2|].
        specialize (H2 a eq_refl). lia.
    + destruct IH as [H1 H2]. unfold acc' in H1. destruct (p r0) eqn:Ep.
      * destruct acc; cbn in H1; [destruct (_ <? _)|]; done.
      * split; [done|]. intros k r2 [[= -> ->]|Hin]%elem_of_cons; [done|by eapply H2].
Qed.

Lemma startedHead_spec s sid :
  match startedHeadLocked s sid with
  | Some r => (∃ k, inputs s !! k = Some r) ∧ in_SessionID r = sid ∧ is_started r = true ∧
      ∀ k r2, inputs s !! k = Some r2 → in_SessionID r2 = sid → is_started r2 = true →
              in_EnqueueSeq r <= in_EnqueueSeq r2
  | None => ∀ k r, inputs s !! k = Some r → in_SessionID r = sid → is_started r = false
  end.
Proof.
  pose proof (earlier_fold (fun r => bool_decide (in_SessionID r = sid) && is_started r)
                (map_to_list (inputs s)) None) as Hf. cbn beta in Hf. fold (startedHeadLocked s sid) in Hf.
  destruct (startedHeadLocked s sid) as [r|].
  - destruct Hf as ([?|(k & Hk & Hp)] & _ & Hmin); [done|].
    apply elem_of_map_to_list in Hk. apply andb_prop in Hp as [Hs%bool_decide_eq_true Hst].
    split; [by exists k|]. split; [done|]. split; [done|]. intros k2 r2 Hk2 Hs2 Hst2.
    apply (Hmin k2); [by apply elem_of_map_to_list|]. by rewrite bool_decide_true, Hst2.
  - destruct Hf as [_ Hf]. intros k r Hk%elem_of_map_to_list Hs. specialize (Hf _ _ Hk).
    by rewrite bool_decide_true in Hf.
Qed.

(** ** Claiming *)

Lemma candidate_less_negtrans x y z :
  candidate_less x y = false → candidate_less y z = false → candidate_less x z = false.
Proof.
  unfold candidate_less.
  destruct (Z.eqb_spec (in_Priority x) (in_Priority y)), (Z.eqb_spec (in_Priority y) (in_Priority z)),
    (Z.eqb_spec (in_Priority x) (in_Priority z)); cbn [negb]; lia.
Qed.

Lemma candidate_less_asym x y : candidate_less x y = true → candidate_less y x = false.
Proof.
  unfold candidate_less. rewrite (Z.eqb_sym (in_Priority y)).
  destruct (Z.eqb_spec (in_Priority x) (in_Priority y)); cbn [negb]; lia.
Qed.

Lemma claim_candidates_elem s sid now r :
  r ∈ claim_candidates s sid now ↔ (∃ k, inputs s !! k = Some r) ∧ is_candidate sid now r = true.
Proof.
  unfold claim_candidates. rewrite sort_slice_perm, list_elem_of_In, filter_In, <-list_elem_of_In.
  rewrite list_elem_of_fmap. split.
  - intros [([k r'] & -> & Hk%elem_of_map_to_list) Hc]. split; [by exists k|done].
  - intros [(k & Hk) Hc]. split; [|done]. exists (k, r). split; [done|by apply elem_of_map_to_list].
Qed.

Lemma claim_candidates_head s sid now r l r2 :
  claim_candidates s sid now = r :: l → r2 ∈ claim_candidates s sid now → candidate_less r2 r = false.
Proof.
  intros E. pose proof (sort_slice_sorted candidate_less
    (List.filter (is_candidate sid now) ((map_to_list (inputs s)).*2)) candidate_less_negtrans candidate_less_asym) as Hs.
  fold (claim_candidates s sid now) in Hs. rewrite E in *. apply StronglySorted_inv in Hs as [_ Hf].
  intros [->|Hin]%elem_of_cons; [|rewrite Forall_forall in Hf; by apply Hf].
  unfold candidate_less. rewrite Z.eqb_refl. cbn. lia.
Qed.

Definition keyed_turns s : Prop := ∀ k t, turns s !! k = Some t → tr_TurnID t = k.

Lemma put_turn_put_input s r t : put_turn (put_input s r) t = put_input (put_turn s t) r.
Proof. reflexivity. Qed.

Lemma put_input_turns s r : turns (put_input s r) = turns s.
Proof. reflexivity. Qed.

Lemma recorded_turns s r turnID : turns (recordTerminalFailureLocked s r turnID) = turns s.
Proof. unfold recordTerminalFailureLocked. by destruct (terminalEvents s !! _). Qed.

Lemma kill_turn_effect s s1 r r' now :
  session_inv s → inputs s !! in_InputID r = Some r → input_move r r' → in_Status r' = InputStatusDead →
  terminalFailureEvent r (in_TurnID r) = death_event r' → s1 = recordTerminalFailureLocked s r (in_TurnID r) →
  effect s (kill_turn (put_input s1 r') r' now).
Proof.
  intros Hi Hr Hm Hd He Es1. pose proof Hm as (_ & HT & _).
  assert (turns s1 = turns s) as Hts by (subst s1; apply recorded_turns).
  assert (effect s (put_input s1 r')) as Halone by (by eapply (effect_dead_alone s s1 r r')).
  unfold kill_turn. case_bool_decide as Hb; [done|]. rewrite put_input_turns, Hts, HT.
  rewrite HT in Hb. destruct (turns s !! in_TurnID r) as [t|] eqn:Et; [|done].
  destruct (isTerminalTurnStatus (tr_Status t)) eqn:Eterm; [done|].
  assert (in_TurnID r ≠ "") as Hne by (intros E; by rewrite E in Hb).
  destruct (turn_link _ (inv_turn _ Hi) _ _ (turn_back _ (inv_turn _ Hi) _ _ Hr Hne)) as (t1 & _ & H1 & H2 & _).
  assert (t1 = t) as -> by congruence.
  destruct (turn_key _ (inv_turn _ Hi) _ _ Et) as (Hk & _).
  rewrite put_turn_put_input. eapply (effect_dead_turn s s1 r r'); try done.
  split; [by rewrite <-Hk in Et|]. split; [done|]. split; [|split; [set_solver|done]].
  split; [done|]. split; [done|]. split; [set_solver|done].
Qed.

Lemma exhausted_move r now :
  is_started r = true → waits r = true → input_move r (exhausted_input r now).
Proof. intros. split; [done|]; split; [done|]; split; [done|]; right; right; done. Qed.

Lemma exhausted_effect s r now :
  session_inv s → inputs s !! in_InputID r = Some r → is_started r = true → waits r = true →
  effect s (deadExhaustedInputLocked s r now).
Proof.
  intros Hi Hr Hst Hw. pose proof (exhausted_move r now Hst Hw) as Hm.
  assert (in_Status (exhausted_input r now) = InputStatusDead) as Hd by reflexivity.
  unfold deadExhaustedInputLocked. generalize dependent (exhausted_input r now). intros r' Hm Hd.
  apply kill_turn_effect with (r := r); try done. symmetry. destruct Hm as (? & ? & _). by apply death_event_ext.
Qed.

Lemma kill_turn_fields s r now :
  inputs (kill_turn s r now) = inputs s ∧ leases (kill_turn s r now) = leases s.
Proof.
  unfold kill_turn. destruct (bool_decide _); [done|]. destruct (turns s !! _); [|done].
  by destruct (isTerminalTurnStatus _).
Qed.

Lemma recorded_fields s r turnID :
  inputs (recordTerminalFailureLocked s r turnID) = inputs s ∧
  leases (recordTerminalFailureLocked s r turnID) = leases s.
Proof. unfold recordTerminalFailureLocked. by destruct (terminalEvents s !! _). Qed.

Lemma exhausted_fields s r now :
  inputs (deadExhaustedInputLocked s r now) = <[in_InputID r := exhausted_input r now]> (inputs s) ∧
  leases (deadExhaustedInputLocked s r now) = leases s.
Proof.
  unfold deadExhaustedInputLocked. destruct (recorded_fields s r (in_TurnID r)) as [R1 R2].
  generalize dependent (recordTerminalFailureLocked s r (in_TurnID r)). intros s1 R1 R2.
  rewrite (proj1 (kill_turn_fields _ _ _)), (proj2 (kill_turn_fields _ _ _)), <-R1, <-R2. done.
Qed.

Lemma exhausted_counters s r now :
  inputCounters (deadExhaustedInputLocked s r now) = inputCounters s.
Proof.
  unfold deadExhaustedInputLocked.
  assert (inputCounters (recordTerminalFailureLocked s r (in_TurnID r)) = inputCounters s) as R1
    by (unfold recordTerminalFailureLocked; by destruct (terminalEvents s !! _)).
  generalize dependent (recordTerminalFailureLocked s r (in_TurnID r)). intros s1 R1.
  generalize (exhausted_input r now). intros r'. unfold kill_turn.
  destruct (bool_decide _); [done|]. destruct (turns _ !! _); [|done]. by destruct (isTerminalTurnStatus _).
Qed.

Lemma exhausted_quiet s r now :
  session_inv s → inputs s !! in_InputID r = Some r → is_started r = true → waits r = true →
  quiet s (deadExhaustedInputLocked s r now).
Proof.
  intros Hi Hr Hst Hw. split; [by apply exhausted_effect|]. intros n Hn.
  destruct (exhausted_fields s r now) as [F1 F2]. pose proof (exhausted_counters s r now) as F3.
  by eapply (within_input n s _ r (exhausted_input r now)).
Qed.

(** What the loop has selected when it answers. *)
Definition selectable (s : MemoryStore) (options : ClaimOptions) (now : Time) (r : SessionInputRecord) : Prop :=
  inputs s !! in_InputID r = Some r ∧ in_SessionID r = fn_SessionID (co_Fence options) ∧
  waits r = true ∧ in_AvailableAt r <= now ∧
  (is_started r = true ∨
   ((∀ k r2, inputs s !! k = Some r2 → in_SessionID r2 = in_SessionID r → is_started r2 = false) ∧
    in_Attempts r = 0 ∧
    ∀ k r2, inputs s !! k = Some r2 → is_candidate (in_SessionID r) now r2 = true → candidate_less r2 r = false)).

(** Killing an input leaves the outputs that turns have saved. *)
Lemma frozen_ext s s' r :
  turns s' = turns s → turnByInput s' = turnByInput s →
  inputHasFrozenOutputLocked s' r = inputHasFrozenOutputLocked s r.
Proof. unfold inputHasFrozenOutputLocked. by intros -> ->. Qed.

Lemma kill_turn_frozen s r now r2 :
  keyed_turns s → inputHasFrozenOutputLocked (kill_turn s r now) r2 = inputHasFrozenOutputLocked s r2.
Proof.
  intros Hk. unfold kill_turn. destruct (bool_decide _); [done|].
  destruct (turns s !! in_TurnID r) as [t|] eqn:Et; [|done]. destruct (isTerminalTurnStatus _); [done|].
  unfold inputHasFrozenOutputLocked. cbn. rewrite (Hk _ _ Et).
  match goal with |- match <[_:=_]> _ !! ?i with _ => _ end = _ =>
    destruct (decide (i = in_TurnID r)) as [->|Hne] end.
  - by rewrite lookup_insert_eq, Et.
  - by rewrite lookup_insert_ne.
Qed.

Lemma exhausted_frozen s r now r2 :
  keyed_turns s →
  inputHasFrozenOutputLocked (deadExhaustedInputLocked s r now) r2 = inputHasFrozenOutputLocked s r2.
Proof.
  intros Hk. unfold deadExhaustedInputLocked. pose proof (recorded_turns s r (in_TurnID r)) as R1.
  assert (turnByInput (recordTerminalFailureLocked s r (in_TurnID r)) = turnByInput s) as R2
    by (unfold recordTerminalFailureLocked; by destruct (terminalEvents s !! _)).
  rewrite kill_turn_frozen; [by apply frozen_ext|]. intros k t Hkt. apply Hk. by rewrite <-R1.
Qed.

(** No input of the session can be claimed now. *)
Definition nothing_due (s : MemoryStore) (options : ClaimOptions) (now : Time) : Prop :=
  let sid := fn_SessionID (co_Fence options) in
  (∃ k r, inputs s !! k = Some r ∧ in_SessionID r = sid ∧ is_started r = true ∧
          (waits r = false ∨ now < in_AvailableAt r)) ∨
  ((∀ k r, inputs s !! k = Some r → in_SessionID r = sid → is_started r = false) ∧
   ∀ k r, inputs s !! k = Some r → is_candidate sid now r = false).

(** The loop touches only a started input that has used up its attempts and
    has saved no output. *)
Definition survives (s : MemoryStore) (options : ClaimOptions) (now : Time) (r r' : SessionInputRecord) : Prop :=
  r' = r ∨
  (r' = exhausted_input r now ∧ in_SessionID r = fn_SessionID (co_Fence options) ∧ is_started r = true ∧
   waits r = true ∧ 0 < co_MaxAttempts options <= in_Attempts r ∧ inputHasFrozenOutputLocked s r = false).

Lemma survives_waits s options now r r' : survives s options now r r' → waits r' = true → r' = r.
Proof. by intros [-> |(-> & _)]. Qed.

Lemma survives_attempts s options now r r' : survives s options now r r' → in_Attempts r' = in_Attempts r.
Proof. by intros [-> |(-> & _)]. Qed.

(** What a round that answers has seen. *)
Definition select_ok (s s' : MemoryStore) (options : ClaimOptions) (now : Time)
    (o : option (result SessionInputRecord)) : Prop :=
  rtc quiet s s' ∧ leases s' = leases s ∧
  (∀ k r', inputs s' !! k = Some r' → ∃ r, inputs s !! k = Some r ∧ survives s options now r r') ∧
  match o with
  | Some (Ok r) => selectable s' options now r
  | Some (Err e) => e = ErrNoInputAvailable ∧ nothing_due s' options now
  | None => True
  end.

Lemma select_here s options now o :
  match o with
  | Some (Ok r) => selectable s options now r
  | Some (Err e) => e = ErrNoInputAvailable ∧ nothing_due s options now
  | None => True
  end → select_ok s s options now o.
Proof.
  intros Ho. split; [apply rtc_refl|]. split; [done|]. split; [|done]. intros k r Hr. exists r. by split; [|left].
Qed.

Lemma select_started s options now r :
  session_inv s → inputs s !! in_InputID r = Some r → in_SessionID r = fn_SessionID (co_Fence options) →
  is_started r = true → waits r = true → After (in_AvailableAt r) now = false → selectable s options now r.
Proof. intros Hi Hr Hs Hst Hw Ha. unfold After in Ha. apply Z.ltb_ge in Ha. unfold selectable. eauto 10. Qed.

Lemma select_fresh s options now r l :
  session_inv s → claim_candidates s (fn_SessionID (co_Fence options)) now = r :: l →
  (∀ k r2, inputs s !! k = Some r2 → in_SessionID r2 = fn_SessionID (co_Fence options) → is_started r2 = false) →
  selectable s options now r.
Proof.
  intros Hi Ec Hfree. assert (r ∈ claim_candidates s (fn_SessionID (co_Fence options)) now) as Hin by (rewrite Ec; by left).
  pose proof Hin as [(k & Hk) Hc]%claim_candidates_elem.
  destruct (lane_key _ (inv_lane _ Hi) _ _ Hk) as (<- & _).
  unfold is_candidate in Hc. rewrite !andb_true_iff, bool_decide_eq_true, negb_true_iff in Hc.
  destruct Hc as [[[Hs Hat] Ha] Hw]. unfold After in Ha. apply Z.ltb_ge in Ha. apply Z.eqb_eq in Hat.
  split; [done|]. split; [done|]. split; [done|]. split; [done|]. right. rewrite Hs.
  split; [done|]. split; [done|]. intros k2 r2 Hk2 Hc2.
  apply (claim_candidates_head _ _ _ _ _ _ Ec), claim_candidates_elem. eauto.
Qed.

Lemma claim_select_spec fuel s options now o s' :
  session_inv s → claim_select fuel s options now = (o, s') → select_ok s s' options now o.
Proof.
  revert s. induction fuel as [|fuel IH]; intros s Hi; cbn [claim_select].
  { intros [= <- <-]. by apply select_here. }
  pose proof (startedHead_spec s (fn_SessionID (co_Fence options))) as Hh.
  destruct (startedHeadLocked s _) as [r|].
  - destruct Hh as ((k & Hk) & Hs & Hst & _).
    destruct (lane_key _ (inv_lane _ Hi) _ _ Hk) as (<- & _).
    destruct (waits r) eqn:Hw; cbn [negb];
      [|intros [= <- <-]; apply select_here; split; [done|]; left; exists (in_InputID r), r; eauto 10].
    destruct (After (in_AvailableAt r) now) eqn:Ha.
    { intros [= <- <-]. apply select_here. split; [done|]. left. exists (in_InputID r), r.
      unfold After in Ha. apply Z.ltb_lt in Ha. eauto 10. }
    destruct (_ && _ && _) eqn:Ex.
    + intros E. pose proof (exhausted_quiet s r now Hi Hk Hst Hw) as He.
      destruct (exhausted_fields s r now) as [F1 F2].
      destruct (IH _ (effect_inv _ _ (proj1 He) Hi) E) as (H1 & H2 & H3 & H4).
      split; [by eapply rtc_l|]. split; [congruence|]. split; [|done].
      rewrite !andb_true_iff, Z.ltb_lt, Z.leb_le, negb_true_iff in Ex.
      intros k r' Hk'. destruct (H3 _ _ Hk') as (r1 & Hr1 & Hsv). rewrite F1 in Hr1.
      apply lookup_insert_Some in Hr1 as [[<- <-]|[_ Hr1]].
      * exists r. split; [done|]. right. destruct Hsv as [-> |(_ & _ & Hst1 & _)]; [|by apply is_started_spec in Hst1 as (_ & _ & ?)].
        naive_solver.
      * exists r1. split; [done|]. destruct Hsv as [-> |Hsv]; [by left|]. right.
        rewrite exhausted_frozen in Hsv; [done|]. by intros ?? (? & _)%(turn_key _ (inv_turn _ Hi)).
    + intros [= <- <-]. by apply select_here, select_started.
  - destruct (claim_candidates s _ now) as [|r l] eqn:Ec; intros [= <- <-]; apply select_here.
    + split; [done|]. right. split; [done|]. intros k r Hk.
      destruct (is_candidate _ now r) eqn:E; [|done].
      assert (r ∈ claim_candidates s (fn_SessionID (co_Fence options)) now) as Hin by (apply claim_candidates_elem; eauto).
      rewrite Ec in Hin. by apply not_elem_of_nil in Hin.
    + by eapply select_fresh.
Qed.

(** The loop ends: a second round finds no started input. *)
Lemma claim_select_ends s options now :
  session_inv s → ∃ r, (claim_select (claim_fuel s) s options now).1 = Some r.
Proof.
  intros Hi. unfold claim_fuel. cbn [claim_select].
  pose proof (startedHead_spec s (fn_SessionID (co_Fence options))) as Hh.
  destruct (startedHeadLocked s _) as [r|]; [|by destruct (claim_candidates s _ now); eexists].
  destruct Hh as ((k & Hk) & Hs & Hst & _). destruct (lane_key _ (inv_lane _ Hi) _ _ Hk) as (<- & _).
  destruct (waits r) eqn:Hw; cbn [negb]; [|by eexists].
  destruct (After _ _); [by eexists|]. destruct (_ && _ && _); [|by eexists].
  destruct (size (inputs s)) as [|n] eqn:En; [by apply map_size_empty_inv in En; rewrite En in Hk|].
  destruct (exhausted_fields s r now) as [F1 _]. cbn [claim_select].
  pose proof (startedHead_spec (deadExhaustedInputLocked s r now) (fn_SessionID (co_Fence options))) as Hh.
  destruct (startedHeadLocked (deadExhaustedInputLocked s r now) _) as [r2|];
    [|by destruct (claim_candidates _ _ now); eexists].
  exfalso. destruct Hh as ((k2 & Hk2) & Hs2 & Hst2 & _). rewrite F1 in Hk2.
  apply lookup_insert_Some in Hk2 as [[_ <-]|[Hne Hk2]].
  - apply is_started_spec in Hst2 as (_ & _ & Hd). by apply Hd.
  - apply Hne. eapply (lane_single _ (inv_lane _ Hi)); try done. congruence.
Qed.

Lemma ClaimNext_effect options w a w' :
  session_inv (sw_store w) → small (sw_store w) → ClaimNext options w = (a, w') →
  command_effect (sw_store w) (sw_store w').
Proof.
  intros Hi (_ & Hroom & _) E. unfold ClaimNext in E. destruct (_ <=? 0); [injection E as _ <-; done|].
  apply with_fence_inv in E as [(e & _ & ->)|(now & l & w1 & Hs & Hf & E)]; [done|].
  unfold bind at 1, get_store in E. rewrite Hs in E.
  destruct (claim_select _ _ options now) as [o s1] eqn:Es.
  destruct (claim_select_spec _ _ _ _ _ _ Hi Es) as (H1 & H2 & H3 & H4).
  unfold bind at 1, put_store in E.
  destruct o as [[r|e]|]; [|injection E as _ <-; by apply quiet_effects|injection E as _ <-; by apply quiet_effects].
  apply commit_inv in E as [_ ->]. eapply quiet_then; [exact H1|].
  destruct H4 as (Hr & Hsid & Hw & Ha & Hfree).
  destruct (H3 _ _ Hr) as (r0 & Hr0 & Hsv%survives_attempts). specialize (Hroom _ _ Hr0). rewrite <-Hsv in Hroom.
  destruct (validateFence_Ok _ _ _ _ Hf) as (F1 & F2 & F3 & F4 & F5 & F6 & F7).
  eapply (eff_claim s1 r _ l); try done.
  - cbn. by apply incr_room.
  - by rewrite H2, Hsid.
  - lia.
  - destruct Hfree as [?|(? & _)]; [by left|by right].
Qed.

(** ** A claimed input *)

Ltac fence_guard E now l w1 Hs Hf :=
  apply with_fence_inv in E as [(?e & _ & ->)|(now & l & w1 & Hs & Hf & E)]; [apply no_effect|].
Ltac claim_guard E r w2 Hs2 Hc :=
  apply try_claimed_inv in E as [(?e & _ & Hs2)|(r & w2 & Hs2 & Hc & E)];
  [rewrite Hs2; apply no_effect|].

Lemma unclaim_unclaimed r : unclaimed (unclaim r).
Proof. done. Qed.

Lemma MarkInputRunning_effect f id ttl w a w' :
  session_inv (sw_store w) → MarkInputRunning f id ttl w = (a, w') → command_effect (sw_store w) (sw_store w').
Proof.
  intros Hi E. unfold MarkInputRunning, transitionInput in E. destruct (ttl <=? 0); [injection E as _ <-; apply no_effect|].
  fence_guard E now l w1 Hs Hf. rewrite <-Hs in *. claim_guard E r w2 Hs2 Hc.
  unfold bind at 1, get_store in E. rewrite Hs2 in E. apply commit_inv in E as [_ ->].
  pose proof (claimed_key _ _ _ _ Hi Hc) as Hr. destruct Hc as (_ & _ & _ & _ & Hh & Hl).
  apply one_effect, (effect_alive_alone _ r); [done| |done]. apply move_hold; try done.
Qed.

Lemma RetryInput_effect f id at_ failure w a w' :
  session_inv (sw_store w) → RetryInput f id at_ failure w = (a, w') → command_effect (sw_store w) (sw_store w').
Proof.
  intros Hi E. unfold RetryInput in E.
  fence_guard E now l w1 Hs Hf. rewrite <-Hs in *. claim_guard E r w2 Hs2 Hc.
  unfold bind at 1, get_store in E. rewrite Hs2 in E. apply commit_inv in E as [_ ->].
  pose proof (claimed_key _ _ _ _ Hi Hc) as Hr. destruct Hc as (_ & _ & _ & _ & Hh & Hl).
  apply one_effect, (effect_alive_alone _ r); [done| |done]. apply move_release; try done. set_solver.
Qed.

Lemma ResolveInput_effect f id w a w' :
  session_inv (sw_store w) → ResolveInput f id w = (a, w') → command_effect (sw_store w) (sw_store w').
Proof.
  intros Hi E. unfold ResolveInput, finishInput in E.
  fence_guard E now l w1 Hs Hf. rewrite <-Hs in *. claim_guard E r w2 Hs2 Hc.
  unfold bind at 1, get_store in E. rewrite Hs2 in E.
  rewrite bool_decide_false, bool_decide_true in E by done. apply commit_inv in E as [_ ->].
  pose proof (claimed_key _ _ _ _ Hi Hc) as Hr. destruct Hc as (_ & _ & _ & _ & Hh & Hl).
  apply one_effect, (effect_alive_alone _ r); [done| |done]. apply move_release; try done. set_solver.
Qed.

Lemma finished_effect s r r0 now :
  inputs s !! in_InputID r = Some r → input_move r r0 → in_Status r0 = InputStatusDead →
  effect s (put_input (recordTerminalFailureLocked s r0 (in_TurnID r0)) (r0 <| in_UpdatedAt := now |>)).
Proof.
  intros Hr Hm Hd. assert (input_move r (r0 <| in_UpdatedAt := now |>)) as Hm' by exact Hm.
  assert (in_key (r0 <| in_UpdatedAt := now |>) = in_key r0 ∧ in_TurnID (r0 <| in_UpdatedAt := now |>) = in_TurnID r0
          ∧ in_Status (r0 <| in_UpdatedAt := now |>) = InputStatusDead) as (H1 & H2 & H3) by done.
  generalize dependent (r0 <| in_UpdatedAt := now |>). intros r' Hm' H1 H2 H3.
  eapply (effect_dead_alone _ _ r); [done|done|done| |reflexivity]. symmetry. by apply death_event_ext.
Qed.

Lemma DeadInput_effect f id failure w a w' :
  session_inv (sw_store w) → DeadInput f id failure w = (a, w') → command_effect (sw_store w) (sw_store w').
Proof.
  intros Hi E. unfold DeadInput, finishInput in E.
  fence_guard E now l w1 Hs Hf. rewrite <-Hs in *. claim_guard E r w2 Hs2 Hc.
  unfold bind at 1, get_store in E. rewrite Hs2 in E.
  rewrite bool_decide_true, bool_decide_false in E by done. apply commit_inv in E as [_ ->].
  pose proof (claimed_key _ _ _ _ Hi Hc) as Hr. destruct Hc as (_ & _ & _ & _ & Hh & Hl).
  apply one_effect, (finished_effect _ r); [done| |done]. apply move_release; try done. set_solver.
Qed.

(** ** Recovery *)

Lemma put_input_at s id r : in_InputID r = id → s <| inputs := <[id := r]> (inputs s) |> = put_input s r.
Proof. by intros <-. Qed.

Lemma recover_one_effect now s id r :
  session_inv s → inputs s !! id = Some r → holds_claim r = true → effect s (recover_one now s id r).
Proof.
  intros Hi Hr Hh. destruct (lane_key _ (inv_lane _ Hi) _ _ Hr) as (Hid & _ & _ & _ & _ & Hok). subst id.
  assert (input_move r (recovered_input r now)) as Hm by (apply move_release; try done; set_solver).
  assert (in_Status (recovered_input r now) ≠ InputStatusDead) as Hd by done.
  unfold recover_one. rewrite (put_input_at s (in_InputID r)) by done.
  generalize dependent (recovered_input r now). intros r' Hm Hd.
  pose proof (effect_alive_alone s r r' Hr Hm Hd) as Halone.
  change (turnByInput (put_input s r')) with (turnByInput s). change (turns (put_input s r')) with (turns s).
  unfold string_at. destruct (turnByInput s !! in_InputID r) as [tid|] eqn:Et; cbn [default from_option id]; [|done].
  case_bool_decide as Hne; [done|].
  destruct (turn_link _ (inv_turn _ Hi) _ _ Et) as (t & r1 & H1 & H2 & H3 & H4 & _ & Hag).
  assert (r1 = r) as -> by congruence. unfold turn_at.
  rewrite H1. cbn [default from_option id].
  destruct (turn_key _ (inv_turn _ Hi) _ _ H1) as (Hk & _).
  destruct (_ && _ && _); [|done].
  assert ((put_input s r') <| turns := <[tid := recovered_turn t now]> (turns s) |>
          = put_input (put_turn s (recovered_turn t now)) r') as -> by (by rewrite <-Hk).
  eapply (effect_alive_turn s r r' t); try done. split; [by rewrite Hk|]. split; [done|].
  split; [|by split; [set_solver|]].
  split; [done|]. split; [|by split; [set_solver|]].
  eapply started_turn_open; [|done]. by apply holds_is_started.
Qed.

Lemma recover_one_inputs now s id r :
  inputs (recover_one now s id r) = <[id := recovered_input r now]> (inputs s).
Proof.
  unfold recover_one. destruct (bool_decide _); [done|]. by destruct (_ && _ && _).
Qed.

Lemma recover_one_counters now s id r :
  inputCounters (recover_one now s id r) = inputCounters s ∧ leases (recover_one now s id r) = leases s.
Proof.
  unfold recover_one. destruct (bool_decide _); [done|]. by destruct (_ && _ && _).
Qed.

Lemma recover_one_quiet now s id r :
  session_inv s → inputs s !! id = Some r → holds_claim r = true → quiet s (recover_one now s id r).
Proof.
  intros Hi Hr Hh. split; [by apply recover_one_effect|]. intros n Hn.
  destruct (recover_one_counters now s id r) as [F1 F2].
  destruct (lane_key _ (inv_lane _ Hi) _ _ Hr) as (Hid & _).
  eapply (within_input n s _ r (recovered_input r now)); try done; [by rewrite Hid|].
  by rewrite recover_one_inputs, Hid.
Qed.

Lemma recover_fold_effect f now l n s :
  session_inv s → NoDup l.*1 → (∀ id r, (id, r) ∈ l → inputs s !! id = Some r) →
  rtc quiet s (foldl (recover_step f now) (n, s) l).2.
Proof.
  revert n s. induction l as [|[id r] l IH]; intros n s Hi Hnd Hl; cbn [foldl]; [apply rtc_refl|].
  apply NoDup_cons in Hnd as [Hnin Hnd]. unfold recover_step at 2.
  destruct (stale_claim f now r) eqn:Est.
  - assert (quiet s (recover_one now s id r)) as He.
    { apply recover_one_quiet; [done|apply Hl; by left|]. unfold stale_claim in Est.
      by apply andb_prop in Est as [[_ Hh]%andb_prop _]. }
    eapply rtc_l; [exact He|]. apply IH; [by eapply effect_inv; [apply He|]|done|].
    intros id' r' Hin. rewrite recover_one_inputs, lookup_insert_ne; [apply Hl; by right|].
    intros ->. apply Hnin, list_elem_of_fmap. by exists (id', r').
  - apply IH; [done|done|]. intros. apply Hl. by right.
Qed.

Lemma RecoverExpiredInputs_effect f w a w' :
  session_inv (sw_store w) → RecoverExpiredInputs f w = (a, w') → command_effect (sw_store w) (sw_store w').
Proof.
  intros Hi E. unfold RecoverExpiredInputs in E.
  fence_guard E now l w1 Hs Hf. unfold bind at 1, get_store in E. rewrite Hs in E.
  pose proof (recover_fold_effect f now (map_to_list (inputs (sw_store w))) 0 (sw_store w) Hi
    (NoDup_fst_map_to_list _)) as He.
  destruct (foldl _ _ _) as [n s]. apply commit_inv in E as [_ ->]. apply quiet_effects, He.
  intros id r. apply elem_of_map_to_list.
Qed.

(** ** Leases *)

Lemma AcquireLease_effect sid owner ttl w a w' :
  small (sw_store w) → AcquireLease sid owner ttl w = (a, w') → command_effect (sw_store w) (sw_store w').
Proof.
  intros (_ & _ & Hroom) E. unfold AcquireLease in E. destruct (_ || _ || _) eqn:Eg; [injection E as _ <-; apply no_effect|].
  rewrite !orb_false_iff, !bool_decide_eq_false in Eg. destruct Eg as [[Hsid Ho] _].
  unfold bind at 1, s_now, bind at 1, get_store in E. cbn [sw_store] in E.
  pose proof (TrimSpace_idem owner) as Hto.
  destruct (leases (sw_store w) !! _) as [l|] eqn:El.
  - specialize (Hroom _ _ El). destruct (_ && _); [injection E as _ <-; apply no_effect|].
    destruct (negb _) eqn:En; apply commit_inv in E as [_ ->]; apply one_effect, eff_lease; try intros _; rewrite ?El.
    + split; [exact Hto|]. split; [exact Ho|]. split; [by right|]. right. by apply incr_room.
    + right. exists (TrimSpace sid), l. split; [done|]. cbn. rewrite (incr_room _ Hroom). lia.
    + apply negb_false_iff, bool_decide_eq_true in En.
      split; [exact Hto|]. split; [exact Ho|]. split; [by right|]. by left.
    + right. exists (TrimSpace sid), l. split; [done|]. cbn. lia.
  - apply commit_inv in E as [_ ->]. apply one_effect, eff_lease; [intros _; by rewrite El|by left].
Qed.

(** The lease a fence has been checked against. *)
Lemma fenced_lease s f now l :
  session_inv s → validateFenceLocked s f now = Ok l → TrimSpace (fn_SessionID f) = fn_SessionID f →
  leases s !! fn_SessionID f = Some l ∧ sl_SessionID l = fn_SessionID f ∧
  TrimSpace (sl_OwnerID l) = sl_OwnerID l ∧ sl_OwnerID l ≠ "".
Proof.
  intros Hi Hf Ht. destruct (validateFence_Ok _ _ _ _ Hf) as (F1 & _). rewrite Ht in F1.
  by destruct (lease_ok _ (inv_lease _ Hi) _ _ Ht F1) as (L1 & L2 & L3 & _).
Qed.

Lemma fenced_move s f now l l' :
  session_inv s → validateFenceLocked s f now = Ok l → TrimSpace (fn_SessionID f) = fn_SessionID f →
  sl_OwnerID l' = sl_OwnerID l → sl_FenceToken l' = sl_FenceToken l → sl_SessionID l' = sl_SessionID l →
  lease_move (fn_SessionID f) (leases s !! fn_SessionID f) l'.
Proof.
  intros Hi Hf Ht E1 E2 E3. destruct (fenced_lease _ _ _ _ Hi Hf Ht) as (F1 & _ & F3 & F4).
  unfold lease_move. rewrite F1, E1. split; [done|]. split; [done|]. split; [by left|]. by left.
Qed.

Lemma RenewLease_effect f ttl w a w' :
  session_inv (sw_store w) → RenewLease f ttl w = (a, w') → command_effect (sw_store w) (sw_store w').
Proof.
  intros Hi E. unfold RenewLease in E. destruct (ttl <=? 0); [injection E as _ <-; apply no_effect|].
  fence_guard E now l w1 Hs Hf. unfold bind at 1, get_store in E. rewrite Hs in E.
  apply commit_inv in E as [_ ->]. apply one_effect, eff_lease; [intros Ht; by eapply fenced_move|].
  right. eexists _, l. split; [by apply validateFence_Ok in Hf as [? _]|]. cbn. lia.
Qed.

Lemma ReleaseLease_effect f w a w' :
  session_inv (sw_store w) → ReleaseLease f w = (a, w') → command_effect (sw_store w) (sw_store w').
Proof.
  intros Hi E. unfold ReleaseLease in E.
  fence_guard E now l w1 Hs Hf. unfold bind at 1, get_store in E. rewrite Hs in E.
  apply commit_inv in E as [_ ->]. apply one_effect, eff_lease; [intros Ht; by eapply fenced_move|].
  right. eexists _, l. split; [by apply validateFence_Ok in Hf as [? _]|]. cbn. lia.
Qed.

Lemma HandoffLease_effect f owner ttl w a w' :
  session_inv (sw_store w) → small (sw_store w) → HandoffLease f owner ttl w = (a, w') →
  command_effect (sw_store w) (sw_store w').
Proof.
  intros Hi (_ & _ & Hroom) E. unfold HandoffLease in E. destruct (_ || _) eqn:Eg; [injection E as _ <-; apply no_effect|].
  rewrite orb_false_iff, bool_decide_eq_false in Eg. destruct Eg as [Ho _].
  fence_guard E now l w1 Hs Hf. unfold bind at 1, get_store in E. rewrite Hs in E.
  destruct (validateFence_Ok _ _ _ _ Hf) as (F0 & _). specialize (Hroom _ _ F0).
  apply commit_inv in E as [_ ->]. apply one_effect, eff_lease.
  - intros Ht. destruct (fenced_lease _ _ _ _ Hi Hf Ht) as (F1 & _).
    rewrite F1. split; [apply TrimSpace_idem|]. split; [exact Ho|].
    destruct (negb _) eqn:En.
    + split; [by left|]. right. by apply incr_room.
    + apply negb_false_iff, bool_decide_eq_true in En. split; [by left|]. by left.
  - right. eexists _, l. split; [exact F0|]. destruct (negb _); cbn; rewrite ?(incr_room _ Hroom); lia.
Qed.

(** ** Turns *)

Ltac turn_guard E t r w2 Hs2 Ht Hsess Hc :=
  apply try_turn_inv in E as [(?e & _ & Hs2)|(t & r & w2 & Hs2 & Ht & Hsess & Hc & E)];
  [rewrite Hs2; apply no_effect|].

(** The turn a method has looked up, with its claimed input. *)
Lemma turn_of_claim f s id t r :
  session_inv s → turns s !! TrimSpace id = Some t → claimed_by f s (tr_InputID t) r →
  turns s !! tr_TurnID t = Some t ∧ inputs s !! in_InputID r = Some r ∧ tr_InputID t = in_InputID r ∧
  holds_claim r = true ∧ is_Some (in_LeaseUntil r) ∧ isTerminalTurnStatus (tr_Status t) = false.
Proof.
  intros Hi Ht Hc. pose proof (claimed_key _ _ _ _ Hi Hc) as Hr. destruct Hc as (Hr' & _ & _ & _ & Hh & Hl).
  destruct (turn_key _ (inv_turn _ Hi) _ _ Ht) as (Hk & _ & _ & Hb & _).
  destruct (turn_link _ (inv_turn _ Hi) _ _ Hb) as (t1 & r1 & H1 & _ & H3 & _ & _ & Hag).
  assert (t1 = t) as -> by congruence.
  destruct (lane_key _ (inv_lane _ Hi) _ _ H3) as (Hid & Htrim & _ & _ & _ & Hok).
  rewrite Htrim in Hr'. assert (r1 = r) as -> by congruence.
  split; [by rewrite Hk|]. split; [done|]. split; [done|]. split; [done|]. split; [done|].
  eapply started_turn_open; [|done]. by apply holds_is_started.
Qed.

(** A turn of a claimed input, changed and put back with its input. *)
Lemma turn_effect f s id t r t' r' :
  session_inv s → turns s !! TrimSpace id = Some t → claimed_by f s (tr_InputID t) r →
  input_move r r' → in_Status r' ≠ InputStatusDead → turn_agrees t' r' →
  tr_key t' = tr_key t →
  tr_Status t' ∈ tr_Status t :: live_statuses ++ [TurnStatusWaitingInterrupt; TurnStatusCommitted; TurnStatusDead] →
  (tr_OutputPayload t ≠ "" → tr_OutputPayload t' = tr_OutputPayload t ∧ tr_OutputDigest t' = tr_OutputDigest t) →
  (tr_ContextSeqFrozen t = true →
   tr_ContextSeqFrozen t' = true ∧ tr_ContextMessageSeq t' = tr_ContextMessageSeq t) →
  effect s (put_input (put_turn s t') r').
Proof.
  intros Hi Ht Hc Hm Hd Hag Hk Hst Ho Hctx.
  destruct (turn_of_claim _ _ _ _ _ Hi Ht Hc) as (H1 & H2 & H3 & _ & _ & H5).
  eapply (effect_alive_turn s r r' t t'); try done.
Qed.

(** Only the turn changes, in a status it had. *)
Lemma turn_only_effect f s id t r t' :
  session_inv s → turns s !! TrimSpace id = Some t → claimed_by f s (tr_InputID t) r →
  tr_key t' = tr_key t → tr_Status t' = tr_Status t →
  (tr_OutputPayload t ≠ "" → tr_OutputPayload t' = tr_OutputPayload t ∧ tr_OutputDigest t' = tr_OutputDigest t) →
  (tr_ContextSeqFrozen t = true →
   tr_ContextSeqFrozen t' = true ∧ tr_ContextMessageSeq t' = tr_ContextMessageSeq t) →
  effect s (put_turn s t').
Proof.
  intros Hi Ht Hc Hk Hst Ho Hctx.
  destruct (turn_of_claim _ _ _ _ _ Hi Ht Hc) as (H1 & H2 & H3 & Hh & Hl & H5).
  assert (put_turn s t' = put_input (put_turn s t') r) as -> by (by rewrite put_input_same).
  assert (in_Status r ≠ InputStatusDead) by (apply holds_claim_status in Hh; by destruct Hh as [-> | ->]).
  eapply (turn_effect f s id t r t' r); try done; [by apply move_hold| |rewrite Hst; by left].
  apply open_turn_agrees. by rewrite Hst.
Qed.

Lemma GetOrCreateTurn_effect f id spec w a w' :
  session_inv (sw_store w) → GetOrCreateTurn f id spec w = (a, w') → command_effect (sw_store w) (sw_store w').
Proof.
  intros Hi E. unfold GetOrCreateTurn in E.
  fence_guard E now l w1 Hs Hf. rewrite <-Hs in *. claim_guard E r w2 Hs2 Hc.
  unfold bind at 1, get_store in E. rewrite Hs2 in E.
  destruct (negb _) eqn:En; [injection E as _ <-; rewrite Hs2; apply no_effect|].
  apply negb_false_iff, bool_decide_eq_true in En.
  pose proof (claimed_key _ _ _ _ Hi Hc) as Hr. destruct Hc as (_ & _ & _ & _ & Hh & Hl).
  match type of E with context [turns _ !! ?x] => remember x as tid eqn:Etid end.
  assert (TrimSpace tid = tid ∧ tid ≠ "") as [Htrim Hne].
  { subst tid. case_bool_decide as Eb; [split; [apply StableTurnID_trimmed|done]|].
    split; [apply TrimSpace_idem|done]. }
  destruct (turns _ !! tid) as [t|] eqn:Et; [injection E as _ <-; rewrite Hs2; apply no_effect|].
  apply commit_inv in E as [_ ->]. apply one_effect.
  match goal with |- effect _ (update_field _ _ (put_turn (put_input _ ?r') ?t)) =>
    by apply (eff_create_turn (sw_store w1) r r' t) end.
Qed.

Lemma BeginTurn_effect f id w a w' :
  session_inv (sw_store w) → BeginTurn f id w = (a, w') → command_effect (sw_store w) (sw_store w').
Proof.
  intros Hi E. unfold BeginTurn in E.
  fence_guard E now l w1 Hs Hf. rewrite <-Hs in *. turn_guard E t r w2 Hs2 Ht Hsess Hc.
  destruct (negb _); [injection E as _ <-; rewrite Hs2; apply no_effect|].
  unfold bind at 1, get_store in E. rewrite Hs2 in E. apply commit_inv in E as [_ ->].
  destruct (turn_of_claim _ _ _ _ _ Hi Ht Hc) as (_ & _ & _ & Hh & Hl & _).
  apply one_effect. eapply (turn_effect f _ id t r); try done; [by apply move_hold|by apply open_turn_agrees|].
  right. cbn. set_solver.
Qed.

Lemma freeze_context_effect f id through w a w' :
  session_inv (sw_store w) → freeze_context f id through w = (a, w') → command_effect (sw_store w) (sw_store w').
Proof.
  intros Hi E. unfold freeze_context in E.
  fence_guard E now l w1 Hs Hf. rewrite <-Hs in *. turn_guard E t r w2 Hs2 Ht Hsess Hc.
  destruct (tr_ContextSeqFrozen t) eqn:Ez; [injection E as _ <-; rewrite Hs2; apply no_effect|].
  destruct (negb _); [injection E as _ <-; rewrite Hs2; apply no_effect|].
  unfold bind at 1, get_store in E. rewrite Hs2 in E. apply commit_inv in E as [_ ->].
  apply one_effect. eapply (turn_only_effect f _ id t r); try done. by rewrite Ez.
Qed.

Lemma SaveTurnCheckpoint_effect f id checkpoint w a w' :
  session_inv (sw_store w) → SaveTurnCheckpoint f id checkpoint w = (a, w') → command_effect (sw_store w) (sw_store w').
Proof.
  intros Hi E. unfold SaveTurnCheckpoint in E. destruct (bool_decide _); [injection E as _ <-; apply no_effect|].
  fence_guard E now l w1 Hs Hf. rewrite <-Hs in *. turn_guard E t r w2 Hs2 Ht Hsess Hc.
  destruct (negb _); [injection E as _ <-; rewrite Hs2; apply no_effect|].
  unfold bind at 1, get_store in E. rewrite Hs2 in E. apply commit_inv in E as [_ ->].
  apply one_effect. by eapply (turn_only_effect f _ id t r).
Qed.

Lemma SaveTurnOutput_effect f id payload digest w a w' :
  session_inv (sw_store w) → SaveTurnOutput f id payload digest w = (a, w') → command_effect (sw_store w) (sw_store w').
Proof.
  intros Hi E. unfold SaveTurnOutput in E. destruct (_ || _); [injection E as _ <-; apply no_effect|].
  fence_guard E now l w1 Hs Hf. rewrite <-Hs in *. unfold bind at 1, get_store in E.
  destruct (turns _ !! _) as [t|] eqn:Et; [|injection E as _ <-; apply no_effect].
  destruct (negb _); [injection E as _ <-; apply no_effect|].
  destruct (negb _); [injection E as _ <-; apply no_effect|].
  claim_guard E r w2 Hs2 Hc.
  destruct (negb (bool_decide (tr_OutputPayload t = ""))) eqn:Eo.
  - destruct (_ || _); injection E as _ <-; rewrite Hs2; apply no_effect.
  - apply negb_false_iff, bool_decide_eq_true in Eo. apply commit_inv in E as [_ ->].
    apply one_effect. by eapply (turn_only_effect f _ id t r).
Qed.

Lemma WaitForInterrupt_effect f id checkpoint w a w' :
  session_inv (sw_store w) → WaitForInterrupt f id checkpoint w = (a, w') → command_effect (sw_store w) (sw_store w').
Proof.
  intros Hi E. unfold WaitForInterrupt in E. destruct (bool_decide _); [injection E as _ <-; apply no_effect|].
  fence_guard E now l w1 Hs Hf. rewrite <-Hs in *. unfold bind at 1, get_store in E.
  destruct (turns _ !! _) as [t|] eqn:Et; [|injection E as _ <-; apply no_effect].
  destruct (_ && _); [injection E as _ <-; apply no_effect|].
  destruct (bool_decide _); [injection E as _ <-; apply no_effect|].
  claim_guard E r w2 Hs2 Hc.
  destruct (negb _); [injection E as _ <-; rewrite Hs2; apply no_effect|].
  apply commit_inv in E as [_ ->].
  destruct (turn_of_claim _ _ _ _ _ Hi Et Hc) as (_ & _ & _ & Hh & Hl & _).
  apply one_effect. eapply (turn_effect f _ id t r); try done; [apply move_release; try done; set_solver|].
  right. cbn. set_solver.
Qed.

Lemma RetryTurnAt_effect f id at_ failure w a w' :
  session_inv (sw_store w) → RetryTurnAt f id at_ failure w = (a, w') → command_effect (sw_store w) (sw_store w').
Proof.
  intros Hi E. unfold RetryTurnAt in E.
  fence_guard E now l w1 Hs Hf. rewrite <-Hs in *. turn_guard E t r w2 Hs2 Ht Hsess Hc.
  destruct (negb _); [injection E as _ <-; rewrite Hs2; apply no_effect|].
  unfold bind at 1, get_store in E. rewrite Hs2 in E. apply commit_inv in E as [_ ->].
  destruct (turn_of_claim _ _ _ _ _ Hi Ht Hc) as (_ & _ & _ & Hh & Hl & _).
  apply one_effect. eapply (turn_effect f _ id t r); try done;
    [apply move_release; try done; set_solver|by apply open_turn_agrees|].
  right. cbn. set_solver.
Qed.

Lemma CommitTurn_effect f id digest w a w' :
  session_inv (sw_store w) → CommitTurn f id digest w = (a, w') → command_effect (sw_store w) (sw_store w').
Proof.
  intros Hi E. unfold CommitTurn in E.
  fence_guard E now l w1 Hs Hf. rewrite <-Hs in *. unfold bind at 1, get_store in E.
  destruct (turns _ !! _) as [t|] eqn:Et; [|injection E as _ <-; apply no_effect].
  destruct (bool_decide _); [destruct (negb _); injection E as _ <-; apply no_effect|].
  destruct (_ && _) eqn:Eo; [injection E as _ <-; apply no_effect|].
  claim_guard E r w2 Hs2 Hc.
  destruct (negb (status_in _ _)); [injection E as _ <-; rewrite Hs2; apply no_effect|].
  apply commit_inv in E as [_ ->].
  destruct (turn_of_claim _ _ _ _ _ Hi Et Hc) as (_ & _ & _ & Hh & Hl & _).
  apply one_effect. eapply (turn_effect f _ id t r); try done; [apply move_release; try done; set_solver| |].
  - right. cbn. set_solver.
  - intros Hne. split; [done|]. rewrite bool_decide_false in Eo by done. cbn in Eo.
    by apply negb_false_iff, bool_decide_eq_true in Eo.
Qed.

Lemma dead_turn_effect s f id t r t' r' :
  session_inv s → turns s !! TrimSpace id = Some t → claimed_by f s (tr_InputID t) r →
  input_move r r' → in_Status r' = InputStatusDead →
  tr_key t' = tr_key t → tr_Status t' = TurnStatusDead →
  tr_OutputPayload t' = tr_OutputPayload t → tr_OutputDigest t' = tr_OutputDigest t →
  tr_ContextSeqFrozen t' = tr_ContextSeqFrozen t → tr_ContextMessageSeq t' = tr_ContextMessageSeq t →
  effect s (put_input (put_turn (recordTerminalFailureLocked s r (tr_TurnID t)) t') r').
Proof.
  intros Hi Ht Hc Hm Hd Hk Hst E1 E2 E3 E4.
  destruct (turn_of_claim _ _ _ _ _ Hi Ht Hc) as (H1 & H2 & H3 & _ & _ & H5).
  destruct (turn_key _ (inv_turn _ Hi) _ _ H1) as (_ & _ & _ & Hb & _).
  destruct (turn_link _ (inv_turn _ Hi) _ _ Hb) as (t1 & r1 & _ & _ & L3 & L4 & _).
  assert (r1 = r) as -> by congruence.
  eapply (effect_dead_turn s _ r r' r (tr_TurnID t) t t'); try done.
  - rewrite <-L4. destruct Hm as (? & ? & _). symmetry. by apply death_event_ext.
  - split; [done|]. split; [done|]. split.
    + repeat (split; [done|]). rewrite Hst, E1, E2, E3, E4. split; [set_solver|done].
    + split; [rewrite Hst; set_solver|done].
Qed.

Lemma DeadTurn_effect f id failure w a w' :
  session_inv (sw_store w) → DeadTurn f id failure w = (a, w') → command_effect (sw_store w) (sw_store w').
Proof.
  intros Hi E. unfold DeadTurn in E.
  fence_guard E now l w1 Hs Hf. rewrite <-Hs in *. unfold bind at 1, get_store in E.
  destruct (turns _ !! _) as [t|] eqn:Et; [|injection E as _ <-; apply no_effect].
  destruct (bool_decide _) eqn:Ed.
  - apply bool_decide_eq_true in Ed. destruct (inputs _ !! _) as [r|] eqn:Er; [|injection E as _ <-; apply no_effect].
    apply commit_inv in E as [_ ->].
    destruct (turn_key _ (inv_turn _ Hi) _ _ Et) as (Hk & _). apply one_effect, eff_again; [by rewrite Hk|done|done].
  - claim_guard E r w2 Hs2 Hc.
    destruct (status_in _ _); [injection E as _ <-; rewrite Hs2; apply no_effect|].
    apply commit_inv in E as [_ ->].
    destruct (turn_of_claim _ _ _ _ _ Hi Et Hc) as (_ & _ & _ & Hh & Hl & _).
    apply one_effect, (dead_turn_effect _ f id t r); try done. apply move_release; try done. set_solver.
Qed.

(** ** Continuations *)

Lemma RequestContinuation_effect c w a w' :
  RequestContinuation c w = (a, w') → command_effect (sw_store w) (sw_store w').
Proof.
  unfold RequestContinuation. destruct (normalizeContinuation c) as [c'|e] eqn:En; [|by intros [= _ <-]].
  unfold bind at 1, get_store. destruct (continuations _ !! _) as [ex|] eqn:Ex.
  { destruct (_ || _ || _); by intros [= _ <-]. }
  unfold bind at 1, s_now. intros E. apply commit_inv in E as [_ ->].
  apply one_effect, eff_continuation. cbn. by rewrite Ex.
Qed.

Lemma ClaimContinuation_effect claim ttl w a w' :
  ClaimContinuation claim ttl w = (a, w') → command_effect (sw_store w) (sw_store w').
Proof.
  unfold ClaimContinuation, check. destruct (validateContinuationClaim claim); [by intros [= _ <-]|].
  destruct (ttl <=? 0); [by intros [= _ <-]|]. unfold bind at 1, get_store.
  destruct (continuations _ !! _) as [c|] eqn:Ec; [|by intros [= _ <-]].
  unfold bind at 1, s_now. destruct (_ || _); [by intros [= _ <-]|].
  case_bool_decide as Hap; [by intros [= _ <-]|].
  destruct (claim_is_live _ _); [by intros [= _ <-]|]. destruct (negb _); [by intros [= _ <-]|].
  intros E. apply commit_inv in E as [_ ->]. apply one_effect, eff_continuation. cbn. rewrite Ec.
  repeat (split; [done|]). by left.
Qed.

Lemma stale_claim_inv c claim w o w' :
  validateContinuationLeaseLocked c claim w = (o, w') →
  sw_store w' = sw_store w ∧
  (o = None → ac_Executor c = cc_Executor claim ∧ ac_ExecutionEpoch c = cc_ExecutionEpoch claim ∧
              ac_Status c = ContinuationStatusClaimed ∧ ac_LeaseOwner c = cc_LeaseOwner claim).
Proof.
  unfold validateContinuationLeaseLocked, bind, s_now, ret. destruct (_ || _ || _ || _ || _) eqn:E; intros [= <- <-]; [done|].
  split; [done|]. intros _.
  rewrite !orb_false_iff, !negb_false_iff, !bool_decide_eq_true, Z.eqb_eq in E. naive_solver.
Qed.

Lemma FailContinuation_effect claim failure w a w' :
  FailContinuation claim failure w = (a, w') → command_effect (sw_store w) (sw_store w').
Proof.
  unfold FailContinuation, check. destruct (validateContinuationClaim claim); [by intros [= _ <-]|].
  unfold bind at 1, get_store. destruct (continuations _ !! _) as [c|] eqn:Ec; [|by intros [= _ <-]].
  unfold bind at 1. destruct (validateContinuationLeaseLocked c claim w) as [o w1] eqn:Ev.
  apply stale_claim_inv in Ev as [Hs Hv]. destruct o as [e|]; [intros [= _ <-]; by rewrite Hs|].
  destruct (Hv eq_refl) as (V1 & V2 & V3 & V4).
  unfold bind at 1, s_now. intros E. apply commit_inv in E as [_ ->]. apply one_effect, eff_continuation.
  rewrite Ec. cbn. rewrite V3. repeat (split; [done|]). by left.
Qed.

Lemma FallbackContinuation_effect id version epoch w a w' :
  FallbackContinuation id version epoch w = (a, w') → command_effect (sw_store w) (sw_store w').
Proof.
  unfold FallbackContinuation, bind at 1, get_store.
  destruct (continuations _ !! _) as [c|] eqn:Ec; [|by intros [= _ <-]].
  unfold bind at 1, s_now. case_bool_decide as Hap; [by intros [= _ <-]|].
  destruct (_ || _) eqn:Eg; [by intros [= _ <-]|]. destruct (claim_is_live _ _); [by intros [= _ <-]|].
  rewrite orb_false_iff, !negb_false_iff, bool_decide_eq_true in Eg.
  intros E. apply commit_inv in E as [_ ->]. apply one_effect, eff_continuation. cbn. rewrite Ec.
  repeat (split; [done|]). right. split; [done|]. naive_solver.
Qed.

(** What the first loop of [ApplyContinuation] has checked of each command. *)
Lemma normalize_commands_ok s claim l items :
  normalize_commands s claim l = Ok items →
  ∀ c, c ∈ items → ∀ old,
    commands s !! commandIdentity (cl_ApprovalID c) (cl_DecisionVersion c) (cl_CommandKind c) = Some old →
    sameCommand old c = true.
Proof.
  revert items. induction l as [|c0 l IH]; intros items; cbn [normalize_commands].
  { intros [= <-] ? []%not_elem_of_nil. }
  destruct (normalizeCommand c0 claim) as [item|e]; [|done].
  destruct (match commands s !! _ with Some _ => _ | None => _ end) eqn:E1; [done|].
  destruct (match commandKeys s !! _ with Some _ => _ | None => _ end); [done|].
  destruct (normalize_commands s claim l) as [items'|e]; [|done]. intros [= <-].
  intros c [->|Hin]%elem_of_cons old Hold; [|by eapply IH].
  rewrite Hold in E1. by apply negb_false_iff in E1.
Qed.

(** The creation time is no part of the comparison. *)
Lemma sameCommand_time old c now : sameCommand old (c <| cl_CreatedAt := now |>) = sameCommand old c.
Proof. reflexivity. Qed.

Definition command_key (c : ApprovalCommandLedger) : string :=
  commandIdentity (cl_ApprovalID c) (cl_DecisionVersion c) (cl_CommandKind c).

Lemma record_commands_spec now l s :
  ∃ cmds' keys', foldl (record_command now) s l = s <| commands := cmds' |> <| commandKeys := keys' |> ∧
    ∀ k, cmds' !! k = commands s !! k ∨
         ∃ c c', c ∈ l ∧ k = command_key c ∧ cmds' !! k = Some c' ∧ (∀ old, sameCommand old c' = sameCommand old c).
Proof.
  revert s. induction l as [|c l IH]; intros s; cbn [foldl].
  { exists (commands s), (commandKeys s). split; [by destruct s|]. by left. }
  destruct (IH (record_command now s c)) as (cmds' & keys' & -> & Hk). exists cmds', keys'. split.
  { done. }
  intros k. destruct (Hk k) as [Hk'|(c1 & c' & Hin & Hk')]; [|right; exists c1, c'; split; [by right|done]].
  assert (commands (record_command now s c) = <[command_key c :=
    if IsZero (cl_CreatedAt c) then c <| cl_CreatedAt := now |> else c]> (commands s)) as Hcmds.
  { unfold record_command. by destruct (IsZero _). }
  rewrite Hcmds in Hk'. destruct (decide (k = command_key c)) as [->|Hne].
  - right. exists c, (if IsZero (cl_CreatedAt c) then c <| cl_CreatedAt := now |> else c).
    rewrite lookup_insert_eq in Hk'. split; [by left|]. split; [done|]. split; [done|].
    intros old. destruct (IsZero _); [apply sameCommand_time|done].
  - left. rewrite lookup_insert_ne in Hk'; [done|congruence].
Qed.

Lemma ApplyContinuation_effect claim cmds w a w' :
  ApplyContinuation claim cmds w = (a, w') → command_effect (sw_store w) (sw_store w').
Proof.
  unfold ApplyContinuation, check at 1. destruct (validateContinuationClaim claim); [by intros [= _ <-]|].
  unfold bind at 1, get_store. destruct (continuations _ !! _) as [c|] eqn:Ec; [|by intros [= _ <-]].
  case_bool_decide as Hap; [by intros [= _ <-]|].
  unfold bind at 1. destruct (validateContinuationLeaseLocked c claim w) as [o w1] eqn:Ev.
  apply stale_claim_inv in Ev as [Hs Hv]. unfold check. destruct o as [e|]; [intros [= _ <-]; by rewrite Hs|].
  destruct (Hv eq_refl) as (V1 & V2 & V3 & V4).
  destruct (normalize_commands _ _ _) as [items|e] eqn:En; [|intros [= _ <-]; by rewrite Hs].
  unfold bind at 1, s_now. intros E. apply commit_inv in E as [_ ->].
  set (now := now_at _).
  destruct (record_commands_spec now items (sw_store w)) as (cmds' & keys' & -> & Hk).
  eapply quiet_then; [apply rtc_once; split; [apply (eff_commands _ cmds' keys')|]|apply eff_continuation].
  - intros k old Hold. destruct (Hk k) as [->|(c1 & c' & Hin & -> & Hc' & Hsame)]; [by eauto|].
    exists c'. split; [done|]. right. rewrite Hsame. by eapply normalize_commands_ok.
  - intros n. by apply same_within.
  - cbn. rewrite Ec. repeat (split; [done|]). by left.
Qed.
End ops.
