(* ===== verification/SessionProps.v ===== *)
(** * Session runtime: runs of commands and what they keep

    Runs of the store's commands, the history that every run keeps, and the
    theorems about lanes, fences, endings and announcements. *)

From Stdlib Require Import ZArith Lia Ascii Sorted.
From S2P Require Import Prelude GoJson SessionModels SessionStore SessionEffects SessionInv SessionOps.

Section runs.
Context `{Codec} `{Clock} {X : Type}.
Implicit Types (w : sworld X) (s : MemoryStore).

Lemma only_error_inv {A} (c : Eff (sworld X) (result A)) w e w' :
  only_error c w = (e, w') →
  ∃ a, c w = (a, w') ∧ e = match a with Ok _ => None | Err e => Some e end.
Proof. unfold only_error, bind, ret. destruct (c w) as [a w1]. intros [= <- <-]. by exists a. Qed.

Lemma ListRunnableSessions_same limit w a w' :
  ListRunnableSessions limit w = (a, w') → sw_store w' = sw_store w.
Proof. unfold ListRunnableSessions, bind, get_store, s_now, ret. by intros [= _ <-]. Qed.

Lemma ValidateFence_same f w a w' : ValidateFence f w = (a, w') → sw_store w' = sw_store w.
Proof. intros [(e & _ & Hs)|(now & l & w1 & Hs & _ & [= _ <-])]%with_fence_inv; done. Qed.

Lemma FreezeTurnContextMessageSeq_effect f id seq w a w' :
  session_inv (sw_store w) → FreezeTurnContextMessageSeq f id seq w = (a, w') →
  command_effect (sw_store w) (sw_store w').
Proof.
  intros Hi. unfold FreezeTurnContextMessageSeq. destruct (seq <? 0); [intros [= _ <-]; apply no_effect|].
  by apply freeze_context_effect.
Qed.

(** Every command makes a sequence of effects. *)
Lemma run_command_effect c w e w' :
  session_inv (sw_store w) → small (sw_store w) → run_command c w = (e, w') →
  command_effect (sw_store w) (sw_store w').
Proof.
  intros Hi Hsm E. destruct c; cbn [run_command] in E; apply only_error_inv in E as (a & E & _);
    eauto using EnqueueInput_effect, ClaimNext_effect, MarkInputRunning_effect, RetryInput_effect,
      ResolveInput_effect, DeadInput_effect, RecoverExpiredInputs_effect, AcquireLease_effect, RenewLease_effect,
      HandoffLease_effect, ReleaseLease_effect, GetOrCreateTurn_effect, BeginTurn_effect,
      FreezeTurnContextMessageSeq_effect, SaveTurnCheckpoint_effect, SaveTurnOutput_effect, WaitForInterrupt_effect,
      RetryTurnAt_effect, CommitTurn_effect, DeadTurn_effect, RequestContinuation_effect,
      ClaimContinuation_effect, ApplyContinuation_effect, FailContinuation_effect, FallbackContinuation_effect.
  - unfold GetInput, bind, get_store in E. destruct (inputs _ !! _); injection E as _ <-; apply no_effect.
  - apply ListRunnableSessions_same in E as ->. apply no_effect.
  - apply ValidateFence_same in E as ->. apply no_effect.
  - unfold GetTurn, bind, get_store in E. destruct (turns _ !! _); injection E as _ <-; apply no_effect.
  - eapply freeze_context_effect; [exact Hi|exact E].
  - unfold GetContinuation, bind, get_store in E. destruct (continuations _ !! _); injection E as _ <-; apply no_effect.
  - unfold GetCommand, bind, get_store in E. destruct (commands _ !! _); injection E as _ <-; apply no_effect.
Qed.

(** ** Runs

    A step is a command; between the commands the clock may be read and the
    outside may change.  A store is reachable by fewer than [int64_max] steps: its
    counters, which each command moves by at most one, are then not full. *)
Inductive session_step : sworld X → sworld X → Prop :=
| step_command c w e w' : run_command c w = (e, w') → session_step w w'
| step_outside w n x : session_step w (mkSWorld (sw_store w) n x).

Definition session_start w : Prop := sw_store w = NewMemoryStore.

Definition reached (n : nat) w : Prop := ∃ w0, session_start w0 ∧ nsteps session_step n w0 w.

Definition session_reachable w : Prop := ∃ n, Z.of_nat n < int64_max ∧ reached n w.

(** [w'] comes after [w] in a run. *)
Definition session_future w w' : Prop :=
  ∃ n m, Z.of_nat (n + m) < int64_max ∧ reached n w ∧ nsteps session_step m w w'.

Lemma reached_steps n m w w' : reached n w → nsteps session_step m w w' → reached (n + m) w'.
Proof. intros (w0 & Hw0 & Hs0) Hm. exists w0. split; [done|]. by eapply nsteps_trans. Qed.

Lemma future_reachable w w' : session_future w w' → session_reachable w ∧ session_reachable w'.
Proof.
  intros (n & m & Hle & Hn & Hm). split; [exists n; split; [lia|done]|].
  exists (n + m)%nat. split; [done|by eapply reached_steps].
Qed.

Lemma future_refl w : session_reachable w → session_future w w.
Proof. intros (n & Hle & Hn). exists n, 0%nat. split; [lia|]. split; [done|constructor]. Qed.

Lemma session_step_inv n w w' :
  session_inv (sw_store w) → within n (sw_store w) → n < int64_max → session_step w w' →
  rtc effect (sw_store w) (sw_store w') ∧ session_inv (sw_store w') ∧ within (n + 1) (sw_store w').
Proof.
  intros Hi Hw Hn Hst. revert Hi Hw. destruct Hst as [c w e w' E|w k x]; intros Hi Hw.
  - pose proof (run_command_effect _ _ _ _ Hi (within_small _ _ Hn Hw) E) as He.
    pose proof (command_effect_rtc _ _ He) as Hr.
    split; [done|]. split; [by eapply effects_inv|by eapply command_effect_within].
  - split; [apply rtc_refl|]. split; [done|]. apply (within_le n); [lia|done].
Qed.

Lemma session_steps_inv n m w w' :
  session_inv (sw_store w) → within (Z.of_nat n) (sw_store w) → Z.of_nat (n + m) < int64_max →
  nsteps session_step m w w' →
  rtc effect (sw_store w) (sw_store w') ∧ session_inv (sw_store w') ∧ within (Z.of_nat (n + m)) (sw_store w').
Proof.
  intros Hi Hw Hle Hs. revert n Hi Hw Hle. induction Hs as [w|m w w1 w' Hst Hs IH]; intros n Hi Hw Hle.
  { rewrite Nat.add_0_r. split; [apply rtc_refl|done]. }
  destruct (session_step_inv _ _ _ Hi Hw ltac:(lia) Hst) as (He & Hi1 & Hw1).
  destruct (IH (S n) Hi1) as (He2 & Hi2 & Hw2); [by replace (Z.of_nat (S n)) with (Z.of_nat n + 1) by lia|lia|].
  split; [by etrans|]. split; [done|]. by replace (n + S m)%nat with (S n + m)%nat by lia.
Qed.

Lemma reached_inv n w :
  reached n w → Z.of_nat n < int64_max → session_inv (sw_store w) ∧ within (Z.of_nat n) (sw_store w).
Proof.
  intros (w0 & Hw0 & Hs) Hn.
  destruct (session_steps_inv 0 n w0 w) as (_ & ? & ?); try done; rewrite Hw0; [apply initial_inv|].
  split_and!; cbn; try done.
Qed.

Lemma session_reachable_inv w : session_reachable w → session_inv (sw_store w).
Proof. intros (n & Hn & Hr). by destruct (reached_inv _ _ Hr Hn). Qed.

Lemma session_reachable_small w : session_reachable w → small (sw_store w).
Proof. intros (n & Hn & Hr). destruct (reached_inv _ _ Hr Hn) as [_ Hw]. by eapply within_small. Qed.

(** ** History *)

Definition input_history (r r' : SessionInputRecord) : Prop :=
  in_key r' = in_key r ∧ in_Attempts r <= in_Attempts r' ∧
  (in_TurnID r ≠ "" → in_TurnID r' = in_TurnID r) ∧
  (isTerminalInputStatus (in_Status r) = true → r' = r).

Definition turn_history (t t' : SessionTurnRun) : Prop :=
  tr_key t' = tr_key t ∧
  (isTerminalTurnStatus (tr_Status t) = true → t' = t) ∧
  (tr_OutputPayload t ≠ "" → tr_OutputPayload t' = tr_OutputPayload t ∧ tr_OutputDigest t' = tr_OutputDigest t) ∧
  (tr_ContextSeqFrozen t = true →
   tr_ContextSeqFrozen t' = true ∧ tr_ContextMessageSeq t' = tr_ContextMessageSeq t).

Definition lease_history (l l' : SessionRuntimeLease) : Prop :=
  sl_FenceToken l <= sl_FenceToken l' ∧
  (sl_FenceToken l' = sl_FenceToken l → sl_OwnerID l' = sl_OwnerID l).

Definition continuation_history (c c' : ApprovalContinuation) : Prop :=
  ac_ApprovalID c' = ac_ApprovalID c ∧ ac_DecisionVersion c' = ac_DecisionVersion c ∧
  ac_SessionID c' = ac_SessionID c ∧
  ((ac_ExecutionEpoch c' = ac_ExecutionEpoch c ∧ ac_Executor c' = ac_Executor c) ∨
   (ac_ExecutionEpoch c' = incr (ac_ExecutionEpoch c) ∧
    ac_Executor c = ContinuationExecutorRunnerResume ∧ ac_Executor c' = ContinuationExecutorDeterministic)) ∧
  (ac_Status c = ContinuationStatusApplied → c' = c).

Definition command_history (c c' : ApprovalCommandLedger) : Prop := c' = c ∨ sameCommand c c' = true.

(** Everything that is in [m] stays in [m'], related. *)
Definition kept {A} (R : A → A → Prop) (m m' : gmap string A) : Prop :=
  ∀ k a, m !! k = Some a → ∃ a', m' !! k = Some a' ∧ R a a'.

Lemma kept_refl {A} (R : A → A → Prop) m : (∀ a, R a a) → kept R m m.
Proof. intros HR k a Ha. by exists a. Qed.

Lemma kept_trans {A} (R : A → A → Prop) m1 m2 m3 :
  (∀ a b c, R a b → R b c → R a c) → kept R m1 m2 → kept R m2 m3 → kept R m1 m3.
Proof.
  intros HR H1 H2 k a Ha. destruct (H1 _ _ Ha) as (b & Hb & Hab). destruct (H2 _ _ Hb) as (c & Hc & Hbc).
  exists c. by eauto.
Qed.

Lemma kept_insert {A} (R : A → A → Prop) m k a' :
  (∀ a, R a a) → (∀ a, m !! k = Some a → R a a') → kept R m (<[k := a']> m).
Proof.
  intros HR Hk k0 a Ha. destruct (decide (k0 = k)) as [->|Hne].
  - exists a'. rewrite lookup_insert_eq. split; [done|]. by apply Hk.
  - exists a. rewrite lookup_insert_ne by congruence. by split.
Qed.

(** Leases under the keys the store looks up. *)
Definition trimmed_leases s : gmap string SessionRuntimeLease :=
  filter (fun '(k, _) => TrimSpace k = k) (leases s).

Record history s s' : Prop := {
  hist_inputs : kept input_history (inputs s) (inputs s');
  hist_turns : kept turn_history (turns s) (turns s');
  hist_leases : kept lease_history (trimmed_leases s) (trimmed_leases s');
  hist_continuations : kept continuation_history (continuations s) (continuations s');
  hist_commands : kept command_history (commands s) (commands s');
  hist_events : kept eq (terminalEvents s) (terminalEvents s')
}.

Lemma input_history_refl r : input_history r r.
Proof. repeat split; try done. Qed.

Lemma input_history_trans a b c : input_history a b → input_history b c → input_history a c.
Proof.
  intros (K1 & A1 & T1 & E1) (K2 & A2 & T2 & E2). split; [congruence|]. split; [lia|]. split.
  - intros Hne. rewrite T2; [by apply T1|]. by rewrite T1.
  - intros Ht. specialize (E1 Ht). subst b. by apply E2.
Qed.

Lemma turn_history_refl t : turn_history t t.
Proof. repeat split; done. Qed.

Lemma turn_history_trans a b c : turn_history a b → turn_history b c → turn_history a c.
Proof.
  intros (K1 & E1 & O1 & C1) (K2 & E2 & O2 & C2). split; [congruence|]. split; [|split].
  - intros Ht. specialize (E1 Ht). subst b. by apply E2.
  - intros Hne. destruct (O1 Hne) as [P1 D1]. destruct O2 as [P2 D2]; [by rewrite P1|]. split; congruence.
  - intros Hf. destruct (C1 Hf) as [F1 S1]. destruct (C2 F1) as [F2 S2]. split; congruence.
Qed.

Lemma lease_history_trans a b c : lease_history a b → lease_history b c → lease_history a c.
Proof.
  intros [A1 A2] [B1 B2]. split; [lia|]. intros E. rewrite B2, A2 by lia. done.
Qed.

Lemma continuation_history_refl c : continuation_history c c.
Proof. repeat (split; [done|]). split; [by left|done]. Qed.

Lemma continuation_history_trans a b c :
  continuation_history a b → continuation_history b c → continuation_history a c.
Proof.
  intros (A1 & A2 & A3 & A4 & A6) (B1 & B2 & B3 & B4 & B6).
  split; [congruence|]. split; [congruence|]. split; [congruence|]. split.
  - destruct A4 as [[A4 A5]|(A4 & A5 & A7)], B4 as [[B4 B5]|(B4 & B5 & B7)].
    + left. split; congruence.
    + right. split; [congruence|]. split; congruence.
    + right. split; [congruence|]. split; congruence.
    + exfalso. by rewrite A7 in B5.
  - intros Ha. specialize (A6 Ha). subst b. by apply B6.
Qed.

Lemma jsonEqual_trans a b c : jsonEqual a b = true → jsonEqual b c = true → jsonEqual a c = true.
Proof.
  unfold jsonEqual. destruct (json_Unmarshal_any a), (json_Unmarshal_any b), (json_Unmarshal_any c); try done.
  rewrite !bool_decide_eq_true. congruence.
Qed.

Lemma sameCommand_trans a b c : sameCommand a b = true → sameCommand b c = true → sameCommand a c = true.
Proof.
  unfold sameCommand. rewrite !andb_true_iff, !bool_decide_eq_true, !Z.eqb_eq.
  intros H1 H2. destruct_and!. split_and!; try congruence; by eapply jsonEqual_trans.
Qed.

Lemma command_history_trans a b c : command_history a b → command_history b c → command_history a c.
Proof.
  unfold command_history. intros [-> | Hab] [-> | Hbc]; eauto using sameCommand_trans.
Qed.

Lemma history_refl s : history s s.
Proof.
  constructor; apply kept_refl; intros; [apply input_history_refl|apply turn_history_refl|done|apply continuation_history_refl|by left|done].
Qed.

Lemma history_trans s1 s2 s3 : history s1 s2 → history s2 s3 → history s1 s3.
Proof.
  intros [A1 A2 A3 A4 A5 A6] [B1 B2 B3 B4 B5 B6].
  constructor; (eapply kept_trans; [|eassumption|eassumption]);
    eauto using input_history_trans, turn_history_trans, lease_history_trans, continuation_history_trans,
      command_history_trans.
  intros ??? -> ->. done.
Qed.

(** ** Every effect keeps the history *)

Lemma kept_same {A} (R : A → A → Prop) m m' : (∀ a, R a a) → m' = m → kept R m m'.
Proof. intros HR ->. by apply kept_refl. Qed.

(** Stores that differ in their inputs and turns only, or not even there. *)
Lemma history_lane s s' :
  kept input_history (inputs s) (inputs s') → kept turn_history (turns s) (turns s') →
  leases s' = leases s → continuations s' = continuations s → commands s' = commands s →
  kept eq (terminalEvents s) (terminalEvents s') → history s s'.
Proof.
  intros Hi Ht Hl Hc Hcm He. constructor; try done; (apply kept_same; [|unfold trimmed_leases; congruence]);
    intros; first [done|apply continuation_history_refl|by left].
Qed.

Lemma input_update_kept s r r' :
  inputs s !! in_InputID r = Some r → input_history r r' → kept input_history (inputs s) (<[in_InputID r := r']> (inputs s)).
Proof. intros Hr Hh. apply kept_insert; [apply input_history_refl|]. intros a Ha. by assert (a = r) as -> by congruence. Qed.

Lemma recorded_kept s r turnID :
  kept eq (terminalEvents s) (terminalEvents (recordTerminalFailureLocked s r turnID)).
Proof.
  rewrite recorded. destruct (terminalEvents s !! _) eqn:E; [by apply kept_refl|].
  apply kept_insert; [done|]. intros a Ha. congruence.
Qed.

Lemma announced_kept s r : kept eq (terminalEvents s) (terminalEvents (announce_death s r)).
Proof. unfold announce_death. destruct (bool_decide _); [apply recorded_kept|by apply kept_refl]. Qed.

Lemma turn_move_history t t' : turn_move t t' → turn_history t t'.
Proof. intros (Hk & Hn & _ & Ho & Hc). split; [done|]. split; [congruence|]. by split. Qed.

Lemma input_move_history r r' : input_ok r → input_move r r' → input_history r r'.
Proof.
  intros Hok Hm. pose proof (input_move_started _ _ Hok Hm) as Hst. destruct Hm as (Hk & Ht & Ha & _).
  split; [done|]. split; [lia|]. split; [done|]. unfold is_started in Hst.
  apply andb_prop in Hst as [_ Hn%negb_true_iff]. congruence.
Qed.

Lemma lane_effect_history s r r' t' :
  session_inv s → inputs s !! in_InputID r = Some r → input_move r r' →
  match t' with
  | Some t' => ∃ t, turns s !! tr_TurnID t' = Some t ∧ turn_move t t' ∧ tr_InputID t = in_InputID r ∧ turn_agrees t' r'
  | None => True
  end →
  history s (put_input (put_turn_opt (announce_death s r') t') r').
Proof.
  intros Hi Hr Hm Ht. destruct (lane_key _ (inv_lane _ Hi) _ _ Hr) as (_ & _ & _ & _ & _ & Hok).
  destruct (announced_fields s r') as (F1 & _ & _ & F4 & F5 & _ & F7 & F8 & _).
  pose proof (announced_kept s r') as Hev.
  generalize dependent (announce_death s r'). intros s1 F1 F4 F5 F7 F8 Hev.
  pose proof Hm as (Hkey & _). destruct (in_key_fields _ _ Hkey) as (Hid & _).
  pose proof (input_update_kept _ _ _ Hr (input_move_history _ _ Hok Hm)) as Hin.
  destruct t' as [t'|]; apply history_lane; cbn; rewrite ?F1, ?F5, ?Hid; try done.
  - destruct Ht as (t & Ht & Hmt & _). apply kept_insert; [apply turn_history_refl|].
    intros a Ha. assert (a = t) as -> by congruence. by apply turn_move_history.
  - apply kept_refl, turn_history_refl.
Qed.

Lemma lease_effect_history s k l :
  (TrimSpace k = k → lease_move k (leases s !! k) l) → history s (s <| leases := <[k := l]> (leases s) |>).
Proof.
  intros Hm. constructor; cbn.
  - apply kept_refl, input_history_refl.
  - apply kept_refl, turn_history_refl.
  - intros k0 l0 [Hl0 Ht]%map_lookup_filter_Some. cbn in Ht.
    destruct (decide (k0 = k)) as [->|Hne].
    + exists l. unfold trimmed_leases. cbn. rewrite map_lookup_filter_Some, lookup_insert_eq. split; [done|].
      destruct (Hm Ht) as (_ & _ & Hm'). rewrite Hl0 in Hm'. destruct Hm' as (_ & [[E1 E2]|E]).
      * split; [lia|done].
      * split; lia.
    + exists l0. unfold trimmed_leases. cbn. rewrite map_lookup_filter_Some, lookup_insert_ne by congruence. by split; [|split].
  - apply kept_refl, continuation_history_refl.
  - apply kept_refl. by left.
  - by apply kept_refl.
Qed.

Lemma effect_history s s' : effect s s' → session_inv s → history s s'.
Proof.
  intros He Hi. destruct He as [s r ? ? ? ? Hfresh|s k l Hm|s r r' l Hr Hkey Ht Hw _ Ha|s r r' t' Hr Hm Ht
    |s r r' t Hr Hh Hkey Hst Ha _ _ _ Htid Hnone Hfresh|s r t Ht Hd Hr|s k c Hm|s cmds' keys' Hm].
  - apply history_lane; cbn; try done; [|apply kept_refl, turn_history_refl|by apply kept_refl].
    apply kept_insert; [apply input_history_refl|]. congruence.
  - by apply lease_effect_history.
  - destruct (in_key_fields _ _ Hkey) as (Hid & _).
    apply history_lane; cbn; unfold cloneInput, cloneTurn; rewrite ?Hid; try done; [|apply kept_refl, turn_history_refl|by apply kept_refl].
    apply input_update_kept; [done|]. split; [done|]. split; [lia|]. split; [done|].
    unfold isTerminalInputStatus. apply waits_status in Hw as [-> | ->]; done.
  - by eapply lane_effect_history.
  - destruct (in_key_fields _ _ Hkey) as (Hid & _).
    apply history_lane; cbn; unfold cloneInput, cloneTurn; rewrite ?Hid; try done; [| |by apply kept_refl].
    + apply input_update_kept; [done|]. split; [done|]. split; [lia|]. split.
      * intros Hne. pose proof (turn_back _ (inv_turn _ Hi) _ _ Hr Hne) as Hb.
        unfold string_at in Hnone. rewrite Hb in Hnone. done.
      * unfold isTerminalInputStatus. apply holds_claim_status in Hh as [-> | ->]; done.
    + apply kept_insert; [apply turn_history_refl|]. congruence.
  - rewrite again_effect by done. apply history_refl.
  - constructor; cbn.
    + apply kept_refl, input_history_refl.
    + apply kept_refl, turn_history_refl.
    + by apply kept_refl.
    + apply kept_insert; [apply continuation_history_refl|]. intros c0 Hc0. rewrite Hc0 in Hm. cbn in Hm.
      destruct Hm as (Hn & H1 & H2 & H3 & [(E1 & E2 & _)|(E1 & E2 & E3 & _)]); repeat (split; [done|]);
        (split; [first [by left|by right]|done]).
    + apply kept_refl. by left.
    + by apply kept_refl.
  - constructor; cbn; [apply kept_refl, input_history_refl|apply kept_refl, turn_history_refl
      |by apply kept_refl|apply kept_refl, continuation_history_refl|exact Hm|by apply kept_refl].
Qed.

Lemma effects_history s s' : rtc effect s s' → session_inv s → history s s'.
Proof.
  induction 1 as [s|s s1 s' He _ IH]; intros Hi; [apply history_refl|].
  eapply history_trans; [by apply effect_history|]. apply IH. by eapply effect_inv.
Qed.

Lemma future_history w w' : session_future w w' → history (sw_store w) (sw_store w').
Proof.
  intros (n & m & Hle & Hn & Hm). destruct (reached_inv _ _ Hn ltac:(lia)) as [Hi Hw].
  destruct (session_steps_inv n m w w' Hi Hw Hle Hm) as (He & _). by apply effects_history.
Qed.
End runs.
