(* ===== verification/SessionRuns.v ===== *)
(** * Session runtime: theorems about runs of the store

    One owner at a time in the lane of a session, fences that stay refused once
    overtaken, endings that stay, announcements of the dead, the contract of
    [EnqueueInput] and of [ClaimNext], and continuations applied once. *)

From Stdlib Require Import ZArith Lia Ascii Sorted.
From S2P Require Import Prelude GoJson SessionModels SessionStore SessionEffects SessionInv SessionOps SessionProps.

(** ** Sample data

    A codec that writes a user message as its identifier, a clock that
    advances by one, and a short run: two messages of one session, a lease and
    the claim of the first message. *)
Module SessionSample.
#[export] Instance codec : Codec := {|
  json_Marshal_input v :=
    match v with TUserMessage m => Ok (um_MessageID m) | _ => Ok "{}" end;
  json_Marshal_map m := "{}";
  json_Valid s := negb (bool_decide (s = ""));
  json_Unmarshal_any s := Some (AStr s);
  json_Unmarshal_UserMessage s := Ok (NewUserMessage s "");
  json_Unmarshal_ResumeRequested s := Err (Errorf "no sample");
  json_Unmarshal_BatchContinuationResult s := Err (Errorf "no sample");
  json_Unmarshal_ApprovalContinuationResult s := Err (Errorf "no sample");
  sha256_Sum256 s := s
|}.
#[export] Instance ticking : Clock := fun n => 1000 + Z.of_nat n.

Definition message (id : string) : SessionInput := ByValue (TUserMessage (NewUserMessage id "")).
Definition world0 : sworld unit := mkSWorld NewMemoryStore 0 tt.
Definition world1 : sworld unit := (run_command (CEnqueueInput "s" (message "m1")) world0).2.
Definition world2 : sworld unit := (run_command (CEnqueueInput "s" (message "m2")) world1).2.
Definition world3 : sworld unit := (run_command (CAcquireLease "s" "a" 100) world2).2.
Definition fence : Fence := mkFence "s" "a" 1.
Definition options : ClaimOptions := mkClaimOptions fence 50 3.
Definition world4 : sworld unit := (run_command (CClaimNext options) world3).2.

Lemma reach (c : session_command) (n : nat) (w : sworld unit) : reached n w → reached (S n) (run_command c w).2.
Proof.
  intros (w0 & Hw0 & Hr). exists w0. split; [done|]. eapply nsteps_r; [exact Hr|].
  destruct (run_command c w) as [e w'] eqn:E. eapply step_command. exact E.
Qed.

Lemma reached0 : reached 0 world0.
Proof. exists world0. split; [reflexivity|constructor]. Qed.
Lemma reached1 : reached 1 world1.
Proof. apply reach, reached0. Qed.
Lemma reached2 : reached 2 world2.
Proof. apply reach, reached1. Qed.
Lemma reached3 : reached 3 world3.
Proof. apply reach, reached2. Qed.
Lemma reached4 : reached 4 world4.
Proof. apply reach, reached3. Qed.

(** The run does what it is meant to. *)
Example claimed_first : (fun '(k, r) => (k, in_Status r, in_EnqueueSeq r, in_Attempts r)) <$> map_to_list (inputs (sw_store world4))
  = [("message:m1", "claimed", 1, 1); ("message:m2", "pending", 2, 0)]
  ∨ (fun '(k, r) => (k, in_Status r, in_EnqueueSeq r, in_Attempts r)) <$> map_to_list (inputs (sw_store world4))
  = [("message:m2", "pending", 2, 0); ("message:m1", "claimed", 1, 1)].
Proof. vm_compute. first [left; reflexivity|right; reflexivity]. Qed.
End SessionSample.

Section theorems.
Context `{Codec} `{Clock} {X : Type}.
Implicit Types (w : sworld X) (s : MemoryStore).

(** ** Lanes *)

(** C9. In every store that the runtime can reach, a session has at most one
    input that has been started and has not ended, so at most one input of it is
    claimed or running; the sequence numbers of its inputs are positive, differ
    and do not exceed its counter; and each claimed or running input holds its
    claim under a token of the session's lease that is the current one only if
    the claim is the current owner's. *)
Theorem one_started_input_per_session w :
  session_reachable w →
  (∀ k1 k2 r1 r2, inputs (sw_store w) !! k1 = Some r1 → inputs (sw_store w) !! k2 = Some r2 →
     in_SessionID r1 = in_SessionID r2 →
     (is_started r1 = true → is_started r2 = true → k1 = k2) ∧
     (holds_claim r1 = true → holds_claim r2 = true → k1 = k2) ∧
     (in_EnqueueSeq r1 = in_EnqueueSeq r2 → k1 = k2)) ∧
  (∀ k r, inputs (sw_store w) !! k = Some r →
     1 <= in_EnqueueSeq r <= counter_at (inputCounters (sw_store w)) (in_SessionID r) ∧
     (holds_claim r = true → ∃ l,
        leases (sw_store w) !! in_SessionID r = Some l ∧ 0 < in_ClaimFence r <= sl_FenceToken l ∧
        (in_ClaimFence r = sl_FenceToken l → TrimSpace (in_ClaimOwner r) = sl_OwnerID l))).
Proof.
  intros Hr%session_reachable_inv. destruct Hr as [L _ E _ _ _]. split.
  - intros k1 k2 r1 r2 H1 H2 Hs. split; [by eapply (lane_single _ L)|].
    split; [by eapply lane_claims|by eapply (lane_order _ L)].
  - intros k r Hk. split; [by eapply (lane_seq _ L)|by apply (lease_claim _ E _ _ Hk)].
Qed.

(** ** Fences *)

Definition overtaken (l : SessionRuntimeLease) (f : Fence) : Prop :=
  fn_FenceToken f < sl_FenceToken l ∨
  (fn_FenceToken f = sl_FenceToken l ∧ TrimSpace (fn_OwnerID f) ≠ sl_OwnerID l).

Lemma overtaken_history l l' f : lease_history l l' → overtaken l f → overtaken l' f.
Proof.
  unfold overtaken. intros [Hle Heq] [Hlt|[Htok Ho]]; [left; lia|].
  destruct (decide (sl_FenceToken l' = sl_FenceToken l)) as [E|]; [|left; lia].
  right. rewrite E, Heq by done. done.
Qed.

Lemma overtaken_rejected s f l now :
  leases s !! TrimSpace (fn_SessionID f) = Some l → overtaken l f → ∃ e, validateFenceLocked s f now = Err e.
Proof.
  intros Hl Ho. destruct (validateFenceLocked s f now) as [l'|e] eqn:E; [|by exists e]. exfalso.
  destruct (validateFence_Ok _ _ _ _ E) as (E1 & _ & E2 & _ & E3 & _). assert (l' = l) as -> by congruence.
  destruct Ho as [?|[_ Ho]]; [lia|]. by apply Ho.
Qed.

Definition refused {A} (c : Eff (sworld X) (result A)) w : Prop :=
  ∃ e w', c w = (Err e, w') ∧ sw_store w' = sw_store w.

Lemma refused_fail {A} e w : refused (@fail (sworld X) A e) w.
Proof. by exists e, w. Qed.

Lemma refused_if {A} (b : bool) e (c : Eff (sworld X) (result A)) w :
  refused c w → refused (if b then fail e else c) w.
Proof. destruct b; [intros; apply refused_fail|done]. Qed.

Lemma refused_fence {A} f (k : Time → SessionRuntimeLease → Eff (sworld X) (result A)) w :
  (∀ now, ∃ e, validateFenceLocked (sw_store w) f now = Err e) → refused (with_fence f k) w.
Proof.
  intros Hf. destruct (Hf (now_at (sw_reads w))) as [e He]. unfold refused, with_fence, bind, s_now, get_store.
  cbn. rewrite He. by eexists _, _.
Qed.

Lemma refused_command {A} (c : Eff (sworld X) (result A)) w :
  refused c w → ∃ e w', only_error c w = (Some e, w') ∧ sw_store w' = sw_store w.
Proof. intros (e & w' & E & Hs). exists e, w'. unfold only_error, bind. by rewrite E. Qed.

Lemma fenced_command_refused c f w :
  fence_of c = Some f → (∀ now, ∃ e, validateFenceLocked (sw_store w) f now = Err e) →
  ∃ e w', run_command c w = (Some e, w') ∧ sw_store w' = sw_store w.
Proof.
  intros Hc Hf. destruct c; try discriminate Hc; injection Hc as <-;
    cbn [run_command]; apply refused_command;
    repeat first [by apply refused_fence | apply refused_if].
Qed.

(** C37. Once the lease of a session has moved past a fence -- its token is
    larger, or it is the same and belongs to another owner -- every method that
    carries the fence is refused from then on, after any further commands of any
    callers, and leaves the store as it is. *)
Theorem overtaken_fence_is_refused w w' sid l c f :
  session_future w w' → leases (sw_store w) !! sid = Some l →
  fence_of c = Some f → TrimSpace (fn_SessionID f) = sid → overtaken l f →
  ∃ e w'', run_command c w' = (Some e, w'') ∧ sw_store w'' = sw_store w'.
Proof.
  intros Hfut Hl Hc Hsid Ho. pose proof (future_history _ _ Hfut) as Hh.
  assert (trimmed_leases (sw_store w) !! sid = Some l) as Hl'.
  { apply map_lookup_filter_Some. split; [done|]. rewrite <-Hsid. apply TrimSpace_idem. }
  destruct (hist_leases _ _ Hh _ _ Hl') as (l' & [Hl2 _]%map_lookup_filter_Some & Hlh).
  eapply fenced_command_refused; [exact Hc|]. intros now.
  eapply overtaken_rejected; [by rewrite Hsid|by eapply overtaken_history].
Qed.

(** ** Endings *)

(** What has ended stays: a resolved or dead input and a committed, waiting
    or dead turn are the same record after any further commands; the output of
    a turn, once saved, and its digest never change, nor does the message
    boundary of a turn once frozen; and no event of a dead input is lost or
    rewritten. *)
Theorem what_has_ended_stays w w' :
  session_future w w' →
  (∀ k r, inputs (sw_store w) !! k = Some r → isTerminalInputStatus (in_Status r) = true →
     inputs (sw_store w') !! k = Some r) ∧
  (∀ k t, turns (sw_store w) !! k = Some t → isTerminalTurnStatus (tr_Status t) = true →
     turns (sw_store w') !! k = Some t) ∧
  (∀ k t, turns (sw_store w) !! k = Some t → tr_OutputPayload t ≠ "" →
     ∃ t', turns (sw_store w') !! k = Some t' ∧ tr_OutputPayload t' = tr_OutputPayload t ∧
           tr_OutputDigest t' = tr_OutputDigest t) ∧
  (∀ k t, turns (sw_store w) !! k = Some t → tr_ContextSeqFrozen t = true →
     ∃ t', turns (sw_store w') !! k = Some t' ∧ tr_ContextSeqFrozen t' = true ∧
           tr_ContextMessageSeq t' = tr_ContextMessageSeq t) ∧
  (∀ k e, terminalEvents (sw_store w) !! k = Some e → terminalEvents (sw_store w') !! k = Some e).
Proof.
  intros [HI HT _ _ _ HE]%future_history. split_and!.
  - intros k r Hk Ht. destruct (HI _ _ Hk) as (r' & Hk' & _ & _ & _ & He). by rewrite (He Ht) in Hk'.
  - intros k t Hk Ht. destruct (HT _ _ Hk) as (t' & Hk' & _ & He & _). by rewrite (He Ht) in Hk'.
  - intros k t Hk Ht. destruct (HT _ _ Hk) as (t' & Hk' & _ & _ & Ho & _). exists t'. by split; [|apply Ho].
  - intros k t Hk Ht. destruct (HT _ _ Hk) as (t' & Hk' & _ & _ & _ & Hc). exists t'. by split; [|apply Hc].
  - intros k e Hk. by destruct (HE _ _ Hk) as (e' & Hk' & ->).
Qed.

(** ** Announcements *)

(** In every store that the runtime can reach, each dead input has its
    failure event in the log under its own key, each event is the one of
    exactly one dead input, and a turn that has ended has ended its input in the
    same way: a committed or waiting turn has a resolved input, a dead turn a dead
    one. *)
Theorem the_dead_are_announced_once w :
  session_reachable w →
  (∀ k r, inputs (sw_store w) !! k = Some r → in_Status r = InputStatusDead →
     terminalEvents (sw_store w) !! ev_SourceKey (death_event r) = Some (death_event r)) ∧
  (∀ key e, terminalEvents (sw_store w) !! key = Some e →
     ∃ k r, inputs (sw_store w) !! k = Some r ∧ in_Status r = InputStatusDead ∧
            key = ev_SourceKey (death_event r) ∧ e = death_event r ∧
            ∀ k2 r2, inputs (sw_store w) !! k2 = Some r2 → ev_SourceKey (death_event r2) = key → k2 = k) ∧
  (∀ k t, turns (sw_store w) !! k = Some t →
     ∃ r, inputs (sw_store w) !! tr_InputID t = Some r ∧ in_TurnID r = k ∧ turn_agrees t r).
Proof.
  intros Hr%session_reachable_inv. destruct Hr as [L _ _ T E _]. split_and!.
  - intros k r. apply (event_dead _ E).
  - intros key e Hk. destruct (event_input _ E _ _ Hk) as (k & r & Hr & Hd & -> & ->).
    exists k, r. repeat (split; [done|]). intros k2 r2 Hr2 Heq. by eapply death_key_inj.
  - intros k t Hk. destruct (turn_key _ T _ _ Hk) as (_ & _ & _ & Hb & _).
    destruct (turn_link _ T _ _ Hb) as (t1 & r & H1 & _ & H2 & H3 & _ & H4).
    exists r. assert (t1 = t) as -> by congruence. done.
Qed.

(** ** Enqueueing *)

Lemma sameInput_key a b c : in_key a = in_key b → sameInput a c = sameInput b c.
Proof. unfold in_key, sameInput. by intros [= -> -> -> -> -> -> -> _ -> _]. Qed.

(** The fields of a new record are those of its input and session. *)
Lemma sameInput_new sid identity payload input seq now :
  jsonEqual payload payload = true →
  sameInput (enqueue_record (new_input sid identity payload input) seq now) (new_input sid identity payload input) = true.
Proof. intros Hj. unfold sameInput. cbn. rewrite Hj, !Z.eqb_refl, !bool_decide_true; done. Qed.

(** The accepted outcome of [EnqueueInput]: an input already known, or a new one. *)
Lemma EnqueueInput_Ok sid input w res w1 :
  session_inv (sw_store w) → EnqueueInput sid input w = (Ok res, w1) →
  ∃ identity payload, encodeInput input = Ok (identity, payload) ∧ TrimSpace sid ≠ "" ∧
    let requested := new_input (TrimSpace sid) identity payload input in
    (er_Enqueued res = false ∧ w1 = w ∧ inputs (sw_store w) !! id_InputID identity = Some (er_Input res) ∧
     sameInput (er_Input res) requested = true) ∨
    (er_Enqueued res = true ∧ inputs (sw_store w) !! id_InputID identity = None ∧
     er_Input res = enqueue_record requested (incr (counter_at (inputCounters (sw_store w)) (TrimSpace sid)))
                      (now_at (sw_reads w)) ∧
     inputs (sw_store w1) = <[id_InputID identity := er_Input res]> (inputs (sw_store w))).
Proof.
  intros Hi E. unfold EnqueueInput in E. case_bool_decide as Hsid; [done|].
  destruct (encodeInput input) as [[identity payload]|e] eqn:Ei; [|done]. exists identity, payload.
  split; [done|]. split; [done|]. unfold bind at 1, get_store in E.
  destruct (inputs (sw_store w) !! _) as [ex|] eqn:Ex.
  { destruct (negb _) eqn:En; [done|]. apply negb_false_iff in En. injection E as <- <-. left. done. }
  destruct (inputSources _ !! _) as [ex|] eqn:Es.
  { exfalso. destruct (negb _) eqn:En; [done|]. apply negb_false_iff in En.
    destruct (source_input _ (inv_source _ Hi) _ _ Es) as (r & Hr & _). rewrite Hr in En. cbn [default from_option id] in En.
    destruct (lane_key _ (inv_lane _ Hi) _ _ Hr) as (Hk & _).
    unfold sameInput in En. rewrite !andb_true_iff, !bool_decide_eq_true in En.
    destruct En as [[[[[[[En _] _] _] _] _] _] _]. cbn in En. congruence. }
  unfold bind at 1, s_now in E. apply commit_inv in E as [Hres Hw]. right.
  assert (∀ a b : EnqueueResult, Ok a = Ok b → a = b) as Hinj by congruence.
  apply Hinj in Hres as ->. rewrite Hw. split; [reflexivity|]. split; [reflexivity|]. split; reflexivity.
Qed.

(** An accepted [EnqueueInput] has either found the input it was asked to add
    and changed nothing, or added it to the end of the lane of its session:
    pending, never tried, with the next sequence number, which is larger than
    that of every other input of the session.  From then on, whatever commands
    follow, the same request is accepted again, adds nothing and answers with the
    same input.  The texts that the encoder writes are taken to be readable. *)
Theorem enqueue_is_idempotent w w1 w2 sid input res :
  (∀ v raw, json_Marshal_input v = Ok raw → ∃ x, json_Unmarshal_any raw = Some x) →
  session_reachable w → EnqueueInput sid input w = (Ok res, w1) → session_future w1 w2 →
  (er_Enqueued res = false → w1 = w) ∧
  (er_Enqueued res = true →
     inputs (sw_store w) !! in_InputID (er_Input res) = None ∧
     inputs (sw_store w1) = <[in_InputID (er_Input res) := er_Input res]> (inputs (sw_store w)) ∧
     in_Status (er_Input res) = InputStatusPending ∧ in_Attempts (er_Input res) = 0 ∧
     in_EnqueueSeq (er_Input res) = counter_at (inputCounters (sw_store w)) (TrimSpace sid) + 1 ∧
     (∀ k r, inputs (sw_store w) !! k = Some r → in_SessionID r = TrimSpace sid →
             in_EnqueueSeq r < in_EnqueueSeq (er_Input res))) ∧
  ∃ r, EnqueueInput sid input w2 = (Ok (mkEnqueueResult r false), w2) ∧ in_key r = in_key (er_Input res).
Proof.
  intros Hjson Hr E Hs. pose proof (session_reachable_inv _ Hr) as Hi.
  pose proof (session_reachable_small _ Hr) as Hsm.
  destruct (EnqueueInput_Ok _ _ _ _ _ Hi E) as (identity & payload & Ei & Hsid & Hcase).
  set (requested := new_input (TrimSpace sid) identity payload input) in *.
  assert (jsonEqual payload payload = true) as Hj.
  { destruct (encodeInput_marshal _ _ _ Ei) as (v & Hv). destruct (Hjson _ _ Hv) as [x Hx].
    unfold jsonEqual. rewrite Hx. by rewrite bool_decide_true. }
  assert (inputs (sw_store w1) !! id_InputID identity = Some (er_Input res) ∧ sameInput (er_Input res) requested = true)
    as [Hin Hsame].
  { destruct Hcase as [(_ & -> & ? & ?)|(_ & _ & Her & ->)]; [done|]. rewrite lookup_insert_eq. split; [done|].
    rewrite Her. by apply sameInput_new. }
  pose proof (future_history _ _ Hs) as Hh.
  destruct (hist_inputs _ _ Hh _ _ Hin) as (r & Hr2 & Hkey & _). split_and!.
  - by destruct Hcase as [(_ & -> & _)|(-> & _)].
  - intros Ht. destruct Hcase as [(Hf & _)|(_ & Hnone & Her & Hins)]; [congruence|].
    assert (in_InputID (er_Input res) = id_InputID identity) as -> by (by rewrite Her).
    split; [done|]. split; [done|]. rewrite Her. cbn [in_Status in_Attempts in_EnqueueSeq enqueue_record].
    destruct Hsm as (Hroom & _). split; [done|]. split; [done|].
    assert (in_EnqueueSeq (enqueue_record requested (incr (counter_at (inputCounters (sw_store w)) (TrimSpace sid)))
              (now_at (sw_reads w))) = counter_at (inputCounters (sw_store w)) (TrimSpace sid) + 1) as -> by (by apply incr_room).
    split; [done|]. intros k r0 Hk Hs0. pose proof (lane_seq _ (inv_lane _ Hi) _ _ Hk) as Hb. rewrite Hs0 in Hb. lia.
  - exists r. split; [|done]. unfold EnqueueInput. rewrite bool_decide_false by done. rewrite Ei.
    unfold bind, get_store. rewrite Hr2. fold requested. rewrite (sameInput_key _ _ _ Hkey), Hsame. done.
Qed.

(** ** Decoding *)

Definition typed_value (input : SessionInput) : option TypedInput :=
  match input with ByValue v | ByPointer v => Some v | NilInput | NilPointer _ => None end.

(** The decoder reads back what the encoder has written of [v]. *)
Definition lossless (v : TypedInput) : Prop :=
  ∀ raw, json_Marshal_input v = Ok raw →
    match v with
    | TUserMessage x => json_Unmarshal_UserMessage raw = Ok x
    | TResumeRequested x => json_Unmarshal_ResumeRequested raw = Ok x
    | TBatchContinuation x => json_Unmarshal_BatchContinuationResult raw = Ok x
    | TApprovalContinuation x => json_Unmarshal_ApprovalContinuationResult raw = Ok x
    end.

Lemma identity_type v : id_Type (TypedInput_InputIdentity v) =
  match v with
  | TUserMessage _ => InputTypeUserMessage
  | TResumeRequested _ => InputTypeResumeRequested
  | TBatchContinuation _ => InputTypeBatchContinuationResult
  | TApprovalContinuation _ => InputTypeApprovalContinuation
  end.
Proof. destruct v; try reflexivity. cbn. unfold ResumeRequested_InputIdentity. by case_bool_decide. Qed.

Lemma decode_encoded input v identity payload r :
  typed_value input = Some v → lossless v → encodeInput input = Ok (identity, payload) →
  in_InputType r = id_Type identity → in_Payload r = payload → DecodeInput r = Ok v.
Proof.
  intros Hv Hl E Ht Hp. assert (encode_value input v = Ok (identity, payload)) as Ev.
  { destruct input; try discriminate Hv; injection Hv as ->; exact E. }
  clear E. unfold encode_value in Ev. destruct (_ || _ || _) eqn:Eb; [done|]. destruct (_ <=? 0); [done|].
  destruct (validateTypedInput input); [done|]. destruct (json_Marshal_input v) as [raw|e] eqn:Em; [|done].
  injection Ev as <- <-. specialize (Hl _ Em). cbn [id_Type] in Ht.
  assert (in_InputType r = id_Type (TypedInput_InputIdentity v)) as Ht' by exact Ht. rewrite identity_type in Ht'.
  unfold DecodeInput. rewrite Hp, Ht'. clear Ht Ht'.
  destruct v as [x|x|x|x]; repeat rewrite bool_decide_false by discriminate;
    rewrite bool_decide_true by reflexivity; by rewrite Hl.
Qed.

(** C39. What a worker decodes is what was enqueued: a newly accepted input keeps
    its type and payload whatever commands follow, and decoding it gives back the
    value that was enqueued, given by value or by pointer, when the encoding of
    that value loses nothing. *)
Theorem enqueued_input_decodes w w1 w2 sid input v res :
  session_reachable w → EnqueueInput sid input w = (Ok res, w1) → er_Enqueued res = true →
  session_future w1 w2 → typed_value input = Some v → lossless v →
  ∃ r, inputs (sw_store w2) !! in_InputID (er_Input res) = Some r ∧ DecodeInput r = Ok v.
Proof.
  intros Hr E Hnew Hs Hv Hl. pose proof (session_reachable_inv _ Hr) as Hi.
  destruct (EnqueueInput_Ok _ _ _ _ _ Hi E) as (identity & payload & Ei & _ & [(? & _)|(_ & _ & Her & Hins)]); [congruence|].
  assert (inputs (sw_store w1) !! in_InputID (er_Input res) = Some (er_Input res)) as Hin
    by (rewrite Hins, Her; apply lookup_insert_eq).
  destruct (hist_inputs _ _ (future_history _ _ Hs) _ _ Hin) as (r & Hr2 & Hkey & _). exists r. split; [done|].
  eapply decode_encoded; [exact Hv|exact Hl|exact Ei| |]; rewrite Her in Hkey; unfold in_key in Hkey; by injection Hkey.
Qed.

(** ** Claiming *)

(** The outcome [a] of a claim at [now] that has turned [s] into [s']. *)
Definition claim_outcome (s s' : MemoryStore) (options : ClaimOptions) (l : SessionRuntimeLease) (now : Time)
    (a : result SessionInputRecord) : Prop :=
  match a with
  | Err e => e = ErrNoInputAvailable ∧ nothing_due s' options now ∧
      ∀ k r', inputs s' !! k = Some r' → ∃ r, inputs s !! k = Some r ∧ survives s options now r r'
  | Ok r' => ∃ r,
      inputs s !! in_InputID r = Some r ∧ in_SessionID r = fn_SessionID (co_Fence options) ∧
      waits r = true ∧ in_AvailableAt r <= now ∧
      (is_started r = true ∨
       (in_Attempts r = 0 ∧
        (∀ k r2, inputs s' !! k = Some r2 → k ≠ in_InputID r →
           in_SessionID r2 = in_SessionID r → is_started r2 = false) ∧
        (∀ k r2, inputs s' !! k = Some r2 → k ≠ in_InputID r →
           is_candidate (in_SessionID r) now r2 = true → candidate_less r2 r = false))) ∧
      r' = claim_record r options (cappedLeaseUntil now (co_ClaimTTL options) (sl_LeaseUntil l)) now ∧
      cappedLeaseUntil now (co_ClaimTTL options) (sl_LeaseUntil l) <= sl_LeaseUntil l ∧
      inputs s' !! in_InputID r = Some r' ∧
      ∀ k r2', inputs s' !! k = Some r2' → k ≠ in_InputID r →
        ∃ r2, inputs s !! k = Some r2 ∧ survives s options now r2 r2'
  end.

Lemma ClaimNext_spec w options l a w' :
  session_inv (sw_store w) → 0 < co_ClaimTTL options →
  validateFenceLocked (sw_store w) (co_Fence options) (now_at (sw_reads w)) = Ok l →
  ClaimNext options w = (a, w') →
  claim_outcome (sw_store w) (sw_store w') options l (now_at (sw_reads w)) a ∧
  (∀ e, a = Err e → session_inv (sw_store w')).
Proof.
  intros Hi Httl Hf E. unfold ClaimNext in E.
  destruct (Z.leb_spec (co_ClaimTTL options) 0); [lia|].
  unfold with_fence, bind, s_now, get_store in E. cbn [sw_store sw_reads] in E. rewrite Hf in E.
  pose proof (claim_select_ends (sw_store w) options (now_at (sw_reads w)) Hi) as [o Ho].
  destruct (claim_select _ _ options _) as [o' s'] eqn:Es. cbn in Ho. subst o'.
  destruct (claim_select_spec _ _ _ _ _ _ Hi Es) as (He & Hl & Hkeep & Hsel). unfold claim_outcome.
  unfold put_store in E. destruct o as [r|e].
  - unfold commit, bind, put_store, ret in E. cbn in E. injection E as <- <-. cbn [sw_store]. split; [|done].
    destruct Hsel as (Hr' & Hsid & Hw & Ha & Hfree).
    destruct (Hkeep _ _ Hr') as (r0 & Hr0 & Hsv). apply survives_waits in Hsv as ->; [|done].
    assert (inputs (put_input s' (claim_record r0 options
        (cappedLeaseUntil (now_at (sw_reads w)) (co_ClaimTTL options) (sl_LeaseUntil l)) (now_at (sw_reads w))))
      = <[in_InputID r0 := claim_record r0 options
        (cappedLeaseUntil (now_at (sw_reads w)) (co_ClaimTTL options) (sl_LeaseUntil l)) (now_at (sw_reads w))]> (inputs s'))
      as Hins by reflexivity.
    exists r0. split_and!; try done.
    + destruct Hfree as [?|(F1 & F2 & F3)]; [by left|right]. split; [done|]. rewrite Hins.
      split; intros k r2 Hk Hne; rewrite lookup_insert_ne in Hk by done; [by apply (F1 k)|by apply (F3 k)].
    + unfold cappedLeaseUntil. destruct (Z.ltb_spec (sl_LeaseUntil l) (now_at (sw_reads w) + co_ClaimTTL options)); lia.
    + by rewrite Hins, lookup_insert_eq.
    + rewrite Hins. intros k r2' Hk Hne. rewrite lookup_insert_ne in Hk by done. by apply Hkeep.
  - unfold fail, ret in E. injection E as <- <-. cbn [sw_store]. destruct Hsel as [-> Hnd].
    split; [done|]. intros _ _. eapply effects_inv; [by apply quiet_rtc|done].
Qed.

(** No input is lost by a claim that finds none. *)
Lemma ClaimNext_keys w options l e w' :
  session_inv (sw_store w) → 0 < co_ClaimTTL options →
  validateFenceLocked (sw_store w) (co_Fence options) (now_at (sw_reads w)) = Ok l →
  ClaimNext options w = (Err e, w') →
  ∀ k r, inputs (sw_store w) !! k = Some r → is_Some (inputs (sw_store w') !! k).
Proof.
  intros Hi Httl Hf E k r Hk. unfold ClaimNext in E. destruct (Z.leb_spec (co_ClaimTTL options) 0); [lia|].
  unfold with_fence, bind, s_now, get_store in E. cbn [sw_store sw_reads] in E. rewrite Hf in E.
  destruct (claim_select _ _ options _) as [o s'] eqn:Es.
  destruct (claim_select_spec _ _ _ _ _ _ Hi Es) as (He & _).
  destruct (hist_inputs _ _ (effects_history _ _ (quiet_rtc _ _ He) Hi) _ _ Hk) as (r' & Hr' & _).
  unfold put_store, commit, bind, put_store, fail, ret in E.
  destruct o as [[r0|e0]|]; [done| |]; injection E as _ <-; by exists r'.
Qed.

(** C24. [ClaimNext] under a valid fence ends, and either claims one input or
    answers that there is none.  It claims the started input of the session when
    there is one and it is due, otherwise a due fresh input of the highest
    priority and, among these, the earliest; the claim is the fence's, counts an
    attempt and does not outlive the lease.  It answers that there is no input
    only when the started input holds a claim or is not due yet, or nothing is
    started and no fresh input is due.  All other inputs are left as they were,
    except a started input that has used up its attempts and has saved no
    output, which dies. *)
Theorem claim_next_contract w options l a w' :
  session_reachable w → 0 < co_ClaimTTL options →
  validateFenceLocked (sw_store w) (co_Fence options) (now_at (sw_reads w)) = Ok l →
  ClaimNext options w = (a, w') →
  claim_outcome (sw_store w) (sw_store w') options l (now_at (sw_reads w)) a.
Proof. intros Hr Httl Hf E. by apply (ClaimNext_spec w options l a w' (session_reachable_inv _ Hr)). Qed.

(** ** Continuations *)

(** An approval continuation is applied once.  [ApplyContinuation] is accepted
    either because the continuation was applied before, and then changes nothing,
    or for the holder of its claim at its executor and epoch.  Afterwards the
    continuation stays applied as it is, and every further apply of the same
    decision, by anyone and with any commands, answers with it and changes
    nothing. *)
Theorem continuation_is_applied_once w w1 w2 claim cmds c :
  ApplyContinuation claim cmds w = (Ok c, w1) → session_future w1 w2 →
  let key := continuationIdentity (cc_ApprovalID claim) (cc_DecisionVersion claim) in
  ac_Status c = ContinuationStatusApplied ∧
  (w1 = w ∧ continuations (sw_store w) !! key = Some c ∨
   ∃ c0, continuations (sw_store w) !! key = Some c0 ∧ ac_Status c0 = ContinuationStatusClaimed ∧
         ac_Executor c0 = cc_Executor claim ∧ ac_ExecutionEpoch c0 = cc_ExecutionEpoch claim ∧
         ac_LeaseOwner c0 = cc_LeaseOwner claim) ∧
  continuations (sw_store w2) !! key = Some c ∧
  ∀ claim' cmds', validateContinuationClaim claim' = None →
    cc_ApprovalID claim' = cc_ApprovalID claim → cc_DecisionVersion claim' = cc_DecisionVersion claim →
    ApplyContinuation claim' cmds' w2 = (Ok c, w2).
Proof.
  intros E Hs key. pose proof (future_history _ _ Hs) as Hh.
  assert (continuations (sw_store w1) !! key = Some c ∧ ac_Status c = ContinuationStatusApplied ∧
    (w1 = w ∧ continuations (sw_store w) !! key = Some c ∨
     ∃ c0, continuations (sw_store w) !! key = Some c0 ∧ ac_Status c0 = ContinuationStatusClaimed ∧
         ac_Executor c0 = cc_Executor claim ∧ ac_ExecutionEpoch c0 = cc_ExecutionEpoch claim ∧
         ac_LeaseOwner c0 = cc_LeaseOwner claim)) as (H1 & H2 & H3).
  { clear Hs Hh. unfold ApplyContinuation, check at 1 in E. destruct (validateContinuationClaim claim); [done|].
    unfold bind at 1, get_store in E. fold key in E. destruct (continuations _ !! key) as [c0|] eqn:Ec; [|done].
    case_bool_decide as Hap; [injection E as <- <-; split; [done|]; split; [done|]; by left|].
    unfold bind at 1 in E. destruct (validateContinuationLeaseLocked c0 claim w) as [o w3] eqn:Ev.
    apply stale_claim_inv in Ev as [Hs3 Hv]. unfold check in E. destruct o as [e|]; [done|].
    destruct (normalize_commands _ _ _) as [items|e]; [|done].
    unfold bind at 1, s_now in E. pose proof (commit_inv _ _ _ _ _ E) as [Hc Hw1]. injection Hc as Hc.
    rewrite Hw1. split; [cbn; rewrite lookup_insert_eq; congruence|]. split; [by rewrite Hc|].
    right. exists c0. split; [done|]. by destruct (Hv eq_refl) as (V1 & V2 & V3 & V4). }
  destruct (hist_continuations _ _ Hh _ _ H1) as (c2 & Hc2 & _ & _ & _ & _ & Hst). rewrite (Hst H2) in Hc2.
  split_and!; try done. intros claim' cmds' Hv Eid Ever. unfold ApplyContinuation, check. rewrite Hv.
  unfold bind, get_store. rewrite Eid, Ever. fold key. rewrite Hc2. by rewrite bool_decide_true.
Qed.
End theorems.
