(* ===== verification/SessionDiscovery.v ===== *)
(** * Session runtime: discovery

    [ListRunnableSessions] names exactly the sessions with an input that can be
    taken up, and a session it has named is served by the calls with which the
    manager follows: [AcquireLease], [RecoverExpiredInputs], [ClaimNext]. *)

From Stdlib Require Import ZArith Lia Ascii Sorted.
From S2P Require Import Prelude GoJson SessionModels SessionStore SessionEffects SessionInv SessionOps SessionProps.
From S2P Require Import SessionRuns.

Section discovery.
Context `{Codec} `{Clock} {X : Type}.
Implicit Types (w : sworld X) (s : MemoryStore).

(** ** The listing *)

Lemma add_started_head_spec heads r sid :
  match add_started_head heads r !! sid with
  | Some h => heads !! sid = Some h ∨ (h = r ∧ in_SessionID r = sid ∧ is_started r = true)
  | None => heads !! sid = None ∧ (in_SessionID r = sid → is_started r = false)
  end.
Proof.
  unfold add_started_head, is_started.
  destruct (isTerminalInputStatus (in_Status r)); cbn [orb negb].
  { rewrite andb_false_r. destruct (heads !! sid); [by left|done]. }
  destruct (Z.leb_spec (in_Attempts r) 0); rewrite andb_true_r.
  { destruct (Z.ltb_spec 0 (in_Attempts r)); [lia|]. destruct (heads !! sid); [by left|done]. }
  destruct (Z.ltb_spec 0 (in_Attempts r)); [|lia].
  assert (match (<[in_SessionID r := r]> heads) !! sid with
          | Some h => heads !! sid = Some h ∨ (h = r ∧ in_SessionID r = sid ∧ true = true)
          | None => heads !! sid = None ∧ (in_SessionID r = sid → true = false) end) as Hins.
  { destruct (decide (in_SessionID r = sid)) as [<-|Hne]; [rewrite lookup_insert_eq; by right|].
    rewrite lookup_insert_ne by done. destruct (heads !! sid); [by left|done]. }
  destruct (heads !! in_SessionID r) as [h|] eqn:E; [|exact Hins].
  destruct (_ <? _); [exact Hins|]. destruct (heads !! sid) eqn:E2; [by left|]. split; [done|]. intros <-. congruence.
Qed.

Lemma started_heads_fold l heads sid :
  match foldl add_started_head heads l !! sid with
  | Some h => heads !! sid = Some h ∨ (h ∈ l ∧ in_SessionID h = sid ∧ is_started h = true)
  | None => heads !! sid = None ∧ ∀ r, r ∈ l → in_SessionID r = sid → is_started r = false
  end.
Proof.
  revert heads. induction l as [|r l IH]; intros heads; cbn [foldl].
  { destruct (heads !! sid); [by left|]. split; [done|]. by intros ? ?%not_elem_of_nil. }
  specialize (IH (add_started_head heads r)). pose proof (add_started_head_spec heads r sid) as Ha.
  destruct (foldl _ _ l !! sid) as [h|].
  - destruct IH as [E|(Hin & Hh)]; [|right; split; [by right|done]]. rewrite E in Ha.
    destruct Ha as [?|(-> & Hh)]; [by left|right; split; [by left|done]].
  - destruct IH as [E IH]. rewrite E in Ha. destruct Ha as [Ha Hr]. split; [done|].
    intros r0 [->|Hin]%elem_of_cons; [done|by apply IH].
Qed.

Lemma elem_of_inputs s r : r ∈ (map_to_list (inputs s)).*2 ↔ ∃ k, inputs s !! k = Some r.
Proof.
  rewrite list_elem_of_fmap. split.
  - intros ([k r'] & -> & Hk%elem_of_map_to_list). by exists k.
  - intros (k & Hk%elem_of_map_to_list). by exists (k, r).
Qed.

Lemma started_heads_spec s sid :
  match started_heads s !! sid with
  | Some h => (∃ k, inputs s !! k = Some h) ∧ in_SessionID h = sid ∧ is_started h = true
  | None => ∀ k r, inputs s !! k = Some r → in_SessionID r = sid → is_started r = false
  end.
Proof.
  unfold started_heads. pose proof (started_heads_fold ((map_to_list (inputs s)).*2) ∅ sid) as Hf.
  destruct (foldl _ _ _ !! sid) as [h|].
  - destruct Hf as [?|(Hin%elem_of_inputs & Hh)]; [done|]. done.
  - destruct Hf as [_ Hf]. intros k r Hk. apply Hf, elem_of_inputs. by exists k.
Qed.

Lemma first_seqs_fold heads now l m sid :
  is_Some (foldl (add_first_seq heads now) m l !! sid) ↔
  is_Some (m !! sid) ∨ ∃ r, r ∈ l ∧ in_SessionID r = sid ∧ is_listed heads now r = true.
Proof.
  revert m. induction l as [|r l IH]; intros m; cbn [foldl].
  { split; [by left|]. intros [?|(r & []%not_elem_of_nil & _)]; done. }
  rewrite IH. assert (is_Some (add_first_seq heads now m r !! sid) ↔
    is_Some (m !! sid) ∨ (in_SessionID r = sid ∧ is_listed heads now r = true)) as ->.
  { unfold add_first_seq. destruct (is_listed heads now r); cbn [negb]; [|naive_solver].
    assert (is_Some (<[in_SessionID r := in_EnqueueSeq r]> m !! sid) ↔ is_Some (m !! sid) ∨ (in_SessionID r = sid ∧ true = true)) as Hins.
    { rewrite lookup_insert_is_Some. destruct (decide (in_SessionID r = sid)); naive_solver. }
    destruct (m !! in_SessionID r) as [q|] eqn:E; [|exact Hins]. destruct (_ <? _); [exact Hins|].
    split; [by left|]. intros [?|[<- _]]; [done|by rewrite E]. }
  setoid_rewrite elem_of_cons. naive_solver.
Qed.

(** The sessions of the whole listing, before it is cut to the limit. *)
Definition listed_sessions s now : list string :=
  sort_slice (by_time_then_id (counter_at (first_seqs s now)) id) ((map_to_list (first_seqs s now)).*1).

Lemma listed_sessions_elem s now sid :
  sid ∈ listed_sessions s now ↔
  ∃ k r, inputs s !! k = Some r ∧ in_SessionID r = sid ∧ is_listed (started_heads s) now r = true.
Proof.
  unfold listed_sessions. rewrite sort_slice_perm, list_elem_of_fmap.
  pose proof (first_seqs_fold (started_heads s) now ((map_to_list (inputs s)).*2) ∅ sid) as Hf.
  fold (first_seqs s now) in Hf. split.
  - intros ([k q] & -> & Hk%elem_of_map_to_list). cbn in Hf |- *.
    destruct Hf as [Hf _]. destruct Hf as [[? ?]|(r & (k2 & Hk2)%elem_of_inputs & Hr)]; [by eexists|done|].
    exists k2, r. by split.
  - intros (k & r & Hk & Hr). destruct Hf as [_ Hf]. destruct Hf as [q Hq].
    { right. exists r. split; [apply elem_of_inputs; by exists k|done]. }
    exists (sid, q). split; [done|by apply elem_of_map_to_list].
Qed.

Lemma ListRunnableSessions_answer limit w :
  ListRunnableSessions limit w =
    (Ok (take (Z.to_nat (if (limit <=? 0) || (1000 <? limit) then 100 else limit))
              (listed_sessions (sw_store w) (now_at (sw_reads w)))),
     mkSWorld (sw_store w) (S (sw_reads w)) (sw_ext w)).
Proof. reflexivity. Qed.

(** ** Recovery *)

Lemma recover_one_leases now s id r : leases (recover_one now s id r) = leases s.
Proof. unfold recover_one. destruct (bool_decide _); [done|]. by destruct (_ && _ && _). Qed.

Lemma recover_fold_spec f now l n s :
  NoDup l.*1 → (∀ id r, (id, r) ∈ l → inputs s !! id = Some r) →
  let s' := (foldl (recover_step f now) (n, s) l).2 in
  leases s' = leases s ∧
  (∀ id r, (id, r) ∈ l → inputs s' !! id = Some (if stale_claim f now r then recovered_input r now else r)) ∧
  (∀ id, id ∉ l.*1 → inputs s' !! id = inputs s !! id).
Proof.
  revert n s. induction l as [|[id r] l IH]; intros n s Hnd Hl; cbn [foldl].
  { split; [done|]. split; [by intros ?? ?%not_elem_of_nil|done]. }
  apply NoDup_cons in Hnd as [Hnin Hnd].
  assert (∀ n s1, leases s1 = leases s → inputs s1 !! id = Some (if stale_claim f now r then recovered_input r now else r) →
    (∀ id', id' ≠ id → inputs s1 !! id' = inputs s !! id') →
    let s' := (foldl (recover_step f now) (n, s1) l).2 in
    leases s' = leases s ∧
    (∀ id' r', (id', r') ∈ (id, r) :: l → inputs s' !! id' = Some (if stale_claim f now r' then recovered_input r' now else r')) ∧
    (∀ id', id' ∉ ((id, r) :: l).*1 → inputs s' !! id' = inputs s !! id')) as Hgo.
  { intros n1 s1 Hls Hid Hother. destruct (IH n1 s1 Hnd) as (H1 & H2 & H3).
    { intros id' r' Hin. rewrite Hother; [apply Hl; by right|]. intros ->. apply Hnin, list_elem_of_fmap. by exists (id, r'). }
    split; [congruence|]. split.
    - intros id' r' [[= -> ->]|Hin]%elem_of_cons; [by rewrite H3|by apply H2].
    - intros id'. rewrite fmap_cons, not_elem_of_cons. intros [Hne Hni]. rewrite H3 by done. by apply Hother. }
  assert (recover_step f now (n, s) (id, r) =
    if stale_claim f now r then (incr n, recover_one now s id r) else (n, s)) as -> by reflexivity.
  destruct (stale_claim f now r) eqn:Est.
  - apply Hgo; [apply recover_one_leases|by rewrite recover_one_inputs, lookup_insert_eq|].
    intros id' Hne. by rewrite recover_one_inputs, lookup_insert_ne.
  - apply Hgo; [done|apply Hl; by left|done].
Qed.

Lemma RecoverExpiredInputs_spec f w n w' :
  RecoverExpiredInputs f w = (Ok n, w') →
  let now := now_at (sw_reads w) in
  sw_reads w' = S (sw_reads w) ∧ leases (sw_store w') = leases (sw_store w) ∧
  (∀ k r, inputs (sw_store w) !! k = Some r →
     inputs (sw_store w') !! k = Some (if stale_claim f now r then recovered_input r now else r)) ∧
  (∀ k r', inputs (sw_store w') !! k = Some r' → ∃ r, inputs (sw_store w) !! k = Some r ∧
     r' = if stale_claim f now r then recovered_input r now else r).
Proof.
  unfold RecoverExpiredInputs, with_fence, bind, s_now, get_store. cbn [sw_store sw_reads].
  destruct (validateFenceLocked _ _ _) as [l|e]; [|done].
  pose proof (recover_fold_spec f (now_at (sw_reads w)) (map_to_list (inputs (sw_store w))) 0 (sw_store w)
    (NoDup_fst_map_to_list _)) as Hspec.
  destruct (foldl _ _ _) as [c s]. intros E. pose proof (commit_inv _ _ _ _ _ E) as [_ Hs].
  assert (sw_reads w' = S (sw_reads w)) as Hreads by (by injection E as _ <-).
  destruct Hspec as (H1 & H2 & H3); [intros id r; apply elem_of_map_to_list|]. cbn [snd] in *.
  rewrite Hs. split; [done|]. split; [done|]. split.
  - intros k r Hk. by apply H2, elem_of_map_to_list.
  - intros k r' Hk. destruct (inputs (sw_store w) !! k) as [r|] eqn:Er.
    + exists r. split; [done|]. rewrite (H2 k r) in Hk by (by apply elem_of_map_to_list). by injection Hk.
    + rewrite H3, Er in Hk; [done|]. intros ([k' r] & -> & Hin%elem_of_map_to_list)%list_elem_of_fmap. cbn in Er. congruence.
Qed.

(** ** A listed session is served *)

(** The input that made the session listed. *)
Lemma listed_input s now k r :
  session_inv s → inputs s !! k = Some r → is_listed (started_heads s) now r = true →
  runnable_now now r = true ∧
  (is_started r = true ∨
   (waits r = true ∧ in_Attempts r = 0 ∧
    ∀ k2 r2, inputs s !! k2 = Some r2 → in_SessionID r2 = in_SessionID r → is_started r2 = false)).
Proof.
  intros Hi Hk [Hhead Hrun]%andb_prop. split; [done|].
  destruct (lane_key _ (inv_lane _ Hi) _ _ Hk) as (Hid & _ & _ & _ & _ & (_ & Hnn & Hpend & _)).
  pose proof (started_heads_spec s (in_SessionID r)) as Hs.
  destruct (started_heads s !! in_SessionID r) as [h|].
  - left. destruct Hs as ((k2 & Hk2) & _ & Hst). apply bool_decide_eq_true in Hhead.
    destruct (lane_key _ (inv_lane _ Hi) _ _ Hk2) as (Hid2 & _).
    assert (k2 = k) as -> by congruence. assert (h = r) as -> by congruence. done.
  - right. apply negb_true_iff, Z.ltb_ge in Hhead. assert (in_Attempts r = 0) as Hz by lia.
    split; [|by split]. apply waits_status. left. by apply Hpend.
Qed.

(** After a recovery the listed input waits and is due. *)
Lemma recovered_due f now now0 r :
  in_SessionID r = fn_SessionID f → runnable_now now0 r = true → now0 <= now →
  let r' := if stale_claim f now r then recovered_input r now else r in
  waits r' = true ∧ in_AvailableAt r' <= now ∧ in_Attempts r' = in_Attempts r ∧ in_SessionID r' = in_SessionID r.
Proof.
  intros Hs Hrun Hle. cbv zeta. destruct (stale_claim f now r) eqn:Est; [split; [done|]; split; [cbn; lia|done]|].
  unfold runnable_now in Hrun. apply orb_prop in Hrun as [Hw|Hh].
  - apply andb_prop in Hw as [Hw Ha%negb_true_iff]. unfold After in Ha. apply Z.ltb_ge in Ha.
    split; [done|]. split; [lia|done].
  - exfalso. apply andb_prop in Hh as [Hh Hu]. unfold stale_claim in Est.
    rewrite bool_decide_true, Hh in Est by done. cbn in Est.
    apply negb_false_iff, andb_prop in Est as [_ Hu2]. destruct (in_LeaseUntil r) as [u|]; [|done].
    unfold After in *. apply negb_true_iff, Z.ltb_ge in Hu. apply Z.ltb_lt in Hu2. lia.
Qed.

Lemma recovered_started f now r :
  input_ok r → is_started (if stale_claim f now r then recovered_input r now else r) = is_started r.
Proof.
  intros Hok. destruct (stale_claim f now r) eqn:E; [|done].
  apply andb_prop in E as [[_ Hh]%andb_prop _]. rewrite (holds_is_started _ Hok Hh).
  pose proof (holds_is_started _ Hok Hh) as [Ha _]%is_started_spec. apply is_started_spec. done.
Qed.

Lemma AcquireLease_Ok sid owner ttl w l w' :
  session_inv (sw_store w) → TrimSpace sid = sid → AcquireLease sid owner ttl w = (Ok l, w') →
  sw_reads w' = S (sw_reads w) ∧ leases (sw_store w') = <[sid := l]> (leases (sw_store w)) ∧
  inputs (sw_store w') = inputs (sw_store w) ∧ sl_SessionID l = sid ∧ sid ≠ "".
Proof.
  intros Hi Hsid E. unfold AcquireLease in E. rewrite Hsid in E.
  destruct (_ || _ || _) eqn:Eg; [done|]. rewrite !orb_false_iff, !bool_decide_eq_false in Eg. destruct Eg as [[Hne _] _].
  unfold bind at 1, s_now, bind at 1, get_store in E. cbn [sw_store] in E.
  assert (∀ ls l1 w1, commit ((sw_store w) <| leases := <[sid := ls]> (leases (sw_store w)) |>) ls
            (mkSWorld (sw_store w) (S (sw_reads w)) (sw_ext w)) = (Ok l1, w1) → sl_SessionID ls = sid →
          sw_reads w1 = S (sw_reads w) ∧ leases (sw_store w1) = <[sid := l1]> (leases (sw_store w)) ∧
          inputs (sw_store w1) = inputs (sw_store w) ∧ sl_SessionID l1 = sid ∧ sid ≠ "") as Hc.
  { intros ls l1 w1 Ec Hs. unfold commit, bind, put_store, ret in Ec. injection Ec as <- <-. done. }
  destruct (leases (sw_store w) !! sid) as [l0|]; [|by eapply Hc].
  destruct (_ && _); [done|]. destruct (negb _); by eapply Hc.
Qed.

(** The lease itself is a valid fence while it lasts. *)
Lemma lease_is_valid s sid l now :
  session_inv s → leases s !! sid = Some l → TrimSpace sid = sid → sid ≠ "" → sl_SessionID l = sid →
  now < sl_LeaseUntil l → validateFenceLocked s (Lease_Fence l) now = Ok l.
Proof.
  intros Hi Hl Ht Hne Hs Hlt. destruct (lease_ok _ (inv_lease _ Hi) _ _ Ht Hl) as (_ & To & No & Pos).
  unfold validateFenceLocked, Lease_Fence. cbn. rewrite Hs, Ht, Hl, To.
  rewrite !bool_decide_false, bool_decide_true, Z.eqb_refl by done.
  destruct (Z.leb_spec (sl_FenceToken l) 0); [lia|]. unfold After. by destruct (Z.ltb_spec now (sl_LeaseUntil l)); [|lia].
Qed.

(** The claim that follows finds the input [r] of the store, which waits and is
    due. *)
Lemma due_input_is_served w options l k r a w' :
  session_inv (sw_store w) → 0 < co_ClaimTTL options →
  validateFenceLocked (sw_store w) (co_Fence options) (now_at (sw_reads w)) = Ok l →
  inputs (sw_store w) !! k = Some r → in_SessionID r = fn_SessionID (co_Fence options) →
  waits r = true → in_AvailableAt r <= now_at (sw_reads w) →
  (is_started r = true ∨ (in_Attempts r = 0 ∧
    ∀ k2 r2, inputs (sw_store w) !! k2 = Some r2 → in_SessionID r2 = in_SessionID r → is_started r2 = false)) →
  ClaimNext options w = (a, w') →
  (∃ r', a = Ok r' ∧ in_SessionID r' = in_SessionID r) ∨
  (a = Err ErrNoInputAvailable ∧ 0 < co_MaxAttempts options <= in_Attempts r ∧
   inputs (sw_store w') !! k = Some (exhausted_input r (now_at (sw_reads w)))).
Proof.
  intros Hi Httl Hf Hk Hs Hw Hdue Hfree E.
  destruct (ClaimNext_spec _ _ _ _ _ Hi Httl Hf E) as [Hout Hi'].
  destruct a as [r'|e]; cbn [claim_outcome] in Hout.
  { left. exists r'. split; [done|]. destruct Hout as (r0 & _ & Hs0 & _ & _ & _ & -> & _). cbn. congruence. }
  right. destruct Hout as (-> & Hnd & Hkeep). split; [done|]. specialize (Hi' _ eq_refl).
  assert (∃ r', inputs (sw_store w') !! k = Some r' ∧ survives (sw_store w) options (now_at (sw_reads w)) r r') as (r' & Hk' & Hsv).
  { destruct (ClaimNext_keys _ _ _ _ _ Hi Httl Hf E k r Hk) as [r' Hr']. destruct (Hkeep _ _ Hr') as (r0 & Hr0 & Hsv).
    exists r'. split; [done|]. congruence. }
  destruct Hsv as [-> |(-> & _ & _ & _ & Hmax & _)]; [exfalso|done].
  destruct Hnd as [(k0 & r0 & Hk0 & Hs0 & Hst0 & Hnot)|[Hnone Hcand]].
  - destruct Hfree as [Hst|[_ Hno]].
    + assert (k0 = k) as -> by (eapply (lane_single _ (inv_lane _ Hi')); try done; congruence).
      assert (r0 = r) as -> by congruence. destruct Hnot as [?|?]; [congruence|lia].
    + destruct (Hkeep _ _ Hk0) as (r1 & H1 & [-> |(-> & _)]); [|by apply is_started_spec in Hst0 as (_ & _ & ?)].
      rewrite (Hno _ _ H1) in Hst0; [done|congruence].
  - destruct Hfree as [Hst|[Hz _]]; [by rewrite (Hnone _ _ Hk' Hs) in Hst|].
    specialize (Hcand _ _ Hk'). unfold is_candidate, After in Hcand. rewrite bool_decide_true, Hz, Hw in Hcand by done.
    destruct (Z.ltb_spec (now_at (sw_reads w)) (in_AvailableAt r)); [lia|done].
Qed.

(** What the claim of [sid] may answer: an input of the session, or nothing
    because the started one had used up its attempts and has died. *)
Definition served (w : sworld X) (sid : string) (options : ClaimOptions) (a : result SessionInputRecord)
    (w' : sworld X) : Prop :=
  (∃ r, a = Ok r ∧ in_SessionID r = sid) ∨
  (a = Err ErrNoInputAvailable ∧ ∃ k r r',
     inputs (sw_store w) !! k = Some r ∧ in_SessionID r = sid ∧ 0 < co_MaxAttempts options <= in_Attempts r ∧
     inputs (sw_store w') !! k = Some r' ∧ in_Status r' = InputStatusDead).

(** C31. Discovery.  The listing names every session with an input that can be
    taken up -- its started input, or a fresh one when none is started, that waits
    and is due or whose claim has run out -- unless it is cut at its limit.  And a
    session it names is served: when a worker acquires the lease of the session and
    recovers its expired claims, the next [ClaimNext] under this lease, while it
    lasts and on a clock that does not run backwards, claims an input of the session
    or finds that the started one had used up its attempts, and buries it. *)
Theorem discovered_session_is_served w w1 limit sessions :
  session_reachable w → (∀ i j, (i <= j)%nat → now_at i <= now_at j) →
  ListRunnableSessions limit w = (Ok sessions, w1) →
  (∀ k r, inputs (sw_store w) !! k = Some r →
     is_listed (started_heads (sw_store w)) (now_at (sw_reads w)) r = true →
     in_SessionID r ∈ sessions ∨
     length sessions = Z.to_nat (if (limit <=? 0) || (1000 <? limit) then 100 else limit)) ∧
  ∀ sid owner ttl l w2 n w3 options a w4,
    sid ∈ sessions →
    AcquireLease sid owner ttl w1 = (Ok l, w2) →
    RecoverExpiredInputs (Lease_Fence l) w2 = (Ok n, w3) →
    co_Fence options = Lease_Fence l → 0 < co_ClaimTTL options → now_at (sw_reads w3) < sl_LeaseUntil l →
    ClaimNext options w3 = (a, w4) → served w sid options a w4.
Proof.
  intros Hr Hclock E. pose proof (session_reachable_inv _ Hr) as Hi. pose proof (session_reachable_small _ Hr) as Hsm.
  rewrite ListRunnableSessions_answer in E. injection E as Hsess <-. split.
  { intros k r Hk Hlist. set (m := Z.to_nat _) in *.
    assert (in_SessionID r ∈ listed_sessions (sw_store w) (now_at (sw_reads w))) as Hin
      by (apply listed_sessions_elem; by exists k, r).
    destruct (decide (length (listed_sessions (sw_store w) (now_at (sw_reads w))) <= m)%nat) as [Hle|Hgt].
    - left. rewrite <-Hsess, firstn_all2; done.
    - right. rewrite <-Hsess, length_take. lia. }
  intros sid owner ttl l w2 n w3 options a w4 Hin Eacq Erec Hopt Httl Hlive Eclaim.
  assert (sid ∈ listed_sessions (sw_store w) (now_at (sw_reads w))) as Hlisted.
  { rewrite <-Hsess in Hin. by eapply elem_of_take in Hin as (i & Hi0%list_elem_of_lookup_2 & _). }
  apply listed_sessions_elem in Hlisted as (k & r & Hk & Hs & Hl).
  destruct (lane_key _ (inv_lane _ Hi) _ _ Hk) as (_ & _ & _ & Hts & _ & Hok). rewrite Hs in Hts.
  destruct (listed_input _ _ _ _ Hi Hk Hl) as [Hrun Hkind].
  destruct (AcquireLease_Ok sid owner ttl (mkSWorld (sw_store w) (S (sw_reads w)) (sw_ext w)) l w2 Hi Hts Eacq) as (R2 & L2 & I2 & Sl & Hne). cbn [sw_store sw_reads] in *.
  pose proof (effects_inv _ _ (command_effect_rtc _ _ (AcquireLease_effect sid owner ttl (mkSWorld (sw_store w) (S (sw_reads w)) (sw_ext w)) _ w2 Hsm Eacq)) Hi) as Hi2.
  destruct (RecoverExpiredInputs_spec _ _ _ _ Erec) as (R3 & L3 & I3 & I3').
  assert (session_inv (sw_store w3)) as Hi3 by (eapply effects_inv; [eapply command_effect_rtc; by eapply RecoverExpiredInputs_effect|done]).
  assert (leases (sw_store w3) !! sid = Some l) as Hl3 by (by rewrite L3, L2, lookup_insert_eq).
  pose proof (lease_is_valid _ _ _ _ Hi3 Hl3 Hts Hne Sl Hlive) as Hval. rewrite <-Hopt in Hval.
  assert (fn_SessionID (co_Fence options) = sid) as Hfs by (by rewrite Hopt).
  set (now2 := now_at (sw_reads w2)) in *.
  assert (now_at (sw_reads w) <= now2) as Hle by (apply Hclock; lia).
  assert (now2 <= now_at (sw_reads w3)) as Hle3 by (apply Hclock; lia).
  set (f := Lease_Fence l) in *.
  assert (in_SessionID r = fn_SessionID f) as Hsf by (rewrite <-Hopt; congruence).
  destruct (recovered_due f now2 _ r Hsf Hrun Hle) as (Hw & Hdue & Hatt & Hs3).
  pose proof (I3 k r ltac:(by rewrite I2)) as Hk3.
  set (r3 := if stale_claim f now2 r then recovered_input r now2 else r) in *.
  destruct (due_input_is_served w3 options l k r3 a w4 Hi3 Httl Hval Hk3) as [(r' & -> & Hs')|(-> & Hmax & Hdead)]; try done.
  - congruence.
  - lia.
  - unfold r3. rewrite recovered_started by done. destruct Hkind as [?|(_ & Hz & Hno)]; [by left|right].
    fold r3. split; [congruence|]. intros k2 r2 Hk2 Hs2. destruct (I3' _ _ Hk2) as (r0 & Hr0 & ->). rewrite I2 in Hr0.
    destruct (lane_key _ (inv_lane _ Hi) _ _ Hr0) as (_ & _ & _ & _ & _ & Hok0).
    rewrite recovered_started by done. apply (Hno k2 r0 Hr0). rewrite Hs3 in Hs2.
    by destruct (stale_claim f now2 r0).
  - left. exists r'. split; [done|congruence].
  - right. split; [done|]. exists k, r, (exhausted_input r3 (now_at (sw_reads w3))). split_and!; try done; lia.
Qed.
End discovery.
