(* ===== verification/SessionManager.v ===== *)
(** * Session runtime: the manager, [internal/aigc/sessionruntime/manager.go]

    The manager drives the lane of a session: it claims an input, gives it its
    turn, hands the turn to a processor under a heartbeat, and commits, retries,
    parks or buries it.  The processor and the function that prepares a turn are
    parameters and may act on the store; between two calls the peers -- other
    processes, other lanes -- may act too.  Contexts and their cancellation are not
    modelled, nor are goroutines, tickers and timers: what they deliver is given as
    a list of events ([lane_event]). *)

From Stdlib Require Import ZArith Lia Ascii.
From S2P Require Import Prelude GoJson SessionModels SessionStore.

Definition TurnOutcomeCommit := "commit".
Definition TurnOutcomeWaitingInterrupt := "waiting_interrupt".
Definition TurnOutcomeRetry := "retry".
Definition TurnOutcomeDead := "dead".

Record TurnResult := mkTurnResult {
  tu_Outcome : string;
  tu_OutputDigest : string;
  tu_RunnerCheckpointID : string;
  tu_RetryAt : Time;
  tu_Failure : Failure
}.
#[global] Instance eta_TurnResult : Eta TurnResult := fun r =>
  mkTurnResult (tu_Outcome r) (tu_OutputDigest r) (tu_RunnerCheckpointID r) (tu_RetryAt r) (tu_Failure r).
Definition zeroTurnResult : TurnResult := mkTurnResult "" "" "" zeroTime (mkFailure "" "").

(** What other workers do before a call, and how often the heartbeat ticks
    before and after the processor's work. *)
Class Peers (X : Type) := { peers : Eff (sworld X) unit; heartbeats : sworld X → nat }.

Section manager.
Context `{Codec} `{Clock} {X : Type} `{Peers X}.

(** A call of a processor returns or panics. *)
Inductive processed : Type :=
| Returns (result : TurnResult) (err : option error)
| Panics (value : string).

Definition Processor := TypedInput → SessionTurnRun → Fence → Eff (sworld X) processed.

Record ManagerConfig := mkManagerConfig {
  mc_HasStore : bool;
  mc_Processor : option Processor;
  mc_OwnerID : string;
  mc_LeaseTTL : Z;
  mc_RenewInterval : Z;
  mc_ClaimTTL : Z;
  mc_PollInterval : Z;
  mc_IdleTimeout : Z;
  mc_DiscoveryLimit : Z;
  mc_MaxAttempts : Z;
  mc_RetryBackoff : option (Z → error → Z);
  mc_TurnSpec : option (SessionInputRecord → TypedInput → Eff (sworld X) (result TurnSpec))
}.
#[global] Instance eta_ManagerConfig : Eta ManagerConfig := fun r =>
  mkManagerConfig (mc_HasStore r) (mc_Processor r) (mc_OwnerID r) (mc_LeaseTTL r) (mc_RenewInterval r)
    (mc_ClaimTTL r) (mc_PollInterval r) (mc_IdleTimeout r) (mc_DiscoveryLimit r) (mc_MaxAttempts r)
    (mc_RetryBackoff r) (mc_TurnSpec r).

(** A manager: its configuration and the parts guarded by its mutex; a wake
    channel of capacity one is whether a wake is pending. *)
Record Manager := mkManager {
  mg_config : ManagerConfig;
  mg_running : gset string;
  mg_wakes : gmap string bool;
  mg_stopped : bool
}.
#[global] Instance eta_Manager : Eta Manager := fun r =>
  mkManager (mg_config r) (mg_running r) (mg_wakes r) (mg_stopped r).

Definition default_backoff (attempt : Z) (_ : error) : Z :=
  let shift := Z.min (Z.max (wrap64 (attempt - 1)) 0) 6 in
  second * Z.shiftl 1 shift.

Definition minute : Z := 60 * second.

(** [newOwner] is the random identifier of [newOwnerID]. *)
Definition NewManager (newOwner : string) (config : ManagerConfig) : result Manager :=
  if negb (mc_HasStore config) || match mc_Processor config with None => true | Some _ => false end
  then Err (Errorf "session runtime store and processor are required")
  else
    let config := config <| mc_OwnerID := TrimSpace (mc_OwnerID config) |> in
    let config := if bool_decide (mc_OwnerID config = "")
      then config <| mc_OwnerID := newOwner |> else config in
    let config := if mc_LeaseTTL config <=? 0 then config <| mc_LeaseTTL := 30 * second |> else config in
    let config := if mc_RenewInterval config <=? 0
      then config <| mc_RenewInterval := mc_LeaseTTL config ÷ 3 |> else config in
    if mc_LeaseTTL config <=? mc_RenewInterval config
    then Err (Errorf "renew interval must be shorter than lease ttl")
    else
      let config := if mc_ClaimTTL config <=? 0
        then config <| mc_ClaimTTL := mc_LeaseTTL config |> else config in
      let config := if mc_PollInterval config <=? 0
        then config <| mc_PollInterval := second |> else config in
      let config := if mc_IdleTimeout config <=? 0
        then config <| mc_IdleTimeout := 5 * minute |> else config in
      let config := if (mc_DiscoveryLimit config <=? 0) || (1000 <? mc_DiscoveryLimit config)
        then config <| mc_DiscoveryLimit := 100 |> else config in
      let config := if mc_MaxAttempts config <=? 0 then config <| mc_MaxAttempts := 5 |> else config in
      let config := match mc_RetryBackoff config with
        | None => config <| mc_RetryBackoff := Some default_backoff |>
        | Some _ => config end in
      Ok (mkManager config ∅ ∅ false).

Definition backoff (config : ManagerConfig) : Z → error → Z := default default_backoff (mc_RetryBackoff config).

(** ** Lanes of this process *)

(** The wake channel of a session is made when it is first asked for. *)
Definition wakeChannelLocked (m : Manager) (sessionID : string) : Manager :=
  match mg_wakes m !! sessionID with
  | Some _ => m
  | None => m <| mg_wakes := <[sessionID := false]> (mg_wakes m) |>
  end.

Definition Wake (m : Manager) (sessionID : string) : Manager :=
  let sessionID := TrimSpace sessionID in
  if bool_decide (sessionID = "") then m
  else m <| mg_wakes := <[sessionID := true]> (mg_wakes m) |>.

Definition reserveSession (m : Manager) (sessionID : string) : result bool * Manager :=
  if mg_stopped m then (Err ErrManagerStopped, m)
  else
    let m := wakeChannelLocked m sessionID in
    if bool_decide (sessionID ∈ mg_running m) then (Ok false, m)
    else (Ok true, m <| mg_running := {[sessionID]} ∪ mg_running m |>).

(** [EnsureSession], less the goroutine it starts when it answers [true]. *)
Definition EnsureSession (m : Manager) (sessionID : string) : result bool * Manager :=
  let sessionID := TrimSpace sessionID in
  if bool_decide (sessionID = "") then (Err (Errorf "session id is required"), m)
  else reserveSession m sessionID.

(** The end of a lane. *)
Definition leaveSession (m : Manager) (sessionID : string) : Manager :=
  m <| mg_running := mg_running m ∖ {[sessionID]} |>.

Definition Stop (m : Manager) : Manager := m <| mg_stopped := true |>.

Fixpoint ensure_sessions (m : Manager) (sessions : list string) : option error * Manager :=
  match sessions with
  | [] => (None, m)
  | sessionID :: rest =>
      let '(r, m) := EnsureSession m sessionID in
      match r with
      | Err err => if negb (errors_Is err ErrManagerStopped) then (Some err, m) else ensure_sessions m rest
      | Ok _ => ensure_sessions m rest
      end
  end.

(** ** Calls of the store *)

Definition scall {A} (c : Eff (sworld X) A) : Eff (sworld X) A := let* _ := peers in c.

Definition error_of {A} (r : result A) : option error := match r with Ok _ => None | Err e => Some e end.

Definition Discover (m : Manager) : Eff (sworld X) (option error * Manager) :=
  let* r := scall (ListRunnableSessions (mc_DiscoveryLimit (mg_config m))) in
  match r with
  | Err err => ret (Some err, m)
  | Ok sessions => ret (ensure_sessions m sessions)
  end.

Definition Enqueue (m : Manager) (sessionID : string) (input : SessionInput)
    : Eff (sworld X) (result EnqueueResult * Manager) :=
  let* r := scall (EnqueueInput sessionID input) in
  match r with
  | Err err => ret (Err err, m)
  | Ok result => ret (Ok result, Wake m sessionID)
  end.

(** ** The heartbeat *)

(** [n] ticks; the first error ends the heartbeat. *)
Fixpoint heartbeat (config : ManagerConfig) (fence : Fence) (inputID : string) (n : nat)
    : Eff (sworld X) (option error) :=
  match n with
  | O => ret None
  | S n' =>
      let* r := scall (RenewLease fence (mc_LeaseTTL config)) in
      match r with
      | Err err => ret (Some err)
      | Ok _ =>
          let* r := scall (MarkInputRunning fence inputID (mc_ClaimTTL config)) in
          match r with
          | Err err => ret (Some err)
          | Ok _ => heartbeat config fence inputID n'
          end
      end
  end.

Definition beats : Eff (sworld X) nat := fun w => (heartbeats w, w).

Definition callProcessor (processor : Processor) (input : TypedInput) (turn : SessionTurnRun) (fence : Fence)
    : Eff (sworld X) (TurnResult * option error) :=
  let* p := processor input turn fence in
  match p with
  | Returns result err => ret (result, err)
  | Panics value => ret (zeroTurnResult, Some (Errorf ("processor panic: " +:+ value)))
  end.

Definition processWithHeartbeat (config : ManagerConfig) (processor : Processor) (input : TypedInput)
    (turn : SessionTurnRun) (fence : Fence) : Eff (sworld X) (TurnResult * option error * option error) :=
  let* before := beats in
  let* leaseErr := heartbeat config fence (tr_InputID turn) before in
  let* _ := peers in
  let* '(result, err) := callProcessor processor input turn fence in
  let* after := beats in
  let* leaseErr := match leaseErr with
                   | Some e => ret (Some e)
                   | None => heartbeat config fence (tr_InputID turn) after
                   end in
  match leaseErr with
  | Some e => ret (zeroTurnResult, err, Some e)
  | None => ret (result, err, None)
  end.

(** ** One input *)

Definition retryClaimedInput (config : ManagerConfig) (fence : Fence) (record : SessionInputRecord)
    (cause : error) : Eff (sworld X) (option error) :=
  if mc_MaxAttempts config <=? in_Attempts record then
    let* r := scall (DeadInput fence (in_InputID record) (mkFailure "prepare_turn_failed" (err_text cause))) in
    ret (error_of r)
  else
    let* now := s_now in
    let available := now + backoff config (in_Attempts record) cause in
    let* r := scall (RetryInput fence (in_InputID record) available
                       (mkFailure "prepare_turn_failed" (err_text cause))) in
    ret (error_of r).

(** [if id != "" { if _, err := SaveTurnCheckpoint(...); err != nil { return err } }]. *)
Definition save_checkpoint (fence : Fence) (turn : SessionTurnRun) (checkpointID : string)
    : Eff (sworld X) (option error) :=
  if bool_decide (checkpointID = "") then ret None
  else let* r := scall (SaveTurnCheckpoint fence (tr_TurnID turn) checkpointID) in ret (error_of r).

Definition has_output (turn : SessionTurnRun) : bool := negb (bool_decide (tr_OutputPayload turn = "")).

(** The block of [drain] for a processor that has failed. *)
Definition process_failed (config : ManagerConfig) (fence : Fence) (record : SessionInputRecord)
    (turn : SessionTurnRun) (result : TurnResult) (processErr : error) : Eff (sworld X) (option error) :=
  let* checkpointErr := save_checkpoint fence turn (tu_RunnerCheckpointID result) in
  match checkpointErr with
  | Some e => ret (Some e)
  | None =>
      let exhausted := mc_MaxAttempts config <=? in_Attempts record in
      let* preserve :=
        (if exhausted && negb (has_output turn) then
           let* latest := scall (GetTurn (tr_TurnID turn)) in
           ret (match latest with Err e => Err e | Ok latest => Ok (has_output latest) end)
         else ret (Ok (has_output turn))) in
      match preserve with
      | Err e => ret (Some e)
      | Ok preserveFrozenOutput =>
          if exhausted && negb preserveFrozenOutput then
            let* r := scall (DeadTurn fence (tr_TurnID turn) (mkFailure "processor_failed" (err_text processErr))) in
            ret (error_of r)
          else
            let* now := s_now in
            let availableAt := now + backoff config (in_Attempts record) processErr in
            let* r := scall (RetryTurnAt fence (tr_TurnID turn) availableAt
                               (mkFailure "processor_failed" (err_text processErr))) in
            ret (error_of r)
      end
  end.

(** The block of [drain] for a result. *)
Definition process_outcome (config : ManagerConfig) (fence : Fence) (record : SessionInputRecord)
    (turn : SessionTurnRun) (result : TurnResult) : Eff (sworld X) (option error) :=
  let outcome := if bool_decide (tu_Outcome result = "") then TurnOutcomeCommit else tu_Outcome result in
  if bool_decide (outcome = TurnOutcomeCommit) then
    let* r := scall (CommitTurn fence (tr_TurnID turn) (tu_OutputDigest result)) in ret (error_of r)
  else if bool_decide (outcome = TurnOutcomeWaitingInterrupt) then
    let* r := scall (WaitForInterrupt fence (tr_TurnID turn) (tu_RunnerCheckpointID result)) in ret (error_of r)
  else if bool_decide (outcome = TurnOutcomeRetry) then
    let* checkpointErr := save_checkpoint fence turn (tu_RunnerCheckpointID result) in
    match checkpointErr with
    | Some e => ret (Some e)
    | None =>
        let* retryAt := (if IsZero (tu_RetryAt result) then
                           let* now := s_now in
                           ret (now + backoff config (in_Attempts record)
                                        (Errorf (fl_Message (tu_Failure result))))
                         else ret (tu_RetryAt result)) in
        let* r := scall (RetryTurnAt fence (tr_TurnID turn) retryAt (tu_Failure result)) in
        ret (error_of r)
    end
  else if bool_decide (outcome = TurnOutcomeDead) then
    let* r := scall (DeadTurn fence (tr_TurnID turn) (tu_Failure result)) in ret (error_of r)
  else
    let err := Errorf ("unknown turn outcome " +:+ Quote outcome) in
    let* _ := scall (DeadTurn fence (tr_TurnID turn) (mkFailure "invalid_turn_outcome" (err_text err))) in
    ret (Some err).

(** The turn of a claimed input. *)
Definition process_turn (config : ManagerConfig) (processor : Processor) (fence : Fence)
    (record : SessionInputRecord) (input : TypedInput) (spec : TurnSpec) : Eff (sworld X) (option error) :=
  let* created := scall (GetOrCreateTurn fence (in_InputID record) spec) in
  match created with
  | Err err => ret (Some err)
  | Ok (turn, _) =>
      let* begun := scall (BeginTurn fence (tr_TurnID turn)) in
      match begun with
      | Err err => ret (Some err)
      | Ok turn =>
          let* '(result, processErr, leaseErr) := processWithHeartbeat config processor input turn fence in
          match leaseErr, processErr with
          | Some e, _ => ret (Some e)
          | None, Some e => process_failed config fence record turn result e
          | None, None => process_outcome config fence record turn result
          end
      end
  end.

Definition drain (config : ManagerConfig) (processor : Processor) (fence : Fence)
    : Eff (sworld X) (bool * option error) :=
  let* claimed := scall (ClaimNext (mkClaimOptions fence (mc_ClaimTTL config) (mc_MaxAttempts config))) in
  match claimed with
  | Err err => if errors_Is err ErrNoInputAvailable then ret (false, None) else ret (false, Some err)
  | Ok record =>
      match DecodeInput record with
      | Err err =>
          let* r := scall (DeadInput fence (in_InputID record) (mkFailure "invalid_input_payload" (err_text err))) in
          ret (true, error_of r)
      | Ok input =>
          let* spec := match mc_TurnSpec config with
                       | Some f => scall (f record input)
                       | None => ret (Ok (mkTurnSpec "" "" "" ""))
                       end in
          match spec with
          | Err err => let* e := retryClaimedInput config fence record err in ret (true, e)
          | Ok spec => let* e := process_turn config processor fence record input spec in ret (true, e)
          end
      end
  end.

(** ** The lane *)

(** What the [select] of the lane receives. *)
Inductive lane_event := EvDone | EvIdle | EvWake | EvPoll | EvRenew.

Definition context_Canceled := errors_New "context canceled".

Inductive lane_state := Lane_next (nextRenew : Time) | Lane_end (err : option error).

Definition renew_lane (config : ManagerConfig) (fence : Fence) : Eff (sworld X) lane_state :=
  let* r := scall (RenewLease fence (mc_LeaseTTL config)) in
  match r with
  | Err err => ret (Lane_end (Some err))
  | Ok _ => let* now := s_now in ret (Lane_next (now + mc_RenewInterval config))
  end.

(** One round of the [for] of [runReservedSession]; [event] is what the
    [select] receives when the round comes to it. *)
Definition lane_round (config : ManagerConfig) (processor : Processor) (fence : Fence) (nextRenew : Time)
    (event : lane_event) : Eff (sworld X) lane_state :=
  let* '(did, err) := drain config processor fence in
  match err with
  | Some e => ret (Lane_end (Some e))
  | None =>
      if did then
        let* now := s_now in
        if negb (now <? nextRenew) then renew_lane config fence else ret (Lane_next nextRenew)
      else
        match event with
        | EvDone => ret (Lane_end (Some context_Canceled))
        | EvIdle => ret (Lane_end None)
        | EvWake | EvPoll => ret (Lane_next nextRenew)
        | EvRenew => renew_lane config fence
        end
  end.

(** The rounds; a lane whose events have run out is still running ([None]). *)
Fixpoint lane_rounds (config : ManagerConfig) (processor : Processor) (fence : Fence) (nextRenew : Time)
    (events : list lane_event) : Eff (sworld X) (option (option error)) :=
  match events with
  | [] => ret None
  | event :: rest =>
      let* st := lane_round config processor fence nextRenew event in
      match st with
      | Lane_end err => ret (Some err)
      | Lane_next nextRenew => lane_rounds config processor fence nextRenew rest
      end
  end.

(** The deferred [ReleaseLease], whose error is dropped. *)
Definition release (fence : Fence) {A} (a : A) : Eff (sworld X) A :=
  let* _ := scall (ReleaseLease fence) in ret a.

Definition runReservedSession (config : ManagerConfig) (processor : Processor) (sessionID : string)
    (events : list lane_event) : Eff (sworld X) (option (option error)) :=
  let* lease := scall (AcquireLease sessionID (mc_OwnerID config) (mc_LeaseTTL config)) in
  match lease with
  | Err err => ret (Some (Some err))
  | Ok lease =>
      let fence := Lease_Fence lease in
      let* recovered := scall (RecoverExpiredInputs fence) in
      match recovered with
      | Err err => release fence (Some (Some err))
      | Ok _ =>
          let* now := s_now in
          let* r := lane_rounds config processor fence (now + mc_RenewInterval config) events in
          match r with
          | Some err => release fence (Some err)
          | None => ret None
          end
      end
  end.
End manager.
