(* ===== verification/SessionManagerProps.v ===== *)
(** * Session runtime: what the manager does

    A small program logic for computations that act on the store through its
    commands ([triple]), and with it: the manager only runs the store's commands,
    and an input it has taken up without an error is not left claimed. *)

From Stdlib Require Import ZArith Lia Ascii.
From S2P Require Import Prelude GoJson SessionModels SessionStore SessionEffects SessionInv SessionOps SessionProps.
From S2P Require Import SessionManager.

Create HintDb triples.

Section logic.
Context `{Codec} `{Clock} {X : Type}.
Implicit Types (w : sworld X) (s : MemoryStore).

(** [c] runs commands of the store, some number [m] of them; if they are not
    too many for the counters, [P] before gives [Q] after. *)
Definition triple {A} (P : sworld X → Prop) (c : Eff (sworld X) A) (Q : A → sworld X → Prop) : Prop :=
  ∀ n w a w', reached n w → c w = (a, w') →
    ∃ m, nsteps session_step m w w' ∧ (Z.of_nat (n + m) < int64_max → P w → Q a w').

(** What holds of a run from some point on. *)
Definition stable (P : sworld X → Prop) : Prop := ∀ w w', session_future w w' → P w → P w'.

Lemma triple_ret {A} (P : sworld X → Prop) (a : A) (Q : A → sworld X → Prop) :
  (∀ w, P w → Q a w) → triple P (ret a) Q.
Proof. intros HQ n w b w' _ [= <- <-]. exists 0%nat. split; [constructor|]. intros _. apply HQ. Qed.

Lemma triple_bind {A B} P (c : Eff (sworld X) A) (k : A → Eff (sworld X) B) Q1 Q :
  triple P c Q1 → (∀ a, triple (Q1 a) (k a) Q) → triple P (bind c k) Q.
Proof.
  intros Hc Hk n w b w' Hn. unfold bind. destruct (c w) as [a w1] eqn:E. intros E2.
  destruct (Hc _ _ _ _ Hn E) as (m1 & Hm1 & H1). destruct (Hk a _ _ _ _ (reached_steps _ _ _ _ Hn Hm1) E2) as (m2 & Hm2 & H2).
  exists (m1 + m2)%nat. split; [by eapply nsteps_trans|]. rewrite Nat.add_assoc. intros Hle HP. apply H2; [done|].
  apply H1; [lia|done].
Qed.

Lemma triple_weaken {A} (P P' : sworld X → Prop) (c : Eff (sworld X) A) (Q Q' : A → sworld X → Prop) :
  triple P c Q → (∀ w, P' w → P w) → (∀ a w, Q a w → Q' a w) → triple P' c Q'.
Proof.
  intros Hc HP HQ n w a w' Hn E. destruct (Hc _ _ _ _ Hn E) as (m & Hm & H1). exists m. eauto 10.
Qed.

Lemma triple_ext {A} P (c c' : Eff (sworld X) A) Q : (∀ w, c w = c' w) → triple P c Q → triple P c' Q.
Proof. intros Hc HQ n w a w'. rewrite <-Hc. apply HQ. Qed.

(** What is stable stays across any computation. *)
Lemma triple_frame {A} P (c : Eff (sworld X) A) Q R :
  stable R → triple P c Q → triple (fun w => P w ∧ R w) c (fun a w => Q a w ∧ R w).
Proof.
  intros HR Hc n w a w' Hn E. destruct (Hc _ _ _ _ Hn E) as (m & Hm & H1). exists m. split; [done|].
  intros Hle [HP HRw]. split; [by apply H1|]. apply (HR w); [|done]. by exists n, m.
Qed.

(** A computation that only runs commands. *)
Definition runs {A} (c : Eff (sworld X) A) : Prop := triple (fun _ => True) c (fun _ _ => True).

Lemma runs_stable {A} (c : Eff (sworld X) A) R : stable R → runs c → triple R c (fun _ w => R w).
Proof.
  intros HR Hc. eapply triple_weaken; [exact (triple_frame _ _ _ R HR Hc)|done|]. by intros a w [_ ?].
Qed.

Lemma runs_bind {A B} (c : Eff (sworld X) A) (k : A → Eff (sworld X) B) :
  runs c → (∀ a, runs (k a)) → runs (bind c k).
Proof. intros Hc Hk. eapply triple_bind; [exact Hc|]. intros a. apply Hk. Qed.

Lemma runs_ret {A} (a : A) : runs (ret a).
Proof. by apply triple_ret. Qed.

Lemma triple_runs {A} P (c : Eff (sworld X) A) Q : triple P c Q → runs c.
Proof.
  intros Hc n w a w' Hn E. destruct (Hc _ _ _ _ Hn E) as (m & Hm & _). by exists m.
Qed.

Lemma runs_triple {A} P (c : Eff (sworld X) A) : runs c → triple P c (fun _ _ => True).
Proof. intros Hc. by eapply triple_weaken. Qed.

Lemma s_now_step w a w' : s_now w = (a, w') → session_step w w'.
Proof. intros [= _ <-]. apply step_outside. Qed.

(** One command. *)
Definition is_command {A} (c : Eff (sworld X) A) : Prop := ∀ w a w', c w = (a, w') → session_step w w'.

Lemma command_is_command {A} cmd (c : Eff (sworld X) (result A)) : run_command cmd = only_error c → is_command c.
Proof.
  intros Hc w a w' E. apply (step_command cmd w (match a with Ok _ => None | Err e => Some e end)).
  rewrite Hc. unfold only_error, bind, ret. by rewrite E.
Qed.

Lemma triple_command {A} (P : sworld X → Prop) (c : Eff (sworld X) A) (Q : A → sworld X → Prop) :
  is_command c →
  (∀ w a w', session_reachable w → session_future w w' → P w → c w = (a, w') → Q a w') → triple P c Q.
Proof.
  intros Hc HQ n w a w' Hn E. exists 1%nat. split; [by eapply nsteps_once, Hc|]. intros Hle HP.
  apply (HQ w a w'); try done; [exists n; split; [lia|done]|].
  exists n, 1%nat. split; [done|]. split; [done|]. by eapply nsteps_once, Hc.
Qed.

Lemma is_command_runs {A} (c : Eff (sworld X) A) : is_command c → runs c.
Proof. intros Hc. by apply triple_command. Qed.

Lemma runs_now : runs s_now.
Proof. apply is_command_runs. intros w a w'. apply s_now_step. Qed.

(** ** Stable facts *)

Lemma stable_and P R : stable P → stable R → stable (fun w => P w ∧ R w).
Proof. intros HP HR w w' Hf [? ?]. split; [by eapply HP|by eapply HR]. Qed.

Lemma stable_const (P : Prop) : stable (fun _ => P).
Proof. by intros w w' _. Qed.

(** The input [k], and the turn [tid] of it. *)
Definition known_input (k : string) (w : sworld X) : Prop := is_Some (inputs (sw_store w) !! k).
Definition turn_of (tid k : string) (w : sworld X) : Prop :=
  ∃ t, turns (sw_store w) !! tid = Some t ∧ tr_InputID t = k.

Lemma stable_known k : stable (known_input k).
Proof.
  intros w w' Hf [r Hr]. destruct (hist_inputs _ _ (future_history _ _ Hf) _ _ Hr) as (r' & Hr' & _). by exists r'.
Qed.

Lemma stable_turn_of tid k : stable (turn_of tid k).
Proof.
  intros w w' Hf (t & Ht & <-). destruct (hist_turns _ _ (future_history _ _ Hf) _ _ Ht) as (t' & Ht' & Hk & _).
  exists t'. split; [done|]. by destruct (tr_key_fields _ _ Hk) as (_ & ? & _).
Qed.
End logic.

Section settling.
Context `{Codec} `{Clock} {X : Type}.
Implicit Types (w : sworld X) (s : MemoryStore).

Definition settled (k : string) (w : sworld X) : Prop :=
  ∃ r, inputs (sw_store w) !! k = Some r ∧ holds_claim r = false.

Lemma settled_put k s r w : sw_store w = put_input s r → in_InputID r = k → holds_claim r = false → settled k w.
Proof. intros Hw <- Hh. exists r. rewrite Hw. cbn. rewrite lookup_insert_eq. by split. Qed.

Lemma claimed_id f s id r : session_inv s → claimed_by f s id r → in_InputID r = TrimSpace id.
Proof. intros Hi (Hr & _). by destruct (lane_key _ (inv_lane _ Hi) _ _ Hr) as (-> & _). Qed.

Ltac guard_err := match goal with
  | E : (Err _, _) = (Ok _, _) |- _ => discriminate E
  | E : Err _ = Ok _ |- _ => discriminate E
  | E : Ok _ = Err _ |- _ => discriminate E
  end.
Ltac open_fence E now l w1 Hs Hf :=
  apply with_fence_inv in E as [(?e & ?E & _)|(now & l & w1 & Hs & Hf & E)]; [guard_err|].
Ltac open_claim E r w2 Hs2 Hc :=
  apply try_claimed_inv in E as [(?e & ?E & _)|(r & w2 & Hs2 & Hc & E)]; [guard_err|].
Ltac open_turn E t r w2 Hs2 Ht Hsess Hc :=
  apply try_turn_inv in E as [(?e & ?E & _)|(t & r & w2 & Hs2 & Ht & Hsess & Hc & E)]; [guard_err|].

Lemma DeadInput_settles f id failure w r w' :
  session_reachable w → DeadInput f id failure w = (Ok r, w') → settled (TrimSpace id) w'.
Proof.
  intros Hi%session_reachable_inv E. unfold DeadInput, finishInput in E.
  open_fence E now l w1 Hs Hf. open_claim E r0 w2 Hs2 Hc.
  unfold bind at 1, get_store in E. rewrite bool_decide_true, bool_decide_false in E by done.
  apply commit_inv in E as [_ Hw]. rewrite Hs in Hc.
  eapply settled_put; [exact Hw| |reflexivity]. rewrite <-(claimed_id _ _ _ _ Hi Hc). reflexivity.
Qed.

Lemma RetryInput_settles f id at_ failure w r w' :
  session_reachable w → RetryInput f id at_ failure w = (Ok r, w') → settled (TrimSpace id) w'.
Proof.
  intros Hi%session_reachable_inv E. unfold RetryInput in E.
  open_fence E now l w1 Hs Hf. open_claim E r0 w2 Hs2 Hc.
  unfold bind at 1, get_store in E. apply commit_inv in E as [_ Hw]. rewrite Hs in Hc.
  eapply settled_put; [exact Hw| |reflexivity]. rewrite <-(claimed_id _ _ _ _ Hi Hc). reflexivity.
Qed.

(** The input of a turn that has been looked up. *)
Lemma turn_input w tid k t :
  session_inv (sw_store w) → turn_of tid k w → TrimSpace tid = tid → turns (sw_store w) !! TrimSpace tid = Some t →
  tr_InputID t = k ∧ TrimSpace k = k ∧ ∃ r, inputs (sw_store w) !! k = Some r ∧ turn_agrees t r.
Proof.
  intros Hi (t0 & Ht0 & Hk) Htrim Ht. rewrite Htrim in Ht. assert (t = t0) as <- by congruence. split; [done|].
  destruct (turn_key _ (inv_turn _ Hi) _ _ Ht) as (_ & _ & _ & Hb & _). rewrite Hk in Hb.
  destruct (turn_link _ (inv_turn _ Hi) _ _ Hb) as (t1 & r & H1 & _ & H2 & _ & _ & Hag).
  assert (t1 = t) as -> by congruence. destruct (lane_key _ (inv_lane _ Hi) _ _ H2) as (_ & ? & _).
  split; [done|]. by exists r.
Qed.

Lemma resolved_settled k w r : inputs (sw_store w) !! k = Some r → in_Status r = InputStatusResolved → settled k w.
Proof. intros Hr Hs. exists r. split; [done|]. unfold holds_claim. by rewrite Hs. Qed.

Lemma dead_settled k w r : inputs (sw_store w) !! k = Some r → in_Status r = InputStatusDead → settled k w.
Proof. intros Hr Hs. exists r. split; [done|]. unfold holds_claim. by rewrite Hs. Qed.

(** Commands on a turn whose identifier is trimmed. *)
Definition at_turn (tid k : string) (w : sworld X) : Prop := turn_of tid k w ∧ TrimSpace tid = tid.

Lemma stable_at_turn tid k : stable (at_turn tid k).
Proof. apply stable_and; [apply stable_turn_of|apply stable_const]. Qed.

Lemma RetryTurnAt_settles f tid k at_ failure w t w' :
  session_reachable w → at_turn tid k w → RetryTurnAt f tid at_ failure w = (Ok t, w') → settled k w'.
Proof.
  intros Hi%session_reachable_inv [Hof Htrim] E. unfold RetryTurnAt in E.
  open_fence E now l w1 Hs Hf. open_turn E t0 r0 w2 Hs2 Ht Hsess Hc.
  destruct (negb _); [discriminate E|]. unfold bind at 1, get_store in E. apply commit_inv in E as [_ Hw].
  rewrite Hs in Ht, Hc. destruct (turn_input _ _ _ _ Hi Hof Htrim Ht) as (Hk & Htk & _).
  eapply settled_put; [exact Hw| |reflexivity]. rewrite <-Htk, <-Hk, <-(claimed_id _ _ _ _ Hi Hc). reflexivity.
Qed.

Lemma CommitTurn_settles f tid k digest w t w' :
  session_reachable w → at_turn tid k w → CommitTurn f tid digest w = (Ok t, w') → settled k w'.
Proof.
  intros Hi%session_reachable_inv [Hof Htrim] E. unfold CommitTurn in E.
  open_fence E now l w1 Hs Hf. unfold bind at 1, get_store in E. rewrite Hs in E.
  destruct (turns (sw_store w) !! _) as [t0|] eqn:Ht; [|discriminate E].
  destruct (turn_input _ _ _ _ Hi Hof Htrim Ht) as (Hk & Htk & r & Hr & Hag).
  case_bool_decide as Hst.
  - destruct (negb _); [discriminate E|]. injection E as <- <-. rewrite <-Hs in Hr.
    eapply resolved_settled; [exact Hr|]. apply Hag. rewrite Hst. set_solver.
  - destruct (_ && _); [discriminate E|]. open_claim E r0 w2 Hs2 Hc. destruct (negb _); [discriminate E|].
    apply commit_inv in E as [_ Hw]. rewrite Hs in Hc.
    eapply settled_put; [exact Hw| |reflexivity]. rewrite <-Htk, <-Hk, <-(claimed_id _ _ _ _ Hi Hc). reflexivity.
Qed.

Lemma WaitForInterrupt_settles f tid k checkpoint w t w' :
  session_reachable w → at_turn tid k w → WaitForInterrupt f tid checkpoint w = (Ok t, w') → settled k w'.
Proof.
  intros Hi%session_reachable_inv [Hof Htrim] E. unfold WaitForInterrupt in E.
  destruct (bool_decide (TrimSpace checkpoint = "")); [discriminate E|].
  open_fence E now l w1 Hs Hf. unfold bind at 1, get_store in E. rewrite Hs in E.
  destruct (turns (sw_store w) !! _) as [t0|] eqn:Ht; [|discriminate E].
  destruct (turn_input _ _ _ _ Hi Hof Htrim Ht) as (Hk & Htk & r & Hr & Hag).
  destruct (_ && _) eqn:Est.
  - apply andb_prop in Est as [Hst%bool_decide_eq_true _]. injection E as <- <-. rewrite <-Hs in Hr.
    eapply resolved_settled; [exact Hr|]. apply Hag. rewrite Hst. set_solver.
  - destruct (bool_decide _); [discriminate E|]. open_claim E r0 w2 Hs2 Hc. destruct (negb _); [discriminate E|].
    apply commit_inv in E as [_ Hw]. rewrite Hs in Hc.
    eapply settled_put; [exact Hw| |reflexivity]. rewrite <-Htk, <-Hk, <-(claimed_id _ _ _ _ Hi Hc). reflexivity.
Qed.

Lemma DeadTurn_settles f tid k failure w t w' :
  session_reachable w → session_reachable w' → at_turn tid k w → DeadTurn f tid failure w = (Ok t, w') → settled k w'.
Proof.
  intros Hi%session_reachable_inv Hi' [Hof Htrim] E. unfold DeadTurn in E.
  open_fence E now l w1 Hs Hf. unfold bind at 1, get_store in E. rewrite Hs in E.
  destruct (turns (sw_store w) !! _) as [t0|] eqn:Ht; [|discriminate E].
  destruct (turn_input _ _ _ _ Hi Hof Htrim Ht) as (Hk & Htk & r & Hr & Hag).
  case_bool_decide as Hst.
  - rewrite Hk, Hr in E. apply commit_inv in E as [_ Hw].
    apply (dead_settled k w' r); [|by apply Hag].
    rewrite Hw. unfold recordTerminalFailureLocked. by destruct (terminalEvents (sw_store w) !! _).
  - open_claim E r0 w2 Hs2 Hc. destruct (status_in _ _); [discriminate E|].
    apply commit_inv in E as [_ Hw]. rewrite Hs in Hc.
    eapply settled_put; [exact Hw| |reflexivity]. rewrite <-Htk, <-Hk, <-(claimed_id _ _ _ _ Hi Hc). reflexivity.
Qed.

Lemma GetOrCreateTurn_turn f id spec w t b w' :
  session_reachable w → session_future w w' → GetOrCreateTurn f id spec w = (Ok (t, b), w') → TrimSpace id = id →
  at_turn (tr_TurnID t) id w'.
Proof.
  intros Hi%session_reachable_inv Hfut E Hid. unfold GetOrCreateTurn in E.
  open_fence E now l w1 Hs Hf. open_claim E r w2 Hs2 Hc. rewrite Hs in Hc.
  pose proof (claimed_id _ _ _ _ Hi Hc) as Hrid. rewrite Hid in Hrid.
  unfold bind at 1, get_store in E. rewrite Hs2, Hs in E.
  case_bool_decide as Eb; cbn [negb] in E.
  - match type of E with context [turns _ !! ?x] => remember x as tid eqn:Etid end.
    destruct (turns (sw_store w) !! tid) as [t0|]; [discriminate E|].
    match type of E with commit ?s2 _ _ = _ => remember s2 as s' eqn:Es' end.
    apply commit_inv in E as [Ht Hw]. injection Ht as -> ->. cbn [tr_TurnID new_turn].
    assert (turns s' !! tid = Some (cloneTurn (new_turn tid
      (if bool_decide (TrimSpace (ts_RunnerRunID spec) = "") then StableRunnerRunID (in_SessionID r) (in_InputID r)
       else TrimSpace (ts_RunnerRunID spec)) r f spec now))) as Hts by (rewrite Es'; cbn; by rewrite lookup_insert_eq).
    split.
    + eexists. rewrite Hw. split; [exact Hts|exact Hrid].
    + rewrite <-Hw in Hts. apply future_reachable in Hfut as [_ Hi'%session_reachable_inv].
      by destruct (turn_key _ (inv_turn _ Hi') _ _ Hts) as (_ & ? & _).
  - injection E as <- _ <-. unfold string_at in *.
    destruct (turnByInput (sw_store w) !! in_InputID r) as [tid|] eqn:Etid; [|done]. cbn in Eb |- *.
    destruct (turn_link _ (inv_turn _ Hi) _ _ Etid) as (t1 & r1 & H1 & H2 & _).
    destruct (turn_key _ (inv_turn _ Hi) _ _ H1) as (Hk & Htr & _).
    unfold turn_at. cbn. rewrite H1. cbn. rewrite Hk. split; [|done]. exists t1. rewrite Hs2, Hs. split; [done|congruence].
Qed.

Lemma BeginTurn_turn f tid k w t w' :
  session_reachable w → at_turn tid k w → BeginTurn f tid w = (Ok t, w') → tr_TurnID t = tid ∧ tr_InputID t = k.
Proof.
  intros Hi%session_reachable_inv [Hof Htrim] E. unfold BeginTurn in E.
  open_fence E now l w1 Hs Hf. open_turn E t0 r0 w2 Hs2 Ht Hsess Hc.
  destruct (negb _); [discriminate E|]. unfold bind at 1, get_store in E. apply commit_inv in E as [Et _].
  rewrite Hs in Ht. destruct (turn_input _ _ _ _ Hi Hof Htrim Ht) as (Hk & _).
  rewrite Htrim in Ht. destruct (turn_key _ (inv_turn _ Hi) _ _ Ht) as (Hkey & _).
  injection Et as ->. done.
Qed.

Lemma ClaimNext_claims options w r w' :
  session_reachable w → ClaimNext options w = (Ok r, w') →
  inputs (sw_store w') !! in_InputID r = Some r ∧ TrimSpace (in_InputID r) = in_InputID r ∧ holds_claim r = true ∧
  in_SessionID r = fn_SessionID (co_Fence options) ∧ in_ClaimFence r = fn_FenceToken (co_Fence options).
Proof.
  intros Hi%session_reachable_inv E. unfold ClaimNext in E. destruct (_ <=? 0); [discriminate E|].
  open_fence E now l w1 Hs Hf. unfold bind at 1, get_store in E. rewrite Hs in E.
  destruct (claim_select _ _ options now) as [o s1] eqn:Es.
  destruct (claim_select_spec _ _ _ _ _ _ Hi Es) as (Hq & _ & _ & Hsel). unfold bind at 1, put_store in E.
  destruct o as [[r0|e]|]; [|discriminate E|discriminate E]. apply commit_inv in E as [Hr Hw].
  destruct Hsel as (Hr0 & Hsid & _). injection Hr as ->.
  pose proof (effects_inv _ _ (quiet_rtc _ _ Hq) Hi) as Hi1.
  destruct (lane_key _ (inv_lane _ Hi1) _ _ Hr0) as (_ & Htr & _).
  rewrite Hw. cbn. rewrite lookup_insert_eq. done.
Qed.
End settling.

(** ** The blocks of the drain *)

Section draining.
Context `{Codec} `{Clock} {X : Type} `{Peers X}.
Context (peers_run : runs peers).
Implicit Types (w : sworld X) (k : string).

Lemma runs_scall {A} (c : Eff (sworld X) A) : is_command c → runs (scall c).
Proof. intros Hc. apply runs_bind; [done|]. intros _. by apply is_command_runs. Qed.

Lemma triple_scall {A} R (c : Eff (sworld X) A) (Q : A → sworld X → Prop) :
  stable R → is_command c →
  (∀ w a w', session_reachable w → session_future w w' → R w → c w = (a, w') → Q a w') → triple R (scall c) Q.
Proof.
  intros HR Hc HQ. eapply triple_bind; [by apply runs_stable|]. intros []. by apply triple_command.
Qed.

(** The last call of a block. *)
Lemma triple_last {A} R (c : Eff (sworld X) (result A)) (S : sworld X → Prop) :
  stable R → is_command c →
  (∀ w a w', session_reachable w → session_reachable w' → R w → c w = (Ok a, w') → S w') →
  triple R (let* r := scall c in ret (error_of r)) (fun e w => e = None → S w).
Proof.
  intros HR Hc HS. eapply triple_bind.
  - apply (triple_scall R c (fun r w => error_of r = None → S w)); [done|done|].
    intros w [a|e] w' Hw Hf HRw E; [|discriminate]. intros _. apply (HS w a); try done.
    by apply (future_reachable w).
  - intros a. by apply triple_ret.
Qed.

Lemma runs_last {A} (c : Eff (sworld X) (result A)) : is_command c → runs (let* r := scall c in ret (error_of r)).
Proof. intros Hc. apply runs_bind; [by apply runs_scall|]. intros a. apply runs_ret. Qed.

(** A block that answers an error settles nothing. *)
Lemma triple_error {A} R (e : A) (S : sworld X → Prop) :
  triple R (ret (Some e)) (fun o w => o = None → S w).
Proof. apply triple_ret. intros w _. discriminate. Qed.

Notation settles R c k := (triple R c (fun e w => e = None → settled k w)).

Lemma runs_heartbeat config f id n : runs (heartbeat config f id n).
Proof.
  induction n as [|n IH]; [apply runs_ret|]. cbn [heartbeat].
  apply runs_bind; [apply runs_scall, (command_is_command (CRenewLease _ _) _ eq_refl)|]. intros [l|e]; [|apply runs_ret].
  apply runs_bind; [apply runs_scall, (command_is_command (CMarkInputRunning _ _ _) _ eq_refl)|].
  intros [r|e]; [exact IH|apply runs_ret].
Qed.

Lemma runs_processWithHeartbeat config (processor : Processor) input turn f :
  (∀ input turn f, runs (processor input turn f)) → runs (processWithHeartbeat config processor input turn f).
Proof.
  intros Hp. assert (runs beats) as Hb.
  { intros n w a w' _ [= _ <-]. exists 0%nat. split; [constructor|done]. }
  unfold processWithHeartbeat. apply runs_bind; [done|]. intros before.
  apply runs_bind; [apply runs_heartbeat|]. intros e1. apply runs_bind; [done|]. intros _.
  apply runs_bind. { apply runs_bind; [apply Hp|]. intros [result err|v]; apply runs_ret. }
  intros [result err]. apply runs_bind; [done|]. intros after.
  apply runs_bind; [destruct e1; [apply runs_ret|apply runs_heartbeat]|]. intros [e|]; apply runs_ret.
Qed.

Lemma runs_save_checkpoint f turn id : runs (save_checkpoint f turn id).
Proof.
  unfold save_checkpoint. case_bool_decide; [apply runs_ret|].
  apply runs_last, (command_is_command (CSaveTurnCheckpoint _ _ _) _ eq_refl).
Qed.

Lemma DeadTurn_last f tid k failure :
  settles (at_turn tid k) (let* r := scall (DeadTurn f tid failure) in ret (error_of r)) k.
Proof.
  apply triple_last; [apply stable_at_turn|apply (command_is_command (CDeadTurn _ _ _) _ eq_refl)|].
  intros w t w'. apply DeadTurn_settles.
Qed.

Lemma RetryTurnAt_last f tid k at_ failure :
  settles (at_turn tid k) (let* r := scall (RetryTurnAt f tid at_ failure) in ret (error_of r)) k.
Proof.
  apply triple_last; [apply stable_at_turn|apply (command_is_command (CRetryTurnAt _ _ _ _) _ eq_refl)|].
  intros w t w' Hw _. by apply RetryTurnAt_settles.
Qed.

Definition trimmed k (w : sworld X) : Prop := TrimSpace k = k.

Lemma stable_trimmed k : stable (trimmed k).
Proof. apply (stable_const (TrimSpace k = k)). Qed.

Lemma known_settles {A} k (c : Eff (sworld X) (result A)) :
  is_command c →
  (∀ w r w', session_reachable w → c w = (Ok r, w') → settled (TrimSpace k) w') →
  settles (trimmed k) (let* r := scall c in ret (error_of r)) k.
Proof.
  intros Hc Hs. apply triple_last; [apply stable_trimmed|done|].
  intros w r w' Hw _ Hk E. rewrite <-Hk. by eapply Hs.
Qed.

Lemma DeadInput_last f k failure :
  settles (trimmed k) (let* r := scall (DeadInput f k failure) in ret (error_of r)) k.
Proof.
  apply known_settles; [apply (command_is_command (CDeadInput _ _ _) _ eq_refl)|].
  intros w r w'. apply DeadInput_settles.
Qed.

Lemma retryClaimedInput_settles config f record cause :
  settles (trimmed (in_InputID record)) (retryClaimedInput config f record cause) (in_InputID record).
Proof.
  unfold retryClaimedInput. destruct (_ <=? _); [apply DeadInput_last|].
  eapply triple_bind; [apply (runs_stable _ _ (stable_trimmed _)), runs_now|]. intros now.
  apply known_settles; [apply (command_is_command (CRetryInput _ _ _ _) _ eq_refl)|].
  intros w r w'. apply RetryInput_settles.
Qed.

Lemma process_failed_settles config f record turn result e k :
  settles (at_turn (tr_TurnID turn) k) (process_failed config f record turn result e) k.
Proof.
  pose proof (stable_at_turn (X := X) (tr_TurnID turn) k) as Hst. unfold process_failed.
  eapply triple_bind; [apply (runs_stable _ _ Hst), runs_save_checkpoint|]. intros [e1|]; [apply triple_error|].
  eapply triple_bind.
  { apply (runs_stable _ _ Hst). destruct (_ && _); [|apply runs_ret]. apply runs_bind.
    - apply runs_scall, (command_is_command (CGetTurn _) _ eq_refl).
    - intros [t|e1]; apply runs_ret. }
  intros [preserve|e1]; [|apply triple_error]. destruct (_ && _); [apply DeadTurn_last|].
  eapply triple_bind; [apply (runs_stable _ _ Hst), runs_now|]. intros now. apply RetryTurnAt_last.
Qed.

Lemma process_outcome_settles config f record turn result k :
  settles (at_turn (tr_TurnID turn) k) (process_outcome config f record turn result) k.
Proof.
  pose proof (stable_at_turn (X := X) (tr_TurnID turn) k) as Hst. unfold process_outcome.
  generalize (if bool_decide (tu_Outcome result = "") then TurnOutcomeCommit else tu_Outcome result) as outcome.
  intros outcome. case_bool_decide.
  { apply triple_last; [done|apply (command_is_command (CCommitTurn _ _ _) _ eq_refl)|].
    intros w t w' Hw _. by apply CommitTurn_settles. }
  case_bool_decide.
  { apply triple_last; [done|apply (command_is_command (CWaitForInterrupt _ _ _) _ eq_refl)|].
    intros w t w' Hw _. by apply WaitForInterrupt_settles. }
  case_bool_decide.
  { eapply triple_bind; [apply (runs_stable _ _ Hst), runs_save_checkpoint|]. intros [e|]; [apply triple_error|].
    eapply triple_bind; [apply (runs_stable _ _ Hst)|intros retryAt; apply RetryTurnAt_last].
    destruct (IsZero _); [|apply runs_ret]. apply runs_bind; [apply runs_now|intros now; apply runs_ret]. }
  case_bool_decide; [apply DeadTurn_last|].
  eapply triple_bind; [|intros a; apply triple_error].
  apply (runs_triple _ _), runs_scall, (command_is_command (CDeadTurn _ _ _) _ eq_refl).
Qed.

Lemma process_turn_settles config (processor : Processor) f record input spec :
  (∀ input turn f, runs (processor input turn f)) →
  settles (trimmed (in_InputID record)) (process_turn config processor f record input spec) (in_InputID record).
Proof.
  intros Hp. unfold process_turn. set (k := in_InputID record) in *. eapply triple_bind.
  { apply (triple_scall _ _ (fun a w => match a with Ok (t, _) => at_turn (tr_TurnID t) k w | Err _ => True end));
      [apply stable_trimmed|apply (command_is_command (CGetOrCreateTurn _ _ _) _ eq_refl)|].
    intros w [[t b]|e] w' Hw Hf Hk E; [|done]. by eapply GetOrCreateTurn_turn. }
  intros [[t b]|e]; [|apply triple_error]. pose proof (stable_at_turn (X := X) (tr_TurnID t) k) as Hst. eapply triple_bind.
  { apply (triple_scall _ _ (fun a w => match a with Ok t' => at_turn (tr_TurnID t') k w | Err _ => True end));
      [done|apply (command_is_command (CBeginTurn _ _) _ eq_refl)|].
    intros w [t'|e] w' Hw Hf Ht E; [|done]. destruct (BeginTurn_turn _ _ _ _ _ _ Hw Ht E) as [-> _]. by apply (Hst w). }
  intros [t'|e]; [|apply triple_error]. pose proof (stable_at_turn (X := X) (tr_TurnID t') k) as Hst'.
  eapply triple_bind; [by apply (runs_stable _ _ Hst'), runs_processWithHeartbeat|].
  intros [[result [e1|]] [e2|]];
    [apply triple_error|apply process_failed_settles|apply triple_error|apply process_outcome_settles].
Qed.

(** The input [k] has been claimed under the fence [f] since [w0]. *)
Definition taken (f : Fence) (w0 : sworld X) (k : string) (w : sworld X) : Prop :=
  ∃ w1 r, rtc session_step w0 w1 ∧ rtc session_step w1 w ∧ inputs (sw_store w1) !! k = Some r ∧
          holds_claim r = true ∧ in_SessionID r = fn_SessionID f ∧ in_ClaimFence r = fn_FenceToken f.

Lemma future_rtc w w' : session_future w w' → rtc session_step w w'.
Proof. intros (n & m & _ & _ & Hm). by eapply rtc_nsteps_2. Qed.

Lemma stable_since w0 : stable (rtc session_step w0).
Proof. intros w w' Hf Hw. by etrans; [|apply future_rtc]. Qed.

Lemma stable_taken f w0 k : stable (taken f w0 k).
Proof.
  intros w w' Hf (w1 & r & Hb & Ha & Hr). exists w1, r. split; [done|]. split; [|done]. by etrans; [|apply future_rtc].
Qed.

Lemma settles_taken f w0 k (c : Eff (sworld X) (option error)) :
  settles (trimmed k) c k →
  triple (fun w => trimmed k w ∧ taken f w0 k w) (let* e := c in ret (true, e))
    (fun b w => b = (true, None) → ∃ k, settled k w ∧ taken f w0 k w).
Proof.
  intros Hc. eapply triple_bind; [exact (triple_frame _ _ _ _ (stable_taken f w0 k) Hc)|].
  intros e. apply triple_ret. intros w [Hs Ht] [= ->]. exists k. by split; [apply Hs|].
Qed.

Context (config : ManagerConfig (X := X)) (processor : Processor (X := X)) (f : Fence).
Context (processor_runs : ∀ input turn f, runs (processor input turn f)).
Context (spec_runs : ∀ g record input, mc_TurnSpec config = Some g → runs (g record input)).

Lemma drain_takes_and_settles w0 :
  triple (rtc session_step w0) (drain config processor f)
    (fun b w => b = (true, None) → ∃ k, settled k w ∧ taken f w0 k w).
Proof.
  unfold drain. eapply triple_bind.
  { apply (triple_scall _ _ (fun a w => match a with
      | Ok r => trimmed (in_InputID r) w ∧ taken f w0 (in_InputID r) w | Err _ => True end));
      [apply stable_since|apply (command_is_command (CClaimNext _) _ eq_refl)|].
    intros w [r|e] w' Hw Hf Hw0 E; [|done].
    destruct (ClaimNext_claims _ _ _ _ Hw E) as (Hr & Htr & Hh & Hs & Hc). split; [done|].
    exists w', r. split; [etrans; [exact Hw0|by apply future_rtc]|]. by split; [apply rtc_refl|]. }
  intros [record|e]; [|by destruct (errors_Is _ _); apply triple_ret].
  destruct (DecodeInput record) as [input|err].
  - eapply triple_bind.
    { apply (runs_stable _ _ (stable_and _ _ (stable_trimmed _) (stable_taken _ _ _))).
      destruct (mc_TurnSpec config) as [g|] eqn:Eg; [|apply runs_ret].
      apply runs_bind; [done|]. intros _. by apply spec_runs. }
    intros [spec|err]; apply settles_taken; [by apply process_turn_settles|apply retryClaimedInput_settles].
  - eapply triple_ext; [|apply settles_taken,
      (DeadInput_last f _ (mkFailure "invalid_input_payload" (err_text err)))].
    intros w. unfold bind. destruct (scall _ w) as [[r|e] w']; reflexivity.
Qed.
(** C19. One turn of the drain.  Whatever the processor, the preparation of turns
    and the other workers do to the store through its commands, [drain] itself
    only runs commands too; and if it answers that it has taken up an input and
    met no error, then an input of the session was claimed in the meantime under
    the fence, and at the end it holds no claim: it is resolved, dead or waits
    for a retry, so the lane is free. *)
Theorem drain_settles n w w' did err :
  reached n w → drain config processor f w = ((did, err), w') →
  ∃ m, nsteps session_step m w w' ∧
    (Z.of_nat (n + m) < int64_max → did = true → err = None →
     ∃ k w1 r1 r, rtc session_step w w1 ∧ rtc session_step w1 w' ∧
       inputs (sw_store w1) !! k = Some r1 ∧ holds_claim r1 = true ∧
       in_SessionID r1 = fn_SessionID f ∧ in_ClaimFence r1 = fn_FenceToken f ∧
       inputs (sw_store w') !! k = Some r ∧ holds_claim r = false).
Proof.
  intros Hn E. destruct (drain_takes_and_settles w n w _ w' Hn E) as (m & Hm & Hs). exists m. split; [done|].
  intros Hle -> ->. destruct (Hs Hle (rtc_refl _ _) eq_refl) as (k & (r & Hr & Hh) & (w1 & r1 & H1r & H2r & Hc & Hc1 & Hc2 & Hc3)).
  by exists k, w1, r1, r.
Qed.

Lemma runs_drain : runs (drain config processor f).
Proof.
  intros n w a w' Hn E. destruct (drain_takes_and_settles w n w a w' Hn E) as (m & Hm & _). by exists m.
Qed.

Lemma runs_renew_lane : runs (renew_lane config f).
Proof.
  apply runs_bind; [apply runs_scall, (command_is_command (CRenewLease _ _) _ eq_refl)|].
  intros [l|e]; [|apply runs_ret]. apply runs_bind; [apply runs_now|]. intros now. apply runs_ret.
Qed.

Lemma runs_lane_rounds events next : runs (lane_rounds config processor f next events).
Proof.
  revert next. induction events as [|event events IH]; intros next; [apply runs_ret|]. cbn [lane_rounds].
  apply runs_bind; [|intros [next'|err]; [apply IH|apply runs_ret]].
  apply runs_bind; [apply runs_drain|]. intros [did [e|]]; [apply runs_ret|]. destruct did.
  - apply runs_bind; [apply runs_now|]. intros now. destruct (negb _); [apply runs_renew_lane|apply runs_ret].
  - destruct event; first [apply runs_renew_lane|apply runs_ret].
Qed.

Lemma runs_release {A} (a : A) : runs (release f a).
Proof.
  apply runs_bind; [apply runs_scall, (command_is_command (CReleaseLease _) _ eq_refl)|]. intros r. apply runs_ret.
Qed.
End draining.

Section lane.
Context `{Codec} `{Clock} {X : Type} `{Peers X}.
Context (peers_run : runs peers).
Context (config : ManagerConfig (X := X)) (processor : Processor (X := X)).
Context (processor_runs : ∀ input turn f, runs (processor input turn f)).
Context (spec_runs : ∀ g record input, mc_TurnSpec config = Some g → runs (g record input)).

Lemma runs_runReservedSession sid events : runs (runReservedSession config processor sid events).
Proof.
  apply runs_bind; [by apply runs_scall, (command_is_command (CAcquireLease _ _ _) _ eq_refl)|].
  intros [l|e]; [|apply runs_ret].
  apply runs_bind; [by apply runs_scall, (command_is_command (CRecoverExpiredInputs _) _ eq_refl)|].
  intros [k|e]; [|by apply runs_release].
  apply runs_bind; [apply runs_now|]. intros now.
  apply runs_bind; [by apply runs_lane_rounds|]. intros [err|]; [by apply runs_release|apply runs_ret].
Qed.

Lemma runs_Discover m : runs (Discover m).
Proof.
  apply runs_bind; [by apply runs_scall, (command_is_command (CListRunnableSessions _) _ eq_refl)|].
  intros [l|e]; apply runs_ret.
Qed.

Lemma runs_Enqueue m sid input : runs (Enqueue m sid input).
Proof.
  apply runs_bind; [by apply runs_scall, (command_is_command (CEnqueueInput _ _) _ eq_refl)|].
  intros [l|e]; apply runs_ret.
Qed.

(** The manager's calls, in any order. *)
Inductive manager_call : Type :=
| MEnqueue (m : Manager (X := X)) (sessionID : string) (input : SessionInput)
| MDiscover (m : Manager (X := X))
| MRun (sessionID : string) (events : list lane_event).

Definition run_call (c : manager_call) : Eff (sworld X) unit :=
  match c with
  | MEnqueue m sessionID input => let* _ := Enqueue m sessionID input in ret tt
  | MDiscover m => let* _ := Discover m in ret tt
  | MRun sessionID events => let* _ := runReservedSession config processor sessionID events in ret tt
  end.

Fixpoint run_calls (cs : list manager_call) : Eff (sworld X) unit :=
  match cs with [] => ret tt | c :: cs => let* _ := run_call c in run_calls cs end.

Lemma runs_run_call c : runs (run_call c).
Proof.
  destruct c; cbn [run_call]; (apply runs_bind; [|intros; apply runs_ret]);
    [apply runs_Enqueue|apply runs_Discover|apply runs_runReservedSession].
Qed.

Lemma runs_run_calls cs : runs (run_calls cs).
Proof.
  induction cs as [|c cs IH]; [apply runs_ret|]. apply runs_bind; [|intros _; exact IH].
  apply runs_run_call.
Qed.

(** C2. The manager refines the store's transition system: any sequence of
    enqueues, discoveries and lanes -- with any processor, preparation of turns
    and other workers that act through commands, and any events of the lanes --
    started in an empty store is a run of the store's commands.  So, as long as
    the run has fewer steps than the largest [int64], the invariant of the store
    holds in the end, at most one input of a session holds a claim, and what had
    ended before the last call has stayed. *)
Theorem manager_refines_store cs c w0 w1 w2 u1 u2 :
  session_start w0 → run_calls cs w0 = (u1, w1) → run_call c w1 = (u2, w2) →
  ∃ n m, nsteps session_step n w0 w1 ∧ nsteps session_step m w1 w2 ∧
    (Z.of_nat (n + m) < int64_max →
     session_inv (sw_store w2) ∧
     (∀ k1 k2 r1 r2, inputs (sw_store w2) !! k1 = Some r1 → inputs (sw_store w2) !! k2 = Some r2 →
        in_SessionID r1 = in_SessionID r2 → holds_claim r1 = true → holds_claim r2 = true → k1 = k2) ∧
     (∀ k r, inputs (sw_store w1) !! k = Some r → isTerminalInputStatus (in_Status r) = true →
        inputs (sw_store w2) !! k = Some r)).
Proof.
  intros Hw0 E1 E2. assert (reached 0%nat w0) as R0 by (exists w0; split; [done|constructor]).
  destruct (runs_run_calls cs 0%nat w0 u1 w1 R0 E1) as (n & Hn & _). pose proof (reached_steps _ _ _ _ R0 Hn) as R1.
  destruct (runs_run_call c _ _ _ _ R1 E2) as (m & Hm & _). exists n, m. split; [done|]. split; [done|]. intros Hle.
  assert (session_future w1 w2) as Hf by (by exists n, m).
  pose proof (future_reachable _ _ Hf) as [_ Hr%session_reachable_inv]. split; [done|]. split.
  - intros k1 k2 r1 r2 Hk1 Hk2 Hs Hh1 Hh2. by apply (lane_claims _ _ _ _ _ (inv_lane _ Hr) Hk1 Hk2).
  - intros k r Hk Ht. destruct (hist_inputs _ _ (future_history _ _ Hf) _ _ Hk) as (r' & Hk' & _ & _ & _ & He).
    by rewrite (He Ht) in Hk'.
Qed.
End lane.
