(* ===== verification/SessionWitness.v ===== *)
(** * Session runtime: concrete runs

    The theorems of the session runtime applied to short runs of the store and of
    the manager. *)

From Stdlib Require Import ZArith Lia Ascii.
From S2P Require Import Prelude GoJson SessionModels SessionStore SessionEffects SessionInv SessionOps SessionProps.
From S2P Require Import SessionRuns SessionDiscovery SessionManager SessionManagerProps.

Module SessionRun.
Import SessionSample.

Definition after (c : session_command) (w : sworld unit) : sworld unit := (run_command c w).2.

Lemma future_after c n w : reached n w → Z.of_nat (n + 1) < int64_max → session_future w (after c w).
Proof.
  intros Hn Hle. exists n, 1%nat. split; [done|]. split; [done|]. apply nsteps_once.
  unfold after. destruct (run_command c w) as [e w'] eqn:E. by apply (step_command c w e).
Qed.

Lemma reached_reachable n (w : sworld unit) : reached n w → Z.of_nat n < int64_max → session_reachable w.
Proof. intros Hn Hle. by exists n. Qed.

(** The lease handed to another owner, and the first message buried. *)
Definition handed : sworld unit := after (CHandoffLease fence "b" 100) world4.
Definition buried : sworld unit := after (CDeadInput fence "message:m1" (mkFailure "c" "m")) world4.
Definition later : sworld unit := after (CEnqueueInput "s" (message "m3")) buried.

Lemma reached_handed : reached 5 handed.
Proof. apply reach, reached4. Qed.
Lemma reached_buried : reached 5 buried.
Proof. apply reach, reached4. Qed.
Lemma reachable_buried : session_reachable buried.
Proof. by apply (reached_reachable 5); [apply reached_buried|]. Qed.

(** From the first message to its claim. *)
Lemma first_to_claim : session_future world1 world4.
Proof.
  exists 1%nat, 3%nat. split; [done|]. split; [apply reached1|].
  assert (∀ c (w : sworld unit), session_step w (run_command c w).2) as Hs.
  { intros c w. destruct (run_command c w) as [e w'] eqn:E. by apply (step_command c w e). }
  eapply nsteps_l; [apply Hs|]. eapply nsteps_l; [apply Hs|]. eapply nsteps_l; [apply Hs|]. constructor.
Qed.

(** An approval continuation requested, claimed and applied. *)
Definition request : ApprovalContinuation :=
  zeroApprovalContinuation <| ac_ApprovalID := "ap" |> <| ac_DecisionVersion := 1 |> <| ac_SessionID := "s" |>
    <| ac_Executor := ContinuationExecutorRunnerResume |> <| ac_ExecutionEpoch := 1 |>.
Definition claim : ContinuationClaim := mkContinuationClaim "ap" 1 ContinuationExecutorRunnerResume 1 "worker".
Definition requested : sworld unit := after (CRequestContinuation request) world0.
Definition continuing : sworld unit := after (CClaimContinuation claim 100) requested.
Definition applied : sworld unit := after (CApplyContinuation claim []) continuing.

Lemma reached_applied : reached 3 applied.
Proof. apply reach, reach, reach, reached0. Qed.

(** A manager whose processor commits every turn, alone in the store. *)
#[export] Instance alone : Peers unit := {| peers := ret tt; heartbeats _ := 1%nat |}.
Definition commits : Processor (X := unit) := fun input turn f => ret (Returns zeroTurnResult None).
Definition config : ManagerConfig (X := unit) :=
  mkManagerConfig true (Some commits) "a" 100 30 50 10 10 10 3 None None.

Lemma alone_runs : runs (X := unit) peers.
Proof. apply runs_ret. Qed.
Lemma commits_runs input turn f : runs (commits input turn f).
Proof. apply runs_ret. Qed.
Lemma no_spec_runs g record input : mc_TurnSpec config = Some g → runs (g record input).
Proof. discriminate. Qed.
End SessionRun.

Import SessionRun.
#[local] Existing Instances SessionSample.codec SessionSample.ticking.

Lemma one_started_input_per_session_witness :
  ∃ r, inputs (sw_store SessionSample.world4) !! "message:m1" = Some r ∧ holds_claim r = true ∧
  1 <= in_EnqueueSeq r <= counter_at (inputCounters (sw_store SessionSample.world4)) (in_SessionID r).
Proof.
  destruct (tested_Some (inputs (sw_store SessionSample.world4) !! "message:m1") holds_claim) as (r & Hr & Hh);
    [vm_compute; reflexivity|].
  exists r. split; [exact Hr|]. split; [exact Hh|].
  assert (session_reachable SessionSample.world4) as Hw
    by exact (reached_reachable 4 _ SessionSample.reached4 eq_refl).
  exact (proj1 (proj2 (one_started_input_per_session _ Hw) _ _ Hr)).
Defined.

Lemma overtaken_fence_is_refused_witness :
  ∃ e w, run_command (CCommitTurn SessionSample.fence "t" "d") handed = (Some e, w) ∧ sw_store w = sw_store handed.
Proof.
  destruct (tested_Some (leases (sw_store handed) !! "s") (fun l => sl_FenceToken l =? 2)) as (l & Hl & Ht);
    [vm_compute; reflexivity|].
  apply Z.eqb_eq in Ht.
  refine (overtaken_fence_is_refused handed handed "s" l (CCommitTurn SessionSample.fence "t" "d") SessionSample.fence _ Hl eq_refl eq_refl _).
  - apply future_refl, (reached_reachable 5 _ reached_handed eq_refl).
  - left. rewrite Ht. reflexivity.
Defined.

Lemma what_has_ended_stays_witness :
  ∃ r, inputs (sw_store buried) !! "message:m1" = Some r ∧ inputs (sw_store later) !! "message:m1" = Some r.
Proof.
  destruct (tested_Some (inputs (sw_store buried) !! "message:m1") (fun r => isTerminalInputStatus (in_Status r)))
    as (r & Hr & Ht); [vm_compute; reflexivity|].
  exists r. split; [exact Hr|].
  exact (proj1 (what_has_ended_stays buried later (future_after _ 5 _ reached_buried eq_refl)) _ _ Hr Ht).
Defined.

Lemma the_dead_are_announced_once_witness :
  ∃ r, inputs (sw_store buried) !! "message:m1" = Some r ∧
  terminalEvents (sw_store buried) !! ev_SourceKey (death_event r) = Some (death_event r).
Proof.
  destruct (tested_Some (inputs (sw_store buried) !! "message:m1")
    (fun r => bool_decide (in_Status r = InputStatusDead))) as (r & Hr & Ht); [vm_compute; reflexivity|].
  exists r. split; [exact Hr|].
  exact (proj1 (the_dead_are_announced_once buried reachable_buried) _ _ Hr (proj1 (bool_decide_eq_true _) Ht)).
Defined.

Lemma enqueue_is_idempotent_witness :
  ∃ res r, EnqueueInput "s" (SessionSample.message "m1") SessionSample.world0 = (Ok res, SessionSample.world1) ∧
  EnqueueInput "s" (SessionSample.message "m1") SessionSample.world4 = (Ok (mkEnqueueResult r false), SessionSample.world4).
Proof.
  destruct (tested_Some (match (EnqueueInput "s" (SessionSample.message "m1") SessionSample.world0).1 with
    Ok r => Some r | Err _ => None end) er_Enqueued) as (res & Hr & Ht); [vm_compute; reflexivity|].
  assert (EnqueueInput "s" (SessionSample.message "m1") SessionSample.world0 = (Ok res, SessionSample.world1)) as E.
  { unfold SessionSample.world1, run_command, only_error, bind. revert Hr.
    destruct (EnqueueInput _ _ SessionSample.world0) as [[r|e] w]; [|discriminate]. intros [= ->]. reflexivity. }
  destruct (enqueue_is_idempotent SessionSample.world0 SessionSample.world1 SessionSample.world4 "s"
    (SessionSample.message "m1") res) as (_ & _ & r & Hr2 & _).
  - intros v raw _. eexists. reflexivity.
  - exact (reached_reachable 0 _ SessionSample.reached0 eq_refl).
  - exact E.
  - exact first_to_claim.
  - exists res, r. split; [exact E|exact Hr2].
Defined.

Lemma enqueued_input_decodes_witness :
  ∃ r, inputs (sw_store SessionSample.world4) !! "message:m1" = Some r ∧
  DecodeInput r = Ok (TUserMessage (NewUserMessage "m1" "")).
Proof.
  destruct (tested_Some (match (EnqueueInput "s" (SessionSample.message "m1") SessionSample.world0).1 with
    Ok r => Some r | Err _ => None end) (fun r => er_Enqueued r && bool_decide (in_InputID (er_Input r) = "message:m1")))
    as (res & Hr & [Ht Hid]%andb_prop); [vm_compute; reflexivity|].
  apply bool_decide_eq_true_1 in Hid. rewrite <-Hid.
  refine (enqueued_input_decodes SessionSample.world0 SessionSample.world1 SessionSample.world4 "s"
    (SessionSample.message "m1") _ res _ _ Ht first_to_claim eq_refl _).
  - exact (reached_reachable 0 _ SessionSample.reached0 eq_refl).
  - unfold SessionSample.world1, run_command, only_error, bind. revert Hr.
    destruct (EnqueueInput _ _ SessionSample.world0) as [[r|e] w]; [|discriminate]. intros [= ->]. reflexivity.
  - intros raw [= <-]. reflexivity.
Defined.

Lemma claim_next_contract_witness :
  ∃ l a w, ClaimNext SessionSample.options SessionSample.world3 = (a, w) ∧
  claim_outcome (sw_store SessionSample.world3) (sw_store w) SessionSample.options l
    (now_at (sw_reads SessionSample.world3)) a.
Proof.
  destruct (tested_Some (match validateFenceLocked (sw_store SessionSample.world3) (co_Fence SessionSample.options)
    (now_at (sw_reads SessionSample.world3)) with Ok l => Some l | Err _ => None end) (fun _ => true)) as (l & Hl & _);
    [vm_compute; reflexivity|].
  destruct (ClaimNext SessionSample.options SessionSample.world3) as [a w] eqn:E.
  exists l, a, w. split; [reflexivity|].
  refine (claim_next_contract SessionSample.world3 SessionSample.options l a w _ eq_refl _ E).
  - exact (reached_reachable 3 _ SessionSample.reached3 eq_refl).
  - revert Hl. destruct (validateFenceLocked _ _ _) as [l'|e]; [|discriminate]. intros [= ->]. reflexivity.
Defined.

Lemma continuation_is_applied_once_witness :
  ∃ c, ApplyContinuation claim [] continuing = (Ok c, applied) ∧ ApplyContinuation claim [] applied = (Ok c, applied).
Proof.
  destruct (tested_Some (match (ApplyContinuation claim [] continuing).1 with Ok r => Some r | Err _ => None end)
    (fun _ => true)) as (c & Hc & _); [vm_compute; reflexivity|].
  assert (ApplyContinuation claim [] continuing = (Ok c, applied)) as E.
  { unfold applied, after, run_command, only_error, bind. revert Hc.
    destruct (ApplyContinuation claim [] continuing) as [[r|e] w]; [|discriminate]. intros [= ->]. reflexivity. }
  exists c. split; [exact E|].
  refine (proj2 (proj2 (proj2 (continuation_is_applied_once continuing applied applied claim [] c E _)))
    claim [] _ eq_refl eq_refl); [|vm_compute; reflexivity].
  apply future_refl. exact (reached_reachable 3 _ reached_applied eq_refl).
Defined.

Lemma discovered_session_is_served_witness :
  ∃ (sessions : list string) l w2 m w3 a w4,
    "s" ∈ sessions ∧ AcquireLease "s" "a" 100 (ListRunnableSessions 10 SessionSample.world2).2 = (Ok l, w2) ∧
    RecoverExpiredInputs (Lease_Fence l) w2 = (Ok m, w3) ∧
    ClaimNext (mkClaimOptions (Lease_Fence l) 50 3) w3 = (a, w4) ∧
    served SessionSample.world2 "s" (mkClaimOptions (Lease_Fence l) 50 3) a w4.
Proof.
  destruct (tested_Some (match ListRunnableSessions 10 SessionSample.world2 with
    | (Ok ss, w1) => match AcquireLease "s" "a" 100 w1 with
      | (Ok l, w2) => match RecoverExpiredInputs (Lease_Fence l) w2 with
        | (Ok m, w3) => Some (ss, l, now_at (sw_reads w3)) | _ => None end | _ => None end | _ => None end)
    (fun '(ss, l, now) => bool_decide ("s" ∈ ss) && (now <? sl_LeaseUntil l))) as ([[ss l] now] & Hrun & Ht);
    [vm_compute; reflexivity|].
  apply andb_prop in Ht as [Hss Hnow]. apply bool_decide_eq_true_1 in Hss. apply Z.ltb_lt in Hnow. revert Hrun.
  destruct (ListRunnableSessions 10 SessionSample.world2) as [[ss'|e] w1] eqn:E1; [|discriminate].
  destruct (AcquireLease "s" "a" 100 w1) as [[l'|e] w2] eqn:E2; [|discriminate].
  destruct (RecoverExpiredInputs (Lease_Fence l') w2) as [[m|e] w3] eqn:E3; [|discriminate].
  intros [= -> -> Hn]. subst now.
  destruct (ClaimNext (mkClaimOptions (Lease_Fence l) 50 3) w3) as [a w4] eqn:E4.
  exists ss, l, w2, m, w3, a, w4. split; [exact Hss|]. split; [exact E2|]. split; [exact E3|]. split; [exact E4|].
  refine (proj2 (discovered_session_is_served SessionSample.world2 w1 10 ss _ _ E1) "s" "a" 100 l w2 m w3
    (mkClaimOptions (Lease_Fence l) 50 3) a w4 Hss E2 E3 eq_refl eq_refl Hnow E4).
  - exact (reached_reachable 2 _ SessionSample.reached2 eq_refl).
  - intros i j Hij. unfold now_at, SessionSample.ticking. lia.
Defined.

Lemma drain_settles_witness :
  ∃ did err w m, drain config commits SessionSample.fence SessionSample.world3 = ((did, err), w) ∧
  did = true ∧ err = None ∧ nsteps session_step m SessionSample.world3 w.
Proof.
  destruct (tested_Some (match (drain config commits SessionSample.fence SessionSample.world3).1 with
    (did, None) => Some did | _ => None end) id) as (did & Hd & Ht); [vm_compute; reflexivity|].
  destruct (drain config commits SessionSample.fence SessionSample.world3) as [[did' [e|]] w] eqn:E; [discriminate|].
  injection Hd as ->.
  destruct (drain_settles alone_runs config commits SessionSample.fence commits_runs no_spec_runs 3 _ w did None
    SessionSample.reached3 E) as (m & Hm & _).
  exists did, None, w, m. split; [reflexivity|]. split; [exact Ht|]. split; [reflexivity|exact Hm].
Defined.

Lemma manager_refines_store_witness :
  ∃ w1 w2, run_calls config commits [MEnqueue (mkManager config ∅ ∅ false) "s" (SessionSample.message "m1")]
    SessionSample.world0 = (tt, w1) ∧
  run_call config commits (MRun "s" [EvPoll; EvIdle]) w1 = (tt, w2) ∧
  (∃ r, inputs (sw_store w2) !! "message:m1" = Some r ∧ in_Status r = InputStatusResolved) ∧
  ∃ n m, nsteps session_step n SessionSample.world0 w1 ∧ nsteps session_step m w1 w2.
Proof.
  destruct (run_calls config commits [MEnqueue (mkManager config ∅ ∅ false) "s" (SessionSample.message "m1")]
    SessionSample.world0) as [[] w1] eqn:E1.
  destruct (run_call config commits (MRun "s" [EvPoll; EvIdle]) w1) as [[] w2] eqn:E2.
  exists w1, w2. split; [reflexivity|]. split; [exact E2|]. split.
  - destruct (tested_Some (inputs (sw_store (run_call config commits (MRun "s" [EvPoll; EvIdle])
      (run_calls config commits [MEnqueue (mkManager config ∅ ∅ false) "s" (SessionSample.message "m1")]
        SessionSample.world0).2).2) !! "message:m1") (fun r => bool_decide (in_Status r = InputStatusResolved)))
      as (r & Hr & Ht); [vm_compute; reflexivity|].
    rewrite E1 in Hr. cbn [snd] in Hr. rewrite E2 in Hr. exists r. split; [exact Hr|]. exact (proj1 (bool_decide_eq_true _) Ht).
  - destruct (manager_refines_store alone_runs config commits commits_runs no_spec_runs _ _ _ _ _ _ _
      (eq_refl : session_start SessionSample.world0) E1 E2) as (n & m & Hn & Hm & _).
    exists n, m. split; [exact Hn|exact Hm].
Defined.
