(* ===== verification/ApprovalModels.v ===== *)
(** * Approvals: the model, [internal/aigc/approval/models.go], [store.go],
    [candidate_batch.go]

    The records of human review, their validation, and the functions that
    prepare a decision: what an approval, its decision, the continuation that
    carries it out and the outbox event that announces it become.  The clock is
    read by the callers: a function that the code lets read [time.Now] for a
    missing time takes the reading as [clock]. *)

From Stdlib Require Import ZArith Lia.
From S2P Require Import Prelude GoJson SessionModels.

Definition StatusPending := "pending".
Definition StatusApproved := "approved".
Definition StatusRejected := "rejected".
Definition StatusStale := "stale".
Definition StatusExpired := "expired".
Definition StatusCancelled := "cancelled".

Definition ReviewModeInterrupt := "interrupt".
Definition ReviewModeDurable := "durable".

Definition ExecutionModeInterrupt := "interrupt".
Definition ExecutionModeDurable := "durable".
Definition ExecutionModeDurableFallback := "durable_fallback".

Definition DecisionApprove := "approved".
Definition DecisionReject := "rejected".

Definition EventSessionInputRequested := "session.input_requested".
Definition EventApprovalContinuationRequested := "approval.continuation_requested".
Definition EventApprovalFallbackEnabled := "approval.fallback_enabled".
Definition DestinationSessionInputs := "session.inputs".
Definition DestinationApprovalContinuations := "approval.continuations".

Definition OutboxStatusPending := "pending".
Definition OutboxStatusPublished := "published".
Definition OutboxStatusDead := "dead".

Definition ErrNotFound := errors_New "approval not found".
Definition ErrAlreadyDecided := errors_New "approval already decided".
Definition ErrVersionConflict := errors_New "approval decision version conflict".
Definition ErrIdempotencyConflict := errors_New "approval idempotency conflict".
Definition ErrInvalidTransition := errors_New "invalid approval transition".
Definition ErrReviewModeImmutable := errors_New "approval review mode is immutable".
Definition ErrFallbackFenced := errors_New "approval fallback fence rejected".
Definition ErrContinuationBusy := errors_New "approval continuation has an active claim".
Definition ErrPrimaryReviewPending :=
  errors_New "a primary creation review is already pending for the session".

(** ** Records *)

Record VersionBinding := mkVersionBinding {
  vb_ArtifactID : string;
  vb_ArtifactVersion : Z;
  vb_StoryboardID : string;
  vb_StoryboardVersion : Z;
  vb_TargetID : string;
  vb_TargetRevision : Z;
  vb_PromptRevision : Z;
  vb_GenerationEpoch : Z
}.
#[global] Instance eta_VersionBinding : Eta VersionBinding := fun r =>
  mkVersionBinding (vb_ArtifactID r) (vb_ArtifactVersion r) (vb_StoryboardID r)
  (vb_StoryboardVersion r) (vb_TargetID r) (vb_TargetRevision r) (vb_PromptRevision r)
  (vb_GenerationEpoch r).
Definition zeroVersionBinding : VersionBinding :=
  mkVersionBinding "" 0 "" 0 "" 0 0 0.

#[global] Instance VersionBinding_eq_dec : EqDecision VersionBinding.
Proof. solve_decision. Defined.

Record FrozenCommand := mkFrozenCommand {
  fc_Kind : string;
  fc_IdempotencyKey : string;
  fc_Payload : RawMessage
}.
#[global] Instance eta_FrozenCommand : Eta FrozenCommand := fun r =>
  mkFrozenCommand (fc_Kind r) (fc_IdempotencyKey r) (fc_Payload r).
Definition zeroFrozenCommand : FrozenCommand :=
  mkFrozenCommand "" "" "".

Record Approval := mkApproval {
  ap_ID : string;
  ap_IdempotencyKey : string;
  ap_TenantID : string;
  ap_UserID : string;
  ap_SessionID : string;
  ap_ArtifactType : string;
  ap_Binding : VersionBinding;
  ap_ReviewMode : string;
  ap_ExecutionMode : string;
  ap_ExecutionEpoch : Z;
  ap_Status : string;
  ap_DecisionVersion : Z;
  ap_ApproveCommand : FrozenCommand;
  ap_RejectCommand : FrozenCommand;
  ap_CheckpointMappingID : string;
  ap_MappingEpoch : Z;
  ap_CreatedAt : Time;
  ap_UpdatedAt : Time;
  ap_ExpiresAt : option Time;
  ap_DecidedAt : option Time
}.
#[global] Instance eta_Approval : Eta Approval := fun r =>
  mkApproval (ap_ID r) (ap_IdempotencyKey r) (ap_TenantID r) (ap_UserID r) (ap_SessionID r)
  (ap_ArtifactType r) (ap_Binding r) (ap_ReviewMode r) (ap_ExecutionMode r)
  (ap_ExecutionEpoch r) (ap_Status r) (ap_DecisionVersion r) (ap_ApproveCommand r)
  (ap_RejectCommand r) (ap_CheckpointMappingID r) (ap_MappingEpoch r) (ap_CreatedAt r)
  (ap_UpdatedAt r) (ap_ExpiresAt r) (ap_DecidedAt r).
Definition zeroApproval : Approval :=
  mkApproval "" "" "" "" "" "" zeroVersionBinding "" "" 0 "" 0 zeroFrozenCommand
  zeroFrozenCommand "" 0 zeroTime zeroTime None None.

Record ApprovalDecision := mkApprovalDecision {
  ad_ApprovalID : string;
  ad_DecisionVersion : Z;
  ad_IdempotencyKey : string;
  ad_RequestedDecision : string;
  ad_EffectiveStatus : string;
  ad_ActorID : string;
  ad_Reason : string;
  ad_ObservedBinding : option VersionBinding;
  ad_CommandKind : string;
  ad_CommandIdempotencyKey : string;
  ad_CommandPayload : RawMessage;
  ad_CreatedAt : Time
}.
#[global] Instance eta_ApprovalDecision : Eta ApprovalDecision := fun r =>
  mkApprovalDecision (ad_ApprovalID r) (ad_DecisionVersion r) (ad_IdempotencyKey r)
  (ad_RequestedDecision r) (ad_EffectiveStatus r) (ad_ActorID r) (ad_Reason r)
  (ad_ObservedBinding r) (ad_CommandKind r) (ad_CommandIdempotencyKey r) (ad_CommandPayload r)
  (ad_CreatedAt r).
Definition zeroApprovalDecision : ApprovalDecision :=
  mkApprovalDecision "" 0 "" "" "" "" "" None "" "" "" zeroTime.

Record DecideCommand := mkDecideCommand {
  dc_ApprovalID : string;
  dc_ExpectedDecisionVersion : Z;
  dc_IdempotencyKey : string;
  dc_Decision : string;
  dc_ActorID : string;
  dc_Reason : string;
  dc_CurrentBinding : VersionBinding;
  dc_Now : Time
}.
#[global] Instance eta_DecideCommand : Eta DecideCommand := fun r =>
  mkDecideCommand (dc_ApprovalID r) (dc_ExpectedDecisionVersion r) (dc_IdempotencyKey r)
  (dc_Decision r) (dc_ActorID r) (dc_Reason r) (dc_CurrentBinding r) (dc_Now r).
Definition zeroDecideCommand : DecideCommand :=
  mkDecideCommand "" 0 "" "" "" "" zeroVersionBinding zeroTime.

Record CloseCommand := mkCloseCommand {
  xc_ApprovalID : string;
  xc_ExpectedDecisionVersion : Z;
  xc_IdempotencyKey : string;
  xc_Status : string;
  xc_ActorID : string;
  xc_Reason : string;
  xc_Now : Time
}.
#[global] Instance eta_CloseCommand : Eta CloseCommand := fun r =>
  mkCloseCommand (xc_ApprovalID r) (xc_ExpectedDecisionVersion r) (xc_IdempotencyKey r)
  (xc_Status r) (xc_ActorID r) (xc_Reason r) (xc_Now r).
Definition zeroCloseCommand : CloseCommand :=
  mkCloseCommand "" 0 "" "" "" "" zeroTime.

Record MappingCommand := mkMappingCommand {
  mc_ApprovalID : string;
  mc_ExpectedExecutionEpoch : Z;
  mc_CheckpointMappingID : string;
  mc_MappingEpoch : Z
}.
#[global] Instance eta_MappingCommand : Eta MappingCommand := fun r =>
  mkMappingCommand (mc_ApprovalID r) (mc_ExpectedExecutionEpoch r) (mc_CheckpointMappingID r)
  (mc_MappingEpoch r).
Definition zeroMappingCommand : MappingCommand :=
  mkMappingCommand "" 0 "" 0.

Record FallbackCommand := mkFallbackCommand {
  fb_ApprovalID : string;
  fb_ExpectedExecutionMode : string;
  fb_ExpectedExecutionEpoch : Z;
  fb_ExpectedDecisionVersion : Z;
  fb_Now : Time
}.
#[global] Instance eta_FallbackCommand : Eta FallbackCommand := fun r =>
  mkFallbackCommand (fb_ApprovalID r) (fb_ExpectedExecutionMode r)
  (fb_ExpectedExecutionEpoch r) (fb_ExpectedDecisionVersion r) (fb_Now r).
Definition zeroFallbackCommand : FallbackCommand :=
  mkFallbackCommand "" "" 0 0 zeroTime.

Record OutboxEvent := mkOutboxEvent {
  oe_ID : string;
  oe_IdempotencyKey : string;
  oe_EventType : string;
  oe_Destination : string;
  oe_AggregateType : string;
  oe_AggregateID : string;
  oe_AggregateVersion : Z;
  oe_SessionID : string;
  oe_WorkflowRunID : string;
  oe_StageRunID : string;
  oe_OperationID : string;
  oe_ToolCallID : string;
  oe_BatchID : string;
  oe_JobID : string;
  oe_Payload : RawMessage;
  oe_Status : string;
  oe_Attempts : Z;
  oe_AvailableAt : Time;
  oe_CreatedAt : Time;
  oe_PublishedAt : option Time
}.
#[global] Instance eta_OutboxEvent : Eta OutboxEvent := fun r =>
  mkOutboxEvent (oe_ID r) (oe_IdempotencyKey r) (oe_EventType r) (oe_Destination r)
  (oe_AggregateType r) (oe_AggregateID r) (oe_AggregateVersion r) (oe_SessionID r)
  (oe_WorkflowRunID r) (oe_StageRunID r) (oe_OperationID r) (oe_ToolCallID r) (oe_BatchID r)
  (oe_JobID r) (oe_Payload r) (oe_Status r) (oe_Attempts r) (oe_AvailableAt r) (oe_CreatedAt r)
  (oe_PublishedAt r).
Definition zeroOutboxEvent : OutboxEvent :=
  mkOutboxEvent "" "" "" "" "" "" 0 "" "" "" "" "" "" "" "" "" 0 zeroTime zeroTime None.

Record DecisionResult := mkDecisionResult {
  dr_Approval : Approval;
  dr_Decision : ApprovalDecision;
  dr_Continuation : ApprovalContinuation;
  dr_Outbox : OutboxEvent;
  dr_Created : bool
}.
#[global] Instance eta_DecisionResult : Eta DecisionResult := fun r =>
  mkDecisionResult (dr_Approval r) (dr_Decision r) (dr_Continuation r) (dr_Outbox r)
  (dr_Created r).
Definition zeroDecisionResult : DecisionResult :=
  mkDecisionResult zeroApproval zeroApprovalDecision zeroApprovalContinuation zeroOutboxEvent
  false.

Record FallbackResult := mkFallbackResult {
  fr_Approval : Approval;
  fr_Continuation : option ApprovalContinuation;
  fr_Outbox : OutboxEvent;
  fr_Switched : bool
}.
#[global] Instance eta_FallbackResult : Eta FallbackResult := fun r =>
  mkFallbackResult (fr_Approval r) (fr_Continuation r) (fr_Outbox r) (fr_Switched r).
Definition zeroFallbackResult : FallbackResult :=
  mkFallbackResult zeroApproval None zeroOutboxEvent false.

Record ApprovalContinuationRequested := mkApprovalContinuationRequested {
  cr_ApprovalID : string;
  cr_DecisionVersion : Z;
  cr_Executor : string;
  cr_ExecutionEpoch : Z
}.
#[global] Instance eta_ApprovalContinuationRequested : Eta ApprovalContinuationRequested := fun r =>
  mkApprovalContinuationRequested (cr_ApprovalID r) (cr_DecisionVersion r) (cr_Executor r)
  (cr_ExecutionEpoch r).
Definition zeroApprovalContinuationRequested : ApprovalContinuationRequested :=
  mkApprovalContinuationRequested "" 0 "" 0.

Record decisionRequest := mkdecisionRequest {
  rq_ApprovalID : string;
  rq_ExpectedDecisionVersion : Z;
  rq_IdempotencyKey : string;
  rq_RequestedDecision : string;
  rq_ActorID : string;
  rq_Reason : string;
  rq_ObservedBinding : option VersionBinding;
  rq_TerminalStatus : string;
  rq_Now : Time
}.
#[global] Instance eta_decisionRequest : Eta decisionRequest := fun r =>
  mkdecisionRequest (rq_ApprovalID r) (rq_ExpectedDecisionVersion r) (rq_IdempotencyKey r)
  (rq_RequestedDecision r) (rq_ActorID r) (rq_Reason r) (rq_ObservedBinding r)
  (rq_TerminalStatus r) (rq_Now r).
Definition zerodecisionRequest : decisionRequest :=
  mkdecisionRequest "" 0 "" "" "" "" None "" zeroTime.

Record CreateResult := mkCreateResult {
  re_Approval : Approval;
  re_Created : bool
}.
#[global] Instance eta_CreateResult : Eta CreateResult := fun r =>
  mkCreateResult (re_Approval r) (re_Created r).
Definition zeroCreateResult : CreateResult :=
  mkCreateResult zeroApproval false.

Record CandidateApprovalBatchTarget := mkCandidateApprovalBatchTarget {
  bt_ApprovalID : string;
  bt_BindingID : string;
  bt_ExpectedDecisionVersion : Z
}.
#[global] Instance eta_CandidateApprovalBatchTarget : Eta CandidateApprovalBatchTarget := fun r =>
  mkCandidateApprovalBatchTarget (bt_ApprovalID r) (bt_BindingID r)
  (bt_ExpectedDecisionVersion r).
Definition zeroCandidateApprovalBatchTarget : CandidateApprovalBatchTarget :=
  mkCandidateApprovalBatchTarget "" "" 0.

#[global] Instance CandidateApprovalBatchTarget_eq_dec : EqDecision CandidateApprovalBatchTarget.
Proof. solve_decision. Defined.

Record CandidateApprovalBatch := mkCandidateApprovalBatch {
  cb_ID : string;
  cb_IdempotencyKey : string;
  cb_SessionID : string;
  cb_StoryboardID : string;
  cb_ExpectedStoryboardVersion : Z;
  cb_Decision : string;
  cb_ActorID : string;
  cb_Reason : string;
  cb_Targets : list CandidateApprovalBatchTarget;
  cb_CreatedAt : Time
}.
#[global] Instance eta_CandidateApprovalBatch : Eta CandidateApprovalBatch := fun r =>
  mkCandidateApprovalBatch (cb_ID r) (cb_IdempotencyKey r) (cb_SessionID r) (cb_StoryboardID r)
  (cb_ExpectedStoryboardVersion r) (cb_Decision r) (cb_ActorID r) (cb_Reason r) (cb_Targets r)
  (cb_CreatedAt r).
Definition zeroCandidateApprovalBatch : CandidateApprovalBatch :=
  mkCandidateApprovalBatch "" "" "" "" 0 "" "" "" [] zeroTime.

Record CandidateApprovalBatchCreateResult := mkCandidateApprovalBatchCreateResult {
  bc_Batch : CandidateApprovalBatch;
  bc_Created : bool
}.
#[global] Instance eta_CandidateApprovalBatchCreateResult : Eta CandidateApprovalBatchCreateResult := fun r =>
  mkCandidateApprovalBatchCreateResult (bc_Batch r) (bc_Created r).
Definition zeroCandidateApprovalBatchCreateResult : CandidateApprovalBatchCreateResult :=
  mkCandidateApprovalBatchCreateResult zeroCandidateApprovalBatch false.

(** [json.Marshal] of the request for a continuation. *)
Class ApprovalCodec := json_Marshal_requested : ApprovalContinuationRequested → result RawMessage.

(** ** Approvals *)

Definition isPrimaryReviewApproval (value : Approval) : bool :=
  if negb (bool_decide (ap_Status value = StatusPending)) then false
  else bool_decide (TrimSpace (ap_ArtifactType value) = "creation_spec_revision")
       || bool_decide (TrimSpace (ap_ArtifactType value) = "storyboard_revision").

(** [binding.Matches(current)]: for a binding with a target the version of the
    storyboard does not matter. *)
Definition VersionBinding_Matches (binding current : VersionBinding) : bool :=
  if negb (bool_decide (vb_ArtifactID binding = vb_ArtifactID current))
     || negb (vb_ArtifactVersion binding =? vb_ArtifactVersion current) then false
  else if negb (bool_decide (vb_StoryboardID binding = vb_StoryboardID current)) then false
  else if negb (bool_decide (vb_TargetID binding = "")) then
    bool_decide (vb_TargetID binding = vb_TargetID current)
    && (vb_TargetRevision binding =? vb_TargetRevision current)
    && (vb_PromptRevision binding =? vb_PromptRevision current)
    && (vb_GenerationEpoch binding =? vb_GenerationEpoch current)
  else vb_StoryboardVersion binding =? vb_StoryboardVersion current.

Definition normalizeBinding (value : VersionBinding) : VersionBinding :=
  value <| vb_ArtifactID := TrimSpace (vb_ArtifactID value) |>
    <| vb_StoryboardID := TrimSpace (vb_StoryboardID value) |>
    <| vb_TargetID := TrimSpace (vb_TargetID value) |>.

Definition validateReviewExecutionMode (review execution : string) : option error :=
  if bool_decide (review = ReviewModeInterrupt) then
    if negb (bool_decide (execution = ExecutionModeInterrupt))
    then Some (Errorf "interrupt review must start in interrupt execution mode") else None
  else if bool_decide (review = ReviewModeDurable) then
    if negb (bool_decide (execution = ExecutionModeDurable))
    then Some (Errorf "durable review must start in durable execution mode") else None
  else Some (Errorf ("unsupported review mode " +:+ Quote review)).

Definition sameFrozenCommand (a b : FrozenCommand) : bool :=
  bool_decide (fc_Kind a = fc_Kind b) && bool_decide (fc_IdempotencyKey a = fc_IdempotencyKey b)
  && bool_decide (fc_Payload a = fc_Payload b).

Definition sameOptionalTime (a b : option Time) : bool :=
  match a, b with
  | Some a, Some b => a =? b
  | None, None => true
  | _, _ => false
  end.

Definition sameApproval (a b : Approval) : bool :=
  bool_decide (ap_ID a = ap_ID b) && bool_decide (ap_IdempotencyKey a = ap_IdempotencyKey b)
  && bool_decide (ap_TenantID a = ap_TenantID b) && bool_decide (ap_UserID a = ap_UserID b)
  && bool_decide (ap_SessionID a = ap_SessionID b) && bool_decide (ap_ArtifactType a = ap_ArtifactType b)
  && bool_decide (ap_Binding a = ap_Binding b) && bool_decide (ap_ReviewMode a = ap_ReviewMode b)
  && bool_decide (ap_ExecutionMode a = ap_ExecutionMode b)
  && sameFrozenCommand (ap_ApproveCommand a) (ap_ApproveCommand b)
  && sameFrozenCommand (ap_RejectCommand a) (ap_RejectCommand b)
  && sameOptionalTime (ap_ExpiresAt a) (ap_ExpiresAt b).

Definition decisionEventID (approvalID : string) (decisionVersion : Z) : string :=
  "approval:" +:+ approvalID +:+ ":decision:" +:+ pretty decisionVersion.

Definition decisionOutboxKey (approvalID : string) (decisionVersion executionEpoch : Z) (eventType : string)
    : string :=
  "approval:" +:+ approvalID +:+ ":decision:" +:+ pretty decisionVersion +:+ ":epoch:"
  +:+ pretty executionEpoch +:+ ":" +:+ eventType.

Definition normalizeListLimit (limit : Z) : Z :=
  if (limit <=? 0) || (1000 <? limit) then 100 else limit.

(** ** Requests for a decision *)

Definition normalizeDecisionRequest (request : decisionRequest) (clock : Time) : result decisionRequest :=
  let request := request <| rq_ApprovalID := TrimSpace (rq_ApprovalID request) |> in
  let request := request <| rq_IdempotencyKey := TrimSpace (rq_IdempotencyKey request) |> in
  let request := request <| rq_RequestedDecision := TrimSpace (rq_RequestedDecision request) |> in
  let request := request <| rq_ActorID := TrimSpace (rq_ActorID request) |> in
  let request := request <| rq_Reason := TrimSpace (rq_Reason request) |> in
  if bool_decide (rq_ApprovalID request = "") || bool_decide (rq_IdempotencyKey request = "")
  then Err (Errorf "approval id and decision idempotency key are required")
  else if rq_ExpectedDecisionVersion request <? 0
  then Err (Errorf "expected decision version cannot be negative")
  else Ok (request <| rq_Now := timeOr (rq_Now request) clock |>).

Definition decisionRequestFromCommand (command : DecideCommand) (clock : Time) : result decisionRequest :=
  let decision := ToLower (TrimSpace (dc_Decision command)) in
  if negb (bool_decide (decision = DecisionApprove)) && negb (bool_decide (decision = DecisionReject))
  then Err (Errorf "decision must be approved or rejected")
  else
    let current := normalizeBinding (dc_CurrentBinding command) in
    normalizeDecisionRequest (zerodecisionRequest
      <| rq_ApprovalID := dc_ApprovalID command |>
      <| rq_ExpectedDecisionVersion := dc_ExpectedDecisionVersion command |>
      <| rq_IdempotencyKey := dc_IdempotencyKey command |> <| rq_RequestedDecision := decision |>
      <| rq_ActorID := dc_ActorID command |> <| rq_Reason := dc_Reason command |>
      <| rq_ObservedBinding := Some current |> <| rq_Now := dc_Now command |>) clock.

Definition decisionRequestFromClose (command : CloseCommand) (clock : Time) : result decisionRequest :=
  if negb (bool_decide (xc_Status command = StatusStale)) && negb (bool_decide (xc_Status command = StatusExpired))
     && negb (bool_decide (xc_Status command = StatusCancelled))
  then Err (Errorf "close status must be stale, expired, or cancelled")
  else
    normalizeDecisionRequest (zerodecisionRequest
      <| rq_ApprovalID := xc_ApprovalID command |>
      <| rq_ExpectedDecisionVersion := xc_ExpectedDecisionVersion command |>
      <| rq_IdempotencyKey := xc_IdempotencyKey command |> <| rq_RequestedDecision := xc_Status command |>
      <| rq_ActorID := xc_ActorID command |> <| rq_Reason := xc_Reason command |>
      <| rq_TerminalStatus := xc_Status command |> <| rq_Now := xc_Now command |>) clock.

Definition sameDecisionRequest (decision : ApprovalDecision) (request : decisionRequest) : bool :=
  if negb (bool_decide (ad_ApprovalID decision = rq_ApprovalID request))
     || negb (bool_decide (ad_RequestedDecision decision = rq_RequestedDecision request))
     || negb (bool_decide (ad_ActorID decision = rq_ActorID request))
     || negb (bool_decide (ad_Reason decision = rq_Reason request)) then false
  else match ad_ObservedBinding decision, rq_ObservedBinding request with
       | Some observed, Some requested => bool_decide (observed = requested)
       | None, None => true
       | _, _ => false
       end.

Section codec.
Context `{Codec} `{ApprovalCodec}.

Definition normalizeFrozenCommand (command : FrozenCommand) : result FrozenCommand :=
  let command := command <| fc_Kind := TrimSpace (fc_Kind command) |> in
  let command := command <| fc_IdempotencyKey := TrimSpace (fc_IdempotencyKey command) |> in
  if bool_decide (fc_Kind command = "") || bool_decide (fc_IdempotencyKey command = "")
  then Err (Errorf "kind and idempotency key are required")
  else
    let command := if bool_decide (fc_Payload command = "") then command <| fc_Payload := "{}" |> else command in
    if negb (json_Valid (fc_Payload command)) then Err (Errorf "payload must be valid JSON") else Ok command.

Definition normalizeApproval (value : Approval) (now clock : Time) : result Approval :=
  let value := value <| ap_ID := TrimSpace (ap_ID value) |> in
  let value := value <| ap_IdempotencyKey := TrimSpace (ap_IdempotencyKey value) |> in
  let value := value <| ap_TenantID := TrimSpace (ap_TenantID value) |> in
  let value := value <| ap_UserID := TrimSpace (ap_UserID value) |> in
  let value := value <| ap_SessionID := TrimSpace (ap_SessionID value) |> in
  let value := value <| ap_ArtifactType := TrimSpace (ap_ArtifactType value) |> in
  let value := value <| ap_Binding := normalizeBinding (ap_Binding value) |> in
  if bool_decide (ap_ID value = "") || bool_decide (ap_IdempotencyKey value = "")
     || bool_decide (ap_SessionID value = "") || bool_decide (ap_ArtifactType value = "")
  then Err (Errorf "approval id, idempotency key, session id and artifact type are required")
  else if bool_decide (vb_ArtifactID (ap_Binding value) = "") || (vb_ArtifactVersion (ap_Binding value) <=? 0)
  then Err (Errorf "approval artifact id and positive version are required")
  else match validateReviewExecutionMode (ap_ReviewMode value) (ap_ExecutionMode value) with
  | Some err => Err err
  | None =>
      match normalizeFrozenCommand (ap_ApproveCommand value) with
      | Err err => Err (Wrapf "approve command: " err "")
      | Ok approve =>
          match normalizeFrozenCommand (ap_RejectCommand value) with
          | Err err => Err (Wrapf "reject command: " err "")
          | Ok reject =>
              if bool_decide (fc_Kind approve = fc_Kind reject)
                 || bool_decide (fc_IdempotencyKey approve = fc_IdempotencyKey reject)
              then Err (Errorf "approve and reject commands require distinct kinds and idempotency keys")
              else
                let now := timeOr now clock in
                let value := value <| ap_ApproveCommand := approve |> <| ap_RejectCommand := reject |>
                  <| ap_Status := StatusPending |> <| ap_DecisionVersion := 0 |>
                  <| ap_ExecutionEpoch := 1 |> <| ap_CheckpointMappingID := "" |>
                  <| ap_MappingEpoch := 0 |> <| ap_DecidedAt := None |>
                  <| ap_CreatedAt := now |> <| ap_UpdatedAt := now |> in
                match ap_ExpiresAt value with
                | Some expires =>
                    if negb (After expires now) then Err (Errorf "approval expiry must be in the future")
                    else Ok value
                | None => Ok value
                end
          end
      end
  end.

(** ** Preparing a decision *)

Definition newContinuation (approval : Approval) (now : Time) : result ApprovalContinuation :=
  let continuation executor := zeroApprovalContinuation
    <| ac_ApprovalID := ap_ID approval |> <| ac_DecisionVersion := ap_DecisionVersion approval |>
    <| ac_SessionID := ap_SessionID approval |> <| ac_Executor := executor |>
    <| ac_ExecutionEpoch := ap_ExecutionEpoch approval |>
    <| ac_Status := ContinuationStatusRequested |> <| ac_CreatedAt := now |> <| ac_UpdatedAt := now |> in
  if bool_decide (ap_ExecutionMode approval = ExecutionModeInterrupt) then
    if bool_decide (ap_CheckpointMappingID approval = "") || (ap_MappingEpoch approval <=? 0)
    then Err (Errorf "interrupt approval requires a persisted checkpoint mapping before decision")
    else Ok (continuation ContinuationExecutorRunnerResume)
  else Ok (continuation ContinuationExecutorDeterministic).

(** The fields that all events of an approval have. *)
Definition approval_event (approval : Approval) (key eventType destination : string) (raw : RawMessage)
    (now : Time) : OutboxEvent :=
  zeroOutboxEvent <| oe_ID := key |> <| oe_IdempotencyKey := key |> <| oe_EventType := eventType |>
    <| oe_Destination := destination |> <| oe_AggregateType := "approval" |>
    <| oe_AggregateID := ap_ID approval |> <| oe_AggregateVersion := ap_DecisionVersion approval |>
    <| oe_SessionID := ap_SessionID approval |> <| oe_Payload := raw |>
    <| oe_Status := OutboxStatusPending |> <| oe_AvailableAt := now |> <| oe_CreatedAt := now |>.

Definition continuation_requested (approval : Approval) (continuation : ApprovalContinuation)
    : ApprovalContinuationRequested :=
  mkApprovalContinuationRequested (ap_ID approval) (ap_DecisionVersion approval)
    (ac_Executor continuation) (ac_ExecutionEpoch continuation).

Definition decision_event_type (executor : string) : string :=
  if bool_decide (executor = ContinuationExecutorRunnerResume)
  then EventSessionInputRequested else EventApprovalContinuationRequested.

Definition resume_request (approval : Approval) : ResumeRequested :=
  (NewResumeRequested (ap_ID approval) (ap_DecisionVersion approval)
     (decisionEventID (ap_ID approval) (ap_DecisionVersion approval)))
    <| rr_MappingID := ap_CheckpointMappingID approval |> <| rr_MappingEpoch := ap_MappingEpoch approval |>.

Definition newDecisionOutbox (approval : Approval) (continuation : ApprovalContinuation) (now : Time)
    : result OutboxEvent :=
  let runner := bool_decide (ac_Executor continuation = ContinuationExecutorRunnerResume) in
  let eventType := decision_event_type (ac_Executor continuation) in
  let destination := if runner then DestinationSessionInputs else DestinationApprovalContinuations in
  let marshalled := if runner then json_Marshal_input (TResumeRequested (resume_request approval))
    else json_Marshal_requested (continuation_requested approval continuation) in
  match marshalled with
  | Err err => Err (Wrapf "marshal approval decision outbox: " err "")
  | Ok raw =>
      let key := decisionOutboxKey (ap_ID approval) (ap_DecisionVersion approval)
                   (ac_ExecutionEpoch continuation) eventType in
      Ok (approval_event approval key eventType destination raw now)
  end.

Definition newFallbackOutbox (approval : Approval) (continuation : option ApprovalContinuation) (now : Time)
    : result OutboxEvent :=
  let eventType := match continuation with
    | Some _ => EventApprovalContinuationRequested | None => EventApprovalFallbackEnabled end in
  let marshalled := match continuation with
    | Some continuation => json_Marshal_requested (continuation_requested approval continuation)
    | None => Ok (json_Marshal_map (payload
        [("approval_id", AStr (ap_ID approval)); ("decision_version", AInt (ap_DecisionVersion approval));
         ("execution_mode", AStr (ap_ExecutionMode approval));
         ("execution_epoch", AInt (ap_ExecutionEpoch approval))]))
    end in
  match marshalled with
  | Err err => Err (Wrapf "marshal approval fallback outbox: " err "")
  | Ok raw =>
      let key := decisionOutboxKey (ap_ID approval) (ap_DecisionVersion approval)
                   (ap_ExecutionEpoch approval) eventType in
      Ok (approval_event approval key eventType DestinationApprovalContinuations raw now)
  end.

(** The status that a request gives the approval. *)
Definition effective_status (approval : Approval) (request : decisionRequest) : string :=
  if negb (bool_decide (rq_TerminalStatus request = "")) then rq_TerminalStatus request
  else if match ap_ExpiresAt approval with
          | Some expires => negb (After expires (rq_Now request)) | None => false end
  then StatusExpired
  else if match rq_ObservedBinding request with
          | Some observed => negb (VersionBinding_Matches (ap_Binding approval) observed)
          | None => true end
  then StatusStale
  else if bool_decide (rq_RequestedDecision request = DecisionApprove) then StatusApproved
  else StatusRejected.

(** The frozen command that an effective status selects, empty for a status
    that only closes the approval; [None] for a status that cannot be taken. *)
Definition selected_command (approval : Approval) (effective : string) : option FrozenCommand :=
  if bool_decide (effective = StatusApproved) then Some (ap_ApproveCommand approval)
  else if bool_decide (effective = StatusRejected) then Some (ap_RejectCommand approval)
  else if bool_decide (effective = StatusStale) || bool_decide (effective = StatusExpired)
          || bool_decide (effective = StatusCancelled) then Some zeroFrozenCommand
  else None.

Definition new_decision (approval : Approval) (request : decisionRequest) (effective : string)
    (selected : FrozenCommand) : ApprovalDecision :=
  let decision := zeroApprovalDecision
    <| ad_ApprovalID := ap_ID approval |> <| ad_DecisionVersion := incr (ap_DecisionVersion approval) |>
    <| ad_IdempotencyKey := rq_IdempotencyKey request |>
    <| ad_RequestedDecision := rq_RequestedDecision request |> <| ad_EffectiveStatus := effective |>
    <| ad_ActorID := rq_ActorID request |> <| ad_Reason := rq_Reason request |>
    <| ad_ObservedBinding := rq_ObservedBinding request |> <| ad_CreatedAt := rq_Now request |> in
  if negb (bool_decide (fc_Kind selected = "")) then
    decision <| ad_CommandKind := fc_Kind selected |>
      <| ad_CommandIdempotencyKey := fc_IdempotencyKey selected |>
      <| ad_CommandPayload := fc_Payload selected |>
  else decision.

Definition decided_approval (approval : Approval) (request : decisionRequest) (effective : string) : Approval :=
  approval <| ap_Status := effective |> <| ap_DecisionVersion := incr (ap_DecisionVersion approval) |>
    <| ap_UpdatedAt := rq_Now request |> <| ap_DecidedAt := Some (rq_Now request) |>.

Definition prepareDecision (approval : Approval) (request : decisionRequest)
    : result (Approval * ApprovalDecision * ApprovalContinuation * OutboxEvent) :=
  if negb (bool_decide (ap_Status approval = StatusPending)) then Err ErrAlreadyDecided
  else if negb (ap_DecisionVersion approval =? rq_ExpectedDecisionVersion request)
  then Err (Wrapf "" ErrVersionConflict
              (": current=" +:+ pretty (ap_DecisionVersion approval) +:+ " expected="
               +:+ pretty (rq_ExpectedDecisionVersion request)))
  else
    let effective := effective_status approval request in
    match selected_command approval effective with
    | None => Err (Wrapf "" ErrInvalidTransition (": terminal status " +:+ Quote effective))
    | Some selected =>
        let decision := new_decision approval request effective selected in
        let approval := decided_approval approval request effective in
        match newContinuation approval (rq_Now request) with
        | Err err => Err err
        | Ok continuation =>
            match newDecisionOutbox approval continuation (rq_Now request) with
            | Err err => Err err
            | Ok outbox => Ok (approval, decision, continuation, outbox)
            end
        end
    end.
End codec.

(** ** Batches of candidates *)

(** The loop over the targets: [seen_approvals] and [seen_bindings] are the keys
    of the two maps it fills. *)
Fixpoint normalize_targets (targets : list CandidateApprovalBatchTarget) (seen_approvals seen_bindings : gset string)
    : result (list CandidateApprovalBatchTarget) :=
  match targets with
  | [] => Ok []
  | target :: rest =>
      let target := target <| bt_ApprovalID := TrimSpace (bt_ApprovalID target) |>
        <| bt_BindingID := TrimSpace (bt_BindingID target) |> in
      if bool_decide (bt_ApprovalID target = "") || bool_decide (bt_BindingID target = "")
         || (bt_ExpectedDecisionVersion target <? 0)
      then Err (Errorf "candidate approval batch target requires approval id, binding id and a non-negative decision version")
      else if bool_decide (bt_ApprovalID target ∈ seen_approvals)
      then Err (Errorf ("candidate approval batch has duplicate approval " +:+ bt_ApprovalID target))
      else if bool_decide (bt_BindingID target ∈ seen_bindings)
      then Err (Errorf ("candidate approval batch has duplicate binding " +:+ bt_BindingID target))
      else match normalize_targets rest ({[bt_ApprovalID target]} ∪ seen_approvals)
                   ({[bt_BindingID target]} ∪ seen_bindings) with
           | Err err => Err err
           | Ok rest => Ok (target :: rest)
           end
  end.

Definition normalizeCandidateApprovalBatch (value : CandidateApprovalBatch) (now clock : Time)
    : result CandidateApprovalBatch :=
  let value := value <| cb_ID := TrimSpace (cb_ID value) |> in
  let value := value <| cb_IdempotencyKey := TrimSpace (cb_IdempotencyKey value) |> in
  let value := value <| cb_SessionID := TrimSpace (cb_SessionID value) |> in
  let value := value <| cb_StoryboardID := TrimSpace (cb_StoryboardID value) |> in
  let value := value <| cb_Decision := ToLower (TrimSpace (cb_Decision value)) |> in
  let value := value <| cb_ActorID := TrimSpace (cb_ActorID value) |> in
  let value := value <| cb_Reason := TrimSpace (cb_Reason value) |> in
  if bool_decide (cb_ID value = "") || bool_decide (cb_IdempotencyKey value = "")
     || bool_decide (cb_SessionID value = "") || bool_decide (cb_StoryboardID value = "")
  then Err (Errorf "candidate approval batch id, idempotency key, session id and storyboard id are required")
  else if cb_ExpectedStoryboardVersion value <=? 0
  then Err (Errorf "candidate approval batch expected storyboard version must be positive")
  else if negb (bool_decide (cb_Decision value = DecisionApprove))
  then Err (Errorf "candidate approval batch only supports approved")
  else if bool_decide (cb_Targets value = [])
  then Err (Errorf "candidate approval batch requires at least one target")
  else match normalize_targets (cb_Targets value) ∅ ∅ with
       | Err err => Err err
       | Ok targets => Ok (value <| cb_CreatedAt := timeOr now clock |> <| cb_Targets := targets |>)
       end.

Definition sameCandidateApprovalBatch (a b : CandidateApprovalBatch) : bool :=
  bool_decide (cb_ID a = cb_ID b) && bool_decide (cb_IdempotencyKey a = cb_IdempotencyKey b)
  && bool_decide (cb_SessionID a = cb_SessionID b) && bool_decide (cb_StoryboardID a = cb_StoryboardID b)
  && (cb_ExpectedStoryboardVersion a =? cb_ExpectedStoryboardVersion b)
  && bool_decide (cb_Decision a = cb_Decision b) && bool_decide (cb_ActorID a = cb_ActorID b)
  && bool_decide (cb_Reason a = cb_Reason b) && bool_decide (cb_Targets a = cb_Targets b).
