(* ===== verification/ApprovalStore.v ===== *)
(** * Approvals: the store, [internal/aigc/approval/memory_store.go]

    The in-memory store of approvals.  A state is an [aworld]: the maps of the
    store, the number of clock readings so far and the state [X] of what lies
    outside.  Every method runs under the store's lock and is one step; the copies
    [cloneApproval], [cloneDecision], [cloneOutbox] protect slices and pointers that
    nothing else holds here. *)

From Stdlib Require Import ZArith Lia.
From S2P Require Import Prelude GoJson SessionModels SessionStore ApprovalModels.

Record MemoryStore := mkMemoryStore {
  approvals : gmap string Approval;
  approvalByCreateKey : gmap string string;
  decisions : gmap string ApprovalDecision;
  decisionByKey : gmap string string;
  continuations : gmap string ApprovalContinuation;
  outbox : gmap string OutboxEvent;
  outboxByKey : gmap string string;
  candidateBatches : gmap string CandidateApprovalBatch;
  candidateBatchByKey : gmap string string
}.
#[global] Instance eta_MemoryStore : Eta MemoryStore := fun r =>
  mkMemoryStore (approvals r) (approvalByCreateKey r) (decisions r) (decisionByKey r) (continuations r)
    (outbox r) (outboxByKey r) (candidateBatches r) (candidateBatchByKey r).

Definition NewMemoryStore : MemoryStore := mkMemoryStore ∅ ∅ ∅ ∅ ∅ ∅ ∅ ∅ ∅.

Record aworld (X : Type) := mkAWorld { aw_store : MemoryStore; aw_reads : nat; aw_ext : X }.
Arguments mkAWorld {X}.
Arguments aw_store {X}.
Arguments aw_reads {X}.
Arguments aw_ext {X}.

Definition continuationKey (approvalID : string) (decisionVersion : Z) : string :=
  TrimSpace approvalID +:+ nul +:+ pretty decisionVersion.

(** ** Parts that run under the lock *)

Definition appendOutboxLocked (s : MemoryStore) (event : OutboxEvent) : result MemoryStore :=
  match outboxByKey s !! oe_IdempotencyKey event with
  | Some existingID =>
      let existing := default zeroOutboxEvent (outbox s !! existingID) in
      if negb (bool_decide (oe_ID existing = oe_ID event))
         || negb (bool_decide (oe_EventType existing = oe_EventType event))
         || negb (bool_decide (oe_AggregateID existing = oe_AggregateID event))
      then Err (Wrapf "" ErrIdempotencyConflict (": outbox key=" +:+ oe_IdempotencyKey event))
      else Ok s
  | None =>
      Ok (s <| outbox := <[oe_ID event := event]> (outbox s) |>
            <| outboxByKey := <[oe_IdempotencyKey event := oe_ID event]> (outboxByKey s) |>)
  end.

Definition outbox_at (s : MemoryStore) (key : string) : option OutboxEvent :=
  match outboxByKey s !! key with
  | Some id => Some (default zeroOutboxEvent (outbox s !! id))
  | None => None
  end.

Definition currentOutboxLocked (s : MemoryStore) (approval : Approval) (continuation : ApprovalContinuation)
    : option OutboxEvent :=
  outbox_at s (decisionOutboxKey (ap_ID approval) (ap_DecisionVersion approval)
    (ac_ExecutionEpoch continuation) (decision_event_type (ac_Executor continuation))).

Definition currentFallbackOutboxLocked (s : MemoryStore) (approval : Approval)
    (continuation : option ApprovalContinuation) : option OutboxEvent :=
  let eventType := match continuation with
    | Some _ => EventApprovalContinuationRequested | None => EventApprovalFallbackEnabled end in
  outbox_at s (decisionOutboxKey (ap_ID approval) (ap_DecisionVersion approval)
    (ap_ExecutionEpoch approval) eventType).

Definition decisionResultLocked (s : MemoryStore) (decision : ApprovalDecision) (created : bool)
    : result DecisionResult :=
  let approval := default zeroApproval (approvals s !! ad_ApprovalID decision) in
  let continuation := default zeroApprovalContinuation
    (continuations s !! continuationKey (ad_ApprovalID decision) (ad_DecisionVersion decision)) in
  match currentOutboxLocked s approval continuation with
  | None => Err (Wrapf "" ErrNotFound ": decision outbox")
  | Some outbox => Ok (mkDecisionResult approval decision continuation outbox created)
  end.

Definition fallbackResultLocked (s : MemoryStore) (approval : Approval) (switched : bool)
    : result FallbackResult :=
  let answer continuation :=
    match currentFallbackOutboxLocked s approval continuation with
    | None => Err (Wrapf "" ErrNotFound ": fallback outbox")
    | Some outbox => Ok (mkFallbackResult approval continuation outbox switched)
    end in
  if 0 <? ap_DecisionVersion approval then
    match continuations s !! continuationKey (ap_ID approval) (ap_DecisionVersion approval) with
    | None => Err (Wrapf "" ErrNotFound ": continuation")
    | Some value => answer (Some value)
    end
  else answer None.

Definition approvalOutboxBackoff (attempt : Z) : Z :=
  let attempt := if attempt <? 1 then 1 else attempt in
  let attempt := if 8 <? attempt then 8 else attempt in
  Z.shiftl 1 (attempt - 1) * second.

(** A pending primary review of the session, the first to be met. *)
Definition pending_primary (s : MemoryStore) (sessionID : string) : option Approval :=
  snd <$> List.find (fun '(_, value) => bool_decide (ap_SessionID value = sessionID) && isPrimaryReviewApproval value)
    (map_to_list (approvals s)).

(** ** The operations *)

Section memory_store.
Context `{Codec} `{ApprovalCodec} `{Clock} {X : Type}.

Definition a_now : Eff (aworld X) Time := fun w =>
  (now_at (aw_reads w), mkAWorld (aw_store w) (S (aw_reads w)) (aw_ext w)).
Definition a_get : Eff (aworld X) MemoryStore := fun w => (aw_store w, w).
Definition a_put (s : MemoryStore) : Eff (aworld X) unit := fun w => (tt, mkAWorld s (aw_reads w) (aw_ext w)).

(** Store [s] and answer [a]. *)
Definition a_commit {A} (s : MemoryStore) (a : A) : Eff (aworld X) (result A) :=
  let* _ := a_put s in ret (Ok a).

Definition not_found {A} (what : string) : Eff (aworld X) (result A) := fail (Wrapf "" ErrNotFound what).

Definition Create (requested : Approval) : Eff (aworld X) (result CreateResult) :=
  let* now := a_now in
  let* clock := a_now in
  match normalizeApproval requested now clock with
  | Err err => fail err
  | Ok normalized =>
      let* s := a_get in
      match approvals s !! ap_ID normalized with
      | Some existing =>
          if negb (sameApproval existing normalized)
          then fail (Wrapf "" ErrIdempotencyConflict (": approval_id=" +:+ ap_ID normalized))
          else ret (Ok (mkCreateResult existing false))
      | None =>
          match approvalByCreateKey s !! ap_IdempotencyKey normalized with
          | Some existingID =>
              let existing := default zeroApproval (approvals s !! existingID) in
              if negb (bool_decide (ap_ID existing = ap_ID normalized)) || negb (sameApproval existing normalized)
              then fail (Wrapf "" ErrIdempotencyConflict (": idempotency_key=" +:+ ap_IdempotencyKey normalized))
              else ret (Ok (mkCreateResult existing false))
          | None =>
              match (if isPrimaryReviewApproval normalized
                     then pending_primary s (ap_SessionID normalized) else None) with
              | Some existing =>
                  fail (Wrapf "" ErrPrimaryReviewPending
                    (": session_id=" +:+ ap_SessionID normalized +:+ " pending_approval_id=" +:+ ap_ID existing))
              | None =>
                  a_commit (s <| approvals := <[ap_ID normalized := normalized]> (approvals s) |>
                              <| approvalByCreateKey :=
                                   <[ap_IdempotencyKey normalized := ap_ID normalized]> (approvalByCreateKey s) |>)
                    (mkCreateResult normalized true)
              end
          end
      end
  end.

Definition Get (approvalID : string) : Eff (aworld X) (result Approval) :=
  let* s := a_get in
  match approvals s !! TrimSpace approvalID with
  | None => not_found (": " +:+ approvalID)
  | Some value => ret (Ok value)
  end.

Definition GetPendingPrimaryReviewBySession (sessionID : string) : Eff (aworld X) (result Approval) :=
  let sessionID := TrimSpace sessionID in
  if bool_decide (sessionID = "") then fail (Errorf "session id is required")
  else
    let* s := a_get in
    match pending_primary s sessionID with
    | Some value => ret (Ok value)
    | None => not_found (": pending primary review for session " +:+ sessionID)
    end.

Definition GetDecision (approvalID : string) (decisionVersion : Z) : Eff (aworld X) (result ApprovalDecision) :=
  let* s := a_get in
  match decisions s !! continuationKey approvalID decisionVersion with
  | None => not_found (": decision " +:+ approvalID +:+ "/" +:+ pretty decisionVersion)
  | Some decision => ret (Ok decision)
  end.

Definition CreateCandidateApprovalBatch (requested : CandidateApprovalBatch)
    : Eff (aworld X) (result CandidateApprovalBatchCreateResult) :=
  let* now := a_now in
  let* clock := a_now in
  match normalizeCandidateApprovalBatch requested now clock with
  | Err err => fail err
  | Ok normalized =>
      let* s := a_get in
      match candidateBatches s !! cb_ID normalized with
      | Some existing =>
          if negb (sameCandidateApprovalBatch existing normalized)
          then fail (Wrapf "" ErrIdempotencyConflict (": candidate approval batch id=" +:+ cb_ID normalized))
          else ret (Ok (mkCandidateApprovalBatchCreateResult existing false))
      | None =>
          match candidateBatchByKey s !! cb_IdempotencyKey normalized with
          | Some existingID =>
              let existing := default zeroCandidateApprovalBatch (candidateBatches s !! existingID) in
              if negb (sameCandidateApprovalBatch existing normalized)
              then fail (Wrapf "" ErrIdempotencyConflict
                           (": candidate approval batch key=" +:+ cb_IdempotencyKey normalized))
              else ret (Ok (mkCandidateApprovalBatchCreateResult existing false))
          | None =>
              a_commit (s <| candidateBatches := <[cb_ID normalized := normalized]> (candidateBatches s) |>
                          <| candidateBatchByKey :=
                               <[cb_IdempotencyKey normalized := cb_ID normalized]> (candidateBatchByKey s) |>)
                (mkCandidateApprovalBatchCreateResult normalized true)
          end
      end
  end.

Definition GetCandidateApprovalBatchByKey (idempotencyKey : string)
    : Eff (aworld X) (result CandidateApprovalBatch) :=
  let* s := a_get in
  let key := TrimSpace idempotencyKey in
  match candidateBatchByKey s !! key with
  | None => not_found (": candidate approval batch key=" +:+ key)
  | Some id => ret (Ok (default zeroCandidateApprovalBatch (candidateBatches s !! id)))
  end.

Definition decide (request : decisionRequest) : Eff (aworld X) (result DecisionResult) :=
  let* s := a_get in
  match decisionByKey s !! rq_IdempotencyKey request with
  | Some decisionID =>
      let decision := default zeroApprovalDecision (decisions s !! decisionID) in
      if negb (sameDecisionRequest decision request)
      then fail (Wrapf "" ErrIdempotencyConflict (": decision key=" +:+ rq_IdempotencyKey request))
      else ret (decisionResultLocked s decision false)
  | None =>
      match approvals s !! rq_ApprovalID request with
      | None => not_found (": " +:+ rq_ApprovalID request)
      | Some approval =>
          match prepareDecision approval request with
          | Err err => fail err
          | Ok (updated, decision, continuation, event) =>
              let decisionID := continuationKey (ap_ID updated) (ap_DecisionVersion updated) in
              match decisions s !! decisionID with
              | Some _ => fail (Wrapf "" ErrIdempotencyConflict (": decision " +:+ decisionID))
              | None =>
                  match appendOutboxLocked s event with
                  | Err err => fail err
                  | Ok s =>
                      a_commit (s <| approvals := <[ap_ID updated := updated]> (approvals s) |>
                                  <| decisions := <[decisionID := decision]> (decisions s) |>
                                  <| decisionByKey := <[ad_IdempotencyKey decision := decisionID]> (decisionByKey s) |>
                                  <| continuations := <[decisionID := continuation]> (continuations s) |>)
                        (mkDecisionResult updated decision continuation event true)
                  end
              end
          end
      end
  end.

Definition Decide (command : DecideCommand) : Eff (aworld X) (result DecisionResult) :=
  let* clock := a_now in
  match decisionRequestFromCommand command clock with Err err => fail err | Ok request => decide request end.

Definition Close (command : CloseCommand) : Eff (aworld X) (result DecisionResult) :=
  let* clock := a_now in
  match decisionRequestFromClose command clock with Err err => fail err | Ok request => decide request end.

Definition BindInterruptMapping (command : MappingCommand) : Eff (aworld X) (result Approval) :=
  let command := command <| mc_ApprovalID := TrimSpace (mc_ApprovalID command) |> in
  let command := command <| mc_CheckpointMappingID := TrimSpace (mc_CheckpointMappingID command) |> in
  if bool_decide (mc_ApprovalID command = "") || bool_decide (mc_CheckpointMappingID command = "")
     || (mc_ExpectedExecutionEpoch command <=? 0) || (mc_MappingEpoch command <=? 0)
  then fail (Errorf "approval id, mapping id, and positive epochs are required")
  else
    let* s := a_get in
    match approvals s !! mc_ApprovalID command with
    | None => not_found (": " +:+ mc_ApprovalID command)
    | Some approval =>
        if negb (bool_decide (ap_ReviewMode approval = ReviewModeInterrupt))
        then fail (Wrapf "" ErrInvalidTransition ": durable approval has no interrupt mapping")
        else if negb (bool_decide (ap_Status approval = StatusPending))
                || negb (bool_decide (ap_ExecutionMode approval = ExecutionModeInterrupt))
        then fail (Wrapf "" ErrInvalidTransition
               (": mapping cannot be bound in " +:+ ap_Status approval +:+ "/" +:+ ap_ExecutionMode approval))
        else if negb (ap_ExecutionEpoch approval =? mc_ExpectedExecutionEpoch command)
        then fail (Wrapf "" ErrFallbackFenced
               (": execution epoch current=" +:+ pretty (ap_ExecutionEpoch approval) +:+ " expected="
                +:+ pretty (mc_ExpectedExecutionEpoch command)))
        else if negb (bool_decide (ap_CheckpointMappingID approval = "")) then
          if bool_decide (ap_CheckpointMappingID approval = mc_CheckpointMappingID command)
             && (ap_MappingEpoch approval =? mc_MappingEpoch command)
          then ret (Ok approval)
          else fail (Wrapf "" ErrFallbackFenced ": checkpoint mapping is already frozen")
        else
          let* now := a_now in
          let approval := approval <| ap_CheckpointMappingID := mc_CheckpointMappingID command |>
            <| ap_MappingEpoch := mc_MappingEpoch command |> <| ap_UpdatedAt := now |> in
          a_commit (s <| approvals := <[ap_ID approval := approval]> (approvals s) |>) approval
    end.

(** The continuation of a decided approval that falls back. *)
Definition fallen_back (current : ApprovalContinuation) (epoch : Z) (now : Time) : ApprovalContinuation :=
  current <| ac_Executor := ContinuationExecutorDeterministic |> <| ac_ExecutionEpoch := epoch |>
    <| ac_Status := ContinuationStatusRequested |> <| ac_LeaseOwner := "" |> <| ac_LeaseUntil := None |>
    <| ac_ErrorCode := "" |> <| ac_ErrorMessage := "" |> <| ac_UpdatedAt := now |>.

(** The continuation and its key; [Ok None] for an undecided approval. *)
Definition fallback_continuation (s : MemoryStore) (approval : Approval) (now : Time)
    : result (option (string * ApprovalContinuation)) :=
  if 0 <? ap_DecisionVersion approval then
    let key := continuationKey (ap_ID approval) (ap_DecisionVersion approval) in
    match continuations s !! key with
    | None => Err (Wrapf "" ErrNotFound (": continuation " +:+ key))
    | Some current =>
        if bool_decide (ac_Status current = ContinuationStatusApplied)
        then Err (Wrapf "" ErrFallbackFenced ": continuation is already applied")
        else if claim_is_live current now then Err ErrContinuationBusy
        else Ok (Some (key, fallen_back current (ap_ExecutionEpoch approval) now))
    end
  else Ok None.

Definition SwitchToDurableFallback (command : FallbackCommand) : Eff (aworld X) (result FallbackResult) :=
  let command := command <| fb_ApprovalID := TrimSpace (fb_ApprovalID command) |> in
  if bool_decide (fb_ApprovalID command = "") || (fb_ExpectedExecutionEpoch command <=? 0)
     || (fb_ExpectedDecisionVersion command <? 0)
  then fail (Errorf "approval id, positive execution epoch, and decision version are required")
  else
    let command := if bool_decide (fb_ExpectedExecutionMode command = "")
      then command <| fb_ExpectedExecutionMode := ExecutionModeInterrupt |> else command in
    let* clock := a_now in
    let command := command <| fb_Now := timeOr (fb_Now command) clock |> in
    let* s := a_get in
    match approvals s !! fb_ApprovalID command with
    | None => not_found (": " +:+ fb_ApprovalID command)
    | Some approval =>
        if negb (bool_decide (ap_ReviewMode approval = ReviewModeInterrupt))
        then fail (Wrapf "" ErrReviewModeImmutable ": durable review cannot become fallback")
        else if bool_decide (ap_ExecutionMode approval = ExecutionModeDurableFallback)
                && (ap_ExecutionEpoch approval =? incr (fb_ExpectedExecutionEpoch command))
                && (ap_DecisionVersion approval =? fb_ExpectedDecisionVersion command)
        then ret (fallbackResultLocked s approval false)
        else if negb (bool_decide (ap_ExecutionMode approval = fb_ExpectedExecutionMode command))
                || negb (ap_ExecutionEpoch approval =? fb_ExpectedExecutionEpoch command)
                || negb (ap_DecisionVersion approval =? fb_ExpectedDecisionVersion command)
        then fail (Wrapf "" ErrFallbackFenced
               (": mode=" +:+ ap_ExecutionMode approval +:+ " epoch=" +:+ pretty (ap_ExecutionEpoch approval)
                +:+ " decision_version=" +:+ pretty (ap_DecisionVersion approval)))
        else
          let approval := approval <| ap_ExecutionMode := ExecutionModeDurableFallback |>
            <| ap_ExecutionEpoch := incr (ap_ExecutionEpoch approval) |> <| ap_UpdatedAt := fb_Now command |> in
          match fallback_continuation s approval (fb_Now command) with
          | Err err => fail err
          | Ok entry =>
              let continuation := snd <$> entry in
              match newFallbackOutbox approval continuation (fb_Now command) with
              | Err err => fail err
              | Ok event =>
                  match appendOutboxLocked s event with
                  | Err err => fail err
                  | Ok s =>
                      let s := match entry with
                        | Some (key, continuation) =>
                            s <| continuations := <[key := continuation]> (continuations s) |>
                        | None => s end in
                      a_commit (s <| approvals := <[ap_ID approval := approval]> (approvals s) |>)
                        (mkFallbackResult approval continuation event true)
                  end
              end
          end
    end.

Definition GetContinuation (approvalID : string) (decisionVersion : Z)
    : Eff (aworld X) (result ApprovalContinuation) :=
  let* s := a_get in
  match continuations s !! continuationKey approvalID decisionVersion with
  | None => not_found (": continuation " +:+ approvalID +:+ "/" +:+ pretty decisionVersion)
  | Some value => ret (Ok value)
  end.

Definition ListOutbox (status : string) (limit : Z) : Eff (aworld X) (result (list OutboxEvent)) :=
  let* s := a_get in
  let status := TrimSpace status in
  let values := List.filter (fun event => bool_decide (status = "") || bool_decide (oe_Status event = status))
    ((map_to_list (outbox s)).*2) in
  let values := sort_slice (by_time_then_id oe_CreatedAt oe_ID) values in
  ret (Ok (if 0 <? limit then take (Z.to_nat (normalizeListLimit limit)) values else values)).

Definition MarkOutboxPublished (eventID : string) (at_ : Time) : Eff (aworld X) (result unit) :=
  let eventID := TrimSpace eventID in
  if bool_decide (eventID = "") then fail (Errorf "outbox event id is required")
  else
    let* clock := a_now in
    let at_ := timeOr at_ clock in
    let* s := a_get in
    match outbox s !! eventID with
    | None => not_found (": outbox event " +:+ eventID)
    | Some event =>
        if bool_decide (oe_Status event = OutboxStatusPublished) then ret (Ok tt)
        else if negb (bool_decide (oe_Status event = OutboxStatusPending))
        then fail (Wrapf "" ErrInvalidTransition
               (": outbox event " +:+ eventID +:+ " cannot publish from " +:+ oe_Status event))
        else
          let event := event <| oe_Status := OutboxStatusPublished |> <| oe_PublishedAt := Some at_ |> in
          a_commit (s <| outbox := <[eventID := event]> (outbox s) |>) tt
    end.

Definition MarkOutboxFailed (eventID : string) (at_ : Time) (maxAttempts : Z) : Eff (aworld X) (result unit) :=
  let* clock := a_now in
  let at_ := timeOr at_ clock in
  let* s := a_get in
  match outbox s !! TrimSpace eventID with
  | None => not_found (": outbox event " +:+ eventID)
  | Some event =>
      if negb (bool_decide (oe_Status event = OutboxStatusPending)) then ret (Ok tt)
      else
        let event := event <| oe_Attempts := incr (oe_Attempts event) |> in
        let event := if (0 <? maxAttempts) && (maxAttempts <=? oe_Attempts event)
          then event <| oe_Status := OutboxStatusDead |>
          else event <| oe_AvailableAt := at_ + approvalOutboxBackoff (oe_Attempts event) |> in
        a_commit (s <| outbox := <[oe_ID event := event]> (outbox s) |>) tt
  end.
End memory_store.
