(* ===== verification/ApprovalProps.v ===== *)
(** * Approvals: how the store changes

    Each method of the store changes it by at most one [change] ([run_changes]).
    Changes keep the invariant [approval_inv] and move the records along
    [approval_history]; so do runs of the store ([approval_reachable],
    [approval_future]). *)

From Stdlib Require Import ZArith Lia.
From S2P Require Import Prelude GoJson SessionModels SessionStore ApprovalModels ApprovalStore.

(** ** Commands *)

Inductive approval_command : Type :=
| ACreate (requested : Approval)
| AGet (approvalID : string)
| AGetPending (sessionID : string)
| AGetDecision (approvalID : string) (decisionVersion : Z)
| ACreateBatch (requested : CandidateApprovalBatch)
| AGetBatch (idempotencyKey : string)
| ADecide (command : DecideCommand)
| AClose (command : CloseCommand)
| ABind (command : MappingCommand)
| AFallback (command : FallbackCommand)
| AGetContinuation (approvalID : string) (decisionVersion : Z)
| AListOutbox (status : string) (limit : Z)
| AMarkPublished (eventID : string) (at_ : Time)
| AMarkFailed (eventID : string) (at_ : Time) (maxAttempts : Z).

(** ** Changes *)

Definition final_statuses : list string :=
  [StatusApproved; StatusRejected; StatusStale; StatusExpired; StatusCancelled].

(** What a decision owes to the review: an approval was asked for, in time, by
    someone who saw a binding that matches, and carries the frozen command of
    its branch; a decision that only closes carries none. *)
Definition carries (d : ApprovalDecision) (c : FrozenCommand) : Prop :=
  ad_CommandKind d = fc_Kind c ∧ ad_CommandIdempotencyKey d = fc_IdempotencyKey c ∧ ad_CommandPayload d = fc_Payload c.

Definition reviewed (a : Approval) (d : ApprovalDecision) : Prop :=
  ad_EffectiveStatus d ∈ final_statuses ∧
  (ad_EffectiveStatus d ∈ [StatusApproved; StatusRejected] →
     (∃ b, ad_ObservedBinding d = Some b ∧ VersionBinding_Matches (ap_Binding a) b = true) ∧
     (∀ t, ap_ExpiresAt a = Some t → ad_CreatedAt d < t)) ∧
  (ad_EffectiveStatus d = StatusApproved →
     ad_RequestedDecision d = DecisionApprove ∧ carries d (ap_ApproveCommand a)) ∧
  (ad_EffectiveStatus d = StatusRejected →
     ad_RequestedDecision d ≠ DecisionApprove ∧ carries d (ap_RejectCommand a)) ∧
  (ad_EffectiveStatus d ∉ [StatusApproved; StatusRejected] → ad_CommandKind d = "").

(** Who carries a decision out: the interrupted runner, whose checkpoint is
    known, or the deterministic executor. *)
Definition follows (a : Approval) (c : ApprovalContinuation) : Prop :=
  ac_ApprovalID c = ap_ID a ∧ ac_SessionID c = ap_SessionID a ∧ ac_DecisionVersion c = 1 ∧
  ac_ExecutionEpoch c = ap_ExecutionEpoch a ∧ ac_Status c = ContinuationStatusRequested ∧
  (if bool_decide (ap_ExecutionMode a = ExecutionModeInterrupt)
   then ac_Executor c = ContinuationExecutorRunnerResume ∧ ap_CheckpointMappingID a ≠ "" ∧ 0 < ap_MappingEpoch a
   else ac_Executor c = ContinuationExecutorDeterministic).

Definition modes_ok (a : Approval) : Prop :=
  (ap_ReviewMode a = ReviewModeDurable ∧ ap_ExecutionMode a = ExecutionModeDurable) ∨
  (ap_ReviewMode a = ReviewModeInterrupt ∧
   ap_ExecutionMode a ∈ [ExecutionModeInterrupt; ExecutionModeDurableFallback]).

(** What an event keeps. *)
Definition event_key (e : OutboxEvent) :=
  (oe_ID e, oe_IdempotencyKey e, oe_EventType e, oe_Destination e, oe_AggregateID e, oe_AggregateVersion e,
   oe_SessionID e, oe_Payload e, oe_CreatedAt e).

Section changes.
Context `{Codec} `{ApprovalCodec}.

Inductive change : MemoryStore → MemoryStore → Prop :=
| ch_create s a :
    TrimSpace (ap_ID a) = ap_ID a → ap_ID a ≠ "" → approvals s !! ap_ID a = None →
    approvalByCreateKey s !! ap_IdempotencyKey a = None →
    ap_Status a = StatusPending → ap_DecisionVersion a = 0 → modes_ok a → fc_Kind (ap_ApproveCommand a) ≠ "" →
    fc_Kind (ap_RejectCommand a) ≠ "" →
    (isPrimaryReviewApproval a = true → ∀ k b, approvals s !! k = Some b →
       ap_SessionID b = ap_SessionID a → isPrimaryReviewApproval b = false) →
    change s (s <| approvals := <[ap_ID a := a]> (approvals s) |>
                <| approvalByCreateKey := <[ap_IdempotencyKey a := ap_ID a]> (approvalByCreateKey s) |>)
| ch_decide s a request a' d c e s1 :
    approvals s !! ap_ID a = Some a → decisionByKey s !! rq_IdempotencyKey request = None →
    rq_TerminalStatus request ∉ [StatusApproved; StatusRejected] →
    prepareDecision a request = Ok (a', d, c, e) →
    decisions s !! continuationKey (ap_ID a) (ap_DecisionVersion a') = None →
    appendOutboxLocked s e = Ok s1 →
    change s (s1 <| approvals := <[ap_ID a := a']> (approvals s1) |>
                 <| decisions := <[continuationKey (ap_ID a) (ap_DecisionVersion a') := d]> (decisions s1) |>
                 <| decisionByKey := <[rq_IdempotencyKey request :=
                      continuationKey (ap_ID a) (ap_DecisionVersion a')]> (decisionByKey s1) |>
                 <| continuations := <[continuationKey (ap_ID a) (ap_DecisionVersion a') := c]> (continuations s1) |>)
| ch_bind s a mapping epoch now :
    approvals s !! ap_ID a = Some a → ap_ReviewMode a = ReviewModeInterrupt → ap_Status a = StatusPending →
    ap_CheckpointMappingID a = "" →
    change s (s <| approvals := <[ap_ID a := a <| ap_CheckpointMappingID := mapping |>
                <| ap_MappingEpoch := epoch |> <| ap_UpdatedAt := now |>]> (approvals s) |>)
| ch_fallback s a a' entry e s1 now :
    approvals s !! ap_ID a = Some a → ap_ReviewMode a = ReviewModeInterrupt →
    a' = a <| ap_ExecutionMode := ExecutionModeDurableFallback |>
           <| ap_ExecutionEpoch := incr (ap_ExecutionEpoch a) |> <| ap_UpdatedAt := now |> →
    fallback_continuation s a' now = Ok entry →
    newFallbackOutbox a' (snd <$> entry) now = Ok e → appendOutboxLocked s e = Ok s1 →
    change s ((match entry with
               | Some (key, c) => s1 <| continuations := <[key := c]> (continuations s1) |>
               | None => s1 end) <| approvals := <[ap_ID a := a']> (approvals s1) |>)
| ch_batch s b :
    candidateBatches s !! cb_ID b = None → candidateBatchByKey s !! cb_IdempotencyKey b = None →
    NoDup (bt_ApprovalID <$> cb_Targets b) → NoDup (bt_BindingID <$> cb_Targets b) →
    change s (s <| candidateBatches := <[cb_ID b := b]> (candidateBatches s) |>
                <| candidateBatchByKey := <[cb_IdempotencyKey b := cb_ID b]> (candidateBatchByKey s) |>)
| ch_mark s k e e' :
    outbox s !! k = Some e → event_key e' = event_key e → oe_Status e = OutboxStatusPending →
    change s (s <| outbox := <[k := e']> (outbox s) |>).
End changes.

(** ** Guards *)

Section guards.
Context `{Codec} `{ApprovalCodec}.

Lemma normalizeFrozenCommand_Ok c c' : normalizeFrozenCommand c = Ok c' → fc_Kind c' ≠ "" ∧ fc_IdempotencyKey c' ≠ "".
Proof.
  unfold normalizeFrozenCommand. destruct (_ || _) eqn:E; [done|].
  apply orb_false_iff in E as [Ek%bool_decide_eq_false Ei%bool_decide_eq_false].
  destruct (negb _); [done|]. intros [= <-]. by case_bool_decide.
Qed.

Lemma validate_modes review execution :
  validateReviewExecutionMode review execution = None →
  (review = ReviewModeDurable ∧ execution = ExecutionModeDurable) ∨
  (review = ReviewModeInterrupt ∧ execution = ExecutionModeInterrupt).
Proof. unfold validateReviewExecutionMode. repeat (case_bool_decide; cbn [negb]); naive_solver. Qed.

Lemma normalizeApproval_Ok v now clock a :
  normalizeApproval v now clock = Ok a →
  TrimSpace (ap_ID a) = ap_ID a ∧ ap_ID a ≠ "" ∧ ap_Status a = StatusPending ∧ ap_DecisionVersion a = 0 ∧
  modes_ok a ∧ fc_Kind (ap_ApproveCommand a) ≠ "" ∧ fc_Kind (ap_RejectCommand a) ≠ "".
Proof.
  unfold normalizeApproval. cbv zeta. cbn.
  destruct (bool_decide (TrimSpace (ap_ID v) = "")) eqn:E; [done|]. apply bool_decide_eq_false in E.
  destruct (_ || _); [done|]. destruct (_ || _); [done|].
  destruct (validateReviewExecutionMode _ _) eqn:Em; [done|]. apply validate_modes in Em.
  destruct (normalizeFrozenCommand (ap_ApproveCommand v)) as [approve|] eqn:Ea; [|done].
  destruct (normalizeFrozenCommand (ap_RejectCommand v)) as [reject|] eqn:Er; [|done].
  destruct (_ || _); [done|]. intros Hok.
  apply normalizeFrozenCommand_Ok in Ea as [? _]. apply normalizeFrozenCommand_Ok in Er as [? _].
  assert (a = mkApproval (TrimSpace (ap_ID v)) (TrimSpace (ap_IdempotencyKey v)) (TrimSpace (ap_TenantID v))
    (TrimSpace (ap_UserID v)) (TrimSpace (ap_SessionID v)) (TrimSpace (ap_ArtifactType v))
    (normalizeBinding (ap_Binding v)) (ap_ReviewMode v) (ap_ExecutionMode v) 1 StatusPending 0 approve reject
    "" 0 (timeOr now clock) (timeOr now clock) (ap_ExpiresAt v) None) as ->.
  { destruct (ap_ExpiresAt v); [destruct (negb _); [done|]|]; by injection Hok. }
  cbn. split; [apply TrimSpace_idem|]. repeat (split; [done|]). split; [|done].
  unfold modes_ok. cbn. destruct Em as [[-> ->]|[-> ->]]; [by left|right]. split; [done|set_solver].
Qed.

(** What a prepared decision is. *)
Lemma prepareDecision_Ok a request a' d c e :
  prepareDecision a request = Ok (a', d, c, e) →
  ap_Status a = StatusPending ∧ ap_DecisionVersion a = rq_ExpectedDecisionVersion request ∧
  ∃ selected, selected_command a (effective_status a request) = Some selected ∧
    a' = decided_approval a request (effective_status a request) ∧
    d = new_decision a request (effective_status a request) selected ∧
    newContinuation a' (rq_Now request) = Ok c ∧ newDecisionOutbox a' c (rq_Now request) = Ok e.
Proof.
  unfold prepareDecision. case_bool_decide as Hs; cbn [negb]; [|done].
  destruct (Z.eqb_spec (ap_DecisionVersion a) (rq_ExpectedDecisionVersion request)); cbn [negb]; [|done].
  destruct (selected_command _ _) as [selected|]; [|done].
  destruct (newContinuation _ _) as [c1|] eqn:Ec; [|done].
  destruct (newDecisionOutbox _ _ _) as [e1|] eqn:Ee; [|done].
  intros Heq. assert (a' = decided_approval a request (effective_status a request) ∧
    d = new_decision a request (effective_status a request) selected ∧ c1 = c ∧ e1 = e) as (-> & -> & -> & ->)
    by (by injection Heq).
  split; [done|]. split; [done|]. by exists selected.
Qed.

Lemma newContinuation_Ok a now c :
  newContinuation a now = Ok c → ap_DecisionVersion a = 1 → follows a c ∧ ac_Status c = ContinuationStatusRequested.
Proof.
  unfold newContinuation, follows. intros Hc Hv. case_bool_decide.
  - destruct (_ || _) eqn:E; [done|]. apply orb_false_iff in E as [?%bool_decide_eq_false ?%Z.leb_gt].
    injection Hc as <-. cbn. done.
  - injection Hc as <-. cbn. done.
Qed.

Lemma selected_final a st c : selected_command a st = Some c → st ∈ final_statuses.
Proof.
  unfold selected_command, final_statuses. case_bool_decide as H1; [set_solver|]. case_bool_decide as H2; [set_solver|].
  destruct (_ || _) eqn:E; [|done]. intros _.
  apply orb_true_iff in E as [[E%bool_decide_eq_true|E%bool_decide_eq_true]%orb_true_iff|E%bool_decide_eq_true]; set_solver.
Qed.

Lemma new_decision_fields a request st c :
  let d := new_decision a request st c in
  ad_ApprovalID d = ap_ID a ∧ ad_DecisionVersion d = incr (ap_DecisionVersion a) ∧
  ad_IdempotencyKey d = rq_IdempotencyKey request ∧ ad_RequestedDecision d = rq_RequestedDecision request ∧
  ad_EffectiveStatus d = st ∧ ad_ObservedBinding d = rq_ObservedBinding request ∧ ad_CreatedAt d = rq_Now request ∧
  ad_ActorID d = rq_ActorID request ∧ ad_Reason d = rq_Reason request ∧
  (if bool_decide (fc_Kind c = "") then ad_CommandKind d = "" else carries d c).
Proof. unfold new_decision, carries. case_bool_decide as Hk; cbn; rewrite ?Hk; done. Qed.

Lemma new_decision_reviewed a request st c :
  st = effective_status a request → selected_command a st = Some c →
  rq_TerminalStatus request ∉ [StatusApproved; StatusRejected] →
  fc_Kind (ap_ApproveCommand a) ≠ "" → fc_Kind (ap_RejectCommand a) ≠ "" →
  reviewed a (new_decision a request st c).
Proof.
  intros Hst Hsel Hterm Hka Hkr. pose proof (selected_final _ _ _ Hsel) as Hfin.
  destruct (new_decision_fields a request st c) as (F1 & F2 & F3 & F4 & F5 & F6 & F7 & _ & _ & F8).
  unfold reviewed. rewrite F4, F5, F6, F7. split; [done|].
  assert (st ∈ [StatusApproved; StatusRejected] → rq_TerminalStatus request = "" ∧
    (∃ b, rq_ObservedBinding request = Some b ∧ VersionBinding_Matches (ap_Binding a) b = true) ∧
    (∀ t, ap_ExpiresAt a = Some t → rq_Now request < t) ∧
    (st = StatusApproved ↔ rq_RequestedDecision request = DecisionApprove)) as Hrev.
  { clear F8. intros Hin. unfold effective_status in Hst.
    case_bool_decide as Ht; cbn [negb] in Hst; [|exfalso; apply Hterm; by rewrite <-Hst]. split; [done|].
    destruct (match ap_ExpiresAt a with Some t => _ | None => _ end) eqn:Ex; [subst st; set_solver|].
    destruct (match rq_ObservedBinding request with Some b => _ | None => _ end) eqn:Eb; [subst st; set_solver|].
    split; [|split].
    - destruct (rq_ObservedBinding request) as [b|]; [|done]. exists b. split; [done|]. by apply negb_false_iff.
    - intros t Ht2. rewrite Ht2 in Ex. apply negb_false_iff in Ex. unfold After in Ex. lia.
    - case_bool_decide; subst st; done. }
  split; [intros Hin; by destruct (Hrev Hin) as (_ & ? & ? & _)|]. unfold selected_command in Hsel.
  split; [|split].
  - intros E. destruct (Hrev ltac:(set_solver)) as (_ & _ & _ & Hr). rewrite bool_decide_true in Hsel by done.
    injection Hsel as <-. rewrite bool_decide_false in F8 by done. split; [by apply Hr|done].
  - intros E. destruct (Hrev ltac:(set_solver)) as (_ & _ & _ & Hr).
    rewrite bool_decide_false, bool_decide_true in Hsel by (rewrite E; done).
    injection Hsel as <-. rewrite bool_decide_false in F8 by done. split; [|done].
    intros Hreq%Hr. by rewrite Hreq in E.
  - intros [Hna [Hnr _]%not_elem_of_cons]%not_elem_of_cons.
    rewrite (bool_decide_false (st = StatusApproved)), (bool_decide_false (st = StatusRejected)) in Hsel by done.
    destruct (_ || _) in Hsel; [|done]. injection Hsel as <-. exact F8.
Qed.

(** *** The outbox *)

(** Events are filed under their key, which is their identifier. *)
Record outbox_inv (s : MemoryStore) : Prop := {
  outbox_event : ∀ k e, outbox s !! k = Some e →
    oe_ID e = k ∧ oe_IdempotencyKey e = k ∧ outboxByKey s !! k = Some k;
  outbox_key : ∀ k id, outboxByKey s !! k = Some id → id = k ∧ is_Some (outbox s !! k)
}.

Lemma outbox_at_Some s k : outbox_inv s → is_Some (outboxByKey s !! k) → ∃ e, outbox_at s k = Some e ∧ outbox s !! k = Some e.
Proof.
  intros Hi [id Hid]. destruct (outbox_key _ Hi _ _ Hid) as [-> [e He]]. exists e. unfold outbox_at. by rewrite Hid, He.
Qed.

(** Appending changes only the outbox and keeps what it holds. *)
Lemma appendOutbox_Ok s e s' :
  appendOutboxLocked s e = Ok s' → oe_ID e = oe_IdempotencyKey e → outbox_inv s →
  outbox_inv s' ∧ is_Some (outboxByKey s' !! oe_IdempotencyKey e) ∧
  (∀ k v, outbox s !! k = Some v → outbox s' !! k = Some v) ∧
  (∃ e', outbox s' !! oe_IdempotencyKey e = Some e' ∧ oe_EventType e' = oe_EventType e ∧
         oe_AggregateID e' = oe_AggregateID e) ∧
  s' = s <| outbox := outbox s' |> <| outboxByKey := outboxByKey s' |>.
Proof.
  unfold appendOutboxLocked. intros E Hid Hi. destruct (outboxByKey s !! _) as [id|] eqn:Ek.
  - destruct (outbox_key _ Hi _ _ Ek) as [-> [v Hv]]. rewrite Hv in E. cbn in E. destruct (_ || _) eqn:Eb; [done|].
    injection E as <-. apply orb_false_iff in Eb as [[_ Et]%orb_false_iff Ea].
    apply negb_false_iff, bool_decide_eq_true in Et. apply negb_false_iff, bool_decide_eq_true in Ea.
    split; [done|]. split; [by rewrite Ek|]. split; [done|]. split; [by exists v|]. by destruct s.
  - assert (s' = s <| outbox := <[oe_ID e := e]> (outbox s) |>
            <| outboxByKey := <[oe_IdempotencyKey e := oe_ID e]> (outboxByKey s) |>) as -> by congruence.
    rewrite Hid. cbn. assert (outbox s !! oe_IdempotencyKey e = None) as Hnone.
    { destruct (outbox s !! oe_IdempotencyKey e) eqn:Eo; [|done].
      destruct (outbox_event _ Hi _ _ Eo) as (_ & _ & Hk). congruence. }
    split; [split; cbn|split; [|split; [|split]]].
    + intros k v [(<- & <-)|(Hne & Hk)]%lookup_insert_Some; [by rewrite lookup_insert_eq|].
      rewrite lookup_insert_ne by done. by apply (outbox_event _ Hi).
    + intros k id [(<- & <-)|(Hne & Hk)]%lookup_insert_Some; [by rewrite lookup_insert_eq|].
      rewrite lookup_insert_ne by done. by apply (outbox_key _ Hi).
    + by rewrite lookup_insert_eq.
    + intros k v Hk. rewrite lookup_insert_ne; [done|congruence].
    + exists e. by rewrite lookup_insert_eq.
    + done.
Qed.

Lemma newDecisionOutbox_Ok a c now e :
  newDecisionOutbox a c now = Ok e →
  oe_ID e = oe_IdempotencyKey e ∧ oe_AggregateID e = ap_ID a ∧
  oe_EventType e = decision_event_type (ac_Executor c) ∧
  oe_IdempotencyKey e = decisionOutboxKey (ap_ID a) (ap_DecisionVersion a) (ac_ExecutionEpoch c)
    (decision_event_type (ac_Executor c)).
Proof.
  unfold newDecisionOutbox. generalize (if bool_decide (ac_Executor c = ContinuationExecutorRunnerResume)
    then json_Marshal_input (TResumeRequested (resume_request a)) else json_Marshal_requested (continuation_requested a c)).
  intros [raw|err]; [|done]. intros Heq. match type of Heq with Ok ?x = _ => assert (e = x) as -> by congruence end. done.
Qed.

Lemma newFallbackOutbox_Ok a c now e :
  newFallbackOutbox a c now = Ok e →
  oe_ID e = oe_IdempotencyKey e ∧ oe_AggregateID e = ap_ID a ∧
  oe_EventType e = (match c with Some _ => EventApprovalContinuationRequested | None => EventApprovalFallbackEnabled end) ∧
  oe_IdempotencyKey e = decisionOutboxKey (ap_ID a) (ap_DecisionVersion a) (ap_ExecutionEpoch a)
    (match c with Some _ => EventApprovalContinuationRequested | None => EventApprovalFallbackEnabled end).
Proof.
  unfold newFallbackOutbox. destruct (match c with Some _ => json_Marshal_requested _ | None => _ end) as [raw|err]; [|done].
  intros Heq. match type of Heq with Ok ?x = _ => assert (e = x) as -> by congruence end. done.
Qed.
End guards.

(** ** The invariant *)

(** An approval is undecided, or decided once with its decision, the
    continuation that carries it out and the event that announces that. *)
Definition decided (s : MemoryStore) (a : Approval) : Prop :=
  ap_Status a ∈ final_statuses ∧ ap_DecisionVersion a = 1 ∧
  ∃ d c e, decisions s !! continuationKey (ap_ID a) 1 = Some d ∧
    ad_ApprovalID d = ap_ID a ∧ ad_DecisionVersion d = 1 ∧ ad_EffectiveStatus d = ap_Status a ∧ reviewed a d ∧
    continuations s !! continuationKey (ap_ID a) 1 = Some c ∧ follows a c ∧
    outbox s !! decisionOutboxKey (ap_ID a) 1 (ac_ExecutionEpoch c) (decision_event_type (ac_Executor c)) = Some e ∧
    outboxByKey s !! decisionOutboxKey (ap_ID a) 1 (ac_ExecutionEpoch c) (decision_event_type (ac_Executor c))
      = Some (oe_ID e) ∧
    oe_AggregateID e = ap_ID a ∧ oe_EventType e = decision_event_type (ac_Executor c).

Definition approval_ok (s : MemoryStore) (k : string) (a : Approval) : Prop :=
  ap_ID a = k ∧ TrimSpace k = k ∧ k ≠ "" ∧ modes_ok a ∧
  fc_Kind (ap_ApproveCommand a) ≠ "" ∧ fc_Kind (ap_RejectCommand a) ≠ "" ∧
  approvalByCreateKey s !! ap_IdempotencyKey a = Some k ∧
  ((ap_Status a = StatusPending ∧ ap_DecisionVersion a = 0) ∨ decided s a).

Record approval_inv (s : MemoryStore) : Prop := {
  ai_outbox : outbox_inv s;
  ai_approval : ∀ k a, approvals s !! k = Some a → approval_ok s k a;
  ai_create : ∀ key k, approvalByCreateKey s !! key = Some k →
    ∃ a, approvals s !! k = Some a ∧ ap_IdempotencyKey a = key;
  ai_decision : ∀ id d, decisions s !! id = Some d →
    id = continuationKey (ad_ApprovalID d) 1 ∧ decisionByKey s !! ad_IdempotencyKey d = Some id ∧
    ∃ a, approvals s !! ad_ApprovalID d = Some a ∧ ap_Status a ≠ StatusPending;
  ai_key : ∀ key id, decisionByKey s !! key = Some id →
    ∃ d, decisions s !! id = Some d ∧ ad_IdempotencyKey d = key;
  ai_primary : ∀ k1 k2 a1 a2, approvals s !! k1 = Some a1 → approvals s !! k2 = Some a2 →
    ap_SessionID a1 = ap_SessionID a2 → isPrimaryReviewApproval a1 = true → isPrimaryReviewApproval a2 = true → k1 = k2;
  ai_batch : ∀ k b, candidateBatches s !! k = Some b →
    cb_ID b = k ∧ candidateBatchByKey s !! cb_IdempotencyKey b = Some k ∧
    NoDup (bt_ApprovalID <$> cb_Targets b) ∧ NoDup (bt_BindingID <$> cb_Targets b)
}.

Lemma initial_approval_inv : approval_inv NewMemoryStore.
Proof. split; try split; intros *; cbn; rewrite ?lookup_empty; done. Qed.

Lemma final_not_pending st : st ∈ final_statuses → st ≠ StatusPending.
Proof.
  intros Hin ->. revert Hin. apply (bool_decide_eq_false (StatusPending ∈ final_statuses)). reflexivity.
Qed.

Lemma pending_not_decided s a : ap_Status a = StatusPending → ¬ decided s a.
Proof. intros Hp (Hf & _). by apply (final_not_pending _ Hf). Qed.

Lemma primary_pending a : isPrimaryReviewApproval a = true → ap_Status a = StatusPending.
Proof. unfold isPrimaryReviewApproval. by case_bool_decide. Qed.

(** Nothing else is primary once the approval is not. *)
Lemma primary_ext a a' :
  ap_Status a' = ap_Status a → ap_ArtifactType a' = ap_ArtifactType a →
  isPrimaryReviewApproval a' = isPrimaryReviewApproval a.
Proof. unfold isPrimaryReviewApproval. by intros -> ->. Qed.

(** The parts of the store on which a decided approval rests. *)
Lemma decided_mono s s' a a' :
  decided s a →
  (∀ id d, decisions s !! id = Some d → decisions s' !! id = Some d) →
  continuations s' !! continuationKey (ap_ID a) 1 = continuations s !! continuationKey (ap_ID a) 1 →
  (∀ k e, outbox s !! k = Some e → ∃ e', outbox s' !! k = Some e' ∧ event_key e' = event_key e) →
  (∀ k id, outboxByKey s !! k = Some id → outboxByKey s' !! k = Some id) →
  a' = a → decided s' a'.
Proof.
  intros (Hst & Hv & d & c & e & Hd & H1 & H2 & H3 & H4 & Hc & Hf & He & Hk & H5 & H6) Md Mc Mo Mk ->.
  destruct (Mo _ _ He) as (e' & He' & Hkey). unfold event_key in Hkey. injection Hkey as Hid _ Het _ Hagg _ _ _ _.
  split; [done|]. split; [done|]. exists d, c, e'. rewrite Mc, Hid, Het, Hagg. split_and!; eauto.
Qed.

Lemma approval_ok_mono s s' k a :
  approval_ok s k a →
  (∀ id d, decisions s !! id = Some d → decisions s' !! id = Some d) →
  (decided s a → continuations s' !! continuationKey (ap_ID a) 1 = continuations s !! continuationKey (ap_ID a) 1) →
  (∀ k e, outbox s !! k = Some e → ∃ e', outbox s' !! k = Some e' ∧ event_key e' = event_key e) →
  (∀ k id, outboxByKey s !! k = Some id → outboxByKey s' !! k = Some id) →
  (∀ key k, approvalByCreateKey s !! key = Some k → approvalByCreateKey s' !! key = Some k) →
  approval_ok s' k a.
Proof.
  intros (H1 & H2 & H3 & H4 & H5 & H6 & H7 & H8) Md Mc Mo Mk Ma.
  repeat (split; [by auto|]). destruct H8 as [?|Hdec]; [by left|right].
  apply (decided_mono s s' a a); auto.
Qed.

(** The same approval, as long as it is undecided, under any change of its
    mapping or execution. *)
Lemma approval_ok_pending s k a a' :
  approval_ok s k a → ap_Status a = StatusPending → ap_ID a' = ap_ID a → ap_IdempotencyKey a' = ap_IdempotencyKey a →
  ap_Status a' = ap_Status a → ap_DecisionVersion a' = ap_DecisionVersion a → modes_ok a' →
  ap_ApproveCommand a' = ap_ApproveCommand a → ap_RejectCommand a' = ap_RejectCommand a →
  approval_ok s k a'.
Proof.
  intros (H1 & H2 & H3 & H4 & H5 & H6 & H7 & H8) Hp E1 E2 E3 E4 Hm E5 E6.
  unfold approval_ok. rewrite E1, E2, E3, E4, E5, E6. split_and!; try done. left.
  destruct H8 as [[_ ?]|Hdec]; [done|]. by apply (pending_not_decided _ _ Hp) in Hdec.
Qed.

Lemma event_kept_refl s s' :
  outbox s' = outbox s →
  ∀ k e, outbox s !! k = Some e → ∃ e', outbox s' !! k = Some e' ∧ event_key e' = event_key e.
Proof. intros Ho k e He. exists e. by rewrite Ho. Qed.

Lemma approvals_insert s k a b :
  (∀ k b, approvals s !! k = Some b → approval_ok s k b) → approval_ok s k a →
  ∀ k', <[k := a]> (approvals s) !! k' = Some b → approval_ok s k' b.
Proof. intros Hall Ha k' [(<- & <-)|(_ & Hk)]%lookup_insert_Some; [done|by apply Hall]. Qed.

(** One approval is replaced by one of the same identity that is primary only if
    it was. *)
Lemma primary_replace s k a a' :
  approvals s !! k = Some a → ap_SessionID a' = ap_SessionID a →
  (isPrimaryReviewApproval a' = true → isPrimaryReviewApproval a = true) →
  (∀ k1 k2 a1 a2, approvals s !! k1 = Some a1 → approvals s !! k2 = Some a2 →
     ap_SessionID a1 = ap_SessionID a2 → isPrimaryReviewApproval a1 = true → isPrimaryReviewApproval a2 = true → k1 = k2) →
  ∀ k1 k2 a1 a2, <[k := a']> (approvals s) !! k1 = Some a1 → <[k := a']> (approvals s) !! k2 = Some a2 →
     ap_SessionID a1 = ap_SessionID a2 → isPrimaryReviewApproval a1 = true → isPrimaryReviewApproval a2 = true → k1 = k2.
Proof.
  intros Ha Hs Hp Hall k1 k2 a1 a2 [(<- & <-)|(N1 & H1)]%lookup_insert_Some [(<- & <-)|(N2 & H2)]%lookup_insert_Some; eauto.
  - intros E P1 P2. apply (Hall k k2 a a2); auto. congruence.
  - intros E P1 P2. apply (Hall k1 k a1 a); auto. congruence.
Qed.

(** An approval keeps its create key, and its status if it had ended. *)
Lemma create_replace s k a a' :
  approvals s !! k = Some a → ap_IdempotencyKey a' = ap_IdempotencyKey a →
  (∀ key k0, approvalByCreateKey s !! key = Some k0 → ∃ b, approvals s !! k0 = Some b ∧ ap_IdempotencyKey b = key) →
  ∀ key k0, approvalByCreateKey s !! key = Some k0 → ∃ b, <[k := a']> (approvals s) !! k0 = Some b ∧ ap_IdempotencyKey b = key.
Proof.
  intros Ha Hk Hall key k0 H0. destruct (Hall _ _ H0) as (b & Hb & E).
  destruct (base.decide (k0 = k)) as [->|Hne].
  - exists a'. rewrite lookup_insert_eq. split; [done|]. congruence.
  - exists b. by rewrite lookup_insert_ne by done.
Qed.

Lemma decision_replace s k a a' :
  approvals s !! k = Some a → (ap_Status a ≠ StatusPending → ap_Status a' ≠ StatusPending) →
  ∀ d, (∃ b, approvals s !! ad_ApprovalID d = Some b ∧ ap_Status b ≠ StatusPending) →
  ∃ b, <[k := a']> (approvals s) !! ad_ApprovalID d = Some b ∧ ap_Status b ≠ StatusPending.
Proof.
  intros Ha Hs d (b & Hb & Hp). destruct (base.decide (ad_ApprovalID d = k)) as [Heq|Hne].
  - rewrite Heq in Hb |- *. exists a'. rewrite lookup_insert_eq. split; [done|]. apply Hs. congruence.
  - exists b. by rewrite lookup_insert_ne by done.
Qed.

Section preservation.
Context `{Codec} `{ApprovalCodec}.

Lemma create_inv s a :
  approval_inv s → TrimSpace (ap_ID a) = ap_ID a → ap_ID a ≠ "" → approvals s !! ap_ID a = None →
  approvalByCreateKey s !! ap_IdempotencyKey a = None →
  ap_Status a = StatusPending → ap_DecisionVersion a = 0 → modes_ok a → fc_Kind (ap_ApproveCommand a) ≠ "" →
  fc_Kind (ap_RejectCommand a) ≠ "" →
  (isPrimaryReviewApproval a = true → ∀ k b, approvals s !! k = Some b →
     ap_SessionID b = ap_SessionID a → isPrimaryReviewApproval b = false) →
  approval_inv (s <| approvals := <[ap_ID a := a]> (approvals s) |>
                  <| approvalByCreateKey := <[ap_IdempotencyKey a := ap_ID a]> (approvalByCreateKey s) |>).
Proof.
  intros I Htr Hne Hn Hk Hp Hv Hm Hc1 Hc2 Hprim. set (s' := s <| approvals := _ |> <| approvalByCreateKey := _ |>).
  split; cbn.
  - split; cbn; apply (ai_outbox _ I).
  - intros k b [(<- & <-)|(Hne2 & Hb)]%lookup_insert_Some.
    + unfold approval_ok. cbn. rewrite lookup_insert_eq. split_and!; try done. by left.
    + apply (approval_ok_mono s); [by apply (ai_approval _ I)|done|done|by apply event_kept_refl|done|].
      intros key k0 Hy0. cbn. rewrite lookup_insert_ne; [done|congruence].
  - intros key k [(<- & <-)|(Hne2 & Hy1)]%lookup_insert_Some; [exists a; by rewrite lookup_insert_eq|].
    destruct (ai_create _ I _ _ Hy1) as (b & Hb & E). exists b. rewrite lookup_insert_ne; [done|congruence].
  - intros id d Hd. destruct (ai_decision _ I _ _ Hd) as (E & Hk2 & b & Hb & Hp2). split; [done|]. split; [done|].
    exists b. rewrite lookup_insert_ne; [done|congruence].
  - apply (ai_key _ I).
  - intros k1 k2 a1 a2 [(<- & <-)|(N1 & Hy1)]%lookup_insert_Some [(<- & <-)|(N2 & Hy2)]%lookup_insert_Some; try done.
    + intros E P1 P2. by rewrite (Hprim P1 _ _ Hy2) in P2 by done.
    + intros E P1 P2. by rewrite (Hprim P2 _ _ Hy1) in P1 by done.
    + by apply (ai_primary _ I).
  - apply (ai_batch _ I).
Qed.

Lemma bind_inv s a mapping epoch now :
  approval_inv s → approvals s !! ap_ID a = Some a → ap_Status a = StatusPending →
  approval_inv (s <| approvals := <[ap_ID a := a <| ap_CheckpointMappingID := mapping |>
                <| ap_MappingEpoch := epoch |> <| ap_UpdatedAt := now |>]> (approvals s) |>).
Proof.
  intros I Ha Hp. set (a' := a <| ap_CheckpointMappingID := _ |> <| ap_MappingEpoch := _ |> <| ap_UpdatedAt := _ |>).
  split; cbn.
  - split; cbn; apply (ai_outbox _ I).
  - intros k b Hb. assert (approval_ok s k b) as Hok.
    { eapply (approvals_insert s (ap_ID a) a'); [apply (ai_approval _ I)| |exact Hb].
      by eapply approval_ok_pending; [by apply (ai_approval _ I)|..]; try done; apply (ai_approval _ I _ _ Ha). }
    by eapply approval_ok_mono; [exact Hok|..]; try done; by apply event_kept_refl.
  - by eapply create_replace; [exact Ha|..]; try done; apply (ai_create _ I).
  - intros id d Hd. destruct (ai_decision _ I _ _ Hd) as (E & Hk2 & Hb). split; [done|]. split; [done|].
    by eapply decision_replace.
  - apply (ai_key _ I).
  - by eapply primary_replace; [exact Ha|..]; try done; apply (ai_primary _ I).
  - apply (ai_batch _ I).
Qed.

Lemma batch_inv s b :
  approval_inv s → candidateBatches s !! cb_ID b = None → candidateBatchByKey s !! cb_IdempotencyKey b = None →
  NoDup (bt_ApprovalID <$> cb_Targets b) → NoDup (bt_BindingID <$> cb_Targets b) →
  approval_inv (s <| candidateBatches := <[cb_ID b := b]> (candidateBatches s) |>
                  <| candidateBatchByKey := <[cb_IdempotencyKey b := cb_ID b]> (candidateBatchByKey s) |>).
Proof.
  intros I Hn Hk N1 N2. split; cbn; try apply I.
  - split; cbn; apply (ai_outbox _ I).
  - intros k c [(<- & <-)|(Hne & Hc)]%lookup_insert_Some; [by rewrite lookup_insert_eq|].
    destruct (ai_batch _ I _ _ Hc) as (E & Hkey & Hd). split; [done|]. split; [|done].
    rewrite lookup_insert_ne; [done|congruence].
Qed.

Lemma mark_inv s k e e' :
  approval_inv s → outbox s !! k = Some e → event_key e' = event_key e →
  approval_inv (s <| outbox := <[k := e']> (outbox s) |>).
Proof.
  intros I He Hkey. assert (Hk := Hkey). unfold event_key in Hk. injection Hk as Hid Hik _ _ _ _ _ _ _.
  split; cbn; try apply I.
  - split; cbn.
    + intros k0 v [(<- & <-)|(Hne & Hv)]%lookup_insert_Some; [|by apply (outbox_event _ (ai_outbox _ I))].
      rewrite Hid, Hik. by apply (outbox_event _ (ai_outbox _ I)).
    + intros k0 id Hy1. destruct (outbox_key _ (ai_outbox _ I) _ _ Hy1) as [-> Hs]. split; [done|].
      destruct (base.decide (k = k0)) as [->|Hne]; [by rewrite lookup_insert_eq|by rewrite lookup_insert_ne].
  - intros k0 a Ha. eapply approval_ok_mono; [by apply (ai_approval _ I)|..]; try done.
    cbn. intros k1 v Hv. destruct (base.decide (k = k1)) as [->|Hne].
    + exists e'. rewrite lookup_insert_eq. split; [done|]. congruence.
    + exists v. by rewrite lookup_insert_ne.
Qed.
Lemma decided_not_primary a : ap_Status a ∈ final_statuses → isPrimaryReviewApproval a = false.
Proof.
  intros Hf. destruct (isPrimaryReviewApproval a) eqn:E; [|done].
  by apply primary_pending in E; apply final_not_pending in Hf.
Qed.

(** A prepared decision of an approval of the store. *)
Lemma prepared s k a request a' d c e :
  approval_ok s k a → rq_TerminalStatus request ∉ [StatusApproved; StatusRejected] →
  prepareDecision a request = Ok (a', d, c, e) →
  ap_Status a = StatusPending ∧ ap_DecisionVersion a = 0 ∧ ap_ID a' = ap_ID a ∧
  a' = decided_approval a request (ad_EffectiveStatus d) ∧ ap_Status a' = ad_EffectiveStatus d ∧
  ap_Status a' ∈ final_statuses ∧ ap_DecisionVersion a' = 1 ∧ ad_ApprovalID d = ap_ID a ∧ ad_DecisionVersion d = 1 ∧
  ad_IdempotencyKey d = rq_IdempotencyKey request ∧ reviewed a d ∧ follows a' c ∧
  oe_ID e = oe_IdempotencyKey e ∧ oe_AggregateID e = ap_ID a ∧
  oe_EventType e = decision_event_type (ac_Executor c) ∧
  oe_IdempotencyKey e = decisionOutboxKey (ap_ID a) 1 (ac_ExecutionEpoch c) (decision_event_type (ac_Executor c)).
Proof.
  intros (_ & _ & _ & _ & Hk1 & Hk2 & _ & Hst) Hterm (Hp & _ & sel & Hsel & Ha' & Hd & Hc & He)%prepareDecision_Ok.
  assert (ap_DecisionVersion a = 0) as Hv by (destruct Hst as [[_ ?]|Hdec]; [done|by apply pending_not_decided in Hdec]).
  destruct (new_decision_fields a request (effective_status a request) sel) as (F1 & F2 & F3 & _ & F5 & _).
  pose proof (new_decision_reviewed a request _ sel eq_refl Hsel Hterm Hk1 Hk2) as Hrev. rewrite <-Hd in *.
  pose proof (selected_final _ _ _ Hsel) as Hfin. rewrite Hv in F2.
  assert (ap_DecisionVersion a' = 1) as Hv' by (rewrite Ha'; unfold decided_approval; cbn; by rewrite Hv).
  apply newContinuation_Ok in Hc as [Hc _]; [|done].
  apply newDecisionOutbox_Ok in He as (E1 & E2 & E3 & E4). rewrite Hv' in E4.
  assert (ap_ID a' = ap_ID a) as Hid by (by rewrite Ha'). rewrite Hid in E2, E4.
  rewrite F5. split_and!; try done; rewrite Ha'; done.
Qed.

Lemma decide_inv s a request a' d c e s1 :
  approval_inv s → approvals s !! ap_ID a = Some a → decisionByKey s !! rq_IdempotencyKey request = None →
  rq_TerminalStatus request ∉ [StatusApproved; StatusRejected] →
  prepareDecision a request = Ok (a', d, c, e) →
  decisions s !! continuationKey (ap_ID a) (ap_DecisionVersion a') = None →
  appendOutboxLocked s e = Ok s1 →
  approval_inv (s1 <| approvals := <[ap_ID a := a']> (approvals s1) |>
                 <| decisions := <[continuationKey (ap_ID a) (ap_DecisionVersion a') := d]> (decisions s1) |>
                 <| decisionByKey := <[rq_IdempotencyKey request :=
                      continuationKey (ap_ID a) (ap_DecisionVersion a')]> (decisionByKey s1) |>
                 <| continuations := <[continuationKey (ap_ID a) (ap_DecisionVersion a') := c]> (continuations s1) |>).
Proof.
  intros I Ha Hk Hterm Hprep Hnone Happ. pose proof (ai_approval _ I _ _ Ha) as Hok.
  destruct (prepared _ _ _ _ _ _ _ _ Hok Hterm Hprep)
    as (Hp & Hv & Hid & Ha' & Hst & Hfin & Hv' & D1 & D2 & D3 & Hrev & Hfol & E1 & E2 & E3 & E4).
  rewrite Hv' in Hnone |- *. set (id := continuationKey (ap_ID a) 1) in *.
  destruct (appendOutbox_Ok _ _ _ Happ E1 (ai_outbox _ I)) as (Io & _ & Mo & (e' & He' & T1 & T2) & Hs1).
  destruct (outbox_event _ Io _ _ He') as (G1 & _ & G2).
  assert (∀ k i, outboxByKey s !! k = Some i → outboxByKey s1 !! k = Some i) as Mk.
  { intros k i Hki. destruct (outbox_key _ (ai_outbox _ I) _ _ Hki) as [-> [v Hv0]].
    by destruct (outbox_event _ Io _ _ (Mo _ _ Hv0)) as (_ & _ & ?). }
  clear Hprep Happ. revert Io Mo Mk He' G2. rewrite Hs1. cbn. generalize (outbox s1) (outboxByKey s1). clear s1 Hs1.
  intros o ok Io Mo Mk He' G2. split; cbn.
  - split; cbn; apply Io.
  - intros k b [(<- & <-)|(Hne & Hb)]%lookup_insert_Some.
    + destruct Hok as (_ & O2 & O3 & O4 & O5 & O6 & O7 & _). rewrite Ha'. split_and!; try done. right. rewrite <-Ha'.
      unfold decided. rewrite Hid. cbn. split; [done|]. split; [done|]. exists d, c, e'. fold id.
      rewrite !lookup_insert_eq. split_and!; try done; [rewrite Ha'; exact Hrev|by rewrite <-E4| |congruence|congruence].
      by rewrite <-E4, G2, G1.
    + eapply approval_ok_mono; [by apply (ai_approval _ I)|..]; cbn; try done.
      * intros i v Hv0. rewrite lookup_insert_ne; [done|congruence].
      * intros (_ & _ & d0 & _ & _ & Hd0 & _). rewrite lookup_insert_ne; [done|]. intros E. fold id in E. congruence.
      * intros k0 v Hv0. exists v. by split; [apply Mo|].
  - by eapply create_replace; [exact Ha|by rewrite Ha'|apply (ai_create _ I)].
  - intros i v [(<- & <-)|(Hne & Hd)]%lookup_insert_Some.
    + rewrite D1, D3, !lookup_insert_eq. split; [done|]. split; [done|]. exists a'. split; [done|].
      by apply final_not_pending.
    + destruct (ai_decision _ I _ _ Hd) as (Hi & Hkey & Hb). split; [done|]. split.
      * rewrite lookup_insert_ne; [done|congruence].
      * eapply decision_replace; [exact Ha| |exact Hb]. intros _. by apply final_not_pending.
  - intros key i [(<- & <-)|(Hne & Hd)]%lookup_insert_Some.
    + exists d. by rewrite lookup_insert_eq.
    + destruct (ai_key _ I _ _ Hd) as (d0 & Hd0 & E). exists d0. rewrite lookup_insert_ne; [done|congruence].
  - eapply primary_replace; [exact Ha|by rewrite Ha'| |apply (ai_primary _ I)].
    intros Hpr. by rewrite decided_not_primary in Hpr.
  - apply (ai_batch _ I).
Qed.
Lemma same_continuation s a b c :
  decided s a → decided s b → continuations s !! continuationKey (ap_ID a) 1 = Some c →
  continuationKey (ap_ID b) 1 = continuationKey (ap_ID a) 1 → ap_ID b = ap_ID a.
Proof.
  intros (_ & _ & _ & c1 & _ & _ & _ & _ & _ & _ & H1c & (F1 & _) & _)
    (_ & _ & _ & c2 & _ & _ & _ & _ & _ & _ & H2c & (F2 & _) & _) Hc E. congruence.
Qed.

Lemma fallback_inv s a a' entry e s1 now :
  approval_inv s → approvals s !! ap_ID a = Some a → ap_ReviewMode a = ReviewModeInterrupt →
  a' = a <| ap_ExecutionMode := ExecutionModeDurableFallback |>
         <| ap_ExecutionEpoch := incr (ap_ExecutionEpoch a) |> <| ap_UpdatedAt := now |> →
  fallback_continuation s a' now = Ok entry →
  newFallbackOutbox a' (snd <$> entry) now = Ok e → appendOutboxLocked s e = Ok s1 →
  approval_inv ((match entry with
               | Some (key, c) => s1 <| continuations := <[key := c]> (continuations s1) |>
               | None => s1 end) <| approvals := <[ap_ID a := a']> (approvals s1) |>).
Proof.
  intros I Ha Hrm Ha' Hent Hev Happ. pose proof (ai_approval _ I _ _ Ha) as Hok.
  pose proof Hok as (_ & O2 & O3 & O4 & O5 & O6 & O7 & Hst).
  apply newFallbackOutbox_Ok in Hev as (E1 & E2 & E3 & E4).
  destruct (appendOutbox_Ok _ _ _ Happ E1 (ai_outbox _ I)) as (Io & _ & Mo & (e' & He' & T1 & T2) & Hs1).
  destruct (outbox_event _ Io _ _ He') as (G1 & _ & G2).
  assert (∀ k i, outboxByKey s !! k = Some i → outboxByKey s1 !! k = Some i) as Mk.
  { intros k i Hki. destruct (outbox_key _ (ai_outbox _ I) _ _ Hki) as [-> [v Hv0]].
    by destruct (outbox_event _ Io _ _ (Mo _ _ Hv0)) as (_ & _ & ?). }
  assert (modes_ok a') as Hm by (rewrite Ha'; right; split; [exact Hrm|set_solver]).
  assert (ap_ID a' = ap_ID a ∧ ap_IdempotencyKey a' = ap_IdempotencyKey a ∧ ap_Status a' = ap_Status a ∧
    ap_DecisionVersion a' = ap_DecisionVersion a ∧ ap_ApproveCommand a' = ap_ApproveCommand a ∧
    ap_RejectCommand a' = ap_RejectCommand a ∧ ap_SessionID a' = ap_SessionID a ∧
    ap_ArtifactType a' = ap_ArtifactType a ∧ (∀ d, reviewed a d → reviewed a' d) ∧
    ap_ExecutionMode a' = ExecutionModeDurableFallback) as (A1 & A2 & A3 & A4 & A5 & A6 & A7 & A8 & A9 & A10)
    by (rewrite Ha'; done).
  clear Ha' Happ. assert (∃ c', match entry with
      | Some (key, c) => key = continuationKey (ap_ID a) 1 ∧ c = c' ∧ decided s a ∧
          (∃ c0, continuations s !! key = Some c0 ∧ follows a' c')
      | None => ap_Status a = StatusPending end) as [c' Hentry].
  { unfold fallback_continuation in Hent. destruct Hst as [[Hp Hv]|Hdec].
    - rewrite A4, Hv in Hent. exists zeroApprovalContinuation. cbn in Hent. injection Hent as <-. done.
    - destruct Hdec as (Hf & Hv & d & c & e0 & Hd & D1 & D2 & D3 & D4 & Hc & Hfol & Hrest) eqn:Edec. clear Edec.
      rewrite A4, Hv, A1 in Hent. cbn in Hent. rewrite Hc in Hent. case_bool_decide; [done|].
      destruct (claim_is_live _ _); [done|]. injection Hent as <-. eexists. split; [done|]. split; [done|]. split.
      + split; [done|]. split; [done|]. by exists d, c, e0.
      + exists c. split; [done|]. unfold follows. rewrite A10, A1, A7. destruct Hfol as (F1 & F2 & F3 & F4 & F5 & F6).
        by split_and!. }
  assert (∀ k b, k ≠ ap_ID a → approvals s !! k = Some b → decided s b → ∀ key c, entry = Some (key, c) →
    key ≠ continuationKey (ap_ID b) 1) as Hother.
  { intros k b Hne Hb Hdec key c -> Ekey. destruct Hentry as (Hk & -> & Hda & c0 & Hc0 & _). rewrite Hk in Ekey, Hc0.
    pose proof (same_continuation s a b c0 Hda Hdec Hc0 (eq_sym Ekey)) as Hid.
    destruct (ai_approval _ I _ _ Hb) as (Hkb & _). congruence. }
  assert (∃ conts, (match entry with
               | Some (key, c) => s1 <| continuations := <[key := c]> (continuations s1) |>
               | None => s1 end) <| approvals := <[ap_ID a := a']> (approvals s1) |>
     = s <| outbox := outbox s1 |> <| outboxByKey := outboxByKey s1 |>
         <| continuations := conts |> <| approvals := <[ap_ID a := a']> (approvals s) |> ∧
     (∀ k b, k ≠ ap_ID a → approvals s !! k = Some b → decided s b →
        conts !! continuationKey (ap_ID b) 1 = continuations s !! continuationKey (ap_ID b) 1) ∧
     (∀ key c, entry = Some (key, c) → conts !! key = Some c)) as (conts & -> & Hconts & Hconts').
  { destruct entry as [[key c]|]; rewrite Hs1; cbn.
    - exists (<[key := c]> (continuations s)). split; [done|]. split.
      + intros k b Hne Hb Hdec. rewrite lookup_insert_ne; [done|]. by eapply Hother.
      + intros ? ? [= -> ->]. by rewrite lookup_insert_eq.
    - by exists (continuations s). }
  revert Io Mo Mk He' G2. rewrite Hs1. cbn. generalize (outbox s1) (outboxByKey s1). clear s1 Hs1. intros o ok Io Mo Mk He' G2.
  split; cbn.
  - split; cbn; apply Io.
  - intros k b [(<- & <-)|(Hne & Hb)]%lookup_insert_Some.
    + destruct Hst as [[Hp Hv]|Hdec].
      * eapply (approval_ok_mono s).
        { by eapply (approval_ok_pending s (ap_ID a) a a'). }
        all: cbn; try done. { intros Hd0. apply pending_not_decided in Hd0; [done|]. by rewrite A3. }
        intros k0 v Hv0. exists v. by split; [apply Mo|].
      * destruct entry as [[key c]|]; [|by apply (pending_not_decided _ _ Hentry) in Hdec].
        destruct Hentry as (-> & <- & _ & _ & _ & Hfol). destruct Hdec as (Hf & Hv & d & c0 & e0 & Hd & D1 & D2 & D3 & D4 & _).
        unfold approval_ok. rewrite A1, A2, A5, A6. split_and!; try done. right. unfold decided. cbn. rewrite A1, A3, A4.
        split; [done|]. split; [done|]. rewrite A1, A4, Hv in E4. cbn in E4.
        destruct Hfol as (F1 & F2 & F3 & F4 & F5 & F6). rewrite A10 in F6. cbn in F6.
        assert (decisionOutboxKey (ap_ID a) 1 (ac_ExecutionEpoch c) (decision_event_type (ac_Executor c))
          = oe_IdempotencyKey e) as Ekey by (by rewrite F4, F6, E4).
        exists d, c, e'. rewrite Ekey, He', G2, G1, F6, T1, T2, E2, E3, A1. split_and!; try done.
        -- by apply A9.
        -- by apply Hconts'.
        -- unfold follows. rewrite A10. by split_and!.
    + eapply approval_ok_mono; [by apply (ai_approval _ I)|..]; cbn; try done.
      * intros Hdec. by eapply Hconts.
      * intros k0 v Hv0. exists v. by split; [apply Mo|].
  - by eapply create_replace; [exact Ha|done|apply (ai_create _ I)].
  - intros i v Hd. destruct (ai_decision _ I _ _ Hd) as (Hi & Hkey & Hb). split; [done|]. split; [done|].
    eapply decision_replace; [exact Ha| |exact Hb]. by rewrite A3.
  - apply (ai_key _ I).
  - eapply primary_replace; [exact Ha|done| |apply (ai_primary _ I)]. by rewrite (primary_ext a a').
  - apply (ai_batch _ I).
Qed.

Lemma change_inv s s' : approval_inv s → change s s' → approval_inv s'.
Proof.
  intros I Hc. revert I. destruct Hc; intros I.
  - by apply create_inv.
  - by eapply decide_inv.
  - by apply bind_inv.
  - by eapply fallback_inv.
  - by apply batch_inv.
  - by eapply mark_inv.
Qed.
End preservation.

(** ** What changes leave *)

(** What an approval keeps for ever. *)
Definition approval_key (a : Approval) :=
  (ap_ID a, ap_IdempotencyKey a, ap_TenantID a, ap_UserID a, ap_SessionID a, ap_ArtifactType a, ap_Binding a,
   ap_ReviewMode a, ap_ApproveCommand a, ap_RejectCommand a, ap_CreatedAt a, ap_ExpiresAt a).

(** A decided approval stays decided as it is, a bound mapping stays, and the
    execution only moves from the interrupted runner to the fallback. *)
Definition approval_moves (a a' : Approval) : Prop :=
  approval_key a' = approval_key a ∧
  (ap_Status a ≠ StatusPending →
     ap_Status a' = ap_Status a ∧ ap_DecisionVersion a' = ap_DecisionVersion a ∧ ap_DecidedAt a' = ap_DecidedAt a) ∧
  (ap_CheckpointMappingID a ≠ "" →
     ap_CheckpointMappingID a' = ap_CheckpointMappingID a ∧ ap_MappingEpoch a' = ap_MappingEpoch a) ∧
  (ap_ExecutionMode a' = ap_ExecutionMode a ∨ ap_ExecutionMode a' = ExecutionModeDurableFallback).

#[global] Instance approval_moves_preorder : PreOrder approval_moves.
Proof.
  split; [intros a; repeat split; by left|]. intros a b c (K1 & S1 & M1 & E1) (K2 & S2 & M2 & E2).
  split; [congruence|]. split; [|split].
  - intros Hs. destruct (S1 Hs) as (Ea & Eb & Ec). rewrite <-Ea, <-Eb, <-Ec. apply S2. by rewrite Ea.
  - intros Hm. destruct (M1 Hm) as [Ea Eb]. rewrite <-Ea, <-Eb. apply M2. by rewrite Ea.
  - destruct E2 as [-> | ->]; [done|by right].
Qed.

Record approval_history (s s' : MemoryStore) : Prop := {
  ah_approvals : ∀ k a, approvals s !! k = Some a → ∃ a', approvals s' !! k = Some a' ∧ approval_moves a a';
  ah_decisions : ∀ id d, decisions s !! id = Some d → decisions s' !! id = Some d;
  ah_keys : ∀ key id, decisionByKey s !! key = Some id → decisionByKey s' !! key = Some id;
  ah_outbox : ∀ k e, outbox s !! k = Some e → ∃ e', outbox s' !! k = Some e' ∧ event_key e' = event_key e ∧
    (oe_Status e ≠ OutboxStatusPending → e' = e);
  ah_batches : ∀ k b, candidateBatches s !! k = Some b → candidateBatches s' !! k = Some b
}.

#[global] Instance approval_history_preorder : PreOrder approval_history.
Proof.
  split; [intros s; split; eauto; intros k a Ha; exists a; by split|].
  intros s1 s2 s3 X1 X2. destruct X1 as [A1 D1 K1 O1 B1], X2 as [A2 D2 K2 O2 B2]. split; eauto.
  - intros k a (b & Hb & Hm)%A1. destruct (A2 _ _ Hb) as (c & Hc & Hm2). exists c. split; [done|by etrans].
  - intros k e (e2 & He2 & Hk & Hs)%O1. destruct (O2 _ _ He2) as (e3 & He3 & Hk3 & Hs3). exists e3. split; [done|].
    split; [congruence|]. intros Hp. pose proof (Hs Hp) as ->. by apply Hs3.
Qed.

Lemma approvals_moved s k a a' :
  approvals s !! k = Some a → approval_moves a a' →
  ∀ k0 b, approvals s !! k0 = Some b → ∃ b', <[k := a']> (approvals s) !! k0 = Some b' ∧ approval_moves b b'.
Proof.
  intros Ha Hm k0 b Hb. destruct (base.decide (k = k0)) as [->|Hne].
  - exists a'. rewrite lookup_insert_eq. split; [done|]. congruence.
  - exists b. by rewrite lookup_insert_ne by done.
Qed.

Lemma outbox_unmoved s s' :
  (∀ k e, outbox s !! k = Some e → outbox s' !! k = Some e) →
  ∀ k e, outbox s !! k = Some e → ∃ e', outbox s' !! k = Some e' ∧ event_key e' = event_key e ∧
    (oe_Status e ≠ OutboxStatusPending → e' = e).
Proof. intros Ho k e He. exists e. by split; [apply Ho|]. Qed.

Section histories.
Context `{Codec} `{ApprovalCodec}.

Lemma change_history s s' : approval_inv s → change s s' → approval_history s s'.
Proof.
  intros I Hc. revert I. destruct Hc as [s a Htr Hne Hn Hk Hp Hv Hm Hc1 Hc2 Hpr|s a request a' d c e s1 Ha Hk Ht Hprep Hd Happ
    |s a mapping epoch now Ha Hr Hp Hmap|s a a' entry e s1 now Ha Hr Ha' Hent Hev Happ|s b Hn Hk N1 N2|s k e e' He Hkey Hst]; intros I.
  - split; cbn; eauto using outbox_unmoved.
    intros k b Hb. exists b. rewrite lookup_insert_ne by congruence. by split.
  - pose proof (prepared _ _ _ _ _ _ _ _ (ai_approval _ I _ _ Ha) Ht Hprep)
      as (Hp & _ & _ & Ha' & _ & _ & _ & _ & _ & _ & _ & _ & E1 & _).
    destruct (appendOutbox_Ok _ _ _ Happ E1 (ai_outbox _ I)) as (_ & _ & Mo & _ & Hs1). clear Happ Hprep.
    revert Mo Hd. rewrite Hs1. cbn. generalize (outbox s1). clear Hs1. intros o Mo Hd. split; cbn; eauto using outbox_unmoved.
    + eapply approvals_moved; [done|]. rewrite Ha'. split; [done|]. split; [by intros []|]. split; [done|]. by left.
    + intros i v Hv0. rewrite lookup_insert_ne; [done|congruence].
    + intros i v Hv0. rewrite lookup_insert_ne; [done|congruence].
  - split; cbn; eauto using outbox_unmoved.
    eapply approvals_moved; [done|]. split; [done|]. split; [done|]. split; [by rewrite Hmap|]. by left.
  - apply newFallbackOutbox_Ok in Hev as (E1 & _).
    destruct (appendOutbox_Ok _ _ _ Happ E1 (ai_outbox _ I)) as (_ & _ & Mo & _ & Hs1). clear Happ.
    assert (approval_moves a a') as Hmv by (rewrite Ha'; split; [done|]; split; [done|]; split; [done|]; by right).
    clear Hent. destruct entry as [[key c]|]; revert Mo; rewrite Hs1; cbn; generalize (outbox s1); clear Hs1; intros o Mo;
      split; cbn; eauto using outbox_unmoved, approvals_moved.
  - split; cbn; eauto using outbox_unmoved.
    + intros k a Ha. by exists a.
    + intros k c Hb. rewrite lookup_insert_ne; [done|congruence].
  - split; cbn; eauto.
    + intros k0 a Ha. by exists a.
    + intros k0 v Hv0. destruct (base.decide (k = k0)) as [->|Hne].
      * exists e'. rewrite lookup_insert_eq. split; [done|]. assert (v = e) as -> by congruence. done.
      * exists v. by rewrite lookup_insert_ne by done.
Qed.
End histories.
