(* ===== verification/ApprovalRuns.v ===== *)
(** * Approvals: theorems about runs of the store

    Every run of the store's commands keeps the invariant; one decision per
    approval, taken on what was reviewed; replays; one primary review per session;
    the fallback. *)

From Stdlib Require Import ZArith Lia.
From S2P Require Import Prelude GoJson SessionModels SessionStore SessionRuns.
From S2P Require Import ApprovalModels ApprovalStore ApprovalProps.

Section runs.
Context `{Codec} `{ApprovalCodec} `{Clock} {X : Type}.
Implicit Types (w : aworld X) (s : MemoryStore).

Definition a_only {A} (c : Eff (aworld X) (result A)) : Eff (aworld X) (option error) :=
  let* r := c in ret (match r with Ok _ => None | Err e => Some e end).

Definition run_command (c : approval_command) : Eff (aworld X) (option error) :=
  match c with
  | ACreate requested => a_only (Create requested)
  | AGet approvalID => a_only (Get approvalID)
  | AGetPending sessionID => a_only (GetPendingPrimaryReviewBySession sessionID)
  | AGetDecision approvalID decisionVersion => a_only (GetDecision approvalID decisionVersion)
  | ACreateBatch requested => a_only (CreateCandidateApprovalBatch requested)
  | AGetBatch idempotencyKey => a_only (GetCandidateApprovalBatchByKey idempotencyKey)
  | ADecide command => a_only (Decide command)
  | AClose command => a_only (Close command)
  | ABind command => a_only (BindInterruptMapping command)
  | AFallback command => a_only (SwitchToDurableFallback command)
  | AGetContinuation approvalID decisionVersion => a_only (GetContinuation approvalID decisionVersion)
  | AListOutbox status limit => a_only (ListOutbox status limit)
  | AMarkPublished eventID at_ => a_only (MarkOutboxPublished eventID at_)
  | AMarkFailed eventID at_ maxAttempts => a_only (MarkOutboxFailed eventID at_ maxAttempts)
  end.

(** A computation that leaves the store or makes one change. *)
Definition changes {A} (c : Eff (aworld X) A) : Prop :=
  ∀ w a w', approval_inv (aw_store w) → c w = (a, w') →
    aw_store w' = aw_store w ∨ change (aw_store w) (aw_store w').

Lemma changes_ret {A} (a : A) : changes (ret a).
Proof. intros w b w' _ [= _ <-]. by left. Qed.

Lemma changes_now {A} (k : Time → Eff (aworld X) A) : (∀ t, changes (k t)) → changes (let* t := a_now in k t).
Proof. intros Hk w a w' Hi E. unfold bind, a_now in E. by apply (Hk _ (mkAWorld (aw_store w) (S (aw_reads w)) (aw_ext w)) a w' Hi) in E. Qed.

Lemma changes_get {A} (k : MemoryStore → Eff (aworld X) A) :
  (∀ w a w', approval_inv (aw_store w) → k (aw_store w) w = (a, w') →
     aw_store w' = aw_store w ∨ change (aw_store w) (aw_store w')) → changes (let* s := a_get in k s).
Proof. intros Hk w a w' Hi E. unfold bind, a_get in E. by apply (Hk w a w' Hi). Qed.

Lemma commit_change {A} s (v : A) w a w' :
  a_commit s v w = (a, w') → change (aw_store w) s → aw_store w' = aw_store w ∨ change (aw_store w) (aw_store w').
Proof. unfold a_commit, bind, a_put, ret. intros [= _ <-] Hc. by right. Qed.

Lemma ret_change {A} (v : A) w a w' :
  ret v w = (a, w') → aw_store w' = aw_store w ∨ change (aw_store w) (aw_store w').
Proof. intros [= _ <-]. by left. Qed.

Lemma changes_only {A} (c : Eff (aworld X) (result A)) : changes c → changes (a_only c).
Proof.
  intros Hc w a w' Hi E. unfold a_only, bind in E. destruct (c w) as [r w1] eqn:Ec. injection E as _ <-.
  by apply (Hc w r w1).
Qed.

Lemma pending_primary_None s sid :
  pending_primary s sid = None → ∀ k b, approvals s !! k = Some b → ap_SessionID b = sid → isPrimaryReviewApproval b = false.
Proof.
  unfold pending_primary. intros E k b Hb Hs. destruct (List.find _ _) as [p|] eqn:Ef; [discriminate E|].
  pose proof (List.find_none _ _ Ef (k, b)) as Hn. cbn in Hn.
  rewrite bool_decide_true in Hn by done. apply Hn, list_elem_of_In. by apply elem_of_map_to_list.
Qed.

Lemma Create_changes requested : changes (Create requested).
Proof.
  apply changes_now. intros now. apply changes_now. intros clock.
  destruct (normalizeApproval requested now clock) as [a|e] eqn:En; [|apply changes_ret].
  apply normalizeApproval_Ok in En as (Htr & Hne & Hp & Hv & Hm & Hc1 & Hc2).
  apply changes_get. intros w r w' Hi E. cbv zeta in E.
  destruct (approvals _ !! _) eqn:E1; [destruct (negb _); by apply ret_change in E|].
  destruct (approvalByCreateKey _ !! _) eqn:E2; [destruct (_ || _); by apply ret_change in E|].
  destruct (if isPrimaryReviewApproval a then _ else _) eqn:E3; [by apply ret_change in E|].
  apply (commit_change _ _ _ _ _ E). apply ch_create; try done.
  intros Hpr k b Hb Hs. rewrite Hpr in E3. by eapply pending_primary_None.
Qed.

Lemma normalize_targets_NoDup targets sa sb out :
  normalize_targets targets sa sb = Ok out →
  NoDup (bt_ApprovalID <$> out) ∧ NoDup (bt_BindingID <$> out) ∧
  (∀ t, t ∈ out → bt_ApprovalID t ∉ sa ∧ bt_BindingID t ∉ sb).
Proof.
  revert sa sb out. induction targets as [|t targets IH]; intros sa sb out; cbn.
  { intros [= <-]. split; [constructor|]. split; [constructor|]. set_solver. }
  destruct (_ || _); [done|]. case_bool_decide as Ha; [done|]. case_bool_decide as Hb; [done|].
  destruct (normalize_targets targets _ _) as [rest|e] eqn:Er; [|done]. intros [= <-].
  destruct (IH _ _ _ Er) as (N1 & N2 & Hout). cbn. split_and!.
  - constructor; [|done]. intros (t' & E & Hin)%list_elem_of_fmap. destruct (Hout _ Hin) as [Hx _]. set_solver.
  - constructor; [|done]. intros (t' & E & Hin)%list_elem_of_fmap. destruct (Hout _ Hin) as [_ Hx]. set_solver.
  - intros t' [->|Hin]%elem_of_cons; [done|]. destruct (Hout _ Hin). set_solver.
Qed.

Lemma normalizeBatch_Ok v now clock b :
  normalizeCandidateApprovalBatch v now clock = Ok b →
  NoDup (bt_ApprovalID <$> cb_Targets b) ∧ NoDup (bt_BindingID <$> cb_Targets b).
Proof.
  unfold normalizeCandidateApprovalBatch. cbv zeta. destruct (_ || _); [done|]. destruct (_ <=? 0); [done|].
  destruct (negb _); [done|]. destruct (bool_decide _); [done|].
  destruct (normalize_targets _ ∅ ∅) as [out|e] eqn:Et; [|done]. intros [= <-]. cbn.
  by destruct (normalize_targets_NoDup _ _ _ _ Et) as (? & ? & _).
Qed.

Lemma CreateBatch_changes requested : changes (CreateCandidateApprovalBatch requested).
Proof.
  apply changes_now. intros now. apply changes_now. intros clock.
  destruct (normalizeCandidateApprovalBatch requested now clock) as [b|e] eqn:En; [|apply changes_ret].
  apply normalizeBatch_Ok in En as [N1 N2]. apply changes_get. intros w r w' Hi E. cbv zeta in E.
  destruct (candidateBatches _ !! _) eqn:E1; [destruct (negb _); by apply ret_change in E|].
  destruct (candidateBatchByKey _ !! _) eqn:E2; [destruct (negb _); by apply ret_change in E|].
  apply (commit_change _ _ _ _ _ E). by apply ch_batch.
Qed.

(** A request that can be made: it does not claim to close as approved. *)
Definition askable (request : decisionRequest) : Prop :=
  rq_TerminalStatus request ∉ [StatusApproved; StatusRejected].

Lemma decide_changes request : askable request → changes (decide request).
Proof.
  intros Hask. apply changes_get. intros w r w' Hi E. cbv zeta in E.
  destruct (decisionByKey _ !! _) eqn:Ek; [destruct (negb _); by apply ret_change in E|].
  destruct (approvals _ !! _) as [a|] eqn:Ea; [|by apply ret_change in E].
  destruct (prepareDecision a request) as [[[[a' d] c] e]|err] eqn:Ep; [|by apply ret_change in E].
  destruct (ai_approval _ Hi _ _ Ea) as (Hid & Hok). rewrite <-Hid in Ea.
  destruct (prepared _ _ _ _ _ _ _ _ (ai_approval _ Hi _ _ Ea) Hask Ep) as (_ & _ & Hid' & _ & _ & _ & _ & _ & _ & D3 & _).
  rewrite Hid' in E. destruct (decisions _ !! _) eqn:Ed; [by apply ret_change in E|].
  destruct (appendOutboxLocked _ e) as [s1|err] eqn:Eo; [|by apply ret_change in E].
  rewrite D3 in E. apply (commit_change _ _ _ _ _ E). by eapply ch_decide.
Qed.

Lemma normalizeDecisionRequest_Ok r clock r' :
  normalizeDecisionRequest r clock = Ok r' →
  r' = r <| rq_ApprovalID := TrimSpace (rq_ApprovalID r) |> <| rq_IdempotencyKey := TrimSpace (rq_IdempotencyKey r) |>
         <| rq_RequestedDecision := TrimSpace (rq_RequestedDecision r) |> <| rq_ActorID := TrimSpace (rq_ActorID r) |>
         <| rq_Reason := TrimSpace (rq_Reason r) |> <| rq_Now := timeOr (rq_Now r) clock |>.
Proof. unfold normalizeDecisionRequest. cbv zeta. destruct (_ || _); [done|]. destruct (_ <? 0); [done|]. by intros [= <-]. Qed.

Lemma command_askable command clock request : decisionRequestFromCommand command clock = Ok request → askable request.
Proof.
  unfold decisionRequestFromCommand. destruct (_ && _); [done|]. intros ->%normalizeDecisionRequest_Ok.
  unfold askable. cbn. apply (bool_decide_eq_false ("" ∈ [StatusApproved; StatusRejected])). reflexivity.
Qed.

Lemma close_askable command clock request : decisionRequestFromClose command clock = Ok request → askable request.
Proof.
  unfold decisionRequestFromClose. destruct (_ && _) eqn:E; [done|]. intros ->%normalizeDecisionRequest_Ok.
  unfold askable. cbn. intros Hin.
  apply andb_false_iff in E as [[E|E]%andb_false_iff|E]; apply negb_false_iff, bool_decide_eq_true in E; rewrite E in Hin;
    apply elem_of_cons in Hin as [?|[?|Hin]%elem_of_cons]; try discriminate; by apply elem_of_nil in Hin.
Qed.

Lemma Decide_changes command : changes (Decide command).
Proof.
  apply changes_now. intros clock. destruct (decisionRequestFromCommand command clock) eqn:E; [|apply changes_ret].
  by eapply decide_changes, command_askable.
Qed.

Lemma Close_changes command : changes (Close command).
Proof.
  apply changes_now. intros clock. destruct (decisionRequestFromClose command clock) eqn:E; [|apply changes_ret].
  by eapply decide_changes, close_askable.
Qed.

Lemma Bind_changes command : changes (BindInterruptMapping command).
Proof.
  unfold BindInterruptMapping. cbv zeta. destruct (_ || _); [apply changes_ret|].
  apply changes_get. intros w r w' Hi E. cbv zeta in E. destruct (approvals _ !! _) as [a|] eqn:Ea; [|by apply ret_change in E].
  destruct (ai_approval _ Hi _ _ Ea) as (Hid & _). rewrite <-Hid in Ea.
  case_bool_decide as Hr; cbn [negb] in E; [|by apply ret_change in E].
  case_bool_decide as Hp; cbn [negb orb] in E; [|by apply ret_change in E].
  destruct (negb _); [by apply ret_change in E|]. destruct (negb (_ =? _)); [by apply ret_change in E|].
  case_bool_decide as Hm; cbn [negb] in E; [|destruct (_ && _); by apply ret_change in E].
  unfold bind at 1, a_now in E. apply commit_change in E; [exact E|]. exact (ch_bind _ a _ _ _ Ea Hr Hp Hm).
Qed.

Lemma Fallback_changes command : changes (SwitchToDurableFallback command).
Proof.
  unfold SwitchToDurableFallback. cbv zeta. destruct (_ || _); [apply changes_ret|].
  generalize (if bool_decide (fb_ExpectedExecutionMode (command <| fb_ApprovalID := TrimSpace (fb_ApprovalID command) |>) = "")
    then (command <| fb_ApprovalID := TrimSpace (fb_ApprovalID command) |>) <| fb_ExpectedExecutionMode := ExecutionModeInterrupt |>
    else command <| fb_ApprovalID := TrimSpace (fb_ApprovalID command) |>). intros cmd.
  apply changes_now. intros clock. generalize (timeOr (fb_Now cmd) clock). intros now.
  apply changes_get. intros w r w' Hi E. cbv zeta in E.
  destruct (approvals _ !! _) as [a|] eqn:Ea; [|by apply ret_change in E].
  destruct (ai_approval _ Hi _ _ Ea) as (Hid & _). rewrite <-Hid in Ea.
  case_bool_decide as Hr; cbn [negb] in E; [|by apply ret_change in E].
  destruct (_ && _); [by apply ret_change in E|]. destruct (_ || _); [by apply ret_change in E|].
  match type of E with context [fallback_continuation _ ?x _] => remember x as a' eqn:Ha' end.
  assert (ap_ID a' = ap_ID a) as Hida by (by rewrite Ha').
  destruct (fallback_continuation _ _ _) as [entry|err] eqn:Ent; [|by apply ret_change in E].
  destruct (newFallbackOutbox _ _ _) as [e|err] eqn:Ee; [|by apply ret_change in E].
  destruct (appendOutboxLocked _ _) as [s1|err] eqn:Eo; [|by apply ret_change in E].
  apply commit_change in E; [exact E|]. rewrite Hida.
  replace (approvals (match entry with Some (key, continuation) => _ | None => s1 end)) with (approvals s1)
    by (by destruct entry as [[key c]|]).
  by eapply ch_fallback.
Qed.

Lemma Mark_changes eventID at_ : changes (MarkOutboxPublished eventID at_).
Proof.
  unfold MarkOutboxPublished. cbv zeta. destruct (bool_decide _); [apply changes_ret|].
  apply changes_now. intros clock. apply changes_get. intros w r w' Hi E. cbv zeta in E.
  destruct (outbox _ !! _) as [e|] eqn:Eo; [|by apply ret_change in E].
  case_bool_decide; [by apply ret_change in E|].
  case_bool_decide as Hp; cbn [negb] in E; [|by apply ret_change in E].
  apply commit_change in E; [exact E|]. by eapply ch_mark.
Qed.

Lemma MarkFailed_changes eventID at_ maxAttempts : changes (MarkOutboxFailed eventID at_ maxAttempts).
Proof.
  unfold MarkOutboxFailed. cbv zeta. apply changes_now. intros clock. apply changes_get. intros w r w' Hi E. cbv zeta in E.
  destruct (outbox _ !! _) as [e|] eqn:Eo; [|by apply ret_change in E].
  case_bool_decide as Hp; cbn [negb] in E; [|by apply ret_change in E].
  destruct (outbox_event _ (ai_outbox _ Hi) _ _ Eo) as (Hid & _).
  apply commit_change in E; [exact E|]. rewrite <-Hid in Eo.
  destruct (_ && _); cbn; by eapply ch_mark.
Qed.

Lemma run_command_changes c : changes (run_command c).
Proof.
  destruct c; cbn [run_command]; apply changes_only;
    eauto using Create_changes, CreateBatch_changes, Decide_changes, Close_changes, Bind_changes, Fallback_changes,
      Mark_changes, MarkFailed_changes.
  - apply changes_get. intros w r w' _ E. destruct (approvals _ !! _); by apply ret_change in E.
  - unfold GetPendingPrimaryReviewBySession. destruct (bool_decide _); [apply changes_ret|].
    apply changes_get. intros w r w' _ E. destruct (pending_primary _ _); by apply ret_change in E.
  - apply changes_get. intros w r w' _ E. destruct (decisions _ !! _); by apply ret_change in E.
  - apply changes_get. intros w r w' _ E. destruct (candidateBatchByKey _ !! _); by apply ret_change in E.
  - apply changes_get. intros w r w' _ E. destruct (continuations _ !! _); by apply ret_change in E.
  - apply changes_get. intros w r w' _ E. by apply ret_change in E.
Qed.

(** ** Runs *)

Inductive approval_step : aworld X → aworld X → Prop :=
| step_command c w e w' : run_command c w = (e, w') → approval_step w w'
| step_outside w n x : approval_step w (mkAWorld (aw_store w) n x).

Definition approval_reachable w : Prop := ∃ w0, aw_store w0 = NewMemoryStore ∧ rtc approval_step w0 w.

Lemma step_inv w w' :
  approval_step w w' → approval_inv (aw_store w) →
  approval_inv (aw_store w') ∧ approval_history (aw_store w) (aw_store w').
Proof.
  intros Hs. destruct Hs as [c w e w' E|w n x]; intros Hi; [|by split].
  destruct (run_command_changes c w e w' Hi E) as [->|Hc]; [by split|].
  split; [by eapply change_inv|by apply change_history].
Qed.

Lemma run_inv w w' :
  rtc approval_step w w' → approval_inv (aw_store w) →
  approval_inv (aw_store w') ∧ approval_history (aw_store w) (aw_store w').
Proof.
  intros Hr. induction Hr as [w|w w1 w' Hs Hr IH]; intros Hi; [by split|].
  destruct (step_inv _ _ Hs Hi) as [Hi1 Hh1]. destruct (IH Hi1) as [Hi2 Hh2]. split; [done|by etrans].
Qed.

Lemma approval_reachable_inv w : approval_reachable w → approval_inv (aw_store w).
Proof. intros (w0 & Hw0 & Hr). apply (run_inv _ _ Hr). rewrite Hw0. apply initial_approval_inv. Qed.

Lemma run_history w w' : approval_reachable w → rtc approval_step w w' → approval_history (aw_store w) (aw_store w').
Proof. intros Hi%approval_reachable_inv Hr. by apply (run_inv _ _ Hr). Qed.

(** ** Primary reviews *)

Lemma pending_primary_Some s sid k a :
  approval_inv s → approvals s !! k = Some a → ap_SessionID a = sid → isPrimaryReviewApproval a = true →
  pending_primary s sid = Some a.
Proof.
  intros Hi Ha Hs Hp. destruct (pending_primary s sid) as [b|] eqn:E.
  - unfold pending_primary in E. destruct (List.find _ _) as [[k' b']|] eqn:Ef; [|done]. injection E as ->.
    apply List.find_some in Ef as [Hin%list_elem_of_In%elem_of_map_to_list [Hsb%bool_decide_eq_true Hpb]%andb_prop].
    assert (k = k') as <- by (apply (ai_primary _ Hi _ _ _ _ Ha Hin); congruence). congruence.
  - by rewrite (pending_primary_None _ _ E _ _ Ha Hs) in Hp.
Qed.

(** In every store that the approval service can reach, a session has at most
    one pending primary review -- the review of a creation spec or of a storyboard;
    the query for it finds it; and as long as it is pending, no other primary
    review of the session can be created: the attempt is refused and names it,
    unless it repeats an approval that exists. *)
Theorem one_pending_primary_review w k a :
  approval_reachable w → approvals (aw_store w) !! k = Some a → isPrimaryReviewApproval a = true →
  (∀ k' b, approvals (aw_store w) !! k' = Some b → isPrimaryReviewApproval b = true →
     ap_SessionID b = ap_SessionID a → k' = k) ∧
  (∀ sid, TrimSpace sid ≠ "" → TrimSpace sid = ap_SessionID a → GetPendingPrimaryReviewBySession sid w = (Ok a, w)) ∧
  ∀ requested b,
    normalizeApproval requested (now_at (aw_reads w)) (now_at (S (aw_reads w))) = Ok b →
    isPrimaryReviewApproval b = true → ap_SessionID b = ap_SessionID a →
    approvals (aw_store w) !! ap_ID b = None → approvalByCreateKey (aw_store w) !! ap_IdempotencyKey b = None →
    ∃ e w', Create requested w = (Err e, w') ∧ errors_Is e ErrPrimaryReviewPending = true ∧ aw_store w' = aw_store w.
Proof.
  intros Hi%approval_reachable_inv Ha Hp. split; [|split].
  - intros k' b Hb Hpb Hs. by apply (ai_primary _ Hi _ _ _ _ Hb Ha).
  - intros sid Hne Hs. unfold GetPendingPrimaryReviewBySession. cbv zeta. rewrite bool_decide_false by done.
    unfold bind, a_get. by rewrite (pending_primary_Some _ _ k a Hi Ha).
  - intros requested b Hn Hpb Hs Hid Hkey. unfold Create, bind, a_now. cbn [aw_reads]. rewrite Hn. unfold a_get. cbn [aw_store].
    rewrite Hid, Hkey, Hpb. rewrite (pending_primary_Some _ _ k a Hi Ha) by done.
    eexists _, _. split; [reflexivity|]. split; [|reflexivity]. unfold errors_Is, Wrapf. cbn.
    by rewrite bool_decide_true by set_solver.
Qed.

(** ** Decisions *)

(** The result of a decision, stored and answerable. *)
Lemma decisionResult_Ok s d b :
  approval_inv s → decisions s !! continuationKey (ad_ApprovalID d) 1 = Some d →
  ∃ r, decisionResultLocked s d b = Ok r ∧ dr_Decision r = d ∧ dr_Created r = b ∧
    approvals s !! ad_ApprovalID d = Some (dr_Approval r) ∧ ap_ID (dr_Approval r) = ad_ApprovalID d ∧
    ap_Status (dr_Approval r) = ad_EffectiveStatus d.
Proof.
  intros Hi Hd. destruct (ai_decision _ Hi _ _ Hd) as (_ & _ & a & Ha & Hp).
  destruct (ai_approval _ Hi _ _ Ha) as (Hid & _ & _ & _ & _ & _ & _ & [[? _]|Hdec]); [done|].
  destruct Hdec as (Hf & Hv & d' & c & e & Hd' & D1 & D2 & D3 & D4 & Hc & Hfol & He & Hk & He1 & He2).
  rewrite Hid in *. assert (d' = d) as -> by congruence.
  unfold decisionResultLocked. rewrite Ha, D2, Hc.
  change (default zeroApproval (Some a)) with a. change (default zeroApprovalContinuation (Some c)) with c.
  unfold currentOutboxLocked. rewrite Hid, Hv. unfold outbox_at. rewrite Hk.
  eexists. split; [reflexivity|]. done.
Qed.

(** An accepted decision is on record under its key. *)
Lemma decide_Ok request w r w1 :
  askable request → approval_inv (aw_store w) → decide request w = (Ok r, w1) →
  ad_ApprovalID (dr_Decision r) = ap_ID (dr_Approval r) ∧
  decisionByKey (aw_store w1) !! rq_IdempotencyKey request = Some (continuationKey (ad_ApprovalID (dr_Decision r)) 1) ∧
  decisions (aw_store w1) !! continuationKey (ad_ApprovalID (dr_Decision r)) 1 = Some (dr_Decision r) ∧
  sameDecisionRequest (dr_Decision r) request = true.
Proof.
  intros Hask Hi E. unfold decide, bind at 1, a_get in E.
  destruct (decisionByKey _ !! _) as [id|] eqn:Ek.
  - cbv zeta in E. destruct (negb _) eqn:En; [discriminate E|]. apply negb_false_iff in En.
    destruct (ai_key _ Hi _ _ Ek) as (d & Hd & _). rewrite Hd in E, En. cbn in E, En.
    destruct (ai_decision _ Hi _ _ Hd) as (-> & _).
    destruct (decisionResult_Ok _ d false Hi Hd) as (r' & Hr & Hrd & _ & _ & Hid & _).
    unfold ret in E. rewrite Hr in E. injection E as -> <-. rewrite Hrd. by rewrite Hid.
  - destruct (approvals _ !! _) as [a|] eqn:Ea; [|discriminate E].
    destruct (prepareDecision a request) as [[[[a' d] c] e]|err] eqn:Ep; [|discriminate E].
    destruct (ai_approval _ Hi _ _ Ea) as (Hida & _).
    destruct (prepared _ _ _ _ _ _ _ _ (ai_approval _ Hi _ _ Ea) Hask Ep)
      as (_ & _ & Hid' & _ & _ & _ & Hv & D1 & _ & D3 & _).
    rewrite Hid', Hv in E. destruct (decisions _ !! _) eqn:Ed; [discriminate E|].
    destruct (appendOutboxLocked _ e) as [s1|err] eqn:Eo; [|discriminate E].
    unfold a_commit, bind, a_put, ret in E. injection E as Hr Hw. rewrite <-Hr, <-Hw. cbn. rewrite D1, D3, !lookup_insert_eq.
    split; [done|]. split; [done|]. split; [done|].
    apply prepareDecision_Ok in Ep as (_ & _ & sel & _ & _ & -> & _).
    destruct (new_decision_fields a request (effective_status a request) sel)
      as (F1 & _ & _ & F4 & _ & F6 & _ & F8 & F9 & _).
    unfold sameDecisionRequest. rewrite F1, F4, F6, F8, F9, Hida, !bool_decide_true by done. cbn.
    destruct (rq_ObservedBinding request); [by apply bool_decide_true|done].
Qed.

Lemma same_request_now d request t : sameDecisionRequest d (request <| rq_Now := t |>) = sameDecisionRequest d request.
Proof. reflexivity. Qed.

Lemma request_now command clock clock' t request :
  decisionRequestFromCommand command clock = Ok request →
  decisionRequestFromCommand (command <| dc_Now := t |>) clock' = Ok (request <| rq_Now := timeOr t clock' |>).
Proof.
  unfold decisionRequestFromCommand. cbn. destruct (_ && _); [done|].
  unfold normalizeDecisionRequest. cbn. destruct (_ || _); [done|]. destruct (_ <? 0); [done|]. by intros [= <-].
Qed.

(** Of a decided approval. *)
Lemma decide_again s a request :
  approvals s !! rq_ApprovalID request = Some a → ap_Status a ≠ StatusPending →
  decisionByKey s !! rq_IdempotencyKey request = None →
  ∀ w, aw_store w = s → decide request w = (Err ErrAlreadyDecided, w).
Proof.
  intros Ha Hp Hk w <-. unfold decide, bind, a_get. rewrite Hk, Ha. unfold prepareDecision.
  by rewrite bool_decide_false by done.
Qed.

(** Of a decision on record. *)
Lemma decide_replay s request key d :
  decisionByKey s !! rq_IdempotencyKey request = Some key → decisions s !! key = Some d →
  sameDecisionRequest d request = true →
  ∀ w, aw_store w = s → decide request w = (decisionResultLocked s d false, w).
Proof.
  intros Hk Hd Hs w <-. unfold decide, bind, a_get. rewrite Hk, Hd. cbn. by rewrite Hs.
Qed.

(** Of a decision on record, asked for in other words. *)
Lemma decide_conflict s request key d :
  decisionByKey s !! rq_IdempotencyKey request = Some key → decisions s !! key = Some d →
  sameDecisionRequest d request = false →
  ∀ w, aw_store w = s → ∃ e, errors_Is e ErrIdempotencyConflict = true ∧ decide request w = (Err e, w).
Proof.
  intros Hk Hd Hs w <-. unfold decide, bind, a_get. rewrite Hk, Hd. cbn. rewrite Hs. eexists. split; [|reflexivity]. reflexivity.
Qed.

(** *** The two ways to decide *)

(** A decision is asked for by a person, or the approval is closed without one. *)
Inductive verdict := ByDecide (command : DecideCommand) | ByClose (command : CloseCommand).

Definition run_verdict (v : verdict) : Eff (aworld X) (result DecisionResult) :=
  match v with ByDecide command => Decide command | ByClose command => Close command end.
Definition verdict_request (v : verdict) (clock : Time) : result decisionRequest :=
  match v with
  | ByDecide command => decisionRequestFromCommand command clock
  | ByClose command => decisionRequestFromClose command clock
  end.
(** The same, asked at another time. *)
Definition at_time (v : verdict) (t : Time) : verdict :=
  match v with
  | ByDecide command => ByDecide (command <| dc_Now := t |>)
  | ByClose command => ByClose (command <| xc_Now := t |>)
  end.

Lemma run_verdict_eq v w :
  run_verdict v w = match verdict_request v (now_at (aw_reads w)) with
                    | Err err => (Err err, mkAWorld (aw_store w) (S (aw_reads w)) (aw_ext w))
                    | Ok request => decide request (mkAWorld (aw_store w) (S (aw_reads w)) (aw_ext w))
                    end.
Proof.
  destruct v; cbn [run_verdict verdict_request]; unfold Decide, Close, bind at 1, a_now; by case_match.
Qed.

Lemma verdict_changes v : changes (run_verdict v).
Proof. destruct v; [apply Decide_changes|apply Close_changes]. Qed.

Lemma verdict_askable v clock request : verdict_request v clock = Ok request → askable request.
Proof. destruct v; [apply command_askable|apply close_askable]. Qed.

Lemma verdict_now v clock clock' t request :
  verdict_request v clock = Ok request →
  verdict_request (at_time v t) clock' = Ok (request <| rq_Now := timeOr t clock' |>).
Proof.
  destruct v; [apply request_now|]. cbn [verdict_request at_time]. unfold decisionRequestFromClose. cbn.
  destruct (_ && _); [done|]. unfold normalizeDecisionRequest. cbn. destruct (_ || _); [done|]. destruct (_ <? 0); [done|].
  by intros [= <-].
Qed.

(** What a request asks for is what a decision was taken on. *)
Record asks_same (d : ApprovalDecision) (request : decisionRequest) : Prop := {
  as_approval : rq_ApprovalID request = ad_ApprovalID d;
  as_decision : rq_RequestedDecision request = ad_RequestedDecision d;
  as_actor : rq_ActorID request = ad_ActorID d;
  as_reason : rq_Reason request = ad_Reason d;
  as_observed : rq_ObservedBinding request = ad_ObservedBinding d
}.

Lemma sameDecisionRequest_spec d request : sameDecisionRequest d request = true ↔ asks_same d request.
Proof.
  unfold sameDecisionRequest. split.
  - destruct (_ || _) eqn:E; [done|]. rewrite !orb_false_iff, !negb_false_iff, !bool_decide_eq_true in E.
    destruct E as (((E1 & E2) & E3) & E4). intros Hb. split; try done.
    destruct (ad_ObservedBinding d), (rq_ObservedBinding request); try done. by apply bool_decide_eq_true in Hb as ->.
  - intros [-> -> -> -> ->]. rewrite !bool_decide_true by done. cbn. destruct (ad_ObservedBinding d); [|done]. by apply bool_decide_true.
Qed.

(** A further request on a decided approval, or under the key of its decision. *)
Lemma decide_decided s d request w :
  approval_inv s → aw_store w = s → decisions s !! continuationKey (ad_ApprovalID d) 1 = Some d →
  rq_ApprovalID request = ad_ApprovalID d ∨ rq_IdempotencyKey request = ad_IdempotencyKey d →
  (rq_IdempotencyKey request = ad_IdempotencyKey d ∧ asks_same d request ∧
     ∃ r, decide request w = (Ok r, w) ∧ dr_Decision r = d ∧ dr_Created r = false) ∨
  (¬ (rq_IdempotencyKey request = ad_IdempotencyKey d ∧ asks_same d request) ∧
     ∃ e, decide request w = (Err e, w) ∧ (e = ErrAlreadyDecided ∨ errors_Is e ErrIdempotencyConflict = true)).
Proof.
  intros Hi Hw Hd Hon. destruct (ai_decision _ Hi _ _ Hd) as (_ & Hkey & a & Ha & Hp).
  destruct (decisionByKey s !! rq_IdempotencyKey request) as [id|] eqn:Ek.
  - destruct (ai_key _ Hi _ _ Ek) as (d' & Hd' & Hdk).
    destruct (base.decide (rq_IdempotencyKey request = ad_IdempotencyKey d)) as [Heq|Hne].
    + assert (d' = d) as -> by (rewrite Heq, Hkey in Ek; injection Ek as <-; congruence).
      destruct (sameDecisionRequest d request) eqn:Es.
      * left. split; [done|]. split; [by apply sameDecisionRequest_spec|].
        destruct (decisionResult_Ok _ _ false Hi Hd) as (r & R1 & R2 & R3 & _). exists r.
        rewrite (decide_replay s request id d Ek Hd' Es w Hw), R1. done.
      * right. split; [intros [_ Has%sameDecisionRequest_spec]; congruence|].
        destruct (decide_conflict s request id d Ek Hd' Es w Hw) as (e & He & E). exists e. split; [done|by right].
    + right. split; [by intros [? _]|]. destruct Hon as [Hid|?]; [|done].
      assert (sameDecisionRequest d' request = false) as Es.
      { destruct (sameDecisionRequest d' request) eqn:Es; [|done]. exfalso. apply sameDecisionRequest_spec in Es as [F _ _ _ _].
        destruct (ai_decision _ Hi _ _ Hd') as (Hid' & _). rewrite <-F, Hid in Hid'. subst id. congruence. }
      destruct (decide_conflict s request id d' Ek Hd' Es w Hw) as (e & He & E). exists e. split; [done|by right].
  - assert (rq_IdempotencyKey request ≠ ad_IdempotencyKey d) as Hne by congruence.
    right. split; [by intros [? _]|]. destruct Hon as [Hid|?]; [|done]. exists ErrAlreadyDecided. split; [|by left].
    eapply (decide_again s a request); [by rewrite Hid|done|done|done].
Qed.

(** C26. An approval is decided once, be it by a person or by closing it.  After an accepted
    decision, whatever commands follow, the approval keeps the status of the
    decision and the decision stays on record as it was.  The same request, at any time, is
    accepted again, answers with that decision and changes nothing.  And so it is with any
    well-formed request, to decide or to close, on that approval or under the idempotency key of that
    decision: if it has the key and asks for the same -- approval, decision, actor, reason
    and observed binding -- it is answered with that decision, and if not it is refused, as already decided or as a
    conflict; nothing changes either way. *)
Theorem approval_is_decided_once w w1 w2 v r :
  approval_reachable w → run_verdict v w = (Ok r, w1) → rtc approval_step w1 w2 →
  let k := ap_ID (dr_Approval r) in
  let d := dr_Decision r in
  (∃ a, approvals (aw_store w2) !! k = Some a ∧ ap_Status a = ad_EffectiveStatus d) ∧
  decisions (aw_store w2) !! continuationKey k 1 = Some d ∧ ad_ApprovalID d = k ∧
  (∀ t, ∃ r' w3, run_verdict (at_time v t) w2 = (Ok r', w3) ∧ aw_store w3 = aw_store w2 ∧
     dr_Decision r' = d ∧ dr_Created r' = false) ∧
  (∀ v' request a w3, verdict_request v' (now_at (aw_reads w2)) = Ok request →
     rq_ApprovalID request = k ∨ rq_IdempotencyKey request = ad_IdempotencyKey d →
     run_verdict v' w2 = (a, w3) →
     aw_store w3 = aw_store w2 ∧
     (rq_IdempotencyKey request = ad_IdempotencyKey d ∧ asks_same d request →
        ∃ r', a = Ok r' ∧ dr_Decision r' = d ∧ dr_Created r' = false) ∧
     (¬ (rq_IdempotencyKey request = ad_IdempotencyKey d ∧ asks_same d request) →
        ∃ e, a = Err e ∧ (e = ErrAlreadyDecided ∨ errors_Is e ErrIdempotencyConflict = true))).
Proof.
  intros Hr E Hs k d. pose proof (approval_reachable_inv _ Hr) as Hi.
  assert (approval_inv (aw_store w1)) as Hi1 by (destruct (verdict_changes _ _ _ _ Hi E) as [->|Hc]; [done|by eapply change_inv]).
  rewrite run_verdict_eq in E. destruct (verdict_request v _) as [request|err] eqn:Eq; [|discriminate E].
  destruct (decide_Ok _ (mkAWorld (aw_store w) (S (aw_reads w)) (aw_ext w)) _ _ (verdict_askable _ _ _ Eq) Hi E) as (D1 & D2 & D3 & D4).
  fold d k in D1, D2, D3, D4. rewrite D1 in D2, D3. destruct (run_inv _ _ Hs Hi1) as [Hi2 Hh].
  pose proof (ah_decisions _ _ Hh _ _ D3) as D3'. pose proof (ah_keys _ _ Hh _ _ D2) as D2'.
  pose proof D3' as Hd. rewrite <-D1 in Hd.
  destruct (decisionResult_Ok _ _ false Hi2 Hd) as (r' & R1 & R2 & R3 & R4 & _ & R5). rewrite D1 in R4.
  split; [by exists (dr_Approval r')|]. split; [done|]. split; [done|]. split.
  - intros t. exists r'. exists (mkAWorld (aw_store w2) (S (aw_reads w2)) (aw_ext w2)).
    rewrite run_verdict_eq, (verdict_now _ _ _ _ _ Eq).
    split; [etrans; [by apply (decide_replay (aw_store w2) _ (continuationKey k 1) d)|by rewrite R1]|done].
  - intros v' request' a w3 Eq' Hon E'. rewrite run_verdict_eq, Eq' in E'. rewrite <-D1 in Hon.
    destruct (decide_decided (aw_store w2) d request' (mkAWorld (aw_store w2) (S (aw_reads w2)) (aw_ext w2)) Hi2 eq_refl Hd Hon)
      as [(Hk & Has & r2 & E2 & ? & ?)|(Hno & e & E2 & He)]; rewrite E2 in E'; injection E' as <- <-.
    + split; [done|]. split; [by exists r2|by intros []].
    + split; [done|]. split; [done|by exists e].
Qed.

(** C23. A decision does what was reviewed.  In every store that the approval
    service can reach, a decided approval has its decision on record, of the same
    status: if it is approved or rejected, someone saw a binding of the artifact
    that matches the one under review, before the approval expired, asked for
    just that, and the decision carries the frozen command of this branch; if it
    was closed as stale, expired or cancelled it carries none.  The continuation
    of the decision goes to the interrupted runner, whose checkpoint is bound, or
    after a fallback to the deterministic executor, at the epoch of the approval;
    and the outbox holds the event that hands it over. *)
Theorem decision_follows_review w k a :
  approval_reachable w → approvals (aw_store w) !! k = Some a → ap_Status a ≠ StatusPending →
  ∃ d c e, GetDecision k 1 w = (Ok d, w) ∧ GetContinuation k 1 w = (Ok c, w) ∧
    ad_EffectiveStatus d = ap_Status a ∧ ap_Status a ∈ final_statuses ∧
    (ap_Status a ∈ [StatusApproved; StatusRejected] →
       (∃ b, ad_ObservedBinding d = Some b ∧ VersionBinding_Matches (ap_Binding a) b = true) ∧
       (∀ t, ap_ExpiresAt a = Some t → ad_CreatedAt d < t) ∧
       (ap_Status a = StatusApproved ↔ ad_RequestedDecision d = DecisionApprove) ∧
       carries d (if bool_decide (ap_Status a = StatusApproved) then ap_ApproveCommand a else ap_RejectCommand a)) ∧
    (ap_Status a ∉ [StatusApproved; StatusRejected] → ad_CommandKind d = "") ∧
    ac_ExecutionEpoch c = ap_ExecutionEpoch a ∧ ac_SessionID c = ap_SessionID a ∧
    (ac_Executor c = ContinuationExecutorRunnerResume ∧ ap_ExecutionMode a = ExecutionModeInterrupt ∧
       ap_CheckpointMappingID a ≠ "" ∧ 0 < ap_MappingEpoch a ∨
     ac_Executor c = ContinuationExecutorDeterministic ∧ ap_ExecutionMode a ≠ ExecutionModeInterrupt) ∧
    outbox (aw_store w) !! decisionOutboxKey k 1 (ac_ExecutionEpoch c) (decision_event_type (ac_Executor c)) = Some e ∧
    oe_AggregateID e = k ∧ oe_EventType e = decision_event_type (ac_Executor c).
Proof.
  intros Hi%approval_reachable_inv Ha Hp.
  destruct (ai_approval _ Hi _ _ Ha) as (Hid & Htr & _ & _ & _ & _ & _ & [[? _]|Hdec]); [done|].
  destruct Hdec as (Hf & Hv & d & c & e & Hd & D1 & D2 & D3 & (V1 & V2 & V3 & V4 & V5) & Hc & (F1 & F2 & F3 & F4 & F5 & F6) & He & Hk & He1 & He2).
  rewrite Hid in *. rewrite D3 in V1, V2, V3, V4, V5. exists d, c, e. split_and!; try done.
  - unfold GetDecision, bind, a_get. by rewrite Hd.
  - unfold GetContinuation, bind, a_get. by rewrite Hc.
  - intros Hin. destruct (V2 Hin) as [Hb Ht]. split; [done|]. split; [done|].
    clear F6. case_bool_decide as Hst; [destruct (V3 Hst); done|].
    apply elem_of_cons in Hin as [?|[Hrej|Hin]%elem_of_cons]; [done| |by apply elem_of_nil in Hin].
    destruct (V4 Hrej) as [Hn Hcar]. done.
  - case_bool_decide as Hm; [left|right]; destruct_and?; done.
Qed.

Lemma Fallback_Ok command w r w1 :
  approval_inv (aw_store w) → SwitchToDurableFallback command w = (Ok r, w1) →
  approvals (aw_store w1) !! ap_ID (fr_Approval r) = Some (fr_Approval r) ∧
  ap_ExecutionMode (fr_Approval r) = ExecutionModeDurableFallback ∧ ap_ReviewMode (fr_Approval r) = ReviewModeInterrupt.
Proof.
  intros Hi. unfold SwitchToDurableFallback. cbv zeta. destruct (_ || _); [done|].
  generalize (if bool_decide (fb_ExpectedExecutionMode (command <| fb_ApprovalID := TrimSpace (fb_ApprovalID command) |>) = "")
    then (command <| fb_ApprovalID := TrimSpace (fb_ApprovalID command) |>) <| fb_ExpectedExecutionMode := ExecutionModeInterrupt |>
    else command <| fb_ApprovalID := TrimSpace (fb_ApprovalID command) |>). intros cmd.
  unfold bind at 1, a_now. generalize (timeOr (fb_Now cmd) (now_at (aw_reads w))). intros now.
  unfold bind at 1, a_get. cbn [aw_store]. cbn.
  destruct (approvals _ !! _) as [a|] eqn:Ea; [|done]. destruct (ai_approval _ Hi _ _ Ea) as (Hid & _).
  case_bool_decide as Hr; cbn [negb]; [|done]. destruct (_ && _) eqn:Esw.
  - apply andb_prop in Esw as [[Hm%bool_decide_eq_true _]%andb_prop _]. unfold ret. intros [= Hres <-].
    assert (fr_Approval r = a) as ->; [|by rewrite Hid].
    unfold fallbackResultLocked in Hres. destruct (0 <? _).
    + destruct (continuations _ !! _); [|done]. destruct (currentFallbackOutboxLocked _ _ _); [|done]. by injection Hres as <-.
    + destruct (currentFallbackOutboxLocked _ _ _); [|done]. by injection Hres as <-.
  - destruct (_ || _); [done|].
    match goal with |- context [fallback_continuation _ ?x _] => remember x as a' eqn:Ha' end.
    destruct (fallback_continuation _ _ _) as [entry|err]; [|done].
    destruct (newFallbackOutbox _ _ _) as [e|err]; [|done].
    destruct (appendOutboxLocked _ _) as [s1|err]; [|done].
    unfold a_commit, bind, a_put, ret. intros Heq. injection Heq as Hres Hw. rewrite <-Hres, <-Hw. cbn.
    assert (ap_ID a' = ap_ID a) as -> by (by rewrite Ha'). rewrite lookup_insert_eq. split; [done|]. by rewrite Ha'.
Qed.

(** The fallback fences off the runner.  After an accepted switch of an
    approval to the durable fallback, and whatever commands follow, it is still
    the reviewed approval but its execution mode is the fallback for good; it can
    no longer be bound to a checkpoint; and once it is decided, its continuation
    belongs to the deterministic executor, at the current epoch of the approval,
    never to the runner. *)
Theorem fallback_fences_the_runner w w1 w2 command r :
  approval_reachable w → SwitchToDurableFallback command w = (Ok r, w1) → rtc approval_step w1 w2 →
  ∃ a, approvals (aw_store w2) !! ap_ID (fr_Approval r) = Some a ∧
    approval_key a = approval_key (fr_Approval r) ∧ ap_ReviewMode a = ReviewModeInterrupt ∧
    ap_ExecutionMode a = ExecutionModeDurableFallback ∧
    (∀ mapping, TrimSpace (mc_ApprovalID mapping) = ap_ID a → ∃ e, BindInterruptMapping mapping w2 = (Err e, w2)) ∧
    (∀ c, ap_Status a ≠ StatusPending → GetContinuation (ap_ID a) 1 w2 = (Ok c, w2) →
       ac_Executor c = ContinuationExecutorDeterministic ∧ ac_ExecutionEpoch c = ap_ExecutionEpoch a).
Proof.
  intros Hr E Hs. pose proof (approval_reachable_inv _ Hr) as Hi.
  assert (approval_inv (aw_store w1)) as Hi1 by (destruct (Fallback_changes _ _ _ _ Hi E) as [->|Hc]; [done|by eapply change_inv]).
  destruct (Fallback_Ok _ _ _ _ Hi E) as (Ha1 & Hm1 & Hr1).
  destruct (run_inv _ _ Hs Hi1) as [Hi2 Hh]. destruct (ah_approvals _ _ Hh _ _ Ha1) as (a & Ha & Hk & _ & _ & Hm).
  assert (ap_ExecutionMode a = ExecutionModeDurableFallback) as Hmode by (destruct Hm as [->|?]; done).
  exists a. split; [done|]. split; [done|]. unfold approval_key in Hk. injection Hk as Hid _ _ _ _ _ _ Hrm _ _ _ _.
  split; [congruence|]. split; [done|]. split.
  - intros mapping Hmid. unfold BindInterruptMapping. cbv zeta. destruct (_ || _); [by eexists|].
    unfold bind, a_get. cbn [mc_ApprovalID]. cbn. rewrite Hmid, Hid, Ha. rewrite bool_decide_true by congruence. cbn [negb].
    rewrite (bool_decide_false (ap_ExecutionMode a = ExecutionModeInterrupt)) by (by rewrite Hmode).
    rewrite orb_true_r. by eexists.
  - intros c Hp Hc. unfold GetContinuation, bind, a_get in Hc.
    destruct (ai_approval _ Hi2 _ _ Ha) as (_ & _ & _ & _ & _ & _ & _ & [[? _]|Hdec]); [done|].
    destruct Hdec as (_ & _ & _ & c' & _ & _ & _ & _ & _ & _ & Hc' & (F1 & F2 & F3 & F4 & F5 & F6) & _).
    rewrite Hc' in Hc. injection Hc as <-. rewrite Hmode in F6. done.
Qed.
End runs.

(** ** Sample data

    A storyboard revision reviewed in a session: created, bound to a checkpoint,
    then approved, or switched to the fallback. *)
Module ApprovalSample.
#[export] Instance requested_codec : ApprovalCodec := fun _ => Ok "{}".
#[local] Existing Instances SessionSample.codec SessionSample.ticking.

Definition binding : VersionBinding := zeroVersionBinding <| vb_ArtifactID := "board" |> <| vb_ArtifactVersion := 1 |>.
Definition requested : Approval :=
  zeroApproval <| ap_ID := "ap" |> <| ap_IdempotencyKey := "create-ap" |> <| ap_SessionID := "s" |>
    <| ap_ArtifactType := "storyboard_revision" |> <| ap_Binding := binding |>
    <| ap_ReviewMode := ReviewModeInterrupt |> <| ap_ExecutionMode := ExecutionModeInterrupt |>
    <| ap_ApproveCommand := mkFrozenCommand "activate" "ap:yes" "" |>
    <| ap_RejectCommand := mkFrozenCommand "discard" "ap:no" "" |>.
Definition approve : DecideCommand :=
  zeroDecideCommand <| dc_ApprovalID := "ap" |> <| dc_IdempotencyKey := "click" |> <| dc_Decision := "Approved" |>
    <| dc_CurrentBinding := binding |>.
Definition cancel : CloseCommand :=
  zeroCloseCommand <| xc_ApprovalID := "ap" |> <| xc_IdempotencyKey := "close" |> <| xc_Status := StatusCancelled |>.
Definition switch : FallbackCommand := mkFallbackCommand "ap" "" 1 0 0.

Definition empty : aworld unit := mkAWorld NewMemoryStore 0 tt.
Definition created : aworld unit := (run_command (ACreate requested) empty).2.
Definition bound : aworld unit := (run_command (ABind (mkMappingCommand "ap" 1 "m" 1)) created).2.
Definition approved : aworld unit := (Decide approve bound).2.
Definition switched : aworld unit := (SwitchToDurableFallback switch created).2.

Lemma approval_reach (c : approval_command) (w : aworld unit) : approval_reachable w → approval_reachable (run_command c w).2.
Proof.
  intros (w0 & Hw0 & Hr). exists w0. split; [exact Hw0|]. eapply rtc_r; [exact Hr|].
  destruct (run_command c w) as [e w'] eqn:E. by apply (step_command c w e).
Qed.

Lemma reachable_created : approval_reachable created.
Proof. apply approval_reach. exists empty. by split. Qed.
Lemma reachable_bound : approval_reachable bound.
Proof. apply approval_reach, reachable_created. Qed.
Lemma reachable_approved : approval_reachable approved.
Proof.
  pose proof (approval_reach (ADecide approve) bound reachable_bound) as Hr. revert Hr.
  unfold approved. cbn [run_command]. unfold a_only, bind. destruct (Decide approve bound). done.
Qed.
End ApprovalSample.

#[local] Existing Instances SessionSample.codec SessionSample.ticking ApprovalSample.requested_codec.

Lemma one_pending_primary_review_witness :
  ∃ a, approvals (aw_store ApprovalSample.created) !! "ap" = Some a ∧ isPrimaryReviewApproval a = true ∧
  GetPendingPrimaryReviewBySession " s" ApprovalSample.created = (Ok a, ApprovalSample.created).
Proof.
  destruct (tested_Some (approvals (aw_store ApprovalSample.created) !! "ap")
    (fun a => isPrimaryReviewApproval a && bool_decide (ap_SessionID a = "s"))) as (a & Ha & [Hp Hs]%andb_prop);
    [vm_compute; reflexivity|].
  exists a. split; [exact Ha|]. split; [exact Hp|].
  refine (proj1 (proj2 (one_pending_primary_review _ "ap" a ApprovalSample.reachable_created Ha Hp)) " s" _ _).
  - vm_compute. discriminate.
  - apply bool_decide_eq_true_1 in Hs. rewrite Hs. vm_compute. reflexivity.
Defined.

Definition ok_part {A} (r : result A) : option A := match r with Ok a => Some a | Err _ => None end.
Lemma ok_part_Ok {A} (r : result A) a : ok_part r = Some a → r = Ok a.
Proof. destruct r; [by intros [= ->]|done]. Qed.

Lemma approval_is_decided_once_witness :
  ∃ r, Decide ApprovalSample.approve ApprovalSample.bound = (Ok r, ApprovalSample.approved) ∧
  (∃ r' w3, run_verdict (at_time (ByDecide ApprovalSample.approve) 5) ApprovalSample.approved = (Ok r', w3) ∧
    dr_Decision r' = dr_Decision r ∧ dr_Created r' = false) ∧
  ∃ e, (run_verdict (ByClose ApprovalSample.cancel) ApprovalSample.approved).1 = Err e ∧
    (e = ErrAlreadyDecided ∨ errors_Is e ErrIdempotencyConflict = true).
Proof.
  destruct (tested_Some (match (Decide ApprovalSample.approve ApprovalSample.bound).1 with
    Ok r => Some r | Err _ => None end)
    (fun r => bool_decide (ap_ID (dr_Approval r) = "ap") && bool_decide (ad_IdempotencyKey (dr_Decision r) = "click")))
    as (r & Hr & [Hid%bool_decide_eq_true_1 Hkey%bool_decide_eq_true_1]%andb_prop); [vm_compute; reflexivity|].
  assert (Decide ApprovalSample.approve ApprovalSample.bound = (Ok r, ApprovalSample.approved)) as E.
  { unfold ApprovalSample.approved. revert Hr. destruct (Decide _ ApprovalSample.bound) as [[r0|e] w]; [|discriminate].
    intros [= ->]. reflexivity. }
  destruct (approval_is_decided_once ApprovalSample.bound ApprovalSample.approved ApprovalSample.approved
    (ByDecide ApprovalSample.approve) r ApprovalSample.reachable_bound E (rtc_refl _ _)) as (_ & _ & _ & Hsame & Hother).
  exists r. split; [exact E|]. split.
  - destruct (Hsame 5) as (r' & w3 & E3 & _ & F1 & F2). exists r', w3. split; [exact E3|]. split; [exact F1|exact F2].
  - destruct (tested_Some (ok_part (verdict_request (ByClose ApprovalSample.cancel) (now_at (aw_reads ApprovalSample.approved))))
      (fun request => bool_decide (rq_ApprovalID request = "ap") && negb (bool_decide (rq_IdempotencyKey request = "click"))))
      as (request & Hq & [Hap%bool_decide_eq_true_1 Hno%negb_true_iff%bool_decide_eq_false_1]%andb_prop); [vm_compute; reflexivity|].
    destruct (Hother (ByClose ApprovalSample.cancel) request
      (run_verdict (ByClose ApprovalSample.cancel) ApprovalSample.approved).1
      (run_verdict (ByClose ApprovalSample.cancel) ApprovalSample.approved).2) as (_ & _ & Hrefused).
    + exact (ok_part_Ok _ _ Hq).
    + left. rewrite Hap, Hid. reflexivity.
    + apply surjective_pairing.
    + apply Hrefused. rewrite Hkey. intros [F _]. exact (Hno F).
Defined.

Lemma decision_follows_review_witness :
  ∃ a d, approvals (aw_store ApprovalSample.approved) !! "ap" = Some a ∧ ap_Status a = StatusApproved ∧
  GetDecision "ap" 1 ApprovalSample.approved = (Ok d, ApprovalSample.approved) ∧
  carries d (ap_ApproveCommand a).
Proof.
  destruct (tested_Some (approvals (aw_store ApprovalSample.approved) !! "ap")
    (fun a => bool_decide (ap_Status a = StatusApproved))) as (a & Ha & Hs); [vm_compute; reflexivity|].
  apply bool_decide_eq_true_1 in Hs.
  destruct (decision_follows_review _ "ap" a ApprovalSample.reachable_approved Ha) as (d & c & e & Hd & _ & _ & _ & Hrev & _).
  { rewrite Hs. discriminate. }
  exists a, d. split; [exact Ha|]. split; [exact Hs|]. split; [exact Hd|].
  destruct Hrev as (_ & _ & _ & Hcar); [rewrite Hs; apply list_elem_of_here|].
  rewrite bool_decide_true in Hcar by exact Hs. exact Hcar.
Defined.

Lemma fallback_fences_the_runner_witness :
  ∃ r, SwitchToDurableFallback ApprovalSample.switch ApprovalSample.created = (Ok r, ApprovalSample.switched) ∧
  ∃ a, approvals (aw_store ApprovalSample.switched) !! ap_ID (fr_Approval r) = Some a ∧
    ap_ExecutionMode a = ExecutionModeDurableFallback.
Proof.
  destruct (tested_Some (match (SwitchToDurableFallback ApprovalSample.switch ApprovalSample.created).1 with
    Ok r => Some r | Err _ => None end) fr_Switched) as (r & Hr & Ht); [vm_compute; reflexivity|].
  assert (SwitchToDurableFallback ApprovalSample.switch ApprovalSample.created = (Ok r, ApprovalSample.switched)) as E.
  { unfold ApprovalSample.switched. revert Hr.
    destruct (SwitchToDurableFallback _ ApprovalSample.created) as [[r0|e] w]; [|discriminate].
    intros [= ->]. reflexivity. }
  exists r. split; [exact E|].
  destruct (fallback_fences_the_runner ApprovalSample.created ApprovalSample.switched ApprovalSample.switched
    ApprovalSample.switch r ApprovalSample.reachable_created E (rtc_refl _ _)) as (a & Ha & _ & _ & Hm & _).
  exists a. split; [exact Ha|exact Hm].
Defined.
