(* ===== verification/StoryboardModels.v ===== *)
(** * Storyboards: the model, [internal/aigc/storyboard/aggregate.go],
    [generation_input.go]

    The storyboard aggregate: revisions of a plan, each with modules, elements,
    their prompt and asset slots and the dependencies between elements, and the
    bindings of assets to slots.  This file has the records, their JSON text
    (what fingerprints are taken of), the copy that the repository makes, and
    the resolution of what a slot is to be generated from. *)

From Stdlib Require Import ZArith Lia.
From S2P Require Import Prelude GoJson.

Definition AggregateStatusDraft := "draft".
Definition AggregateStatusReviewing := "reviewing".
Definition AggregateStatusActive := "active".

Definition RevisionStatusDraft := "draft".
Definition RevisionStatusReviewing := "reviewing".
Definition RevisionStatusActive := "active".
Definition RevisionStatusRejected := "rejected".
Definition RevisionStatusSuperseded := "superseded".
Definition RevisionStatusArchived := "archived".

Definition PromptStatusMissing := "missing".
Definition PromptStatusGenerating := "generating".
Definition PromptStatusReviewing := "reviewing".
Definition PromptStatusReady := "ready".
Definition PromptStatusStale := "stale".
Definition PromptStatusFailed := "failed".

Definition AssetSlotStatusMissing := "missing".
Definition AssetSlotStatusCandidate := "candidate".
Definition AssetSlotStatusActive := "active".
Definition AssetSlotStatusStale := "stale".
Definition AssetSlotStatusFailed := "failed".

Definition BindingStateCandidate := "candidate".
Definition BindingStateActive := "active".
Definition BindingStateRejected := "rejected".
Definition BindingStateSuperseded := "superseded".
Definition ErrAggregateNotFound := errors_New "storyboard aggregate not found".
Definition ErrTargetNotFound := errors_New "storyboard target not found".
Definition ErrSlotNotFound := errors_New "storyboard slot not found".
Definition ErrRevisionNotFound := errors_New "storyboard revision not found".
Definition ErrPendingRevision := errors_New "storyboard already has a pending revision".
Definition ErrNoPendingRevision := errors_New "storyboard has no pending revision".
Definition ErrRevisionMismatch := errors_New "storyboard target revision mismatch".
Definition ErrInvalidMutation := errors_New "invalid storyboard mutation".
Definition ErrIdempotencyConflict := errors_New "storyboard command idempotency conflict".
Definition ErrDependencyNotReady := errors_New "storyboard dependency is not ready".
Definition ErrVersionConflict := errors_New "storyboard version conflict".
Definition ErrDuplicateCommand := errors_New "storyboard command already applied".

(** ** Records *)

Record PromptSlot := mkPromptSlot {
  pp_Purpose : string;
  pp_Prompt : string;
  pp_PromptRef : string;
  pp_Revision : Z;
  pp_Status : string;
  pp_LockedByUser : bool
}.
#[global] Instance eta_PromptSlot : Eta PromptSlot := fun r =>
  mkPromptSlot (pp_Purpose r) (pp_Prompt r) (pp_PromptRef r) (pp_Revision r) (pp_Status r)
  (pp_LockedByUser r).
Definition zeroPromptSlot : PromptSlot :=
  mkPromptSlot "" "" "" 0 "" false.
#[global] Instance PromptSlot_eq_dec : EqDecision PromptSlot.
Proof. solve_decision. Defined.

Record AssetSlot := mkAssetSlot {
  sl_Key : string;
  sl_Role : string;
  sl_MediaKind : string;
  sl_Required : bool;
  sl_ReviewRequired : bool;
  sl_GenerationEpoch : Z;
  sl_ActiveBindingID : string;
  sl_CandidateIDs : goslice string;
  sl_Status : string
}.
#[global] Instance eta_AssetSlot : Eta AssetSlot := fun r =>
  mkAssetSlot (sl_Key r) (sl_Role r) (sl_MediaKind r) (sl_Required r) (sl_ReviewRequired r)
  (sl_GenerationEpoch r) (sl_ActiveBindingID r) (sl_CandidateIDs r) (sl_Status r).
Definition zeroAssetSlot : AssetSlot :=
  mkAssetSlot "" "" "" false false 0 "" None "".
#[global] Instance AssetSlot_eq_dec : EqDecision AssetSlot.
Proof. solve_decision. Defined.

Record StoryboardElement := mkStoryboardElement {
  el_ID : string;
  el_Key : string;
  el_SemanticType : string;
  el_Title : string;
  el_Revision : Z;
  el_Content : gomap any;
  el_LockedFields : goslice string;
  el_PromptSlots : goslice PromptSlot;
  el_AssetSlots : goslice AssetSlot;
  el_ReviewState : string;
  el_Metadata : gomap any
}.
#[global] Instance eta_StoryboardElement : Eta StoryboardElement := fun r =>
  mkStoryboardElement (el_ID r) (el_Key r) (el_SemanticType r) (el_Title r) (el_Revision r)
  (el_Content r) (el_LockedFields r) (el_PromptSlots r) (el_AssetSlots r) (el_ReviewState r)
  (el_Metadata r).
Definition zeroStoryboardElement : StoryboardElement :=
  mkStoryboardElement "" "" "" "" 0 None None None None "" None.

Record ModuleCapabilities := mkModuleCapabilities {
  mc_HasQuantity : bool;
  mc_RequiresPrompt : bool;
  mc_RequiresAsset : bool;
  mc_HasTimeline : bool;
  mc_OutputModality : string
}.
#[global] Instance eta_ModuleCapabilities : Eta ModuleCapabilities := fun r =>
  mkModuleCapabilities (mc_HasQuantity r) (mc_RequiresPrompt r) (mc_RequiresAsset r)
  (mc_HasTimeline r) (mc_OutputModality r).
Definition zeroModuleCapabilities : ModuleCapabilities :=
  mkModuleCapabilities false false false false "".
#[global] Instance ModuleCapabilities_eq_dec : EqDecision ModuleCapabilities.
Proof. solve_decision. Defined.

Record StoryboardModule := mkStoryboardModule {
  md_ID : string;
  md_Key : string;
  md_SemanticType : string;
  md_Title : string;
  md_Description : string;
  md_Order : Z;
  md_PlannedCount : Z;
  md_Required : bool;
  md_ReviewRequired : bool;
  md_Revision : Z;
  md_Capabilities : ModuleCapabilities;
  md_Elements : list StoryboardElement;
  md_Metadata : gomap any
}.
#[global] Instance eta_StoryboardModule : Eta StoryboardModule := fun r =>
  mkStoryboardModule (md_ID r) (md_Key r) (md_SemanticType r) (md_Title r) (md_Description r)
  (md_Order r) (md_PlannedCount r) (md_Required r) (md_ReviewRequired r) (md_Revision r)
  (md_Capabilities r) (md_Elements r) (md_Metadata r).
Definition zeroStoryboardModule : StoryboardModule :=
  mkStoryboardModule "" "" "" "" "" 0 0 false false 0 zeroModuleCapabilities [] None.

Record DependencyEdge := mkDependencyEdge {
  ed_FromTargetID : string;
  ed_FromSlot : string;
  ed_ToTargetID : string;
  ed_ToSlot : string;
  ed_Relation : string
}.
#[global] Instance eta_DependencyEdge : Eta DependencyEdge := fun r =>
  mkDependencyEdge (ed_FromTargetID r) (ed_FromSlot r) (ed_ToTargetID r) (ed_ToSlot r)
  (ed_Relation r).
Definition zeroDependencyEdge : DependencyEdge :=
  mkDependencyEdge "" "" "" "" "".
#[global] Instance DependencyEdge_eq_dec : EqDecision DependencyEdge.
Proof. solve_decision. Defined.

Record StoryboardRevision := mkStoryboardRevision {
  rv_ID : string;
  rv_StoryboardID : string;
  rv_BaseRevisionID : string;
  rv_DerivedFromSpecVersion : Z;
  rv_DerivedFromAnalysisVersion : Z;
  rv_PreserveApprovedAssets : bool;
  rv_Status : string;
  rv_Scenario : string;
  rv_Modules : list StoryboardModule;
  rv_Dependencies : list DependencyEdge;
  rv_CreatedAt : Time;
  rv_UpdatedAt : Time
}.
#[global] Instance eta_StoryboardRevision : Eta StoryboardRevision := fun r =>
  mkStoryboardRevision (rv_ID r) (rv_StoryboardID r) (rv_BaseRevisionID r)
  (rv_DerivedFromSpecVersion r) (rv_DerivedFromAnalysisVersion r) (rv_PreserveApprovedAssets r)
  (rv_Status r) (rv_Scenario r) (rv_Modules r) (rv_Dependencies r) (rv_CreatedAt r)
  (rv_UpdatedAt r).
Definition zeroStoryboardRevision : StoryboardRevision :=
  mkStoryboardRevision "" "" "" 0 0 false "" "" [] [] zeroTime zeroTime.

Record ArtifactBinding := mkArtifactBinding {
  bd_ID : string;
  bd_StoryboardID : string;
  bd_TargetID : string;
  bd_AssetSlot : string;
  bd_AssetID : string;
  bd_State : string;
  bd_ArtifactRevision : Z;
  bd_AttemptID : string;
  bd_ApprovalID : string;
  bd_TargetRevision : Z;
  bd_PromptRevision : Z;
  bd_GenerationEpoch : Z;
  bd_InputFingerprint : string;
  bd_CreatedAt : Time
}.
#[global] Instance eta_ArtifactBinding : Eta ArtifactBinding := fun r =>
  mkArtifactBinding (bd_ID r) (bd_StoryboardID r) (bd_TargetID r) (bd_AssetSlot r)
  (bd_AssetID r) (bd_State r) (bd_ArtifactRevision r) (bd_AttemptID r) (bd_ApprovalID r)
  (bd_TargetRevision r) (bd_PromptRevision r) (bd_GenerationEpoch r) (bd_InputFingerprint r)
  (bd_CreatedAt r).
Definition zeroArtifactBinding : ArtifactBinding :=
  mkArtifactBinding "" "" "" "" "" "" 0 "" "" 0 0 0 "" zeroTime.
#[global] Instance ArtifactBinding_eq_dec : EqDecision ArtifactBinding.
Proof. solve_decision. Defined.

Record StoryboardAggregate := mkStoryboardAggregate {
  ag_ID : string;
  ag_SessionID : string;
  ag_Version : Z;
  ag_PlanRevision : Z;
  ag_ActiveRevisionID : string;
  ag_PendingRevisionID : string;
  ag_Status : string;
  ag_Revisions : list StoryboardRevision;
  ag_Bindings : list ArtifactBinding;
  ag_AppliedCommandIDs : list string;
  ag_AppliedCommandHashes : gomap string;
  ag_CreatedAt : Time;
  ag_UpdatedAt : Time
}.
#[global] Instance eta_StoryboardAggregate : Eta StoryboardAggregate := fun r =>
  mkStoryboardAggregate (ag_ID r) (ag_SessionID r) (ag_Version r) (ag_PlanRevision r)
  (ag_ActiveRevisionID r) (ag_PendingRevisionID r) (ag_Status r) (ag_Revisions r)
  (ag_Bindings r) (ag_AppliedCommandIDs r) (ag_AppliedCommandHashes r) (ag_CreatedAt r)
  (ag_UpdatedAt r).
Definition zeroStoryboardAggregate : StoryboardAggregate :=
  mkStoryboardAggregate "" "" 0 0 "" "" "" [] [] [] None zeroTime zeroTime.

Record GenerationInput := mkGenerationInput {
  gi_TargetID : string;
  gi_AssetSlot : string;
  gi_TargetRevision : Z;
  gi_Prompt : string;
  gi_PromptRevision : Z;
  gi_GenerationEpoch : Z;
  gi_InputAssetIDs : goslice string;
  gi_Fingerprint : string
}.
#[global] Instance eta_GenerationInput : Eta GenerationInput := fun r =>
  mkGenerationInput (gi_TargetID r) (gi_AssetSlot r) (gi_TargetRevision r) (gi_Prompt r)
  (gi_PromptRevision r) (gi_GenerationEpoch r) (gi_InputAssetIDs r) (gi_Fingerprint r).
Definition zeroGenerationInput : GenerationInput :=
  mkGenerationInput "" "" 0 "" 0 0 None "".
#[global] Instance GenerationInput_eq_dec : EqDecision GenerationInput.
Proof. solve_decision. Defined.

(** ** JSON texts

    The fields of a struct in their order, with [omitempty] where the tag has
    it; the keys of a map are sorted.  [sha256_json] is the SHA-256 in
    hexadecimal of the text of a value. *)

Class Digest := { sha256_json : any → string }.

Definition str_field (k v : string) : list (string * any) := [(k, AStr v)].
Definition str_field_opt (k v : string) : list (string * any) :=
  if bool_decide (v = "") then [] else str_field k v.
Definition int_field (k : string) (v : Z) : list (string * any) := [(k, AInt v)].
Definition int_field_opt (k : string) (v : Z) : list (string * any) :=
  if v =? 0 then [] else int_field k v.
Definition bool_field (k : string) (v : bool) : list (string * any) := [(k, ABool v)].
Definition bool_field_opt (k : string) (v : bool) : list (string * any) :=
  if v then bool_field k v else [].
Definition time_field (k : string) (v : Time) : list (string * any) := [(k, ATime v)].
Definition json_map (m : gmap string any) : any :=
  AObj (sort_slice (fun a b => String.ltb (fst a) (fst b)) (map_to_list m)).
Definition map_field (k : string) (m : gomap any) : list (string * any) :=
  [(k, match m with Some m' => json_map m' | None => ANil end)].
Definition map_field_opt (k : string) (m : gomap any) : list (string * any) :=
  match omit_empty m with Some m' => [(k, json_map m')] | None => [] end.
Definition array_field_opt {A} (k : string) (f : A → any) (l : list A) : list (string * any) :=
  match l with [] => [] | _ => [(k, AArr (f <$> l))] end.
Definition any_field_opt (k : string) (v : any) : list (string * any) :=
  match v with ANil => [] | _ => [(k, v)] end.

Definition json_PromptSlot (r : PromptSlot) : any :=
  AObj (str_field "purpose" (pp_Purpose r) ++ str_field_opt "prompt" (pp_Prompt r) ++
    str_field_opt "prompt_ref" (pp_PromptRef r) ++ int_field "revision" (pp_Revision r) ++
    str_field "status" (pp_Status r) ++ bool_field_opt "locked_by_user" (pp_LockedByUser r)).

Definition json_AssetSlot (r : AssetSlot) : any :=
  AObj (str_field "key" (sl_Key r) ++ str_field_opt "role" (sl_Role r) ++
    str_field "media_kind" (sl_MediaKind r) ++ bool_field "required" (sl_Required r) ++
    bool_field_opt "review_required" (sl_ReviewRequired r) ++
    int_field "generation_epoch" (sl_GenerationEpoch r) ++
    str_field_opt "active_binding_id" (sl_ActiveBindingID r) ++
    array_field_opt "candidate_ids" AStr (elems (sl_CandidateIDs r)) ++
    str_field "status" (sl_Status r)).

Definition json_StoryboardElement (r : StoryboardElement) : any :=
  AObj (str_field "id" (el_ID r) ++ str_field "key" (el_Key r) ++
    str_field "semantic_type" (el_SemanticType r) ++ str_field "title" (el_Title r) ++
    int_field "revision" (el_Revision r) ++ map_field_opt "content" (el_Content r) ++
    array_field_opt "locked_fields" AStr (elems (el_LockedFields r)) ++
    array_field_opt "prompt_slots" json_PromptSlot (elems (el_PromptSlots r)) ++
    array_field_opt "asset_slots" json_AssetSlot (elems (el_AssetSlots r)) ++
    str_field_opt "review_state" (el_ReviewState r) ++ map_field_opt "metadata" (el_Metadata r)).

Definition json_ModuleCapabilities (r : ModuleCapabilities) : any :=
  AObj (bool_field "has_quantity" (mc_HasQuantity r) ++
    bool_field "requires_prompt" (mc_RequiresPrompt r) ++
    bool_field "requires_asset" (mc_RequiresAsset r) ++
    bool_field "has_timeline" (mc_HasTimeline r) ++
    str_field_opt "output_modality" (mc_OutputModality r)).

Definition json_StoryboardModule (r : StoryboardModule) : any :=
  AObj (str_field "id" (md_ID r) ++ str_field "key" (md_Key r) ++
    str_field "semantic_type" (md_SemanticType r) ++ str_field "title" (md_Title r) ++
    str_field_opt "description" (md_Description r) ++ int_field "order" (md_Order r) ++
    int_field "planned_count" (md_PlannedCount r) ++ bool_field "required" (md_Required r) ++
    bool_field "review_required" (md_ReviewRequired r) ++
    int_field "revision" (md_Revision r) ++
    [("capabilities", json_ModuleCapabilities (md_Capabilities r))] ++
    array_field_opt "elements" json_StoryboardElement (md_Elements r) ++
    map_field_opt "metadata" (md_Metadata r)).

Definition json_DependencyEdge (r : DependencyEdge) : any :=
  AObj (str_field "from_target_id" (ed_FromTargetID r) ++
    str_field_opt "from_slot" (ed_FromSlot r) ++ str_field "to_target_id" (ed_ToTargetID r) ++
    str_field_opt "to_slot" (ed_ToSlot r) ++ str_field_opt "relation" (ed_Relation r)).

Definition json_StoryboardRevision (r : StoryboardRevision) : any :=
  AObj (str_field "id" (rv_ID r) ++ str_field "storyboard_id" (rv_StoryboardID r) ++
    str_field_opt "base_revision_id" (rv_BaseRevisionID r) ++
    int_field_opt "derived_from_spec_version" (rv_DerivedFromSpecVersion r) ++
    int_field_opt "derived_from_analysis_version" (rv_DerivedFromAnalysisVersion r) ++
    bool_field_opt "preserve_approved_assets" (rv_PreserveApprovedAssets r) ++
    str_field "status" (rv_Status r) ++ str_field_opt "scenario" (rv_Scenario r) ++
    array_field_opt "modules" json_StoryboardModule (rv_Modules r) ++
    array_field_opt "dependencies" json_DependencyEdge (rv_Dependencies r) ++
    time_field "created_at" (rv_CreatedAt r) ++ time_field "updated_at" (rv_UpdatedAt r)).

Definition json_GenerationInput (r : GenerationInput) : any :=
  AObj (str_field "target_id" (gi_TargetID r) ++ str_field "asset_slot" (gi_AssetSlot r) ++
    int_field "target_revision" (gi_TargetRevision r) ++ str_field "prompt" (gi_Prompt r) ++
    int_field "prompt_revision" (gi_PromptRevision r) ++
    int_field "generation_epoch" (gi_GenerationEpoch r) ++
    array_field_opt "input_asset_ids" AStr (elems (gi_InputAssetIDs r)) ++
    str_field "fingerprint" (gi_Fingerprint r)).

(** ** Copies

    [Clone] goes through JSON: slices and maps that are empty come back nil and
    the integers inside [any] come back as floats. *)

Definition clone_map (m : gomap any) : gomap any := omit_empty (cloneMap m).

Definition clone_AssetSlot (s : AssetSlot) : AssetSlot :=
  s <| sl_CandidateIDs := copy_slice id (sl_CandidateIDs s) |>.

Definition clone_StoryboardElement (e : StoryboardElement) : StoryboardElement :=
  e <| el_Content := clone_map (el_Content e) |>
    <| el_LockedFields := copy_slice id (el_LockedFields e) |>
    <| el_PromptSlots := copy_slice id (el_PromptSlots e) |>
    <| el_AssetSlots := copy_slice clone_AssetSlot (el_AssetSlots e) |>
    <| el_Metadata := clone_map (el_Metadata e) |>.

Definition clone_StoryboardModule (m : StoryboardModule) : StoryboardModule :=
  m <| md_Elements := clone_StoryboardElement <$> md_Elements m |>
    <| md_Metadata := clone_map (md_Metadata m) |>.

Definition clone_StoryboardRevision (r : StoryboardRevision) : StoryboardRevision :=
  r <| rv_Modules := clone_StoryboardModule <$> rv_Modules r |>.

Definition Clone (a : StoryboardAggregate) : StoryboardAggregate :=
  a <| ag_Revisions := clone_StoryboardRevision <$> ag_Revisions a |>
    <| ag_AppliedCommandHashes := omit_empty (ag_AppliedCommandHashes a) |>.

Definition PublicView (a : StoryboardAggregate) : StoryboardAggregate :=
  Clone a <| ag_AppliedCommandIDs := [] |> <| ag_AppliedCommandHashes := None |>.

(** ** The aggregate *)

Definition NewStoryboardAggregate (now : Time) (id sessionID : string) : result StoryboardAggregate :=
  let id := TrimSpace id in
  let sessionID := TrimSpace sessionID in
  if bool_decide (id = "") then Err (Errorf "storyboard id is required")
  else if bool_decide (sessionID = "") then Err (Errorf "session id is required")
  else Ok (zeroStoryboardAggregate <| ag_ID := id |> <| ag_SessionID := sessionID |>
             <| ag_Status := AggregateStatusDraft |> <| ag_CreatedAt := now |> <| ag_UpdatedAt := now |>).

Definition has_revision_id (id : string) (r : StoryboardRevision) : bool := bool_decide (rv_ID r = id).

Definition revisionByID (a : StoryboardAggregate) (id : string) : result StoryboardRevision :=
  let id := TrimSpace id in
  if bool_decide (id = "") then Err ErrRevisionNotFound
  else match List.find (has_revision_id id) (ag_Revisions a) with
       | Some r => Ok r
       | None => Err (Wrapf "" ErrRevisionNotFound (": " +:+ id))
       end.

Definition ActiveRevision (a : StoryboardAggregate) : result StoryboardRevision :=
  revisionByID a (ag_ActiveRevisionID a).
Definition PendingRevision (a : StoryboardAggregate) : result StoryboardRevision :=
  revisionByID a (ag_PendingRevisionID a).

Definition HasApplied (a : StoryboardAggregate) (commandID : string) : bool :=
  let commandID := TrimSpace commandID in
  negb (bool_decide (commandID = "")) && bool_decide (commandID ∈ ag_AppliedCommandIDs a).

Definition checkAppliedCommand (a : StoryboardAggregate) (commandID fingerprint : string) : result bool :=
  let commandID := TrimSpace commandID in
  if bool_decide (commandID = "") then Ok false
  else match go_lookup (ag_AppliedCommandHashes a) commandID with
       | Some existing =>
           if negb (bool_decide (existing = fingerprint))
           then Err (Wrapf "" ErrIdempotencyConflict (": command " +:+ commandID))
           else Ok true
       | None => Ok (bool_decide (commandID ∈ ag_AppliedCommandIDs a))
       end.

Definition markApplied (commandID : string) (a : StoryboardAggregate) : StoryboardAggregate :=
  let commandID := TrimSpace commandID in
  if negb (bool_decide (commandID = "")) && negb (bool_decide (commandID ∈ ag_AppliedCommandIDs a))
  then a <| ag_AppliedCommandIDs := ag_AppliedCommandIDs a ++ [commandID] |>
  else a.

Definition markAppliedCommand (commandID fingerprint : string) (a : StoryboardAggregate) : StoryboardAggregate :=
  let a := markApplied commandID a in
  let commandID := TrimSpace commandID in
  if bool_decide (commandID = "") then a
  else a <| ag_AppliedCommandHashes :=
              Some (<[commandID := fingerprint]> (default ∅ (ag_AppliedCommandHashes a))) |>.

Definition touchCommand (now : Time) (commandID fingerprint : string) (a : StoryboardAggregate)
    : StoryboardAggregate :=
  markAppliedCommand commandID fingerprint
    (a <| ag_Version := incr (ag_Version a) |> <| ag_UpdatedAt := now |>).

Definition checkVersion (a : StoryboardAggregate) (baseVersion : Z) : option error :=
  if negb (baseVersion =? ag_Version a)
  then Some (Wrapf "" ErrVersionConflict
               (": current=" +:+ pretty (ag_Version a) +:+ " expected=" +:+ pretty baseVersion))
  else None.

Definition normalizePromptSlot (slot : PromptSlot) : PromptSlot :=
  let slot := slot <| pp_Purpose := TrimSpace (pp_Purpose slot) |>
                   <| pp_Prompt := TrimSpace (pp_Prompt slot) |>
                   <| pp_PromptRef := TrimSpace (pp_PromptRef slot) |> in
  let slot := if pp_Revision slot <=? 0 then slot <| pp_Revision := 1 |> else slot in
  if bool_decide (TrimSpace (pp_Status slot) = "")
  then slot <| pp_Status := if bool_decide (pp_Prompt slot = "")
                            then PromptStatusMissing else PromptStatusReady |>
  else slot.

Definition normalizeAssetSlot (slot : AssetSlot) : AssetSlot :=
  let slot := slot <| sl_Key := TrimSpace (sl_Key slot) |>
                   <| sl_Role := TrimSpace (sl_Role slot) |>
                   <| sl_MediaKind := ToLower (TrimSpace (sl_MediaKind slot)) |> in
  let slot := if sl_GenerationEpoch slot <? 0 then slot <| sl_GenerationEpoch := 0 |> else slot in
  if bool_decide (TrimSpace (sl_Status slot) = "")
  then slot <| sl_Status :=
         if negb (bool_decide (sl_ActiveBindingID slot = "")) then AssetSlotStatusActive
         else if bool_decide (elems (sl_CandidateIDs slot) = []) then AssetSlotStatusMissing
         else AssetSlotStatusCandidate |>
  else slot.

(** ** Finding and updating the parts

    The code holds pointers into the aggregate: to the first part that has the
    id, which an update changes in place. *)

Section update_first.
Context {A : Type} (p : A → bool) (f : A → A).
Fixpoint update_first (l : list A) : list A :=
  match l with
  | [] => []
  | a :: l' => if p a then f a :: l' else a :: update_first l'
  end.
End update_first.

Definition update_revision (id : string) (f : StoryboardRevision → StoryboardRevision)
    (a : StoryboardAggregate) : StoryboardAggregate :=
  a <| ag_Revisions := update_first (has_revision_id id) f (ag_Revisions a) |>.

Definition has_module_id (id : string) (m : StoryboardModule) : bool := bool_decide (md_ID m = id).
Definition has_element_id (id : string) (e : StoryboardElement) : bool := bool_decide (el_ID e = id).
Definition has_slot_key (key : string) (s : AssetSlot) : bool := bool_decide (sl_Key s = key).

Definition revision_elements (r : StoryboardRevision) : list StoryboardElement :=
  rv_Modules r ≫= md_Elements.

Definition findModule (r : StoryboardRevision) (targetID : string) : option StoryboardModule :=
  List.find (has_module_id targetID) (rv_Modules r).
Definition findElement (r : StoryboardRevision) (targetID : string) : option StoryboardElement :=
  List.find (has_element_id targetID) (revision_elements r).
Definition findAssetSlot (e : StoryboardElement) (key : string) : option AssetSlot :=
  List.find (has_slot_key key) (elems (el_AssetSlots e)).

Definition update_module (id : string) (f : StoryboardModule → StoryboardModule)
    (r : StoryboardRevision) : StoryboardRevision :=
  r <| rv_Modules := update_first (has_module_id id) f (rv_Modules r) |>.

Definition update_element (id : string) (f : StoryboardElement → StoryboardElement)
    (r : StoryboardRevision) : StoryboardRevision :=
  r <| rv_Modules := update_first (fun m => existsb (has_element_id id) (md_Elements m))
         (fun m => m <| md_Elements := update_first (has_element_id id) f (md_Elements m) |>)
         (rv_Modules r) |>.

Definition update_slot (key : string) (f : AssetSlot → AssetSlot) (e : StoryboardElement)
    : StoryboardElement :=
  e <| el_AssetSlots := update_first (has_slot_key key) f <$> el_AssetSlots e |>.

Definition mutableActiveRevision (a : StoryboardAggregate) : result StoryboardRevision :=
  if bool_decide (ag_ActiveRevisionID a = "") then Err ErrRevisionNotFound
  else match List.find (has_revision_id (ag_ActiveRevisionID a)) (ag_Revisions a) with
       | Some r => Ok r
       | None => Err (Wrapf "" ErrRevisionNotFound (": " +:+ ag_ActiveRevisionID a))
       end.

Definition mutableReviewRevision (a : StoryboardAggregate) : result StoryboardRevision :=
  let id := if bool_decide (ag_PendingRevisionID a = "") then ag_ActiveRevisionID a
            else ag_PendingRevisionID a in
  if bool_decide (id = "") then Err ErrRevisionNotFound
  else match List.find (has_revision_id id) (ag_Revisions a) with
       | Some r => Ok r
       | None => Err (Wrapf "" ErrRevisionNotFound (": " +:+ id))
       end.

Definition bindingByID (a : StoryboardAggregate) (id : string) : option ArtifactBinding :=
  List.find (fun b => bool_decide (bd_ID b = id)) (ag_Bindings a).

Definition update_binding (id : string) (f : ArtifactBinding → ArtifactBinding)
    (a : StoryboardAggregate) : StoryboardAggregate :=
  a <| ag_Bindings := update_first (fun b => bool_decide (bd_ID b = id)) f (ag_Bindings a) |>.

Definition uniqueSorted (values : list string) : list string :=
  sort_slice String.ltb
    (foldl (fun out value =>
       let value := TrimSpace value in
       if bool_decide (value = "") || bool_decide (value ∈ out) then out else out ++ [value])
     [] values).

Definition appendUniqueString (values : goslice string) (value : string) : goslice string :=
  if negb (bool_decide (value = "")) && negb (bool_decide (value ∈ elems values))
  then append values [value] else values.

Definition removeString (values : goslice string) (value : string) : goslice string :=
  List.filter (fun existing => negb (bool_decide (existing = value))) <$> values.

(** ** What a slot is generated from *)

Definition generationPrompt (element : StoryboardElement) (slot : AssetSlot) : string * Z :=
  match List.find (fun prompt =>
          bool_decide (pp_Purpose prompt = sl_Key slot) || bool_decide (pp_Purpose prompt = sl_Role slot)
          || bool_decide (pp_Purpose prompt = sl_MediaKind slot) || Contains (sl_Key slot) (pp_Purpose prompt))
        (elems (el_PromptSlots element)) with
  | Some prompt => (pp_Prompt prompt, pp_Revision prompt)
  | None =>
      match elems (el_PromptSlots element) with
      | [prompt] => (pp_Prompt prompt, pp_Revision prompt)
      | _ => ("", 0)
      end
  end.

Definition promptRevisionForSlot (element : StoryboardElement) (slot : AssetSlot) : Z :=
  snd (generationPrompt element slot).

(** [m[key(v)] = v] for each value in turn. *)
Definition index_by {A} (key : A → string) (l : list A) : gmap string A :=
  foldl (fun m v => <[key v := v]> m) ∅ l.

Definition active_assets (bindings : list ArtifactBinding) : gmap string string :=
  foldl (fun m b => if bool_decide (bd_State b = BindingStateActive) then <[bd_ID b := bd_AssetID b]> m else m)
    ∅ bindings.

Section dependency_assets.
Context (elements : gmap string StoryboardElement) (bindingAssets : gmap string string).
Context (targetID slotKey : string).

Definition appendAsset (assets : list string) (bindingID : string) : list string :=
  let assetID := default "" (bindingAssets !! bindingID) in
  if bool_decide (assetID = "") || bool_decide (assetID ∈ assets) then assets else assets ++ [assetID].

Definition edge_applies (edge : DependencyEdge) : bool :=
  bool_decide (ed_ToTargetID edge = targetID)
  && (bool_decide (ed_ToSlot edge = "") || bool_decide (ed_ToSlot edge = slotKey)).

Definition slot_active (slot : AssetSlot) : bool :=
  bool_decide (sl_Status slot = AssetSlotStatusActive) && negb (bool_decide (sl_ActiveBindingID slot = "")).

(** The assets of one slot of the upstream element. *)
Definition named_slot_assets (edge : DependencyEdge) (upstream : StoryboardElement) (assets : list string)
    : result (list string) :=
  let found := List.filter (fun s => bool_decide (sl_Key s = ed_FromSlot edge) && slot_active s)
                 (elems (el_AssetSlots upstream)) in
  match found with
  | [] => Err (Wrapf "" ErrDependencyNotReady (": " +:+ ed_FromTargetID edge +:+ ":" +:+ ed_FromSlot edge))
  | _ => Ok (foldl (fun assets s => appendAsset assets (sl_ActiveBindingID s)) assets found)
  end.

(** The assets of all slots of the upstream element. *)
Fixpoint all_slot_assets (edge : DependencyEdge) (slots : list AssetSlot) (assets : list string)
    : result (list string) :=
  match slots with
  | [] => Ok assets
  | s :: slots' =>
      if sl_Required s && negb (slot_active s)
      then Err (Wrapf "" ErrDependencyNotReady (": " +:+ ed_FromTargetID edge +:+ ":" +:+ sl_Key s))
      else all_slot_assets edge slots' (appendAsset assets (sl_ActiveBindingID s))
  end.

Fixpoint edge_assets (edges : list DependencyEdge) (assets : list string) : result (list string) :=
  match edges with
  | [] => Ok assets
  | edge :: edges' =>
      if negb (edge_applies edge) then edge_assets edges' assets
      else match elements !! ed_FromTargetID edge with
           | None => Err (Wrapf "" ErrDependencyNotReady (": missing upstream target " +:+ ed_FromTargetID edge))
           | Some upstream =>
               try assets' := (if negb (bool_decide (ed_FromSlot edge = ""))
                               then named_slot_assets edge upstream assets
                               else all_slot_assets edge (elems (el_AssetSlots upstream)) assets) in
               edge_assets edges' assets'
           end
  end.
End dependency_assets.

Definition resolveDependencyAssets (a : StoryboardAggregate) (revision : StoryboardRevision)
    (targetID slotKey : string) : result (list string) :=
  edge_assets (index_by el_ID (revision_elements revision)) (active_assets (ag_Bindings a))
    targetID slotKey (rv_Dependencies revision) [].

Section generation_input.
Context `{Digest}.

Definition commandFingerprint (command : any) : string := sha256_json command.

(** The text the fingerprint of an input is taken of. *)
Definition input_text (a : StoryboardAggregate) (revision : StoryboardRevision)
    (element : StoryboardElement) (slot : AssetSlot) (inputAssets : goslice string) (dependencyState : string) : any :=
  let '(prompt, promptRevision) := generationPrompt element slot in
  AArr [AStr (ag_ID a); AInt (rv_DerivedFromSpecVersion revision); AInt (rv_DerivedFromAnalysisVersion revision);
        AStr (rv_Scenario revision); AStr (el_ID element); AInt (el_Revision element); AStr (sl_Key slot);
        AInt (sl_GenerationEpoch slot); AStr prompt; AInt promptRevision;
        match inputAssets with Some l => AArr (AStr <$> l) | None => ANil end; AStr dependencyState].

Definition resolved_input (a : StoryboardAggregate) (revision : StoryboardRevision)
    (element : StoryboardElement) (slot : AssetSlot) : GenerationInput * option error :=
  let '(prompt, promptRevision) := generationPrompt element slot in
  let '(inputAssets, dependencyErr) :=
    match resolveDependencyAssets a revision (el_ID element) (sl_Key slot) with
    | Ok assets => (Some assets, None)
    | Err err => (None, Some err)
    end in
  let dependencyState := match dependencyErr with Some err => err_text err | None => "ready" end in
  (mkGenerationInput (el_ID element) (sl_Key slot) (el_Revision element) prompt promptRevision
     (sl_GenerationEpoch slot) inputAssets
     (sha256_json (input_text a revision element slot inputAssets dependencyState)), dependencyErr).

Definition ResolveGenerationInput (a : StoryboardAggregate) (targetID slotKey : string)
    : GenerationInput * option error :=
  match ActiveRevision a with
  | Err err => (zeroGenerationInput, Some err)
  | Ok revision =>
      match findElement revision (TrimSpace targetID) with
      | None => (zeroGenerationInput, Some (Wrapf "" ErrTargetNotFound (": " +:+ targetID)))
      | Some element =>
          match findAssetSlot element (TrimSpace slotKey) with
          | None => (zeroGenerationInput, Some (Wrapf "" ErrSlotNotFound (": " +:+ slotKey)))
          | Some slot => resolved_input a revision element slot
          end
      end
  end.
End generation_input.

(** ** Facts about finding and updating *)

Section update_facts.
Context {A : Type}.
Implicit Types (p q : A → bool) (f : A → A) (l : list A).

Lemma update_first_fmap {B} (g : A → B) p f l :
  (∀ a, p a = true → g (f a) = g a) → g <$> update_first p f l = g <$> l.
Proof.
  intros Hg. induction l as [|a l IH]; [done|]. cbn.
  destruct (p a) eqn:E; [|by rewrite !fmap_cons, IH]. by rewrite !fmap_cons, Hg.
Qed.

Lemma update_first_none p f l : existsb p l = false → update_first p f l = l.
Proof. induction l as [|a l IH]; [done|]. cbn. destruct (p a); [done|]. cbn. intros H. by rewrite IH. Qed.

Lemma update_first_app p f l1 l2 :
  update_first p f (l1 ++ l2)
  = if existsb p l1 then update_first p f l1 ++ l2 else l1 ++ update_first p f l2.
Proof.
  induction l1 as [|a l1 IH]; [done|]. cbn. destruct (p a); [done|]. cbn. rewrite IH.
  by destruct (existsb p l1).
Qed.

Lemma find_update_first_same p f l :
  (∀ a, p a = true → p (f a) = true) → List.find p (update_first p f l) = f <$> List.find p l.
Proof.
  intros Hf. induction l as [|a l IH]; [done|]. cbn. destruct (p a) eqn:E; cbn.
  - by rewrite Hf.
  - by rewrite E.
Qed.

Lemma find_update_first_other p q f l :
  (∀ a, p a = true → q a = false ∧ q (f a) = false) →
  List.find q (update_first p f l) = List.find q l.
Proof.
  intros Hpq. induction l as [|a l IH]; [done|]. cbn. destruct (p a) eqn:E; cbn.
  - by destruct (Hpq a E) as [-> ->].
  - by rewrite IH.
Qed.

Lemma elem_of_update_first p f l a :
  a ∈ update_first p f l → a ∈ l ∨ ∃ b, b ∈ l ∧ p b = true ∧ a = f b.
Proof.
  induction l as [|b l IH]; [by left|]. cbn. destruct (p b) eqn:E.
  - intros [-> | Ha]%elem_of_cons; [right; exists b; by repeat split; [left|]|left; by right].
  - intros [-> | Ha]%elem_of_cons; [left; by left|].
    destruct (IH Ha) as [?|(c & ? & ? & ->)]; [left; by right|right; exists c; by repeat split; [right|]].
Qed.

Lemma find_elem p l a : List.find p l = Some a → a ∈ l ∧ p a = true.
Proof. intros H. split; [apply list_elem_of_In; by apply find_some in H as []|by apply find_some in H as []]. Qed.
End update_facts.

Lemma revision_elements_update id f r :
  revision_elements (update_element id f r) = update_first (has_element_id id) f (revision_elements r).
Proof.
  unfold revision_elements, update_element. cbn. induction (rv_Modules r) as [|m l IH]; [done|].
  rewrite !bind_cons, update_first_app. cbn [update_first].
  destruct (existsb (has_element_id id) (md_Elements m)); cbn; [done|].
  by rewrite IH.
Qed.

Lemma findElement_update id f r id' :
  (∀ e, el_ID (f e) = el_ID e) →
  findElement (update_element id f r) id'
  = if bool_decide (id = id') then f <$> findElement r id' else findElement r id'.
Proof.
  intros Hf. unfold findElement. rewrite revision_elements_update. case_bool_decide as E; [subst id'|].
  - apply find_update_first_same. unfold has_element_id. intros e. by rewrite Hf.
  - apply find_update_first_other. unfold has_element_id. intros e He. rewrite Hf.
    apply bool_decide_eq_true in He. rewrite bool_decide_false; [done|congruence].
Qed.

Lemma findElement_ID r id e : findElement r id = Some e → el_ID e = id ∧ e ∈ revision_elements r.
Proof. intros [? ?%bool_decide_eq_true]%find_elem. done. Qed.
