(* ===== verification/StoryboardGraph.v ===== *)
(** * Storyboards: the graph of dependencies, [command.go] and [revision.go] of
    [internal/aigc/storyboard]

    The two traversals of the dependencies of a revision: the check that they
    form a directed acyclic graph ([validateDependencyDAG]), and the marking of
    everything downstream of a change as stale ([markDependencyClosure]).  Both
    are worklist algorithms with a fuel; the theorems show that the fuel
    suffices, what is accepted and what is marked. *)

From Stdlib Require Import ZArith Lia.
From stdpp Require Import relations sets.
From S2P Require Import Prelude GoJson StoryboardModels.

(** ** Marking *)

(** The slot is one that the change of [slot] concerns, and has an asset. *)
Definition slot_concerned (slot : string) (s : AssetSlot) : bool :=
  bool_decide (slot = "") || bool_decide (sl_Key s = slot) || bool_decide (sl_Role s = slot)
  || bool_decide (sl_MediaKind s = slot) || Contains (sl_Key s) slot.
Definition slot_occupied (s : AssetSlot) : bool :=
  negb (bool_decide (sl_ActiveBindingID s = "")) || negb (bool_decide (elems (sl_CandidateIDs s) = [])).

Definition mark_asset_slot (slot : string) (s : AssetSlot) : AssetSlot :=
  if slot_concerned slot s && slot_occupied s then s <| sl_Status := AssetSlotStatusStale |> else s.

Definition markElementAssetSlotsStale (slot : string) (element : StoryboardElement) : StoryboardElement :=
  element <| el_AssetSlots := fmap (M:=list) (mark_asset_slot slot) <$> el_AssetSlots element |>.

Definition mark_prompt_slot (slot : string) (p : PromptSlot) : PromptSlot :=
  if bool_decide (slot = "") || bool_decide (pp_Purpose p = slot)
  then p <| pp_Status := PromptStatusStale |> else p.

Definition markElementStale (slot : string) (element : StoryboardElement) : StoryboardElement :=
  markElementAssetSlotsStale slot
    (element <| el_PromptSlots := fmap (M:=list) (mark_prompt_slot slot) <$> el_PromptSlots element |>).

(** A target is an element and a slot of it, [""] for all slots. *)
Abbreviation target := (string * string)%type.

Definition edge_follows (current : target) (edge : DependencyEdge) : bool :=
  bool_decide (ed_FromTargetID edge = fst current)
  && (bool_decide (ed_FromSlot edge = "") || bool_decide (snd current = "")
      || bool_decide (ed_FromSlot edge = snd current)).

Definition edge_next (edge : DependencyEdge) : target := (ed_ToTargetID edge, ed_ToSlot edge).

Record closure_state := mkClosure {
  cl_queue : list target;
  cl_seen : gset target;
  cl_stale : list string;
  cl_revision : StoryboardRevision
}.
#[global] Instance eta_closure_state : Eta closure_state := fun r =>
  mkClosure (cl_queue r) (cl_seen r) (cl_stale r) (cl_revision r).

Definition closure_edge (current : target) (st : closure_state) (edge : DependencyEdge) : closure_state :=
  let next := edge_next edge in
  if negb (edge_follows current edge) || bool_decide (next ∈ cl_seen st) then st
  else
    let st := st <| cl_seen := {[next]} ∪ cl_seen st |> in
    let st := match findElement (cl_revision st) (fst next) with
      | Some _ =>
          st <| cl_revision := update_element (fst next) (markElementStale (snd next)) (cl_revision st) |>
             <| cl_stale := cl_stale st ++ [fst next] |>
      | None => st
      end in
    st <| cl_queue := cl_queue st ++ [next] |>.

Fixpoint closure_loop (fuel : nat) (st : closure_state) : closure_state :=
  match fuel with
  | O => st
  | S fuel' =>
      match cl_queue st with
      | [] => st
      | current :: queue =>
          closure_loop fuel'
            (foldl (closure_edge current) (st <| cl_queue := queue |>) (rv_Dependencies (cl_revision st)))
      end
  end.

(** Each edge enqueues its target at most once. *)
Definition closure_fuel (r : StoryboardRevision) : nat := S (S (length (rv_Dependencies r))).

Definition markDependencyClosure (r : StoryboardRevision) (targetID slot : string)
    : list string * StoryboardRevision :=
  let start := (targetID, slot) in
  let st := closure_loop (closure_fuel r) (mkClosure [start] {[start]} [] r) in
  (cl_stale st, cl_revision st).

(** ** The check for cycles *)

Definition dependency_key (edge : DependencyEdge) : string :=
  let sep := String Ascii.zero "" in
  ed_FromTargetID edge +:+ sep +:+ ed_FromSlot edge +:+ sep +:+ ed_ToTargetID edge +:+ sep
  +:+ ed_ToSlot edge +:+ sep +:+ ed_Relation edge.

Abbreviation adjacency_map := (gmap string (list string)).

Fixpoint collect_edges (edges : list DependencyEdge) (seen : gset string)
    (indegree : gmap string Z) (adjacency : adjacency_map) : result (gmap string Z * adjacency_map) :=
  match edges with
  | [] => Ok (indegree, adjacency)
  | edge :: edges' =>
      let key := dependency_key edge in
      let from := ed_FromTargetID edge in
      let to := ed_ToTargetID edge in
      if bool_decide (key ∈ seen) then Err (Errorf ("duplicate dependency: " +:+ from +:+ " -> " +:+ to))
      else collect_edges edges' ({[key]} ∪ seen)
             (<[to := default 0 (indegree !! to) + 1]> indegree)
             (<[from := default [] (adjacency !! from) ++ [to]]> adjacency)
  end.

(** [indegree[next]--; if indegree[next] == 0 { queue = append(queue, next) }]. *)
Definition kahn_edge (st : gmap string Z * list string) (next : string) : gmap string Z * list string :=
  let '(indegree, queue) := st in
  let degree := default 0 (indegree !! next) - 1 in
  (<[next := degree]> indegree, if degree =? 0 then queue ++ [next] else queue).

Fixpoint kahn (fuel : nat) (adjacency : adjacency_map) (indegree : gmap string Z) (queue : list string)
    (visited : Z) : Z :=
  match fuel with
  | O => visited
  | S fuel' =>
      match queue with
      | [] => visited
      | id :: queue' =>
          let '(indegree', queue'') := foldl kahn_edge (indegree, queue') (default [] (adjacency !! id)) in
          kahn fuel' adjacency indegree' queue'' (visited + 1)
      end
  end.

Definition zero_degree `{MapRange} (indegree : gmap string Z) : list string :=
  fst <$> List.filter (fun '(_, degree) => degree =? 0) (map_range indegree).

Definition validateDependencyDAG `{MapRange} (edges : list DependencyEdge)
    (targets : gmap string StoryboardElement) : option error :=
  match collect_edges edges ∅ ((fun _ => 0) <$> targets) ∅ with
  | Err err => Some err
  | Ok (indegree, adjacency) =>
      let visited := kahn (S (size targets)) adjacency indegree (zero_degree indegree) 0 in
      if negb (visited =? Z.of_nat (size targets))
      then Some (Errorf "storyboard dependencies must form a DAG") else None
  end.

(** * The check accepts exactly the acyclic graphs *)

Definition depends (edges : list DependencyEdge) (x y : string) : Prop :=
  ∃ edge, edge ∈ edges ∧ ed_FromTargetID edge = x ∧ ed_ToTargetID edge = y.

(** The edges into [x] that [P] selects, and the occurrences of [x]. *)
Definition into (P : DependencyEdge → bool) (edges : list DependencyEdge) (x : string) : Z :=
  Z.of_nat (length (List.filter (fun e => bool_decide (ed_ToTargetID e = x) && P e) edges)).
Definition occurrences (x : string) (l : list string) : Z :=
  Z.of_nat (length (List.filter (fun y => bool_decide (y = x)) l)).

Lemma occurrences_cons x y l :
  occurrences x (y :: l) = (if bool_decide (y = x) then 1 else 0) + occurrences x l.
Proof. unfold occurrences. cbn. case_bool_decide; cbn [length]; lia. Qed.

Lemma occurrences_nonneg x l : 0 <= occurrences x l.
Proof. unfold occurrences. lia. Qed.

Lemma occurrences_pos x l : 1 <= occurrences x l ↔ x ∈ l.
Proof.
  induction l as [|y l IH].
  - unfold occurrences. cbn. rewrite elem_of_nil. lia.
  - rewrite occurrences_cons, elem_of_cons. pose proof (occurrences_nonneg x l).
    case_bool_decide as E; [subst; naive_solver lia|]. rewrite <-IH. naive_solver lia.
Qed.

(** The inner loop: the targets appended are those whose last open edge is
    among the ones walked. *)
Lemma foldl_kahn_edge l indegree queue :
  (∀ x, occurrences x l <= default 0 (indegree !! x)) →
  ∃ indegree' new, foldl kahn_edge (indegree, queue) l = (indegree', queue ++ new) ∧
    NoDup new ∧
    (∀ x, default 0 (indegree' !! x) = default 0 (indegree !! x) - occurrences x l) ∧
    ∀ x, x ∈ new ↔ x ∈ l ∧ default 0 (indegree !! x) = occurrences x l.
Proof.
  revert indegree queue. induction l as [|y l IH]; intros indegree queue Hle; cbn [foldl].
  - exists indegree, []. rewrite app_nil_r. split_and!; [done|constructor| |].
    + intros x. unfold occurrences. cbn. lia.
    + intros x. by rewrite !elem_of_nil; naive_solver.
  - set (degree := default 0 (indegree !! y) - 1).
    assert (Hsub : ∀ x, default 0 (<[y:=degree]> indegree !! x)
                        = default 0 (indegree !! x) - if bool_decide (y = x) then 1 else 0).
    { intros x. case_bool_decide as E.
      - subst x. by rewrite lookup_insert_eq.
      - rewrite lookup_insert_ne by done. lia. }
    destruct (IH (<[y:=degree]> indegree) (if degree =? 0 then queue ++ [y] else queue))
      as (indegree' & new & Hfold & Hnd & Hdeg & Hnew).
    { intros x. rewrite Hsub. specialize (Hle x). rewrite occurrences_cons in Hle. lia. }
    assert (Hy : degree = 0 → y ∉ new).
    { intros Hz [Hin Hocc]%Hnew. rewrite Hsub, bool_decide_true in Hocc by done.
      apply occurrences_pos in Hin. subst degree. lia. }
    exists indegree', (if degree =? 0 then y :: new else new). split_and!.
    + unfold kahn_edge at 2. fold degree. rewrite Hfold.
      destruct (degree =? 0); [by rewrite <-app_assoc|done].
    + destruct (Z.eqb_spec degree 0); [constructor; [by apply Hy|done]|done].
    + intros x. rewrite Hdeg, Hsub, occurrences_cons. lia.
    + intros x. rewrite occurrences_cons, elem_of_cons.
      specialize (Hnew x). rewrite Hsub in Hnew.
      pose proof (Hle y) as Hley. rewrite occurrences_cons, bool_decide_true in Hley by done.
      pose proof (occurrences_pos x l) as Hpos. pose proof (occurrences_nonneg x l).
      destruct (Z.eqb_spec degree 0) as [Hd|Hd]; [rewrite elem_of_cons|];
        case_bool_decide as E; [subst y| |subst y|]; rewrite ?Hnew; subst degree.
      * split; [intros _; split; [by left|]|by left].
        pose proof (occurrences_nonneg x l). lia.
      * naive_solver lia.
      * split; [intros [? ?]; split; [by left|lia]|]. intros [_ Hz]. split; [|lia].
        apply Hpos. lia.
      * naive_solver lia.
Qed.

Definition open_edge (done : list string) (edge : DependencyEdge) : bool :=
  negb (bool_decide (ed_FromTargetID edge ∈ done)).

Definition successors (edges : list DependencyEdge) (x : string) : list string :=
  ed_ToTargetID <$> List.filter (fun e => bool_decide (ed_FromTargetID e = x)) edges.

#[local] Arguments into : simpl never.
#[local] Arguments successors : simpl never.
#[local] Arguments occurrences : simpl never.

Lemma into_cons P e edges x :
  into P (e :: edges) x = (if bool_decide (ed_ToTargetID e = x) && P e then 1 else 0) + into P edges x.
Proof. unfold into. cbn. destruct (_ && _); cbn [length]; lia. Qed.

Lemma into_nonneg P edges x : 0 <= into P edges x.
Proof. unfold into. lia. Qed.

Lemma successors_cons e edges x :
  successors (e :: edges) x
  = (if bool_decide (ed_FromTargetID e = x) then [ed_ToTargetID e] else []) ++ successors edges x.
Proof. unfold successors. cbn. by case_bool_decide. Qed.

Lemma into_zero edges done x :
  into (open_edge done) edges x = 0 ↔ ∀ p, depends edges p x → p ∈ done.
Proof.
  unfold depends. induction edges as [|e edges IH].
  - split; [|done]. intros _ p (e & He & _). by apply elem_of_nil in He.
  - rewrite into_cons. pose proof (into_nonneg (open_edge done) edges x).
    unfold open_edge at 1. split.
    + intros Hz p (e' & [-> | He']%elem_of_cons & <- & <-).
      * rewrite bool_decide_true in Hz by done. case_bool_decide; [done|cbn in Hz; lia].
      * apply IH; [|by exists e']. destruct (_ && _); lia.
    + intros Hp. assert (into (open_edge done) edges x = 0) as ->.
      { apply IH. intros p (e' & ? & ? & ?). apply Hp. exists e'. rewrite elem_of_cons. eauto. }
      case_bool_decide as E; [|done]. rewrite bool_decide_true; [done|].
      apply Hp. exists e. rewrite elem_of_cons. eauto.
Qed.

Lemma into_done edges done id x :
  id ∉ done →
  into (open_edge (done ++ [id])) edges x
  = into (open_edge done) edges x - occurrences x (successors edges id).
Proof.
  intros Hid. induction edges as [|e edges IH]; [done|].
  rewrite !into_cons, successors_cons, IH. unfold open_edge.
  destruct (decide (ed_FromTargetID e = id)) as [->|Hne].
  - rewrite (bool_decide_true (id ∈ done ++ [id])) by set_solver.
    rewrite (bool_decide_false (id ∈ done)), (bool_decide_true (id = id)) by done.
    cbn [app negb]. rewrite occurrences_cons, andb_true_r, andb_false_r. lia.
  - rewrite (bool_decide_ext (ed_FromTargetID e ∈ done ++ [id]) (ed_FromTargetID e ∈ done)) by set_solver.
    rewrite (bool_decide_false (ed_FromTargetID e = id)) by done. cbn [app]. lia.
Qed.

Lemma in_successors edges x y : y ∈ successors edges x ↔ depends edges x y.
Proof.
  unfold successors, depends. rewrite list_elem_of_fmap. split.
  - intros (e & -> & He). apply list_elem_of_In, filter_In in He as [He%list_elem_of_In Hx].
    apply bool_decide_eq_true in Hx. by exists e.
  - intros (e & He & Hx & <-). exists e. split; [done|].
    apply list_elem_of_In, filter_In. split; [by apply list_elem_of_In|by apply bool_decide_eq_true].
Qed.

Lemma collect_edges_ok edges seen indegree adjacency :
  (∃ indegree' adjacency', collect_edges edges seen indegree adjacency = Ok (indegree', adjacency')) ↔
  NoDup (dependency_key <$> edges) ∧ ∀ e, e ∈ edges → dependency_key e ∉ seen.
Proof.
  revert seen indegree adjacency. induction edges as [|e edges IH]; intros seen indegree adjacency; cbn.
  - split; [|by eauto]. intros _. split; [constructor|]. intros e He. by apply elem_of_nil in He.
  - rewrite NoDup_cons. case_bool_decide as Hk.
    + split; [by intros (? & ? & ?)|]. intros [_ Hs]. exfalso. by apply (Hs e); [left|].
    + rewrite IH, list_elem_of_fmap. set_solver.
Qed.

Lemma collect_edges_spec edges seen indegree adjacency indegree' adjacency' :
  collect_edges edges seen indegree adjacency = Ok (indegree', adjacency') →
  (∀ x, default 0 (indegree' !! x) = default 0 (indegree !! x) + into (fun _ => true) edges x) ∧
  (∀ x, default [] (adjacency' !! x) = default [] (adjacency !! x) ++ successors edges x) ∧
  (∀ x, is_Some (indegree' !! x) ↔ is_Some (indegree !! x) ∨ ∃ e, e ∈ edges ∧ ed_ToTargetID e = x).
Proof.
  revert seen indegree adjacency. induction edges as [|e edges IH]; intros seen indegree adjacency; cbn.
  - intros [= -> ->]. split_and!.
    + intros x. unfold into. cbn. lia.
    + intros x. unfold successors. cbn. by rewrite app_nil_r.
    + set_solver.
  - case_bool_decide; [done|]. intros (Hi & Ha & Hd)%IH. split_and!; intros x.
    + rewrite Hi, into_cons, andb_true_r. destruct (decide (ed_ToTargetID e = x)) as [<-|Hne].
      * rewrite lookup_insert_eq, bool_decide_true by done. cbn [from_option id]. lia.
      * rewrite lookup_insert_ne, bool_decide_false by done. lia.
    + rewrite Ha, successors_cons. destruct (decide (ed_FromTargetID e = x)) as [<-|Hne].
      * rewrite lookup_insert_eq, bool_decide_true by done. cbn [from_option id]. by rewrite <-app_assoc.
      * by rewrite lookup_insert_ne, bool_decide_false by done.
    + rewrite Hd. destruct (decide (ed_ToTargetID e = x)) as [<-|Hne].
      * rewrite lookup_insert_eq. set_solver.
      * rewrite lookup_insert_ne by done. set_solver.
Qed.

Lemma zero_degree_spec `{MapRange} indegree :
  NoDup (zero_degree indegree) ∧ ∀ x, x ∈ zero_degree indegree ↔ indegree !! x = Some 0.
Proof.
  unfold zero_degree. split.
  - assert (NoDup (map_range indegree).*1) as Hnd.
    { rewrite (map_range_perm indegree). apply NoDup_fst_map_to_list. }
    revert Hnd. induction (map_range indegree) as [|[k d] l IH]; cbn; [done|].
    rewrite NoDup_cons. intros [Hk Hl]. destruct (d =? 0); [|by apply IH]. cbn.
    apply NoDup_cons. split; [|by apply IH]. contradict Hk.
    apply list_elem_of_fmap in Hk as (p & -> & Hp). apply list_elem_of_fmap. exists p.
    split; [done|]. apply list_elem_of_In, filter_In in Hp as [Hp _]. by apply list_elem_of_In.
  - intros x. rewrite list_elem_of_fmap. split.
    + intros ([k d] & -> & Hp). apply list_elem_of_In, filter_In in Hp as [Hp%list_elem_of_In Hd].
      rewrite map_range_perm in Hp. apply elem_of_map_to_list in Hp. apply Z.eqb_eq in Hd. by subst.
    + intros Hx. exists (x, 0). split; [done|]. apply list_elem_of_In, filter_In. split; [|done].
      apply list_elem_of_In. rewrite map_range_perm. by apply elem_of_map_to_list.
Qed.

(** ** The loop

    [done] are the targets taken from the queue.  Those and the queue are the
    targets all of whose sources are done; the degree of a target counts its
    open edges. *)

Section kahn.
Context (edges : list DependencyEdge) (targets : gset string) (adjacency : adjacency_map).
Hypothesis endpoints : ∀ e, e ∈ edges → ed_FromTargetID e ∈ targets ∧ ed_ToTargetID e ∈ targets.
Hypothesis adjacent : ∀ x, default [] (adjacency !! x) = successors edges x.

Record kahn_inv (done queue : list string) (indegree : gmap string Z) : Prop := {
  ki_nodup : NoDup (done ++ queue);
  ki_targets x : x ∈ done ++ queue → x ∈ targets;
  ki_degree x : default 0 (indegree !! x) = into (open_edge done) edges x;
  ki_ready x : x ∈ targets → (x ∈ done ++ queue ↔ ∀ p, depends edges p x → p ∈ done);
  ki_acc x : x ∈ done ++ queue → Acc (depends edges) x
}.

Lemma kahn_step done id queue indegree indegree' queue' :
  kahn_inv done (id :: queue) indegree →
  foldl kahn_edge (indegree, queue) (default [] (adjacency !! id)) = (indegree', queue') →
  kahn_inv (done ++ [id]) queue' indegree'.
Proof.
  intros [Hnd Ht Hdeg Hready Hacc]. rewrite adjacent. intros Hfold.
  apply NoDup_app in Hnd as Hnd'. destruct Hnd' as (_ & Hdisj & Hq).
  assert (id ∉ done) as Hid by (intros Hin; apply (Hdisj id Hin); left).
  assert (Hle : ∀ x, occurrences x (successors edges id) <= default 0 (indegree !! x)).
  { intros x. rewrite Hdeg. pose proof (into_nonneg (open_edge (done ++ [id])) edges x).
    rewrite into_done in H by done. lia. }
  destruct (foldl_kahn_edge _ indegree queue Hle) as (i' & new & E & Hnew & Hdeg' & Hin).
  rewrite E in Hfold. injection Hfold as <- <-.
  assert (Hnew' : ∀ x, x ∈ new → depends edges id x ∧ ∀ p, depends edges p x → p ∈ done ++ [id]).
  { intros x [Hs Hz]%Hin. split; [by apply in_successors|].
    apply into_zero. rewrite into_done, <-Hdeg by done. lia. }
  assert (Hfresh : ∀ x, x ∈ new → x ∉ done ++ id :: queue).
  { intros x Hx Hold. destruct (Hnew' x Hx) as [Hdep _]. apply Hid.
    refine (proj1 (Hready x _) Hold id Hdep). by apply Ht. }
  assert (Hdone : ∀ x, x ∈ done ++ id :: queue → Acc (depends edges) x) by exact Hacc.
  assert (Hsplit : ∀ x, x ∈ (done ++ [id]) ++ queue ++ new ↔ x ∈ done ++ id :: queue ∨ x ∈ new) by set_solver.
  split.
  - rewrite app_assoc. apply NoDup_app. rewrite <-app_assoc. split_and!; [done| |done].
    intros x Hx Hx'. by apply (Hfresh x Hx').
  - intros x [Hx|Hx]%Hsplit; [by apply Ht|]. destruct (Hnew' x Hx) as [(e & He & _ & <-) _].
    by apply endpoints.
  - intros x. rewrite Hdeg', Hdeg, into_done by done. done.
  - intros x Hx. rewrite Hsplit. split.
    + intros [Hold|Hn]; [|by apply Hnew']. intros p Hp. apply elem_of_app. left.
      exact (proj1 (Hready x Hx) Hold p Hp).
    + rewrite <-into_zero, into_done by done. intros Hz.
      pose proof (occurrences_nonneg x (successors edges id)).
      destruct (decide (into (open_edge done) edges x = 0)) as [H0|H0].
      * left. apply (Hready x Hx). by apply into_zero.
      * right. apply Hin. split; [apply occurrences_pos|rewrite Hdeg]; specialize (Hdeg' x); rewrite Hdeg in Hdeg'; lia.
  - intros x [Hx|Hx]%Hsplit; [by apply Hdone|]. constructor. intros p Hp.
    destruct (Hnew' x Hx) as [_ Hpre]. apply Hdone.
    specialize (Hpre p Hp). set_solver.
Qed.

Lemma kahn_length done queue indegree :
  kahn_inv done queue indegree → (length (done ++ queue) ≤ size targets)%nat.
Proof.
  intros [Hnd Ht _ _ _]. rewrite <-(size_list_to_set (C:=gset string)) by done.
  apply subseteq_size. intros x Hx. apply Ht. by apply elem_of_list_to_set in Hx.
Qed.

Lemma kahn_ends fuel done queue indegree visited :
  kahn_inv done queue indegree → visited = Z.of_nat (length done) →
  (size targets < fuel + length done)%nat →
  ∃ done' indegree', kahn fuel adjacency indegree queue visited = Z.of_nat (length done') ∧
    kahn_inv done' [] indegree'.
Proof.
  revert done queue indegree visited. induction fuel as [|fuel IH]; intros done queue indegree visited Hinv Hv Hf.
  - apply kahn_length in Hinv. rewrite length_app in Hinv. lia.
  - cbn. destruct queue as [|id queue]; [by exists done, indegree|].
    destruct (foldl kahn_edge _ _) as [indegree' queue'] eqn:E.
    apply (IH (done ++ [id])); [by eapply kahn_step|rewrite length_app; cbn; lia..].
Qed.

Lemma acyclic_acc x : (∀ y, ¬ tc (depends edges) y y) → Acc (depends edges) x.
Proof.
  intros Hac.
  assert (Hflip : ∀ y z, tc (flip (depends edges)) y z → tc (depends edges) z y).
  { intros y z. induction 1 as [y z Hyz|y z w Hyz _ IH]; [by apply tc_once|].
    eapply tc_r; [exact IH|exact Hyz]. }
  assert (sn (flip (depends edges)) x) as Hsn; [|exact Hsn].
  apply tc_finite_sn.
  - intros y Hy. by apply (Hac y), Hflip.
  - exists (elements targets). intros y Hy%Hflip.
    assert (∃ z, depends edges y z) as (z & e & He & <- & _).
    { inversion Hy; subst; eauto. }
    apply elem_of_elements. by apply endpoints.
Qed.

Lemma acc_no_cycle x : Acc (depends edges) x → ¬ tc (depends edges) x x.
Proof.
  induction 1 as [x _ IH]. intros Hx.
  assert (∃ y, depends edges y x ∧ tc (depends edges) y y) as (y & Hy & Hyy); [|by apply (IH y)].
  assert (Hlast : ∀ a b, tc (depends edges) a b → ∃ y, rtc (depends edges) a y ∧ depends edges y b).
  { clear. induction 1 as [a b Hab|a b c Hab _ (y & Hby & Hyc)]; [by exists a; split; [constructor|]|].
    exists y. split; [by eapply rtc_l|done]. }
  destruct (Hlast x x Hx) as (y & Hxy & Hyx). exists y. split; [done|].
  eapply tc_rtc_r; [by apply tc_once|done].
Qed.

(** Everything is visited exactly when there is no cycle. *)
Lemma kahn_visits_all fuel indegree queue :
  kahn_inv [] queue indegree → (size targets < fuel)%nat →
  kahn fuel adjacency indegree queue 0 = Z.of_nat (size targets) ↔ ∀ x, ¬ tc (depends edges) x x.
Proof.
  intros Hinv Hf. destruct (kahn_ends fuel [] queue indegree 0 Hinv) as (done' & i' & -> & Hend); [done|cbn; lia|].
  pose proof Hend as [Hnd Ht _ Hready Hacc]. rewrite app_nil_r in *. split.
  - intros Hlen x Hx.
    assert (∃ e, e ∈ edges ∧ ed_FromTargetID e = x) as (e & He & <-).
    { inversion Hx as [? ? (e & ? & ? & ?)|? ? ? (e & ? & ? & ?)]; subst; eauto. }
    assert (list_to_set done' = targets) as Heq.
    { apply set_eq. intros y. rewrite elem_of_list_to_set. split; [apply Ht|]. intros Hy.
      assert (list_to_set done' ≡@{gset string} targets) as HE; [|by apply HE in Hy; apply elem_of_list_to_set in Hy].
      apply set_subseteq_size_equiv; [intros z Hz; apply elem_of_list_to_set in Hz; by apply Ht|].
      rewrite size_list_to_set by done. lia. }
    eapply acc_no_cycle; [|exact Hx]. apply Hacc.
    apply (elem_of_list_to_set (C:=gset string)). rewrite Heq. by apply endpoints.
  - intros Hac. f_equal. rewrite <-(size_list_to_set (C:=gset string)) by done. f_equal.
    apply set_eq. intros x. rewrite elem_of_list_to_set. split; [apply Ht|]. intros Hx.
    pose proof (acyclic_acc x Hac) as Hax. induction Hax as [x _ IH]. apply Hready; [done|].
    intros p Hp. apply IH; [done|]. destruct Hp as (e & He & <- & _). by apply endpoints.
Qed.
End kahn.

Lemma dag_check_spec `{MapRange} edges (targets : gmap string StoryboardElement)
    (endpoints : ∀ e, e ∈ edges → is_Some (targets !! ed_FromTargetID e) ∧ is_Some (targets !! ed_ToTargetID e)) :
  validateDependencyDAG edges targets = None ↔
  NoDup (dependency_key <$> edges) ∧ ∀ x, ¬ tc (depends edges) x x.
Proof.
  unfold validateDependencyDAG.
  assert (Hend : ∀ e, e ∈ edges → ed_FromTargetID e ∈ dom targets ∧ ed_ToTargetID e ∈ dom targets).
  { intros e He. rewrite !elem_of_dom. by apply endpoints. }
  pose proof (collect_edges_ok edges ∅ ((fun _ => 0) <$> targets) ∅) as Hok.
  destruct (collect_edges _ _ _ _) as [[indegree adjacency]|err] eqn:E.
  - apply collect_edges_spec in E as (Hi & Ha & Hd).
    assert (NoDup (dependency_key <$> edges)) as Hnd by (apply Hok; eauto).
    assert (Hz : ∀ x, default 0 (((fun _ => 0) <$> targets : gmap string Z) !! x) = 0).
    { intros x. rewrite lookup_fmap. by destruct (targets !! x). }
    destruct (zero_degree_spec indegree) as [Hqn Hq].
    assert (Hopen : ∀ x, into (open_edge []) edges x = into (fun _ => true) edges x).
    { intros x. reflexivity. }
    assert (Hdom : ∀ x, is_Some (indegree !! x) ↔ x ∈ dom targets).
    { intros x. rewrite Hd, elem_of_dom, lookup_fmap, fmap_is_Some. split; [|by left].
      intros [?|(e & He & <-)]; [done|]. by apply endpoints. }
    assert (kahn_inv edges (dom targets) [] (zero_degree indegree) indegree) as Hinv.
    { assert (Hready : ∀ x, x ∈ zero_degree indegree ↔
        x ∈ dom targets ∧ ∀ p, depends edges p x → p ∈ ([] : list string)).
      { intros x. rewrite Hq, <-(into_zero edges []), Hopen, <-Hdom. specialize (Hi x). rewrite Hz in Hi. split.
        - intros Hx. split; [by eexists|]. rewrite Hx in Hi. cbn in Hi. lia.
        - intros [[d Hx] H0]. rewrite Hx in Hi |- *. cbn in Hi. f_equal. lia. }
      split; cbn [app].
      - done.
      - intros x Hx. by apply Hready in Hx as [? _].
      - intros x. rewrite Hi, Hz, Z.add_0_l. reflexivity.
      - intros x Hx. rewrite Hready. naive_solver.
      - intros x [_ Hx]%Hready. constructor. intros p Hp%Hx. by apply elem_of_nil in Hp. }
    rewrite <-(size_dom (D:=gset string)).
    assert (Ha' : ∀ x, default [] (adjacency !! x) = successors edges x) by (intros x; by rewrite Ha, lookup_empty).
    rewrite <-(kahn_visits_all edges (dom targets) adjacency Hend Ha' _ _ _ Hinv (Nat.lt_succ_diag_r _)).
    destruct (Z.eqb_spec (kahn (S (size (dom targets))) adjacency indegree (zero_degree indegree) 0)
                (Z.of_nat (size (dom targets)))); cbn; naive_solver.
  - split; [done|]. intros [Hnd _]. destruct Hok as [_ Hok].
    destruct Hok as (? & ? & ?); [|done]. split; [done|]. intros e _. apply not_elem_of_empty.
Qed.

(** C38. The check of a plan's dependencies accepts exactly the graphs that can be
    worked off: with every edge between targets of the plan,
    [validateDependencyDAG] answers without an error if and only if no edge is
    given twice and no target depends, over any number of edges, on itself,
    whatever order the maps of the code are walked in. *)
Theorem dependency_check_accepts_exactly_dags `{MapRange} edges (targets : gmap string StoryboardElement)
    (endpoints : ∀ e, e ∈ edges → is_Some (targets !! ed_FromTargetID e) ∧ is_Some (targets !! ed_ToTargetID e)) :
  validateDependencyDAG edges targets = None ↔
  NoDup (dependency_key <$> edges) ∧ ∀ x, ¬ tc (depends edges) x x.
Proof. by apply dag_check_spec. Qed.

(** * Marking reaches exactly what is downstream *)

(** [y] is fed by [x] over one edge. *)
Definition feeds (deps : list DependencyEdge) (x y : target) : Prop :=
  ∃ edge, edge ∈ deps ∧ edge_follows x edge = true ∧ edge_next edge = y.

Definition mark_target (r : StoryboardRevision) (y : target) : StoryboardRevision :=
  update_element (fst y) (markElementStale (snd y)) r.

Definition is_target (r : StoryboardRevision) (y : target) : bool :=
  bool_decide (is_Some (findElement r (fst y))).

Lemma markElementStale_ID slot e : el_ID (markElementStale slot e) = el_ID e.
Proof. done. Qed.

Lemma is_target_marked r visited y : is_target (foldl mark_target r visited) y = is_target r y.
Proof.
  revert r. induction visited as [|x visited IH]; intros r; [done|]. cbn. rewrite IH.
  unfold is_target, mark_target. apply bool_decide_ext. rewrite findElement_update by done.
  case_bool_decide; [apply fmap_is_Some|done].
Qed.

Lemma mark_target_missing r y : is_target r y = false → mark_target r y = r.
Proof.
  unfold is_target, mark_target, update_element, findElement. intros H%bool_decide_eq_false.
  rewrite update_first_none; [by destruct r|]. apply not_true_is_false. intros Hm. apply H.
  apply existsb_exists in Hm as (m & Hm & He). apply existsb_exists in He as (e & He & Hid).
  destruct (List.find _ _) eqn:E; [by eexists|]. exfalso.
  eapply find_none in E; [|apply list_elem_of_In, list_elem_of_bind; exists m; split; by apply list_elem_of_In].
  by rewrite Hid in E.
Qed.

Section closure.
Context (r : StoryboardRevision) (start : target).
Let deps := rv_Dependencies r.

(** The state after the targets [visited] have been met. *)
Definition closure_at (queue visited : list target) : closure_state :=
  mkClosure queue (list_to_set (start :: visited))
    (fst <$> List.filter (is_target r) visited) (foldl mark_target r visited).

Definition fresh_next (current : target) (visited : list target) (edge : DependencyEdge) : list target :=
  if edge_follows current edge && negb (bool_decide (edge_next edge ∈ start :: visited))
  then [edge_next edge] else [].

Lemma closure_edge_at current queue visited edge :
  closure_edge current (closure_at queue visited) edge
  = closure_at (queue ++ fresh_next current visited edge) (visited ++ fresh_next current visited edge).
Proof.
  unfold closure_edge, fresh_next. destruct (edge_follows current edge); cbn [negb orb andb];
    [|by rewrite !app_nil_r].
  rewrite (bool_decide_ext (edge_next edge ∈ cl_seen _) (edge_next edge ∈ start :: visited))
    by (cbn [cl_seen closure_at]; apply elem_of_list_to_set).
  destruct (bool_decide (edge_next edge ∈ start :: visited)); cbn [negb]; [by rewrite !app_nil_r|].
  unfold closure_at. rewrite foldl_app, List.filter_app, fmap_app.
  cbn [cl_seen cl_revision cl_stale cl_queue update_field eta_closure_state foldl List.filter].
  assert (list_to_set (start :: visited ++ [edge_next edge])
          = ({[edge_next edge]} ∪ list_to_set (start :: visited) : gset target)) as -> by set_solver.
  pose proof (is_target_marked r visited (edge_next edge)) as Ht.
  destruct (is_target r (edge_next edge)) eqn:E; unfold is_target in Ht, E.
  - apply bool_decide_eq_true in Ht as [e He]. cbn in He |- *. rewrite He. done.
  - apply bool_decide_eq_false in Ht. cbn in Ht |- *.
    destruct (findElement (foldl mark_target r visited) (ed_ToTargetID edge)) eqn:F; [exfalso; apply Ht; by eexists|].
    rewrite app_nil_r, (mark_target_missing (foldl mark_target r visited)); [done|].
    rewrite is_target_marked. exact E.
Qed.

(** One round meets every target that the current one feeds. *)
Lemma closure_round current queue visited edges :
  (∀ e, e ∈ edges → e ∈ deps) → NoDup (start :: visited) →
  ∃ new, foldl (closure_edge current) (closure_at queue visited) edges
         = closure_at (queue ++ new) (visited ++ new) ∧
    NoDup (start :: visited ++ new) ∧
    (∀ y, y ∈ new → feeds deps current y) ∧
    (∀ e, e ∈ edges → edge_follows current e = true → edge_next e ∈ start :: visited ++ new).
Proof.
  revert queue visited. induction edges as [|e edges IH]; intros queue visited Hin Hnd.
  - exists []. rewrite !app_nil_r. set_solver.
  - cbn [foldl]. rewrite closure_edge_at.
    set (new0 := fresh_next current visited e).
    assert (NoDup (start :: visited ++ new0)) as Hnd0.
    { unfold new0, fresh_next. destruct (edge_follows current e); cbn; [|by rewrite app_nil_r].
      case_bool_decide as Hn; cbn; [by rewrite app_nil_r|].
      rewrite app_comm_cons. apply NoDup_app. split_and!; [done|set_solver|apply NoDup_singleton]. }
    destruct (IH (queue ++ new0) (visited ++ new0)) as (new & -> & Hnew & Hfeeds & Hall); [set_solver|done|].
    exists (new0 ++ new). rewrite !app_assoc. split_and!; [done|done| |].
    + intros y [Hy|Hy]%elem_of_app; [|by apply Hfeeds]. exists e.
      unfold new0, fresh_next in Hy. destruct (edge_follows current e); [|by apply elem_of_nil in Hy].
      cbn in Hy. destruct (bool_decide _); cbn in Hy; set_solver.
    + intros e' [-> | He']%elem_of_cons Hf; [|by apply Hall].
      assert (edge_next e ∈ start :: visited ++ new0); [|set_solver].
      unfold new0, fresh_next. rewrite Hf. cbn. case_bool_decide as Hb; cbn; set_solver.
Qed.

Lemma foldl_mark_dependencies visited :
  rv_Dependencies (foldl mark_target r visited) = rv_Dependencies r.
Proof. generalize r. induction visited as [|y v IH]; intros r0; [done|]. cbn. by rewrite IH. Qed.

(** What has been met is reachable; what has been taken from the queue feeds
    only what has been met. *)
Lemma closure_loop_at fuel done queue visited :
  done ++ queue = start :: visited → NoDup (start :: visited) →
  (∀ y, y ∈ visited → ∃ x, rtc (feeds deps) start x ∧ feeds deps x y) →
  (∀ x y, x ∈ done → feeds deps x y → y ∈ start :: visited) →
  (S (length deps) < fuel + length done)%nat →
  ∃ visited', closure_loop fuel (closure_at queue visited) = closure_at [] visited' ∧
    NoDup (start :: visited') ∧
    (∀ y, y ∈ visited' → ∃ x, rtc (feeds deps) start x ∧ feeds deps x y) ∧
    (∀ x y, x ∈ start :: visited' → feeds deps x y → y ∈ start :: visited').
Proof.
  revert done queue visited. induction fuel as [|fuel IH]; intros done queue visited Hsplit Hnd Hreach Hclosed Hf.
  - exfalso.
    assert (length visited ≤ length deps)%nat as Hlen.
    { rewrite <-(length_fmap edge_next deps). apply NoDup_cons in Hnd as [_ Hnd].
      apply submseteq_length, NoDup_submseteq; [done|]. intros y (x & _ & e & He & _ & <-)%Hreach.
      by apply list_elem_of_fmap_2. }
    apply (f_equal length) in Hsplit. rewrite length_app in Hsplit. cbn in Hsplit. lia.
  - cbn [closure_loop]. destruct queue as [|current queue]; cbn [cl_queue closure_at].
    + exists visited. rewrite app_nil_r in Hsplit. subst done. done.
    + assert (rtc (feeds deps) start current) as Hcur.
      { assert (current ∈ start :: visited) as [-> | Hc]%elem_of_cons by (rewrite <-Hsplit; set_solver); [done|].
        destruct (Hreach current Hc) as (x & Hx & Hxc). by eapply rtc_r. }
      change (cl_revision (closure_at (current :: queue) visited)) with (foldl mark_target r visited).
      rewrite foldl_mark_dependencies. fold deps.
      change ((closure_at (current :: queue) visited) <| cl_queue := queue |>) with (closure_at queue visited).
      destruct (closure_round current queue visited deps (fun _ H => H) Hnd)
        as (new & -> & Hnd' & Hfeeds & Hall).
      apply (IH (done ++ [current]) (queue ++ new) (visited ++ new)).
      * rewrite <-app_assoc, app_comm_cons, <-Hsplit. by rewrite <-app_assoc.
      * done.
      * intros y [Hy|Hy]%elem_of_app; [by apply Hreach|]. exists current. split; [done|by apply Hfeeds].
      * intros x y [Hx|Hx]%elem_of_app Hxy.
        -- specialize (Hclosed x y Hx Hxy). set_solver.
        -- apply list_elem_of_singleton in Hx as ->. destruct Hxy as (e & He & Hfo & <-). by apply Hall.
      * rewrite length_app. cbn. lia.
Qed.
End closure.

(** What the marking of the closure does. *)
Lemma markDependencyClosure_spec r targetID slot :
  ∃ visited, markDependencyClosure r targetID slot
    = (fst <$> List.filter (is_target r) visited, foldl mark_target r visited) ∧
    NoDup visited ∧
    ∀ y, y ∈ visited ↔ y ≠ (targetID, slot) ∧ rtc (feeds (rv_Dependencies r)) (targetID, slot) y.
Proof.
  unfold markDependencyClosure. set (start := (targetID, slot)).
  destruct (closure_loop_at r start (closure_fuel r) [] [start] []) as (visited & E & Hnd & Hreach & Hclosed).
  - done.
  - apply NoDup_singleton.
  - intros y Hy. by apply elem_of_nil in Hy.
  - intros x y Hx. by apply elem_of_nil in Hx.
  - unfold closure_fuel. cbn. lia.
  - exists visited. assert (mkClosure [start] {[start]} [] r = closure_at r start [start] []) as Hat.
    { unfold closure_at. cbn. f_equal. set_solver. }
    rewrite Hat, E. apply NoDup_cons in Hnd as [Hs Hnd]. split_and!; [done|done|]. intros y. split.
    + intros Hy. split; [by intros -> |]. destruct (Hreach y Hy) as (x & ? & ?). by eapply rtc_r.
    + intros [Hne Hy]. assert (y ∈ start :: visited) as [? | ?]%elem_of_cons; [|done..].
      apply (rtc_ind_r (R:=feeds (rv_Dependencies r)) (fun y => y ∈ start :: visited) start); [left| |done].
      intros x z _ Hxz Hx. by eapply Hclosed.
Qed.

Definition downstream (r : StoryboardRevision) (start y : target) : Prop :=
  y ≠ start ∧ rtc (feeds (rv_Dependencies r)) start y.

Lemma findElement_marked r visited x :
  findElement (foldl mark_target r visited) x
  = (fun e => foldl (fun e y => if bool_decide (fst y = x) then markElementStale (snd y) e else e) e visited)
      <$> findElement r x.
Proof.
  revert r. induction visited as [|y visited IH]; intros r; cbn; [by destruct (findElement r x)|].
  rewrite IH. unfold mark_target. rewrite findElement_update by done.
  case_bool_decide as E; [|done]. by destruct (findElement r x).
Qed.

Definition mark_slot_of (x : string) (s : AssetSlot) (y : target) : AssetSlot :=
  if bool_decide (fst y = x) then mark_asset_slot (snd y) s else s.

Lemma marked_slots x visited e :
  elems (el_AssetSlots (foldl (fun e y => if bool_decide (fst y = x) then markElementStale (snd y) e else e) e visited))
  = (fun s => foldl (mark_slot_of x) s visited) <$> elems (el_AssetSlots e).
Proof.
  revert e. induction visited as [|y visited IH]; intros e; cbn; [by rewrite list_fmap_id|].
  rewrite IH. assert (∀ s, mark_slot_of x s y = if bool_decide (fst y = x) then mark_asset_slot (snd y) s else s)
    as Hy by done.
  case_bool_decide; [|apply list_fmap_ext; intros i s _; by rewrite Hy].
  unfold markElementStale, markElementAssetSlotsStale. cbn. unfold elems.
  destruct (el_AssetSlots e) as [l|]; cbn [fmap option_fmap option_map from_option id]; [|done].
  rewrite <-list_fmap_compose. apply list_fmap_ext. intros i s _. cbn. by rewrite Hy.
Qed.

Definition concerns (x : string) (s : AssetSlot) (y : target) : bool :=
  bool_decide (fst y = x) && slot_concerned (snd y) s && slot_occupied s.

Lemma marked_slot x visited s :
  foldl (mark_slot_of x) s visited
  = if existsb (concerns x s) visited then s <| sl_Status := AssetSlotStatusStale |> else s.
Proof.
  revert s. induction visited as [|y visited IH]; intros s; [done|]. cbn [foldl existsb].
  rewrite IH. unfold mark_slot_of, mark_asset_slot.
  change (concerns x s y) with (bool_decide (fst y = x) && slot_concerned (snd y) s && slot_occupied s).
  destruct (bool_decide (fst y = x)); [|done]. cbn [andb].
  destruct (slot_concerned (snd y) s && slot_occupied s); [|done]. cbn [orb]. by case_match.
Qed.

(** C36. A change makes exactly what is downstream of it stale.  After
    [markDependencyClosure] from an element and slot, an asset slot of an
    element is stale if it holds an asset and its element and slot can be
    reached over the dependencies, and is as it was before otherwise; nothing else
    of the plan's shape changes; and the elements reported as stale are those reached.
    The walk ends with an empty queue on every graph, with cycles as well. *)
Theorem change_makes_exactly_downstream_stale r targetID slot x e :
  findElement r x = Some e →
  ∃ stale r' e', markDependencyClosure r targetID slot = (stale, r') ∧
    findElement r' x = Some e' ∧ el_ID e' = el_ID e ∧ el_Revision e' = el_Revision e ∧
    length (elems (el_AssetSlots e')) = length (elems (el_AssetSlots e)) ∧
    (x ∈ stale ↔ ∃ y, downstream r (targetID, slot) y ∧ fst y = x) ∧
    ∀ i s, elems (el_AssetSlots e) !! i = Some s →
      ∃ s', elems (el_AssetSlots e') !! i = Some s' ∧
        ((∃ y, downstream r (targetID, slot) y ∧ concerns x s y = true) →
           s' = s <| sl_Status := AssetSlotStatusStale |>) ∧
        ((∀ y, downstream r (targetID, slot) y → concerns x s y = false) → s' = s).
Proof.
  intros He. destruct (markDependencyClosure_spec r targetID slot) as (visited & -> & _ & Hv).
  eexists _, _, _. split; [done|]. rewrite findElement_marked, He. split; [done|].
  set (mark := fun e y => if bool_decide (fst y = x) then markElementStale (snd y) e else e).
  assert (Hsame : ∀ l e0, el_ID (foldl mark e0 l) = el_ID e0 ∧ el_Revision (foldl mark e0 l) = el_Revision e0).
  { induction l as [|y l IH]; intros e0; [done|]. cbn. destruct (IH (mark e0 y)) as [-> ->].
    unfold mark. by case_bool_decide. }
  destruct (Hsame visited e) as [Hid Hrev]. split_and!; [done|done| | |].
  - unfold mark. by rewrite marked_slots, length_fmap.
  - rewrite list_elem_of_fmap. split.
    + intros (y & -> & Hy). apply list_elem_of_In, filter_In in Hy as [Hy%list_elem_of_In _].
      exists y. split; [by apply Hv|done].
    + intros (y & Hy & <-). exists y. split; [done|]. apply list_elem_of_In, filter_In.
      split; [by apply list_elem_of_In, Hv|]. apply bool_decide_eq_true. rewrite He. by eexists.
  - intros i s Hs. exists (foldl (mark_slot_of x) s visited). unfold mark.
    rewrite marked_slots, list_lookup_fmap, Hs. split; [done|]. rewrite marked_slot. split.
    + intros (y & Hy & Hc). assert (existsb (concerns x s) visited = true) as ->; [|done].
      apply existsb_exists. exists y. split; [by apply list_elem_of_In, Hv|done].
    + intros Hno. destruct (existsb _ _) eqn:E; [|done]. exfalso.
      apply existsb_exists in E as (y & Hy%list_elem_of_In & Hc). rewrite Hno in Hc; [done|by apply Hv].
Qed.
