(* ===== verification/StoryboardCommand.v ===== *)
(** * Storyboards: the commands of the aggregate, [internal/aigc/storyboard/command.go]

    Every command is a method that changes the aggregate in place and answers:
    a computation over the aggregate.  A command that fails half way leaves the
    aggregate as far as it has come, as the code does; the service then drops
    its copy.  [now] gives the readings of the clock in their order. *)

From Stdlib Require Import ZArith Lia Ascii.
From S2P Require Import Prelude GoJson StoryboardModels StoryboardGraph.

(** ** Commands *)

Record StoryboardMutationCommand := mkStoryboardMutationCommand {
  mu_CommandID : string;
  mu_IdempotencyKey : string;
  mu_StoryboardID : string;
  mu_BaseVersion : Z;
  mu_Actor : string;
  mu_Source : string;
  mu_TargetID : string;
  mu_ExpectedRevision : Z;
  mu_Field : string;
  mu_Operation : string;
  mu_Value : any
}.
#[global] Instance eta_StoryboardMutationCommand : Eta StoryboardMutationCommand := fun r =>
  mkStoryboardMutationCommand (mu_CommandID r) (mu_IdempotencyKey r) (mu_StoryboardID r)
  (mu_BaseVersion r) (mu_Actor r) (mu_Source r) (mu_TargetID r) (mu_ExpectedRevision r)
  (mu_Field r) (mu_Operation r) (mu_Value r).
Definition zeroStoryboardMutationCommand : StoryboardMutationCommand :=
  mkStoryboardMutationCommand "" "" "" 0 "" "" "" 0 "" "" ANil.

Record UpdatePromptCommand := mkUpdatePromptCommand {
  up_CommandID : string;
  up_StoryboardID : string;
  up_BaseVersion : Z;
  up_TargetID : string;
  up_ExpectedTargetRevision : Z;
  up_Purpose : string;
  up_ExpectedRevision : Z;
  up_Prompt : string;
  up_PromptRef : string;
  up_LockedByUser : bool
}.
#[global] Instance eta_UpdatePromptCommand : Eta UpdatePromptCommand := fun r =>
  mkUpdatePromptCommand (up_CommandID r) (up_StoryboardID r) (up_BaseVersion r) (up_TargetID r)
  (up_ExpectedTargetRevision r) (up_Purpose r) (up_ExpectedRevision r) (up_Prompt r)
  (up_PromptRef r) (up_LockedByUser r).
Definition zeroUpdatePromptCommand : UpdatePromptCommand :=
  mkUpdatePromptCommand "" "" 0 "" 0 "" 0 "" "" false.

Record RegenerationDispatchSnapshot := mkRegenerationDispatchSnapshot {
  rs_Provider : string;
  rs_MediaKind : string;
  rs_UserID : string;
  rs_SpecVersion : Z;
  rs_StoryboardVersion : Z;
  rs_EstimatedPoints : Z;
  rs_Input : GenerationInput;
  rs_Payload : gomap any
}.
#[global] Instance eta_RegenerationDispatchSnapshot : Eta RegenerationDispatchSnapshot := fun r =>
  mkRegenerationDispatchSnapshot (rs_Provider r) (rs_MediaKind r) (rs_UserID r)
  (rs_SpecVersion r) (rs_StoryboardVersion r) (rs_EstimatedPoints r) (rs_Input r)
  (rs_Payload r).
Definition zeroRegenerationDispatchSnapshot : RegenerationDispatchSnapshot :=
  mkRegenerationDispatchSnapshot "" "" "" 0 0 0 zeroGenerationInput None.

Record RegenerateAssetCommand := mkRegenerateAssetCommand {
  rg_CommandID : string;
  rg_StoryboardID : string;
  rg_BaseVersion : Z;
  rg_TargetID : string;
  rg_AssetSlot : string;
  rg_DispatchSnapshot : RegenerationDispatchSnapshot
}.
#[global] Instance eta_RegenerateAssetCommand : Eta RegenerateAssetCommand := fun r =>
  mkRegenerateAssetCommand (rg_CommandID r) (rg_StoryboardID r) (rg_BaseVersion r)
  (rg_TargetID r) (rg_AssetSlot r) (rg_DispatchSnapshot r).
Definition zeroRegenerateAssetCommand : RegenerateAssetCommand :=
  mkRegenerateAssetCommand "" "" 0 "" "" zeroRegenerationDispatchSnapshot.

Record BindAssetCommand := mkBindAssetCommand {
  bc_CommandID : string;
  bc_StoryboardID : string;
  bc_BaseVersion : Z;
  bc_BindingID : string;
  bc_TargetID : string;
  bc_AssetSlot : string;
  bc_AssetID : string;
  bc_AttemptID : string;
  bc_ApprovalID : string;
  bc_TargetRevision : Z;
  bc_PromptRevision : Z;
  bc_GenerationEpoch : Z;
  bc_InputFingerprint : string;
  bc_Activate : bool
}.
#[global] Instance eta_BindAssetCommand : Eta BindAssetCommand := fun r =>
  mkBindAssetCommand (bc_CommandID r) (bc_StoryboardID r) (bc_BaseVersion r) (bc_BindingID r)
  (bc_TargetID r) (bc_AssetSlot r) (bc_AssetID r) (bc_AttemptID r) (bc_ApprovalID r)
  (bc_TargetRevision r) (bc_PromptRevision r) (bc_GenerationEpoch r) (bc_InputFingerprint r)
  (bc_Activate r).
Definition zeroBindAssetCommand : BindAssetCommand :=
  mkBindAssetCommand "" "" 0 "" "" "" "" "" "" 0 0 0 "" false.

Record ActivateBindingCommand := mkActivateBindingCommand {
  av_CommandID : string;
  av_StoryboardID : string;
  av_BaseVersion : Z;
  av_BindingID : string
}.
#[global] Instance eta_ActivateBindingCommand : Eta ActivateBindingCommand := fun r =>
  mkActivateBindingCommand (av_CommandID r) (av_StoryboardID r) (av_BaseVersion r)
  (av_BindingID r).
Definition zeroActivateBindingCommand : ActivateBindingCommand :=
  mkActivateBindingCommand "" "" 0 "".

Record RejectBindingCommand := mkRejectBindingCommand {
  rj_CommandID : string;
  rj_StoryboardID : string;
  rj_BaseVersion : Z;
  rj_BindingID : string
}.
#[global] Instance eta_RejectBindingCommand : Eta RejectBindingCommand := fun r =>
  mkRejectBindingCommand (rj_CommandID r) (rj_StoryboardID r) (rj_BaseVersion r)
  (rj_BindingID r).
Definition zeroRejectBindingCommand : RejectBindingCommand :=
  mkRejectBindingCommand "" "" 0 "".

Definition BindingDispositionCandidate := "bound_candidate".
Definition BindingDispositionActive := "bound_active".
Definition BindingDispositionSuperseded := "superseded".

(** *** Their JSON texts *)

Definition json_StoryboardMutationCommand (r : StoryboardMutationCommand) : any :=
  AObj (str_field "command_id" (mu_CommandID r) ++
    str_field "idempotency_key" (mu_IdempotencyKey r) ++
    str_field "storyboard_id" (mu_StoryboardID r) ++
    int_field "base_version" (mu_BaseVersion r) ++ str_field_opt "actor" (mu_Actor r) ++
    str_field "source" (mu_Source r) ++ str_field "target_id" (mu_TargetID r) ++
    int_field_opt "expected_revision" (mu_ExpectedRevision r) ++
    str_field "field" (mu_Field r) ++ str_field "operation" (mu_Operation r) ++
    any_field_opt "value" (mu_Value r)).

Definition json_UpdatePromptCommand (r : UpdatePromptCommand) : any :=
  AObj (str_field "command_id" (up_CommandID r) ++ str_field "storyboard_id" (up_StoryboardID r) ++
    int_field "base_version" (up_BaseVersion r) ++ str_field "target_id" (up_TargetID r) ++
    int_field_opt "expected_target_revision" (up_ExpectedTargetRevision r) ++
    str_field "purpose" (up_Purpose r) ++
    int_field "expected_revision" (up_ExpectedRevision r) ++
    str_field "prompt" (up_Prompt r) ++ str_field_opt "prompt_ref" (up_PromptRef r) ++
    bool_field "locked_by_user" (up_LockedByUser r)).

Definition json_RegenerationDispatchSnapshot (r : RegenerationDispatchSnapshot) : any :=
  AObj (str_field "provider" (rs_Provider r) ++ str_field "media_kind" (rs_MediaKind r) ++
    str_field "user_id" (rs_UserID r) ++ int_field "spec_version" (rs_SpecVersion r) ++
    int_field "storyboard_version" (rs_StoryboardVersion r) ++
    int_field "estimated_points" (rs_EstimatedPoints r) ++
    [("input", json_GenerationInput (rs_Input r))] ++ map_field "payload" (rs_Payload r)).

Definition json_RegenerateAssetCommand (r : RegenerateAssetCommand) : any :=
  AObj (str_field "command_id" (rg_CommandID r) ++ str_field "storyboard_id" (rg_StoryboardID r) ++
    int_field "base_version" (rg_BaseVersion r) ++ str_field "target_id" (rg_TargetID r) ++
    str_field "asset_slot" (rg_AssetSlot r) ++
    [("dispatch_snapshot", json_RegenerationDispatchSnapshot (rg_DispatchSnapshot r))]).

Definition json_BindAssetCommand (r : BindAssetCommand) : any :=
  AObj (str_field "command_id" (bc_CommandID r) ++ str_field "storyboard_id" (bc_StoryboardID r) ++
    int_field "base_version" (bc_BaseVersion r) ++ str_field "binding_id" (bc_BindingID r) ++
    str_field "target_id" (bc_TargetID r) ++ str_field "asset_slot" (bc_AssetSlot r) ++
    str_field "asset_id" (bc_AssetID r) ++ str_field_opt "attempt_id" (bc_AttemptID r) ++
    str_field_opt "approval_id" (bc_ApprovalID r) ++
    int_field "target_revision" (bc_TargetRevision r) ++
    int_field "prompt_revision" (bc_PromptRevision r) ++
    int_field "generation_epoch" (bc_GenerationEpoch r) ++
    str_field_opt "input_fingerprint" (bc_InputFingerprint r) ++
    bool_field_opt "activate" (bc_Activate r)).

Definition json_ActivateBindingCommand (r : ActivateBindingCommand) : any :=
  AObj (str_field "command_id" (av_CommandID r) ++ str_field "storyboard_id" (av_StoryboardID r) ++
    int_field "base_version" (av_BaseVersion r) ++ str_field "binding_id" (av_BindingID r)).

Definition json_RejectBindingCommand (r : RejectBindingCommand) : any :=
  AObj (str_field "command_id" (rj_CommandID r) ++ str_field "storyboard_id" (rj_StoryboardID r) ++
    int_field "base_version" (rj_BaseVersion r) ++ str_field "binding_id" (rj_BindingID r)).

(** ** Fields of a mutation *)

(** [strings.Trim(s, "/")]. *)
Fixpoint drop_slashes (l : list ascii) : list ascii :=
  match l with
  | a :: l' => if Ascii.eqb a "/"%char then drop_slashes l' else l
  | [] => []
  end.
Definition trim_slashes (l : list ascii) : list ascii := reverse (drop_slashes (reverse (drop_slashes l))).

(** [strings.ReplaceAll(s, "/", ".")]. *)
Definition slash_to_dot (a : ascii) : ascii := if Ascii.eqb a "/"%char then "."%char else a.

(** [strings.Split(s, ".")]. *)
Fixpoint split_dots (l : list ascii) : list (list ascii) :=
  match l with
  | [] => [[]]
  | a :: l' =>
      if Ascii.eqb a "."%char then [] :: split_dots l'
      else match split_dots l' with
           | part :: parts => (a :: part) :: parts
           | [] => [[a]]
           end
  end.

Definition is_digit (a : ascii) : bool := (48 <=? nat_of_ascii a)%nat && (nat_of_ascii a <=? 57)%nat.
Definition digits_value (l : list ascii) : Z :=
  foldl (fun v a => v * 10 + Z.of_nat (nat_of_ascii a - 48)) 0 l.

(** [_, err := strconv.Atoi(part); err == nil]. *)
Definition is_integer (part : list ascii) : bool :=
  let '(sign, digits) := match part with
    | a :: l => if Ascii.eqb a "-"%char then (-1, l) else if Ascii.eqb a "+"%char then (1, l) else (1, part)
    | [] => (1, [])
    end in
  let value := sign * digits_value digits in
  match digits with [] => false | _ => forallb is_digit digits end
  && (int64_min <=? value) && (value <=? int64_max).

Definition bad_part (part : list ascii) : bool :=
  match part with
  | [] => false
  | _ => is_integer part || existsb (fun a => Ascii.eqb a "["%char || Ascii.eqb a "]"%char) part
  end.

Definition normalizeMutationField (field : string) : result string :=
  let field := slash_to_dot <$> trim_slashes (String.list_ascii_of_string (TrimSpace field)) in
  if existsb bad_part (split_dots field)
  then Err (Wrapf "" ErrInvalidMutation ": array-index paths are not accepted")
  else match field with
       | [] => Err (Wrapf "" ErrInvalidMutation ": field is required")
       | _ => Ok (String.string_of_list_ascii field)
       end.

(** A float that is an integer of [int]'s range is one; out of that range the
    conversion back differs from the value. *)
Definition asInt (value : any) : option Z :=
  match value with
  | AInt z => Some z
  | AFloat m e =>
      let '(z, integral) := if 0 <=? e then (m * 2 ^ e, true)
        else (Z.quot m (2 ^ (- e)), Z.rem m (2 ^ (- e)) =? 0) in
      if integral && (int64_min <=? z) && (z <=? int64_max) then Some z else None
  | _ => None
  end.

Definition drop_prefix_string (p s : string) : string :=
  if HasPrefix s p then String.substring (String.length p) (String.length s - String.length p) s else s.

(** The map is made before the operation is looked at. *)
Definition mutateMap (target : gomap any) (key operation : string) (value : any) : option error * gomap any :=
  if blank key then (Some (Wrapf "" ErrInvalidMutation ": map key is required"), target)
  else
    let m := default ∅ target in
    if bool_decide (operation = "set") then (None, Some (<[key := value]> m))
    else if bool_decide (operation = "unset") then (None, Some (delete key m))
    else (Some (Wrapf "" ErrInvalidMutation ": map fields support set/unset"), Some m).

Definition operation_or_set (operation : string) : string :=
  let operation := TrimSpace operation in if bool_decide (operation = "") then "set" else operation.

Definition answer {A} (err : option error) (a : A) : result A :=
  match err with Some e => Err e | None => Ok a end.

Section mutations.
Context `{Formatting}.

(** The answer is whether what is generated changes. *)
Definition mutateModule (field operation : string) (value : any) : Eff StoryboardModule (result bool) := fun module =>
  let operation := operation_or_set operation in
  let sets := bool_decide (operation = "set") in
  if bool_decide (field = "title") && sets then (Ok true, module <| md_Title := Sprint value |>)
  else if bool_decide (field = "description") && sets then (Ok true, module <| md_Description := Sprint value |>)
  else if bool_decide (field = "order") && (sets || bool_decide (operation = "reorder")) then
    match asInt value with
    | Some order =>
        if order <=? 0 then (Err (Wrapf "" ErrInvalidMutation ": order must be a positive integer"), module)
        else (Ok true, module <| md_Order := order |>)
    | None => (Err (Wrapf "" ErrInvalidMutation ": order must be a positive integer"), module)
    end
  else if HasPrefix field "metadata." then
    let '(err, m) := mutateMap (md_Metadata module) (drop_prefix_string "metadata." field) operation value in
    (answer err false, module <| md_Metadata := m |>)
  else (Err (Wrapf "" ErrInvalidMutation (": unsupported module field " +:+ field)), module).

Definition mutateElement (field operation : string) (value : any) : Eff StoryboardElement (result bool) := fun element =>
  let operation := operation_or_set operation in
  let sets := bool_decide (operation = "set") in
  if bool_decide (field = "title") && sets then (Ok true, element <| el_Title := Sprint value |>)
  else if bool_decide (field = "semantic_type") && sets then
    (Ok true, element <| el_SemanticType := Sprint value |>)
  else if bool_decide (field = "review_state") && sets then
    (Ok false, element <| el_ReviewState := Sprint value |>)
  else if HasPrefix field "metadata." then
    let '(err, m) := mutateMap (el_Metadata element) (drop_prefix_string "metadata." field) operation value in
    (answer err false, element <| el_Metadata := m |>)
  else if HasPrefix field "content." then
    let '(err, m) := mutateMap (el_Content element) (drop_prefix_string "content." field) operation value in
    (answer err true, element <| el_Content := m |>)
  else if bool_decide (field = "locked_fields") then
    let valueString := TrimSpace (Sprint value) in
    if bool_decide (operation = "add_ref") then
      (Ok false, element <| el_LockedFields := appendUniqueString (el_LockedFields element) valueString |>)
    else if bool_decide (operation = "remove_ref") then
      (Ok false, element <| el_LockedFields := removeString (el_LockedFields element) valueString |>)
    else (Err (Wrapf "" ErrInvalidMutation ": locked_fields supports add_ref/remove_ref"), element)
  else (Err (Wrapf "" ErrInvalidMutation (": unsupported element field " +:+ field)), element).
End mutations.

(** ** Bindings *)

Definition nextArtifactRevision (bindings : list ArtifactBinding) (targetID slot : string) : Z :=
  incr (foldl (fun maxRevision b =>
    if bool_decide (bd_TargetID b = targetID) && bool_decide (bd_AssetSlot b = slot)
       && (maxRevision <? bd_ArtifactRevision b)
    then bd_ArtifactRevision b else maxRevision) 0 bindings).

Definition dispositionForState (state : string) : string :=
  if bool_decide (state = BindingStateActive) then BindingDispositionActive
  else if bool_decide (state = BindingStateCandidate) then BindingDispositionCandidate
  else BindingDispositionSuperseded.

Abbreviation agg := (Eff StoryboardAggregate).

Section commands.
Context `{Digest} `{Formatting}.
Context (now : nat → Time).

Definition put_revision (r : StoryboardRevision) (a : StoryboardAggregate) : StoryboardAggregate :=
  update_revision (rv_ID r) (fun _ => r) a.

(** The slot of an element of the active revision. *)
Definition update_active_slot (targetID slotKey : string) (f : AssetSlot → AssetSlot)
    (a : StoryboardAggregate) : StoryboardAggregate :=
  update_revision (ag_ActiveRevisionID a) (update_element targetID (update_slot slotKey f)) a.

Definition current_input_matches (binding : ArtifactBinding) (current : GenerationInput) (err : option error) : bool :=
  bool_decide (err = None)
  && (bd_TargetRevision binding =? gi_TargetRevision current)
  && (bd_PromptRevision binding =? gi_PromptRevision current)
  && (bd_GenerationEpoch binding =? gi_GenerationEpoch current)
  && negb (blank (bd_InputFingerprint binding))
  && bool_decide (bd_InputFingerprint binding = gi_Fingerprint current).

Definition release_candidate (bindingID : string) (slot : AssetSlot) : AssetSlot :=
  let slot := slot <| sl_CandidateIDs := removeString (sl_CandidateIDs slot) bindingID |> in
  if bool_decide (sl_Status slot = AssetSlotStatusStale) then slot
  else if bool_decide (sl_ActiveBindingID slot = "") then slot <| sl_Status := AssetSlotStatusMissing |>
  else slot <| sl_Status := AssetSlotStatusActive |>.

(** One round of the loop over the bindings, which are updated by index. *)
Definition supersede_if_invalid (a : StoryboardAggregate) (index : nat) : StoryboardAggregate :=
  match ag_Bindings a !! index with
  | None => a
  | Some binding =>
      if negb (bool_decide (bd_State binding = BindingStateCandidate)) then a
      else
        let '(current, resolveErr) := ResolveGenerationInput a (bd_TargetID binding) (bd_AssetSlot binding) in
        if current_input_matches binding current resolveErr then a
        else
          let a := a <| ag_Bindings :=
                          alter (fun b => b <| bd_State := BindingStateSuperseded |>) index (ag_Bindings a) |> in
          update_active_slot (bd_TargetID binding) (bd_AssetSlot binding) (release_candidate (bd_ID binding)) a
  end.

Definition supersedeInvalidCandidates (a : StoryboardAggregate) : StoryboardAggregate :=
  match mutableActiveRevision a with
  | Err _ => a
  | Ok _ => foldl supersede_if_invalid a (seq 0 (length (ag_Bindings a)))
  end.

Definition slot_references (slot : AssetSlot) : list string :=
  (if bool_decide (sl_ActiveBindingID slot = "") then [] else [sl_ActiveBindingID slot])
  ++ elems (sl_CandidateIDs slot).

Definition referenced_bindings (revision : StoryboardRevision) : list string :=
  revision_elements revision ≫= fun e => elems (el_AssetSlots e) ≫= slot_references.

Definition supersedeUnreferencedBindings (revision : StoryboardRevision) (a : StoryboardAggregate)
    : StoryboardAggregate :=
  let referenced := referenced_bindings revision in
  a <| ag_Bindings := (fun b =>
         if negb (bool_decide (bd_State b = BindingStateCandidate))
            && negb (bool_decide (bd_State b = BindingStateActive)) then b
         else if bool_decide (bd_ID b ∈ referenced) then b
         else b <| bd_State := BindingStateSuperseded |>) <$> ag_Bindings a |>.

(** The replay check that every command begins with. *)
Definition once {A} (commandID fingerprint : string) (replayed : agg (result A)) (k : agg (result A))
    : agg (result A) := fun a =>
  match checkAppliedCommand a commandID fingerprint with
  | Err err => (Err err, a)
  | Ok true => replayed a
  | Ok false => k a
  end.

Definition versioned {A} (baseVersion : Z) (k : agg (result A)) : agg (result A) := fun a =>
  check (checkVersion a baseVersion) k a.

Definition revision_mismatch (before : string) (current expected : Z) : error :=
  Wrapf "" ErrRevisionMismatch (": " +:+ before +:+ "current=" +:+ pretty current +:+ " expected=" +:+ pretty expected).

(** All elements of the module at index [i] and what is downstream of them. *)
Definition stale_element (moduleID : string) (st : list string * StoryboardRevision) (index : nat)
    : list string * StoryboardRevision :=
  let '(stale, revision) := st in
  let revision := update_module moduleID (fun m =>
    m <| md_Elements := alter (markElementStale "") index (md_Elements m) |>) revision in
  match findModule revision moduleID ≫= fun m => md_Elements m !! index with
  | None => (stale, revision)
  | Some element =>
      let '(closure, revision) := markDependencyClosure revision (el_ID element) "" in
      (stale ++ el_ID element :: closure, revision)
  end.

Definition finish {A} (id commandID fingerprint : string) (value : A) (a : StoryboardAggregate)
    : result A * StoryboardAggregate :=
  (Ok value, touchCommand (now 1) commandID fingerprint
     (update_revision id (fun r => r <| rv_UpdatedAt := now 0 |>) a)).

Definition mutate_module (command : StoryboardMutationCommand) (fingerprint field : string)
    (revision : StoryboardRevision) (module : StoryboardModule) : agg (result (list string)) := fun a =>
  if (0 <? mu_ExpectedRevision command) && negb (md_Revision module =? mu_ExpectedRevision command)
  then (Err (revision_mismatch "" (md_Revision module) (mu_ExpectedRevision command)), a)
  else
    let '(changed, module) := mutateModule field (mu_Operation command) (mu_Value command) module in
    let keep m := put_revision (update_module (mu_TargetID command) (fun _ => m) revision) a in
    match changed with
    | Err err => (Err err, keep module)
    | Ok generationChanged =>
        let module := module <| md_Revision := incr (md_Revision module) |> in
        let '(stale, a) :=
          if generationChanged then
            let '(stale, revision) := foldl (stale_element (mu_TargetID command))
              ([], update_module (mu_TargetID command) (fun _ => module) revision)
              (seq 0 (length (md_Elements module))) in
            (stale, supersedeInvalidCandidates (put_revision revision a))
          else ([], keep module) in
        finish (rv_ID revision) (mu_CommandID command) fingerprint (uniqueSorted stale) a
    end.

Definition mutate_element (command : StoryboardMutationCommand) (fingerprint field : string)
    (revision : StoryboardRevision) (element : StoryboardElement) : agg (result (list string)) := fun a =>
  if (0 <? mu_ExpectedRevision command) && negb (el_Revision element =? mu_ExpectedRevision command)
  then (Err (revision_mismatch "" (el_Revision element) (mu_ExpectedRevision command)), a)
  else
    let '(changed, element) := mutateElement field (mu_Operation command) (mu_Value command) element in
    let put e := update_element (mu_TargetID command) (fun _ => e) revision in
    match changed with
    | Err err => (Err err, put_revision (put element) a)
    | Ok generationChanged =>
        let element := element <| el_Revision := incr (el_Revision element) |> in
        let '(stale, a) :=
          if generationChanged then
            let '(closure, revision) :=
              markDependencyClosure (put (markElementStale "" element)) (el_ID element) "" in
            (el_ID element :: closure, supersedeInvalidCandidates (put_revision revision a))
          else ([], put_revision (put element) a) in
        finish (rv_ID revision) (mu_CommandID command) fingerprint (uniqueSorted stale) a
    end.

Definition ApplyMutation (command : StoryboardMutationCommand) : agg (result (list string)) := fun a =>
  if negb (bool_decide (mu_StoryboardID command = "")) && negb (bool_decide (mu_StoryboardID command = ag_ID a))
  then (Err (Wrapf "" ErrInvalidMutation ": storyboard id mismatch"), a)
  else
    let fingerprint := commandFingerprint (json_StoryboardMutationCommand command) in
    once (mu_CommandID command) fingerprint (ret (Ok []))
      (versioned (mu_BaseVersion command) (fun a =>
        match normalizeMutationField (mu_Field command) with
        | Err err => (Err err, a)
        | Ok field =>
            match mutableReviewRevision a with
            | Err err => (Err err, a)
            | Ok revision =>
                match findModule revision (mu_TargetID command) with
                | Some module => mutate_module command fingerprint field revision module a
                | None =>
                    match findElement revision (mu_TargetID command) with
                    | None => (Err (Wrapf "" ErrTargetNotFound (": " +:+ mu_TargetID command)), a)
                    | Some element => mutate_element command fingerprint field revision element a
                    end
                end
            end
        end)) a.

Definition updated_prompt (command : UpdatePromptCommand) (slot : PromptSlot) : PromptSlot :=
  let prompt := TrimSpace (up_Prompt command) in
  slot <| pp_Prompt := prompt |> <| pp_PromptRef := TrimSpace (up_PromptRef command) |>
       <| pp_Status := if bool_decide (prompt = "") then PromptStatusMissing else PromptStatusReady |>
       <| pp_LockedByUser := up_LockedByUser command |> <| pp_Revision := incr (pp_Revision slot) |>.

Definition has_purpose (purpose : string) (slot : PromptSlot) : bool := bool_decide (pp_Purpose slot = purpose).

Definition update_prompt (command : UpdatePromptCommand) (fingerprint : string) (revision : StoryboardRevision)
    (element : StoryboardElement) : agg (result (list string)) := fun a =>
  let purpose := TrimSpace (up_Purpose command) in
  match List.find (has_purpose purpose) (elems (el_PromptSlots element)) with
  | None =>
      (Err (Wrapf "" ErrSlotNotFound (": prompt " +:+ purpose +:+ " on target " +:+ up_TargetID command)), a)
  | Some slot =>
      if (0 <? up_ExpectedRevision command) && negb (pp_Revision slot =? up_ExpectedRevision command)
      then (Err (revision_mismatch "prompt " (pp_Revision slot) (up_ExpectedRevision command)), a)
      else
        let edit e := markElementAssetSlotsStale purpose
          (e <| el_PromptSlots := update_first (has_purpose purpose) (updated_prompt command) <$> el_PromptSlots e |>) in
        let '(closure, revision) :=
          markDependencyClosure (update_element (up_TargetID command) edit revision) (el_ID element) purpose in
        finish (rv_ID revision) (up_CommandID command) fingerprint (uniqueSorted (el_ID element :: closure))
          (supersedeInvalidCandidates (put_revision revision a))
  end.

Definition UpdatePrompt (command : UpdatePromptCommand) : agg (result (list string)) :=
  let fingerprint := commandFingerprint (json_UpdatePromptCommand command) in
  once (up_CommandID command) fingerprint (ret (Ok []))
    (versioned (up_BaseVersion command) (fun a =>
      match mutableReviewRevision a with
      | Err err => (Err err, a)
      | Ok revision =>
          match findElement revision (up_TargetID command) with
          | None => (Err (Wrapf "" ErrTargetNotFound (": " +:+ up_TargetID command)), a)
          | Some element =>
              if (0 <? up_ExpectedTargetRevision command)
                 && negb (el_Revision element =? up_ExpectedTargetRevision command)
              then (Err (revision_mismatch "target " (el_Revision element) (up_ExpectedTargetRevision command)), a)
              else update_prompt command fingerprint revision element a
          end
      end)).

Definition assetSlot (a : StoryboardAggregate) (targetID slotKey : string) : option AssetSlot :=
  match ActiveRevision a with
  | Err _ => None
  | Ok revision => findElement revision targetID ≫= fun e => findAssetSlot e slotKey
  end.

Definition mutableAssetSlot (a : StoryboardAggregate) (targetID slotKey : string) : result AssetSlot :=
  match mutableActiveRevision a with
  | Err err => Err err
  | Ok revision =>
      match findElement revision targetID with
      | None => Err (Wrapf "" ErrTargetNotFound (": " +:+ targetID))
      | Some element =>
          match findAssetSlot element slotKey with
          | None => Err (Wrapf "" ErrSlotNotFound (": " +:+ slotKey))
          | Some slot => Ok slot
          end
      end
  end.

Definition snapshot_error (command : RegenerateAssetCommand) (a : StoryboardAggregate) (slot : AssetSlot)
    : option error :=
  let snapshot := rg_DispatchSnapshot command in
  if blank (rs_Provider snapshot) then None
  else
    let '(input, resolveErr) := ResolveGenerationInput a (rg_TargetID command) (rg_AssetSlot command) in
    if negb (bool_decide (resolveErr = None)) || negb (bool_decide (input = rs_Input snapshot))
       || negb (rs_StoryboardVersion snapshot =? incr (ag_Version a))
    then Some (Wrapf "" ErrInvalidMutation ": regeneration dispatch snapshot does not match accepted input")
    else
      let fits := match ActiveRevision a with
        | Err _ => false
        | Ok active =>
            (rs_SpecVersion snapshot =? rv_DerivedFromSpecVersion active)
            && bool_decide (TrimSpace (rs_MediaKind snapshot) = TrimSpace (sl_MediaKind slot))
            && match rs_Payload snapshot with Some _ => true | None => false end
        end in
      if fits then None
      else Some (Wrapf "" ErrInvalidMutation ": regeneration dispatch metadata does not match storyboard").

Definition RegenerateAsset (command : RegenerateAssetCommand) : agg (result Z) :=
  let fingerprint := commandFingerprint (json_RegenerateAssetCommand command) in
  once (rg_CommandID command) fingerprint
    (fun a => (match assetSlot a (rg_TargetID command) (rg_AssetSlot command) with
               | None => Err ErrSlotNotFound | Some slot => Ok (sl_GenerationEpoch slot) end, a))
    (versioned (rg_BaseVersion command) (fun a =>
      match mutableAssetSlot a (rg_TargetID command) (rg_AssetSlot command) with
      | Err err => (Err err, a)
      | Ok slot =>
          let epoch := incr (sl_GenerationEpoch slot) in
          let a := update_active_slot (rg_TargetID command) (rg_AssetSlot command)
                     (fun s => s <| sl_GenerationEpoch := epoch |>) a in
          match snapshot_error command a slot with
          | Some err => (Err err, a)
          | None =>
              (Ok epoch, touchCommand (now 0) (rg_CommandID command) fingerprint (supersedeInvalidCandidates a))
          end
      end)).

Definition resolvable (err : option error) : bool :=
  match err with None => true | Some e => errors_Is e ErrDependencyNotReady end.

Definition binding_is_current (binding : ArtifactBinding) (element : StoryboardElement) (slot : AssetSlot)
    (current : GenerationInput) (inputErr : option error) : bool :=
  (bd_TargetRevision binding =? el_Revision element)
  && (bd_PromptRevision binding =? promptRevisionForSlot element slot)
  && (bd_GenerationEpoch binding =? sl_GenerationEpoch slot)
  && resolvable inputErr && negb (bool_decide (bd_InputFingerprint binding = ""))
  && bool_decide (bd_InputFingerprint binding = gi_Fingerprint current).

Definition supersede_active (binding : ArtifactBinding) (other : ArtifactBinding) : ArtifactBinding :=
  if bool_decide (bd_TargetID other = bd_TargetID binding) && bool_decide (bd_AssetSlot other = bd_AssetSlot binding)
     && bool_decide (bd_State other = BindingStateActive)
  then other <| bd_State := BindingStateSuperseded |> else other.

Definition activated_slot (bindingID : string) (slot : AssetSlot) : AssetSlot :=
  slot <| sl_ActiveBindingID := bindingID |>
       <| sl_CandidateIDs := removeString (sl_CandidateIDs slot) bindingID |>
       <| sl_Status := AssetSlotStatusActive |>.

Definition set_state (state : string) (b : ArtifactBinding) : ArtifactBinding := b <| bd_State := state |>.

Definition activateBinding (revision : StoryboardRevision) (bindingID : string) : agg (result string) := fun a =>
  match bindingByID a bindingID with
  | None => (Err (Wrapf "" ErrInvalidMutation (": binding " +:+ bindingID)), a)
  | Some binding =>
      match findElement revision (bd_TargetID binding) with
      | None => (Err (Wrapf "" ErrTargetNotFound (": " +:+ bd_TargetID binding)), a)
      | Some element =>
          match findAssetSlot element (bd_AssetSlot binding) with
          | None => (Err (Wrapf "" ErrSlotNotFound (": " +:+ bd_AssetSlot binding)), a)
          | Some slot =>
              if negb (bool_decide (bd_ID binding ∈ elems (sl_CandidateIDs slot)))
              then (Err (Wrapf "" ErrInvalidMutation
                      (": candidate binding " +:+ bd_ID binding +:+ " is not attached to the active slot")), a)
              else
                let '(currentInput, inputErr) := ResolveGenerationInput a (el_ID element) (sl_Key slot) in
                if negb (binding_is_current binding element slot currentInput inputErr)
                then (Ok BindingDispositionSuperseded,
                      update_binding bindingID (set_state BindingStateSuperseded) a)
                else
                  let a := a <| ag_Bindings := supersede_active binding <$> ag_Bindings a |> in
                  let a := update_binding bindingID (set_state BindingStateActive) a in
                  (Ok BindingDispositionActive,
                   update_revision (rv_ID revision)
                     (update_element (bd_TargetID binding)
                        (update_slot (bd_AssetSlot binding) (activated_slot (bd_ID binding)))) a)
          end
      end
  end.

(** The closure of a target in the active revision. *)
Definition mark_closure (revisionID targetID slot : string) (a : StoryboardAggregate)
    : list string * StoryboardAggregate :=
  match List.find (has_revision_id revisionID) (ag_Revisions a) with
  | None => ([], a)
  | Some revision =>
      let '(stale, revision) := markDependencyClosure revision targetID slot in (stale, put_revision revision a)
  end.

Definition new_binding (command : BindAssetCommand) (a : StoryboardAggregate) (element : StoryboardElement)
    (slot : AssetSlot) (state : string) : ArtifactBinding :=
  mkArtifactBinding (TrimSpace (bc_BindingID command)) (ag_ID a) (el_ID element) (sl_Key slot)
    (TrimSpace (bc_AssetID command)) state (nextArtifactRevision (ag_Bindings a) (el_ID element) (sl_Key slot))
    (TrimSpace (bc_AttemptID command)) (TrimSpace (bc_ApprovalID command)) (bc_TargetRevision command)
    (bc_PromptRevision command) (bc_GenerationEpoch command) (TrimSpace (bc_InputFingerprint command)) (now 0).

(** The token of the command is the one of the slot as it is now. *)
Definition token_is_current (command : BindAssetCommand) (a : StoryboardAggregate) (element : StoryboardElement)
    (slot : AssetSlot) : bool :=
  let '(currentInput, inputErr) := ResolveGenerationInput a (el_ID element) (sl_Key slot) in
  (el_Revision element =? bc_TargetRevision command)
  && (promptRevisionForSlot element slot =? bc_PromptRevision command)
  && (sl_GenerationEpoch slot =? bc_GenerationEpoch command)
  && resolvable inputErr && negb (blank (bc_InputFingerprint command))
  && bool_decide (TrimSpace (bc_InputFingerprint command) = gi_Fingerprint currentInput).

Definition add_candidate (bindingID : string) (slot : AssetSlot) : AssetSlot :=
  slot <| sl_CandidateIDs := appendUniqueString (sl_CandidateIDs slot) bindingID |>
       <| sl_Status := AssetSlotStatusCandidate |>.

(** The candidate is added and, when the policy of the slot allows it, made the
    active asset at once. *)
Definition bind_candidate (command : BindAssetCommand) (fingerprint : string) (revision : StoryboardRevision)
    (slot : AssetSlot) (binding : ArtifactBinding) : agg (result string) := fun a =>
  let revision := update_element (bc_TargetID command)
                    (update_slot (bc_AssetSlot command) (add_candidate (bd_ID binding))) revision in
  let a := put_revision revision a in
  let done disposition a := (Ok disposition, touchCommand (now 1) (bc_CommandID command) fingerprint a) in
  if bc_Activate command && negb (sl_ReviewRequired slot) then
    let '(r, a) := activateBinding revision (bd_ID binding) a in
    match r with
    | Err err => (Err err, a)
    | Ok disposition =>
        if bool_decide (disposition = BindingDispositionActive) then
          let '(_, a) := mark_closure (rv_ID revision) (bd_TargetID binding) (bd_AssetSlot binding) a in
          done disposition (supersedeInvalidCandidates a)
        else done disposition a
    end
  else done BindingDispositionCandidate a.

Definition bind_asset (command : BindAssetCommand) (fingerprint : string) (revision : StoryboardRevision)
    (element : StoryboardElement) (slot : AssetSlot) : agg (result string) := fun a =>
  let valid := token_is_current command a element slot in
  let state := if valid then BindingStateCandidate else BindingStateSuperseded in
  let binding := new_binding command a element slot state in
  let a := a <| ag_Bindings := ag_Bindings a ++ [binding] |> in
  if valid then bind_candidate command fingerprint revision slot binding a
  else (Ok BindingDispositionSuperseded, touchCommand (now 1) (bc_CommandID command) fingerprint a).

Definition replayed_binding (command : BindAssetCommand) (a : StoryboardAggregate) : result string :=
  match bindingByID a (bc_BindingID command) with
  | Some binding => Ok (dispositionForState (bd_State binding))
  | None => Err ErrDuplicateCommand
  end.

Definition BindAsset (command : BindAssetCommand) : agg (result string) :=
  let fingerprint := commandFingerprint (json_BindAssetCommand command) in
  once (bc_CommandID command) fingerprint (fun a => (replayed_binding command a, a))
    (versioned (bc_BaseVersion command) (fun a =>
      if blank (bc_BindingID command) || blank (bc_AssetID command)
      then (Err (Wrapf "" ErrInvalidMutation ": binding_id and asset_id are required"), a)
      else if bool_decide (is_Some (bindingByID a (TrimSpace (bc_BindingID command))))
      then (Err (Wrapf "" ErrInvalidMutation (": binding id " +:+ bc_BindingID command +:+ " already exists")), a)
      else match mutableActiveRevision a with
      | Err err => (Err err, a)
      | Ok revision =>
          match findElement revision (bc_TargetID command) with
          | None => (Err (Wrapf "" ErrTargetNotFound (": " +:+ bc_TargetID command)), a)
          | Some element =>
              match findAssetSlot element (bc_AssetSlot command) with
              | None => (Err (Wrapf "" ErrSlotNotFound (": asset " +:+ bc_AssetSlot command)), a)
              | Some slot => bind_asset command fingerprint revision element slot a
              end
          end
      end)).

(** A binding that waits for its review. *)
Definition candidate_binding (a : StoryboardAggregate) (bindingID : string) : result ArtifactBinding :=
  match bindingByID a bindingID with
  | Some binding =>
      if bool_decide (bd_State binding = BindingStateCandidate) then Ok binding
      else Err (Wrapf "" ErrInvalidMutation (": candidate binding " +:+ bindingID))
  | None => Err (Wrapf "" ErrInvalidMutation (": candidate binding " +:+ bindingID))
  end.

Definition ActivateBinding (command : ActivateBindingCommand) : agg (result (list string)) :=
  let fingerprint := commandFingerprint (json_ActivateBindingCommand command) in
  once (av_CommandID command) fingerprint (ret (Ok []))
    (versioned (av_BaseVersion command) (fun a =>
      match mutableActiveRevision a with
      | Err err => (Err err, a)
      | Ok revision =>
          match candidate_binding a (av_BindingID command) with
          | Err err => (Err err, a)
          | Ok binding =>
              let '(r, a) := activateBinding revision (bd_ID binding) a in
              match r with
              | Err err => (Err err, a)
              | Ok disposition =>
                  if bool_decide (disposition = BindingDispositionSuperseded)
                  then (Err (Wrapf "" ErrRevisionMismatch ": candidate binding input changed"), a)
                  else
                    let '(stale, a) := mark_closure (rv_ID revision) (bd_TargetID binding) (bd_AssetSlot binding) a in
                    (Ok (uniqueSorted stale), touchCommand (now 0) (av_CommandID command) fingerprint
                       (supersedeInvalidCandidates a))
              end
          end
      end)).

Definition rejected_slot (bindingID : string) (slot : AssetSlot) : AssetSlot :=
  let slot := slot <| sl_CandidateIDs := removeString (sl_CandidateIDs slot) bindingID |> in
  slot <| sl_Status :=
    if negb (bool_decide (sl_ActiveBindingID slot = "")) then AssetSlotStatusActive
    else if bool_decide (elems (sl_CandidateIDs slot) = []) then AssetSlotStatusMissing
    else AssetSlotStatusCandidate |>.

Definition RejectBinding (command : RejectBindingCommand) : agg (result unit) :=
  let fingerprint := commandFingerprint (json_RejectBindingCommand command) in
  once (rj_CommandID command) fingerprint (ret (Ok tt))
    (versioned (rj_BaseVersion command) (fun a =>
      match mutableActiveRevision a with
      | Err err => (Err err, a)
      | Ok revision =>
          match candidate_binding a (rj_BindingID command) with
          | Err err => (Err err, a)
          | Ok binding =>
              match findElement revision (bd_TargetID binding) with
              | None => (Err (Wrapf "" ErrTargetNotFound (": " +:+ bd_TargetID binding)), a)
              | Some element =>
                  match findAssetSlot element (bd_AssetSlot binding) with
                  | None => (Err (Wrapf "" ErrSlotNotFound (": " +:+ bd_AssetSlot binding)), a)
                  | Some _ =>
                      let a := update_binding (bd_ID binding) (set_state BindingStateRejected) a in
                      let a := update_active_slot (bd_TargetID binding) (bd_AssetSlot binding)
                                 (rejected_slot (bd_ID binding)) a in
                      (Ok tt, touchCommand (now 0) (rj_CommandID command) fingerprint a)
                  end
              end
          end
      end)).
End commands.
