(* ===== verification/StoryboardRevision.v ===== *)
(** * Storyboards: plans and their revisions, [internal/aigc/storyboard/revision.go]

    A candidate plan is reconciled with the active one (ids are kept by semantic
    keys, prompts locked by the user and approved assets carried over),
    validated, and installed as the pending revision, which a decision promotes
    or rejects. *)

From Stdlib Require Import ZArith Lia Ascii.
From S2P Require Import Prelude GoJson StoryboardModels StoryboardGraph StoryboardCommand.

Definition supportedAssetSlotMediaKinds : list string :=
  ["image"; "illustration"; "keyframe"; "video"; "audio"; "music"; "voice"; "text"; "script"; "lyrics"].

Definition isSupportedAssetSlotMediaKind (value : string) : bool :=
  bool_decide (ToLower (TrimSpace value) ∈ supportedAssetSlotMediaKinds).

Record RevisionDiff := mkRevisionDiff {
  df_AddedTargets : list string;
  df_UpdatedTargets : list string;
  df_ReusedTargets : list string;
  df_ArchivedTargets : list string;
  df_ReusableAssets : list string;
  df_ReusableBindingIDs : list string;
  df_StaleOutputsAfterPromotion : list string
}.
#[global] Instance eta_RevisionDiff : Eta RevisionDiff := fun r =>
  mkRevisionDiff (df_AddedTargets r) (df_UpdatedTargets r) (df_ReusedTargets r)
  (df_ArchivedTargets r) (df_ReusableAssets r) (df_ReusableBindingIDs r)
  (df_StaleOutputsAfterPromotion r).
Definition zeroRevisionDiff : RevisionDiff :=
  mkRevisionDiff [] [] [] [] [] [] [].

Definition json_RevisionDiff (r : RevisionDiff) : any :=
  AObj (array_field_opt "added_targets" AStr (df_AddedTargets r) ++
    array_field_opt "updated_targets" AStr (df_UpdatedTargets r) ++
    array_field_opt "reused_targets" AStr (df_ReusedTargets r) ++
    array_field_opt "archived_targets" AStr (df_ArchivedTargets r) ++
    array_field_opt "reusable_assets" AStr (df_ReusableAssets r) ++
    array_field_opt "reusable_binding_ids" AStr (df_ReusableBindingIDs r) ++
    array_field_opt "stale_outputs_after_promotion" AStr (df_StaleOutputsAfterPromotion r)).

(** ** Stable identifiers *)

Definition id_byte (a : ascii) : bool :=
  let n := nat_of_ascii a in
  ((97 <=? n) && (n <=? 122) || (48 <=? n) && (n <=? 57))%nat.

(** [strings.ToLower] as far as ids go: besides the letters of ASCII, U+212A has the
    lower case [k] and U+0130 the lower case [i]; other runes stay outside ASCII. *)
Fixpoint lower_runes (l : list ascii) : list ascii :=
  match l with
  | [] => []
  | a :: l1 =>
      match l1 with
      | b :: ((c :: l3) as l2) =>
          if bool_decide ([a; b; c] = bytes [0xE2; 0x84; 0xAA]%nat) then "k"%char :: lower_runes l3
          else if bool_decide ([a; b] = bytes [0xC4; 0xB0]%nat) then "i"%char :: lower_runes l2
          else lower_ascii a :: lower_runes l1
      | [b] =>
          if bool_decide ([a; b] = bytes [0xC4; 0xB0]%nat) then ["i"%char]
          else lower_ascii a :: lower_runes l1
      | [] => [lower_ascii a]
      end
  end.

(** The loop over the runes: the bytes of a rune that is not a letter or digit
    of ASCII give one underscore, as one rune does. *)
Fixpoint dynamic_id (l : list ascii) (written : list ascii) (underscore : bool) : list ascii :=
  match l with
  | [] => written
  | a :: l' =>
      if id_byte a then dynamic_id l' (written ++ [a]) false
      else if negb (bool_decide (written = [])) && negb underscore
      then dynamic_id l' (written ++ ["_"%char]) true
      else dynamic_id l' written underscore
  end.

Fixpoint drop_underscores (l : list ascii) : list ascii :=
  match l with
  | a :: l' => if Ascii.eqb a "_"%char then drop_underscores l' else l
  | [] => []
  end.

Definition normalizeDynamicID (value : string) : string :=
  let value := lower_runes (String.list_ascii_of_string (TrimSpace value)) in
  String.string_of_list_ascii
    (reverse (drop_underscores (reverse (drop_underscores (dynamic_id value [] false))))).

Definition elementMatchKey (moduleKey elementKey : string) : string :=
  TrimSpace moduleKey +:+ String Ascii.zero "" +:+ TrimSpace elementKey.

Definition stableKey (key semanticType : string) (index : Z) : string :=
  let key := normalizeDynamicID key in
  if negb (bool_decide (key = "")) then key
  else
    let key := normalizeDynamicID semanticType in
    (if bool_decide (key = "") then "item" else key) +:+ "_" +:+ pretty index.

(** [for suffix := 2; used[value]; suffix++]. *)
Fixpoint free_suffix (fuel : nat) (base : string) (suffix : Z) (used : gset string) : string :=
  let value := base +:+ "_" +:+ pretty suffix in
  match fuel with
  | O => value
  | S fuel' => if bool_decide (value ∈ used) then free_suffix fuel' base (suffix + 1) used else value
  end.

Definition uniqueStableID (value : string) (used : gset string) : string * gset string :=
  let base := normalizeDynamicID value in
  let base := if bool_decide (base = "") then "target" else base in
  let value := if bool_decide (base ∈ used) then free_suffix (size used) base 2 used else base in
  (value, {[value]} ∪ used).

Definition sortedModules (modules : list StoryboardModule) : list StoryboardModule :=
  sort_slice (by_time_then_id md_Order md_ID) modules.

(** ** Comparing plans *)

Definition sameModulePlan (a b : StoryboardModule) : bool :=
  bool_decide (md_Key a = md_Key b) && bool_decide (md_SemanticType a = md_SemanticType b)
  && bool_decide (md_Title a = md_Title b) && bool_decide (md_Description a = md_Description b)
  && (md_Order a =? md_Order b) && (md_PlannedCount a =? md_PlannedCount b)
  && eqb (md_Required a) (md_Required b) && eqb (md_ReviewRequired a) (md_ReviewRequired b)
  && bool_decide (md_Capabilities a = md_Capabilities b) && map_DeepEqual (md_Metadata a) (md_Metadata b).

Definition sameElementPlan (a b : StoryboardElement) : bool :=
  bool_decide (el_Key a = el_Key b) && bool_decide (el_SemanticType a = el_SemanticType b)
  && bool_decide (el_Title a = el_Title b) && map_DeepEqual (el_Content a) (el_Content b)
  && bool_decide (el_LockedFields a = el_LockedFields b) && bool_decide (el_PromptSlots a = el_PromptSlots b)
  && bool_decide (el_AssetSlots a = el_AssetSlots b) && bool_decide (el_ReviewState a = el_ReviewState b)
  && map_DeepEqual (el_Metadata a) (el_Metadata b).

Definition prompt_shape (p : PromptSlot) := (pp_Purpose p, pp_Prompt p, pp_PromptRef p).
Definition asset_shape (s : AssetSlot) :=
  (sl_Key s, sl_Role s, sl_MediaKind s, sl_Required s, sl_ReviewRequired s).

Definition generationCompatible (active candidate : StoryboardElement) : bool :=
  bool_decide (el_SemanticType active = el_SemanticType candidate)
  && map_DeepEqual (el_Content active) (el_Content candidate)
  && bool_decide (prompt_shape <$> elems (el_PromptSlots active) = prompt_shape <$> elems (el_PromptSlots candidate))
  && bool_decide (asset_shape <$> elems (el_AssetSlots active) = asset_shape <$> elems (el_AssetSlots candidate)).

Definition dependencySignature (edges : list DependencyEdge) (targetID slotKey : string) : list string :=
  sort_slice String.ltb (dependency_key <$> List.filter (edge_applies targetID slotKey) edges).

Definition activeBindingIDs (element : StoryboardElement) : list string :=
  List.filter (fun id => negb (bool_decide (id = ""))) (sl_ActiveBindingID <$> elems (el_AssetSlots element)).

Definition revisionTargets (revision : option StoryboardRevision) : gmap string StoryboardElement :=
  match revision with
  | None => ∅
  | Some r => index_by el_ID (revision_elements r)
  end.

(** ** Differences *)

Section diff.
Context `{MapRange}.

Definition diff_target (old : gmap string StoryboardElement) (diff : RevisionDiff)
    (entry : string * StoryboardElement) : RevisionDiff :=
  let '(id, nextTarget) := entry in
  match old !! id with
  | None => diff <| df_AddedTargets := df_AddedTargets diff ++ [id] |>
  | Some oldTarget =>
      if sameElementPlan oldTarget nextTarget
      then diff <| df_ReusedTargets := df_ReusedTargets diff ++ [id] |>
                <| df_ReusableBindingIDs := df_ReusableBindingIDs diff ++ activeBindingIDs oldTarget |>
      else diff <| df_UpdatedTargets := df_UpdatedTargets diff ++ [id] |>
                <| df_StaleOutputsAfterPromotion := df_StaleOutputsAfterPromotion diff ++ [id] |>
  end.

Definition archive_target (next : gmap string StoryboardElement) (diff : RevisionDiff)
    (entry : string * StoryboardElement) : RevisionDiff :=
  let '(id, _) := entry in
  match next !! id with
  | Some _ => diff
  | None => diff <| df_ArchivedTargets := df_ArchivedTargets diff ++ [id] |>
                 <| df_StaleOutputsAfterPromotion := df_StaleOutputsAfterPromotion diff ++ [id] |>
  end.

Definition ComputeRevisionDiff (active : option StoryboardRevision) (candidate : StoryboardRevision) : RevisionDiff :=
  let old := revisionTargets active in
  let next := revisionTargets (Some candidate) in
  let diff := foldl (diff_target old) zeroRevisionDiff (map_range next) in
  let diff := foldl (archive_target next) diff (map_range old) in
  diff <| df_AddedTargets := sort_slice String.ltb (df_AddedTargets diff) |>
       <| df_UpdatedTargets := sort_slice String.ltb (df_UpdatedTargets diff) |>
       <| df_ReusedTargets := sort_slice String.ltb (df_ReusedTargets diff) |>
       <| df_ArchivedTargets := sort_slice String.ltb (df_ArchivedTargets diff) |>
       <| df_ReusableBindingIDs := uniqueSorted (df_ReusableBindingIDs diff) |>
       <| df_StaleOutputsAfterPromotion := uniqueSorted (df_StaleOutputsAfterPromotion diff) |>.

Definition enrichReusableAssets (a : StoryboardAggregate) (diff : RevisionDiff) : RevisionDiff :=
  match df_ReusableBindingIDs diff with
  | [] => diff
  | ids =>
      let assetsByBinding := foldl (fun m b =>
        if bool_decide (bd_State b = BindingStateActive) && negb (bool_decide (bd_AssetID b = ""))
        then <[bd_ID b := bd_AssetID b]> m else m) (∅ : gmap string string) (ag_Bindings a) in
      diff <| df_ReusableAssets := uniqueSorted (df_ReusableAssets diff ++
        List.filter (fun assetID => negb (bool_decide (assetID = "")))
          ((fun bindingID => default "" (assetsByBinding !! bindingID)) <$> ids)) |>
  end.

(** ** Reconciliation *)

(** The prompts that the user has locked replace the candidate's, and those the
    candidate has dropped come back. *)
Definition reconcileLockedPrompts (candidate active : StoryboardElement) : StoryboardElement :=
  let old := index_by pp_Purpose (elems (el_PromptSlots active)) in
  let purposes := (TrimSpace ∘ pp_Purpose) <$> elems (el_PromptSlots candidate) in
  let keep slot :=
    match old !! TrimSpace (pp_Purpose slot) with
    | Some previous => if pp_LockedByUser previous then previous else slot
    | None => slot
    end in
  let missing := List.filter (fun '(purpose, previous) =>
    pp_LockedByUser previous && negb (bool_decide (purpose ∈ purposes))) (map_range old) in
  candidate <| el_PromptSlots := append (fmap (M:=list) keep <$> el_PromptSlots candidate) (snd <$> missing) |>.

Definition carried_slot (compatible : bool) (previous slot : AssetSlot) : AssetSlot :=
  let slot := slot <| sl_CandidateIDs := None |> in
  let stale_or_missing (b : bool) := if b then AssetSlotStatusStale else AssetSlotStatusMissing in
  if negb compatible then
    slot <| sl_ActiveBindingID := "" |>
         <| sl_GenerationEpoch := Z.max (sl_GenerationEpoch slot) (incr (sl_GenerationEpoch previous)) |>
         <| sl_Status := stale_or_missing (negb (bool_decide (sl_ActiveBindingID previous = ""))
                                           || bool_decide (sl_Status previous = AssetSlotStatusStale)) |>
  else
    let slot := slot <| sl_GenerationEpoch := Z.max (sl_GenerationEpoch slot) (sl_GenerationEpoch previous) |> in
    if negb (slot_active previous) then
      slot <| sl_ActiveBindingID := "" |>
           <| sl_Status := stale_or_missing (bool_decide (sl_Status previous = AssetSlotStatusStale)) |>
    else slot <| sl_ActiveBindingID := sl_ActiveBindingID previous |> <| sl_Status := AssetSlotStatusActive |>.

Definition reconcileAssetSlots (candidate active : StoryboardElement) (compatible : bool) : StoryboardElement :=
  let old := index_by sl_Key (elems (el_AssetSlots active)) in
  candidate <| el_AssetSlots := fmap (M:=list) (fun slot =>
    match old !! sl_Key slot with
    | Some previous => carried_slot compatible previous slot
    | None => slot
    end) <$> el_AssetSlots candidate |>.

Definition map_elements (f : StoryboardElement → StoryboardElement) (r : StoryboardRevision) : StoryboardRevision :=
  r <| rv_Modules := (fun m => m <| md_Elements := f <$> md_Elements m |>) <$> rv_Modules r |>.

Definition invalidated_slot (active candidate : StoryboardRevision) (elementID : string)
    (previousSlots : gmap string AssetSlot) (slot : AssetSlot) : AssetSlot :=
  match previousSlots !! sl_Key slot with
  | None => slot
  | Some previousSlot =>
      if bool_decide (sl_ActiveBindingID slot = "") then slot
      else if bool_decide (dependencySignature (rv_Dependencies active) elementID (sl_Key slot)
                           = dependencySignature (rv_Dependencies candidate) elementID (sl_Key slot)) then slot
      else slot <| sl_ActiveBindingID := "" |> <| sl_CandidateIDs := None |>
                <| sl_GenerationEpoch := Z.max (sl_GenerationEpoch slot) (incr (sl_GenerationEpoch previousSlot)) |>
                <| sl_Status := AssetSlotStatusStale |>
  end.

Definition invalidateDependencyIncompatibleSlots (active candidate : StoryboardRevision) : StoryboardRevision :=
  let activeTargets := revisionTargets (Some active) in
  map_elements (fun element =>
    match activeTargets !! el_ID element with
    | None => element
    | Some previous =>
        let previousSlots := index_by sl_Key (elems (el_AssetSlots previous)) in
        element <| el_AssetSlots :=
          fmap (M:=list) (invalidated_slot active candidate (el_ID element) previousSlots) <$> el_AssetSlots element |>
    end) candidate.

Definition rebaseApprovedAssets (active candidate : StoryboardRevision) : StoryboardRevision :=
  let activeTargets := revisionTargets (Some active) in
  invalidateDependencyIncompatibleSlots active
    (map_elements (fun element =>
      match activeTargets !! el_ID element with
      | None => element
      | Some previous => reconcileAssetSlots element previous (generationCompatible previous element)
      end) candidate).

(** The names under which the candidate's dependencies may call its targets; a
    name with two meanings has none. *)
Record aliases := mkAliases { al_targets : gmap string string; al_ambiguous : gset string }.

Definition addAlias (alias targetID : string) (al : aliases) : aliases :=
  let alias := TrimSpace alias in
  if bool_decide (alias = "") || bool_decide (alias ∈ al_ambiguous al) then al
  else match al_targets al !! alias with
       | Some existing =>
           if bool_decide (existing = targetID) then mkAliases (<[alias := targetID]> (al_targets al)) (al_ambiguous al)
           else mkAliases (delete alias (al_targets al)) ({[alias]} ∪ al_ambiguous al)
       | None => mkAliases (<[alias := targetID]> (al_targets al)) (al_ambiguous al)
       end.

Definition add_aliases (names : list string) (targetID : string) (al : aliases) : aliases :=
  foldl (fun al name => addAlias name targetID al) al names.

Definition fresh_slot (slot : AssetSlot) : AssetSlot :=
  normalizeAssetSlot (slot <| sl_ActiveBindingID := "" |> <| sl_CandidateIDs := None |>
    <| sl_GenerationEpoch := 0 |> <| sl_Status := AssetSlotStatusMissing |> <| sl_ReviewRequired := true |>).

(** What is carried from the old element. *)
Definition settled_element (preserve : bool) (oldElement : option StoryboardElement) (element : StoryboardElement)
    : StoryboardElement :=
  let element := element <| el_PromptSlots := fmap (M:=list) normalizePromptSlot <$> el_PromptSlots element |>
                         <| el_AssetSlots := fmap (M:=list) fresh_slot <$> el_AssetSlots element |> in
  let element := match oldElement with
    | Some old => if preserve then reconcileAssetSlots element old (generationCompatible old element) else element
    | None => element
    end in
  let element := if el_Revision element <=? 0 then element <| el_Revision := 1 |> else element in
  match oldElement with
  | Some old =>
      if negb (sameElementPlan old element)
      then element <| el_Revision := Z.max (incr (el_Revision old)) (el_Revision element) |>
      else element <| el_Revision := el_Revision old |>
  | None => element
  end.

Abbreviation naming := (gset string * aliases)%type.

(** The element under its stable key, with the id and the locked prompts of the
    old element of that key. *)
Definition matched_element (oldElements : gmap string StoryboardElement) (moduleKey : string) (index : Z)
    (element : StoryboardElement) : option StoryboardElement * StoryboardElement :=
  let element := element <| el_Key := stableKey (el_Key element) (el_SemanticType element) index |> in
  match oldElements !! elementMatchKey moduleKey (el_Key element) with
  | Some old => (Some old, reconcileLockedPrompts (element <| el_ID := el_ID old |>) old)
  | None => (None, element)
  end.

Definition proposed_id (moduleKey : string) (element : StoryboardElement) : string :=
  if blank (el_ID element) then "element_" +:+ moduleKey +:+ "_" +:+ el_Key element else el_ID element.

Definition reconcile_element (oldElements : gmap string StoryboardElement) (preserve : bool)
    (moduleKey originalModuleKey : string) (index : Z) (element : StoryboardElement)
    : Eff naming StoryboardElement := fun '(used, al) =>
  let originalID := el_ID element in
  let originalKey := el_Key element in
  let '(oldElement, element) := matched_element oldElements moduleKey index element in
  let '(id, used) := uniqueStableID (proposed_id moduleKey element) used in
  let element := element <| el_ID := id |> in
  let al := add_aliases [originalID; originalKey; originalModuleKey +:+ "/" +:+ originalKey;
                         moduleKey +:+ "/" +:+ el_Key element; id; el_Key element] id al in
  (settled_element preserve oldElement element, (used, al)).

Fixpoint reconcile_elements (oldElements : gmap string StoryboardElement) (preserve : bool)
    (moduleKey originalModuleKey : string) (index : Z) (elements : list StoryboardElement)
    : Eff naming (list StoryboardElement) :=
  match elements with
  | [] => ret []
  | element :: elements' =>
      let* element := reconcile_element oldElements preserve moduleKey originalModuleKey index element in
      let* rest := reconcile_elements oldElements preserve moduleKey originalModuleKey (index + 1) elements' in
      ret (element :: rest)
  end.

(** The module under its key and id, with defaults for its numbers. *)
Definition named_module (key id : string) (index : Z) (module : StoryboardModule) : StoryboardModule :=
  module <| md_Key := key |> <| md_ID := id |>
    <| md_Order := if md_Order module <=? 0 then index else md_Order module |>
    <| md_PlannedCount := if md_PlannedCount module <=? 0 then Z.of_nat (length (md_Elements module))
                          else md_PlannedCount module |>
    <| md_Revision := if md_Revision module <=? 0 then 1 else md_Revision module |>.

Definition settled_module (oldModule : option StoryboardModule) (module : StoryboardModule) : StoryboardModule :=
  match oldModule with
  | Some old =>
      if negb (sameModulePlan old module)
      then module <| md_Revision := Z.max (incr (md_Revision old)) (md_Revision module) |>
      else module <| md_Revision := md_Revision old |>
  | None => module
  end.

Definition reconcile_module (oldModules : gmap string StoryboardModule) (oldElements : gmap string StoryboardElement)
    (preserve : bool) (index : Z) (module : StoryboardModule) : Eff naming StoryboardModule := fun '(used, al) =>
  let originalID := md_ID module in
  let originalKey := md_Key module in
  let key := stableKey (md_Key module) (md_SemanticType module) index in
  let oldModule := oldModules !! key in
  let id := match oldModule with Some old => md_ID old | None => originalID end in
  let '(id, used) := uniqueStableID (if blank id then "module_" +:+ key else id) used in
  let al := add_aliases [originalID; originalKey; id; key] id al in
  let '(elements, naming) :=
    reconcile_elements oldElements preserve key originalKey 1 (md_Elements module) (used, al) in
  (settled_module oldModule ((named_module key id index module) <| md_Elements := elements |>), naming).

Fixpoint reconcile_modules (oldModules : gmap string StoryboardModule) (oldElements : gmap string StoryboardElement)
    (preserve : bool) (index : Z) (modules : list StoryboardModule) : Eff naming (list StoryboardModule) :=
  match modules with
  | [] => ret []
  | module :: modules' =>
      let* module := reconcile_module oldModules oldElements preserve index module in
      let* rest := reconcile_modules oldModules oldElements preserve (index + 1) modules' in
      ret (module :: rest)
  end.

Definition resolve_edge (al : aliases) (edge : DependencyEdge) : DependencyEdge :=
  let resolve id := let resolved := default "" (al_targets al !! TrimSpace id) in
                    if bool_decide (resolved = "") then id else resolved in
  edge <| ed_FromTargetID := resolve (ed_FromTargetID edge) |>
       <| ed_ToTargetID := resolve (ed_ToTargetID edge) |>.

Definition old_modules (active : option StoryboardRevision) : gmap string StoryboardModule :=
  match active with
  | None => ∅
  | Some r => index_by (TrimSpace ∘ md_Key) (rv_Modules r)
  end.

Definition old_elements (active : option StoryboardRevision) : gmap string StoryboardElement :=
  match active with
  | None => ∅
  | Some r => foldl (fun m md => foldl (fun m e => <[elementMatchKey (md_Key md) (el_Key e) := e]> m) m (md_Elements md))
                ∅ (rv_Modules r)
  end.

Definition ReconcileRevision (active : option StoryboardRevision) (candidate : StoryboardRevision) (preserve : bool)
    : StoryboardRevision * RevisionDiff :=
  let '(modules, (_, al)) :=
    reconcile_modules (old_modules active) (old_elements active) preserve 1 (rv_Modules candidate)
      (∅, mkAliases ∅ ∅) in
  let candidate := candidate <| rv_Modules := modules |>
                             <| rv_Dependencies := resolve_edge al <$> rv_Dependencies candidate |> in
  let candidate := match active with
    | Some r => if preserve then invalidateDependencyIncompatibleSlots r candidate else candidate
    | None => candidate
    end in
  let candidate := candidate <| rv_Modules := sortedModules (rv_Modules candidate) |> in
  (candidate, ComputeRevisionDiff active candidate).

(** ** Validation *)

Fixpoint validate_prompts (elementID : string) (slots : list PromptSlot) (purposes : gset string) : option error :=
  match slots with
  | [] => None
  | slot :: slots' =>
      if bool_decide (pp_Purpose slot = "") || bool_decide (pp_Purpose slot ∈ purposes)
      then Some (Errorf ("element " +:+ elementID +:+ " has empty or duplicate prompt purpose " +:+ Quote (pp_Purpose slot)))
      else validate_prompts elementID slots' ({[pp_Purpose slot]} ∪ purposes)
  end.

Fixpoint validate_assets (elementID : string) (slots : list AssetSlot) (keys : gset string) : option error :=
  match slots with
  | [] => None
  | slot :: slots' =>
      if bool_decide (sl_Key slot = "") || bool_decide (sl_MediaKind slot = "") || bool_decide (sl_Key slot ∈ keys)
      then Some (Errorf ("element " +:+ elementID +:+ " has invalid or duplicate asset slot " +:+ Quote (sl_Key slot)))
      else if negb (isSupportedAssetSlotMediaKind (sl_MediaKind slot))
      then Some (Errorf ("element " +:+ elementID +:+ " asset slot " +:+ sl_Key slot +:+ " has unsupported media_kind "
                         +:+ Quote (sl_MediaKind slot)))
      else validate_assets elementID slots' ({[sl_Key slot]} ∪ keys)
  end.

Definition validateSlots (element : StoryboardElement) : option error :=
  match validate_prompts (el_ID element) (elems (el_PromptSlots element)) ∅ with
  | Some err => Some err
  | None => validate_assets (el_ID element) (elems (el_AssetSlots element)) ∅
  end.

Definition hasAssetSlot (element : StoryboardElement) (key : string) : bool :=
  existsb (has_slot_key key) (elems (el_AssetSlots element)).

Record seen_targets := mkSeen { st_targets : gmap string StoryboardElement; st_ids : gset string }.

Fixpoint validate_elements (moduleID : string) (elements : list StoryboardElement) (keys : gset string)
    (seen : seen_targets) : result seen_targets :=
  match elements with
  | [] => Ok seen
  | element :: elements' =>
      if bool_decide (el_ID element = "") || bool_decide (el_Key element = "")
         || bool_decide (el_SemanticType element = "")
      then Err (Errorf ("element id, key, and semantic_type are required in module " +:+ moduleID))
      else if bool_decide (el_Key element ∈ keys) || bool_decide (el_ID element ∈ st_ids seen)
      then Err (Errorf ("duplicate element key or target id: " +:+ el_Key element))
      else match validateSlots element with
           | Some err => Err err
           | None =>
               validate_elements moduleID elements' ({[el_Key element]} ∪ keys)
                 (mkSeen (<[el_ID element := element]> (st_targets seen)) ({[el_ID element]} ∪ st_ids seen))
           end
  end.

Fixpoint validate_modules (modules : list StoryboardModule) (keys : gset string) (seen : seen_targets)
    : result seen_targets :=
  match modules with
  | [] => Ok seen
  | module :: modules' =>
      if bool_decide (md_ID module = "") || bool_decide (md_Key module = "") || bool_decide (md_SemanticType module = "")
      then Err (Errorf "module id, key, and semantic_type are required")
      else if bool_decide (md_Key module ∈ keys) || bool_decide (md_ID module ∈ st_ids seen)
      then Err (Errorf ("duplicate module key or target id: " +:+ md_Key module))
      else if negb (md_PlannedCount module =? Z.of_nat (length (md_Elements module)))
      then Err (Errorf ("module " +:+ md_ID module +:+ " planned_count=" +:+ pretty (md_PlannedCount module)
                        +:+ " does not match elements=" +:+ pretty (length (md_Elements module))))
      else
        try seen := (validate_elements (md_ID module) (md_Elements module) ∅
                       (mkSeen (st_targets seen) ({[md_ID module]} ∪ st_ids seen))) in
        validate_modules modules' ({[md_Key module]} ∪ keys) seen
  end.

Fixpoint validate_edges (edges : list DependencyEdge) (targets : gmap string StoryboardElement) : option error :=
  match edges with
  | [] => None
  | edge :: edges' =>
      match targets !! ed_FromTargetID edge, targets !! ed_ToTargetID edge with
      | Some from, Some to =>
          if bool_decide (ed_FromTargetID edge = ed_ToTargetID edge)
          then Some (Errorf ("dependency cannot reference the same target: " +:+ ed_FromTargetID edge))
          else if negb (bool_decide (ed_FromSlot edge = "")) && negb (hasAssetSlot from (ed_FromSlot edge))
          then Some (Errorf ("dependency references unknown source slot: " +:+ ed_FromTargetID edge +:+ ":" +:+ ed_FromSlot edge))
          else if negb (bool_decide (ed_ToSlot edge = "")) && negb (hasAssetSlot to (ed_ToSlot edge))
          then Some (Errorf ("dependency references unknown destination slot: " +:+ ed_ToTargetID edge +:+ ":" +:+ ed_ToSlot edge))
          else validate_edges edges' targets
      | _, _ => Some (Errorf ("dependency references unknown target: " +:+ ed_FromTargetID edge +:+ " -> " +:+ ed_ToTargetID edge))
      end
  end.

Definition ValidateRevision (revision : StoryboardRevision) : option error :=
  if blank (rv_ID revision) then Some (Errorf "storyboard revision id is required")
  else if blank (rv_StoryboardID revision) then Some (Errorf "storyboard id is required")
  else if bool_decide (length (rv_Modules revision) = 0%nat) then Some (Errorf "storyboard modules are required")
  else match validate_modules (rv_Modules revision) ∅ (mkSeen ∅ ∅) with
       | Err err => Some err
       | Ok seen =>
           match validate_edges (rv_Dependencies revision) (st_targets seen) with
           | Some err => Some err
           | None => validateDependencyDAG (rv_Dependencies revision) (st_targets seen)
           end
       end.

(** ** The commands on revisions *)

Context `{Digest}.
Context (now : nat → Time).

Definition pending_fingerprint (commandID : string) (baseVersion : Z) (candidate : StoryboardRevision)
    (preserve : bool) : string :=
  commandFingerprint (AObj [("CommandID", AStr commandID); ("BaseVersion", AInt baseVersion);
    ("Candidate", json_StoryboardRevision candidate); ("Preserve", ABool preserve)]).

Definition decision_fingerprint (commandID : string) (baseVersion : Z) (revisionID : string) : string :=
  commandFingerprint (AObj [("CommandID", AStr commandID); ("BaseVersion", AInt baseVersion);
    ("RevisionID", AStr revisionID)]).

Definition prepared_candidate (a : StoryboardAggregate) (active : option StoryboardRevision)
    (candidate : StoryboardRevision) : StoryboardRevision :=
  candidate <| rv_StoryboardID := ag_ID a |>
    <| rv_ID := if blank (rv_ID candidate) then ag_ID a +:+ ":revision:" +:+ pretty (incr (ag_PlanRevision a))
                else rv_ID candidate |>
    <| rv_BaseRevisionID := match active with Some r => rv_ID r | None => rv_BaseRevisionID candidate end |>
    <| rv_Status := RevisionStatusReviewing |>
    <| rv_CreatedAt := timeOr (rv_CreatedAt candidate) (now 0) |>
    <| rv_UpdatedAt := now 0 |>.

(** The slices of the argument [candidate] are the caller's: the second answer
    is what the caller's revision has become, its modules and dependencies
    replaced by the reconciled ones. *)
Definition CreatePendingRevision (commandID : string) (baseVersion : Z) (candidate : StoryboardRevision)
    (preserve : bool) : agg (result (RevisionDiff * StoryboardRevision)) :=
  let fingerprint := pending_fingerprint commandID baseVersion candidate preserve in
  once commandID fingerprint (ret (Ok (zeroRevisionDiff, candidate)))
    (versioned baseVersion (fun a =>
      if negb (blank (ag_PendingRevisionID a)) then (Err ErrPendingRevision, a)
      else
        let active := if bool_decide (ag_ActiveRevisionID a = "") then None
                      else List.find (has_revision_id (ag_ActiveRevisionID a)) (ag_Revisions a) in
        let '(normalized, diff) := ReconcileRevision active (prepared_candidate a active candidate) preserve in
        match ValidateRevision normalized with
        | Some err => (Err err, a)
        | None =>
            let shared := candidate <| rv_Modules := rv_Modules normalized |>
                                    <| rv_Dependencies := rv_Dependencies normalized |> in
            let normalized := normalized <| rv_PreserveApprovedAssets := preserve |> in
            let diff := enrichReusableAssets a diff in
            (Ok (diff, shared), touchCommand (now 1) commandID fingerprint
               (a <| ag_Revisions := ag_Revisions a ++ [normalized] |>
                  <| ag_PendingRevisionID := rv_ID normalized |>
                  <| ag_Status := AggregateStatusReviewing |>))
        end)).

(** The last index with the id, as the loop over the revisions leaves it. *)
Definition last_index (p : StoryboardRevision → bool) (l : list StoryboardRevision) : option nat :=
  foldl (fun found index => match l !! index with
                            | Some r => if p r then Some index else found
                            | None => found end) None (seq 0 (length l)).

Definition check_pending_id (a : StoryboardAggregate) (revisionID : string) : option error :=
  if bool_decide (ag_PendingRevisionID a = "") then Some ErrNoPendingRevision
  else
    let revisionID := TrimSpace revisionID in
    if negb (bool_decide (revisionID = "")) && negb (bool_decide (revisionID = ag_PendingRevisionID a))
    then Some (Wrapf "" ErrRevisionMismatch (": pending=" +:+ ag_PendingRevisionID a +:+ " requested=" +:+ revisionID))
    else None.

(** The revision becomes the active one; [previous] is the index of the one it replaces. *)
Definition promoted (previous : option (nat * StoryboardRevision)) (pendingIndex : nat)
    (pending : StoryboardRevision) (a : StoryboardAggregate) : RevisionDiff * StoryboardAggregate :=
  let pending := match previous with
    | Some (_, active) => if rv_PreserveApprovedAssets pending then rebaseApprovedAssets active pending else pending
    | None => pending
    end in
  let superseded := (fun '(index, active) =>
    (index : nat, active <| rv_Status := RevisionStatusSuperseded |> <| rv_UpdatedAt := now 0 |>)) <$> previous in
  let pending := pending <| rv_Status := RevisionStatusActive |> <| rv_UpdatedAt := now 1 |> in
  let diff := ComputeRevisionDiff (snd <$> superseded) pending in
  let revisions := match superseded with
    | Some (index, active) => <[index := active]> (ag_Revisions a)
    | None => ag_Revisions a
    end in
  (enrichReusableAssets a diff,
   supersedeUnreferencedBindings pending
     (a <| ag_Revisions := <[pendingIndex := pending]> revisions |>
        <| ag_ActiveRevisionID := rv_ID pending |> <| ag_PendingRevisionID := "" |>
        <| ag_PlanRevision := incr (ag_PlanRevision a) |> <| ag_Status := AggregateStatusActive |>)).

Definition PromotePendingRevision (commandID : string) (baseVersion : Z) (revisionID : string)
    : agg (result RevisionDiff) :=
  let fingerprint := decision_fingerprint commandID baseVersion revisionID in
  once commandID fingerprint (ret (Ok zeroRevisionDiff))
    (versioned baseVersion (fun a => check (check_pending_id a revisionID) (fun a =>
      let is_active := has_revision_id (ag_ActiveRevisionID a) in
      let previous := last_index is_active (ag_Revisions a) ≫= fun i => (i,.) <$> ag_Revisions a !! i in
      let pending := last_index (fun r => has_revision_id (ag_PendingRevisionID a) r && negb (is_active r)) (ag_Revisions a)
                     ≫= fun i => (i,.) <$> ag_Revisions a !! i in
      match pending with
      | None => (Err (Wrapf "" ErrRevisionNotFound (": " +:+ ag_PendingRevisionID a)), a)
      | Some (pendingIndex, pending) =>
          let '(diff, a) := promoted previous pendingIndex pending a in
          (Ok diff, touchCommand (now 2) commandID fingerprint a)
      end) a)).

Definition RejectPendingRevision (commandID : string) (baseVersion : Z) (revisionID : string) : agg (result unit) :=
  let fingerprint := decision_fingerprint commandID baseVersion revisionID in
  once commandID fingerprint (ret (Ok tt))
    (versioned baseVersion (fun a => check (check_pending_id a revisionID) (fun a =>
      match List.find (has_revision_id (ag_PendingRevisionID a)) (ag_Revisions a) with
      | None => (Err (Wrapf "" ErrRevisionNotFound (": " +:+ ag_PendingRevisionID a)), a)
      | Some _ =>
          (Ok tt, touchCommand (now 1) commandID fingerprint
             (update_revision (ag_PendingRevisionID a)
                (fun r => r <| rv_Status := RevisionStatusRejected |> <| rv_UpdatedAt := now 0 |>) a
                <| ag_PendingRevisionID := "" |>
                <| ag_Status := if bool_decide (ag_ActiveRevisionID a = "") then AggregateStatusDraft
                                else AggregateStatusActive |>))
      end) a)).
End diff.
