(* ===== verification/StoryboardStore.v ===== *)
(** * Storyboards: the repository and the command service,
    [internal/aigc/storyboard/repository.go], [command_service.go]

    The in-memory repository of aggregates and their events, with its
    compare-and-set on the version, and the service: every command loads the
    aggregate, applies a method to its copy and saves the copy with one event. *)

From Stdlib Require Import ZArith Lia.
From S2P Require Import Prelude GoJson StoryboardModels StoryboardGraph StoryboardCommand StoryboardRevision.

Record CreatePendingRevisionCommand := mkCreatePendingRevisionCommand {
  cp_CommandID : string;
  cp_IdempotencyKey : string;
  cp_StoryboardID : string;
  cp_BaseVersion : Z;
  cp_Actor : string;
  cp_Source : string;
  cp_Candidate : StoryboardRevision;
  cp_PreserveApprovedAssets : bool
}.
#[global] Instance eta_CreatePendingRevisionCommand : Eta CreatePendingRevisionCommand := fun r =>
  mkCreatePendingRevisionCommand (cp_CommandID r) (cp_IdempotencyKey r) (cp_StoryboardID r)
  (cp_BaseVersion r) (cp_Actor r) (cp_Source r) (cp_Candidate r) (cp_PreserveApprovedAssets r).
Definition zeroCreatePendingRevisionCommand : CreatePendingRevisionCommand :=
  mkCreatePendingRevisionCommand "" "" "" 0 "" "" zeroStoryboardRevision false.

Record DecidePendingRevisionCommand := mkDecidePendingRevisionCommand {
  dp_CommandID : string;
  dp_IdempotencyKey : string;
  dp_StoryboardID : string;
  dp_BaseVersion : Z;
  dp_RevisionID : string;
  dp_Decision : string;
  dp_Actor : string;
  dp_Source : string
}.
#[global] Instance eta_DecidePendingRevisionCommand : Eta DecidePendingRevisionCommand := fun r =>
  mkDecidePendingRevisionCommand (dp_CommandID r) (dp_IdempotencyKey r) (dp_StoryboardID r)
  (dp_BaseVersion r) (dp_RevisionID r) (dp_Decision r) (dp_Actor r) (dp_Source r).
Definition zeroDecidePendingRevisionCommand : DecidePendingRevisionCommand :=
  mkDecidePendingRevisionCommand "" "" "" 0 "" "" "" "".

Record DomainEvent := mkDomainEvent {
  ev_ID : string;
  ev_CommandID : string;
  ev_IdempotencyKey : string;
  ev_StoryboardID : string;
  ev_SessionID : string;
  ev_AggregateVersion : Z;
  ev_Type : string;
  ev_Actor : string;
  ev_Source : string;
  ev_Payload : gomap any;
  ev_CreatedAt : Time
}.
#[global] Instance eta_DomainEvent : Eta DomainEvent := fun r =>
  mkDomainEvent (ev_ID r) (ev_CommandID r) (ev_IdempotencyKey r) (ev_StoryboardID r)
  (ev_SessionID r) (ev_AggregateVersion r) (ev_Type r) (ev_Actor r) (ev_Source r)
  (ev_Payload r) (ev_CreatedAt r).
Definition zeroDomainEvent : DomainEvent :=
  mkDomainEvent "" "" "" "" "" 0 "" "" "" None zeroTime.

Definition json_CreatePendingRevisionCommand (r : CreatePendingRevisionCommand) : any :=
  AObj (str_field "command_id" (cp_CommandID r) ++
    str_field_opt "idempotency_key" (cp_IdempotencyKey r) ++
    str_field "storyboard_id" (cp_StoryboardID r) ++
    int_field "base_version" (cp_BaseVersion r) ++ str_field_opt "actor" (cp_Actor r) ++
    str_field_opt "source" (cp_Source r) ++
    [("candidate", json_StoryboardRevision (cp_Candidate r))] ++
    bool_field_opt "preserve_approved_assets" (cp_PreserveApprovedAssets r)).

Definition json_DecidePendingRevisionCommand (r : DecidePendingRevisionCommand) : any :=
  AObj (str_field "command_id" (dp_CommandID r) ++
    str_field_opt "idempotency_key" (dp_IdempotencyKey r) ++
    str_field "storyboard_id" (dp_StoryboardID r) ++
    int_field "base_version" (dp_BaseVersion r) ++ str_field "revision_id" (dp_RevisionID r) ++
    str_field "decision" (dp_Decision r) ++ str_field_opt "actor" (dp_Actor r) ++
    str_field_opt "source" (dp_Source r)).

(** ** The repository *)

Record MemoryAggregateRepository := mkRepository {
  mr_aggregates : gmap string StoryboardAggregate;
  mr_events : gmap string (list DomainEvent)
}.
#[global] Instance eta_MemoryAggregateRepository : Eta MemoryAggregateRepository := fun r =>
  mkRepository (mr_aggregates r) (mr_events r).

Definition NewMemoryAggregateRepository : MemoryAggregateRepository := mkRepository ∅ ∅.

(** The repository, how often the clock has been read, and what else there is. *)
Record bworld (X : Type) := mkBWorld { bw_repo : MemoryAggregateRepository; bw_reads : nat; bw_ext : X }.
Arguments mkBWorld {X}.
Arguments bw_repo {X}.
Arguments bw_reads {X}.
Arguments bw_ext {X}.

Definition validateAggregateIdentity (aggregate : StoryboardAggregate) : option error :=
  if blank (ag_ID aggregate) then Some (Errorf "storyboard aggregate id is required")
  else if blank (ag_SessionID aggregate) then Some (Errorf "storyboard aggregate session id is required")
  else None.

Definition normalizeDomainEvent (now : Time) (event : DomainEvent) (aggregate : StoryboardAggregate) : DomainEvent :=
  event <| ev_StoryboardID := ag_ID aggregate |> <| ev_SessionID := ag_SessionID aggregate |>
    <| ev_AggregateVersion := ag_Version aggregate |>
    <| ev_ID := if bool_decide (ev_ID event = "") then ag_ID aggregate +:+ ":event:" +:+ pretty (ag_Version aggregate)
                else ev_ID event |>
    <| ev_Type := if bool_decide (ev_Type event = "") then "storyboard.changed" else ev_Type event |>
    <| ev_CreatedAt := timeOr (ev_CreatedAt event) now |>.

Section storyboards.
Context `{Digest} `{Formatting} `{MapRange} `{Clock} {X : Type}.

Definition b_get : Eff (bworld X) MemoryAggregateRepository := fun w => (bw_repo w, w).
Definition b_put (r : MemoryAggregateRepository) : Eff (bworld X) unit :=
  fun w => (tt, mkBWorld r (bw_reads w) (bw_ext w)).

(** The next readings of the clock; a call of the service uses at most four. *)
Definition b_clock : Eff (bworld X) (nat → Time) := fun w =>
  (fun k => now_at (bw_reads w + k), mkBWorld (bw_repo w) (bw_reads w + 4) (bw_ext w)).

Definition CreateAggregate (aggregate : StoryboardAggregate) : Eff (bworld X) (result unit) :=
  check (validateAggregateIdentity aggregate)
    (let* r := b_get in
     if bool_decide (is_Some (mr_aggregates r !! ag_ID aggregate))
     then fail (Errorf ("storyboard aggregate already exists: " +:+ ag_ID aggregate))
     else let* _ := b_put (r <| mr_aggregates := <[ag_ID aggregate := Clone aggregate]> (mr_aggregates r) |>) in
          ret (Ok tt)).

Definition GetAggregate (storyboardID : string) : Eff (bworld X) (result StoryboardAggregate) :=
  let* r := b_get in
  match mr_aggregates r !! TrimSpace storyboardID with
  | None => fail (Wrapf "" ErrAggregateNotFound (": " +:+ storyboardID))
  | Some aggregate => ret (Ok (Clone aggregate))
  end.

Definition GetAggregateBySession (sessionID : string) : Eff (bworld X) (result StoryboardAggregate) :=
  let* r := b_get in
  let found := foldl (fun found '(_, aggregate) =>
    if negb (bool_decide (ag_SessionID aggregate = TrimSpace sessionID)) then found
    else match found with
         | None => Some (Clone aggregate)
         | Some best => if After (ag_UpdatedAt aggregate) (ag_UpdatedAt best) then Some (Clone aggregate) else found
         end) None (map_range (mr_aggregates r)) in
  match found with
  | None => fail (Wrapf "" ErrAggregateNotFound (": session=" +:+ sessionID))
  | Some aggregate => ret (Ok aggregate)
  end.

Definition events_of (r : MemoryAggregateRepository) (id : string) : list DomainEvent := default [] (mr_events r !! id).

Definition SaveAggregate (now : Time) (aggregate : StoryboardAggregate) (expectedVersion : Z) (event : DomainEvent)
    : Eff (bworld X) (result unit) :=
  check (validateAggregateIdentity aggregate)
    (let* r := b_get in
     match mr_aggregates r !! ag_ID aggregate with
     | None => fail (Wrapf "" ErrAggregateNotFound (": " +:+ ag_ID aggregate))
     | Some current =>
         if negb (ag_Version current =? expectedVersion)
         then fail (Wrapf "" ErrVersionConflict
                (": current=" +:+ pretty (ag_Version current) +:+ " expected=" +:+ pretty expectedVersion))
         else if negb (ag_Version aggregate =? incr expectedVersion)
         then fail (Wrapf "" ErrVersionConflict
                (": next=" +:+ pretty (ag_Version aggregate) +:+ " expected=" +:+ pretty (incr expectedVersion)))
         else if negb (bool_decide (ev_CommandID event = ""))
                 && existsb (fun existing => bool_decide (ev_CommandID existing = ev_CommandID event))
                      (events_of r (ag_ID aggregate))
         then ret (Ok tt)
         else
           let event := normalizeDomainEvent now event aggregate in
           let* _ := b_put (r <| mr_aggregates := <[ag_ID aggregate := Clone aggregate]> (mr_aggregates r) |>
                              <| mr_events := <[ag_ID aggregate := events_of r (ag_ID aggregate) ++ [event]]> (mr_events r) |>) in
           ret (Ok tt)
     end).

Definition ListDomainEvents (storyboardID : string) (afterVersion : Z) : Eff (bworld X) (result (list DomainEvent)) :=
  let* r := b_get in
  match mr_aggregates r !! storyboardID with
  | None => fail (Wrapf "" ErrAggregateNotFound (": " +:+ storyboardID))
  | Some _ =>
      ret (Ok (sort_slice (fun a b => ev_AggregateVersion a <? ev_AggregateVersion b)
                 (List.filter (fun event => afterVersion <? ev_AggregateVersion event) (events_of r storyboardID))))
  end.

(** ** The command service *)

Definition Create (storyboardID sessionID : string) : Eff (bworld X) (result StoryboardAggregate) :=
  let* now := b_clock in
  match NewStoryboardAggregate (now 0%nat) storyboardID sessionID with
  | Err err => fail err
  | Ok aggregate => try* _ := CreateAggregate aggregate in ret (Ok aggregate)
  end.

(** The aggregate, and whether the command has been applied to it. *)
Definition loadForCommand (storyboardID commandID fingerprint : string)
    : Eff (bworld X) (result (StoryboardAggregate * bool)) :=
  if blank storyboardID then fail (Errorf "storyboard id is required")
  else try* aggregate := GetAggregate storyboardID in
       ret (match checkAppliedCommand aggregate commandID fingerprint with
            | Err err => Err err
            | Ok duplicate => Ok (aggregate, duplicate)
            end).

(** What all commands share: load, stop at a replay, apply the method to the
    copy, save it with the event. *)
Definition run_command {A B : Type} (storyboardID commandID fingerprint : string)
    (replayed : StoryboardAggregate → result (StoryboardAggregate * B))
    (method : (nat → Time) → agg (result A))
    (marked : A → StoryboardAggregate → StoryboardAggregate) (event : A → StoryboardAggregate → DomainEvent)
    (value : A → B) : Eff (bworld X) (result (StoryboardAggregate * B)) :=
  try* '(aggregate, duplicate) := loadForCommand storyboardID commandID fingerprint in
  if duplicate : bool then ret (replayed aggregate)
  else
    let before := ag_Version aggregate in
    let* now := b_clock in
    match method now aggregate with
    | (Err err, _) => fail err
    | (Ok a, aggregate) =>
        let aggregate := marked a aggregate in
        try* _ := SaveAggregate (now 3%nat) aggregate before (event a aggregate) in
        ret (Ok (aggregate, value a))
    end.

Definition unmarked {A} (_ : A) (a : StoryboardAggregate) : StoryboardAggregate := a.

Definition strings (l : list string) : any := AArr (AStr <$> l).

Definition new_event (commandID idempotencyKey type actor source : string) (fields : list (string * any)) : DomainEvent :=
  mkDomainEvent "" commandID idempotencyKey "" "" 0 type actor source (payload fields) zeroTime.

(** The slices of [command.Candidate] are shared with the method, which
    reconciles them in place: the fingerprint recorded at the end is that of the
    command with the reconciled candidate. *)
Definition CreatePending (command : CreatePendingRevisionCommand)
    : Eff (bworld X) (result (StoryboardAggregate * RevisionDiff)) :=
  run_command (cp_StoryboardID command) (cp_CommandID command)
    (commandFingerprint (json_CreatePendingRevisionCommand command))
    (fun aggregate => Ok (aggregate, zeroRevisionDiff))
    (fun now => CreatePendingRevision now (cp_CommandID command) (cp_BaseVersion command) (cp_Candidate command)
                  (cp_PreserveApprovedAssets command))
    (fun '(_, shared) => markAppliedCommand (cp_CommandID command)
       (commandFingerprint (json_CreatePendingRevisionCommand (command <| cp_Candidate := shared |>))))
    (fun '(diff, _) aggregate =>
       new_event (cp_CommandID command) (cp_IdempotencyKey command) "storyboard.revision_requested"
         (cp_Actor command) (cp_Source command)
         [("revision_id", AStr (ag_PendingRevisionID aggregate));
          ("plan_revision", AInt (incr (ag_PlanRevision aggregate))); ("diff", json_RevisionDiff diff)])
    fst.

Definition normalized_decision (command : DecidePendingRevisionCommand) : string :=
  ToLower (TrimSpace (dp_Decision command)).

(** The method that carries out a decision and the type of its event. *)
Definition decision_method (command : DecidePendingRevisionCommand) (now : nat → Time)
    : agg (result (RevisionDiff * string)) := fun a =>
  let decision := normalized_decision command in
  let reject := RejectPendingRevision now (dp_CommandID command) (dp_BaseVersion command) (dp_RevisionID command) in
  let with_type {A} (type : string) (diff : A → RevisionDiff) (m : result A * StoryboardAggregate) :=
    match m with (Ok v, a) => (Ok (diff v, type), a) | (Err err, a) => (Err err, a) end in
  if bool_decide (decision ∈ ["approved"; "approve"]) then
    with_type "storyboard.revision_promoted" id
      (PromotePendingRevision now (dp_CommandID command) (dp_BaseVersion command) (dp_RevisionID command) a)
  else if bool_decide (decision ∈ ["rejected"; "reject"]) then
    with_type "storyboard.revision_rejected" (fun _ => zeroRevisionDiff) (reject a)
  else if bool_decide (decision ∈ ["stale"; "cancelled"; "canceled"]) then
    with_type ("storyboard.revision_" +:+ decision) (fun _ => zeroRevisionDiff) (reject a)
  else (Err (Wrapf "" ErrInvalidMutation (": unsupported decision " +:+ Quote decision)), a).

Definition DecidePending (command : DecidePendingRevisionCommand)
    : Eff (bworld X) (result (StoryboardAggregate * RevisionDiff)) :=
  let fingerprint := commandFingerprint (json_DecidePendingRevisionCommand command) in
  run_command (dp_StoryboardID command) (dp_CommandID command) fingerprint
    (fun aggregate => Ok (aggregate, zeroRevisionDiff))
    (decision_method command)
    (fun _ => markAppliedCommand (dp_CommandID command) fingerprint)
    (fun '(diff, eventType) _ =>
       new_event (dp_CommandID command) (dp_IdempotencyKey command) eventType (dp_Actor command) (dp_Source command)
         [("revision_id", AStr (dp_RevisionID command)); ("decision", AStr (normalized_decision command));
          ("diff", json_RevisionDiff diff)])
    fst.

Definition Mutate (command : StoryboardMutationCommand)
    : Eff (bworld X) (result (StoryboardAggregate * list string)) :=
  run_command (mu_StoryboardID command) (mu_CommandID command)
    (commandFingerprint (json_StoryboardMutationCommand command))
    (fun aggregate => Ok (aggregate, [])) (fun now => ApplyMutation now command) unmarked
    (fun stale _ => new_event (mu_CommandID command) (mu_IdempotencyKey command) "storyboard.target_updated"
       (mu_Actor command) (mu_Source command)
       [("target_id", AStr (mu_TargetID command)); ("field", AStr (mu_Field command));
        ("operation", AStr (mu_Operation command)); ("stale_targets", strings stale)])
    id.

Definition Service_UpdatePrompt (command : UpdatePromptCommand)
    : Eff (bworld X) (result (StoryboardAggregate * list string)) :=
  run_command (up_StoryboardID command) (up_CommandID command)
    (commandFingerprint (json_UpdatePromptCommand command))
    (fun aggregate => Ok (aggregate, [])) (fun now => UpdatePrompt now command) unmarked
    (fun stale _ => new_event (up_CommandID command) "" "storyboard.prompt_updated" "" "user"
       [("target_id", AStr (up_TargetID command)); ("purpose", AStr (up_Purpose command));
        ("stale_targets", strings stale)])
    id.

Definition Regenerate (command : RegenerateAssetCommand) : Eff (bworld X) (result (StoryboardAggregate * Z)) :=
  run_command (rg_StoryboardID command) (rg_CommandID command)
    (commandFingerprint (json_RegenerateAssetCommand command))
    (fun aggregate => Ok (aggregate, 0)) (fun now => RegenerateAsset now command) unmarked
    (fun epoch _ => new_event (rg_CommandID command) "" "storyboard.regeneration_requested" "" "user"
       [("target_id", AStr (rg_TargetID command)); ("asset_slot", AStr (rg_AssetSlot command));
        ("generation_epoch", AInt epoch);
        ("dispatch_snapshot", json_RegenerationDispatchSnapshot (rg_DispatchSnapshot command))])
    id.

Definition Bind (command : BindAssetCommand) : Eff (bworld X) (result (StoryboardAggregate * string)) :=
  run_command (bc_StoryboardID command) (bc_CommandID command)
    (commandFingerprint (json_BindAssetCommand command))
    (fun aggregate => match replayed_binding command aggregate with
                      | Ok disposition => Ok (aggregate, disposition) | Err err => Err err end)
    (fun now => BindAsset now command) unmarked
    (fun disposition _ => new_event (bc_CommandID command) "" "storyboard.asset_bound" "" "worker"
       [("target_id", AStr (bc_TargetID command)); ("asset_slot", AStr (bc_AssetSlot command));
        ("asset_id", AStr (bc_AssetID command)); ("binding_id", AStr (bc_BindingID command));
        ("disposition", AStr disposition)])
    id.

Definition Activate (command : ActivateBindingCommand)
    : Eff (bworld X) (result (StoryboardAggregate * list string)) :=
  run_command (av_StoryboardID command) (av_CommandID command)
    (commandFingerprint (json_ActivateBindingCommand command))
    (fun aggregate => Ok (aggregate, [])) (fun now => ActivateBinding now command) unmarked
    (fun stale _ => new_event (av_CommandID command) "" "storyboard.asset_activated" "" "approval"
       [("binding_id", AStr (av_BindingID command)); ("stale_targets", strings stale)])
    id.

Definition Service_RejectBinding (command : RejectBindingCommand)
    : Eff (bworld X) (result (StoryboardAggregate * unit)) :=
  run_command (rj_StoryboardID command) (rj_CommandID command)
    (commandFingerprint (json_RejectBindingCommand command))
    (fun aggregate => Ok (aggregate, tt)) (fun now => RejectBinding now command) unmarked
    (fun _ _ => new_event (rj_CommandID command) "" "storyboard.asset_rejected" "" "approval"
       [("binding_id", AStr (rj_BindingID command))])
    id.
End storyboards.
