(* ===== verification/StoryboardValid.v ===== *)
(** * Storyboards: which plans are accepted

    [ValidateRevision] against a declarative reading of what a plan has to be
    ([wellformed]), the uniqueness of the ids that the reconciliation makes up,
    and what becomes of prompts that the user has locked. *)

From Stdlib Require Import ZArith Lia.
From stdpp Require Import relations.
From S2P Require Import Prelude GoJson StoryboardModels StoryboardGraph StoryboardCommand StoryboardRevision.

Record wellformed_element (e : StoryboardElement) : Prop := {
  we_ID : el_ID e ≠ "";
  we_Key : el_Key e ≠ "";
  we_Type : el_SemanticType e ≠ "";
  we_purposes : "" ∉ pp_Purpose <$> elems (el_PromptSlots e);
  we_purposes_distinct : NoDup (pp_Purpose <$> elems (el_PromptSlots e));
  we_slots : "" ∉ sl_Key <$> elems (el_AssetSlots e);
  we_slots_distinct : NoDup (sl_Key <$> elems (el_AssetSlots e));
  we_media : Forall (fun s => sl_MediaKind s ≠ "" ∧ isSupportedAssetSlotMediaKind (sl_MediaKind s) = true)
               (elems (el_AssetSlots e))
}.

Record wellformed_module (m : StoryboardModule) : Prop := {
  wm_ID : md_ID m ≠ "";
  wm_Key : md_Key m ≠ "";
  wm_Type : md_SemanticType m ≠ "";
  wm_count : md_PlannedCount m = Z.of_nat (length (md_Elements m));
  wm_keys : NoDup (el_Key <$> md_Elements m);
  wm_elements : Forall wellformed_element (md_Elements m)
}.

(** Modules and elements are the targets of a plan. *)
Definition module_targets (m : StoryboardModule) : list string := md_ID m :: (el_ID <$> md_Elements m).
Definition target_ids (modules : list StoryboardModule) : list string := modules ≫= module_targets.

Lemma target_ids_cons m modules :
  target_ids (m :: modules) = md_ID m :: (el_ID <$> md_Elements m) ++ target_ids modules.
Proof. done. Qed.

#[global] Arguments target_ids : simpl never.

(** An edge joins two different elements, at slots that they have. *)
Definition wellformed_edge (elements : list StoryboardElement) (edge : DependencyEdge) : Prop :=
  ∃ from to, from ∈ elements ∧ to ∈ elements ∧
    el_ID from = ed_FromTargetID edge ∧ el_ID to = ed_ToTargetID edge ∧
    ed_FromTargetID edge ≠ ed_ToTargetID edge ∧
    (ed_FromSlot edge = "" ∨ ed_FromSlot edge ∈ sl_Key <$> elems (el_AssetSlots from)) ∧
    (ed_ToSlot edge = "" ∨ ed_ToSlot edge ∈ sl_Key <$> elems (el_AssetSlots to)).

Record wellformed (r : StoryboardRevision) : Prop := {
  wf_ID : blank (rv_ID r) = false;
  wf_StoryboardID : blank (rv_StoryboardID r) = false;
  wf_modules : rv_Modules r ≠ [];
  wf_each : Forall wellformed_module (rv_Modules r);
  wf_keys : NoDup (md_Key <$> rv_Modules r);
  wf_targets : NoDup (target_ids (rv_Modules r));
  wf_edges : Forall (wellformed_edge (revision_elements r)) (rv_Dependencies r);
  wf_edges_distinct : NoDup (dependency_key <$> rv_Dependencies r);
  wf_acyclic x : ¬ tc (depends (rv_Dependencies r)) x x
}.

(** ** The loops of the validation *)

(** Distinct names, none of which has been seen. *)
Definition fresh (l : list string) (seen : gset string) : Prop := NoDup l ∧ ∀ k, k ∈ l → k ∉ seen.

Lemma fresh_nil seen : fresh [] seen ↔ True.
Proof. unfold fresh. split; [done|]. split; [constructor|]. intros k Hk. by apply elem_of_nil in Hk. Qed.

Lemma fresh_cons x l seen : fresh (x :: l) seen ↔ x ∉ seen ∧ fresh l ({[x]} ∪ seen).
Proof. unfold fresh. rewrite NoDup_cons. set_solver. Qed.

Lemma fresh_app l1 l2 seen : fresh (l1 ++ l2) seen ↔ fresh l1 seen ∧ fresh l2 (list_to_set l1 ∪ seen).
Proof. unfold fresh. rewrite NoDup_app. set_solver. Qed.

Lemma fresh_empty l : fresh l ∅ ↔ NoDup l.
Proof. unfold fresh. set_solver. Qed.

Lemma fresh_named l seen : fresh l ({[""]} ∪ seen) ↔ fresh l seen ∧ "" ∉ l.
Proof. unfold fresh. set_solver. Qed.

Lemma validate_prompts_None id slots purposes :
  validate_prompts id slots purposes = None ↔
  "" ∉ pp_Purpose <$> slots ∧ fresh (pp_Purpose <$> slots) purposes.
Proof.
  revert purposes. induction slots as [|s slots IH]; intros purposes; cbn.
  - rewrite fresh_nil. split; [|done]. intros _. split; [apply not_elem_of_nil|done].
  - rewrite fresh_cons, not_elem_of_cons. repeat case_bool_decide; cbn; rewrite ?IH; naive_solver.
Qed.

Lemma validate_assets_None id slots keys :
  validate_assets id slots keys = None ↔
  "" ∉ sl_Key <$> slots ∧ fresh (sl_Key <$> slots) keys ∧
  Forall (fun s => sl_MediaKind s ≠ "" ∧ isSupportedAssetSlotMediaKind (sl_MediaKind s) = true) slots.
Proof.
  revert keys. induction slots as [|s slots IH]; intros keys; cbn.
  - rewrite fresh_nil. split; [|done]. intros _. split_and!; [apply not_elem_of_nil|done|constructor].
  - rewrite fresh_cons, not_elem_of_cons, Forall_cons.
    destruct (isSupportedAssetSlotMediaKind _); repeat case_bool_decide; cbn; rewrite ?IH; naive_solver.
Qed.

Lemma validateSlots_None e :
  el_ID e ≠ "" → el_Key e ≠ "" → el_SemanticType e ≠ "" → validateSlots e = None ↔ wellformed_element e.
Proof.
  intros H1 H2 H3. unfold validateSlots.
  pose proof (validate_prompts_None (el_ID e) (elems (el_PromptSlots e)) ∅) as Hp.
  pose proof (validate_assets_None (el_ID e) (elems (el_AssetSlots e)) ∅) as Ha.
  rewrite fresh_empty in Hp, Ha. destruct (validate_prompts _ _ _).
  - split; [done|]. intros []. naive_solver.
  - rewrite Ha. destruct Hp as [Hp _]. specialize (Hp eq_refl). split.
    + intros (? & ? & ?). destruct Hp; by constructor.
    + by intros [].
Qed.

Lemma validate_elements_spec id elements keys seen :
  (∃ seen', validate_elements id elements keys seen = Ok seen') ↔
  Forall wellformed_element elements ∧ fresh (el_Key <$> elements) keys ∧ fresh (el_ID <$> elements) (st_ids seen).
Proof.
  revert keys seen. induction elements as [|e elements IH]; intros keys seen; cbn.
  - rewrite !fresh_nil. split; [|by eauto]. intros _. split; [constructor|done].
  - rewrite Forall_cons, !fresh_cons.
    repeat case_bool_decide; cbn;
      try (split; [by intros [? ?]|intros ([[] _] & [? _] & [? _]); contradiction]).
    pose proof (validateSlots_None e) as Hs.
    destruct (validateSlots e).
    + split; [by intros [? ?]|]. intros ([? _] & _). naive_solver.
    + rewrite IH. cbn [st_ids]. naive_solver.
Qed.

Lemma validate_elements_seen id elements keys seen seen' :
  validate_elements id elements keys seen = Ok seen' →
  st_targets seen' = foldl (fun m e => <[el_ID e := e]> m) (st_targets seen) elements ∧
  st_ids seen' = list_to_set (el_ID <$> elements) ∪ st_ids seen.
Proof.
  revert keys seen. induction elements as [|e elements IH]; intros keys seen; cbn.
  - intros [= ->]. split; [done|set_solver].
  - repeat case_match; try done. intros [-> ->]%IH. cbn. split; [done|set_solver].
Qed.

Lemma validate_modules_spec modules keys seen :
  (∃ seen', validate_modules modules keys seen = Ok seen') ↔
  Forall wellformed_module modules ∧ fresh (md_Key <$> modules) keys ∧ fresh (target_ids modules) (st_ids seen).
Proof.
  revert keys seen. induction modules as [|m modules IH]; intros keys seen; cbn.
  - rewrite !fresh_nil. split; [|by eauto]. intros _. split; [constructor|done].
  - rewrite Forall_cons, target_ids_cons, !fresh_cons, fresh_app.
    repeat case_bool_decide; cbn;
      try (split; [by intros [? ?]|intros ([[] _] & [? _] & [? _]); contradiction]).
    destruct (Z.eqb_spec (md_PlannedCount m) (Z.of_nat (length (md_Elements m)))); cbn;
      [|split; [by intros [? ?]|by intros ([[] _] & _)]].
    pose proof (validate_elements_spec (md_ID m) (md_Elements m) ∅ (mkSeen (st_targets seen) ({[md_ID m]} ∪ st_ids seen))) as He.
    rewrite fresh_empty in He. cbn [st_ids] in He.
    destruct (validate_elements _ _ _ _) as [seen1|] eqn:E.
    + destruct He as [He _]. specialize (He (ex_intro _ _ eq_refl)) as (Hall & Hk & Hi).
      apply validate_elements_seen in E as [_ Hids]. rewrite IH, Hids. cbn [st_ids].
      assert (wellformed_module m) by done. tauto.
    + split; [by intros [? ?]|]. intros ([[] _] & _ & _ & ? & _). destruct He as [_ He].
      destruct He as [? ?]; done.
Qed.

Lemma validate_modules_targets modules keys seen seen' :
  validate_modules modules keys seen = Ok seen' →
  st_targets seen' = foldl (fun m e => <[el_ID e := e]> m) (st_targets seen) (modules ≫= md_Elements).
Proof.
  revert keys seen. induction modules as [|m modules IH]; intros keys seen; cbn.
  - by intros [= ->].
  - repeat case_match; try done. intros ->%IH.
    match goal with E : validate_elements _ _ _ _ = Ok _ |- _ => apply validate_elements_seen in E as [-> _] end.
    by rewrite foldl_app.
Qed.

Lemma index_by_lookup {A} (key : A → string) l k (m : gmap string A) :
  foldl (fun m v => <[key v := v]> m) m l !! k
  = match List.find (fun v => bool_decide (key v = k)) (reverse l) with Some v => Some v | None => m !! k end.
Proof.
  revert m. induction l as [|v l IH]; intros m; [done|]. cbn [foldl]. rewrite IH, reverse_cons.
  assert (∀ (p : A → bool) l1 l2, List.find p (l1 ++ l2)
     = match List.find p l1 with Some a => Some a | None => List.find p l2 end) as Happ.
  { intros p l1 l2. induction l1 as [|a l1 IHl]; [done|]. cbn. by destruct (p a). }
  rewrite Happ. destruct (List.find _ (reverse l)); [done|]. cbn.
  case_bool_decide as E; [subst; by rewrite lookup_insert_eq|by rewrite lookup_insert_ne].
Qed.

(** With distinct ids the map of the targets is the list of the elements. *)
Lemma indexed_lookup (l : list StoryboardElement) k e :
  NoDup (el_ID <$> l) → foldl (fun m v => <[el_ID v := v]> m) (∅ : gmap string StoryboardElement) l !! k = Some e ↔
  e ∈ l ∧ el_ID e = k.
Proof.
  intros Hnd. rewrite (index_by_lookup el_ID l k ∅). split.
  - destruct (List.find _ _) eqn:E; [|by rewrite lookup_empty]. intros [= ->].
    apply find_elem in E as [Hin Hk]. apply bool_decide_eq_true in Hk. split; [|done]. by rewrite elem_of_reverse in Hin.
  - intros [Hin <-]. destruct (List.find _ _) as [e'|] eqn:E.
    + apply find_elem in E as [Hin' Hk]. apply bool_decide_eq_true in Hk. f_equal.
      eapply (NoDup_fmap_elem el_ID); [exact Hnd|by apply elem_of_reverse|done|done].
    + exfalso. eapply find_none in E; [|apply list_elem_of_In; by apply elem_of_reverse].
      by rewrite bool_decide_true in E.
Qed.

Lemma hasAssetSlot_iff e key : hasAssetSlot e key = true ↔ key ∈ sl_Key <$> elems (el_AssetSlots e).
Proof.
  unfold hasAssetSlot. rewrite existsb_exists, list_elem_of_fmap. unfold has_slot_key. split.
  - intros (s & Hs & Hk%bool_decide_eq_true). exists s. split; [done|by apply list_elem_of_In].
  - intros (s & -> & Hs). exists s. split; [by apply list_elem_of_In|by apply bool_decide_eq_true].
Qed.

Lemma validate_edges_None edges elements :
  NoDup (el_ID <$> elements) →
  validate_edges edges (foldl (fun m v => <[el_ID v := v]> m) ∅ elements) = None ↔
  Forall (wellformed_edge elements) edges.
Proof.
  intros Hnd. set (targets := foldl _ _ _).
  assert (Hl : ∀ k e, targets !! k = Some e ↔ e ∈ elements ∧ el_ID e = k) by (intros; by apply indexed_lookup).
  induction edges as [|edge edges IH]; cbn; [by split; [constructor|]|]. rewrite Forall_cons, <-IH.
  destruct (targets !! ed_FromTargetID edge) as [from|] eqn:Ef;
    [|split; [done|]; intros [(f & t & Hf & _ & Hfi & _) _]; assert (targets !! ed_FromTargetID edge = Some f) by (by apply Hl); congruence].
  destruct (targets !! ed_ToTargetID edge) as [to|] eqn:Et;
    [|split; [done|]; intros [(f & t & _ & Ht & _ & Hti & _) _]; assert (targets !! ed_ToTargetID edge = Some t) by (by apply Hl); congruence].
  assert (Hw : wellformed_edge elements edge ↔ ed_FromTargetID edge ≠ ed_ToTargetID edge ∧
    (ed_FromSlot edge = "" ∨ hasAssetSlot from (ed_FromSlot edge) = true) ∧
    (ed_ToSlot edge = "" ∨ hasAssetSlot to (ed_ToSlot edge) = true)).
  { rewrite !hasAssetSlot_iff. apply Hl in Ef as Hf, Et as Ht. split.
    - intros (f & t & Hf' & Ht' & Hfi & Hti & Hne & H1 & H2).
      assert (targets !! ed_FromTargetID edge = Some f) as Ef' by (by apply Hl).
      assert (targets !! ed_ToTargetID edge = Some t) as Et' by (by apply Hl). simplify_eq. done.
    - intros (Hne & H1 & H2). exists from, to. naive_solver. }
  rewrite Hw.
  destruct (hasAssetSlot from _), (hasAssetSlot to _); repeat case_bool_decide; cbn; naive_solver.
Qed.

Lemma target_ids_elements modules :
  NoDup (target_ids modules) → NoDup (el_ID <$> (modules ≫= md_Elements)).
Proof.
  intros Hnd. apply (sublist_NoDup _ _ Hnd). clear Hnd.
  induction modules as [|m modules IH]; [done|]. rewrite target_ids_cons. cbn. rewrite fmap_app.
  constructor. by apply sublist_app.
Qed.

Lemma validation_spec `{MapRange} r : ValidateRevision r = None ↔ wellformed r.
Proof.
  unfold ValidateRevision.
  destruct (blank (rv_ID r)) eqn:E1; [split; [done|by intros []; congruence]|].
  destruct (blank (rv_StoryboardID r)) eqn:E2; [split; [done|by intros []; congruence]|].
  case_bool_decide as E3; [split; [done|]; intros []; by apply length_zero_iff_nil in E3|].
  pose proof (validate_modules_spec (rv_Modules r) ∅ (mkSeen ∅ ∅)) as Hm.
  destruct (validate_modules _ _ _) as [seen|err] eqn:E.
  - destruct Hm as [Hm _]. specialize (Hm (ex_intro _ _ eq_refl)) as (Hall & Hk & Ht).
    rewrite fresh_empty in Hk, Ht.
    apply validate_modules_targets in E. cbn in E. rewrite E.
    pose proof (target_ids_elements _ Ht) as Hnd.
    pose proof (validate_edges_None (rv_Dependencies r) (revision_elements r) Hnd) as He.
    fold (revision_elements r). destruct (validate_edges _ _) as [err|] eqn:Ee.
    { split; [done|]. intros []. naive_solver. }
    destruct He as [He _]. specialize (He eq_refl).
    rewrite dag_check_spec.
    + split; [|by intros []]. intros [Hd Hac]. split; try done. by destruct (rv_Modules r).
    + intros edge Hin. rewrite Forall_forall in He. destruct (He edge Hin) as (f & t & Hf & Ht' & <- & <- & _).
      split; [exists f|exists t]; by apply indexed_lookup.
  - split; [done|]. intros []. destruct Hm as [_ Hm]. destruct Hm as [? ?]; [|done].
    by rewrite !fresh_empty.
Qed.

(** C29. A plan is accepted exactly when it is well formed: ids and keys are
    there and distinct, every module has the number of elements it announces,
    prompts and asset slots have distinct names and a media kind of the
    protocol, every dependency joins two different elements at slots that they
    have, none is given twice, and none of them closes a cycle. *)
Theorem validation_accepts_exactly_wellformed `{MapRange} r : ValidateRevision r = None ↔ wellformed r.
Proof. apply validation_spec. Qed.

(** ** Made-up ids do not clash *)

Definition suffixed (base : string) (suffix : Z) : string := base +:+ "_" +:+ pretty suffix.

Lemma suffixed_inj base i j : suffixed base i = suffixed base j → i = j.
Proof. unfold suffixed. intros E. by simplify_eq. Qed.

Lemma free_suffix_used fuel base suffix used :
  free_suffix fuel base suffix used ∈ used →
  ∀ i, (i ≤ fuel)%nat → suffixed base (suffix + Z.of_nat i) ∈ used.
Proof.
  revert suffix. induction fuel as [|fuel IH]; intros suffix; cbn [free_suffix].
  - intros H i Hi. replace (suffix + Z.of_nat i) with suffix by lia. done.
  - case_bool_decide as E; [|done]. intros H [|i] Hi.
    + by replace (suffix + Z.of_nat 0) with suffix by lia.
    + replace (suffix + Z.of_nat (S i)) with (suffix + 1 + Z.of_nat i) by lia. apply IH; [done|lia].
Qed.

(** The loop over the suffixes ends at a free one within the model's fuel. *)
Lemma free_suffix_free base suffix used : free_suffix (size used) base suffix used ∉ used.
Proof.
  intros H. pose proof (free_suffix_used _ _ _ _ H) as Hall.
  set (names := (fun i => suffixed base (suffix + Z.of_nat i)) <$> seq 0 (S (size used))).
  assert (NoDup names) as Hnd.
  { apply NoDup_fmap_2_strong; [|apply NoDup_seq]. intros i j _ _ E%suffixed_inj. lia. }
  assert (list_to_set names ⊆ used) as Hsub.
  { intros x Hx. apply elem_of_list_to_set, list_elem_of_fmap in Hx as (i & -> & Hi%elem_of_seq).
    apply Hall. lia. }
  apply subseteq_size in Hsub. rewrite size_list_to_set in Hsub by done.
  unfold names in Hsub. rewrite length_fmap, length_seq in Hsub. lia.
Qed.

Lemma uniqueStableID_spec value used :
  fst (uniqueStableID value used) ∉ used ∧
  snd (uniqueStableID value used) = {[fst (uniqueStableID value used)]} ∪ used.
Proof.
  unfold uniqueStableID. cbn. split; [|done]. case_bool_decide; [apply free_suffix_free|done].
Qed.

Section reconciled.
Context `{MapRange}.

Lemma settled_element_ID preserve old e : el_ID (settled_element preserve old e) = el_ID e.
Proof. unfold settled_element. repeat case_match; done. Qed.

Lemma settled_element_Key preserve old e : el_Key (settled_element preserve old e) = el_Key e.
Proof. unfold settled_element. repeat case_match; done. Qed.

Lemma settled_element_PromptSlots preserve old e :
  el_PromptSlots (settled_element preserve old e) = fmap (M:=list) normalizePromptSlot <$> el_PromptSlots e.
Proof. unfold settled_element. repeat case_match; done. Qed.

Lemma elems_append {A} (s : goslice A) l : elems (append s l) = elems s ++ l.
Proof. destruct s as [s|], l as [|x l]; cbn; rewrite ?app_nil_r; done. Qed.

Lemma elems_fmap {A B} (f : A → B) (s : goslice A) : elems (fmap (M:=list) f <$> s) = f <$> elems s.
Proof. by destruct s. Qed.

Lemma index_by_unique {A} (key : A → string) l a :
  NoDup (key <$> l) → a ∈ l → index_by key l !! key a = Some a.
Proof.
  intros Hnd Ha. unfold index_by. rewrite index_by_lookup. destruct (List.find _ _) as [q|] eqn:F.
  - apply find_elem in F as [Hin Hk]. apply bool_decide_eq_true in Hk. f_equal.
    eapply (NoDup_fmap_elem key); [exact Hnd|by rewrite elem_of_reverse in Hin|done|done].
  - exfalso. eapply find_none in F; [|apply list_elem_of_In; by apply elem_of_reverse].
    by rewrite bool_decide_true in F.
Qed.

Lemma reconcileLockedPrompts_keeps e old p :
  NoDup (pp_Purpose <$> elems (el_PromptSlots old)) → p ∈ elems (el_PromptSlots old) →
  pp_LockedByUser p = true → p ∈ elems (el_PromptSlots (reconcileLockedPrompts e old)).
Proof.
  intros Hnd Hp Hl. unfold reconcileLockedPrompts. cbv zeta.
  pose proof (index_by_unique pp_Purpose _ p Hnd Hp) as Hold.
  generalize dependent (index_by pp_Purpose (elems (el_PromptSlots old))). intros olds Hold.
  cbn [el_PromptSlots update_field eta_StoryboardElement].
  rewrite elems_append, elems_fmap. apply elem_of_app.
  destruct (decide (pp_Purpose p ∈ (TrimSpace ∘ pp_Purpose) <$> elems (el_PromptSlots e))) as [Hc|Hc].
  - left. apply list_elem_of_fmap in Hc as (slot & Hk & Hs). apply list_elem_of_fmap. exists slot.
    cbn in Hk. split; [by rewrite <-Hk, Hold, Hl|done].
  - right. apply list_elem_of_fmap. exists (pp_Purpose p, p). split; [done|].
    apply list_elem_of_In, filter_In. split; [|by rewrite Hl, bool_decide_false].
    apply list_elem_of_In. rewrite map_range_perm. by apply elem_of_map_to_list.
Qed.

Lemma matched_element_spec olds mk index e :
  fst (matched_element olds mk index e) = olds !! elementMatchKey mk (el_Key (snd (matched_element olds mk index e))) ∧
  ∀ old p, fst (matched_element olds mk index e) = Some old →
    NoDup (pp_Purpose <$> elems (el_PromptSlots old)) → p ∈ elems (el_PromptSlots old) →
    pp_LockedByUser p = true → p ∈ elems (el_PromptSlots (snd (matched_element olds mk index e))).
Proof.
  unfold matched_element. set (keyed := e <| el_Key := _ |>). cbv zeta.
  destruct (olds !! elementMatchKey mk (el_Key keyed)) as [o|] eqn:E; cbn [fst snd]; [|by rewrite E].
  split; [symmetry; exact E|]. intros old p [= ->]. apply reconcileLockedPrompts_keeps.
Qed.

(** Every asset slot asks for a review of its candidates. *)
Definition reviewed (e : StoryboardElement) : Prop :=
  Forall (fun s => sl_ReviewRequired s = true) (elems (el_AssetSlots e)).

Lemma fmap_reviewed (f : AssetSlot → AssetSlot) (l : goslice AssetSlot) :
  (∀ s, s ∈ elems l → sl_ReviewRequired (f s) = true) →
  Forall (fun s => sl_ReviewRequired s = true) (elems (fmap (M:=list) f <$> l)).
Proof.
  intros Hf. rewrite elems_fmap, Forall_fmap, Forall_forall. apply Hf.
Qed.

Lemma fresh_slot_reviewed s : sl_ReviewRequired (fresh_slot s) = true.
Proof. unfold fresh_slot, normalizeAssetSlot. cbv zeta. repeat case_match; done. Qed.

Lemma carried_slot_review compatible previous s :
  sl_ReviewRequired (carried_slot compatible previous s) = sl_ReviewRequired s.
Proof. unfold carried_slot. cbv zeta. repeat case_match; done. Qed.

Lemma settled_element_reviewed preserve old e : reviewed (settled_element preserve old e).
Proof.
  set (e1 := e <| el_PromptSlots := fmap (M:=list) normalizePromptSlot <$> el_PromptSlots e |>
               <| el_AssetSlots := fmap (M:=list) fresh_slot <$> el_AssetSlots e |>).
  assert (reviewed e1) as H1 by (apply fmap_reviewed; intros s _; apply fresh_slot_reviewed).
  assert (∀ o, reviewed (reconcileAssetSlots e1 o (generationCompatible o e1))) as H2.
  { intros o. apply fmap_reviewed. intros s Hs. unfold reviewed in H1. rewrite Forall_forall in H1. specialize (H1 s Hs).
    case_match; [by rewrite carried_slot_review|done]. }
  unfold settled_element. fold e1. cbv zeta. destruct old as [o|]; [destruct preserve|];
    repeat case_match; first [exact (H2 o)|exact H1].
Qed.

(** What the reconciliation of an element gives. *)
Lemma reconcile_element_spec olds preserve mk omk index e used al e' used' al' :
  reconcile_element olds preserve mk omk index e (used, al) = (e', (used', al')) →
  el_ID e' ∉ used ∧ used' = {[el_ID e']} ∪ used ∧
  (∀ old p, olds !! elementMatchKey mk (el_Key e') = Some old →
    NoDup (pp_Purpose <$> elems (el_PromptSlots old)) →
    p ∈ elems (el_PromptSlots old) → pp_LockedByUser p = true →
    normalizePromptSlot p ∈ elems (el_PromptSlots e')) ∧ reviewed e'.
Proof.
  unfold reconcile_element. pose proof (matched_element_spec olds mk index e) as [Hm Hk].
  destruct (matched_element olds mk index e) as [old named]. cbn [fst snd] in Hm, Hk.
  pose proof (uniqueStableID_spec (proposed_id mk named) used) as [Hf Hs].
  destruct (uniqueStableID _ used) as [id used1]. cbn [fst snd] in Hf, Hs. intros [= <- <- <-].
  rewrite settled_element_ID, settled_element_Key, settled_element_PromptSlots, elems_fmap.
  cbn [el_ID el_Key el_PromptSlots].
  split_and!; [done|done| |apply settled_element_reviewed]. intros o p Ho Hnd Hp Hl. rewrite Ho in Hm.
  apply list_elem_of_fmap_2. by eapply Hk.
Qed.

Definition locked_kept (olds : gmap string StoryboardElement) (moduleKey : string) (e : StoryboardElement) : Prop :=
  ∀ old p, olds !! elementMatchKey moduleKey (el_Key e) = Some old →
    NoDup (pp_Purpose <$> elems (el_PromptSlots old)) →
    p ∈ elems (el_PromptSlots old) → pp_LockedByUser p = true →
    normalizePromptSlot p ∈ elems (el_PromptSlots e).

Definition settled (olds : gmap string StoryboardElement) (moduleKey : string) (e : StoryboardElement) : Prop :=
  locked_kept olds moduleKey e ∧ reviewed e.

Lemma reconcile_elements_spec olds preserve mk omk index es used al es' used' al' :
  reconcile_elements olds preserve mk omk index es (used, al) = (es', (used', al')) →
  fresh (el_ID <$> es') used ∧ used' = list_to_set (el_ID <$> es') ∪ used ∧ Forall (settled olds mk) es'.
Proof.
  revert index used al es' used' al'. induction es as [|e es IH]; intros index used al es' used' al'; cbn.
  - intros [= <- <- <-]. rewrite fresh_nil. split_and!; [done|set_solver|constructor].
  - unfold bind, ret. destruct (reconcile_element _ _ _ _ _ _ _) as [e1 [used1 al1]] eqn:E1.
    destruct (reconcile_elements _ _ _ _ _ _ _) as [es1 [used2 al2]] eqn:E2. intros [= <- <- <-].
    apply reconcile_element_spec in E1 as (Hf & -> & Hk). apply IH in E2 as (Hf2 & -> & Hk2).
    rewrite fmap_cons, fresh_cons. split_and!; [done|done|cbn; set_solver|by constructor].
Qed.

Lemma settled_module_same old m :
  md_ID (settled_module old m) = md_ID m ∧ md_Key (settled_module old m) = md_Key m ∧
  md_Elements (settled_module old m) = md_Elements m.
Proof. unfold settled_module. repeat case_match; done. Qed.

Lemma reconcile_module_spec oldms olds preserve index m used al m' used' al' :
  reconcile_module oldms olds preserve index m (used, al) = (m', (used', al')) →
  fresh (module_targets m') used ∧ used' = list_to_set (module_targets m') ∪ used ∧
  Forall (settled olds (md_Key m')) (md_Elements m').
Proof.
  unfold reconcile_module. set (key := stableKey _ _ _). set (oldModule := oldms !! key).
  match goal with |- context[uniqueStableID ?v used] => pose proof (uniqueStableID_spec v used) as [Hf Hs] end.
  destruct (uniqueStableID _ used) as [id used1]. cbn [fst snd] in Hf, Hs. cbv zeta.
  destruct (reconcile_elements _ _ _ _ _ _ _) as [es [used2 al2]] eqn:E2. intros Heq.
  apply reconcile_elements_spec in E2 as (Hf2 & Hu & Hk).
  apply pair_equal_spec in Heq as [<- [<- <-]%pair_equal_spec].
  destruct (settled_module_same oldModule ((named_module key id index m) <| md_Elements := es |>)) as (Hid & Hkey & Hes).
  unfold module_targets. rewrite Hid, Hkey, Hes. cbn [md_ID md_Key md_Elements named_module update_field eta_StoryboardModule].
  rewrite fresh_cons, <-Hs. split_and!; [exact Hf|exact Hf2| |exact Hk].
  rewrite Hu, Hs, list_to_set_cons. rewrite !(assoc_L (∪)). f_equal. apply (comm_L (∪)).
Qed.

Lemma reconcile_modules_spec oldms olds preserve index ms used al ms' used' al' :
  reconcile_modules oldms olds preserve index ms (used, al) = (ms', (used', al')) →
  fresh (target_ids ms') used ∧
  Forall (fun m => Forall (settled olds (md_Key m)) (md_Elements m)) ms'.
Proof.
  revert index used al ms' used' al'. induction ms as [|m ms IH]; intros index used al ms' used' al'; cbn.
  - intros [= <- <- <-]. unfold target_ids. cbn. rewrite fresh_nil. split; [done|constructor].
  - unfold bind, ret. destruct (reconcile_module _ _ _ _ _ _) as [m1 [used1 al1]] eqn:E1.
    destruct (reconcile_modules _ _ _ _ _ _) as [ms1 [used2 al2]] eqn:E2. intros [= <- <- <-].
    apply reconcile_module_spec in E1 as (Hf & -> & Hk). apply IH in E2 as (Hf2 & Hk2).
    change (target_ids (m1 :: ms1)) with (module_targets m1 ++ target_ids ms1).
    rewrite fresh_app. split; [done|by constructor].
Qed.

Lemma invalidated_slot_review active candidate id prev s :
  sl_ReviewRequired (invalidated_slot active candidate id prev s) = sl_ReviewRequired s.
Proof. unfold invalidated_slot. repeat case_match; done. Qed.

(** The modules of the answer: those of the loop, with slots invalidated, in order. *)
Lemma ReconcileRevision_modules active candidate preserve :
  ∃ modules naming f, reconcile_modules (old_modules active) (old_elements active) preserve 1 (rv_Modules candidate)
      (∅, mkAliases ∅ ∅) = (modules, naming) ∧
    (∀ e, el_ID (f e) = el_ID e ∧ el_Key (f e) = el_Key e ∧ el_PromptSlots (f e) = el_PromptSlots e ∧
          (reviewed e → reviewed (f e))) ∧
    rv_Modules (fst (ReconcileRevision active candidate preserve))
    = sortedModules ((fun m => m <| md_Elements := f <$> md_Elements m |>) <$> modules).
Proof.
  unfold ReconcileRevision. destruct (reconcile_modules _ _ _ _ _ _) as [modules [used al]].
  assert (Hid : (fun m => m <| md_Elements := id <$> md_Elements m |>) <$> modules = modules).
  { induction modules as [|m l IH]; [done|]. rewrite fmap_cons, IH. f_equal.
    destruct m; cbn. by rewrite list_fmap_id. }
  destruct active as [r|]; [destruct preserve|].
  - exists modules, (used, al). eexists. split; [done|]. split; [|unfold invalidateDependencyIncompatibleSlots, map_elements; cbn; reflexivity].
    intros e. cbn. case_match; [|done]. split_and!; [done..|]. intros He. apply fmap_reviewed. intros sl Hs.
    unfold reviewed in He. rewrite Forall_forall in He. rewrite invalidated_slot_review. by apply He.
  - exists modules, (used, al), id. rewrite Hid. done.
  - exists modules, (used, al), id. rewrite Hid. done.
Qed.

Lemma target_ids_fmap f modules :
  (∀ e, el_ID (f e) = el_ID e) →
  target_ids ((fun m => m <| md_Elements := f <$> md_Elements m |>) <$> modules) = target_ids modules.
Proof.
  intros Hf. induction modules as [|m l IH]; [done|]. rewrite fmap_cons, !target_ids_cons, IH. cbn.
  do 2 f_equal. rewrite <-list_fmap_compose. apply list_fmap_ext. intros i e _. apply Hf.
Qed.

(** Whatever ids a candidate plan proposes, after its reconciliation all its
    modules and elements have distinct ids; and a prompt that the user has
    locked survives: every element with the module and element key of an element of the active plan
    has each locked prompt of that element, up to surrounding space. *)
Theorem reconciliation_keeps_ids_apart_and_locks active candidate preserve :
  let modules := rv_Modules (fst (ReconcileRevision active candidate preserve)) in
  NoDup (target_ids modules) ∧
  ∀ m e old p, m ∈ modules → e ∈ md_Elements m →
    old_elements active !! elementMatchKey (md_Key m) (el_Key e) = Some old →
    NoDup (pp_Purpose <$> elems (el_PromptSlots old)) →
    p ∈ elems (el_PromptSlots old) → pp_LockedByUser p = true →
    normalizePromptSlot p ∈ elems (el_PromptSlots e).
Proof.
  cbv zeta. destruct (ReconcileRevision_modules active candidate preserve)
    as (modules & [used al] & f & E & Hf & ->).
  apply reconcile_modules_spec in E as [Hfresh Hk]. apply fresh_empty in Hfresh.
  set (ms := _ <$> modules).
  assert (target_ids ms = target_ids modules) as Ht.
  { apply target_ids_fmap. intros e. apply Hf. }
  split.
  - unfold target_ids, sortedModules. rewrite (sort_slice_perm _ ms). fold (target_ids ms). by rewrite Ht.
  - intros m e old p Hm He. unfold sortedModules in Hm. rewrite (sort_slice_perm _ ms) in Hm.
    apply list_elem_of_fmap in Hm as (m0 & -> & Hm0). cbn in He |- *.
    apply list_elem_of_fmap in He as (e0 & -> & He0). destruct (Hf e0) as (_ & -> & -> & _).
    rewrite Forall_forall in Hk. specialize (Hk m0 Hm0). rewrite Forall_forall in Hk.
    apply (Hk e0 He0).
Qed.

Lemma ReconcileRevision_reviewed active candidate preserve :
  Forall reviewed (revision_elements (fst (ReconcileRevision active candidate preserve))).
Proof.
  destruct (ReconcileRevision_modules active candidate preserve) as (modules & [used al] & f & E & Hf & Hms).
  apply reconcile_modules_spec in E as [_ Hk]. unfold revision_elements. rewrite Hms.
  apply Forall_forall. intros e (m & He & Hm)%list_elem_of_bind. unfold sortedModules in Hm.
  rewrite sort_slice_perm in Hm. apply list_elem_of_fmap in Hm as (m0 & -> & Hm0). cbn in He.
  apply list_elem_of_fmap in He as (e0 & -> & He0). apply Hf.
  rewrite Forall_forall in Hk. specialize (Hk m0 Hm0). rewrite Forall_forall in Hk. by apply (Hk e0 He0).
Qed.
End reconciled.
