(* ===== verification/StoryboardProps.v ===== *)
(** * Storyboards: what the commands do to an aggregate

    The bindings change by three elementary effects ([binding_effect]): a new
    candidate, the activation of a candidate, the retirement of a binding.  The
    shape of a plan -- its ids, keys, slots and dependencies -- is never changed
    once it is stored.  [domain_change] puts this together; every method of the
    aggregate is one, followed by the entry of the command into the ledger of
    applied commands ([applied]). *)

From Stdlib Require Import ZArith Lia.
From stdpp Require Import relations.
From S2P Require Import Prelude GoJson StoryboardModels StoryboardGraph StoryboardCommand StoryboardRevision StoryboardValid.

(** ** Bindings *)

Inductive binding_effect : list ArtifactBinding → list ArtifactBinding → Prop :=
| be_retire l i b state :
    l !! i = Some b →
    (bd_State b = BindingStateCandidate ∧ (state = BindingStateSuperseded ∨ state = BindingStateRejected)
     ∨ bd_State b = BindingStateActive ∧ state = BindingStateSuperseded) →
    binding_effect l (<[i := set_state state b]> l)
| be_add l b :
    bd_ID b ∉ bd_ID <$> l →
    (bd_State b = BindingStateCandidate ∨ bd_State b = BindingStateSuperseded) →
    binding_effect l (l ++ [b])
| be_activate l i b :
    l !! i = Some b → bd_State b = BindingStateCandidate →
    (∀ b', b' ∈ l → bd_TargetID b' = bd_TargetID b → bd_AssetSlot b' = bd_AssetSlot b →
       bd_State b' ≠ BindingStateActive) →
    binding_effect l (<[i := set_state BindingStateActive b]> l).

(** At most one binding of a slot is active, and ids are unique. *)
Record bindings_ok (l : list ArtifactBinding) : Prop := {
  bo_ids : NoDup (bd_ID <$> l);
  bo_active i j b b' : l !! i = Some b → l !! j = Some b' →
    bd_State b = BindingStateActive → bd_State b' = BindingStateActive →
    bd_TargetID b = bd_TargetID b' → bd_AssetSlot b = bd_AssetSlot b' → i = j
}.

(** A binding never changes but in its state, and that only forward. *)
Definition binding_follows (b b' : ArtifactBinding) : Prop :=
  b' = set_state (bd_State b') b ∧
  (bd_State b' = bd_State b ∨ bd_State b = BindingStateCandidate
   ∨ bd_State b = BindingStateActive ∧ bd_State b' = BindingStateSuperseded).

Definition bindings_follow (l l' : list ArtifactBinding) : Prop :=
  ∀ i b, l !! i = Some b → ∃ b', l' !! i = Some b' ∧ binding_follows b b'.

Lemma set_state_id b : set_state (bd_State b) b = b.
Proof. by destruct b. Qed.

Lemma binding_follows_refl b : binding_follows b b.
Proof. split; [by rewrite set_state_id|by left]. Qed.

Lemma binding_follows_trans b1 b2 b3 : binding_follows b1 b2 → binding_follows b2 b3 → binding_follows b1 b3.
Proof.
  intros [E1 H1] [E2 H2]. split; [rewrite E2, E1; done|].
  destruct H1 as [H1 | [H1 | [H1 H1']]]; destruct H2 as [H2 | [H2 | [H2 H2']]];
    rewrite ?H1, ?H2 in *; try rewrite H1' in *; naive_solver.
Qed.

#[global] Instance bindings_follow_preorder : PreOrder bindings_follow.
Proof.
  split.
  - intros l i b Hb. exists b. split; [done|apply binding_follows_refl].
  - intros l1 l2 l3 H12 H23 i b Hb. destruct (H12 i b Hb) as (b2 & Hb2 & F2).
    destruct (H23 i b2 Hb2) as (b3 & Hb3 & F3). exists b3. split; [done|by eapply binding_follows_trans].
Qed.

Lemma insert_follows (l : list ArtifactBinding) i b state :
  l !! i = Some b → binding_follows b (set_state state b) → bindings_follow l (<[i := set_state state b]> l).
Proof.
  intros Hb Hf j c Hc. destruct (decide (i = j)) as [<-|Hne].
  - exists (set_state state b). simplify_eq. split; [|done].
    apply list_lookup_insert_eq. by eapply lookup_lt_Some.
  - exists c. split; [by rewrite list_lookup_insert_ne|apply binding_follows_refl].
Qed.

Lemma binding_effect_follows l l' : binding_effect l l' → bindings_follow l l'.
Proof.
  intros [l0 i b state Hb Hs|l0 b _ _|l0 i b Hb Hs _].
  - apply insert_follows; [done|]. split; [done|]. cbn. naive_solver.
  - intros i c Hc. exists c. split; [by apply lookup_app_l_Some|apply binding_follows_refl].
  - apply insert_follows; [done|]. split; [done|]. cbn. by right; left.
Qed.

Lemma fmap_ID_set_state (l : list ArtifactBinding) i b state : l !! i = Some b → bd_ID <$> <[i := set_state state b]> l = bd_ID <$> l.
Proof. intros Hb. rewrite list_fmap_insert. apply list_insert_id. by rewrite list_lookup_fmap, Hb. Qed.

Lemma binding_effect_ok l l' : binding_effect l l' → bindings_ok l → bindings_ok l'.
Proof.
  intros [l0 i b state Hb Hs|l0 b Hn Hs|l0 i b Hb Hs Hno] [Hids Hact].
  - split; [by rewrite fmap_ID_set_state|]. intros j k c c' Hj Hk Hc Hc' Ht Hsl.
    assert (Hother : ∀ n d, <[i := set_state state b]> l0 !! n = Some d → bd_State d = BindingStateActive → l0 !! n = Some d).
    { intros n d Hn Hd. apply list_lookup_insert_Some in Hn as [(-> & <- & _)|[_ ?]]; [|done].
      cbn in Hd. exfalso. destruct Hs as [[_ [-> | ->]] | [_ ->]]; discriminate Hd. }
    eauto.
  - split; [rewrite fmap_app, NoDup_app; split_and!; [done|cbn; set_solver|apply NoDup_singleton]|].
    assert (Hold : ∀ n d, (l0 ++ [b]) !! n = Some d → bd_State d = BindingStateActive → l0 !! n = Some d).
    { intros n d [?|[_ Hd]]%lookup_app_Some Ha; [done|]. apply list_lookup_singleton_Some in Hd as [_ <-].
      exfalso. destruct Hs as [Hs | Hs]; rewrite Hs in Ha; discriminate Ha. }
    eauto.
  - split; [by rewrite fmap_ID_set_state|]. intros j k c c' Hj Hk Hc Hc' Ht Hsl.
    apply list_lookup_insert_Some in Hj as [(<- & <- & _)|[Hij Hj]];
      apply list_lookup_insert_Some in Hk as [(<- & <- & _)|[Hik Hk]]; [done|exfalso..|by eauto].
    + by apply (Hno c'); [eapply list_elem_of_lookup_2|..].
    + by apply (Hno c); [eapply list_elem_of_lookup_2|..].
Qed.

Lemma binding_effects_ok l l' : rtc binding_effect l l' → bindings_ok l → bindings_ok l'.
Proof. induction 1; eauto using binding_effect_ok. Qed.

Lemma binding_effects_follow l l' : rtc binding_effect l l' → bindings_follow l l'.
Proof. induction 1; [done|]. etrans; [by apply binding_effect_follows|done]. Qed.

(** *** How the code's updates of the bindings are effects *)

Definition retirement (b b' : ArtifactBinding) : Prop :=
  b' = b ∨ ((bd_State b = BindingStateCandidate ∨ bd_State b = BindingStateActive)
            ∧ b' = set_state BindingStateSuperseded b).

Lemma retire_all l f : (∀ b, retirement b (f b)) → rtc binding_effect l (f <$> l).
Proof.
  intros Hf. change l with ([] ++ l) at 1. change (f <$> l) with ([] ++ (f <$> l)).
  generalize ([] : list ArtifactBinding). induction l as [|b l IH]; intros pre; [done|].
  rewrite fmap_cons. rewrite (cons_middle b), (cons_middle (f b)), !app_assoc.
  etrans; [|apply (IH (pre ++ [f b]))]. destruct (Hf b) as [-> | [Hs Hb]]; [done|].
  apply rtc_once. rewrite <-!app_assoc. cbn.
  replace (pre ++ f b :: l) with (<[length pre := f b]> (pre ++ b :: l))
    by (rewrite insert_app_r_alt, Nat.sub_diag; [done|lia]).
  rewrite Hb. apply be_retire; [|naive_solver].
  by rewrite lookup_app_r, Nat.sub_diag.
Qed.

Lemma update_first_insert {A} (p : A → bool) f l a :
  List.find p l = Some a → ∃ i, l !! i = Some a ∧ update_first p f l = <[i := f a]> l.
Proof.
  induction l as [|b l IH]; [done|]. cbn. destruct (p b) eqn:E.
  - intros [= ->]. by exists 0%nat.
  - intros (i & Hi & ->)%IH. by exists (S i).
Qed.

(** ** Shapes of plans *)

Definition slot_shape (s : AssetSlot) := (sl_Key s, sl_ReviewRequired s).
Definition element_shape (e : StoryboardElement) := (el_ID e, el_Key e, slot_shape <$> elems (el_AssetSlots e)).
Definition module_shape (m : StoryboardModule) := (md_ID m, md_Key m, element_shape <$> md_Elements m).
Definition revision_shape (r : StoryboardRevision) :=
  (rv_ID r, rv_Dependencies r, module_shape <$> rv_Modules r).

Definition shapes (a : StoryboardAggregate) := revision_shape <$> ag_Revisions a.

(** The plan is a directed acyclic graph over targets with distinct ids, and all
    its asset slots ask for a review. *)
Definition sound_plan (r : StoryboardRevision) : Prop :=
  NoDup (target_ids (rv_Modules r)) ∧ (∀ x, ¬ tc (depends (rv_Dependencies r)) x x) ∧
  Forall reviewed (revision_elements r).

Lemma target_ids_shape ms ms' : module_shape <$> ms = module_shape <$> ms' → target_ids ms = target_ids ms'.
Proof.
  revert ms'. induction ms as [|m ms IH]; intros [|m' ms']; cbn; try done. intros [= Hid _ He Hms].
  rewrite !target_ids_cons, Hid, (IH ms') by done. do 2 f_equal.
  apply (f_equal (fmap (M:=list) (fun s : string * string * list (string * bool) => s.1.1))) in He.
  by rewrite <-!list_fmap_compose in He.
Qed.

Lemma reviewed_elements r :
  Forall reviewed (revision_elements r)
  ↔ Forall (fun m => Forall (fun e => Forall (fun s => s.2 = true) e.2) m.2) (module_shape <$> rv_Modules r).
Proof.
  unfold revision_elements. rewrite Forall_bind, Forall_fmap. apply Forall_iff. intros m. cbn.
  rewrite Forall_fmap. apply Forall_iff. intros e. unfold reviewed. cbn. by rewrite Forall_fmap.
Qed.

Lemma sound_plan_shape r r' : revision_shape r = revision_shape r' → sound_plan r → sound_plan r'.
Proof.
  unfold revision_shape, sound_plan. intros [= _ Hd Hm]. rewrite Hd, (target_ids_shape _ _ Hm).
  by rewrite !reviewed_elements, Hm.
Qed.

Lemma wellformed_sound r : wellformed r → Forall reviewed (revision_elements r) → sound_plan r.
Proof. by intros []. Qed.

(** What no method may touch. *)
Definition ledger (a : StoryboardAggregate) :=
  (ag_ID a, ag_SessionID a, ag_Version a, ag_AppliedCommandIDs a, ag_AppliedCommandHashes a).

(** Plans keep their shapes; a new one is sound. *)
Definition plans_grow (l l' : list StoryboardRevision) : Prop :=
  ∃ new, revision_shape <$> l' = (revision_shape <$> l) ++ (revision_shape <$> new) ∧ Forall sound_plan new.

Record domain_change (a a' : StoryboardAggregate) : Prop := {
  dc_ledger : ledger a' = ledger a;
  dc_bindings : rtc binding_effect (ag_Bindings a) (ag_Bindings a');
  dc_plans : plans_grow (ag_Revisions a) (ag_Revisions a')
}.

Lemma plans_same l l' : revision_shape <$> l' = revision_shape <$> l → plans_grow l l'.
Proof. intros E. exists []. split; [by rewrite app_nil_r|constructor]. Qed.

#[global] Instance plans_grow_preorder : PreOrder plans_grow.
Proof.
  split.
  - intros l. by apply plans_same.
  - intros l1 l2 l3 (n1 & E1 & H1) (n2 & E2 & H2). exists (n1 ++ n2).
    rewrite E2, E1, fmap_app, app_assoc. split; [done|by apply Forall_app].
Qed.

#[global] Instance domain_change_preorder : PreOrder domain_change.
Proof.
  split.
  - intros a. by split.
  - intros a1 a2 a3 [L1 B1 S1] [L2 B2 S2]. split; [congruence|by etrans|by etrans].
Qed.

Lemma sound_plans_grow l l' : plans_grow l l' → Forall sound_plan l → Forall sound_plan l'.
Proof.
  intros (new & E & Hnew) Hl. rewrite <-fmap_app in E.
  assert (Forall sound_plan (l ++ new)) as Hs by (by apply Forall_app). clear Hl Hnew.
  revert E Hs. generalize (l ++ new). revert l'. clear. induction l' as [|r l' IH]; intros [|r0 l0]; try done.
  rewrite !fmap_cons. intros [= Hr Hl] [Hr0 Hs]%Forall_cons. constructor; [|by eapply IH].
  eapply sound_plan_shape; [|exact Hr0]. unfold revision_shape. congruence.
Qed.

Lemma update_slot_shape key f e :
  (∀ s, slot_shape (f s) = slot_shape s) → element_shape (update_slot key f e) = element_shape e.
Proof.
  intros Hf. unfold element_shape, update_slot. cbn. f_equal. unfold elems.
  destruct (el_AssetSlots e) as [l|]; [|done]. cbn. by apply update_first_fmap.
Qed.

Lemma update_element_shape id f r :
  (∀ e, element_shape (f e) = element_shape e) → revision_shape (update_element id f r) = revision_shape r.
Proof.
  intros Hf. unfold revision_shape, update_element. cbn. f_equal.
  apply update_first_fmap. intros m _. unfold module_shape. cbn. f_equal. by apply update_first_fmap.
Qed.

(** The element found is replaced by one of its shape. *)
Lemma update_found_shape id e e' r :
  findElement r id = Some e → element_shape e' = element_shape e →
  revision_shape (update_element id (fun _ => e') r) = revision_shape r.
Proof.
  intros He Hs. unfold revision_shape, update_element. cbn. f_equal. revert He.
  unfold findElement, revision_elements. induction (rv_Modules r) as [|m l IH]; [done|]. rewrite bind_cons.
  cbn [update_first]. destruct (existsb (has_element_id id) (md_Elements m)) eqn:E; intros He; rewrite !fmap_cons.
  - f_equal. unfold module_shape. cbn. f_equal.
    assert (List.find (has_element_id id) (md_Elements m) = Some e) as Hf.
    { revert E He. generalize (md_Elements m). induction l0 as [|x l0 IHl]; [done|]. cbn.
      destruct (has_element_id id x); [done|]. apply IHl. }
    destruct (update_first_insert _ (fun _ => e') _ _ Hf) as (i & Hi & ->).
    rewrite list_fmap_insert, Hs. apply list_insert_id. by rewrite list_lookup_fmap, Hi.
  - f_equal. apply IH. revert E He. generalize (md_Elements m). induction l0 as [|x l0 IHl]; [done|]. cbn.
    destruct (has_element_id id x); [done|]. apply IHl.
Qed.

Lemma update_module_shape id f r :
  (∀ m, module_shape (f m) = module_shape m) → revision_shape (update_module id f r) = revision_shape r.
Proof. intros Hf. unfold revision_shape, update_module. cbn. f_equal. by apply update_first_fmap. Qed.

Lemma update_revision_change id f a :
  (∀ r, List.find (has_revision_id id) (ag_Revisions a) = Some r → revision_shape (f r) = revision_shape r) →
  domain_change a (update_revision id f a).
Proof.
  intros Hf. split; [done|done|]. apply plans_same. cbn.
  destruct (List.find (has_revision_id id) (ag_Revisions a)) as [r|] eqn:E.
  - destruct (update_first_insert _ f _ _ E) as (i & Hi & ->). rewrite list_fmap_insert, Hf by done.
    apply list_insert_id. by rewrite list_lookup_fmap, Hi.
  - rewrite update_first_none; [done|]. apply not_true_is_false. intros (r & Hr & Hp)%existsb_exists.
    eapply find_none in E; [|exact Hr]. congruence.
Qed.

Lemma mark_asset_slot_shape slot s : slot_shape (mark_asset_slot slot s) = slot_shape s.
Proof. unfold mark_asset_slot. by case_match. Qed.

Lemma fmap_slots_shape (f : AssetSlot → AssetSlot) (g : StoryboardElement → goslice PromptSlot) e :
  (∀ s, slot_shape (f s) = slot_shape s) →
  element_shape (e <| el_PromptSlots := g e |> <| el_AssetSlots := fmap (M:=list) f <$> el_AssetSlots e |>) = element_shape e.
Proof.
  intros Hf. unfold element_shape. cbn. f_equal. unfold elems.
  destruct (el_AssetSlots e) as [l|]; [|done]. cbn. rewrite <-list_fmap_compose.
  apply list_fmap_ext. intros i s _. apply Hf.
Qed.

Lemma markElementStale_shape slot e : element_shape (markElementStale slot e) = element_shape e.
Proof.
  exact (fmap_slots_shape (mark_asset_slot slot) (fun e => fmap (M:=list) (mark_prompt_slot slot) <$> el_PromptSlots e)
           e (mark_asset_slot_shape slot)).
Qed.

Lemma marked_shape r visited : revision_shape (foldl mark_target r visited) = revision_shape r.
Proof.
  revert r. induction visited as [|y v IH]; intros r; [done|]. cbn. rewrite IH.
  apply update_element_shape. apply markElementStale_shape.
Qed.

Lemma markDependencyClosure_shape r targetID slot :
  revision_shape (snd (markDependencyClosure r targetID slot)) = revision_shape r.
Proof.
  destruct (markDependencyClosure_spec r targetID slot) as (v & -> & _). apply marked_shape.
Qed.

#[export] Hint Resolve update_slot_shape update_element_shape update_module_shape markElementStale_shape
  : shapes.

Lemma put_revision_change r r0 a :
  List.find (has_revision_id (rv_ID r)) (ag_Revisions a) = Some r0 → revision_shape r = revision_shape r0 →
  domain_change a (put_revision r a).
Proof.
  intros Hr Hs. apply update_revision_change. intros r1 Hr1. congruence.
Qed.

Lemma update_active_slot_change targetID slotKey f a :
  (∀ s, slot_shape (f s) = slot_shape s) → domain_change a (update_active_slot targetID slotKey f a).
Proof. intros Hf. apply update_revision_change. intros r _. apply update_element_shape. intros e. by apply update_slot_shape. Qed.

Lemma with_bindings_change l a :
  rtc binding_effect (ag_Bindings a) l → domain_change a (a <| ag_Bindings := l |>).
Proof. intros H. split; [done|done|by apply plans_same]. Qed.

Lemma release_candidate_shape id s : slot_shape (release_candidate id s) = slot_shape s.
Proof. unfold release_candidate. repeat case_match; done. Qed.

Lemma alter_is_insert {A} (f : A → A) i a (l : list A) : l !! i = Some a → alter f i l = <[i := f a]> l.
Proof.
  intros Ha. rewrite list_insert_alter. apply list_alter_ext; [|done]. intros x Hx. congruence.
Qed.

Lemma supersede_if_invalid_change `{Digest} a i : domain_change a (supersede_if_invalid a i).
Proof.
  unfold supersede_if_invalid. destruct (ag_Bindings a !! i) as [b|] eqn:Hb; [|done].
  case_bool_decide as Hs; cbn [negb]; [|done].
  destruct (ResolveGenerationInput _ _ _) as [current err]. destruct (current_input_matches _ _ _); [done|].
  etrans; [|apply update_active_slot_change, release_candidate_shape].
  apply with_bindings_change, rtc_once. rewrite (alter_is_insert _ i b) by done.
  apply be_retire; [done|by left; split; [|left]].
Qed.

Lemma foldl_change {A} (f : StoryboardAggregate → A → StoryboardAggregate) l a :
  (∀ a x, domain_change a (f a x)) → domain_change a (foldl f a l).
Proof. intros Hf. revert a. induction l as [|x l IH]; intros a; [done|]. cbn. etrans; [apply Hf|apply IH]. Qed.

Lemma supersedeInvalidCandidates_change `{Digest} a : domain_change a (supersedeInvalidCandidates a).
Proof.
  unfold supersedeInvalidCandidates. destruct (mutableActiveRevision a); [|done].
  apply foldl_change, supersede_if_invalid_change.
Qed.

Lemma supersedeUnreferencedBindings_change r a : domain_change a (supersedeUnreferencedBindings r a).
Proof.
  apply with_bindings_change, retire_all. intros b. unfold retirement.
  repeat case_bool_decide; cbn [negb andb]; auto.
Qed.

Lemma mark_closure_change id targetID slot a : domain_change a (snd (mark_closure id targetID slot a)).
Proof.
  unfold mark_closure. destruct (List.find _ _) as [r|] eqn:E; [|done].
  pose proof (markDependencyClosure_shape r targetID slot) as Hs.
  destruct (markDependencyClosure r targetID slot) as [stale r']. cbn [snd] in *.
  apply (put_revision_change r' r); [|done].
  apply find_elem in E as Hid. destruct Hid as [_ Hid%bool_decide_eq_true].
  assert (rv_ID r' = rv_ID r) as -> by (by injection Hs). by rewrite Hid.
Qed.

(** The commands: a change of the domain, entered into the ledger. *)
Definition applied (a : StoryboardAggregate) (commandID fingerprint : string) (a' : StoryboardAggregate) : Prop :=
  ∃ t a1, domain_change a a1 ∧ a' = touchCommand t commandID fingerprint a1.

Lemma once_ok {A} commandID fingerprint (replayed k : agg (result A)) a v a' :
  once commandID fingerprint replayed k a = (Ok v, a') →
  (checkAppliedCommand a commandID fingerprint = Ok true ∧ replayed a = (Ok v, a')) ∨
  (checkAppliedCommand a commandID fingerprint = Ok false ∧ k a = (Ok v, a')).
Proof. unfold once. destruct (checkAppliedCommand _ _ _) as [[]|]; [by left|by right|done]. Qed.

Lemma versioned_ok {A} base (k : agg (result A)) a v a' :
  versioned base k a = (Ok v, a') → base = ag_Version a ∧ k a = (Ok v, a').
Proof.
  unfold versioned, checkVersion, check. destruct (Z.eqb_spec base (ag_Version a)); [by cbn|done].
Qed.

(** A call that succeeds is a replay and changes nothing, or it was made for the
    current version and is applied. *)
Definition outcome (a : StoryboardAggregate) (commandID fingerprint : string) (base : Z) (a' : StoryboardAggregate)
    : Prop :=
  (checkAppliedCommand a commandID fingerprint = Ok true ∧ a' = a) ∨
  (checkAppliedCommand a commandID fingerprint = Ok false ∧ base = ag_Version a ∧ applied a commandID fingerprint a').

Lemma outcome_intro {A} commandID fingerprint base (replayed k : agg (result A)) a v a' :
  (∀ r a1, replayed a = (r, a1) → a1 = a) →
  (∀ v a1, k a = (Ok v, a1) → applied a commandID fingerprint a1) →
  once commandID fingerprint replayed (versioned base k) a = (Ok v, a') →
  outcome a commandID fingerprint base a'.
Proof.
  intros Hr Hk [[Hc Ha]|[Hc [Hb Ha]%versioned_ok]]%once_ok; [left|right].
  - split; [done|by eapply Hr].
  - split_and!; [done|done|by eapply Hk].
Qed.

Lemma found_review a r : mutableReviewRevision a = Ok r → List.find (has_revision_id (rv_ID r)) (ag_Revisions a) = Some r.
Proof.
  unfold mutableReviewRevision. cbv zeta. generalize (if bool_decide (ag_PendingRevisionID a = "") then ag_ActiveRevisionID a else ag_PendingRevisionID a).
  intros id. case_bool_decide; [done|].
  destruct (List.find _ _) as [r0|] eqn:E; [|done]. intros [= ->].
  destruct (find_elem _ _ _ E) as [_ Hid%bool_decide_eq_true]. by rewrite Hid.
Qed.

Lemma found_active a r : mutableActiveRevision a = Ok r →
  List.find (has_revision_id (rv_ID r)) (ag_Revisions a) = Some r ∧ rv_ID r = ag_ActiveRevisionID a.
Proof.
  unfold mutableActiveRevision. case_bool_decide; [done|].
  destruct (List.find _ _) as [r0|] eqn:E; [|done]. intros [= ->].
  destruct (find_elem _ _ _ E) as [_ Hid%bool_decide_eq_true]. by rewrite Hid.
Qed.

Lemma finish_applied now id commandID fingerprint a0 a {A} (v w : A) a' :
  domain_change a0 a → finish now id commandID fingerprint v a = (Ok w, a') → applied a0 commandID fingerprint a'.
Proof.
  intros Hc. unfold finish. intros Heq. apply (f_equal snd) in Heq. cbn [snd] in Heq. subst a'.
  eexists _, _. split; [|done]. etrans; [exact Hc|]. by apply update_revision_change.
Qed.

Section methods.
Context `{Digest} `{Formatting} (now : nat → Time).

Lemma mutateModule_shape field op v m : module_shape (snd (mutateModule field op v m)) = module_shape m.
Proof. unfold mutateModule. cbv zeta. repeat case_match; done. Qed.

Lemma mutateElement_shape field op v e : element_shape (snd (mutateElement field op v e)) = element_shape e.
Proof. unfold mutateElement. cbv zeta. repeat case_match; done. Qed.

Lemma stale_element_shape id st i : revision_shape (snd (stale_element id st i)) = revision_shape (snd st).
Proof.
  destruct st as [stale r]. unfold stale_element. cbn [snd].
  set (r1 := update_module id _ r).
  assert (revision_shape r1 = revision_shape r) as Hr1.
  { apply update_module_shape. intros m. unfold module_shape. cbn. f_equal.
    destruct (md_Elements m !! i) as [e|] eqn:E.
    - rewrite (alter_is_insert _ i e), list_fmap_insert by done. rewrite markElementStale_shape.
      apply list_insert_id. by rewrite list_lookup_fmap, E.
    - f_equal. apply list_eq. intros j. rewrite list_lookup_alter. case_decide; [|done]. subst j. by rewrite E. }
  destruct (_ ≫= _) as [e|]; [|done].
  pose proof (markDependencyClosure_shape r1 (el_ID e) "") as Hs.
  destruct (markDependencyClosure r1 (el_ID e) ""). cbn [snd] in *. congruence.
Qed.

Lemma stale_elements_shape id st l : revision_shape (snd (foldl (stale_element id) st l)) = revision_shape (snd st).
Proof. revert st. induction l as [|i l IH]; intros st; [done|]. cbn [foldl]. by rewrite IH, stale_element_shape. Qed.

Lemma revision_shape_ID r r' : revision_shape r = revision_shape r' → rv_ID r = rv_ID r'.
Proof. by intros [= ? _ _]. Qed.

(** A revision found for editing may be put back in any version of its shape. *)
Lemma put_review_change a r r' :
  mutableReviewRevision a = Ok r → revision_shape r' = revision_shape r → domain_change a (put_revision r' a).
Proof.
  intros Hr%found_review Hs. apply (put_revision_change r' r); [|done]. by rewrite (revision_shape_ID r' r).
Qed.

Lemma ApplyMutation_outcome command a v a' :
  ApplyMutation now command a = (Ok v, a') →
  outcome a (mu_CommandID command) (commandFingerprint (json_StoryboardMutationCommand command))
    (mu_BaseVersion command) a'.
Proof.
  unfold ApplyMutation. case_match; [done|]. apply outcome_intro; [by intros r a1 [= _ <-]|]. clear v a'. intros v a'.
  destruct (normalizeMutationField _) as [field|]; [|done].
  destruct (mutableReviewRevision a) as [r|] eqn:Hr; [|done].
  destruct (findModule r _) as [m|] eqn:Hm; [|destruct (findElement r _) as [e|] eqn:He; [|done]].
  - unfold mutate_module. case_match; [done|].
    pose proof (mutateModule_shape field (mu_Operation command) (mu_Value command) m) as Hs.
    destruct (mutateModule _ _ _ m) as [[changed|] m1]; [|done]. cbn [snd] in Hs. cbv zeta.
    set (m2 := m1 <| md_Revision := _ |>). assert (module_shape m2 = module_shape m) as Hs2 by (by rewrite <-Hs).
    assert (revision_shape (update_module (mu_TargetID command) (fun _ => m2) r) = revision_shape r) as Hput.
    { unfold revision_shape, update_module. cbn. f_equal. unfold findModule in Hm.
      destruct (update_first_insert _ (fun _ => m2) _ _ Hm) as (i & Hi & ->).
      rewrite list_fmap_insert, Hs2. apply list_insert_id. by rewrite list_lookup_fmap, Hi. }
    destruct changed.
    + pose proof (stale_elements_shape (mu_TargetID command) ([], update_module (mu_TargetID command) (fun _ => m2) r)
        (seq 0 (length (md_Elements m2)))) as Hst. cbn [snd] in Hst. rewrite Hput in Hst.
      destruct (foldl _ _ _) as [stale r1]. cbn [snd] in Hst. apply finish_applied.
      etrans; [by apply (put_review_change a r r1)|apply supersedeInvalidCandidates_change].
    + apply finish_applied. by apply (put_review_change a r).
  - unfold mutate_element. case_match; [done|].
    pose proof (mutateElement_shape field (mu_Operation command) (mu_Value command) e) as Hs.
    destruct (mutateElement _ _ _ e) as [[changed|] e1]; [|done]. cbn [snd] in Hs. cbv zeta.
    set (e2 := e1 <| el_Revision := _ |>). assert (element_shape e2 = element_shape e) as Hs2 by (by rewrite <-Hs).
    assert (Hput : ∀ e3, element_shape e3 = element_shape e →
      revision_shape (update_element (mu_TargetID command) (fun _ => e3) r) = revision_shape r).
    { intros e3 He3. apply update_found_shape with e; done. }
    destruct changed.
    + pose proof (markDependencyClosure_shape
        (update_element (mu_TargetID command) (fun _ => markElementStale "" e2) r) (el_ID e2) "") as Hst.
      rewrite Hput in Hst by (by rewrite markElementStale_shape).
      destruct (markDependencyClosure _ _ _) as [closure r1]. cbn [snd] in Hst. apply finish_applied.
      etrans; [by apply (put_review_change a r r1)|apply supersedeInvalidCandidates_change].
    + apply finish_applied. apply (put_review_change a r); [done|by apply Hput].
Qed.

Lemma UpdatePrompt_outcome command a v a' :
  UpdatePrompt now command a = (Ok v, a') →
  outcome a (up_CommandID command) (commandFingerprint (json_UpdatePromptCommand command)) (up_BaseVersion command) a'.
Proof.
  apply outcome_intro; [by intros r a1 [= _ <-]|]. clear v a'. intros v a'.
  destruct (mutableReviewRevision a) as [r|] eqn:Hr; [|done].
  destruct (findElement r _) as [e|] eqn:He; [|done]. case_match; [done|].
  unfold update_prompt. destruct (List.find _ _) as [slot|]; [|done]. case_match; [done|]. cbv zeta.
  set (edit := fun e => _).
  assert (revision_shape (update_element (up_TargetID command) edit r) = revision_shape r) as Hput.
  { apply update_element_shape. intros e0.
    exact (fmap_slots_shape (mark_asset_slot (TrimSpace (up_Purpose command)))
             (fun e => update_first (has_purpose (TrimSpace (up_Purpose command))) (updated_prompt command) <$> el_PromptSlots e)
             e0 (mark_asset_slot_shape _)). }
  pose proof (markDependencyClosure_shape (update_element (up_TargetID command) edit r) (el_ID e)
    (TrimSpace (up_Purpose command))) as Hst. rewrite Hput in Hst.
  destruct (markDependencyClosure _ _ _) as [closure r1]. cbn [snd] in Hst. apply finish_applied.
  etrans; [by apply (put_review_change a r r1)|apply supersedeInvalidCandidates_change].
Qed.

Lemma touch_applied a a1 t commandID fingerprint :
  domain_change a a1 → applied a commandID fingerprint (touchCommand t commandID fingerprint a1).
Proof. intros Hc. by exists t, a1. Qed.

Lemma RegenerateAsset_outcome command a v a' :
  RegenerateAsset now command a = (Ok v, a') →
  outcome a (rg_CommandID command) (commandFingerprint (json_RegenerateAssetCommand command)) (rg_BaseVersion command) a'.
Proof.
  apply outcome_intro; [by intros r a1 [= _ <-]|]. clear v a'. intros v a'.
  destruct (mutableAssetSlot a _ _) as [slot|]; [|done]. cbv zeta.
  destruct (snapshot_error _ _ _); [done|]. intros Heq. apply (f_equal snd) in Heq. cbn [snd] in Heq. subst a'.
  apply touch_applied. etrans; [|apply supersedeInvalidCandidates_change]. by apply update_active_slot_change.
Qed.

Lemma update_binding_insert id f a b :
  bindingByID a id = Some b →
  ∃ i, ag_Bindings a !! i = Some b ∧ ag_Bindings (update_binding id f a) = <[i := f b]> (ag_Bindings a).
Proof. intros Hb. by apply update_first_insert. Qed.

Lemma update_binding_change id f a l :
  ag_Bindings (update_binding id f a) = l → rtc binding_effect (ag_Bindings a) l → domain_change a (update_binding id f a).
Proof. intros <- Hl. split; [done|done|by apply plans_same]. Qed.

Lemma retire_change id state a b :
  bindingByID a id = Some b → bd_State b = BindingStateCandidate →
  state = BindingStateSuperseded ∨ state = BindingStateRejected →
  domain_change a (update_binding id (set_state state) a).
Proof.
  intros Hb Hs Hst. destruct (update_binding_insert id (set_state state) a b Hb) as (i & Hi & E).
  eapply update_binding_change; [exact E|]. apply rtc_once, be_retire; [done|by left].
Qed.

Lemma supersede_active_retires b0 b : retirement b (supersede_active b0 b).
Proof.
  unfold supersede_active, retirement. repeat case_bool_decide; cbn [andb]; auto.
Qed.

Lemma find_fmap_same {A} (p : A → bool) (f : A → A) l :
  (∀ a, p (f a) = p a) → List.find p (f <$> l) = f <$> List.find p l.
Proof. intros Hf. induction l as [|a l IH]; [done|]. cbn. rewrite Hf. by destruct (p a). Qed.

(** The old active binding of the slot retires, then the candidate is active. *)
Lemma activation_effects a id b :
  bindingByID a id = Some b → bd_State b = BindingStateCandidate →
  rtc binding_effect (ag_Bindings a)
    (ag_Bindings (update_binding id (set_state BindingStateActive)
                    (a <| ag_Bindings := supersede_active b <$> ag_Bindings a |>))).
Proof.
  intros Hb Hs. set (a1 := a <| ag_Bindings := _ |>).
  assert (supersede_active b b = b) as Hbb.
  { unfold supersede_active. rewrite (bool_decide_false (bd_State b = _)) by (by rewrite Hs). by rewrite andb_false_r. }
  assert (bindingByID a1 id = Some b) as Hb1.
  { unfold bindingByID, a1. cbn. rewrite find_fmap_same.
    - unfold bindingByID in Hb. rewrite Hb. cbn. by rewrite Hbb.
    - intros c. unfold supersede_active. by case_match. }
  destruct (update_binding_insert id (set_state BindingStateActive) a1 b Hb1) as (i & Hi & ->).
  etrans; [apply (retire_all _ (supersede_active b) (supersede_active_retires b))|].
  apply rtc_once, be_activate; [done|done|].
  intros c Hc Ht Hsl Hact. apply list_elem_of_fmap in Hc as (c0 & -> & Hc0). revert Ht Hsl Hact.
  unfold supersede_active. repeat case_bool_decide; cbn; try done; intros; congruence.
Qed.

Lemma activateBinding_change r id a b v a' :
  bindingByID a id = Some b → bd_State b = BindingStateCandidate →
  activateBinding r id a = (v, a') → domain_change a a'.
Proof.
  intros Hb Hs. unfold activateBinding. rewrite Hb.
  destruct (findElement r _) as [e|]; [|by intros [= _ <-]].
  destruct (findAssetSlot e _) as [slot|]; [|by intros [= _ <-]].
  case_match; [by intros [= _ <-]|]. destruct (ResolveGenerationInput _ _ _) as [input err].
  destruct (binding_is_current _ _ _ _ _); cbn [negb]; intros Heq; apply (f_equal snd) in Heq; cbn [snd] in Heq; subst a'.
  2: { eapply retire_change; eauto. }
  - etrans; [|apply update_revision_change; intros r1 _; apply update_element_shape; intros e1;
              by apply update_slot_shape].
    split; [done|by apply activation_effects|by apply plans_same].
Qed.

Lemma new_binding_ok a id b :
  bindingByID a id = None → bd_ID b = id → bd_ID b ∉ bd_ID <$> ag_Bindings a.
Proof.
  intros Hn <-. intros Hin. apply list_elem_of_fmap in Hin as (c & Hc & Hin). unfold bindingByID in Hn.
  eapply find_none in Hn; [|by apply list_elem_of_In]. by rewrite bool_decide_true in Hn.
Qed.

Lemma bindingByID_snoc a id b :
  bindingByID a id = None → bd_ID b = id →
  bindingByID (a <| ag_Bindings := ag_Bindings a ++ [b] |>) id = Some b.
Proof.
  unfold bindingByID. cbn. intros Hn Hb. induction (ag_Bindings a) as [|c l IH]; cbn in *.
  - by rewrite bool_decide_true.
  - case_bool_decide; [done|by apply IH].
Qed.

Lemma bind_candidate_applied command fingerprint r e slot b a v a' a0 :
  mutableActiveRevision a = Ok r → findElement r (bc_TargetID command) = Some e →
  bindingByID a (bd_ID b) = Some b → bd_State b = BindingStateCandidate →
  domain_change a0 a →
  bind_candidate now command fingerprint r slot b a = (Ok v, a') → applied a0 (bc_CommandID command) fingerprint a'.
Proof.
  intros Hr He Hb Hs Hd0. unfold bind_candidate. cbv zeta.
  set (r1 := update_element _ _ r). set (a1 := put_revision r1 a).
  assert (domain_change a a1) as Hd1.
  { apply (put_revision_change r1 r); [by apply found_active in Hr as [? _]|].
    apply update_element_shape. intros e1. by apply update_slot_shape. }
  destruct (bc_Activate command && negb (sl_ReviewRequired slot)).
  - destruct (activateBinding r1 (bd_ID b) a1) as [[d|] a2] eqn:E; [|done].
    assert (domain_change a0 a2) as Hd2.
    { etrans; [exact Hd0|]. etrans; [exact Hd1|]. by apply (activateBinding_change r1 (bd_ID b) a1 b _ _ Hb Hs E). }
    case_bool_decide.
    + pose proof (mark_closure_change (rv_ID r1) (bd_TargetID b) (bd_AssetSlot b) a2) as Hd3.
      destruct (mark_closure _ _ _ _) as [stale a3]. cbn [snd] in Hd3. intros Heq.
      apply (f_equal snd) in Heq. cbn [snd] in Heq. subst a'. apply touch_applied.
      etrans; [exact Hd2|]. etrans; [exact Hd3|]. apply supersedeInvalidCandidates_change.
    + intros Heq. apply (f_equal snd) in Heq. cbn [snd] in Heq. subst a'. by apply touch_applied.
  - intros Heq. apply (f_equal snd) in Heq. cbn [snd] in Heq. subst a'. apply touch_applied. by etrans.
Qed.

Lemma add_binding_change a b :
  bindingByID a (bd_ID b) = None → (bd_State b = BindingStateCandidate ∨ bd_State b = BindingStateSuperseded) →
  domain_change a (a <| ag_Bindings := ag_Bindings a ++ [b] |>).
Proof. intros Hn Hs. apply with_bindings_change, rtc_once, be_add; [by eapply new_binding_ok|done]. Qed.

Lemma BindAsset_outcome command a v a' :
  BindAsset now command a = (Ok v, a') →
  outcome a (bc_CommandID command) (commandFingerprint (json_BindAssetCommand command)) (bc_BaseVersion command) a'.
Proof.
  apply outcome_intro; [by intros r a1 [= _ <-]|]. clear v a'. intros v a'.
  case_match; [done|]. case_bool_decide as Hnew; [done|]. apply eq_None_not_Some in Hnew.
  destruct (mutableActiveRevision a) as [r|] eqn:Hr; [|done].
  destruct (findElement r _) as [e|] eqn:He; [|done]. destruct (findAssetSlot e _) as [slot|]; [|done].
  unfold bind_asset. cbv zeta. set (b := new_binding now command a e slot _).
  assert (bd_ID b = TrimSpace (bc_BindingID command)) as Hid by done. rewrite <-Hid in Hnew.
  destruct (token_is_current command a e slot) eqn:Ht.
  - apply (bind_candidate_applied command _ r e slot b); [done|done|by apply bindingByID_snoc|done|].
    apply add_binding_change; [done|by left].
  - intros Heq. apply (f_equal snd) in Heq. cbn [snd] in Heq. subst a'.
    apply touch_applied, add_binding_change; [done|by right].
Qed.

Lemma candidate_binding_ok a id b :
  candidate_binding a id = Ok b → bindingByID a id = Some b ∧ bd_State b = BindingStateCandidate ∧ bd_ID b = id.
Proof.
  unfold candidate_binding. destruct (bindingByID a id) as [b0|] eqn:E; [|done]. case_bool_decide; [|done].
  intros [= ->]. split_and!; [done|done|]. by apply find_elem in E as [_ ?%bool_decide_eq_true].
Qed.

Lemma ActivateBinding_outcome command a v a' :
  ActivateBinding now command a = (Ok v, a') →
  outcome a (av_CommandID command) (commandFingerprint (json_ActivateBindingCommand command)) (av_BaseVersion command) a'.
Proof.
  apply outcome_intro; [by intros r a1 [= _ <-]|]. clear v a'. intros v a'.
  destruct (mutableActiveRevision a) as [r|] eqn:Hr; [|done].
  destruct (candidate_binding a _) as [b|] eqn:Hb; [|done]. apply candidate_binding_ok in Hb as (Hb & Hs & Hid).
  destruct (activateBinding r (bd_ID b) a) as [[d|] a2] eqn:E; [|done]. case_bool_decide; [done|].
  assert (domain_change a a2) as Hd2 by (apply (activateBinding_change r (bd_ID b) a b (Ok d) a2); [by rewrite Hid|done|exact E]).
  pose proof (mark_closure_change (rv_ID r) (bd_TargetID b) (bd_AssetSlot b) a2) as Hd3.
  destruct (mark_closure _ _ _ _) as [stale a3]. cbn [snd] in Hd3. intros Heq.
  apply (f_equal snd) in Heq. cbn [snd] in Heq. subst a'. apply touch_applied.
  etrans; [exact Hd2|]. etrans; [exact Hd3|]. apply supersedeInvalidCandidates_change.
Qed.

Lemma RejectBinding_outcome command a v a' :
  RejectBinding now command a = (Ok v, a') →
  outcome a (rj_CommandID command) (commandFingerprint (json_RejectBindingCommand command)) (rj_BaseVersion command) a'.
Proof.
  apply outcome_intro; [by intros r a1 [= _ <-]|]. clear v a'. intros v a'.
  destruct (mutableActiveRevision a) as [r|] eqn:Hr; [|done].
  destruct (candidate_binding a _) as [b|] eqn:Hb; [|done]. apply candidate_binding_ok in Hb as (Hb & Hs & Hid).
  destruct (findElement r _) as [e|]; [|done]. destruct (findAssetSlot e _) as [slot|]; [|done]. cbv zeta.
  intros Heq. apply (f_equal snd) in Heq. cbn [snd] in Heq. subst a'. apply touch_applied.
  etrans; [apply (retire_change (bd_ID b) BindingStateRejected a b); [by rewrite Hid|done|by right]|].
  by apply update_active_slot_change.
Qed.
End methods.

(** ** The commands on revisions *)

Lemma map_elements_shape f r :
  (∀ e, element_shape (f e) = element_shape e) → revision_shape (map_elements f r) = revision_shape r.
Proof.
  intros Hf. unfold revision_shape, map_elements. cbn. f_equal. rewrite <-list_fmap_compose.
  apply list_fmap_ext. intros i m _. unfold module_shape. cbn. f_equal.
  rewrite <-list_fmap_compose. apply list_fmap_ext. intros j e _. apply Hf.
Qed.

Lemma fmap_assets_shape (f : AssetSlot → AssetSlot) e :
  (∀ s, slot_shape (f s) = slot_shape s) →
  element_shape (e <| el_AssetSlots := fmap (M:=list) f <$> el_AssetSlots e |>) = element_shape e.
Proof.
  intros Hf. unfold element_shape. cbn [el_ID el_Key el_AssetSlots update_field eta_StoryboardElement]. f_equal.
  rewrite elems_fmap, <-list_fmap_compose.
  apply list_fmap_ext. intros i s _. apply Hf.
Qed.

Lemma carried_slot_shape compatible previous s : slot_shape (carried_slot compatible previous s) = slot_shape s.
Proof. unfold carried_slot. cbv zeta. repeat case_match; done. Qed.

Lemma reconcileAssetSlots_shape e old compatible :
  element_shape (reconcileAssetSlots e old compatible) = element_shape e.
Proof. apply fmap_assets_shape. intros s. case_match; [apply carried_slot_shape|done]. Qed.

Lemma invalidated_slot_shape active candidate id prev s :
  slot_shape (invalidated_slot active candidate id prev s) = slot_shape s.
Proof. unfold invalidated_slot. repeat case_match; done. Qed.

Lemma invalidate_shape active candidate :
  revision_shape (invalidateDependencyIncompatibleSlots active candidate) = revision_shape candidate.
Proof.
  apply map_elements_shape. intros e. case_match; [|done]. apply fmap_assets_shape. apply invalidated_slot_shape.
Qed.

Lemma rebase_shape active candidate :
  revision_shape (rebaseApprovedAssets active candidate) = revision_shape candidate.
Proof.
  unfold rebaseApprovedAssets. cbv zeta. rewrite invalidate_shape. apply map_elements_shape. intros e.
  case_match; [apply reconcileAssetSlots_shape|done].
Qed.

Lemma insert_same_shape (l : list StoryboardRevision) i r r' :
  l !! i = Some r → revision_shape r' = revision_shape r → revision_shape <$> <[i := r']> l = revision_shape <$> l.
Proof.
  intros Hr Hs. rewrite list_fmap_insert, Hs. apply list_insert_id. by rewrite list_lookup_fmap, Hr.
Qed.

Lemma insert_twice_same_shape (l : list StoryboardRevision) i r r' j q q' :
  l !! i = Some r → revision_shape r' = revision_shape r →
  l !! j = Some q → revision_shape q' = revision_shape q →
  revision_shape <$> <[i := r']> (<[j := q']> l) = revision_shape <$> l.
Proof.
  intros Hr Hs Hq Hs'. rewrite list_fmap_insert, Hs. rewrite (insert_same_shape l j q q') by done.
  apply list_insert_id. by rewrite list_lookup_fmap, Hr.
Qed.

Section revisions.
Context `{Digest} `{MapRange} (now : nat → Time).

Lemma promoted_change previous i pending a :
  ag_Revisions a !! i = Some pending →
  (∀ j active, previous = Some (j, active) → ag_Revisions a !! j = Some active) →
  domain_change a (snd (promoted now previous i pending a)).
Proof.
  intros Hp Hprev. unfold promoted. cbv zeta. cbn [snd].
  set (pending1 := match previous with Some _ => _ | None => _ end).
  assert (revision_shape pending1 = revision_shape pending) as Hs.
  { unfold pending1. destruct previous as [[j active]|]; [|done]. case_match; [apply rebase_shape|done]. }
  set (pending2 := pending1 <| rv_Status := _ |> <| rv_UpdatedAt := _ |>).
  assert (revision_shape pending2 = revision_shape pending) as Hs2 by (by rewrite <-Hs).
  etrans; [|apply supersedeUnreferencedBindings_change].
  split; [done|done|]. apply plans_same. cbn. destruct previous as [[j active]|]; cbn.
  - by eapply insert_twice_same_shape; [exact Hp|exact Hs2|by apply Hprev|].
  - by apply (insert_same_shape _ _ pending).
Qed.

Lemma Promote_outcome commandID base revisionID a v a' :
  PromotePendingRevision now commandID base revisionID a = (Ok v, a') →
  outcome a commandID (decision_fingerprint commandID base revisionID) base a'.
Proof.
  apply outcome_intro; [by intros r a1 [= _ <-]|]. clear v a'. intros v a'.
  destruct (check_pending_id a revisionID); [done|]. cbv zeta. cbn [check].
  destruct (last_index _ _ ≫= _) as [[i pending]|] eqn:Ep; [|done].
  set (previous := last_index (has_revision_id (ag_ActiveRevisionID a)) (ag_Revisions a)
                   ≫= fun i => (i,.) <$> ag_Revisions a !! i).
  pose proof (promoted_change previous i pending a) as Hc.
  destruct (promoted now previous i pending a) as [diff a1]. cbn [snd] in Hc. intros Heq.
  apply (f_equal snd) in Heq. cbn [snd] in Heq. subst a'. apply touch_applied. apply Hc.
  - apply bind_Some in Ep as (k & _ & Hk). apply fmap_Some in Hk as (r & Hr & [= -> ->]). done.
  - intros j active Hprev. unfold previous in Hprev. apply bind_Some in Hprev as (k & _ & Hk).
    apply fmap_Some in Hk as (r & Hr & [= -> ->]). done.
Qed.

Lemma Reject_outcome commandID base revisionID a v a' :
  RejectPendingRevision now commandID base revisionID a = (Ok v, a') →
  outcome a commandID (decision_fingerprint commandID base revisionID) base a'.
Proof.
  apply outcome_intro; [by intros r a1 [= _ <-]|]. clear v a'. intros v a'.
  destruct (check_pending_id a revisionID); [done|]. cbn [check].
  destruct (List.find _ _) as [r|] eqn:E; [|done]. intros Heq.
  apply (f_equal snd) in Heq. cbn [snd] in Heq. subst a'. apply touch_applied.
  etrans; [|by apply update_revision_change]. split; [done|done|by apply plans_same].
Qed.

Lemma CreatePending_outcome commandID base candidate preserve a v a' :
  CreatePendingRevision now commandID base candidate preserve a = (Ok v, a') →
  outcome a commandID (pending_fingerprint commandID base candidate preserve) base a'.
Proof.
  apply outcome_intro; [by intros r a1 [= _ <-]|]. clear v a'. intros v a'.
  case_match; [done|]. cbv zeta.
  match goal with |- context[ReconcileRevision ?x ?y ?z] => pose proof (ReconcileRevision_reviewed x y z) as Hn; destruct (ReconcileRevision x y z) as [normalized diff] end.
  destruct (ValidateRevision normalized) eqn:E; [done|]. apply validation_spec in E.
  intros Heq. apply (f_equal snd) in Heq. cbn [snd] in Heq. subst a'. apply touch_applied.
  split; [done|done|]. exists [normalized <| rv_PreserveApprovedAssets := preserve |>]. cbn.
  split; [by rewrite fmap_app|]. constructor; [|constructor].
  apply (sound_plan_shape normalized); [done|]. apply wellformed_sound; [done|]. exact Hn.
Qed.
End revisions.
