(* ===== verification/StoryboardRuns.v ===== *)
(** * Storyboards: runs of the command service

    The calls of the service as one type, what a call does to the repository,
    and the theorems about runs of calls: the invariant of every reachable
    repository, what no later call can undo, and that a command is carried out
    once. *)

From Stdlib Require Import ZArith Lia.
From stdpp Require Import relations.
From S2P Require Import Prelude GoJson StoryboardModels StoryboardGraph StoryboardCommand StoryboardRevision.
From S2P Require Import StoryboardStore StoryboardValid StoryboardProps.

(** ** Copies *)

Lemma clone_revision_shape r : revision_shape (clone_StoryboardRevision r) = revision_shape r.
Proof.
  unfold revision_shape, clone_StoryboardRevision. cbn. f_equal. rewrite <-list_fmap_compose.
  apply list_fmap_ext. intros i m _. unfold module_shape. cbn. f_equal.
  rewrite <-list_fmap_compose. apply list_fmap_ext. intros j e _. unfold element_shape, clone_StoryboardElement.
  cbn [compose el_ID el_Key el_AssetSlots update_field eta_StoryboardElement]. f_equal.
  rewrite elems_copy_slice, <-list_fmap_compose. by apply list_fmap_ext.
Qed.

Lemma clone_plans a : revision_shape <$> ag_Revisions (Clone a) = revision_shape <$> ag_Revisions a.
Proof.
  cbn. rewrite <-list_fmap_compose. apply list_fmap_ext. intros i r _. apply clone_revision_shape.
Qed.

Lemma omit_empty_lookup {A} (m : gomap A) k : go_lookup (omit_empty m) k = go_lookup m k.
Proof.
  destruct m as [m|]; [|done]. cbn. case_bool_decide as E; [|done]. subst m. cbn. by rewrite lookup_empty.
Qed.

Lemma checkApplied_clone a c f : checkAppliedCommand (Clone a) c f = checkAppliedCommand a c f.
Proof. unfold checkAppliedCommand, Clone. cbn -[go_lookup]. by rewrite omit_empty_lookup. Qed.

Lemma checkApplied_false a c f f' : checkAppliedCommand a c f = Ok false → checkAppliedCommand a c f' = Ok false.
Proof.
  unfold checkAppliedCommand. cbv zeta. case_bool_decide; [done|].
  destruct (go_lookup _ _) as [h|]; [case_bool_decide; done|done].
Qed.

(** ** What a carried out command leaves behind *)

Definition marked_by (commandID k : string) : Prop := k = TrimSpace commandID ∧ k ≠ "".

Record committed (a : StoryboardAggregate) (commandID fingerprint : string) (a' : StoryboardAggregate) : Prop := {
  cm_id : ag_ID a' = ag_ID a;
  cm_session : ag_SessionID a' = ag_SessionID a;
  cm_version : ag_Version a' = incr (ag_Version a);
  cm_ids k : k ∈ ag_AppliedCommandIDs a' ↔ k ∈ ag_AppliedCommandIDs a ∨ marked_by commandID k;
  cm_hash k : marked_by commandID k → go_lookup (ag_AppliedCommandHashes a') k = Some fingerprint;
  cm_hashes k : ¬ marked_by commandID k →
    go_lookup (ag_AppliedCommandHashes a') k = go_lookup (ag_AppliedCommandHashes a) k;
  cm_bindings : rtc binding_effect (ag_Bindings a) (ag_Bindings a');
  cm_plans : plans_grow (ag_Revisions a) (ag_Revisions a')
}.

Lemma markApplied_ids c a k :
  k ∈ ag_AppliedCommandIDs (markApplied c a) ↔ k ∈ ag_AppliedCommandIDs a ∨ marked_by c k.
Proof.
  unfold markApplied, marked_by. cbv zeta. repeat case_bool_decide; cbn [negb andb].
  - naive_solver congruence.
  - naive_solver congruence.
  - naive_solver congruence.
  - cbn. rewrite elem_of_app, list_elem_of_singleton. naive_solver congruence.
Qed.

Lemma markApplied_rest c a :
  markApplied c a = a <| ag_AppliedCommandIDs := ag_AppliedCommandIDs (markApplied c a) |>.
Proof. unfold markApplied. cbv zeta. case_match; by destruct a. Qed.

Lemma markAppliedCommand_ids c f a :
  ag_AppliedCommandIDs (markAppliedCommand c f a) = ag_AppliedCommandIDs (markApplied c a).
Proof. unfold markAppliedCommand. cbv zeta. by case_bool_decide. Qed.

Lemma markAppliedCommand_hash c f a k :
  go_lookup (ag_AppliedCommandHashes (markAppliedCommand c f a)) k
  = if bool_decide (marked_by c k) then Some f else go_lookup (ag_AppliedCommandHashes a) k.
Proof.
  unfold markAppliedCommand. cbv zeta.
  assert (ag_AppliedCommandHashes (markApplied c a) = ag_AppliedCommandHashes a) as Hh by (by rewrite markApplied_rest).
  destruct (decide (TrimSpace c = "")) as [Hc|Hc].
  - rewrite (bool_decide_true (_ = "")), Hh by done. rewrite bool_decide_false; [done|].
    intros [-> ?]. done.
  - rewrite (bool_decide_false (_ = "")) by done. cbn -[TrimSpace]. rewrite Hh.
    destruct (decide (k = TrimSpace c)) as [->|Hk].
    + rewrite lookup_insert_eq, bool_decide_true; [done|]. by split.
    + rewrite lookup_insert_ne, bool_decide_false by (by intros [? _] || done).
      destruct (ag_AppliedCommandHashes a); [done|]. cbn. by rewrite lookup_empty.
Qed.

Lemma markAppliedCommand_rest c f a :
  (ag_ID (markAppliedCommand c f a), ag_SessionID (markAppliedCommand c f a), ag_Version (markAppliedCommand c f a),
   ag_Bindings (markAppliedCommand c f a), ag_Revisions (markAppliedCommand c f a))
  = (ag_ID a, ag_SessionID a, ag_Version a, ag_Bindings a, ag_Revisions a).
Proof. unfold markAppliedCommand. cbv zeta. rewrite markApplied_rest. by case_bool_decide. Qed.

Lemma applied_committed a c f a' : applied a c f a' → committed a c f a'.
Proof.
  intros (t & a1 & [Hl Hb Hp] & ->). unfold touchCommand.
  set (a2 := a1 <| ag_Version := _ |> <| ag_UpdatedAt := _ |>).
  pose proof (markAppliedCommand_rest c f a2) as Hr. injection Hr as E1 E2 E3 E4 E5.
  injection Hl as L1 L2 L3 L4 L5.
  split.
  - by rewrite E1.
  - by rewrite E2.
  - rewrite E3. cbn. by rewrite L3.
  - intros k. rewrite markAppliedCommand_ids, markApplied_ids. cbn. by rewrite L4.
  - intros k Hk. by rewrite markAppliedCommand_hash, bool_decide_true.
  - intros k Hk. rewrite markAppliedCommand_hash, bool_decide_false by done. cbn. by rewrite L5.
  - by rewrite E4.
  - by rewrite E5.
Qed.

Lemma remarked a c f f' a' : committed a c f a' → committed a c f' (markAppliedCommand c f' a').
Proof.
  intros [C1 C2 C3 C4 C5 C6 C7 C8].
  pose proof (markAppliedCommand_rest c f' a') as Hr. injection Hr as E1 E2 E3 E4 E5.
  split; try congruence.
  - intros k. rewrite markAppliedCommand_ids, markApplied_ids, C4. tauto.
  - intros k Hk. by rewrite markAppliedCommand_hash, bool_decide_true.
  - intros k Hk. rewrite markAppliedCommand_hash, bool_decide_false by done. by apply C6.
Qed.

Lemma outcome_committed a c f f' base a' :
  checkAppliedCommand a c f = Ok false → outcome a c f' base a' → committed a c f' a'.
Proof.
  intros Hc [[Hc' _]|(_ & _ & Ha)]; [|by apply applied_committed].
  rewrite (checkApplied_false _ _ _ f' Hc) in Hc'. done.
Qed.

(** ** The calls *)

Inductive call :=
| CallCreatePending (command : CreatePendingRevisionCommand)
| CallDecidePending (command : DecidePendingRevisionCommand)
| CallMutate (command : StoryboardMutationCommand)
| CallUpdatePrompt (command : UpdatePromptCommand)
| CallRegenerate (command : RegenerateAssetCommand)
| CallBind (command : BindAssetCommand)
| CallActivate (command : ActivateBindingCommand)
| CallRejectBinding (command : RejectBindingCommand).

Definition call_storyboard (c : call) : string :=
  match c with
  | CallCreatePending c => cp_StoryboardID c
  | CallDecidePending c => dp_StoryboardID c
  | CallMutate c => mu_StoryboardID c
  | CallUpdatePrompt c => up_StoryboardID c
  | CallRegenerate c => rg_StoryboardID c
  | CallBind c => bc_StoryboardID c
  | CallActivate c => av_StoryboardID c
  | CallRejectBinding c => rj_StoryboardID c
  end.

Definition call_id (c : call) : string :=
  match c with
  | CallCreatePending c => cp_CommandID c
  | CallDecidePending c => dp_CommandID c
  | CallMutate c => mu_CommandID c
  | CallUpdatePrompt c => up_CommandID c
  | CallRegenerate c => rg_CommandID c
  | CallBind c => bc_CommandID c
  | CallActivate c => av_CommandID c
  | CallRejectBinding c => rj_CommandID c
  end.

Definition call_json (c : call) : any :=
  match c with
  | CallCreatePending c => json_CreatePendingRevisionCommand c
  | CallDecidePending c => json_DecidePendingRevisionCommand c
  | CallMutate c => json_StoryboardMutationCommand c
  | CallUpdatePrompt c => json_UpdatePromptCommand c
  | CallRegenerate c => json_RegenerateAssetCommand c
  | CallBind c => json_BindAssetCommand c
  | CallActivate c => json_ActivateBindingCommand c
  | CallRejectBinding c => json_RejectBindingCommand c
  end.

Section runs.
Context `{Digest} `{Formatting} `{MapRange} `{Clock} {X : Type}.

Definition call_fingerprint (c : call) : string := commandFingerprint (call_json c).

Definition forget {B} (c : Eff (bworld X) (result (StoryboardAggregate * B))) : Eff (bworld X) (result StoryboardAggregate) :=
  try* '(a, _) := c in ret (Ok a).

Definition run_call (c : call) : Eff (bworld X) (result StoryboardAggregate) :=
  match c with
  | CallCreatePending c => forget (CreatePending c)
  | CallDecidePending c => forget (DecidePending c)
  | CallMutate c => forget (Mutate c)
  | CallUpdatePrompt c => forget (Service_UpdatePrompt c)
  | CallRegenerate c => forget (Regenerate c)
  | CallBind c => forget (Bind c)
  | CallActivate c => forget (Activate c)
  | CallRejectBinding c => forget (Service_RejectBinding c)
  end.

(** A step: a storyboard is created or a call made; what is outside the
    repository may change at any time. *)
Inductive storyboard_step (w : bworld X) : bworld X → Prop :=
| step_create id sessionID : storyboard_step w (snd (Create id sessionID w))
| step_call c : storyboard_step w (snd (run_call c w))
| step_outside reads ext : storyboard_step w (mkBWorld (bw_repo w) reads ext).

Definition storyboard_future : bworld X → bworld X → Prop := rtc storyboard_step.
Definition storyboards_reachable (w : bworld X) : Prop :=
  ∃ w0, bw_repo w0 = NewMemoryAggregateRepository ∧ storyboard_future w0 w.

(** ** What a call does to the repository *)

Definition saved (t : Time) (a : StoryboardAggregate) (event : DomainEvent) (r : MemoryAggregateRepository)
    : MemoryAggregateRepository :=
  r <| mr_aggregates := <[ag_ID a := Clone a]> (mr_aggregates r) |>
    <| mr_events := <[ag_ID a := events_of r (ag_ID a) ++ [normalizeDomainEvent t event a]]> (mr_events r) |>.

(** How one call of the service can end on the aggregate [a] stored under its
    id; [R] holds of the fingerprint that goes on record. *)
Inductive ending (R : string → Prop) (commandID fingerprint : string) (a : StoryboardAggregate) (w : bworld X)
    : result StoryboardAggregate → bworld X → Prop :=
| end_conflict w' e :
    bw_repo w' = bw_repo w → checkAppliedCommand a commandID fingerprint = Err e →
    ending R commandID fingerprint a w (Err e) w'
| end_replay w' r :
    bw_repo w' = bw_repo w → checkAppliedCommand a commandID fingerprint = Ok true →
    (∀ a1, r = Ok a1 → a1 = Clone a) → ending R commandID fingerprint a w r w'
| end_failed w' e :
    bw_repo w' = bw_repo w → checkAppliedCommand a commandID fingerprint = Ok false →
    ending R commandID fingerprint a w (Err e) w'
| end_unsaved w' a1 :
    bw_repo w' = bw_repo w → checkAppliedCommand a commandID fingerprint = Ok false → commandID ≠ "" →
    existsb (fun ev => bool_decide (ev_CommandID ev = commandID)) (events_of (bw_repo w) (ag_ID a)) = true →
    ending R commandID fingerprint a w (Ok a1) w'
| end_saved w' a1 recorded t event :
    bw_repo w' = saved t a1 event (bw_repo w) → checkAppliedCommand a commandID fingerprint = Ok false →
    committed (Clone a) commandID recorded a1 → R recorded → ev_CommandID event = commandID →
    ending R commandID fingerprint a w (Ok a1) w'.

(** An aggregate as the repository files it. *)
Definition filed (id : string) (a : StoryboardAggregate) : Prop :=
  ag_ID a = id ∧ blank id = false ∧ TrimSpace id = id ∧ blank (ag_SessionID a) = false.

Lemma SaveAggregate_ends now a1 a event (w : bworld X) r w' :
  mr_aggregates (bw_repo w) !! ag_ID a1 = Some a → filed (ag_ID a) a →
  ag_ID a1 = ag_ID a → ag_SessionID a1 = ag_SessionID a → ag_Version a1 = incr (ag_Version a) →
  SaveAggregate now a1 (ag_Version a) event w = (r, w') →
  r = Ok tt ∧
  ((bw_repo w' = bw_repo w ∧ ev_CommandID event ≠ "" ∧
    existsb (fun ev => bool_decide (ev_CommandID ev = ev_CommandID event)) (events_of (bw_repo w) (ag_ID a)) = true) ∨
   bw_repo w' = saved now a1 event (bw_repo w)).
Proof.
  intros Ha (_ & Hid & _ & Hs) Eid Es Ev. unfold SaveAggregate, validateAggregateIdentity.
  rewrite Eid, Es, Hid, Hs. cbn [check]. unfold bind, b_get. rewrite Eid in Ha. rewrite Ha.
  rewrite Z.eqb_refl, Ev, Z.eqb_refl. cbn [negb].
  destruct (negb (bool_decide (ev_CommandID event = "")) && _) eqn:E.
  - intros [= <- <-]. apply andb_prop in E as [E1 E2]. split; [done|]. left. split_and!; [done| |done].
    apply negb_true_iff, bool_decide_eq_false in E1. done.
  - intros Heq. cbv [b_put ret] in Heq. apply pair_equal_spec in Heq as [<- <-]. split; [done|]. right.
    cbn [bw_repo]. unfold saved. by rewrite Eid.
Qed.

Lemma loadForCommand_ends sid cid fp (w : bworld X) :
  loadForCommand sid cid fp w =
  ((if blank sid then Err (Errorf "storyboard id is required")
    else match mr_aggregates (bw_repo w) !! TrimSpace sid with
         | None => Err (Wrapf "" ErrAggregateNotFound (": " +:+ sid))
         | Some a => match checkAppliedCommand a cid fp with
                     | Err e => Err e | Ok d => Ok (Clone a, d) end
         end), w).
Proof.
  unfold loadForCommand. destruct (blank sid); [done|].
  unfold GetAggregate, bind_ok, bind, b_get. destruct (_ !! _) as [a|]; [|done]. cbn [ret].
  by rewrite checkApplied_clone.
Qed.

Section command.
Context {A B : Type} (R : string → Prop) (sid cid fp : string).
Context (replayed : StoryboardAggregate → result (StoryboardAggregate * B)) (method : (nat → Time) → agg (result A)).
Context (marked : A → StoryboardAggregate → StoryboardAggregate) (event : A → StoryboardAggregate → DomainEvent).
Context (value : A → B).
Hypothesis Hmethod : ∀ now a v a1, checkAppliedCommand a cid fp = Ok false →
  method now a = (Ok v, a1) → ∃ recorded, R recorded ∧ committed a cid recorded (marked v a1).
Hypothesis Hevent : ∀ v a, ev_CommandID (event v a) = cid.
Hypothesis Hreplayed : ∀ a b, replayed a = Ok b → fst b = a.

Lemma run_command_ends (w : bworld X) r w' :
  (∀ id a, mr_aggregates (bw_repo w) !! id = Some a → filed id a) →
  forget (run_command sid cid fp replayed method marked event value) w = (r, w') →
  (bw_repo w' = bw_repo w ∧ (∃ e, r = Err e) ∧ (mr_aggregates (bw_repo w) !! TrimSpace sid = None)) ∨
  ∃ a, mr_aggregates (bw_repo w) !! TrimSpace sid = Some a ∧ ending R cid fp a w r w'.
Proof.
  intros Hfiled Hr. unfold forget, run_command, bind_ok in Hr. rewrite loadForCommand_ends in Hr.
  destruct (mr_aggregates (bw_repo w) !! TrimSpace sid) as [a|] eqn:Ha.
  2: { left. revert Hr. destruct (blank sid); cbn; intros [= <- <-]; eauto. }
  right. exists a. split; [done|]. pose proof (Hfiled _ _ Ha) as Hf.
  assert (blank sid = false) as Hb.
  { destruct Hf as (_ & Hb & _). unfold blank in *. by rewrite TrimSpace_idem in Hb. }
  rewrite Hb in Hr. revert Hr. destruct (checkAppliedCommand a cid fp) as [[]|e] eqn:Hc.
  - unfold ret. destruct (replayed (Clone a)) as [[a1 b]|e] eqn:Er; intros [= <- <-];
      apply end_replay; try done; intros a2 [= <-].
    by apply Hreplayed in Er.
  - unfold bind, b_clock.
    match goal with |- context[method ?now (Clone a)] => destruct (method now (Clone a)) as [[v|e] a1] eqn:Em end.
    2: { intros [= <- <-]. by apply end_failed. }
    destruct (Hmethod _ _ _ _ (eq_trans (checkApplied_clone a cid fp) Hc) Em) as (recorded & HR & Hcm).
    set (a2 := marked v a1) in *. set (w1 := mkBWorld _ _ _).
    assert (ag_ID a2 = ag_ID a) as Eid by apply Hcm. destruct (Hf) as (Eka & _).
    change (ag_Version (Clone a)) with (ag_Version a).
    match goal with |- context[SaveAggregate ?t a2 ?v ?ev w1] => destruct (SaveAggregate t a2 v ev w1) as [r1 w2] eqn:Es end.
    apply (SaveAggregate_ends _ _ a) in Es as [-> Es]; [|by rewrite Eid, Eka|by rewrite Eka|done|apply Hcm|apply Hcm].
    cbn [ret]. intros [= <- <-]. rewrite Hevent in Es. destruct Es as [(E1 & E2 & E3)|E1].
    + by apply end_unsaved.
    + eapply end_saved; [exact E1|done|done|done|apply Hevent].
  - intros [= <- <-]. by apply end_conflict.
Qed.
End command.

(** What goes on record: the fingerprint of the call, or, for a new plan, that of
    the command as the reconciliation has left it. *)
Definition on_record (c : call) (recorded : string) : Prop :=
  match c with
  | CallCreatePending c =>
      ∃ shared, recorded = commandFingerprint (json_CreatePendingRevisionCommand (c <| cp_Candidate := shared |>))
  | _ => recorded = call_fingerprint c
  end.

Lemma decision_committed command now a v a1 :
  checkAppliedCommand a (dp_CommandID command) (commandFingerprint (json_DecidePendingRevisionCommand command)) = Ok false →
  decision_method command now a = (Ok v, a1) →
  ∃ f, committed a (dp_CommandID command) f a1.
Proof.
  intros Hc. unfold decision_method. cbv zeta. repeat case_bool_decide; [| | |done];
    [destruct (PromotePendingRevision _ _ _ _ _) as [[d|] a2] eqn:E
    |destruct (RejectPendingRevision _ _ _ _ _) as [[d|] a2] eqn:E..]; try done;
    intros Heq; apply (f_equal snd) in Heq; cbn [snd] in Heq; subst a1; eexists;
    eapply outcome_committed; [exact Hc|by eapply Promote_outcome|exact Hc|by eapply Reject_outcome
      |exact Hc|by eapply Reject_outcome].
Qed.

Lemma run_call_ends c (w : bworld X) r w' :
  (∀ id a, mr_aggregates (bw_repo w) !! id = Some a → filed id a) →
  run_call c w = (r, w') →
  (bw_repo w' = bw_repo w ∧ (∃ e, r = Err e) ∧ mr_aggregates (bw_repo w) !! TrimSpace (call_storyboard c) = None) ∨
  ∃ a, mr_aggregates (bw_repo w) !! TrimSpace (call_storyboard c) = Some a ∧
       ending (on_record c) (call_id c) (call_fingerprint c) a w r w'.
Proof.
  intros Hf. destruct c as [c|c|c|c|c|c|c|c]; cbn [run_call call_storyboard call_id];
    apply run_command_ends; try done;
    try (intros now a v a1 Hc Hm; eexists; split; [reflexivity|];
         eapply outcome_committed; [exact Hc|];
         by first [eapply ApplyMutation_outcome|eapply UpdatePrompt_outcome|eapply RegenerateAsset_outcome
                  |eapply BindAsset_outcome|eapply ActivateBinding_outcome|eapply RejectBinding_outcome]);
    try (intros a b [= <-]; done).
  - intros now a [diff shared] a1 Hc Hm. eexists. split; [by exists shared|].
    eapply remarked, outcome_committed; [exact Hc|by eapply CreatePending_outcome].
  - intros [diff shared] a. done.
  - intros now a v a1 Hc Hm. eexists. split; [reflexivity|].
    destruct (decision_committed _ _ _ _ _ Hc Hm) as [f Hcm]. by eapply remarked.
  - intros [diff ty] a. done.
  - intros a b. destruct (replayed_binding c a); [|done]. by intros [= <-].
Qed.

(** ** The invariant *)

Record repository_inv (r : MemoryAggregateRepository) : Prop := {
  ri_filed id a : mr_aggregates r !! id = Some a → filed id a;
  ri_bindings id a : mr_aggregates r !! id = Some a → bindings_ok (ag_Bindings a);
  ri_plans id a : mr_aggregates r !! id = Some a → Forall sound_plan (ag_Revisions a);
  ri_ledger id a k : mr_aggregates r !! id = Some a →
    k ∈ ag_AppliedCommandIDs a ↔ is_Some (go_lookup (ag_AppliedCommandHashes a) k);
  ri_version id a : mr_aggregates r !! id = Some a → ag_Version a = wrap64 (Z.of_nat (length (events_of r id)));
  ri_events id a i ev : mr_aggregates r !! id = Some a → events_of r id !! i = Some ev →
    ev_AggregateVersion ev = wrap64 (Z.of_nat i + 1) ∧ ev_StoryboardID ev = id ∧
    ∀ k, marked_by (ev_CommandID ev) k → k ∈ ag_AppliedCommandIDs a;
  ri_none id : mr_aggregates r !! id = None → events_of r id = []
}.

Inductive repository_change (r : MemoryAggregateRepository) : MemoryAggregateRepository → Prop :=
| rc_same : repository_change r r
| rc_created id a :
    mr_aggregates r !! id = None → filed id a → ag_Version a = 0 → ag_Bindings a = [] → ag_Revisions a = [] →
    ag_AppliedCommandIDs a = [] → ag_AppliedCommandHashes a = None →
    repository_change r (r <| mr_aggregates := <[id := Clone a]> (mr_aggregates r) |>)
| rc_saved id a commandID fingerprint recorded a1 t event :
    mr_aggregates r !! id = Some a → checkAppliedCommand a commandID fingerprint = Ok false →
    committed (Clone a) commandID recorded a1 → ev_CommandID event = commandID →
    repository_change r (saved t a1 event r).

Lemma create_change id sessionID (w : bworld X) :
  repository_change (bw_repo w) (bw_repo (snd (Create id sessionID w))).
Proof.
  unfold Create, bind, b_clock, NewStoryboardAggregate. cbn [TrimSpace]. cbv zeta.
  case_bool_decide as Hid; [constructor|]. case_bool_decide as Hs; [constructor|].
  unfold bind_ok, CreateAggregate, validateAggregateIdentity.
  cbn [ag_ID ag_SessionID zeroStoryboardAggregate update_field eta_StoryboardAggregate].
  assert (∀ s, TrimSpace s ≠ "" → blank (TrimSpace s) = false) as Hbl.
  { intros s Hne. unfold blank. rewrite TrimSpace_idem. by apply bool_decide_eq_false. }
  rewrite (Hbl id Hid), (Hbl sessionID Hs). cbn [check]. unfold bind, b_get. cbn [bw_repo].
  case_bool_decide as Hex; [constructor|]. cbn [b_put ret snd bw_repo].
  apply rc_created; try done; [by apply eq_None_not_Some|].
  split_and!; [done|by apply Hbl|by rewrite TrimSpace_idem|by apply Hbl].
Qed.

Lemma step_change (w w' : bworld X) :
  (∀ id a, mr_aggregates (bw_repo w) !! id = Some a → filed id a) →
  storyboard_step w w' → repository_change (bw_repo w) (bw_repo w').
Proof.
  intros Hf [id sessionID|c|reads ext]; [apply create_change| |constructor].
  destruct (run_call c w) as [r w1] eqn:E. cbn [snd].
  apply (run_call_ends c w r w1 Hf) in E as [(-> & _)|(a & Ha & Hend)]; [constructor|].
  destruct Hend as [w2 e -> _|w2 r2 -> _ _|w2 e -> _|w2 a1 -> _ _ _|w2 a1 recorded t ev -> Hc Hcm _ Hev];
    try constructor.
  by eapply rc_saved.
Qed.

Lemma events_of_saved t a ev r id :
  events_of (saved t a ev r) id
  = if bool_decide (ag_ID a = id) then events_of r id ++ [normalizeDomainEvent t ev a] else events_of r id.
Proof.
  unfold events_of at 1, saved. cbn [mr_events update_field eta_MemoryAggregateRepository].
  case_bool_decide as E; [subst id; by rewrite lookup_insert_eq|by rewrite lookup_insert_ne].
Qed.

Lemma aggregates_saved t a ev r id :
  mr_aggregates (saved t a ev r) !! id
  = if bool_decide (ag_ID a = id) then Some (Clone a) else mr_aggregates r !! id.
Proof.
  unfold saved. cbn [mr_aggregates update_field eta_MemoryAggregateRepository].
  case_bool_decide as E; [subst id; by rewrite lookup_insert_eq|by rewrite lookup_insert_ne].
Qed.

Lemma ledger_committed a c f a1 :
  committed a c f a1 → (∀ k, k ∈ ag_AppliedCommandIDs a ↔ is_Some (go_lookup (ag_AppliedCommandHashes a) k)) →
  ∀ k, k ∈ ag_AppliedCommandIDs a1 ↔ is_Some (go_lookup (ag_AppliedCommandHashes a1) k).
Proof.
  intros [_ _ _ Hids Hh Hhs _ _] Hl k. rewrite Hids, Hl.
  destruct (decide (marked_by c k)) as [Hm|Hm]; [rewrite (Hh k Hm)|rewrite (Hhs k Hm)]; naive_solver.
Qed.

Lemma inv_change r r' : repository_change r r' → repository_inv r → repository_inv r'.
Proof.
  intros [|id0 a0 Hnone Hf Hv Hb Hr Hi Hh|id0 a0 c f rec a1 t ev Ha0 Hc Hcm Hev] [If Ib Ip Il Iv Ie In]; [by split|..].
  - assert (Hcases : ∀ id a, mr_aggregates (r <| mr_aggregates := <[id0:=Clone a0]> (mr_aggregates r) |>) !! id = Some a →
      (id = id0 ∧ a = Clone a0) ∨ (id ≠ id0 ∧ mr_aggregates r !! id = Some a)).
    { intros id a. cbn [mr_aggregates update_field eta_MemoryAggregateRepository].
      intros [[<- <-]|[? ?]]%lookup_insert_Some; [by left|by right]. }
    assert (He0 : events_of r id0 = []) by (by apply In).
    split.
    + intros id a [[-> ->]|[_ Ha]]%Hcases; [done|by apply If].
    + intros id a [[-> ->]|[_ Ha]]%Hcases; [|by eapply Ib]. cbn. rewrite Hb. split; [constructor|done].
    + intros id a [[-> ->]|[_ Ha]]%Hcases; [|by eapply Ip]. cbn. rewrite Hr. constructor.
    + intros id a k [[-> ->]|[_ Ha]]%Hcases; [|by eapply Il]. cbn -[go_lookup]. rewrite omit_empty_lookup, Hi, Hh.
      cbn. rewrite elem_of_nil. split; [done|by intros [? ?]].
    + intros id a [[-> ->]|[_ Ha]]%Hcases; [|by apply Iv]. cbn -[events_of].
      change (events_of _ id0) with (events_of r id0). by rewrite Hv, He0.
    + intros id a i ev [[-> ->]|[_ Ha]]%Hcases; [|by apply Ie].
      change (events_of _ id0) with (events_of r id0). by rewrite He0.
    + intros id. cbn [mr_aggregates update_field eta_MemoryAggregateRepository].
      intros [Ha _]%lookup_insert_None. by apply In.
  - destruct (If _ _ Ha0) as (Hid0 & Hf1 & Hf2 & Hf3).
    assert (ag_ID a1 = id0) as Hid1 by (rewrite (cm_id _ _ _ _ Hcm); exact Hid0).
    assert (Hcases : ∀ id a, mr_aggregates (saved t a1 ev r) !! id = Some a →
      (id = id0 ∧ a = Clone a1) ∨ (id ≠ id0 ∧ mr_aggregates r !! id = Some a)).
    { intros id a. rewrite aggregates_saved, Hid1. case_bool_decide; [intros [= <-]; by left|right; split; [congruence|done]]. }
    assert (He0 : events_of (saved t a1 ev r) id0 = events_of r id0 ++ [normalizeDomainEvent t ev a1])
      by (by rewrite events_of_saved, bool_decide_true).
    assert (Hver : ag_Version a1 = wrap64 (Z.of_nat (length (events_of r id0)) + 1)).
    { rewrite (cm_version _ _ _ _ Hcm). change (ag_Version (Clone a0)) with (ag_Version a0).
      rewrite (Iv _ _ Ha0). unfold incr. by rewrite wrap64_add_l. }
    split.
    + intros id a [[-> ->]|[_ Ha]]%Hcases; [|by apply If]. split_and!; [done..|].
      cbn. by rewrite (cm_session _ _ _ _ Hcm).
    + intros id a [[-> ->]|[_ Ha]]%Hcases; [|by eapply Ib]. change (ag_Bindings (Clone a1)) with (ag_Bindings a1).
      eapply binding_effects_ok; [apply (cm_bindings _ _ _ _ Hcm)|exact (Ib _ _ Ha0)].
    + intros id a [[-> ->]|[_ Ha]]%Hcases; [|by eapply Ip].
      eapply sound_plans_grow; [|exact (Ip _ _ Ha0)].
      etrans; [apply plans_same, (clone_plans a0)|]. etrans; [apply (cm_plans _ _ _ _ Hcm)|].
      apply plans_same, clone_plans.
    + intros id a k [[-> ->]|[_ Ha]]%Hcases; [|by eapply Il].
      cbn -[go_lookup]. rewrite omit_empty_lookup. apply (ledger_committed _ _ _ _ Hcm). intros k'.
      cbn -[go_lookup]. rewrite omit_empty_lookup. by eapply Il.
    + intros id a [[-> ->]|[Hne Ha]]%Hcases.
      * rewrite He0, length_app. cbn [length]. change (ag_Version (Clone a1)) with (ag_Version a1). rewrite Hver. f_equal. lia.
      * rewrite events_of_saved, Hid1, bool_decide_false by congruence. by apply Iv.
    + intros id a i ev' [[-> ->]|[Hne Ha]]%Hcases.
      * rewrite He0. change (ag_AppliedCommandIDs (Clone a1)) with (ag_AppliedCommandIDs a1).
        intros [Hev'|[Hi Hev']]%lookup_app_Some.
        -- destruct (Ie _ _ _ _ Ha0 Hev') as (? & ? & Hm). split_and!; [done|done|].
           intros k Hk. apply (cm_ids _ _ _ _ Hcm). left. by apply Hm.
        -- apply list_lookup_singleton_Some in Hev' as [Hi0 <-]. cbn. split_and!; [|done|].
           ++ rewrite Hver. f_equal. lia.
           ++ intros k Hk. apply (cm_ids _ _ _ _ Hcm). right. by rewrite Hev in Hk.
      * rewrite events_of_saved, Hid1, bool_decide_false by congruence. by apply Ie.
    + intros id. rewrite aggregates_saved, events_of_saved, Hid1. case_bool_decide; [done|]. apply In.
Qed.

Lemma inv_initial : repository_inv NewMemoryAggregateRepository.
Proof. split; try done; intros *; cbn; by rewrite lookup_empty. Qed.

Lemma reachable_inv (w : bworld X) : storyboards_reachable w → repository_inv (bw_repo w).
Proof.
  intros (w0 & Hw0 & Hr). assert (repository_inv (bw_repo w0)) as Hi by (rewrite Hw0; apply inv_initial).
  clear Hw0. induction Hr as [|w w1 w2 Hs _ IH]; [done|]. apply IH.
  eapply inv_change; [|exact Hi]. apply step_change; [apply (ri_filed _ Hi)|done].
Qed.

Lemma reachable_future (w w' : bworld X) : storyboards_reachable w → storyboard_future w w' → storyboards_reachable w'.
Proof. intros (w0 & Hw0 & Hr) Hf. exists w0. split; [done|by etrans]. Qed.

Lemma sound_plans_spelled l :
  Forall sound_plan l →
  Forall (fun r => NoDup (target_ids (rv_Modules r)) ∧ (∀ x, ¬ tc (depends (rv_Dependencies r)) x x) ∧
    ∀ e s, e ∈ revision_elements r → s ∈ elems (el_AssetSlots e) → sl_ReviewRequired s = true) l.
Proof.
  intros Hl. eapply Forall_impl; [exact Hl|]. intros r (? & ? & Hr). split_and!; [done|done|]. intros e s He Hs.
  rewrite Forall_forall in Hr. specialize (Hr e He). unfold reviewed in Hr. rewrite Forall_forall in Hr. by apply Hr.
Qed.

(** C7. The invariant of storyboards.  In every repository that calls of the
    service can reach: of the bindings of one slot at most one is active, and
    binding ids are unique; every plan is a directed acyclic graph over targets with distinct
    ids, all of whose asset slots ask for a review; the version of a storyboard counts its events, which are numbered in
    their order; and a command is on the list of applied ones exactly when its
    fingerprint is on record. *)
Theorem storyboard_invariant (w : bworld X) id a :
  storyboards_reachable w → mr_aggregates (bw_repo w) !! id = Some a →
  ag_ID a = id ∧
  NoDup (bd_ID <$> ag_Bindings a) ∧
  (∀ b b', b ∈ ag_Bindings a → b' ∈ ag_Bindings a → bd_State b = BindingStateActive → bd_State b' = BindingStateActive →
     bd_TargetID b = bd_TargetID b' → bd_AssetSlot b = bd_AssetSlot b' → b = b') ∧
  Forall (fun r => NoDup (target_ids (rv_Modules r)) ∧ (∀ x, ¬ tc (depends (rv_Dependencies r)) x x) ∧
     ∀ e s, e ∈ revision_elements r → s ∈ elems (el_AssetSlots e) → sl_ReviewRequired s = true) (ag_Revisions a) ∧
  ag_Version a = wrap64 (Z.of_nat (length (events_of (bw_repo w) id))) ∧
  (∀ i ev, events_of (bw_repo w) id !! i = Some ev →
     ev_AggregateVersion ev = wrap64 (Z.of_nat i + 1) ∧ ev_StoryboardID ev = id) ∧
  (∀ k, k ∈ ag_AppliedCommandIDs a ↔ is_Some (go_lookup (ag_AppliedCommandHashes a) k)).
Proof.
  intros Hi%reachable_inv Ha. destruct (ri_bindings _ Hi _ _ Ha) as [Hids Hact].
  split_and!; [apply (ri_filed _ Hi _ _ Ha)|done| |by apply sound_plans_spelled, (ri_plans _ Hi _ _ Ha)|by apply (ri_version _ Hi)| |].
  - intros b b' [i Hb]%list_elem_of_lookup [j Hb']%list_elem_of_lookup Hs Hs' Ht Hsl.
    assert (i = j) as <- by eauto. congruence.
  - intros i ev Hev. by destruct (ri_events _ Hi _ _ _ _ Ha Hev) as (? & ? & _).
  - intros k. by apply (ri_ledger _ Hi _ _ k Ha).
Qed.

(** What later calls cannot undo. *)
Record aggregate_follows (a a' : StoryboardAggregate) : Prop := {
  fo_bindings : bindings_follow (ag_Bindings a) (ag_Bindings a');
  fo_plans : plans_grow (ag_Revisions a) (ag_Revisions a');
  fo_hashes k f : go_lookup (ag_AppliedCommandHashes a) k = Some f → go_lookup (ag_AppliedCommandHashes a') k = Some f
}.

#[export] Instance aggregate_follows_preorder : PreOrder aggregate_follows.
Proof.
  split.
  - intros a. by split.
  - intros a1 a2 a3 [B1 P1 F1] [B2 P2 F2]. split; [by etrans|by etrans|auto].
Qed.

Lemma change_follows r r' id a :
  repository_inv r → repository_change r r' → mr_aggregates r !! id = Some a →
  ∃ a', mr_aggregates r' !! id = Some a' ∧ aggregate_follows a a' ∧ ∃ new, events_of r' id = events_of r id ++ new.
Proof.
  intros Hi [|id0 a0 Hnone _ _ _ _ _ _|id0 a0 c f rec a1 t ev Ha0 Hc Hcm Hev] Ha.
  - exists a. split_and!; [done|done|exists []; by rewrite app_nil_r].
  - exists a. split_and!; [|done|exists []; by rewrite app_nil_r].
    cbn [mr_aggregates update_field eta_MemoryAggregateRepository].
    rewrite lookup_insert_ne; [done|congruence].
  - assert (ag_ID a1 = id0) as Hid1.
    { rewrite (cm_id _ _ _ _ Hcm). apply (ri_filed _ Hi _ _ Ha0). }
    rewrite aggregates_saved, events_of_saved, Hid1. case_bool_decide as E.
    + subst id0. assert (a0 = a) as -> by congruence. exists (Clone a1). split_and!; [done| |by eexists].
      split.
      * apply (binding_effects_follow _ _ (cm_bindings _ _ _ _ Hcm)).
      * etrans; [apply plans_same, (clone_plans a)|]. etrans; [apply (cm_plans _ _ _ _ Hcm)|].
        apply plans_same, clone_plans.
      * intros k h Hk. cbn -[go_lookup]. rewrite omit_empty_lookup, (cm_hashes _ _ _ _ Hcm).
        -- cbn -[go_lookup]. by rewrite omit_empty_lookup.
        -- intros [-> Hne]. unfold checkAppliedCommand in Hc. cbv zeta in Hc.
           rewrite bool_decide_false in Hc by done. rewrite Hk in Hc. by case_bool_decide.
    + exists a. split_and!; [done|done|exists []; by rewrite app_nil_r].
Qed.

Lemma future_follows (w w' : bworld X) id a :
  storyboards_reachable w → storyboard_future w w' → mr_aggregates (bw_repo w) !! id = Some a →
  ∃ a', mr_aggregates (bw_repo w') !! id = Some a' ∧ aggregate_follows a a' ∧
    ∃ new, events_of (bw_repo w') id = events_of (bw_repo w) id ++ new.
Proof.
  intros Hr Hf. revert a. induction Hf as [w|w w1 w2 Hs Hf IH]; intros a Ha.
  - exists a. split_and!; [done|done|exists []; by rewrite app_nil_r].
  - pose proof (reachable_inv w Hr) as Hi.
    destruct (change_follows _ _ id a Hi (step_change w w1 (ri_filed _ Hi) Hs) Ha) as (a1 & Ha1 & F1 & n1 & E1).
    assert (storyboards_reachable w1) as Hr1 by (eapply reachable_future; [exact Hr|by apply rtc_once]).
    destruct (IH Hr1 a1 Ha1) as (a2 & Ha2 & F2 & n2 & E2).
    exists a2. split_and!; [done|by etrans|]. exists (n1 ++ n2). by rewrite E2, E1, app_assoc.
Qed.

(** The life of a binding goes forward.  Whatever calls follow, a binding
    stays at its place with its target, slot, asset, attempt, token and revision;
    a candidate becomes active, rejected or superseded, an active asset can
    only be superseded, and what is rejected or superseded stays so.  Plans
    that are stored keep their targets, slots and dependencies, and the log of
    events only grows at its end. *)
Theorem binding_lifecycle (w w' : bworld X) id a i b :
  storyboards_reachable w → storyboard_future w w' →
  mr_aggregates (bw_repo w) !! id = Some a → ag_Bindings a !! i = Some b →
  ∃ a' b', mr_aggregates (bw_repo w') !! id = Some a' ∧ ag_Bindings a' !! i = Some b' ∧
    b' = set_state (bd_State b') b ∧
    (bd_State b' = bd_State b ∨ bd_State b = BindingStateCandidate
     ∨ bd_State b = BindingStateActive ∧ bd_State b' = BindingStateSuperseded) ∧
    (∀ j r, ag_Revisions a !! j = Some r → ∃ r', ag_Revisions a' !! j = Some r' ∧ revision_shape r' = revision_shape r) ∧
    ∃ new, events_of (bw_repo w') id = events_of (bw_repo w) id ++ new.
Proof.
  intros Hr Hf Ha Hb. destruct (future_follows w w' id a Hr Hf Ha) as (a' & Ha' & [Fb (new & Ep & _) _] & He).
  destruct (Fb i b Hb) as (b' & Hb' & Eb & Hs). exists a', b'. split_and!; [done..| |done].
  intros j r Hj. assert ((revision_shape <$> ag_Revisions a') !! j = Some (revision_shape r)) as Hj'.
  { rewrite Ep. apply lookup_app_l_Some. by rewrite list_lookup_fmap, Hj. }
  rewrite list_lookup_fmap in Hj'. apply fmap_Some in Hj' as (r' & ? & ?). by exists r'.
Qed.

Definition same_address (c c' : call) : Prop :=
  TrimSpace (call_storyboard c') = TrimSpace (call_storyboard c) ∧ TrimSpace (call_id c') = TrimSpace (call_id c).

(** What is on record for a call that has been answered without an error. *)
Lemma accepted_on_record (w w1 : bworld X) c a1 :
  storyboards_reachable w → TrimSpace (call_id c) ≠ "" → run_call c w = (Ok a1, w1) →
  ∃ stored f, mr_aggregates (bw_repo w1) !! TrimSpace (call_storyboard c) = Some stored ∧
    go_lookup (ag_AppliedCommandHashes stored) (TrimSpace (call_id c)) = Some f ∧
    (f = call_fingerprint c ∨ on_record c f).
Proof.
  intros Hr Hid Hrun. pose proof (reachable_inv w Hr) as Hi.
  assert (marked_by (call_id c) (TrimSpace (call_id c))) as Hm by done.
  apply (run_call_ends c w _ _ (ri_filed _ Hi)) in Hrun as [(_ & (e & He) & _)|(a & Ha & Hend)]; [done|].
  remember (Ok a1) as res eqn:Eres.
  destruct Hend as [w2 e _ _|w2 r2 -> Hc _|w2 e _ _|w2 a2 _ Hc Hne Hex|w2 a2 recorded t ev -> Hc Hcm HR Hev]; try done.
  - exists a. unfold checkAppliedCommand in Hc. cbv zeta in Hc. rewrite bool_decide_false in Hc by done.
    destruct (go_lookup _ _) as [h|] eqn:Eh.
    + exists h. split_and!; [done|done|]. left. case_bool_decide; [done|by cbn in Hc].
    + injection Hc as Hc%bool_decide_eq_true. apply (ri_ledger _ Hi _ _ _ Ha) in Hc. rewrite Eh in Hc. by destruct Hc.
  - exfalso. apply existsb_exists in Hex as (ev & Hev%list_elem_of_In & Heq%bool_decide_eq_true).
    destruct (ri_filed _ Hi _ _ Ha) as (Eid & _). rewrite Eid in Hev. apply list_elem_of_lookup in Hev as [i Hev].
    destruct (ri_events _ Hi _ _ _ _ Ha Hev) as (_ & _ & Hmark). rewrite Heq in Hmark. specialize (Hmark _ Hm).
    unfold checkAppliedCommand in Hc. cbv zeta in Hc. rewrite bool_decide_false in Hc by done.
    apply (ri_ledger _ Hi _ _ _ Ha) in Hmark as Hh. destruct Hh as [h Hh]. rewrite Hh in Hc. by case_bool_decide.
  - exists (Clone a2), recorded. rewrite aggregates_saved.
    assert (ag_ID a2 = TrimSpace (call_storyboard c)) as ->.
    { rewrite (cm_id _ _ _ _ Hcm). apply (ri_filed _ Hi _ _ Ha). }
    rewrite bool_decide_true by done. split_and!; [done| |by right].
    cbn -[go_lookup]. rewrite omit_empty_lookup. by apply (cm_hash _ _ _ _ Hcm).
Qed.

(** A command whose id is on record never gets to its method. *)
Lemma run_command_recorded {A B} sid cid fp replayed (method : (nat → Time) → agg (result A)) marked event (value : A → B)
    (w : bworld X) a :
  mr_aggregates (bw_repo w) !! TrimSpace sid = Some a → blank sid = false →
  match checkAppliedCommand a cid fp with
  | Err e => forget (run_command sid cid fp replayed method marked event value) w = (Err e, w)
  | Ok true => forget (run_command sid cid fp replayed method marked event value) w
               = (match replayed (Clone a) with Ok b => Ok (fst b) | Err e => Err e end, w)
  | Ok false => True
  end.
Proof.
  intros Ha Hb. unfold forget, run_command, bind_ok. rewrite loadForCommand_ends, Hb, Ha.
  destruct (checkAppliedCommand a cid fp) as [[]|e]; [|done|done].
  unfold ret. by destruct (replayed (Clone a)) as [[a1 b]|e].
Qed.

(** The answer to a replay: the storyboard; a replayed binding is looked up again. *)
Definition replayed_answer (c : call) (stored : StoryboardAggregate) : result StoryboardAggregate :=
  match c with
  | CallBind command => match replayed_binding command stored with Ok _ => Ok stored | Err e => Err e end
  | _ => Ok stored
  end.

(** The answer to a call whose id is on record. *)
Definition recorded_answer (c : call) (f : string) (stored : StoryboardAggregate) : result StoryboardAggregate :=
  if bool_decide (call_fingerprint c = f) then replayed_answer c (Clone stored)
  else Err (Wrapf "" ErrIdempotencyConflict (": command " +:+ TrimSpace (call_id c))).

Lemma call_on_record (w : bworld X) c stored f :
  storyboards_reachable w → TrimSpace (call_id c) ≠ "" →
  mr_aggregates (bw_repo w) !! TrimSpace (call_storyboard c) = Some stored →
  go_lookup (ag_AppliedCommandHashes stored) (TrimSpace (call_id c)) = Some f →
  run_call c w = (recorded_answer c f stored, w).
Proof.
  intros Hr Hid Hs Hh. pose proof (reachable_inv w Hr) as Hi.
  destruct (ri_filed _ Hi _ _ Hs) as (_ & Hb0 & _).
  assert (blank (call_storyboard c) = false) as Hb by (unfold blank in Hb0; by rewrite TrimSpace_idem in Hb0). clear Hb0.
  assert (checkAppliedCommand stored (call_id c) (call_fingerprint c)
          = if bool_decide (call_fingerprint c = f) then Ok true
            else Err (Wrapf "" ErrIdempotencyConflict (": command " +:+ TrimSpace (call_id c)))) as Hck.
  { unfold checkAppliedCommand. cbv zeta. rewrite bool_decide_false, Hh by done.
    destruct (decide (call_fingerprint c = f)) as [E|E]; [by rewrite !bool_decide_true|].
    rewrite !bool_decide_false by congruence. done. }
  unfold recorded_answer. revert Hck. case_bool_decide as Hfp; intros Hck; clear Hfp; destruct c; cbn [run_call];
    unfold CreatePending, DecidePending, Mutate, Service_UpdatePrompt, Regenerate, Bind, Activate, Service_RejectBinding;
    cbn [call_storyboard call_id] in *; unfold call_fingerprint in Hck; cbn [call_json] in Hck;
    match goal with |- forget (run_command ?s ?i ?f ?r ?m ?k ?e ?v) _ = _ =>
      pose proof (run_command_recorded s i f r m k e v w stored Hs Hb) as Hrun end;
    rewrite Hck in Hrun; rewrite Hrun; try done.
  cbn [replayed_answer]. by destruct (replayed_binding _ _).
Qed.


(** A rejection has the JSON text of the activation of the same binding: sent under
    its id, at any later time, it is answered as a replay of it, and nothing is rejected. *)
Theorem rejection_replays_activation (w w1 w2 : bworld X) command a1 :
  storyboards_reachable w → TrimSpace (av_CommandID command) ≠ "" →
  run_call (CallActivate command) w = (Ok a1, w1) → storyboard_future w1 w2 →
  ∃ stored, mr_aggregates (bw_repo w2) !! TrimSpace (av_StoryboardID command) = Some stored ∧
    run_call (CallRejectBinding (mkRejectBindingCommand (av_CommandID command) (av_StoryboardID command)
      (av_BaseVersion command) (av_BindingID command))) w2 = (Ok (Clone stored), w2).
Proof.
  intros Hr Hid Hrun Hf.
  destruct (accepted_on_record w w1 (CallActivate command) a1 Hr Hid Hrun) as (s1 & f & Hs1 & Hh & Hor).
  assert (f = call_fingerprint (CallActivate command)) as -> by (by destruct Hor).
  assert (storyboards_reachable w1) as Hr1.
  { eapply reachable_future; [exact Hr|]. apply rtc_once. pose proof (step_call w (CallActivate command)) as Hst. by rewrite Hrun in Hst. }
  destruct (future_follows w1 w2 _ s1 Hr1 Hf Hs1) as (s2 & Hs2 & [_ _ Fh] & _). exists s2. split; [done|].
  rewrite (call_on_record w2 _ s2 (call_fingerprint (CallActivate command))); [|by eapply reachable_future|done|done|by apply Fh].
  unfold recorded_answer. rewrite bool_decide_true by reflexivity. done.
Qed.

(** A new plan is not idempotent in this way: the method reconciles the
    modules of the request in place, so that the fingerprint on record is that of
    the request as the reconciliation has left it.  When that differs from the
    request as it was sent -- it does as soon as an id is made up or a slot
    normalised -- the same request made again, at any later time, is refused as a conflict. *)
Theorem repeated_plan_conflicts (w w1 w2 : bworld X) command a1 f :
  storyboards_reachable w → TrimSpace (cp_CommandID command) ≠ "" →
  run_call (CallCreatePending command) w = (Ok a1, w1) → storyboard_future w1 w2 →
  (∃ stored, mr_aggregates (bw_repo w1) !! TrimSpace (cp_StoryboardID command) = Some stored ∧
     go_lookup (ag_AppliedCommandHashes stored) (TrimSpace (cp_CommandID command)) = Some f) →
  f ≠ commandFingerprint (json_CreatePendingRevisionCommand command) →
  ∃ shared, f = commandFingerprint (json_CreatePendingRevisionCommand (command <| cp_Candidate := shared |>)) ∧
    run_call (CallCreatePending command) w2
      = (Err (Wrapf "" ErrIdempotencyConflict (": command " +:+ TrimSpace (cp_CommandID command))), w2).
Proof.
  intros Hr Hid Hrun Hf (s1 & Hs1 & Hh) Hne. set (c := CallCreatePending command) in *.
  destruct (accepted_on_record w w1 c a1 Hr Hid Hrun) as (s1' & f' & Hs1' & Hh' & Hor).
  cbn [c call_storyboard call_id] in *. assert (f' = f) as -> by congruence.
  destruct Hor as [Hor|[shared Hor]]; [done|].
  assert (storyboards_reachable w1) as Hr1.
  { eapply reachable_future; [exact Hr|]. apply rtc_once. pose proof (step_call w c) as Hst. by rewrite Hrun in Hst. }
  destruct (future_follows w1 w2 _ s1 Hr1 Hf Hs1) as (s2 & Hs2 & [_ _ Fh] & _).
  exists shared. split; [done|]. rewrite (call_on_record w2 c s2 f); [|by eapply reachable_future|done|done|by apply Fh].
  unfold recorded_answer. rewrite bool_decide_false; [done|]. by apply not_eq_sym.
Qed.
End runs.
