(* ===== verification/StoryboardPlans.v ===== *)
(** * Storyboards: assets and plans

    Which asset a slot of the active plan shows ([current_asset]), and what the
    commands on bindings and on plans do to it: the result of a generation that
    is no longer current never reaches the plan, an asset is activated only on
    the input it was made from, and a plan under review changes nothing of the
    plan in use until it is promoted. *)

From Stdlib Require Import ZArith Lia.
From stdpp Require Import relations.
From S2P Require Import Prelude GoJson StoryboardModels StoryboardGraph StoryboardCommand StoryboardRevision.
From S2P Require Import StoryboardStore StoryboardValid StoryboardProps StoryboardRuns.

(** ** The assets of a plan *)

Definition slot_asset (s : AssetSlot) : string * string := (sl_Key s, sl_ActiveBindingID s).
Definition element_assets (e : StoryboardElement) := (el_ID e, slot_asset <$> elems (el_AssetSlots e)).
Definition plan_assets (r : StoryboardRevision) := (rv_ID r, element_assets <$> revision_elements r).
Definition assets (a : StoryboardAggregate) := (ag_ActiveRevisionID a, plan_assets <$> ag_Revisions a).

(** The binding shown in a slot of the active plan. *)
Definition current_asset (a : StoryboardAggregate) (targetID slotKey : string) : option string :=
  match mutableActiveRevision a with
  | Err _ => None
  | Ok revision => findElement revision targetID ≫= fun e => sl_ActiveBindingID <$> findAssetSlot e slotKey
  end.

Lemma find_projected {A B} (g : A → B) (p : A → bool) (q : B → bool) l :
  (∀ a, p a = q (g a)) → g <$> List.find p l = List.find q (g <$> l).
Proof.
  intros Hp. induction l as [|a l IH]; [done|]. cbn. rewrite Hp. by destruct (q (g a)).
Qed.

Definition asset_in (l : list (string * list (string * string))) (targetID slotKey : string) : option string :=
  List.find (fun e => bool_decide (e.1 = targetID)) l ≫= fun e =>
    snd <$> List.find (fun s => bool_decide (s.1 = slotKey)) e.2.

Lemma asset_of_plan r targetID slotKey :
  (findElement r targetID ≫= fun e => sl_ActiveBindingID <$> findAssetSlot e slotKey)
  = asset_in (plan_assets r).2 targetID slotKey.
Proof.
  unfold asset_in, plan_assets, findElement. cbn [snd].
  rewrite <-(find_projected element_assets (has_element_id targetID)) by done.
  destruct (List.find _ _) as [e|]; [|done]. cbn. unfold findAssetSlot.
  rewrite <-(find_projected slot_asset (has_slot_key slotKey)) by done. by destruct (List.find _ _).
Qed.

Lemma current_asset_assets a a' targetID slotKey :
  assets a = assets a' → current_asset a targetID slotKey = current_asset a' targetID slotKey.
Proof.
  unfold assets. intros [= Eid E].
  assert (∀ b, current_asset b targetID slotKey
    = if bool_decide (ag_ActiveRevisionID b = "") then None
      else List.find (fun r => bool_decide (r.1 = ag_ActiveRevisionID b)) (plan_assets <$> ag_Revisions b)
           ≫= fun r => asset_in r.2 targetID slotKey) as Hcur.
  { intros b. unfold current_asset, mutableActiveRevision. case_bool_decide; [done|].
    rewrite <-(find_projected plan_assets (has_revision_id (ag_ActiveRevisionID b))) by done.
    destruct (List.find _ _) as [r|]; [|done]. cbn. by rewrite asset_of_plan. }
  by rewrite !Hcur, Eid, E.
Qed.

Lemma update_slot_assets key f e :
  (∀ s, slot_asset (f s) = slot_asset s) → element_assets (update_slot key f e) = element_assets e.
Proof.
  intros Hf. unfold element_assets, update_slot. cbn. f_equal. unfold elems.
  destruct (el_AssetSlots e) as [l|]; [|done]. cbn. by apply update_first_fmap.
Qed.

Lemma update_element_assets id f r :
  (∀ e, element_assets (f e) = element_assets e) → plan_assets (update_element id f r) = plan_assets r.
Proof.
  intros Hf. unfold plan_assets. rewrite revision_elements_update. f_equal. by apply update_first_fmap.
Qed.

Lemma markElementStale_assets slot e : element_assets (markElementStale slot e) = element_assets e.
Proof.
  unfold element_assets, markElementStale, markElementAssetSlotsStale.
  cbn [el_ID el_AssetSlots update_field eta_StoryboardElement]. f_equal.
  rewrite elems_fmap, <-list_fmap_compose. apply list_fmap_ext. intros i s _.
  unfold compose, mark_asset_slot. by case_match.
Qed.

Lemma markDependencyClosure_assets r targetID slot :
  plan_assets (snd (markDependencyClosure r targetID slot)) = plan_assets r.
Proof.
  destruct (markDependencyClosure_spec r targetID slot) as (v & -> & _). cbn [snd]. revert r.
  induction v as [|y v IH]; intros r; [done|]. cbn. rewrite IH.
  apply update_element_assets, markElementStale_assets.
Qed.

Lemma update_revision_assets id f a :
  (∀ r, List.find (has_revision_id id) (ag_Revisions a) = Some r → plan_assets (f r) = plan_assets r) →
  assets (update_revision id f a) = assets a.
Proof.
  intros Hf. unfold assets, update_revision. cbn. f_equal.
  destruct (List.find (has_revision_id id) (ag_Revisions a)) as [r|] eqn:E.
  - destruct (update_first_insert _ f _ _ E) as (i & Hi & ->). rewrite list_fmap_insert, Hf by done.
    apply list_insert_id. by rewrite list_lookup_fmap, Hi.
  - rewrite update_first_none; [done|]. apply not_true_is_false. intros (r & Hr & Hp)%existsb_exists.
    eapply find_none in E; [|exact Hr]. congruence.
Qed.

Lemma update_active_slot_assets targetID slotKey f a :
  (∀ s, slot_asset (f s) = slot_asset s) → assets (update_active_slot targetID slotKey f a) = assets a.
Proof.
  intros Hf. apply update_revision_assets. intros r _. apply update_element_assets. intros e. by apply update_slot_assets.
Qed.

Lemma release_candidate_asset id s : slot_asset (release_candidate id s) = slot_asset s.
Proof. unfold release_candidate. repeat case_match; done. Qed.

Lemma mark_closure_assets id targetID slot a : assets (snd (mark_closure id targetID slot a)) = assets a.
Proof.
  unfold mark_closure. destruct (List.find _ _) as [r|] eqn:E; [|done].
  pose proof (markDependencyClosure_assets r targetID slot) as Hs.
  destruct (markDependencyClosure r targetID slot) as [stale r']. cbn [snd] in *.
  apply update_revision_assets. intros r0 Hr0.
  assert (rv_ID r' = rv_ID r) as Eid by (by injection Hs).
  apply find_elem in E as Hid. destruct Hid as [_ Hid%bool_decide_eq_true].
  rewrite Eid, Hid in Hr0. congruence.
Qed.

Lemma mark_closure_bindings id targetID slot a : ag_Bindings (snd (mark_closure id targetID slot a)) = ag_Bindings a.
Proof. unfold mark_closure. destruct (List.find _ _); [|done]. by destruct (markDependencyClosure _ _ _). Qed.

Lemma touch_assets t c f a : assets (touchCommand t c f a) = assets a.
Proof.
  unfold touchCommand, markAppliedCommand, markApplied, assets. cbv zeta. by repeat case_match.
Qed.

Lemma touch_bindings t c f a : ag_Bindings (touchCommand t c f a) = ag_Bindings a.
Proof. unfold touchCommand, markAppliedCommand, markApplied. cbv zeta. by repeat case_match. Qed.

Lemma touch_rest t c f a :
  (ag_ActiveRevisionID (touchCommand t c f a), ag_PlanRevision (touchCommand t c f a),
   ag_PendingRevisionID (touchCommand t c f a), ag_Status (touchCommand t c f a))
  = (ag_ActiveRevisionID a, ag_PlanRevision a, ag_PendingRevisionID a, ag_Status a).
Proof. unfold touchCommand, markAppliedCommand, markApplied. cbv zeta. by repeat case_match. Qed.

Lemma touch_revisions t c f a : ag_Revisions (touchCommand t c f a) = ag_Revisions a.
Proof. unfold touchCommand, markAppliedCommand, markApplied. cbv zeta. by repeat case_match. Qed.

(** The retirement of candidates leaves the assets and every active binding. *)
Record retires_candidates (a a' : StoryboardAggregate) : Prop := {
  rc_assets : assets a' = assets a;
  rc_active b : b ∈ ag_Bindings a → bd_State b = BindingStateActive → b ∈ ag_Bindings a'
}.

#[export] Instance retires_candidates_preorder : PreOrder retires_candidates.
Proof. split; [by split|]. intros a1 a2 a3 [] []. split; [congruence|auto]. Qed.

Lemma supersede_if_invalid_retires `{Digest} a i : retires_candidates a (supersede_if_invalid a i).
Proof.
  unfold supersede_if_invalid. destruct (ag_Bindings a !! i) as [b|] eqn:Hb; [|done].
  case_bool_decide as Hs; cbn [negb]; [|done].
  destruct (ResolveGenerationInput _ _ _) as [current err]. destruct (current_input_matches _ _ _); [done|].
  set (a1 := a <| ag_Bindings := _ |>). split.
  - rewrite (update_active_slot_assets _ _ _ a1); [done|]. intros s. apply release_candidate_asset.
  - intros b' Hb' Hact. cbn. apply list_elem_of_lookup in Hb' as [j Hj]. apply list_elem_of_lookup. exists j.
    rewrite list_lookup_alter. case_decide as E; [|done]. subst j. rewrite Hb in Hj. simplify_eq. by rewrite Hs in Hact.
Qed.

Lemma supersedeInvalidCandidates_retires `{Digest} a : retires_candidates a (supersedeInvalidCandidates a).
Proof.
  unfold supersedeInvalidCandidates. destruct (mutableActiveRevision a); [|done].
  generalize (seq 0 (length (ag_Bindings a))). intros l. revert a. clear. induction l as [|i l IH]; intros a; [done|].
  cbn. etrans; [apply supersede_if_invalid_retires|apply IH].
Qed.

(** ** Activation *)

Lemma find_update_first {A} (p : A → bool) f l a :
  List.find p l = Some a → p (f a) = true → List.find p (update_first p f l) = Some (f a).
Proof.
  intros Hl Hf. induction l as [|b l IH]; [done|]. cbn in *. destruct (p b) eqn:E.
  - injection Hl as ->. cbn. by rewrite Hf.
  - cbn. rewrite E. by apply IH.
Qed.

Lemma findElement_updated id f r e :
  findElement r id = Some e → el_ID (f e) = el_ID e → findElement (update_element id f r) id = Some (f e).
Proof.
  intros He Hf. unfold findElement. rewrite revision_elements_update. apply find_update_first; [done|].
  apply find_elem in He as [_ He]. revert He. unfold has_element_id. by rewrite Hf.
Qed.

Lemma findAssetSlot_update key f e s :
  findAssetSlot e key = Some s → sl_Key (f s) = sl_Key s → findAssetSlot (update_slot key f e) key = Some (f s).
Proof.
  unfold findAssetSlot, update_slot. cbn. intros Hs Hf.
  destruct (el_AssetSlots e) as [l|]; [|done]. cbn in *. apply find_update_first; [done|].
  apply find_elem in Hs as [_ Hs]. revert Hs. unfold has_slot_key. by rewrite Hf.
Qed.

Lemma put_revision_assets a r r' :
  List.find (has_revision_id (rv_ID r)) (ag_Revisions a) = Some r → plan_assets r' = plan_assets r →
  assets (put_revision r' a) = assets a.
Proof.
  intros Hr Hs. apply update_revision_assets. intros r0 Hr0.
  assert (rv_ID r' = rv_ID r) as Eid by (by injection Hs). rewrite Eid in Hr0. congruence.
Qed.

(** A revision that is in use, as it is stored. *)
Definition in_use (a : StoryboardAggregate) (r : StoryboardRevision) : Prop :=
  ag_ActiveRevisionID a ≠ "" ∧ rv_ID r = ag_ActiveRevisionID a ∧
  List.find (has_revision_id (ag_ActiveRevisionID a)) (ag_Revisions a) = Some r.

Lemma in_use_active a r : mutableActiveRevision a = Ok r ↔ in_use a r.
Proof.
  unfold mutableActiveRevision, in_use. case_bool_decide as E; [split; [done|by intros [? _]]|].
  destruct (List.find _ _) as [r0|] eqn:Ef; [|split; [done|by intros (_ & _ & ?)]].
  apply find_elem in Ef as [_ Hid%bool_decide_eq_true].
  split; [intros [= ->]; done|]. by intros (_ & _ & [= ->]).
Qed.

Lemma slot_is_in_use a r e s t k :
  in_use a r → findElement r t = Some e → findAssetSlot e k = Some s →
  current_asset a t k = Some (sl_ActiveBindingID s).
Proof. intros Hr He Hs. unfold current_asset. apply in_use_active in Hr. rewrite Hr, He. cbn. by rewrite Hs. Qed.

(** The candidate is attached to the slot and was made from the slot's
    input as it is now. *)
Record activation `{Digest} (a : StoryboardAggregate) (r : StoryboardRevision) (b : ArtifactBinding)
    (e : StoryboardElement) (s : AssetSlot) : Prop := {
  at_element : findElement r (bd_TargetID b) = Some e;
  at_slot : findAssetSlot e (bd_AssetSlot b) = Some s;
  at_attached : bd_ID b ∈ elems (sl_CandidateIDs s);
  at_current : let '(current, err) := ResolveGenerationInput a (el_ID e) (sl_Key s) in
               binding_is_current b e s current err = true
}.

Section activation.
Context `{Digest} `{Formatting}.

(** An activation shows the binding in its slot, or shows nothing new. *)
Lemma activateBinding_shows r id a b d a' :
  in_use a r → bindingByID a id = Some b → activateBinding r id a = (Ok d, a') →
  (d = BindingDispositionActive ∧ current_asset a' (bd_TargetID b) (bd_AssetSlot b) = Some id ∧
   set_state BindingStateActive b ∈ ag_Bindings a' ∧ ∃ e s, activation a r b e s) ∨
  (d = BindingDispositionSuperseded ∧ assets a' = assets a).
Proof.
  intros Hr Hb. unfold activateBinding. rewrite Hb.
  assert (bd_ID b = id) as Hid by (by apply find_elem in Hb as [_ ?%bool_decide_eq_true]).
  destruct (findElement r _) as [e|] eqn:He; [|done]. destruct (findAssetSlot e _) as [s|] eqn:Hs; [|done].
  case_bool_decide as Hin; cbn [negb]; [|done].
  destruct (ResolveGenerationInput a (el_ID e) (sl_Key s)) as [current err] eqn:Ei.
  destruct (binding_is_current b e s current err) eqn:Hcur; cbn [negb]; intros [= <- <-]; [left|by right].
  split_and!; [done| | |exists e, s; by split; [..|rewrite Ei]].
  - destruct Hr as (Hne & Hrid & Hfind). set (f := update_element _ _).
    set (upd := fun e => update_slot (bd_AssetSlot b) (activated_slot (bd_ID b)) e).
    rewrite <-Hid. change (bd_ID b) with (sl_ActiveBindingID (activated_slot (bd_ID b) s)).
    apply (slot_is_in_use _ (f r) (upd e)).
    + split_and!; [done|done|]. cbn. rewrite Hrid. apply find_update_first; [done|].
      by apply bool_decide_eq_true.
    + by apply findElement_updated.
    + by apply findAssetSlot_update.
  - set (a1 := a <| ag_Bindings := supersede_active b <$> ag_Bindings a |>).
    assert (bindingByID a1 id = Some (supersede_active b b)) as Hb'.
    { change (Some (supersede_active b b)) with (supersede_active b <$> Some b). rewrite <-Hb.
      apply find_fmap_same. intros c. unfold supersede_active. by case_match. }
    destruct (update_binding_insert id (set_state BindingStateActive) a1 _ Hb') as (i & Hi & E).
    apply list_elem_of_lookup. exists i. cbn. cbn in E. rewrite E, list_lookup_insert_eq by (by eapply lookup_lt_Some).
    f_equal. unfold supersede_active. by case_match.
Qed.

Lemma bind_candidate_shows now command fingerprint r e s b a d a' :
  in_use a r → findElement r (bc_TargetID command) = Some e → findAssetSlot e (bc_AssetSlot command) = Some s →
  bindingByID a (bd_ID b) = Some b → bd_TargetID b = el_ID e → bd_AssetSlot b = sl_Key s →
  bind_candidate now command fingerprint r s b a = (Ok d, a') →
  (d = BindingDispositionActive ∧ bc_Activate command = true ∧ sl_ReviewRequired s = false ∧
   current_asset a' (bc_TargetID command) (bc_AssetSlot command) = Some (bd_ID b)) ∨
  (d ≠ BindingDispositionActive ∧ assets a' = assets a).
Proof.
  intros Hr He Hs Hb Ht Hk. unfold bind_candidate. cbv zeta.
  assert (el_ID e = bc_TargetID command) as Hte by (by apply find_elem in He as [_ ?%bool_decide_eq_true]).
  assert (sl_Key s = bc_AssetSlot command) as Hks by (by apply find_elem in Hs as [_ ?%bool_decide_eq_true]).
  set (r1 := update_element _ _ r). set (a1 := put_revision r1 a).
  destruct (Hr) as (Hne & Hid & Hfind).
  assert (assets a1 = assets a) as Ha1.
  { apply (put_revision_assets a r); [by rewrite Hid|]. apply update_element_assets. intros e0.
    by apply update_slot_assets. }
  assert (in_use a1 r1) as Hr1.
  { split_and!; [done|done|]. cbn. rewrite Hid. apply (find_update_first _ (fun _ => r1) _ r); [done|].
    by apply bool_decide_eq_true. }
  destruct (bc_Activate command); destruct (sl_ReviewRequired s); cbn [andb negb];
    try (intros [= <- <-]; right; rewrite touch_assets; by split).
  destruct (activateBinding r1 (bd_ID b) a1) as [[d1|] a2] eqn:E; [|done].
  destruct (activateBinding_shows r1 (bd_ID b) a1 b d1 a2 Hr1 Hb E) as [(-> & Hcur & _)|[-> E2]].
  - rewrite bool_decide_true by done.
    pose proof (mark_closure_assets (rv_ID r1) (bd_TargetID b) (bd_AssetSlot b) a2) as E3.
    destruct (mark_closure _ _ _ _) as [stale a3]. cbn [snd] in E3. intros [= <- <-]. left. split_and!; [done..|].
    rewrite <-Hcur, Ht, Hk, Hte, Hks. apply current_asset_assets.
    by rewrite touch_assets, (rc_assets _ _ (supersedeInvalidCandidates_retires a3)).
  - rewrite bool_decide_false by done. intros [= <- <-]. right. rewrite touch_assets. split; [done|congruence].
Qed.

Lemma BindAsset_shows now command a d a' :
  checkAppliedCommand a (bc_CommandID command) (commandFingerprint (json_BindAssetCommand command)) = Ok false →
  BindAsset now command a = (Ok d, a') →
  ∃ r e s, mutableActiveRevision a = Ok r ∧ findElement r (bc_TargetID command) = Some e ∧
    findAssetSlot e (bc_AssetSlot command) = Some s ∧
    (token_is_current command a e s = false →
       d = BindingDispositionSuperseded ∧ ag_Revisions a' = ag_Revisions a ∧
       ag_Bindings a' = ag_Bindings a ++ [new_binding now command a e s BindingStateSuperseded]) ∧
    (d = BindingDispositionActive →
       token_is_current command a e s = true ∧ bc_Activate command = true ∧ sl_ReviewRequired s = false ∧
       current_asset a' (bc_TargetID command) (bc_AssetSlot command) = Some (TrimSpace (bc_BindingID command))) ∧
    (d ≠ BindingDispositionActive → assets a' = assets a).
Proof.
  intros Hc. unfold BindAsset. cbv zeta. intros [[? _]|[_ [_ Hk]%versioned_ok]]%once_ok; [congruence|]. revert Hk.
  case_match; [done|]. case_bool_decide as Hnew; [done|]. apply eq_None_not_Some in Hnew.
  destruct (mutableActiveRevision a) as [r|] eqn:Hr; [|done].
  destruct (findElement r _) as [e|] eqn:He; [|done]. destruct (findAssetSlot e _) as [s|] eqn:Hs; [|done].
  assert (el_ID e = bc_TargetID command) as Hte by (by apply find_elem in He as [_ ?%bool_decide_eq_true]).
  assert (sl_Key s = bc_AssetSlot command) as Hks by (by apply find_elem in Hs as [_ ?%bool_decide_eq_true]).
  unfold bind_asset. cbv zeta. set (b := new_binding now command a e s _).
  assert (bindingByID (a <| ag_Bindings := ag_Bindings a ++ [b] |>) (bd_ID b) = Some b) as Hb
    by (by apply bindingByID_snoc).
  assert (in_use (a <| ag_Bindings := ag_Bindings a ++ [b] |>) r) as Hu by (by apply in_use_active in Hr).
  intros Hk. exists r, e, s. split; [done|]. split; [done|]. split; [done|].
  revert b Hb Hu Hk. destruct (token_is_current command a e s); intros b Hb Hu.
  - intros [(-> & ? & ? & Hcur)|[Hd Ha]]%(bind_candidate_shows _ _ _ r e s b); try done.
  - intros [= <- <-]. rewrite touch_revisions, touch_bindings, touch_assets. by split_and!.
Qed.

(** C20. A late result never overwrites the plan.  Binding an asset to a slot is
    decided by the token of the request: when the revision of the target, of the
    prompt, the epoch of the slot or the fingerprint of its input have moved on, the
    asset is kept as a superseded binding and no plan is touched.
    Only the answer "active" changes what a slot shows, and it is given only to a current token
    for a slot without review, whose asset is then the new one. *)
Theorem late_result_never_overwrites now command a d a' :
  checkAppliedCommand a (bc_CommandID command) (commandFingerprint (json_BindAssetCommand command)) = Ok false →
  BindAsset now command a = (Ok d, a') →
  ∃ r e s, mutableActiveRevision a = Ok r ∧ findElement r (bc_TargetID command) = Some e ∧
    findAssetSlot e (bc_AssetSlot command) = Some s ∧
    (token_is_current command a e s = false →
       d = BindingDispositionSuperseded ∧ ag_Revisions a' = ag_Revisions a ∧
       ag_Bindings a' = ag_Bindings a ++ [new_binding now command a e s BindingStateSuperseded]) ∧
    (d = BindingDispositionActive →
       token_is_current command a e s = true ∧ bc_Activate command = true ∧ sl_ReviewRequired s = false ∧
       current_asset a' (bc_TargetID command) (bc_AssetSlot command) = Some (TrimSpace (bc_BindingID command))) ∧
    (d ≠ BindingDispositionActive → assets a' = assets a).
Proof. apply BindAsset_shows. Qed.

(** C21. An asset is activated only on the input it was made from.  A command that
    activates a candidate succeeds only for a candidate that waits for review in
    its slot, whose target, prompt and epoch are those of the plan and whose fingerprint is
    that of the input resolved now; the slot then shows it and it is active. *)
Theorem activation_needs_current_input now command a stale a' :
  checkAppliedCommand a (av_CommandID command) (commandFingerprint (json_ActivateBindingCommand command)) = Ok false →
  ActivateBinding now command a = (Ok stale, a') →
  ∃ r e s b, mutableActiveRevision a = Ok r ∧ bindingByID a (av_BindingID command) = Some b ∧
    bd_State b = BindingStateCandidate ∧ activation a r b e s ∧
    current_asset a' (bd_TargetID b) (bd_AssetSlot b) = Some (bd_ID b) ∧
    set_state BindingStateActive b ∈ ag_Bindings a'.
Proof.
  intros Hc. unfold ActivateBinding. cbv zeta. intros [[? _]|[_ [_ Hk]%versioned_ok]]%once_ok; [congruence|]. revert Hk.
  destruct (mutableActiveRevision a) as [r|] eqn:Hr; [|done]. apply in_use_active in Hr as Hu.
  destruct (candidate_binding a _) as [b|] eqn:Hb; [|done]. apply candidate_binding_ok in Hb as (Hb & Hs & Hid).
  destruct (activateBinding r (bd_ID b) a) as [[d|] a2] eqn:E; [|done].
  rewrite <-Hid in Hb.
  destruct (activateBinding_shows r (bd_ID b) a b d a2 Hu Hb E) as [(-> & Hcur & Hact & e & s & Hat)|[-> _]]; [|done].
  rewrite bool_decide_false by done.
  pose proof (mark_closure_assets (rv_ID r) (bd_TargetID b) (bd_AssetSlot b) a2) as E3.
  pose proof (mark_closure_bindings (rv_ID r) (bd_TargetID b) (bd_AssetSlot b) a2) as E4.
  destruct (mark_closure _ _ _ _) as [closure a3]. cbn [snd] in E3, E4. intros [= <- <-].
  destruct (supersedeInvalidCandidates_retires a3) as [E5 Hkeep].
  exists r, e, s, b. rewrite <-Hid. split_and!; try done.
  - rewrite <-Hcur. apply current_asset_assets. by rewrite touch_assets, E5.
  - rewrite touch_bindings. apply Hkeep; [by rewrite E4|done].
Qed.
End activation.

(** ** Plans *)

Lemma invalidated_slot_Key active candidate id prev s :
  sl_Key (invalidated_slot active candidate id prev s) = sl_Key s.
Proof. by injection (invalidated_slot_shape active candidate id prev s). Qed.

Lemma carried_slot_Key compatible previous s : sl_Key (carried_slot compatible previous s) = sl_Key s.
Proof. by injection (carried_slot_shape compatible previous s). Qed.

Lemma elem_of_map_elements f r e' :
  e' ∈ revision_elements (map_elements f r) ↔ ∃ e, e ∈ revision_elements r ∧ e' = f e.
Proof.
  unfold revision_elements, map_elements. cbn. rewrite list_elem_of_bind. split.
  - intros (m' & He & (m & -> & Hm)%list_elem_of_fmap). cbn in He. apply list_elem_of_fmap in He as (e & -> & He).
    exists e. split; [|done]. apply list_elem_of_bind. by exists m.
  - intros (e & (m & He & Hm)%list_elem_of_bind & ->). eexists. split; [|apply list_elem_of_fmap; by exists m].
    cbn. by apply list_elem_of_fmap_2.
Qed.

Lemma elem_of_slots (f : AssetSlot → AssetSlot) (l : goslice AssetSlot) s' :
  s' ∈ elems (fmap (M:=list) f <$> l) ↔ ∃ s, s ∈ elems l ∧ s' = f s.
Proof.
  rewrite elems_fmap, list_elem_of_fmap. naive_solver.
Qed.

(** The slot that a plan in use has for a slot of a new plan. *)
Definition previous_slot (active : StoryboardRevision) (targetID slotKey : string) : option (StoryboardElement * AssetSlot) :=
  revisionTargets (Some active) !! targetID ≫= fun e =>
    (e,.) <$> index_by sl_Key (elems (el_AssetSlots e)) !! slotKey.

(** What a slot of the new plan becomes. *)
Lemma rebased_slot active candidate e' s' o :
  e' ∈ revision_elements (rebaseApprovedAssets active candidate) → s' ∈ elems (el_AssetSlots e') →
  revisionTargets (Some active) !! el_ID e' = Some o →
  ∃ e s, e ∈ revision_elements candidate ∧ el_ID e = el_ID e' ∧
    s' = invalidated_slot active candidate (el_ID e) (index_by sl_Key (elems (el_AssetSlots o)))
           (match index_by sl_Key (elems (el_AssetSlots o)) !! sl_Key s with
            | Some p => carried_slot (generationCompatible o e) p s
            | None => s
            end).
Proof.
  unfold rebaseApprovedAssets, invalidateDependencyIncompatibleSlots. cbv zeta.
  intros (e2 & (e & He & ->)%elem_of_map_elements & ->)%elem_of_map_elements.
  destruct (revisionTargets (Some active) !! el_ID e) as [o'|] eqn:Ho'.
  - change (el_ID (reconcileAssetSlots e o' _)) with (el_ID e). rewrite Ho'. cbn -[revisionTargets].
    rewrite Ho'. intros Hs' [= <-].
    apply elem_of_slots in Hs' as (s2 & Hs2 & ->). apply elem_of_slots in Hs2 as (s & Hs & ->).
    by exists e, s.
  - rewrite Ho'. congruence.
Qed.

(** An asset is carried into a new plan only where nothing has changed.  When
    approved assets are rebased on a new plan, a slot that the old plan has
    too shows an asset only if the old slot showed that asset and was active, the two elements
    are compatible for generation, and what the slot depends on is the same in
    both plans. *)
Theorem carried_assets_are_compatible active candidate e' s' e0 s0 :
  e' ∈ revision_elements (rebaseApprovedAssets active candidate) → s' ∈ elems (el_AssetSlots e') →
  sl_ActiveBindingID s' ≠ "" → previous_slot active (el_ID e') (sl_Key s') = Some (e0, s0) →
  sl_ActiveBindingID s' = sl_ActiveBindingID s0 ∧ slot_active s0 = true ∧
  dependencySignature (rv_Dependencies active) (el_ID e') (sl_Key s')
    = dependencySignature (rv_Dependencies candidate) (el_ID e') (sl_Key s') ∧
  ∃ e, e ∈ revision_elements candidate ∧ el_ID e = el_ID e' ∧ generationCompatible e0 e = true.
Proof.
  intros He' Hs' Hne (o & Ho & (p & Hk & [= <- <-])%fmap_Some)%bind_Some.
  destruct (rebased_slot active candidate e' s' e0 He' Hs' Ho) as (e & s & He & Hid & ->).
  rewrite <-Hid. set (s1 := match _ !! _ with Some _ => _ | None => _ end) in *.
  rewrite invalidated_slot_Key in *.
  assert (sl_Key s1 = sl_Key s) as Hk1 by (unfold s1; case_match; [apply carried_slot_Key|done]).
  rewrite Hk1 in Hk. unfold s1 in *. rewrite Hk in *. clear s1.
  unfold invalidated_slot in *. rewrite carried_slot_Key, Hk in *.
  case_bool_decide as E1; [done|]. case_bool_decide as E2; [|done].
  unfold carried_slot in *. cbv zeta in *. destruct (generationCompatible e0 e) eqn:Hcomp; cbn [negb] in *; [|done].
  destruct (slot_active s0) eqn:Hact; cbn [negb] in *; [|done].
  split_and!; [done|done|done|by exists e].
Qed.

Lemma last_index_spec p l i : last_index p l = Some i → ∃ r, l !! i = Some r ∧ p r = true.
Proof.
  unfold last_index. assert (∀ j, (None : option nat) = Some j → ∃ r, l !! j = Some r ∧ p r = true) as H0 by done.
  revert H0. generalize (None : option nat) (seq 0 (length l)). intros found js. revert found.
  induction js as [|j js IH]; intros found Hf; cbn; [apply Hf|]. apply IH. intros k.
  destruct (l !! j) as [r|] eqn:Hj; [|apply Hf]. destruct (p r) eqn:E; [|apply Hf].
  intros [= <-]. by exists r.
Qed.

Lemma check_pending_None a revisionID :
  check_pending_id a revisionID = None →
  TrimSpace revisionID = "" ∨ TrimSpace revisionID = ag_PendingRevisionID a.
Proof. unfold check_pending_id. cbv zeta. repeat case_bool_decide; cbn; auto; done. Qed.

Section plans.
Context `{Digest} `{MapRange}.

Lemma supersedeUnreferenced_bindings r a :
  ag_Bindings (supersedeUnreferencedBindings r a)
  = (fun b => if bool_decide (bd_State b = BindingStateCandidate ∨ bd_State b = BindingStateActive)
                 && bool_decide (bd_ID b ∉ referenced_bindings r)
              then set_state BindingStateSuperseded b else b) <$> ag_Bindings a.
Proof.
  cbn. apply list_fmap_ext. intros i b _. repeat case_bool_decide; cbn; try done; tauto.
Qed.

(** What the promotion makes of the pending plan. *)
Definition promoted_plan now (previous : option (nat * StoryboardRevision)) (pending : StoryboardRevision) : StoryboardRevision :=
  match previous with
  | Some (_, active) => if rv_PreserveApprovedAssets pending then rebaseApprovedAssets active pending else pending
  | None => pending
  end <| rv_Status := RevisionStatusActive |> <| rv_UpdatedAt := now 1%nat |>.

Lemma promoted_plan_shape now previous pending :
  revision_shape (promoted_plan now previous pending) = revision_shape pending.
Proof.
  unfold promoted_plan. destruct previous as [[j active]|]; [|done].
  destruct (rv_PreserveApprovedAssets pending); [exact (rebase_shape active pending)|done].
Qed.

(** A plan under review changes nothing of the plan in use.  A new plan is
    accepted only when none is pending and the version is current; it is well formed and
    stored after the others, which stay as they are, with the bindings and the
    plan in use; and a rejection of the pending plan, too, leaves all other
    plans, the bindings and the plan in use as they were. *)
Theorem review_leaves_the_plan_in_use now commandID base :
  (∀ candidate preserve a v a',
     checkAppliedCommand a commandID (pending_fingerprint commandID base candidate preserve) = Ok false →
     CreatePendingRevision now commandID base candidate preserve a = (Ok v, a') →
     base = ag_Version a ∧ blank (ag_PendingRevisionID a) = true ∧
     (ag_ActiveRevisionID a', ag_PlanRevision a', ag_Bindings a') = (ag_ActiveRevisionID a, ag_PlanRevision a, ag_Bindings a) ∧
     ∃ r, ag_Revisions a' = ag_Revisions a ++ [r] ∧ wellformed r ∧ ag_PendingRevisionID a' = rv_ID r ∧
          ag_Status a' = AggregateStatusReviewing) ∧
  (∀ revisionID a a',
     checkAppliedCommand a commandID (decision_fingerprint commandID base revisionID) = Ok false →
     RejectPendingRevision now commandID base revisionID a = (Ok tt, a') →
     base = ag_Version a ∧ ag_PendingRevisionID a' = "" ∧
     (ag_ActiveRevisionID a', ag_PlanRevision a', ag_Bindings a') = (ag_ActiveRevisionID a, ag_PlanRevision a, ag_Bindings a) ∧
     ∃ i r r', ag_Revisions a !! i = Some r ∧ rv_ID r = ag_PendingRevisionID a ∧
       ag_Revisions a' = <[i := r']> (ag_Revisions a) ∧ rv_Status r' = RevisionStatusRejected).
Proof.
  split.
  - intros candidate preserve a v a' Hc. unfold CreatePendingRevision. cbv zeta.
    intros [[? _]|[_ [Hv Hk]%versioned_ok]]%once_ok; [congruence|]. revert Hk.
    destruct (blank (ag_PendingRevisionID a)); cbn [negb]; [|done].
    match goal with |- context[ReconcileRevision ?x ?y ?z] => destruct (ReconcileRevision x y z) as [normalized diff] end.
    destruct (ValidateRevision normalized) eqn:E; [done|]. apply validation_spec in E.
    intros [= _ <-]. rewrite touch_bindings, touch_revisions.
    match goal with |- context[touchCommand ?t commandID ?f ?x] => pose proof (touch_rest t commandID f x) as [= -> -> -> ->] end.
    split_and!; [done|done|done|]. eexists. split_and!; [done| |done|done]. by destruct E.
  - intros revisionID a a' Hc. unfold RejectPendingRevision. cbv zeta.
    intros [[? _]|[_ [Hv Hk]%versioned_ok]]%once_ok; [congruence|]. revert Hk.
    destruct (check_pending_id a revisionID); [done|]. cbn [check].
    destruct (List.find _ _) as [r|] eqn:E; [|done]. intros [= <-].
    rewrite touch_bindings, touch_revisions.
    match goal with |- context[touchCommand ?t commandID ?f ?x] => pose proof (touch_rest t commandID f x) as [= -> -> -> _] end.
    destruct (update_first_insert _ (fun r => r <| rv_Status := RevisionStatusRejected |> <| rv_UpdatedAt := now 0%nat |>) _ _ E)
      as (i & Hi & Eq).
    apply find_elem in E as [_ Hid%bool_decide_eq_true].
    split_and!; [done|done|done|]. eexists i, r, _. split_and!; [done|done|exact Eq|done].
Qed.

(** Promotion puts the reviewed plan in use.  The pending plan -- the one
    the caller names, if any is named -- becomes the plan in use under its id with the shape it
    was reviewed in, unchanged but for its status and for the assets that are
    rebased on it when it preserves them.  Exactly the candidates and
    active assets that no slot of it refers to retire. *)
Theorem promotion_puts_reviewed_plan_in_use now commandID base revisionID a v a' :
  checkAppliedCommand a commandID (decision_fingerprint commandID base revisionID) = Ok false →
  PromotePendingRevision now commandID base revisionID a = (Ok v, a') →
  base = ag_Version a ∧ (TrimSpace revisionID = "" ∨ TrimSpace revisionID = ag_PendingRevisionID a) ∧
  ag_ActiveRevisionID a' = ag_PendingRevisionID a ∧ ag_PendingRevisionID a' = "" ∧
  ag_PlanRevision a' = incr (ag_PlanRevision a) ∧
  ∃ i pending r', ag_Revisions a !! i = Some pending ∧ rv_ID pending = ag_PendingRevisionID a ∧
    ag_Revisions a' !! i = Some r' ∧ revision_shape r' = revision_shape pending ∧ rv_Status r' = RevisionStatusActive ∧
    (rv_PreserveApprovedAssets pending = false →
       r' = pending <| rv_Status := RevisionStatusActive |> <| rv_UpdatedAt := now 1%nat |>) ∧
    ag_Bindings a' = (fun b => if bool_decide (bd_State b = BindingStateCandidate ∨ bd_State b = BindingStateActive)
                                  && bool_decide (bd_ID b ∉ referenced_bindings r')
                               then set_state BindingStateSuperseded b else b) <$> ag_Bindings a.
Proof.
  intros Hc. unfold PromotePendingRevision. cbv zeta.
  intros [[? _]|[_ [Hv Hk]%versioned_ok]]%once_ok; [congruence|]. revert Hk.
  destruct (check_pending_id a revisionID) eqn:Ecp; [done|]. cbn [check].
  destruct (last_index _ _ ≫= _) as [[i pending]|] eqn:Ep; [|done].
  set (previous := last_index (has_revision_id (ag_ActiveRevisionID a)) (ag_Revisions a)
                   ≫= fun i => (i,.) <$> ag_Revisions a !! i).
  apply bind_Some in Ep as (k & Hlast & (r & Hr & [= <- <-])%fmap_Some).
  apply last_index_spec in Hlast as (r0 & Hr0 & [Hid%bool_decide_eq_true _]%andb_prop).
  assert (r0 = pending) as -> by congruence.
  unfold promoted. cbv zeta. intros [= _ <-]. rewrite touch_bindings, touch_revisions.
  match goal with |- context[touchCommand ?t commandID ?f ?x] => pose proof (touch_rest t commandID f x) as [= -> -> -> _] end.
  rewrite supersedeUnreferenced_bindings.
  change (match previous with Some _ => _ | None => pending end <| rv_Status := _ |> <| rv_UpdatedAt := _ |>)
    with (promoted_plan now previous pending).
  assert (rv_ID (promoted_plan now previous pending) = rv_ID pending) as Hpid
    by (apply revision_shape_ID, promoted_plan_shape).
  split; [done|]. split; [by apply check_pending_None|]. split; [exact (eq_trans Hpid Hid)|]. split; [done|]. split; [done|].
  exists i, pending, (promoted_plan now previous pending). split_and!; [done|done| |apply promoted_plan_shape|done| |done].
  - cbn. apply list_lookup_insert_eq. destruct previous as [[j q]|]; cbn; rewrite ?length_insert;
      by eapply lookup_lt_Some.
  - intros Hpres. unfold promoted_plan. rewrite Hpres. by destruct previous as [[]|].
Qed.
End plans.

(** ** Generated media always enters review *)

Lemma clone_assets a : assets (Clone a) = assets a.
Proof.
  unfold assets. cbn. f_equal. rewrite <-list_fmap_compose. apply list_fmap_ext. intros i r _.
  unfold compose, plan_assets. cbn. f_equal. unfold revision_elements. cbn.
  induction (rv_Modules r) as [|m l IH]; [done|]. rewrite fmap_cons, !bind_cons, !fmap_app, IH. f_equal.
  cbn. rewrite <-list_fmap_compose. apply list_fmap_ext. intros j e _. unfold compose, element_assets, clone_StoryboardElement.
  cbn [el_ID el_AssetSlots update_field eta_StoryboardElement]. f_equal.
  by rewrite elems_copy_slice, <-list_fmap_compose.
Qed.

Section service.
Context `{Digest} `{Formatting} `{MapRange} `{Clock} {X : Type}.

Local Ltac same_repo :=
  let Heq := fresh in intros Heq; apply (f_equal snd) in Heq; cbn in Heq; subst; by left.

Lemma SaveAggregate_saves t a v ev (w : bworld X) r w' :
  SaveAggregate t a v ev w = (r, w') → bw_repo w' = bw_repo w ∨ bw_repo w' = saved t a ev (bw_repo w) ∧ r = Ok tt.
Proof.
  unfold SaveAggregate, check. destruct (validateAggregateIdentity _); [same_repo|].
  unfold bind, b_get. match goal with |- context[mr_aggregates ?m !! ?k] => destruct (mr_aggregates m !! k) end; [|same_repo].
  repeat (case_match; [same_repo|]). cbv [b_put ret]. intros Heq. apply pair_equal_spec in Heq as [<- <-]. by right.
Qed.

(** A command leaves the repository or stores what its method has made of the
    stored storyboard. *)
Lemma run_command_saves {A B} sid cid fp replayed (method : (nat → Time) → agg (result A)) marked event (value : A → B)
    (w : bworld X) r w' :
  run_command sid cid fp replayed method marked event value w = (r, w') →
  bw_repo w' = bw_repo w ∨
  ∃ a now v a1 t ev, mr_aggregates (bw_repo w) !! TrimSpace sid = Some a ∧
    checkAppliedCommand (Clone a) cid fp = Ok false ∧ method now (Clone a) = (Ok v, a1) ∧
    r = Ok (marked v a1, value v) ∧ bw_repo w' = saved t (marked v a1) ev (bw_repo w).
Proof.
  unfold run_command, bind_ok. rewrite loadForCommand_ends.
  destruct (blank sid); [same_repo|].
  destruct (_ !! _) as [a|] eqn:Ha; [|same_repo]. rewrite <-checkApplied_clone.
  destruct (checkAppliedCommand (Clone a) cid fp) as [[]|e] eqn:Hc; [same_repo| |same_repo].
  unfold bind, b_clock. match goal with |- context[method ?n (Clone a)] => set (now := n) end.
  destruct (method now (Clone a)) as [[v|e] a1] eqn:Em; [|same_repo].
  match goal with |- context[SaveAggregate ?t ?b ?v ?ev ?w1] =>
    pose proof (SaveAggregate_saves t b v ev w1) as Hs; destruct (SaveAggregate t b v ev w1) as [[[]|e] w2] end;
    cbn [ret]; intros Heq; apply pair_equal_spec in Heq as [<- <-]; specialize (Hs _ _ eq_refl) as [Hs|[Hs Hok]];
    [by left| |by left|done].
  right. by eexists a, now, v, a1, _, _.
Qed.

(** C8. In the command service, generated media always enters review.  In every repository that
    calls of the service can reach -- storyboards are created and changed by
    its commands only, and the plans come from [ReconcileRevision], which makes every slot ask for review --
    recording the asset of a generation leaves what every slot of every plan
    shows as it was, whether or not the caller asks for its activation: the answer is never that
    the asset has become active, unless the command is a repetition.  (A slot whose flag has been
    cleared behind the service, by a save of the repository, is outside of this: see
    [late_result_never_overwrites] for a slot without review.) *)
Theorem media_always_enters_review (w : bworld X) command r w' id a :
  storyboards_reachable w → Bind command w = (r, w') → mr_aggregates (bw_repo w) !! id = Some a →
  (∃ a', mr_aggregates (bw_repo w') !! id = Some a' ∧ assets a' = assets a) ∧
  (∀ a1 d, id = TrimSpace (bc_StoryboardID command) → r = Ok (a1, d) →
     checkAppliedCommand a (bc_CommandID command) (commandFingerprint (json_BindAssetCommand command)) = Ok false →
     bw_repo w' ≠ bw_repo w → d ≠ BindingDispositionActive).
Proof.
  intros Hr Hrun Ha. pose proof (reachable_inv w Hr) as Hi.
  apply run_command_saves in Hrun as [E|(b & now & d & a1 & t & ev & Hb & Hc & Hm & -> & E)].
  { rewrite E. split; [by exists a|]. intros a1 d _ _ _ Hne. by destruct Hne. }
  destruct (BindAsset_shows now command (Clone b) d a1 Hc Hm) as (rv & e & s & Hrv & He & Hs & _ & Hact & Hkeep).
  assert (sl_ReviewRequired s = true) as Hreview.
  { pose proof (ri_plans _ Hi _ _ Hb) as Hp. apply (sound_plans_grow _ (ag_Revisions (Clone b))) in Hp;
      [|apply plans_same, clone_plans].
    apply in_use_active in Hrv as (_ & _ & Hrv%find_elem). destruct Hrv as [Hrv _].
    apply sound_plans_spelled in Hp. rewrite Forall_forall in Hp. destruct (Hp rv Hrv) as (_ & _ & Hslots).
    apply find_elem in He as [He _]. apply find_elem in Hs as [Hs _]. by apply (Hslots e s). }
  assert (d ≠ BindingDispositionActive) as Hd by (intros (_ & _ & Hf & _)%Hact; congruence).
  split.
  - unfold unmarked in E. rewrite E, aggregates_saved. case_bool_decide as Hid; [|by exists a].
    exists (Clone a1). split; [done|]. rewrite clone_assets, Hkeep, clone_assets by done. f_equal.
    assert (ag_ID a1 = ag_ID b) as Hab.
    { apply BindAsset_outcome in Hm as [[? _]|(_ & _ & Happ)]; [congruence|].
      by apply applied_committed, cm_id in Happ. }
    destruct (ri_filed _ Hi _ _ Hb) as (Eb & _). congruence.
  - by intros a2 d2 _ [= _ <-] _ _.
Qed.
End service.
