(* ===== verification/StoryboardWitness.v ===== *)
(** * Storyboards: concrete runs

    A small storyboard -- a hero whose portrait feeds the video of a scene -- taken
    through its life by calls of the service, and the theorems applied to it. *)

From Stdlib Require Import ZArith Lia.
From stdpp Require Import relations.
From S2P Require Import Prelude GoJson StoryboardModels StoryboardGraph StoryboardCommand StoryboardRevision.
From S2P Require Import StoryboardStore StoryboardValid StoryboardProps StoryboardRuns StoryboardPlans.

Module StoryboardRun.

(** The digest of a value is its text. *)
Fixpoint text (v : any) : string :=
  match v with
  | ANil => "null"
  | ABool b => if b then "true" else "false"
  | AInt z => pretty z
  | AFloat m e => pretty m +:+ "b" +:+ pretty e
  | AStr s => "'" +:+ s +:+ "'"
  | ATime t => "@" +:+ pretty t
  | AArr l => "[" +:+ (fix go l := match l with [] => "]" | v :: l => text v +:+ "," +:+ go l end) l
  | AObj l => "{" +:+ (fix go l := match l with [] => "}" | (k, v) :: l => k +:+ ":" +:+ text v +:+ "," +:+ go l end) l
  end.

#[export] Instance digest : Digest := {| sha256_json := text |}.
#[export] Instance formatting : Formatting := {| sprint_other := text |}.
#[export] Instance ticking : Clock := fun n => 1000 + Z.of_nat n.
#[export] Program Instance in_map_order : MapRange := {| map_range A m := map_to_list m |}.
Next Obligation. done. Qed.

Definition prompt (purpose text : string) (locked : bool) : PromptSlot :=
  mkPromptSlot purpose text "" 1 PromptStatusReady locked.
Definition slot (key kind : string) (review : bool) : AssetSlot :=
  mkAssetSlot key "" kind true review 1 "" None AssetSlotStatusMissing.
Definition element (id key : string) (p : PromptSlot) (s : AssetSlot) : StoryboardElement :=
  zeroStoryboardElement <| el_ID := id |> <| el_Key := key |> <| el_SemanticType := "shot" |> <| el_Revision := 1 |>
    <| el_PromptSlots := Some [p] |> <| el_AssetSlots := Some [s] |>.

Definition hero := element "hero" "hero" (prompt "portrait" "a fox" true) (slot "portrait" "image" false).
Definition scene := element "scene" "scene" (prompt "clip" "the fox runs" false) (slot "clip" "video" true).
Definition shots : StoryboardModule :=
  zeroStoryboardModule <| md_ID := "shots" |> <| md_Key := "shots" |> <| md_SemanticType := "shots" |>
    <| md_PlannedCount := 2 |> <| md_Revision := 1 |> <| md_Elements := [hero; scene] |>.
Definition edge : DependencyEdge := mkDependencyEdge "hero" "portrait" "scene" "clip" "uses".
Definition plan : StoryboardRevision :=
  zeroStoryboardRevision <| rv_ID := "r1" |> <| rv_Modules := [shots] |> <| rv_Dependencies := [edge] |>.

Definition propose (id : string) (version : Z) (candidate : StoryboardRevision) : CreatePendingRevisionCommand :=
  zeroCreatePendingRevisionCommand <| cp_CommandID := id |> <| cp_StoryboardID := "sb" |>
    <| cp_BaseVersion := version |> <| cp_Candidate := candidate |> <| cp_PreserveApprovedAssets := true |>.
Definition decide_plan (id : string) (version : Z) (decision : string) : DecidePendingRevisionCommand :=
  zeroDecidePendingRevisionCommand <| dp_CommandID := id |> <| dp_StoryboardID := "sb" |>
    <| dp_BaseVersion := version |> <| dp_Decision := decision |>.

Abbreviation aworld := (bworld unit).
Definition world0 : aworld := mkBWorld NewMemoryAggregateRepository 0 tt.
Definition world1 : aworld := (Create "sb" "session" world0).2.
Definition world2 : aworld := (run_call (CallCreatePending (propose "c1" 0 plan)) world1).2.
Definition world3 : aworld := (run_call (CallDecidePending (decide_plan "c2" 1 "approve")) world2).2.

Definition stored (w : aworld) : StoryboardAggregate := default zeroStoryboardAggregate (mr_aggregates (bw_repo w) !! "sb").

(** The token of a slot as it is now. *)
Definition bind_now (id binding target slot : string) (w : aworld) : BindAssetCommand :=
  let input := fst (ResolveGenerationInput (stored w) target slot) in
  zeroBindAssetCommand <| bc_CommandID := id |> <| bc_StoryboardID := "sb" |> <| bc_BaseVersion := ag_Version (stored w) |>
    <| bc_BindingID := binding |> <| bc_TargetID := target |> <| bc_AssetSlot := slot |> <| bc_AssetID := "asset-" +:+ binding |>
    <| bc_TargetRevision := gi_TargetRevision input |> <| bc_PromptRevision := gi_PromptRevision input |>
    <| bc_GenerationEpoch := gi_GenerationEpoch input |> <| bc_InputFingerprint := gi_Fingerprint input |> <| bc_Activate := true |>.
Definition activate (id binding : string) (version : Z) : ActivateBindingCommand :=
  mkActivateBindingCommand id "sb" version binding.

Definition bind1 : BindAssetCommand := bind_now "c3" "b1" "hero" "portrait" world3.
Definition world4 : aworld := (run_call (CallBind bind1) world3).2.
Definition activate1 : ActivateBindingCommand := activate "c4" "b1" 3.
Definition world5 : aworld := (run_call (CallActivate activate1) world4).2.

(** The prompt is edited after a second portrait has been ordered; its result is late. *)
Definition bind2 : BindAssetCommand := (bind_now "c6" "b2" "hero" "portrait" world5) <| bc_BaseVersion := 5 |>.
Definition edit : UpdatePromptCommand :=
  zeroUpdatePromptCommand <| up_CommandID := "c5" |> <| up_StoryboardID := "sb" |> <| up_BaseVersion := 4 |>
    <| up_TargetID := "hero" |> <| up_ExpectedTargetRevision := 1 |> <| up_Purpose := "portrait" |>
    <| up_ExpectedRevision := 1 |> <| up_Prompt := "an old fox" |>.
Definition world6 : aworld := (run_call (CallUpdatePrompt edit) world5).2.
Definition ended6 : aworld := (run_call (CallBind bind2) world6).2.

(** The first plan in use and as a candidate whose portrait the user has not locked. *)
Definition plan_used : StoryboardRevision := default plan (ag_Revisions (stored world5) !! 0%nat).
Definition unlocked : StoryboardElement := element "hero" "hero" (prompt "portrait" "a cat" false) (slot "portrait" "image" false).
Definition plan2 : StoryboardRevision :=
  plan <| rv_ID := "r2" |> <| rv_Modules := [shots <| md_Elements := [unlocked; scene] |>] |>.
Definition proposed2 : StoryboardRevision := fst (ReconcileRevision (Some plan_used) plan2 true).

(** The sample goes the way it is meant to. *)
Example late_result : (bd_ID <$> ag_Bindings (stored ended6), bd_State <$> ag_Bindings (stored ended6),
    current_asset (stored ended6) "hero" "portrait")
  = (["b1"; "b2"], [BindingStateActive; BindingStateSuperseded], Some "b1").
Proof. vm_compute. reflexivity. Qed.

Lemma succeeds {A W} (x : result A * W) :
  match x.1 with Ok _ => true | Err _ => false end = true → ∃ a, x = (Ok a, x.2).
Proof. destruct x as [[a|e] w]; [|done]. by exists a. Qed.

Lemma call_future c (w w' : aworld) : storyboard_future w w' → storyboard_future w (run_call c w').2.
Proof. intros Hf. eapply rtc_r; [exact Hf|constructor]. Qed.

Lemma reachable1 : storyboards_reachable world1.
Proof. exists world0. split; [done|]. apply rtc_once. constructor. Qed.
Lemma reachable3 : storyboards_reachable world3.
Proof. eapply reachable_future; [apply reachable1|]. do 2 apply call_future. done. Qed.
Lemma future35 : storyboard_future world3 world5.
Proof. do 2 apply call_future. done. Qed.
Lemma future46 : storyboard_future world4 world6.
Proof. do 2 apply call_future. done. Qed.
Lemma reachable4 : storyboards_reachable world4.
Proof. eapply reachable_future; [apply reachable3|]. by apply call_future. Qed.
Lemma reachable6 : storyboards_reachable world6.
Proof. eapply reachable_future; [apply reachable4|apply future46]. Qed.
End StoryboardRun.

Import StoryboardRun.
#[local] Existing Instances StoryboardRun.digest StoryboardRun.formatting StoryboardRun.ticking StoryboardRun.in_map_order.

Lemma dependency_check_accepts_exactly_dags_witness :
  NoDup (dependency_key <$> [edge]) ∧ ∀ x, ¬ tc (depends [edge]) x x.
Proof.
  apply (dependency_check_accepts_exactly_dags [edge] {["hero" := hero; "scene" := scene]}).
  - intros e ->%list_elem_of_singleton. split; vm_compute; by eexists.
  - vm_compute. reflexivity.
Defined.

Lemma change_makes_exactly_downstream_stale_witness :
  ∃ stale r', markDependencyClosure plan "hero" "portrait" = (stale, r') ∧
    is_Some (findElement r' "scene") ∧ ("scene" ∈ stale ↔ ∃ y, downstream plan ("hero", "portrait") y ∧ fst y = "scene").
Proof.
  destruct (change_makes_exactly_downstream_stale plan "hero" "portrait" "scene" scene eq_refl)
    as (stale & r' & e' & E & He & _ & _ & _ & Hs & _).
  exists stale, r'. split; [exact E|]. split; [by eexists|exact Hs].
Defined.

Lemma reconciliation_keeps_ids_apart_and_locks_witness :
  NoDup (target_ids (rv_Modules proposed2)) ∧
  ∃ e, e ∈ revision_elements proposed2 ∧ prompt "portrait" "a fox" true ∈ elems (el_PromptSlots e).
Proof.
  destruct (reconciliation_keeps_ids_apart_and_locks (Some plan_used) plan2 true) as [Hids Hlocks].
  split; [exact Hids|].
  assert (∃ m e l l', rv_Modules proposed2 = m :: l ∧ md_Elements m = e :: l' ∧ md_Key m = "shots" ∧ el_Key e = "hero")
    as (m & e & l & l' & Em & Ee & Hm & He) by (vm_compute; by eexists _, _, _, _).
  exists e. split; [unfold revision_elements; rewrite Em; cbn; rewrite Ee; left|].
  refine (Hlocks m e _ (prompt "portrait" "a fox" true) _ _ _ _ _ _).
  - fold proposed2. rewrite Em. left.
  - rewrite Ee. left.
  - rewrite Hm, He. vm_compute. reflexivity.
  - apply NoDup_singleton.
  - left.
  - reflexivity.
Defined.

Lemma storyboard_invariant_witness :
  ag_ID (stored world6) = "sb" ∧ NoDup (bd_ID <$> ag_Bindings (stored world6)) ∧
  length (events_of (bw_repo world6) "sb") = 5%nat.
Proof.
  assert (mr_aggregates (bw_repo world6) !! "sb" = Some (stored world6)) as E by (vm_compute; reflexivity).
  destruct (storyboard_invariant world6 "sb" (stored world6) reachable6 E) as (Hid & Hnd & _).
  split; [exact Hid|]. split; [exact Hnd|]. vm_compute. reflexivity.
Defined.

Lemma binding_lifecycle_witness :
  ∃ a' b', mr_aggregates (bw_repo world6) !! "sb" = Some a' ∧ ag_Bindings a' !! 0%nat = Some b' ∧
    bd_AssetID b' = "asset-b1".
Proof.
  assert (mr_aggregates (bw_repo world4) !! "sb" = Some (stored world4)) as E by (vm_compute; reflexivity).
  destruct (tested_Some (ag_Bindings (stored world4) !! 0%nat) (fun b => bool_decide (bd_AssetID b = "asset-b1")))
    as (b & Hb & Hasset%bool_decide_eq_true); [vm_compute; reflexivity|].
  destruct (binding_lifecycle world4 world6 "sb" (stored world4) 0 b reachable4 future46 E Hb)
    as (a' & b' & Ha' & Hb' & Heq & _).
  exists a', b'. split; [exact Ha'|]. split; [exact Hb'|]. rewrite Heq. exact Hasset.
Defined.


(** The plan proposed again. *)
Lemma repeated_plan_conflicts_witness :
  (run_call (CallCreatePending (propose "c1" 0 plan)) world3).1 = Err (Wrapf "" ErrIdempotencyConflict ": command c1").
Proof.
  destruct (succeeds (run_call (CallCreatePending (propose "c1" 0 plan)) world1)) as [a E];
    [vm_compute; reflexivity|]. fold world2 in E.
  destruct (tested_Some (go_lookup (ag_AppliedCommandHashes (stored world2)) "c1")
    (fun f => bool_decide (f ≠ commandFingerprint (json_CreatePendingRevisionCommand (propose "c1" 0 plan)))))
    as (f & Hf & Hne%bool_decide_eq_true); [vm_compute; reflexivity|].
  destruct (repeated_plan_conflicts world1 world2 world3 (propose "c1" 0 plan) a f reachable1) as (shared & _ & Er).
  - vm_compute. discriminate.
  - exact E.
  - apply (call_future (CallDecidePending (decide_plan "c2" 1 "approve"))). done.
  - exists (stored world2). split; [vm_compute; reflexivity|exact Hf].
  - exact Hne.
  - by rewrite Er.
Defined.

Lemma late_result_never_overwrites_witness :
  ∃ d a', BindAsset (fun n => 2000) bind2 (stored world6) = (Ok d, a') ∧
    d = BindingDispositionSuperseded ∧ ag_Revisions a' = ag_Revisions (stored world6).
Proof.
  destruct (succeeds (BindAsset (fun n => 2000) bind2 (stored world6))) as [d E];
    [vm_compute; reflexivity|]. set (a' := snd _) in E.
  destruct (late_result_never_overwrites (fun n => 2000) bind2 (stored world6) d a')
    as (r & e & s & Hr & He & Hs & Hlate & _); [vm_compute; reflexivity|exact E|].
  exists d, a'. split; [exact E|].
  assert (match mutableActiveRevision (stored world6) with
          | Ok r => findElement r (bc_TargetID bind2) ≫= fun e => token_is_current bind2 (stored world6) e <$> findAssetSlot e (bc_AssetSlot bind2)
          | Err _ => None end = Some false) as Ht by (vm_compute; reflexivity).
  rewrite Hr, He in Ht. cbn [mbind option_bind] in Ht. rewrite Hs in Ht.
  change (Some (token_is_current bind2 (stored world6) e s) = Some false) in Ht. apply Some_inj in Ht.
  destruct (Hlate Ht) as (Hd & Hrev & _). by split.
Defined.

Lemma activation_needs_current_input_witness :
  ∃ stale a', ActivateBinding (fun n => 2000) activate1 (stored world4) = (Ok stale, a') ∧
    current_asset a' "hero" "portrait" = Some "b1".
Proof.
  destruct (succeeds (ActivateBinding (fun n => 2000) activate1 (stored world4))) as [stale E];
    [vm_compute; reflexivity|]. set (a' := snd _) in E.
  destruct (activation_needs_current_input (fun n => 2000) activate1 (stored world4) stale a')
    as (r & e & s & b & _ & Hb & _ & _ & Hcur & _); [vm_compute; reflexivity|exact E|].
  exists stale, a'. split; [exact E|]. 
  assert ((fun b => (bd_TargetID b, bd_AssetSlot b, bd_ID b)) <$> bindingByID (stored world4) (av_BindingID activate1)
          = Some ("hero", "portrait", "b1")) as Hf by (vm_compute; reflexivity).
  rewrite Hb in Hf. change (Some (bd_TargetID b, bd_AssetSlot b, bd_ID b) = Some ("hero", "portrait", "b1")) in Hf.
  apply Some_inj in Hf. injection Hf as E1 E2 E3. rewrite <-E1, <-E2, <-E3. exact Hcur.
Defined.

(** The hero as it is in the plan in use is carried with its portrait. *)
Definition plan3 : StoryboardRevision := fst (ReconcileRevision (Some plan_used) (plan <| rv_ID := "r3" |>) true).

Lemma carried_assets_are_compatible_witness :
  ∃ e' s', e' ∈ revision_elements (rebaseApprovedAssets plan_used plan3) ∧ s' ∈ elems (el_AssetSlots e') ∧
    sl_ActiveBindingID s' = "b1" ∧
    ∃ e0 s0, previous_slot plan_used (el_ID e') (sl_Key s') = Some (e0, s0) ∧ sl_ActiveBindingID s' = sl_ActiveBindingID s0.
Proof.
  destruct (tested_Some (revision_elements (rebaseApprovedAssets plan_used plan3) !! 0%nat)
    (fun e => match elems (el_AssetSlots e) !! 0%nat with
              | Some s => bool_decide (sl_ActiveBindingID s = "b1") && bool_decide (is_Some (previous_slot plan_used (el_ID e) (sl_Key s)))
              | None => false end)) as (e' & He & Ht); [vm_compute; reflexivity|].
  destruct (elems (el_AssetSlots e') !! 0%nat) as [s'|] eqn:Hs; [|discriminate Ht].
  apply andb_prop in Ht as [Hb%bool_decide_eq_true [[e0 s0] Hp]%bool_decide_eq_true].
  apply list_elem_of_lookup_2 in He, Hs.
  exists e', s'. split; [exact He|]. split; [exact Hs|]. split; [exact Hb|]. exists e0, s0. split; [exact Hp|].
  eapply (carried_assets_are_compatible plan_used plan3 e' s' e0 s0 He Hs); [rewrite Hb; discriminate|exact Hp].
Defined.

Lemma promotion_puts_reviewed_plan_in_use_witness :
  ∃ v a', PromotePendingRevision (fun n => 2000) "c9" 1 "r1" (stored world2) = (Ok v, a') ∧
    ag_ActiveRevisionID a' = "r1".
Proof.
  destruct (succeeds (PromotePendingRevision (fun n => 2000) "c9" 1 "r1" (stored world2))) as [v E];
    [vm_compute; reflexivity|]. set (a' := snd _) in E.
  destruct (promotion_puts_reviewed_plan_in_use (fun n => 2000) "c9" 1 "r1" (stored world2) v a')
    as (_ & _ & Hactive & _); [vm_compute; reflexivity|exact E|].
  exists v, a'. split; [exact E|]. rewrite Hactive. vm_compute. reflexivity.
Defined.

Lemma media_always_enters_review_witness :
  ∃ a', mr_aggregates (bw_repo (Bind bind1 world3).2) !! "sb" = Some a' ∧ assets a' = assets (stored world3).
Proof.
  destruct (media_always_enters_review world3 bind1 _ _ "sb" (stored world3) reachable3 (surjective_pairing _))
    as [Ha _]; [vm_compute; reflexivity|]. exact Ha.
Defined.

Lemma review_leaves_the_plan_in_use_witness :
  ∃ v a', CreatePendingRevision (fun n => 2000) "c9" 5 plan2 true (stored world6) = (Ok v, a') ∧
    ag_ActiveRevisionID a' = "r1" ∧ ag_Bindings a' = ag_Bindings (stored world6).
Proof.
  destruct (succeeds (CreatePendingRevision (fun n => 2000) "c9" 5 plan2 true (stored world6))) as [v E];
    [vm_compute; reflexivity|]. set (a' := snd _) in E.
  destruct (review_leaves_the_plan_in_use (fun n => 2000) "c9" 5) as [Hcreate _].
  destruct (Hcreate plan2 true (stored world6) v a') as (_ & _ & Hkeep & _); [vm_compute; reflexivity|exact E|].
  exists v, a'. split; [exact E|]. apply pair_equal_spec in Hkeep as [[Hid _]%pair_equal_spec Hb]. split; [|exact Hb]. rewrite Hid. vm_compute. reflexivity.
Defined.
