(* ===== verification/Timed.v ===== *)
(** * Small stores: a state guarded by a mutex, and a clock

    The stores of specs and of artifacts need nothing of the world but their own
    maps and readings of the clock.  Every method runs under the store's lock and
    is one step. *)

From Stdlib Require Import ZArith Lia.
From stdpp Require Import relations.
From S2P Require Import Prelude GoJson.

Record timed (S : Type) := mkTimed { t_store : S; t_reads : nat }.
Arguments mkTimed {S}.
Arguments t_store {S}.
Arguments t_reads {S}.

Section timed.
Context `{Clock} {S : Type}.

Definition t_now : Eff (timed S) Time := fun w => (now_at (t_reads w), mkTimed (t_store w) (1 + t_reads w)).
Definition t_get : Eff (timed S) S := fun w => (t_store w, w).
Definition t_put (s : S) : Eff (timed S) unit := fun w => (tt, mkTimed s (t_reads w)).

(** Store [s] and answer [a]. *)
Definition t_commit {A} (s : S) (a : A) : Eff (timed S) (result A) :=
  let* _ := t_put s in ret (Ok a).

(** What a computation does to the store: nothing or one step of [R]. *)
Definition steps_by (R : S → S → Prop) {A} (c : Eff (timed S) A) : Prop :=
  ∀ w a w', c w = (a, w') → t_store w' = t_store w ∨ R (t_store w) (t_store w').

Lemma steps_by_ret R {A} (a : A) : steps_by R (ret a).
Proof. intros w b w' [= _ <-]. by left. Qed.

Lemma steps_by_fail R {A} e : steps_by R (fail (A := A) e).
Proof. apply steps_by_ret. Qed.

Lemma steps_by_get R {A} (k : S → Eff (timed S) A) :
  (∀ w a w', k (t_store w) w = (a, w') → t_store w' = t_store w ∨ R (t_store w) (t_store w')) →
  steps_by R (let* s := t_get in k s).
Proof. intros Hk w a w' E. by eapply Hk. Qed.

(** A run of a store: steps of [R] between other readings of the clock. *)
Definition store_step (R : S → S → Prop) (w w' : timed S) : Prop :=
  t_store w' = t_store w ∨ R (t_store w) (t_store w').

Lemma store_run (R : S → S → Prop) w w' : rtc (store_step R) w w' → rtc R (t_store w) (t_store w').
Proof.
  induction 1 as [w|w w1 w' Hs _ IH]; [done|]. destruct Hs as [E | Hs]; [by rewrite <-E|]. by eapply rtc_l.
Qed.

(** What every step keeps, a run keeps. *)
Lemma store_run_keeps (R : S → S → Prop) (P : S → Prop) s s' :
  (∀ s s', R s s' → P s → P s') → rtc R s s' → P s → P s'.
Proof. intros HP. induction 1; eauto. Qed.
End timed.

(** ** Selections by a test *)

Lemma filter_perm {A} (p : A → bool) l l' : l ≡ₚ l' → List.filter p l ≡ₚ List.filter p l'.
Proof.
  induction 1 as [|x l l' _ IH|x y l|l l1 l' _ IH1 _ IH2]; cbn; repeat case_match; auto using perm_swap.
  by etrans.
Qed.

Lemma filter_none {A} (p : A → bool) l : (∀ x, x ∈ l → p x = false) → List.filter p l = [].
Proof.
  induction l as [|x l IH]; intros H; cbn; [done|]. rewrite (H x) by left. apply IH. intros y Hy. apply H. by right.
Qed.

(** A test that one entry of a map passes selects it. *)
Lemma filter_unique `{MapRange} {A} (p : A → bool) (m : gmap string A) k v :
  m !! k = Some v → p v = true → (∀ k' v', m !! k' = Some v' → p v' = true → k' = k) →
  List.filter p ((map_range m).*2) = [v].
Proof.
  intros Hk Hp Hu. apply Permutation_singleton_r.
  rewrite (filter_perm p _ ((map_to_list m).*2)) by (apply fmap_Permutation, map_range_perm).
  rewrite <-(insert_delete_id m k v Hk).
  rewrite (filter_perm p _ (v :: (map_to_list (delete k m)).*2)).
  - cbn. rewrite Hp, filter_none; [done|]. intros x ([k' y] & -> & Hy%elem_of_map_to_list)%list_elem_of_fmap.
    apply lookup_delete_Some in Hy as [Hne Hy]. destruct (p y) eqn:E; [|done]. by destruct Hne; symmetry; eapply Hu.
  - rewrite (map_to_list_insert (delete k m)) by apply lookup_delete_eq. done.
Qed.

(** A concrete answer, by a test that evaluates. *)
Lemma answered {A W} (x : result A * W) (test : A → bool) :
  match x.1 with Ok a => test a | Err _ => false end = true → ∃ a, x = (Ok a, x.2) ∧ test a = true.
Proof. destruct x as [[a|e] w]; [|done]. by exists a. Qed.

Lemma answer_inj {A S} (a b : A) (s s' : S) : (Ok a, s) = (Ok b, s') → a = b ∧ s = s'.
Proof. by intros [= -> ->]. Qed.
