(* ===== verification/SpecStore.v ===== *)
(** * Specs: the store of creation specs, [internal/aigc/spec/models.go], [memory_store.go]

    A creation spec ([FinalVideoSpec]) has revisions; one revision of a session is
    under review at a time, one is confirmed.  The in-memory store with its
    fences, and the errors it shares with [postgres_store.go].  The option that
    replaces the clock is the instance of [Clock]; a nil store is not modelled. *)

From Stdlib Require Import ZArith Lia Ascii.
From stdpp Require Import relations.
From S2P Require Import Prelude GoJson SessionModels Timed.

Definition StatusDraft := "draft".
Definition StatusReviewing := "reviewing".
Definition StatusConfirmed := "confirmed".
Definition StatusRejected := "rejected".
Definition StatusSuperseded := "superseded".

Definition ErrNotFound := errors_New "final video spec not found".
Definition ErrNotLatestReviewing := errors_New "final video spec revision is not the latest reviewing revision".

Record FinalVideoSpec := mkFinalVideoSpec {
  fs_ID : string;
  fs_SessionID : string;
  fs_Version : Z;
  fs_Status : string;
  fs_IdempotencyKey : string;
  fs_Title : string;
  fs_VideoType : string;
  fs_TargetAudience : string;
  fs_OutputLanguage : string;
  fs_DurationSeconds : Z;
  fs_AspectRatio : string;
  fs_NarrativeDriver : string;
  fs_VisualStyle : string;
  fs_SoundStyle : string;
  fs_ModelPreference : string;
  fs_Markdown : string;
  fs_Fields : gomap any;
  fs_CreatedAt : Time;
  fs_UpdatedAt : Time
}.
#[global] Instance eta_FinalVideoSpec : Eta FinalVideoSpec := fun r =>
  mkFinalVideoSpec (fs_ID r) (fs_SessionID r) (fs_Version r) (fs_Status r) (fs_IdempotencyKey r)
  (fs_Title r) (fs_VideoType r) (fs_TargetAudience r) (fs_OutputLanguage r) (fs_DurationSeconds r)
  (fs_AspectRatio r) (fs_NarrativeDriver r) (fs_VisualStyle r) (fs_SoundStyle r)
  (fs_ModelPreference r) (fs_Markdown r) (fs_Fields r) (fs_CreatedAt r) (fs_UpdatedAt r).
Definition zeroFinalVideoSpec : FinalVideoSpec :=
  mkFinalVideoSpec "" "" 0 "" "" "" "" "" "" 0 "" "" "" "" "" "" None zeroTime zeroTime.

Record MemoryStore := mkMemoryStore {
  items : gmap string FinalVideoSpec;
  byKey : gmap string string
}.
#[global] Instance eta_MemoryStore : Eta MemoryStore := fun r => mkMemoryStore (items r) (byKey r).

Definition NewMemoryStore : MemoryStore := mkMemoryStore ∅ ∅.

(** [cloneSpecFields]: [any] values always have a JSON text, so no error. *)
Definition cloneSpecFields (fields : gomap any) : gomap any := cloneMap fields.
Definition cloneSpec (value : FinalVideoSpec) : FinalVideoSpec :=
  value <| fs_Fields := cloneSpecFields (fs_Fields value) |>.

Definition specRevisionKey (specID : string) (version : Z) : string :=
  TrimSpace specID +:+ nul +:+ pretty version.

(** The comparison of [sortSpecs]: the newest first. *)
Definition spec_less (a b : FinalVideoSpec) : bool :=
  if negb (fs_CreatedAt a =? fs_CreatedAt b) then After (fs_CreatedAt a) (fs_CreatedAt b)
  else if negb (fs_Version a =? fs_Version b) then fs_Version b <? fs_Version a
  else String.ltb (fs_ID b) (fs_ID a).
Definition sortSpecs (l : list FinalVideoSpec) : list FinalVideoSpec := sort_slice spec_less l.

Definition latestSpec (l : list FinalVideoSpec) (description : string) : result FinalVideoSpec :=
  match sortSpecs l with
  | [] => Err (Wrapf "" ErrNotFound (": " +:+ description))
  | first :: _ => Ok (cloneSpec first)
  end.

(** The bodies of the two loops that supersede what is in the way. *)
Definition supersede_status (sessionID status : string) (now : Time) (previous : FinalVideoSpec) : FinalVideoSpec :=
  if bool_decide (fs_SessionID previous = sessionID) && bool_decide (fs_Status previous = status)
  then previous <| fs_Status := StatusSuperseded |> <| fs_UpdatedAt := now |>
  else previous.

Definition supersede_other (recordKey sessionID status : string) (now : Time) (key : string)
    (previous : FinalVideoSpec) : FinalVideoSpec :=
  if bool_decide (key = recordKey) then previous else supersede_status sessionID status now previous.

Section memory_store.
Context `{MapRange}.

Definition filterLocked (s : MemoryStore) (match_ : FinalVideoSpec → bool) : list FinalVideoSpec :=
  cloneSpec <$> List.filter match_ ((map_range (items s)).*2).

Definition nextVersionLocked (s : MemoryStore) (specID : string) : Z :=
  incr (foldl (fun version '(_, value) =>
          if bool_decide (fs_ID value = specID) && (version <? fs_Version value) then fs_Version value else version)
        0 (map_range (items s))).

Definition in_status (sessionID status : string) (value : FinalVideoSpec) : bool :=
  bool_decide (fs_SessionID value = sessionID) && bool_decide (fs_Status value = status).

Definition latestReviewingLocked (s : MemoryStore) (sessionID : string) : option FinalVideoSpec :=
  head (sortSpecs (filterLocked s (in_status sessionID StatusReviewing))).

Context `{Clock}.

(** What [Save] files: version and status by default, times from the clock. *)
Definition saved_spec (value : FinalVideoSpec) (version : Z) (now : Time) : FinalVideoSpec :=
  value <| fs_Version := version |>
    <| fs_Status := if bool_decide (fs_Status value = "") then StatusDraft else fs_Status value |>
    <| fs_CreatedAt := timeOr (fs_CreatedAt value) now |> <| fs_UpdatedAt := now |>.

Definition Save (value : FinalVideoSpec) : Eff (timed MemoryStore) (result FinalVideoSpec) :=
  let value := value <| fs_ID := TrimSpace (fs_ID value) |> in
  let value := value <| fs_SessionID := TrimSpace (fs_SessionID value) |> in
  let value := value <| fs_IdempotencyKey := TrimSpace (fs_IdempotencyKey value) |> in
  if bool_decide (fs_ID value = "") then fail (Errorf "final video spec id is required")
  else if bool_decide (fs_SessionID value = "") then fail (Errorf "session id is required")
  else
    let value := value <| fs_Fields := cloneSpecFields (fs_Fields value) |> in
    let* s := t_get in
    match (if bool_decide (fs_IdempotencyKey value = "") then None else byKey s !! fs_IdempotencyKey value) with
    | Some recordKey => ret (Ok (cloneSpec (default zeroFinalVideoSpec (items s !! recordKey))))
    | None =>
        let version := if fs_Version value <=? 0 then nextVersionLocked s (fs_ID value) else fs_Version value in
        let recordKey := specRevisionKey (fs_ID value) version in
        if bool_decide (is_Some (items s !! recordKey))
        then fail (Errorf ("final video spec revision already exists: " +:+ fs_ID value +:+ " version=" +:+ pretty version))
        else
          let* now := t_now in
          let value := saved_spec value version now in
          let kept := if bool_decide (fs_Status value = StatusReviewing)
            then supersede_status (fs_SessionID value) StatusReviewing now <$> items s else items s in
          t_commit (s <| items := <[recordKey := cloneSpec value]> kept |>
                      <| byKey := if bool_decide (fs_IdempotencyKey value = "") then byKey s
                                  else <[fs_IdempotencyKey value := recordKey]> (byKey s) |>)
            (cloneSpec value)
    end.

Definition latest_by (match_ : FinalVideoSpec → bool) (description : string)
    : Eff (timed MemoryStore) (result FinalVideoSpec) :=
  let* s := t_get in ret (latestSpec (filterLocked s match_) description).

Definition Get (specID : string) : Eff (timed MemoryStore) (result FinalVideoSpec) :=
  latest_by (fun value => bool_decide (fs_ID value = TrimSpace specID)) specID.

Definition GetByIdempotencyKey (key : string) : Eff (timed MemoryStore) (result FinalVideoSpec) :=
  let* s := t_get in
  match byKey s !! TrimSpace key with
  | None => fail (Wrapf "" ErrNotFound (": idempotency_key=" +:+ key))
  | Some recordKey => ret (Ok (cloneSpec (default zeroFinalVideoSpec (items s !! recordKey))))
  end.

Definition GetLatestBySession (sessionID : string) : Eff (timed MemoryStore) (result FinalVideoSpec) :=
  let sessionID := TrimSpace sessionID in
  latest_by (fun value => bool_decide (fs_SessionID value = sessionID)) ("session=" +:+ sessionID).

Definition GetLatestReviewingBySession (sessionID : string) : Eff (timed MemoryStore) (result FinalVideoSpec) :=
  let sessionID := TrimSpace sessionID in
  latest_by (in_status sessionID StatusReviewing) ("reviewing session=" +:+ sessionID).

Definition GetConfirmedBySession (sessionID : string) : Eff (timed MemoryStore) (result FinalVideoSpec) :=
  let sessionID := TrimSpace sessionID in
  latest_by (in_status sessionID StatusConfirmed) ("confirmed session=" +:+ sessionID).

Definition revision_not_found {A} (specID : string) (version : Z) : Eff (timed MemoryStore) (result A) :=
  fail (Wrapf "" ErrNotFound (": " +:+ specID +:+ " version=" +:+ pretty version)).

Definition GetRevision (specID : string) (version : Z) : Eff (timed MemoryStore) (result FinalVideoSpec) :=
  let* s := t_get in
  match items s !! specRevisionKey specID version with
  | None => revision_not_found specID version
  | Some value => ret (Ok (cloneSpec value))
  end.

Definition decided_spec (value : FinalVideoSpec) (targetStatus : string) (now : Time) : FinalVideoSpec :=
  value <| fs_Status := targetStatus |> <| fs_UpdatedAt := now |>.

Definition DecideRevision (specID : string) (version : Z) (approved : bool)
    : Eff (timed MemoryStore) (result FinalVideoSpec) :=
  let* s := t_get in
  let recordKey := specRevisionKey specID version in
  match items s !! recordKey with
  | None => revision_not_found specID version
  | Some value =>
      let targetStatus := if approved then StatusConfirmed else StatusRejected in
      if bool_decide (fs_Status value = targetStatus) then ret (Ok (cloneSpec value))
      else if negb (bool_decide (fs_Status value = StatusReviewing))
      then fail (Errorf ("final video spec revision cannot transition from " +:+ fs_Status value))
      else if match latestReviewingLocked s (fs_SessionID value) with
              | None => true
              | Some latest => negb (bool_decide (fs_ID latest = fs_ID value))
                               || negb (fs_Version latest =? fs_Version value)
              end
      then fail (Wrapf "" ErrNotLatestReviewing
             (": current=" +:+ fs_ID value +:+ " version=" +:+ pretty (fs_Version value)))
      else
        let* now := t_now in
        let kept := if approved
          then map_imap (fun key previous =>
                 Some (supersede_other recordKey (fs_SessionID value) StatusConfirmed now key previous)) (items s)
          else items s in
        let value := decided_spec value targetStatus now in
        t_commit (s <| items := <[recordKey := value]> kept |>) (cloneSpec value)
  end.
End memory_store.
