(* ===== verification/SpecProps.v ===== *)
(** * Specs: one revision under review, one decision each

    The invariant of the store of specs, what its methods change, and the two
    theorems about reviews. *)

From Stdlib Require Import ZArith Lia Ascii.
From stdpp Require Import relations.
From S2P Require Import Prelude GoJson SessionModels Timed SpecStore.

(** What is under a key of the store. *)
Definition spec_filed (key : string) (v : FinalVideoSpec) : Prop :=
  key = specRevisionKey (fs_ID v) (fs_Version v) ∧ TrimSpace (fs_ID v) = fs_ID v ∧
  TrimSpace (fs_SessionID v) = fs_SessionID v ∧ cloneSpec v = v.

Record spec_inv (s : MemoryStore) : Prop := {
  si_filed k v : items s !! k = Some v → spec_filed k v;
  si_reviewing k k' v v' : items s !! k = Some v → items s !! k' = Some v' →
    fs_Status v = StatusReviewing → fs_Status v' = StatusReviewing → fs_SessionID v = fs_SessionID v' → k = k';
  si_byKey ik k : byKey s !! ik = Some k → ∃ v, items s !! k = Some v ∧ fs_IdempotencyKey v = ik
}.

(** A revision changes in its status only, and that only forward. *)
Definition status_follows (old new : string) : Prop :=
  new = old ∨ old = StatusReviewing ∧ (new = StatusConfirmed ∨ new = StatusRejected ∨ new = StatusSuperseded)
  ∨ old = StatusConfirmed ∧ new = StatusSuperseded.

Definition spec_follows (v v' : FinalVideoSpec) : Prop :=
  v' = decided_spec v (fs_Status v') (fs_UpdatedAt v') ∧ status_follows (fs_Status v) (fs_Status v').

(** A change of the store: every revision stays or goes on, a new one under review
    is alone, and keys are never taken twice. *)
Record spec_change (s s' : MemoryStore) : Prop := {
  sg_follow k v : items s !! k = Some v → ∃ v', items s' !! k = Some v' ∧ spec_follows v v';
  sg_new k v : items s !! k = None → items s' !! k = Some v → spec_filed k v ∧
    (fs_Status v = StatusReviewing → ∀ k' v', k' ≠ k → items s' !! k' = Some v' →
       fs_SessionID v' = fs_SessionID v → fs_Status v' ≠ StatusReviewing);
  sg_byKey ik k : byKey s' !! ik = Some k → byKey s !! ik = Some k ∨
    ∃ v, items s' !! k = Some v ∧ fs_IdempotencyKey v = ik
}.

(** *** Superseding *)

Lemma supersede_follows sid st now v :
  st = StatusReviewing ∨ st = StatusConfirmed → spec_follows v (supersede_status sid st now v).
Proof.
  intros Hst. unfold supersede_status, spec_follows, status_follows.
  destruct (_ && _) eqn:E; [|by destruct v; split; [|left]].
  apply andb_prop in E as [_ E%bool_decide_eq_true]. split; [by destruct v|]. cbn.
  destruct Hst as [-> | ->]; naive_solver.
Qed.

Lemma supersede_other_follows k sid st now key v :
  st = StatusReviewing ∨ st = StatusConfirmed → spec_follows v (supersede_other k sid st now key v).
Proof.
  intros Hst. unfold supersede_other. case_bool_decide; [by destruct v; split; [|left]|by apply supersede_follows].
Qed.

Lemma follows_filed k v v' : spec_follows v v' → spec_filed k v → spec_filed k v'.
Proof. intros [-> _] (Hk & H1 & H2 & H3). repeat split; try done. by destruct v; injection H3 as H3; unfold cloneSpec, decided_spec; cbn; rewrite H3. Qed.

Lemma follows_key v v' : spec_follows v v' →
  fs_SessionID v' = fs_SessionID v ∧ fs_IdempotencyKey v' = fs_IdempotencyKey v ∧
  (fs_Status v' = StatusReviewing → fs_Status v = StatusReviewing).
Proof.
  intros [-> Hs]. repeat split. cbn. intros E. unfold status_follows in Hs. rewrite E in Hs. naive_solver.
Qed.

Lemma superseded_gone sid st now v : st ≠ StatusSuperseded →
  fs_SessionID v = sid → fs_Status (supersede_status sid st now v) ≠ st.
Proof.
  intros Hst Hs. unfold supersede_status. rewrite (bool_decide_eq_true_2 _ Hs). cbn [andb].
  case_bool_decide as E; [by cbn|done].
Qed.

Lemma lookup_kept (m : gmap string FinalVideoSpec) (b : bool) k sid now key :
  (if b then map_imap (fun key previous => Some (supersede_other k sid StatusConfirmed now key previous)) m else m) !! key
  = (fun v => if b then supersede_other k sid StatusConfirmed now key v else v) <$> m !! key.
Proof. destruct b; [|by destruct (m !! key)]. rewrite map_lookup_imap. by destruct (m !! key). Qed.

Lemma lookup_saved (m : gmap string FinalVideoSpec) (b : bool) sid now key :
  (if b then supersede_status sid StatusReviewing now <$> m else m) !! key
  = (fun v => if b then supersede_status sid StatusReviewing now v else v) <$> m !! key.
Proof. destruct b; [by rewrite lookup_fmap|by destruct (m !! key)]. Qed.

Lemma follows_refl v : spec_follows v v.
Proof. split; [by destruct v|by left]. Qed.

(** ** The two changes *)

Lemma save_change s v now :
  let key := specRevisionKey (fs_ID v) (fs_Version v) in
  items s !! key = None → spec_filed key v →
  spec_change s (mkMemoryStore
    (<[key := v]> (if bool_decide (fs_Status v = StatusReviewing)
       then supersede_status (fs_SessionID v) StatusReviewing now <$> items s else items s))
    (if bool_decide (fs_IdempotencyKey v = "") then byKey s else <[fs_IdempotencyKey v := key]> (byKey s))).
Proof.
  intros key Hnew Hf. split; cbn [items byKey].
  - intros k u Hk. rewrite lookup_insert_ne by congruence. rewrite lookup_saved, Hk. eexists. split; [reflexivity|].
    case_bool_decide; [apply supersede_follows; by left|apply follows_refl].
  - intros k u Hk Hu. destruct (decide (k = key)) as [->|Hne];
      [|by rewrite lookup_insert_ne, lookup_saved, Hk in Hu by done].
    rewrite lookup_insert_eq in Hu. injection Hu as <-. split; [done|]. intros Hr k' u' Hne Hu' Hs.
    rewrite lookup_insert_ne, lookup_saved, (bool_decide_eq_true_2 _ Hr) in Hu' by done.
    destruct (items s !! k') as [u0|]; [|done]. cbn in Hu'. injection Hu' as <-.
    apply superseded_gone; [done|]. rewrite <-Hs. symmetry. apply follows_key, supersede_follows. by left.
  - intros ik k Hik. case_bool_decide; [by left|]. apply lookup_insert_Some in Hik as [[<- <-]|[_ ?]]; [|by left].
    right. exists v. split; [by rewrite lookup_insert_eq|done].
Qed.

Lemma decide_change s k v (approved : bool) now :
  items s !! k = Some v → fs_Status v = StatusReviewing →
  spec_change s (mkMemoryStore
    (<[k := decided_spec v (if approved then StatusConfirmed else StatusRejected) now]>
       (if approved then map_imap (fun key previous =>
          Some (supersede_other k (fs_SessionID v) StatusConfirmed now key previous)) (items s) else items s))
    (byKey s)).
Proof.
  intros Hv Hst. split; cbn [items byKey]; [| |by left].
  - intros k' u Hu. destruct (decide (k = k')) as [<-|Hne].
    + rewrite lookup_insert_eq. eexists. split; [done|]. simplify_eq. split; [by destruct v|]. right. left.
      split; [done|]. destruct approved; cbn; auto.
    + rewrite lookup_insert_ne, lookup_kept, Hu by done. eexists. split; [reflexivity|].
      destruct approved; [apply supersede_other_follows; by right|apply follows_refl].
  - intros k' u Hk' Hu. destruct (decide (k = k')) as [<-|Hne]; [congruence|].
    by rewrite lookup_insert_ne, lookup_kept, Hk' in Hu.
Qed.

(** ** The invariant *)

Lemma reviewing_before s s' k v :
  spec_change s s' → items s' !! k = Some v → fs_Status v = StatusReviewing → items s !! k ≠ None →
  ∃ u, items s !! k = Some u ∧ fs_Status u = StatusReviewing ∧ fs_SessionID u = fs_SessionID v.
Proof.
  intros Hc Hk Hr Hn. destruct (items s !! k) as [u|] eqn:E; [|done]. exists u. split; [done|].
  destruct (sg_follow _ _ Hc _ _ E) as (v' & Hv' & Hf). simplify_eq.
  destruct (follows_key _ _ Hf) as (? & _ & ?). auto.
Qed.

Lemma spec_change_inv s s' : spec_change s s' → spec_inv s → spec_inv s'.
Proof.
  intros Hc Hi. split.
  - intros k v' Hv'. destruct (items s !! k) as [v|] eqn:E; [|by apply (sg_new _ _ Hc)].
    destruct (sg_follow _ _ Hc _ _ E) as (u & Hu & Hf). simplify_eq.
    eapply follows_filed; [exact Hf|by eapply si_filed].
  - intros k k' v v' Hk Hk' Hr Hr' Hss. destruct (decide (k = k')) as [|Hne]; [done|exfalso].
    destruct (decide (items s !! k = None)) as [E|E].
    { by eapply (proj2 (sg_new _ _ Hc _ _ E Hk) Hr k' v'). }
    destruct (decide (items s !! k' = None)) as [E'|E'].
    { by eapply (proj2 (sg_new _ _ Hc _ _ E' Hk') Hr' k v). }
    destruct (reviewing_before _ _ _ _ Hc Hk Hr E) as (a & Ha & Hra & Hsa).
    destruct (reviewing_before _ _ _ _ Hc Hk' Hr' E') as (b & Hb & Hrb & Hsb).
    apply Hne. eapply (si_reviewing _ Hi k k' a b); try done. congruence.
  - intros ik k [(v & Hv & Hkv)%(si_byKey _ Hi)|?]%(sg_byKey _ _ Hc); [|done].
    destruct (sg_follow _ _ Hc _ _ Hv) as (v' & Hv' & Hf).
    destruct (follows_key _ _ Hf) as (_ & E & _). exists v'. split; [done|congruence].
Qed.

Lemma initial_spec_inv : spec_inv NewMemoryStore.
Proof. by split. Qed.

Lemma status_follows_trans a b c : status_follows a b → status_follows b c → status_follows a c.
Proof. unfold status_follows. intros H1 H2. naive_solver. Qed.

Lemma spec_follows_trans a b c : spec_follows a b → spec_follows b c → spec_follows a c.
Proof.
  intros [-> H1] [-> H2]. split; [by destruct a|]. eapply status_follows_trans; [exact H1|exact H2].
Qed.

Lemma run_follows s s' k v :
  rtc spec_change s s' → items s !! k = Some v → ∃ v', items s' !! k = Some v' ∧ spec_follows v v'.
Proof.
  intros Hr. revert v. induction Hr as [s|s s1 s' Hc _ IH]; intros v Hv; [by eauto using follows_refl|].
  destruct (sg_follow _ _ Hc _ _ Hv) as (v1 & Hv1 & Hf). destruct (IH _ Hv1) as (v2 & Hv2 & Hf2).
  eauto using spec_follows_trans.
Qed.

(** ** The methods *)

Section methods.
Context `{MapRange} `{Clock}.
Implicit Types (w : timed MemoryStore).

(** The commands of the store and its queries. *)
Inductive spec_command : Type :=
| SSave (value : FinalVideoSpec)
| SDecide (specID : string) (version : Z) (approved : bool)
| SGet (specID : string)
| SGetByIdempotencyKey (key : string)
| SGetLatestBySession (sessionID : string)
| SGetLatestReviewingBySession (sessionID : string)
| SGetConfirmedBySession (sessionID : string)
| SGetRevision (specID : string) (version : Z).

Definition run_command (c : spec_command) : Eff (timed MemoryStore) (result FinalVideoSpec) :=
  match c with
  | SSave value => Save value
  | SDecide specID version approved => DecideRevision specID version approved
  | SGet specID => Get specID
  | SGetByIdempotencyKey key => GetByIdempotencyKey key
  | SGetLatestBySession sessionID => GetLatestBySession sessionID
  | SGetLatestReviewingBySession sessionID => GetLatestReviewingBySession sessionID
  | SGetConfirmedBySession sessionID => GetConfirmedBySession sessionID
  | SGetRevision specID version => GetRevision specID version
  end.

Lemma cloneSpec_idem v : cloneSpec (cloneSpec v) = cloneSpec v.
Proof. unfold cloneSpec, cloneSpecFields. cbn. by rewrite cloneMap_idem. Qed.

Lemma Save_change value : steps_by spec_change (Save value).
Proof.
  unfold Save. do 2 (destruct (bool_decide _); [apply steps_by_fail|]).
  apply steps_by_get. intros w a w'. match goal with |- context [if ?b then None else ?o] => destruct (if b then None else o) end; [intros [= _ <-]; by left|].
  destruct (bool_decide (is_Some _)) eqn:Ex; [intros [= _ <-]; by left|]. intros [= _ <-]. right. cbn [t_store].
  apply bool_decide_eq_false, eq_None_not_Some in Ex. set (u := saved_spec _ _ _).
  apply (save_change (t_store w) (cloneSpec u) (now_at (t_reads w))); [exact Ex|]. split_and!.
  - done.
  - cbn. apply TrimSpace_idem.
  - cbn. apply TrimSpace_idem.
  - apply cloneSpec_idem.
Qed.

Lemma DecideRevision_change specID version approved : steps_by spec_change (DecideRevision specID version approved).
Proof.
  unfold DecideRevision, revision_not_found. apply steps_by_get. intros w a w'.
  destruct (items _ !! _) as [v|] eqn:Ev; [|intros [= _ <-]; by left].
  destruct (bool_decide _); [intros [= _ <-]; by left|].
  destruct (bool_decide (fs_Status v = StatusReviewing)) eqn:Er; [|intros [= _ <-]; by left]. cbn [negb].
  match goal with |- context [if ?b then fail _ else _] => destruct b end; [intros [= _ <-]; by left|].
  intros [= _ <-]. right. apply bool_decide_eq_true in Er. by apply decide_change.
Qed.

Lemma run_command_change c : steps_by spec_change (run_command c).
Proof.
  destruct c; cbn [run_command]; try (intros w a w' [= _ <-]; by left);
    [apply Save_change|apply DecideRevision_change|..].
  - apply steps_by_get. intros w a w'. destruct (byKey _ !! _); intros [= _ <-]; by left.
  - unfold GetRevision, revision_not_found. apply steps_by_get. intros w a w'. destruct (items _ !! _); intros [= _ <-]; by left.
Qed.

(** ** Runs *)

Inductive spec_step w : timed MemoryStore → Prop :=
| step_command c a w' : run_command c w = (a, w') → spec_step w w'
| step_clock n : spec_step w (mkTimed (t_store w) n).

Definition spec_future : timed MemoryStore → timed MemoryStore → Prop := rtc spec_step.
Definition specs_reachable w : Prop := ∃ w0, t_store w0 = NewMemoryStore ∧ spec_future w0 w.

Lemma future_changes w w' : spec_future w w' → rtc spec_change (t_store w) (t_store w').
Proof.
  intros Hf. apply store_run. eapply rtc_subrel; [|exact Hf]. intros w1 w2 Hs.
  destruct Hs as [c a w2 E|n]; [by eapply run_command_change|by left].
Qed.

Lemma specs_reachable_inv w : specs_reachable w → spec_inv (t_store w).
Proof.
  intros (w0 & E & Hf). eapply store_run_keeps; [apply spec_change_inv|by apply future_changes|].
  rewrite E. apply initial_spec_inv.
Qed.

(** ** Reviews *)

Lemma filterLocked_one s sid st k v :
  spec_inv s → items s !! k = Some v → fs_SessionID v = sid → fs_Status v = st →
  (∀ k' v', items s !! k' = Some v' → fs_SessionID v' = sid → fs_Status v' = st → k' = k) →
  filterLocked s (in_status sid st) = [v].
Proof.
  intros Hi Hv Hs Hst Hu. unfold filterLocked. rewrite (filter_unique _ _ k v Hv).
  - destruct (si_filed _ Hi _ _ Hv) as (_ & _ & _ & Hc). cbn. by rewrite Hc.
  - unfold in_status. by rewrite !bool_decide_eq_true_2.
  - intros k' v' Hv' [H1%bool_decide_eq_true H2%bool_decide_eq_true]%andb_prop. by eapply Hu.
Qed.

Lemma latest_by_one s match_ description v (w : timed MemoryStore) :
  t_store w = s → filterLocked s match_ = [v] → cloneSpec v = v → latest_by match_ description w = (Ok v, w).
Proof. intros <- E Hc. unfold latest_by, bind, t_get, ret, latestSpec. rewrite E. cbn. by rewrite Hc. Qed.

Lemma cloneSpec_decided v st now : cloneSpec v = v → cloneSpec (decided_spec v st now) = decided_spec v st now.
Proof. intros Hc%(f_equal fs_Fields). unfold cloneSpec, decided_spec in *. cbn in *. by rewrite Hc. Qed.

Lemma reviewing_alone s k v :
  spec_inv s → items s !! k = Some v → fs_Status v = StatusReviewing →
  filterLocked s (in_status (fs_SessionID v) StatusReviewing) = [v].
Proof.
  intros Hi Hv Hr. eapply filterLocked_one; try done. intros k' v' Hv' Hs Hr'.
  by apply (si_reviewing _ Hi k' k v' v).
Qed.

(** C27. In every store of specs that can be reached, a session has at most one
    revision under review; the query for it finds it, and a decision on it is never
    refused as overtaken: the fence of [DecideRevision] lets it pass, with either
    decision. *)
Theorem one_spec_under_review w k v :
  specs_reachable w → items (t_store w) !! k = Some v → fs_Status v = StatusReviewing →
  (∀ k' v', items (t_store w) !! k' = Some v' → fs_Status v' = StatusReviewing →
     fs_SessionID v' = fs_SessionID v → k' = k) ∧
  (∀ sid, TrimSpace sid = fs_SessionID v → GetLatestReviewingBySession sid w = (Ok v, w)) ∧
  ∀ approved, ∃ w', DecideRevision (fs_ID v) (fs_Version v) approved w
    = (Ok (decided_spec v (if approved then StatusConfirmed else StatusRejected) (now_at (t_reads w))), w').
Proof.
  intros Hi%specs_reachable_inv Hv Hr. pose proof (si_filed _ Hi _ _ Hv) as (Hk & _ & Hs & Hc).
  pose proof (reviewing_alone _ _ _ Hi Hv Hr) as Hone. split_and!.
  - intros k' v' Hv' Hr' E. by apply (si_reviewing _ Hi k' k v' v).
  - intros sid E. unfold GetLatestReviewingBySession. rewrite E. by apply latest_by_one with (s := t_store w).
  - intros approved. eexists. unfold DecideRevision, bind at 1, t_get. rewrite <-Hk, Hv.
    rewrite (bool_decide_eq_false_2 (fs_Status v = _)), (bool_decide_eq_true_2 (fs_Status v = StatusReviewing) Hr)
      by (rewrite Hr; by destruct approved).
    unfold latestReviewingLocked. rewrite Hone. cbn [head sortSpecs sort_slice insert_sorted negb].
    rewrite (bool_decide_eq_true_2 (fs_ID v = fs_ID v) eq_refl), Z.eqb_refl. cbn [negb orb].
    unfold bind, t_now, t_commit, t_put, ret. by rewrite cloneSpec_decided.
Qed.

Definition decision_status (approved : bool) : string := if approved then StatusConfirmed else StatusRejected.

(** What an accepted decision has done. *)
Lemma DecideRevision_Ok w specID version approved v' w1 :
  spec_inv (t_store w) → DecideRevision specID version approved w = (Ok v', w1) →
  let k := specRevisionKey specID version in
  items (t_store w1) !! k = Some v' ∧ fs_Status v' = decision_status approved ∧
  (t_store w1 = t_store w ∨ ∃ v now,
     items (t_store w) !! k = Some v ∧ fs_Status v = StatusReviewing ∧ v' = decided_spec v (decision_status approved) now ∧
     ∀ k', k' ≠ k → items (t_store w1) !! k'
       = (fun u => if approved then supersede_status (fs_SessionID v) StatusConfirmed now u else u)
         <$> items (t_store w) !! k').
Proof.
  intros Hi E k. unfold DecideRevision, bind at 1, t_get in E. fold k in E.
  destruct (items _ !! k) as [v|] eqn:Ev; [|done]. destruct (si_filed _ Hi _ _ Ev) as (_ & _ & _ & Hc).
  fold (decision_status approved) in E. case_bool_decide as Es.
  { injection E as <- <-. rewrite Hc. split_and!; [done|done|by left]. }
  destruct (bool_decide (fs_Status v = StatusReviewing)) eqn:Er; [|done]. apply bool_decide_eq_true in Er. cbn [negb] in E.
  match type of E with (if ?b then _ else _) _ = _ => destruct b end; [done|].
  unfold bind, t_now, t_commit, t_put, ret in E. injection E as <- <-. cbn [t_store items].
  rewrite cloneSpec_decided by done. split_and!; [by cbn; rewrite lookup_insert_eq|done|]. right. eexists v, _. split_and!; [done|done|done|].
  intros k' Hne. cbn. rewrite lookup_insert_ne, lookup_kept by done. destruct (items _ !! k') as [u|]; [|done]. cbn.
  unfold supersede_other. destruct approved; [|done]. by rewrite (bool_decide_eq_false_2 _ Hne).
Qed.

(** C28. A decision on a revision of a spec stands.  When [DecideRevision] is
    accepted, the revision has the status of the decision; either it had it
    before and nothing has changed, or it was under review and, if it is approved,
    every other confirmed revision of the session is superseded, it alone is what
    [GetConfirmedBySession] finds, and all else is as it was.  Ever after, the
    revision keeps its content and its status, unless another one supersedes it,
    and the opposite decision is refused without effect. *)
Theorem spec_decision_stands w w1 w2 specID version approved v' :
  specs_reachable w → DecideRevision specID version approved w = (Ok v', w1) → spec_future w1 w2 →
  let k := specRevisionKey specID version in
  items (t_store w1) !! k = Some v' ∧ fs_Status v' = decision_status approved ∧
  (t_store w1 = t_store w ∨
   (∃ now, ∀ k' u, k' ≠ k → items (t_store w) !! k' = Some u → items (t_store w1) !! k' = Some
      (if approved then supersede_status (fs_SessionID v') StatusConfirmed now u else u)) ∧
   (approved = true → ∀ sid, TrimSpace sid = fs_SessionID v' → GetConfirmedBySession sid w1 = (Ok v', w1))) ∧
  (∃ v2, items (t_store w2) !! k = Some v2 ∧ v2 = decided_spec v' (fs_Status v2) (fs_UpdatedAt v2) ∧
     (fs_Status v2 = fs_Status v' ∨ approved = true ∧ fs_Status v2 = StatusSuperseded)) ∧
  ∃ e, DecideRevision specID version (negb approved) w2 = (Err e, w2).
Proof.
  intros Hr E Hf k. pose proof (specs_reachable_inv _ Hr) as Hi.
  assert (Hi1 : spec_inv (t_store w1)).
  { destruct (DecideRevision_change _ _ _ _ _ _ E) as [-> | Hc]; [done|by eapply spec_change_inv]. }
  destruct (DecideRevision_Ok _ _ _ _ _ _ Hi E) as (Hv' & Hst & Hdone). fold k in Hv', Hdone.
  destruct (run_follows _ _ _ _ (future_changes _ _ Hf) Hv') as (v2 & Hv2 & Heq & Hfol).
  assert (Hst2 : fs_Status v2 = fs_Status v' ∨ approved = true ∧ fs_Status v2 = StatusSuperseded).
  { unfold status_follows in Hfol. rewrite Hst in *. destruct approved; cbn in *; naive_solver. }
  split_and!; [done|done| |by exists v2|].
  - destruct Hdone as [? | (v & now & Hv & Hrev & -> & Hrest)]; [by left|]. right. split.
    + exists now. intros k' u Hne Hu. by rewrite Hrest, Hu.
    + intros -> sid Hsid. unfold GetConfirmedBySession. rewrite Hsid. eapply latest_by_one; [done| |by eapply si_filed].
      eapply filterLocked_one; try done. intros k' u Hu Hs Hc. destruct (decide (k' = k)) as [|Hne]; [done|].
      rewrite Hrest in Hu by done. destruct (items _ !! k') as [u0|]; [|done]. cbn in Hu. injection Hu as <-.
      destruct (superseded_gone (fs_SessionID v) StatusConfirmed now u0); [done| |done].
      etrans; [|exact Hs]. symmetry. apply follows_key, supersede_follows. by right.
  - eexists. unfold DecideRevision, bind at 1, t_get. fold k. rewrite Hv2.
    rewrite (bool_decide_eq_false_2 (fs_Status v2 = _)), (bool_decide_eq_false_2 (fs_Status v2 = StatusReviewing));
      [reflexivity|..]; destruct Hst2 as [-> | [-> ->]]; rewrite ?Hst; try destruct approved; done.
Qed.
End methods.

(** ** A concrete session: two proposals, the second is confirmed *)

Module SpecRun.
#[export] Instance clock : Clock := fun n => Z.of_nat (1 + n).
#[export] Program Instance in_map_order : MapRange := {| map_range A m := map_to_list m |}.
Next Obligation. done. Qed.

Definition proposal (key title : string) : FinalVideoSpec :=
  zeroFinalVideoSpec <| fs_ID := "spec" |> <| fs_SessionID := "s" |> <| fs_Status := StatusReviewing |>
    <| fs_IdempotencyKey := key |> <| fs_Title := title |>.

Definition world0 : timed MemoryStore := mkTimed NewMemoryStore 0.
Definition world1 : timed MemoryStore := (run_command (SSave (proposal "k1" "one")) world0).2.
Definition world2 : timed MemoryStore := (run_command (SSave (proposal "k2" "two")) world1).2.
Definition world3 : timed MemoryStore := (DecideRevision "spec" 2 true world2).2.
Definition world4 : timed MemoryStore := (run_command (SSave (proposal "k3" "three")) world3).2.

Lemma spec_steps c (w : timed MemoryStore) : spec_step w (run_command c w).2.
Proof. apply (step_command _ c (run_command c w).1). by destruct (run_command c w). Qed.

Lemma reachable2 : specs_reachable world2.
Proof. exists world0. split; [done|]. do 2 (eapply rtc_r; [|apply spec_steps]). done. Qed.

Lemma decided3 : ∃ v, DecideRevision "spec" 2 true world2 = (Ok v, world3) ∧ bool_decide (fs_SessionID v = "s") = true.
Proof.
  destruct (answered (DecideRevision "spec" 2 true world2) (fun v => bool_decide (fs_SessionID v = "s")))
    as (v & Hv & Hs); [vm_compute; reflexivity|]. exists v. unfold world3. by split.
Qed.
End SpecRun.

#[local] Existing Instances SpecRun.clock SpecRun.in_map_order.

Lemma one_spec_under_review_witness :
  ∃ v, items (t_store SpecRun.world2) !! specRevisionKey "spec" 2 = Some v ∧
    GetLatestReviewingBySession "s" SpecRun.world2 = (Ok v, SpecRun.world2).
Proof.
  destruct (tested_Some (items (t_store SpecRun.world2) !! specRevisionKey "spec" 2)
    (fun v => bool_decide (fs_Status v = StatusReviewing) && bool_decide (fs_SessionID v = TrimSpace "s")))
    as (v & Hv & [Hr%bool_decide_eq_true Hs%bool_decide_eq_true]%andb_prop); [vm_compute; reflexivity|].
  exists v. split; [exact Hv|].
  apply (one_spec_under_review SpecRun.world2 (specRevisionKey "spec" 2) v SpecRun.reachable2 Hv Hr). by symmetry.
Defined.

Lemma spec_decision_stands_witness :
  ∃ v, GetConfirmedBySession "s" SpecRun.world3 = (Ok v, SpecRun.world3) ∧
    ∃ e, DecideRevision "spec" 2 false SpecRun.world4 = (Err e, SpecRun.world4).
Proof.
  destruct SpecRun.decided3 as (v & Hv & Hs%bool_decide_eq_true). exists v.
  destruct (spec_decision_stands SpecRun.world2 SpecRun.world3 SpecRun.world4 "spec" 2 true v SpecRun.reachable2 Hv)
    as (_ & _ & [Hsame | [_ Hc]] & _ & He).
  - apply rtc_once, SpecRun.spec_steps.
  - exfalso. apply (f_equal (fun s => (fun v => bool_decide (fs_Status v = StatusConfirmed)) <$> items s !! specRevisionKey "spec" 2)) in Hsame.
    vm_compute in Hsame. discriminate Hsame.
  - split; [apply Hc; [done|by rewrite Hs]|exact He].
Defined.
