(* ===== verification/ArtifactStore.v ===== *)
(** * Artifacts: versioned revisions, [internal/aigc/artifact/models.go], [memory_store.go]

    Material analyses, assembly plans and export results: immutable revisions
    with a lifecycle, the idempotent creation and the review commands with
    their first-write-wins receipts.

    [clone] decodes the JSON text of a revision into the revision itself, so what
    it returns has the decoded values but shares its maps with the store; the
    model has the values, which are those of the code as long as nobody writes
    into a map that a method has returned. *)

From Stdlib Require Import ZArith Lia Ascii.
From stdpp Require Import relations.
From S2P Require Import Prelude GoJson Timed.

Definition ErrNotFound := errors_New "creation artifact not found".
Definition ErrIdempotencyConflict := errors_New "creation artifact idempotency conflict".
Definition ErrNotReviewable := errors_New "creation artifact is not reviewable".
Definition ErrStale := errors_New "creation artifact review target is stale".

Definition KindMaterialAnalysis := "material_analysis".
Definition KindAssemblyPlan := "assembly_plan".
Definition KindExportResult := "export_result".

Definition StatusDraft := "draft".
Definition StatusReviewing := "reviewing".
Definition StatusActive := "active".
Definition StatusRejected := "rejected".
Definition StatusSuperseded := "superseded".
Definition StatusStale := "stale".

Definition ReviewDecisionApprove := "approve".
Definition ReviewDecisionReject := "reject".

Record Revision := mkRevision {
  av_ID : string;
  av_SessionID : string;
  av_Kind : string;
  av_Version : Z;
  av_Status : string;
  av_IdempotencyKey : string;
  av_DerivedFrom : gomap Z;
  av_Content : gomap any;
  av_CreatedBy : string;
  av_CreatedAt : Time;
  av_UpdatedAt : Time;
  av_ActivatedAt : option Time
}.
#[global] Instance eta_Revision : Eta Revision := fun r =>
  mkRevision (av_ID r) (av_SessionID r) (av_Kind r) (av_Version r) (av_Status r) (av_IdempotencyKey r)
  (av_DerivedFrom r) (av_Content r) (av_CreatedBy r) (av_CreatedAt r) (av_UpdatedAt r) (av_ActivatedAt r).
Definition zeroRevision : Revision := mkRevision "" "" "" 0 "" "" None None "" zeroTime zeroTime None.

Record CreateResult := mkCreateResult { cr_Revision : Revision; cr_Created : bool }.

Record ReviewCommand := mkReviewCommand {
  rc_IdempotencyKey : string;
  rc_SessionID : string;
  rc_ArtifactID : string;
  rc_ArtifactKind : string;
  rc_ArtifactVersion : Z;
  rc_ExpectedStatus : string;
  rc_Decision : string;
  rc_RequireLatest : bool
}.
#[global] Instance eta_ReviewCommand : Eta ReviewCommand := fun r =>
  mkReviewCommand (rc_IdempotencyKey r) (rc_SessionID r) (rc_ArtifactID r) (rc_ArtifactKind r)
  (rc_ArtifactVersion r) (rc_ExpectedStatus r) (rc_Decision r) (rc_RequireLatest r).

Record ReviewCommandReceipt := mkReviewCommandReceipt {
  rt_IdempotencyKey : string;
  rt_SessionID : string;
  rt_ArtifactID : string;
  rt_ArtifactKind : string;
  rt_ArtifactVersion : Z;
  rt_ExpectedStatus : string;
  rt_Decision : string;
  rt_RequireLatest : bool;
  rt_Result : Revision;
  rt_CreatedAt : Time
}.
#[global] Instance eta_ReviewCommandReceipt : Eta ReviewCommandReceipt := fun r =>
  mkReviewCommandReceipt (rt_IdempotencyKey r) (rt_SessionID r) (rt_ArtifactID r) (rt_ArtifactKind r)
  (rt_ArtifactVersion r) (rt_ExpectedStatus r) (rt_Decision r) (rt_RequireLatest r) (rt_Result r) (rt_CreatedAt r).

Record ReviewResult := mkReviewResult {
  rr_Revision : Revision;
  rr_Receipt : ReviewCommandReceipt;
  rr_Applied : bool
}.

(** ** Revisions and their requests *)

Definition Revision_Validate (r : Revision) : option error :=
  if blank (av_ID r) || blank (av_SessionID r) || blank (av_Kind r)
  then Some (Errorf "artifact id, session id and kind are required")
  else if blank (av_IdempotencyKey r) then Some (Errorf "artifact idempotency key is required")
  else if av_Version r <? 0 then Some (Errorf "artifact version cannot be negative")
  else match av_Content r with None => Some (Errorf "artifact content is required") | Some _ => None end.

Definition normalizeCreateRequest (revision : Revision) : Revision :=
  let revision := revision <| av_ID := TrimSpace (av_ID revision) |> in
  let revision := revision <| av_SessionID := TrimSpace (av_SessionID revision) |> in
  let revision := revision <| av_Kind := TrimSpace (av_Kind revision) |> in
  let revision := revision <| av_Status := TrimSpace (av_Status revision) |> in
  let revision := revision <| av_IdempotencyKey := TrimSpace (av_IdempotencyKey revision) |> in
  let revision := revision <| av_CreatedBy := TrimSpace (av_CreatedBy revision) |> in
  let revision := if bool_decide (av_Status revision = "")
    then revision <| av_Status := StatusDraft |> else revision in
  if (go_len (av_DerivedFrom revision) =? 0)%nat then revision <| av_DerivedFrom := None |> else revision.

(** Both are written as JSON, read back and compared. *)
Definition sameJSON (left right : gomap any) : bool := map_DeepEqual (cloneMap left) (cloneMap right).
Definition any_ints (m : gomap Z) : gomap any :=
  match m with None => None | Some m' => Some (AInt <$> m') end.

Definition sameCreateRequest (existing requested : Revision) : bool :=
  if negb (bool_decide (av_ID existing = av_ID requested))
     || negb (bool_decide (av_SessionID existing = av_SessionID requested))
     || negb (bool_decide (av_Kind existing = av_Kind requested))
     || negb (bool_decide (av_Status existing = av_Status requested))
     || negb (bool_decide (av_IdempotencyKey existing = av_IdempotencyKey requested))
     || negb (bool_decide (av_CreatedBy existing = av_CreatedBy requested))
  then false
  else if (0 <? av_Version requested) && negb (av_Version existing =? av_Version requested) then false
  else sameJSON (any_ints (av_DerivedFrom existing)) (any_ints (av_DerivedFrom requested))
       && sameJSON (av_Content existing) (av_Content requested).

Definition clone (revision : Revision) : Revision :=
  revision <| av_Content := cloneMap (av_Content revision) |>.
Definition cloneReceipt (receipt : ReviewCommandReceipt) : ReviewCommandReceipt :=
  receipt <| rt_Result := clone (rt_Result receipt) |>.

(** ** Review commands *)

Definition normalize (c : ReviewCommand) : ReviewCommand :=
  let c := c <| rc_IdempotencyKey := TrimSpace (rc_IdempotencyKey c) |> in
  let c := c <| rc_SessionID := TrimSpace (rc_SessionID c) |> in
  let c := c <| rc_ArtifactID := TrimSpace (rc_ArtifactID c) |> in
  let c := c <| rc_ArtifactKind := TrimSpace (rc_ArtifactKind c) |> in
  let c := c <| rc_ExpectedStatus := TrimSpace (rc_ExpectedStatus c) |> in
  let c := if bool_decide (rc_ExpectedStatus c = "") then c <| rc_ExpectedStatus := StatusReviewing |> else c in
  c <| rc_Decision := ToLower (TrimSpace (rc_Decision c)) |>.

Definition ReviewCommand_Validate (c : ReviewCommand) : option error :=
  let c := normalize c in
  if bool_decide (rc_IdempotencyKey c = "") || bool_decide (rc_SessionID c = "")
     || bool_decide (rc_ArtifactID c = "") || bool_decide (rc_ArtifactKind c = "") || (rc_ArtifactVersion c <=? 0)
  then Some (Errorf "artifact review command requires idempotency key, session, artifact identity, kind and positive version")
  else if negb (bool_decide (rc_Decision c = ReviewDecisionApprove))
          && negb (bool_decide (rc_Decision c = ReviewDecisionReject))
  then Some (Errorf ("artifact review decision must be " +:+ Quote ReviewDecisionApprove +:+ " or " +:+ Quote ReviewDecisionReject))
  else if negb (bool_decide (rc_ExpectedStatus c = StatusReviewing))
  then Some (Errorf ("artifact review command must require status " +:+ Quote StatusReviewing))
  else None.

Definition receipt_command (r : ReviewCommandReceipt) : ReviewCommand :=
  normalize (mkReviewCommand (rt_IdempotencyKey r) (rt_SessionID r) (rt_ArtifactID r) (rt_ArtifactKind r)
    (rt_ArtifactVersion r) (rt_ExpectedStatus r) (rt_Decision r) (rt_RequireLatest r)).

Definition same_command (left right : ReviewCommand) : bool :=
  bool_decide (rc_IdempotencyKey left = rc_IdempotencyKey right)
  && bool_decide (rc_SessionID left = rc_SessionID right)
  && bool_decide (rc_ArtifactID left = rc_ArtifactID right)
  && bool_decide (rc_ArtifactKind left = rc_ArtifactKind right)
  && (rc_ArtifactVersion left =? rc_ArtifactVersion right)
  && bool_decide (rc_ExpectedStatus left = rc_ExpectedStatus right)
  && bool_decide (rc_Decision left = rc_Decision right)
  && Bool.eqb (rc_RequireLatest left) (rc_RequireLatest right).

Definition sameReviewCommand (receipt : ReviewCommandReceipt) (command : ReviewCommand) : bool :=
  same_command (receipt_command receipt) (normalize command).

(** ** The store *)

Record MemoryStore := mkMemoryStore {
  byID : gmap string Revision;
  byKey : gmap string string;
  receipts : gmap string ReviewCommandReceipt
}.
#[global] Instance eta_MemoryStore : Eta MemoryStore := fun r => mkMemoryStore (byID r) (byKey r) (receipts r).

Definition NewMemoryStore : MemoryStore := mkMemoryStore ∅ ∅ ∅.

Definition same_line (sessionID kind : string) (candidate : Revision) : bool :=
  bool_decide (av_SessionID candidate = sessionID) && bool_decide (av_Kind candidate = kind).

(** The body of the loop that retires the active revisions beside [revision]. *)
Definition supersede_beside (revision : Revision) (now : Time) (candidate : Revision) : Revision :=
  if same_line (av_SessionID revision) (av_Kind revision) candidate
     && bool_decide (av_Status candidate = StatusActive) && negb (bool_decide (av_ID candidate = av_ID revision))
  then candidate <| av_Status := StatusSuperseded |> <| av_UpdatedAt := now |>
  else candidate.

Definition new_receipt (command : ReviewCommand) (revision : Revision) (now : Time) : ReviewCommandReceipt :=
  mkReviewCommandReceipt (rc_IdempotencyKey command) (av_SessionID revision) (av_ID revision) (av_Kind revision)
    (av_Version revision) (rc_ExpectedStatus command) (rc_Decision command) (rc_RequireLatest command)
    (clone revision) now.

Section memory_store.
Context `{MapRange} `{Clock}.

Definition nextVersionLocked (s : MemoryStore) (sessionID kind : string) : Z :=
  incr (foldl (fun version '(_, revision) =>
          if same_line sessionID kind revision && (version <? av_Version revision) then av_Version revision else version)
        0 (map_range (byID s))).

(** A new revision: its version, unless the caller gave one, and its times. *)
Definition new_revision (s : MemoryStore) (revision : Revision) (now : Time) : Revision :=
  let revision := if av_Version revision =? 0
    then revision <| av_Version := nextVersionLocked s (av_SessionID revision) (av_Kind revision) |> else revision in
  revision <| av_CreatedAt := now |> <| av_UpdatedAt := now |>.

Definition CreateRevision (revision : Revision) : Eff (timed MemoryStore) (result CreateResult) :=
  let revision := normalizeCreateRequest revision in
  check (Revision_Validate revision) (
  let* s := t_get in
  match byKey s !! av_IdempotencyKey revision with
  | Some id =>
      let existing := clone (default zeroRevision (byID s !! id)) in
      if negb (sameCreateRequest existing revision)
      then fail (Wrapf "" ErrIdempotencyConflict (": idempotency_key=" +:+ av_IdempotencyKey revision))
      else ret (Ok (mkCreateResult existing false))
  | None =>
      if bool_decide (is_Some (byID s !! av_ID revision))
      then fail (Errorf ("artifact id already exists: " +:+ av_ID revision))
      else
        let* now := t_now in
        let revision := new_revision s revision now in
        t_commit (s <| byID := <[av_ID revision := clone revision]> (byID s) |>
                    <| byKey := <[av_IdempotencyKey revision := av_ID revision]> (byKey s) |>)
          (mkCreateResult (clone revision) true)
  end).

Definition Get (id : string) : Eff (timed MemoryStore) (result Revision) :=
  let* s := t_get in
  match byID s !! TrimSpace id with None => fail ErrNotFound | Some revision => ret (Ok (clone revision)) end.

Definition GetByIdempotencyKey (key : string) : Eff (timed MemoryStore) (result Revision) :=
  let* s := t_get in
  match byKey s !! TrimSpace key with
  | None => fail ErrNotFound
  | Some id => ret (Ok (clone (default zeroRevision (byID s !! id))))
  end.

Definition GetLatest (sessionID kind : string) : Eff (timed MemoryStore) (result Revision) :=
  let* s := t_get in
  let items := List.filter (same_line (TrimSpace sessionID) (TrimSpace kind)) ((map_range (byID s)).*2) in
  match sort_slice (fun a b => av_Version b <? av_Version a) items with
  | [] => fail ErrNotFound
  | first :: _ => ret (Ok (clone first))
  end.

(** The latest revision of a line: its version and its id. *)
Definition latest_revision (s : MemoryStore) (sessionID kind : string) : Z * string :=
  foldl (fun latest '(_, candidate) =>
    if same_line sessionID kind candidate && (latest.1 <? av_Version candidate)
    then (av_Version candidate, av_ID candidate) else latest) (0, "") (map_range (byID s)).

Definition stale_review (s : MemoryStore) (command : ReviewCommand) : option error :=
  if rc_RequireLatest command then
    let '(latestVersion, latestID) := latest_revision s (rc_SessionID command) (rc_ArtifactKind command) in
    if negb (latestVersion =? rc_ArtifactVersion command) || negb (bool_decide (latestID = rc_ArtifactID command))
    then Some (Wrapf "" ErrStale (": latest=" +:+ latestID +:+ "/v" +:+ pretty latestVersion +:+ " target="
                +:+ rc_ArtifactID command +:+ "/v" +:+ pretty (rc_ArtifactVersion command)))
    else None
  else None.

(** The revision after the decision, and the other revisions. *)
Definition reviewed_revision (decision : string) (revision : Revision) (now : Time) : Revision :=
  let revision := if bool_decide (decision = ReviewDecisionApprove)
    then revision <| av_Status := StatusActive |> <| av_ActivatedAt := Some now |>
    else revision <| av_Status := StatusRejected |> in
  revision <| av_UpdatedAt := now |>.

(** The store and the answer when the review is applied. *)
Definition after_review (s : MemoryStore) (command : ReviewCommand) (revision : Revision) (now : Time) : MemoryStore :=
  let beside := if bool_decide (rc_Decision command = ReviewDecisionApprove)
    then supersede_beside revision now <$> byID s else byID s in
  let revision := reviewed_revision (rc_Decision command) revision now in
  let receipt := new_receipt command revision now in
  s <| byID := <[av_ID revision := revision]> beside |>
    <| receipts := <[rt_IdempotencyKey receipt := cloneReceipt receipt]> (receipts s) |>.

Definition review_result (command : ReviewCommand) (revision : Revision) (now : Time) : ReviewResult :=
  let revision := reviewed_revision (rc_Decision command) revision now in
  mkReviewResult (clone revision) (cloneReceipt (new_receipt command revision now)) true.

Definition ApplyReview (command : ReviewCommand) : Eff (timed MemoryStore) (result ReviewResult) :=
  let command := normalize command in
  check (ReviewCommand_Validate command) (
  let* s := t_get in
  match receipts s !! rc_IdempotencyKey command with
  | Some receipt =>
      if negb (sameReviewCommand receipt command)
      then fail (Wrapf "" ErrIdempotencyConflict (": artifact review command key=" +:+ rc_IdempotencyKey command))
      else
        let receipt := cloneReceipt receipt in
        ret (Ok (mkReviewResult (clone (rt_Result receipt)) receipt false))
  | None =>
      match byID s !! rc_ArtifactID command with
      | None => fail ErrNotFound
      | Some revision =>
          if negb (bool_decide (av_SessionID revision = rc_SessionID command))
             || negb (bool_decide (av_Kind revision = rc_ArtifactKind command))
             || negb (av_Version revision =? rc_ArtifactVersion command)
          then fail (Wrapf "" ErrIdempotencyConflict ": artifact review target changed")
          else if negb (bool_decide (av_Status revision = rc_ExpectedStatus command))
          then fail (Wrapf "" ErrNotReviewable (": status=" +:+ av_Status revision))
          else check (stale_review s command) (
            let* now := t_now in
            t_commit (after_review s command revision now) (review_result command revision now))
      end
  end).

Definition GetReviewReceipt (idempotencyKey : string) : Eff (timed MemoryStore) (result ReviewCommandReceipt) :=
  let* s := t_get in
  match receipts s !! TrimSpace idempotencyKey with
  | None => fail ErrNotFound
  | Some receipt => ret (Ok (cloneReceipt receipt))
  end.

Definition transition (id : string) (expectedVersion : Z) (status : string) : Eff (timed MemoryStore) (result Revision) :=
  let* s := t_get in
  match byID s !! TrimSpace id with
  | None => fail ErrNotFound
  | Some revision =>
      if (0 <? expectedVersion) && negb (av_Version revision =? expectedVersion)
      then fail (Errorf ("artifact version conflict: current=" +:+ pretty (av_Version revision) +:+ " expected="
                         +:+ pretty expectedVersion))
      else
        let* now := t_now in
        let active := bool_decide (status = StatusActive) in
        let beside := if active then supersede_beside revision now <$> byID s else byID s in
        let revision := if active then revision <| av_ActivatedAt := Some now |> else revision in
        let revision := revision <| av_Status := status |> <| av_UpdatedAt := now |> in
        t_commit (s <| byID := <[av_ID revision := revision]> beside |>) (clone revision)
  end.

Definition Activate (id : string) (expectedVersion : Z) : Eff (timed MemoryStore) (result Revision) :=
  transition id expectedVersion StatusActive.
Definition Reject (id : string) (expectedVersion : Z) : Eff (timed MemoryStore) (result Revision) :=
  transition id expectedVersion StatusRejected.
End memory_store.
