(* ===== verification/ArtifactProps.v ===== *)
(** * Artifacts: reviews are applied once

    What the methods of the artifact store change, and the theorem about review
    commands and their receipts. *)

From Stdlib Require Import ZArith Lia Ascii.
From stdpp Require Import relations.
From S2P Require Import Prelude GoJson Timed ArtifactStore.

(** A revision changes in its lifecycle only. *)
Definition lifecycle (status : string) (updated : Time) (activated : option Time) (r : Revision) : Revision :=
  r <| av_Status := status |> <| av_UpdatedAt := updated |> <| av_ActivatedAt := activated |>.

Definition revision_follows (r r' : Revision) : Prop :=
  r' = lifecycle (av_Status r') (av_UpdatedAt r') (av_ActivatedAt r') r.

(** A receipt is filed under its key, spelled as its command, and has the result
    of its decision. *)
Definition raw_command (t : ReviewCommandReceipt) : ReviewCommand :=
  mkReviewCommand (rt_IdempotencyKey t) (rt_SessionID t) (rt_ArtifactID t) (rt_ArtifactKind t)
    (rt_ArtifactVersion t) (rt_ExpectedStatus t) (rt_Decision t) (rt_RequireLatest t).

Record receipt_ok (ik : string) (t : ReviewCommandReceipt) : Prop := {
  ro_key : rt_IdempotencyKey t = ik;
  ro_clone : cloneReceipt t = t;
  ro_plain : normalize (raw_command t) = raw_command t;
  ro_result : av_ID (rt_Result t) = rt_ArtifactID t ∧ av_SessionID (rt_Result t) = rt_SessionID t ∧
    av_Kind (rt_Result t) = rt_ArtifactKind t ∧ av_Version (rt_Result t) = rt_ArtifactVersion t ∧
    av_Status (rt_Result t) = if bool_decide (rt_Decision t = ReviewDecisionApprove) then StatusActive else StatusRejected
}.

Record artifact_inv (s : MemoryStore) : Prop := {
  ri_filed k r : byID s !! k = Some r → av_ID r = k ∧ clone r = r;
  ri_byKey ik k : byKey s !! ik = Some k → ∃ r, byID s !! k = Some r ∧ av_IdempotencyKey r = ik;
  ri_receipts ik t : receipts s !! ik = Some t → receipt_ok ik t
}.

(** A change of the store: revisions stay, keys and receipts are never replaced. *)
Record artifact_change (s s' : MemoryStore) : Prop := {
  rg_follow k r : byID s !! k = Some r → ∃ r', byID s' !! k = Some r' ∧ revision_follows r r';
  rg_new k r : byID s !! k = None → byID s' !! k = Some r → av_ID r = k ∧ clone r = r;
  rg_byKey ik k : byKey s' !! ik = Some k → byKey s !! ik = Some k ∨
    ∃ r, byID s' !! k = Some r ∧ av_IdempotencyKey r = ik;
  rg_keys ik k : byKey s !! ik = Some k → byKey s' !! ik = Some k;
  rg_receipts ik t : receipts s !! ik = Some t → receipts s' !! ik = Some t;
  rg_receipt ik t : receipts s' !! ik = Some t → receipts s !! ik = Some t ∨ receipt_ok ik t
}.

(** *** The parts of a change *)

Lemma clone_idem r : clone (clone r) = clone r.
Proof. unfold clone. cbn. by rewrite cloneMap_idem. Qed.

Lemma cloneReceipt_idem t : cloneReceipt (cloneReceipt t) = cloneReceipt t.
Proof. unfold cloneReceipt. cbn. by rewrite clone_idem. Qed.

Lemma follows_lifecycle st u a r : revision_follows r (lifecycle st u a r).
Proof. by destruct r. Qed.

Lemma revision_follows_refl r : revision_follows r r.
Proof. by destruct r. Qed.

Lemma follows_trans r1 r2 r3 : revision_follows r1 r2 → revision_follows r2 r3 → revision_follows r1 r3.
Proof. intros -> ->. by destruct r1. Qed.

Lemma follows_clone r r' : revision_follows r r' → clone r = r → clone r' = r'.
Proof. intros -> E%(f_equal av_Content). unfold clone, lifecycle in *. cbn in *. by rewrite E. Qed.

Lemma follows_keys r r' : revision_follows r r' →
  av_ID r' = av_ID r ∧ av_IdempotencyKey r' = av_IdempotencyKey r ∧ av_Version r' = av_Version r ∧
  av_SessionID r' = av_SessionID r ∧ av_Kind r' = av_Kind r.
Proof. intros ->. by destruct r. Qed.

Lemma beside_follows r now r' : revision_follows r' (supersede_beside r now r').
Proof. unfold supersede_beside. case_match; [by destruct r'|apply revision_follows_refl]. Qed.

Lemma lookup_beside (m : gmap string Revision) (beside : bool) r now j :
  (if beside then supersede_beside r now <$> m else m) !! j
  = (fun u => if beside then supersede_beside r now u else u) <$> m !! j.
Proof. destruct beside; [by rewrite lookup_fmap|by destruct (m !! j)]. Qed.

(** A revision of the store goes through a transition, the others may be superseded. *)
Lemma transition_change s k r r' (beside : bool) now m :
  artifact_inv s → byID s !! k = Some r → revision_follows r r' →
  (∀ ik t, receipts s !! ik = Some t → m !! ik = Some t) →
  (∀ ik t, m !! ik = Some t → receipts s !! ik = Some t ∨ receipt_ok ik t) →
  artifact_change s (s <| byID := <[av_ID r' := r']> (if beside then supersede_beside r now <$> byID s else byID s) |>
                       <| receipts := m |>).
Proof.
  intros Hi Hr Hf Hkeep Hnew. destruct (ri_filed _ Hi _ _ Hr) as [Hid _].
  destruct (follows_keys _ _ Hf) as (Hid' & _). rewrite Hid', Hid.
  split; cbn [update_field byID byKey receipts]; [| |by left|done|done|done].
  - intros j u Hj. cbn. destruct (decide (k = j)) as [<-|Hne].
    + rewrite lookup_insert_eq. exists r'. by simplify_eq.
    + rewrite lookup_insert_ne, lookup_beside, Hj by done. eexists. split; [reflexivity|].
      destruct beside; [apply beside_follows|apply revision_follows_refl].
  - intros j u Hj Hu. cbn in Hu. destruct (decide (k = j)) as [<-|Hne]; [congruence|].
    by rewrite lookup_insert_ne, lookup_beside, Hj in Hu by done.
Qed.

Lemma same_receipts s : s <| receipts := receipts s |> = s.
Proof. by destruct s. Qed.

Lemma revision_create_change s r :
  byID s !! av_ID r = None → byKey s !! av_IdempotencyKey r = None →
  artifact_change s (s <| byID := <[av_ID r := clone r]> (byID s) |>
                       <| byKey := <[av_IdempotencyKey r := av_ID r]> (byKey s) |>).
Proof.
  intros Hn Hk. split; cbn [update_field byID byKey receipts].
  - intros j u Hj. exists u. split; [|apply revision_follows_refl]. cbn. rewrite lookup_insert_ne; congruence.
  - intros j u Hj Hu. apply lookup_insert_Some in Hu as [[<- <-]|[_ ?]]; [|congruence].
    split; [done|apply clone_idem].
  - intros ik j Hj. apply lookup_insert_Some in Hj as [[<- <-]|[_ ?]]; [|by left].
    right. exists (clone r). cbn. by rewrite lookup_insert_eq.
  - intros ik j Hj. cbn. rewrite lookup_insert_ne; congruence.
  - done.
  - intros ik t ?. by left.
Qed.

(** ** The invariant and runs *)

Lemma artifact_change_inv s s' : artifact_change s s' → artifact_inv s → artifact_inv s'.
Proof.
  intros Hc Hi. split.
  - intros k r' Hr'. destruct (byID s !! k) as [r|] eqn:E; [|by apply (rg_new _ _ Hc)].
    destruct (rg_follow _ _ Hc _ _ E) as (u & Hu & Hf). simplify_eq. destruct (ri_filed _ Hi _ _ E) as [Hid Hcl].
    split; [|by eapply follows_clone]. destruct (follows_keys _ _ Hf) as (-> & _). done.
  - intros ik k [(r & Hr & Hkr)%(ri_byKey _ Hi)|?]%(rg_byKey _ _ Hc); [|done].
    destruct (rg_follow _ _ Hc _ _ Hr) as (r' & Hr' & Hf). destruct (follows_keys _ _ Hf) as (_ & E & _).
    exists r'. split; [done|congruence].
  - intros ik t [?|?]%(rg_receipt _ _ Hc); [by apply (ri_receipts _ Hi)|done].
Qed.

Lemma initial_artifact_inv : artifact_inv NewMemoryStore.
Proof. by split. Qed.

Lemma run_receipts s s' ik t : rtc artifact_change s s' → receipts s !! ik = Some t → receipts s' !! ik = Some t.
Proof. induction 1 as [s|s s1 s' Hc _ IH]; [done|]. intros Ht. apply IH. by eapply rg_receipts. Qed.

Lemma run_revision_follows s s' k r :
  rtc artifact_change s s' → byID s !! k = Some r → ∃ r', byID s' !! k = Some r' ∧ revision_follows r r'.
Proof.
  intros Hr. revert r. induction Hr as [s|s s1 s' Hc _ IH]; intros r Hk; [by eauto using revision_follows_refl|].
  destruct (rg_follow _ _ Hc _ _ Hk) as (r1 & Hr1 & Hf). destruct (IH _ Hr1) as (r2 & Hr2 & Hf2).
  eauto using follows_trans.
Qed.

(** ** Review commands *)

Lemma review_normalize_idem c : normalize (normalize c) = normalize c.
Proof.
  destruct c as [k sid aid kind v st d rl]. unfold normalize. cbn.
  destruct (bool_decide (TrimSpace st = "")) eqn:E; cbn; rewrite ?TrimSpace_idem, ?TrimSpace_ToLower, ?ToLower_idem.
  - assert (TrimSpace StatusReviewing = StatusReviewing) as -> by (vm_compute; reflexivity).
    change (bool_decide (StatusReviewing = "")) with false. cbn. by rewrite TrimSpace_ToLower, ToLower_idem.
  - rewrite E. cbn. by rewrite ?TrimSpace_idem, ?TrimSpace_ToLower, ?ToLower_idem.
Qed.

Lemma same_command_true l r : same_command l r = true ↔ l = r.
Proof.
  unfold same_command. rewrite !andb_true_iff, !bool_decide_eq_true, Z.eqb_eq, Bool.eqb_true_iff.
  destruct l, r; cbn. split; [by intros (((((((-> & ->) & ->) & ->) & ->) & ->) & ->) & ->)|].
  by intros [= -> -> -> -> -> -> -> ->].
Qed.

Lemma sameReview_command t c : sameReviewCommand t c = true → receipt_command t = normalize c.
Proof. unfold sameReviewCommand. generalize (receipt_command t), (normalize c). intros l r. apply same_command_true. Qed.

(** A receipt stands for the command it was made for. *)
Lemma receipt_ok_command ik t : receipt_ok ik t → receipt_command t = raw_command t.
Proof. intros Ho. exact (ro_plain _ _ Ho). Qed.

(** ** The methods *)

Section methods.
Context `{MapRange} `{Clock}.
Implicit Types (w : timed MemoryStore).

Inductive artifact_command : Type :=
| RCreate (revision : Revision)
| RReview (command : ReviewCommand)
| RActivate (id : string) (expectedVersion : Z)
| RReject (id : string) (expectedVersion : Z)
| RGet (id : string)
| RGetByIdempotencyKey (key : string)
| RGetLatest (sessionID kind : string)
| RGetReviewReceipt (key : string).

Definition t_only {A} (c : Eff (timed MemoryStore) (result A)) : Eff (timed MemoryStore) (option error) :=
  let* r := c in ret (match r with Ok _ => None | Err e => Some e end).

Definition run_command (c : artifact_command) : Eff (timed MemoryStore) (option error) :=
  match c with
  | RCreate revision => t_only (CreateRevision revision)
  | RReview command => t_only (ApplyReview command)
  | RActivate id version => t_only (Activate id version)
  | RReject id version => t_only (Reject id version)
  | RGet id => t_only (Get id)
  | RGetByIdempotencyKey key => t_only (GetByIdempotencyKey key)
  | RGetLatest sessionID kind => t_only (GetLatest sessionID kind)
  | RGetReviewReceipt key => t_only (GetReviewReceipt key)
  end.

(** One method: it leaves the store or makes a change of it. *)
Definition changes {A} (c : Eff (timed MemoryStore) A) : Prop :=
  ∀ w a w', artifact_inv (t_store w) → c w = (a, w') →
    t_store w' = t_store w ∨ artifact_change (t_store w) (t_store w').

Lemma artifact_only {A} (c : Eff (timed MemoryStore) (result A)) : changes c → changes (t_only c).
Proof.
  intros Hc w a w' Hi. unfold t_only, bind, ret. destruct (c w) as [r w1] eqn:E. intros [= _ <-]. by eapply Hc.
Qed.

Lemma new_revision_keys s r now :
  av_ID (new_revision s r now) = av_ID r ∧ av_IdempotencyKey (new_revision s r now) = av_IdempotencyKey r.
Proof. unfold new_revision. by destruct (av_Version r =? 0). Qed.

Lemma CreateRevision_changes revision : changes (CreateRevision revision).
Proof.
  intros w a w' Hi. unfold CreateRevision. set (r := normalizeCreateRequest revision).
  unfold check. destruct (Revision_Validate r); [intros [= _ <-]; by left|]. unfold bind at 1, t_get.
  destruct (byKey _ !! _) as [id|] eqn:Ek.
  { destruct (negb _); intros [= _ <-]; by left. }
  case_bool_decide as Ex; [intros [= _ <-]; by left|]. apply eq_None_not_Some in Ex.
  unfold t_commit, bind, t_now, t_put, ret. intros [_ <-]%pair_equal_spec. right. cbn [t_store].
  destruct (new_revision_keys (t_store w) r (now_at (t_reads w))) as [E1 E2].
  apply revision_create_change; by rewrite ?E1, ?E2.
Qed.

(** What must hold for a review to be applied. *)
Record reviewable (s : MemoryStore) (c : ReviewCommand) (u : Revision) : Prop := {
  rv_fresh : receipts s !! rc_IdempotencyKey c = None;
  rv_there : byID s !! rc_ArtifactID c = Some u;
  rv_same : av_SessionID u = rc_SessionID c ∧ av_Kind u = rc_ArtifactKind c ∧ av_Version u = rc_ArtifactVersion c;
  rv_status : av_Status u = rc_ExpectedStatus c;
  rv_latest : stale_review s c = None
}.

(** An accepted review: a replay of its receipt, or the first application. *)
Lemma ApplyReview_inv command w r w' :
  artifact_inv (t_store w) → ApplyReview command w = (Ok r, w') →
  let c := normalize command in
  ReviewCommand_Validate c = None ∧
  (w' = w ∧ receipts (t_store w) !! rc_IdempotencyKey c = Some (rr_Receipt r) ∧ receipt_command (rr_Receipt r) = c ∧
     rr_Revision r = rt_Result (rr_Receipt r) ∧ rr_Applied r = false ∨
   ∃ u now, reviewable (t_store w) c u ∧ t_store w' = after_review (t_store w) c u now ∧
     r = review_result c u now).
Proof.
  intros Hi. unfold ApplyReview. set (c := normalize command).
  assert (normalize c = c) as Hc by apply review_normalize_idem. clearbody c. unfold check.
  destruct (ReviewCommand_Validate c) eqn:Ev; [done|]. unfold bind at 1, t_get. intros E. split; [done|]. revert E.
  destruct (receipts _ !! _) as [t|] eqn:Et.
  - destruct (sameReviewCommand t c) eqn:Es; [|done]. cbn [negb]. intros [<- <-]%answer_inj. left.
    cbn [rr_Receipt rr_Revision rr_Applied]. pose proof (ro_clone _ _ (ri_receipts _ Hi _ _ Et)) as Ht. rewrite Ht.
    rewrite (sameReview_command _ _ Es), Hc. split_and!; try done. exact (f_equal rt_Result Ht).
  - destruct (byID _ !! _) as [u|] eqn:Eu; [|done].
    destruct (negb (bool_decide (av_SessionID u = _)) || _ || _) eqn:Ei; [done|].
    rewrite !orb_false_iff, !negb_false_iff, !bool_decide_eq_true, Z.eqb_eq in Ei. destruct Ei as [[E1 E2] E3].
    destruct (negb (bool_decide (av_Status u = _))) eqn:Est; [done|]. rewrite negb_false_iff, bool_decide_eq_true in Est.
    destruct (stale_review _ c) eqn:Esr; [done|].
    intros [<- <-]%answer_inj. right. exists u, (now_at (t_reads w)). split; [by split|]. split; reflexivity.
Qed.

Lemma transition_changes id version status : changes (transition id version status).
Proof.
  intros w a w' Hi. unfold transition, bind at 1, t_get.
  destruct (byID _ !! _) as [r|] eqn:Er; [|intros [_ <-]%pair_equal_spec; by left].
  destruct (_ && _); [intros [_ <-]%pair_equal_spec; by left|].
  unfold t_commit, bind, t_now, t_put, ret. intros [_ <-]%pair_equal_spec. right. cbn [t_store].
  rewrite <-(same_receipts (_ <| byID := _ |>)).
  apply (transition_change (t_store w) _ r _ (bool_decide (status = StatusActive)) _ _ Hi Er); [|done|by left].
  case_bool_decide; by destruct r.
Qed.

Lemma reviewed_follows d u now : revision_follows u (reviewed_revision d u now).
Proof. unfold reviewed_revision. case_bool_decide; by destruct u. Qed.

Lemma new_receipt_ok s c u now :
  artifact_inv s → reviewable s c u → normalize c = c →
  receipt_ok (rc_IdempotencyKey c) (cloneReceipt (new_receipt c (reviewed_revision (rc_Decision c) u now) now)) ∧
  raw_command (cloneReceipt (new_receipt c (reviewed_revision (rc_Decision c) u now) now)) = c.
Proof.
  intros Hi [_ Hu (E1 & E2 & E3) _ _] Hc. destruct (ri_filed _ Hi _ _ Hu) as [Hid _].
  destruct (follows_keys _ _ (reviewed_follows (rc_Decision c) u now)) as (F1 & _ & F3 & F4 & F5).
  assert (Hst : av_Status (reviewed_revision (rc_Decision c) u now)
    = if bool_decide (rc_Decision c = ReviewDecisionApprove) then StatusActive else StatusRejected).
  { unfold reviewed_revision. by case_bool_decide. }
  revert F1 F3 F4 F5 Hst. generalize (reviewed_revision (rc_Decision c) u now) as v. intros v F1 F3 F4 F5 Hst.
  assert (Hraw : raw_command (cloneReceipt (new_receipt c v now)) = c).
  { unfold raw_command, cloneReceipt, new_receipt. cbn. rewrite F1, F3, F4, F5, Hid, E1, E2, E3. by destruct c. }
  split; [|done]. split; [done|apply cloneReceipt_idem|by rewrite Hraw|]. split_and!; done.
Qed.

Lemma after_review_change s c u now :
  artifact_inv s → reviewable s c u → normalize c = c → artifact_change s (after_review s c u now).
Proof.
  intros Hi Hrv Hc. pose proof Hrv as [Hn Hu _ _ _]. destruct (new_receipt_ok _ _ _ now Hi Hrv Hc) as [Hok _].
  apply (transition_change s _ u _ _ now _ Hi Hu (reviewed_follows _ _ _)).
  - intros ik t Ht. rewrite lookup_insert_ne; [done|]. cbn. congruence.
  - intros ik t [[<- <-]|[_ ?]]%lookup_insert_Some; [by right|by left].
Qed.

Lemma ApplyReview_changes command : changes (ApplyReview command).
Proof.
  intros w [r|e] w' Hi E.
  - destruct (ApplyReview_inv _ _ _ _ Hi E) as (_ & [(-> & _)|(u & now & Hu & -> & _)]); [by left|].
    right. apply after_review_change; [done|done|apply review_normalize_idem].
  - left. revert E. unfold ApplyReview, check, bind at 1, t_get.
    repeat (match goal with |- (match ?x with _ => _ end) _ = _ → _ => destruct x end; try discriminate);
      by intros [_ <-]%pair_equal_spec.
Qed.

Lemma artifact_command_changes c : changes (run_command c).
Proof.
  destruct c; cbn [run_command]; apply artifact_only;
    [apply CreateRevision_changes|apply ApplyReview_changes|apply transition_changes|apply transition_changes|..];
    intros w a w' _; unfold Get, GetByIdempotencyKey, GetLatest, GetReviewReceipt, bind, t_get;
    repeat case_match; intros [_ <-]%pair_equal_spec; by left.
Qed.

(** ** Runs *)

Inductive artifact_step w : timed MemoryStore → Prop :=
| step_command c e w' : run_command c w = (e, w') → artifact_step w w'
| step_clock n : artifact_step w (mkTimed (t_store w) n).

Definition artifact_future : timed MemoryStore → timed MemoryStore → Prop := rtc artifact_step.
Definition artifacts_reachable w : Prop := ∃ w0, t_store w0 = NewMemoryStore ∧ artifact_future w0 w.

Lemma artifact_future_changes w w' :
  artifact_future w w' → artifact_inv (t_store w) → rtc artifact_change (t_store w) (t_store w') ∧ artifact_inv (t_store w').
Proof.
  induction 1 as [w|w w1 w' Hs _ IH]; intros Hi; [done|].
  assert (t_store w1 = t_store w ∨ artifact_change (t_store w) (t_store w1)) as [E|Hc].
  { destruct Hs as [c e w1 E|n]; [by eapply artifact_command_changes|by left]. }
  - rewrite E in IH. by apply IH.
  - destruct IH as [Hr Hi']; [by eapply artifact_change_inv|]. split; [by eapply rtc_l|done].
Qed.

Lemma artifacts_reachable_inv w : artifacts_reachable w → artifact_inv (t_store w).
Proof. intros (w0 & E & Hf). apply (artifact_future_changes w0 w Hf). rewrite E. apply initial_artifact_inv. Qed.

(** ** A review is applied once *)

Lemma latest_revision_max s sessionID kind k r :
  byID s !! k = Some r → same_line sessionID kind r = true → av_Version r <= (latest_revision s sessionID kind).1.
Proof.
  intros Hr Hl. unfold latest_revision.
  assert (Hin : (k, r) ∈ map_range (byID s)) by (by rewrite map_range_perm, elem_of_map_to_list).
  revert Hin. generalize (map_range (byID s)) as l, (0, "" : string) as acc.
  set (f := fun latest '(_, candidate) => if same_line sessionID kind candidate && (latest.1 <? av_Version candidate)
    then (av_Version candidate, av_ID candidate) else latest).
  assert (Hstep : ∀ acc p, acc.1 <= (f acc p).1).
  { intros acc [j u]. cbn. destruct (same_line _ _ u); cbn; [|lia]. destruct (Z.ltb_spec acc.1 (av_Version u)); cbn; lia. }
  assert (Hmono : ∀ l acc, acc.1 <= (foldl f acc l).1).
  { induction l as [|p l IH]; intros acc; cbn; [lia|]. specialize (Hstep acc p). specialize (IH (f acc p)). lia. }
  induction l as [|p l IH]; intros acc Hin; [by apply elem_of_nil in Hin|]. cbn.
  apply elem_of_cons in Hin as [<-|Hin]; [|by apply IH].
  etrans; [|apply Hmono]. cbn. rewrite Hl. cbn. destruct (Z.ltb_spec acc.1 (av_Version r)); cbn; lia.
Qed.

Lemma review_is_latest s c k r :
  stale_review s c = None → rc_RequireLatest c = true → byID s !! k = Some r →
  same_line (rc_SessionID c) (rc_ArtifactKind c) r = true → av_Version r <= rc_ArtifactVersion c.
Proof.
  unfold stale_review. intros Hs Hreq Hr Hl. rewrite Hreq in Hs. pose proof (latest_revision_max s _ _ _ _ Hr Hl) as Hle.
  destruct (latest_revision _ _ _) as [v id]. cbn in Hle.
  destruct (Z.eqb_spec v (rc_ArtifactVersion c)); [subst; exact Hle|done].
Qed.

(** Beside an approved revision nothing of its line stays active. *)
Lemma beside_inactive u now v :
  same_line (av_SessionID u) (av_Kind u) v = true → av_ID v ≠ av_ID u → av_Status (supersede_beside u now v) ≠ StatusActive.
Proof.
  intros Hl Hid. unfold supersede_beside. rewrite Hl, (bool_decide_eq_false_2 _ Hid). cbn [andb negb].
  by case_bool_decide.
Qed.

(** What the first application of a review does. *)
Record review_applied (s s' : MemoryStore) (c : ReviewCommand) (u u' : Revision) (now : Time) : Prop := {
  ra_before : byID s !! rc_ArtifactID c = Some u ∧ av_Status u = StatusReviewing ∧
    av_SessionID u = rc_SessionID c ∧ av_Kind u = rc_ArtifactKind c ∧ av_Version u = rc_ArtifactVersion c;
  ra_after : byID s' !! rc_ArtifactID c = Some u' ∧ u' = reviewed_revision (rc_Decision c) u now;
  ra_beside k v : k ≠ rc_ArtifactID c → byID s !! k = Some v →
    byID s' !! k = Some (if bool_decide (rc_Decision c = ReviewDecisionApprove) then supersede_beside u now v else v);
  ra_alone k v : rc_Decision c = ReviewDecisionApprove → k ≠ rc_ArtifactID c → byID s' !! k = Some v →
    same_line (rc_SessionID c) (rc_ArtifactKind c) v = true → av_Status v ≠ StatusActive;
  ra_latest k v : rc_RequireLatest c = true → byID s !! k = Some v →
    same_line (rc_SessionID c) (rc_ArtifactKind c) v = true → av_Version v <= rc_ArtifactVersion c
}.

Lemma valid_status c : ReviewCommand_Validate (normalize c) = None → rc_ExpectedStatus (normalize c) = StatusReviewing.
Proof.
  unfold ReviewCommand_Validate. rewrite review_normalize_idem.
  do 2 (match goal with |- (if ?b then _ else _) = None → _ => destruct b; [done|] end).
  destruct (bool_decide (rc_ExpectedStatus _ = _)) eqn:E; [|done]. by apply bool_decide_eq_true in E.
Qed.

Lemma after_review_byID s c u now :
  byID (after_review s c u now) = <[av_ID (reviewed_revision (rc_Decision c) u now) := reviewed_revision (rc_Decision c) u now]>
    (if bool_decide (rc_Decision c = ReviewDecisionApprove) then supersede_beside u now <$> byID s else byID s).
Proof. reflexivity. Qed.

Lemma after_review_receipts s c u now :
  receipts (after_review s c u now) = <[rc_IdempotencyKey c :=
    cloneReceipt (new_receipt c (reviewed_revision (rc_Decision c) u now) now)]> (receipts s).
Proof. reflexivity. Qed.

Lemma after_review_applied s c u now :
  artifact_inv s → reviewable s c u → rc_ExpectedStatus c = StatusReviewing →
  review_applied s (after_review s c u now) c u (reviewed_revision (rc_Decision c) u now) now.
Proof.
  intros Hi [Hn Hu (E1 & E2 & E3) Hst Hl] Hrev.
  destruct (ri_filed _ Hi _ _ Hu) as [Hid _].
  assert (av_ID (reviewed_revision (rc_Decision c) u now) = rc_ArtifactID c) as Hid'.
  { destruct (follows_keys _ _ (reviewed_follows (rc_Decision c) u now)) as (-> & _). done. }
  assert (Hlook : ∀ k, k ≠ rc_ArtifactID c → byID (after_review s c u now) !! k
    = (fun v => if bool_decide (rc_Decision c = ReviewDecisionApprove) then supersede_beside u now v else v) <$> byID s !! k).
  { intros k Hne. rewrite after_review_byID, Hid', lookup_insert_ne by done. apply lookup_beside. }
  split.
  - split_and!; congruence.
  - split; [|done]. by rewrite after_review_byID, Hid', lookup_insert_eq.
  - intros k v Hne Hv. by rewrite Hlook, Hv.
  - intros k v Ha Hne Hv Hline. rewrite Hlook in Hv by done. destruct (byID s !! k) as [v0|] eqn:E; [|done].
    rewrite (bool_decide_eq_true_2 _ Ha) in Hv. cbn in Hv. injection Hv as <-.
    destruct (follows_keys _ _ (beside_follows u now v0)) as (Hk & _ & _ & Hs & Hkd).
    destruct (ri_filed _ Hi _ _ E) as [Hidv _].
    apply beside_inactive; [|congruence]. unfold same_line in *. by rewrite E1, E2, <-Hs, <-Hkd.
  - intros k v Hreq Hv Hline. by eapply review_is_latest.
Qed.

(** The same key asked again. *)
Lemma ApplyReview_replay w command t :
  receipts (t_store w) !! rc_IdempotencyKey (normalize command) = Some t → cloneReceipt t = t →
  ApplyReview command w =
    match ReviewCommand_Validate (normalize command) with
    | Some e => (Err e, w)
    | None =>
        if same_command (receipt_command t) (normalize command) then (Ok (mkReviewResult (rt_Result t) t false), w)
        else (Err (Wrapf "" ErrIdempotencyConflict
               (": artifact review command key=" +:+ rc_IdempotencyKey (normalize command))), w)
    end.
Proof.
  intros Ht Hcl. pose proof (f_equal rt_Result Hcl) as Hres. cbn in Hres.
  unfold ApplyReview, check, sameReviewCommand. rewrite review_normalize_idem.
  revert Ht. generalize (normalize command) as c. intros c Ht.
  destruct (ReviewCommand_Validate c); [done|]. unfold bind at 1, t_get. rewrite Ht, Hcl.
  destruct (same_command _ c); cbn [negb]; [|done]. unfold ret. by rewrite Hres.
Qed.

Lemma review_again w command t :
  artifact_inv (t_store w) → receipts (t_store w) !! rc_IdempotencyKey (normalize command) = Some t →
  (receipt_command t = normalize command → ReviewCommand_Validate (normalize command) = None →
     ApplyReview command w = (Ok (mkReviewResult (rt_Result t) t false), w)) ∧
  (receipt_command t ≠ normalize command → ∃ e, ApplyReview command w = (Err e, w) ∧
     (ReviewCommand_Validate (normalize command) = None → errors_Is e ErrIdempotencyConflict = true)).
Proof.
  intros Hi Ht. pose proof (ro_clone _ _ (ri_receipts _ Hi _ _ Ht)) as Hcl.
  rewrite (ApplyReview_replay _ _ _ Ht Hcl). generalize (normalize command) as c. intros c.
  destruct (ReviewCommand_Validate c) as [e|]; [split; [intros _ [=]|intros _; eexists; split; [reflexivity|intros [=]]]|].
  destruct (same_command (receipt_command t) c) eqn:Es.
  - split; [done|]. by apply same_command_true in Es.
  - split; [|intros _; eexists; split; [reflexivity|done]]. intros Hs%same_command_true. congruence.
Qed.

(** After an accepted review its receipt is there. *)
Lemma review_kept w command r w1 :
  artifact_inv (t_store w) → ApplyReview command w = (Ok r, w1) →
  artifact_inv (t_store w1) ∧ receipts (t_store w1) !! rc_IdempotencyKey (normalize command) = Some (rr_Receipt r) ∧
  receipt_command (rr_Receipt r) = normalize command ∧ rr_Revision r = rt_Result (rr_Receipt r).
Proof.
  intros Hi E. destruct (ApplyReview_inv _ _ _ _ Hi E) as [Hv Hcase].
  split; [destruct (ApplyReview_changes _ _ _ _ Hi E) as [-> | Hc]; [done|by eapply artifact_change_inv]|].
  destruct Hcase as [(-> & ? & ? & ? & _)|(u & now & Hu & -> & ->)]; [done|].
  destruct (new_receipt_ok _ _ _ now Hi Hu (review_normalize_idem command)) as [Hok Hraw].
  split; [by rewrite after_review_receipts, lookup_insert_eq|]. split; [|symmetry; exact (clone_idem _)].
  unfold review_result. cbn [rr_Receipt]. by rewrite (receipt_ok_command _ _ Hok).
Qed.

(** C11. A review of an artifact is applied once, on the latest revision and under
    its idempotency key for ever.  When [ApplyReview] is accepted, either it
    replays a receipt and changes nothing, or the revision was under review with
    the identity the command names; it then is active or rejected, the other
    revisions keep their places, and on approval no other revision of its line
    is active; with [RequireLatest] no revision of the line was newer.  From then
    on a command with this key is answered by the same receipt, without effect, if
    it is the same command, and refused as a conflict if it is another. *)
Theorem artifact_review_is_applied_once w w1 w2 command r :
  artifacts_reachable w → ApplyReview command w = (Ok r, w1) → artifact_future w1 w2 →
  let c := normalize command in
  (rr_Applied r = false ∧ w1 = w ∨
   rr_Applied r = true ∧ ∃ u now, review_applied (t_store w) (t_store w1) c u (rr_Revision r) now) ∧
  (∀ command', normalize command' = c →
     ApplyReview command' w2 = (Ok (mkReviewResult (rr_Revision r) (rr_Receipt r) false), w2)) ∧
  (∀ command', rc_IdempotencyKey (normalize command') = rc_IdempotencyKey c → normalize command' ≠ c →
     ∃ e, ApplyReview command' w2 = (Err e, w2) ∧
       (ReviewCommand_Validate (normalize command') = None → errors_Is e ErrIdempotencyConflict = true)).
Proof.
  intros Hi%artifacts_reachable_inv E Hf c. destruct (ApplyReview_inv _ _ _ _ Hi E) as [Hv Hcase]. fold c in Hv, Hcase.
  pose proof (review_kept _ _ _ _ Hi E) as Hkept. fold c in Hkept.
  destruct Hkept as (Hi1 & Hr1 & Hcmd & Hres). destruct (artifact_future_changes _ _ Hf Hi1) as [Hch Hi2].
  pose proof (run_receipts _ _ _ _ Hch Hr1) as Hr2. split_and!.
  - destruct Hcase as [(-> & _ & _ & _ & Ha)|(u & now & Hu & Hs & ->)]; [by left|]. right. split; [done|].
    exists u, now. rewrite Hs. cbn [rr_Revision review_result].
    assert (clone (reviewed_revision (rc_Decision c) u now) = reviewed_revision (rc_Decision c) u now) as ->.
    { eapply follows_clone; [apply reviewed_follows|]. by eapply (ri_filed _ Hi), rv_there. }
    apply after_review_applied; try done. by apply valid_status.
  - intros command' Hc'. rewrite <-Hc' in Hr2, Hcmd, Hv. rewrite Hres. by apply (proj1 (review_again w2 command' _ Hi2 Hr2)).
  - intros command' Hk Hne. rewrite <-Hk in Hr2. apply (proj2 (review_again w2 command' _ Hi2 Hr2)). congruence.
Qed.
End methods.

(** ** A concrete session: two exports, the second is accepted *)

Module ArtifactRun.
#[export] Instance clock : Clock := fun n => Z.of_nat (1 + n).
#[export] Program Instance in_map_order : MapRange := {| map_range A m := map_to_list m |}.
Next Obligation. done. Qed.

Definition export (id status : string) : Revision :=
  zeroRevision <| av_ID := id |> <| av_SessionID := "s" |> <| av_Kind := KindExportResult |>
    <| av_Status := status |> <| av_IdempotencyKey := id |> <| av_Content := Some ∅ |>.
Definition accept : ReviewCommand := mkReviewCommand "key" "s" "e2" KindExportResult 2 "" " Approve" true.
Definition refuse : ReviewCommand := mkReviewCommand "key" "s" "e2" KindExportResult 2 "" "reject" true.

Definition world0 : timed MemoryStore := mkTimed NewMemoryStore 0.
Definition world1 : timed MemoryStore := (run_command (RCreate (export "e1" StatusActive)) world0).2.
Definition world2 : timed MemoryStore := (run_command (RCreate (export "e2" StatusReviewing)) world1).2.
Definition world3 : timed MemoryStore := (ApplyReview accept world2).2.
Definition world4 : timed MemoryStore := (run_command (RCreate (export "e3" StatusReviewing)) world3).2.

Lemma artifact_steps c (w : timed MemoryStore) : artifact_step w (run_command c w).2.
Proof. apply (step_command _ c (run_command c w).1). by destruct (run_command c w). Qed.

Lemma exports_reachable : artifacts_reachable world2.
Proof. exists world0. split; [done|]. do 2 (eapply rtc_r; [|apply artifact_steps]). done. Qed.

Lemma accepted3 : ∃ r, ApplyReview accept world2 = (Ok r, world3) ∧ rr_Applied r = true.
Proof.
  destruct (answered (ApplyReview accept world2) rr_Applied) as (r & Hr & Ha); [vm_compute; reflexivity|].
  exists r. unfold world3. by split.
Qed.
End ArtifactRun.

#[local] Existing Instances ArtifactRun.clock ArtifactRun.in_map_order.

Lemma artifact_review_is_applied_once_witness :
  ∃ r, ApplyReview ArtifactRun.accept ArtifactRun.world4 = (Ok r, ArtifactRun.world4) ∧
    (∃ u now, review_applied (t_store ArtifactRun.world2) (t_store ArtifactRun.world3)
       (normalize ArtifactRun.accept) u (rr_Revision r) now) ∧
    ∃ e, ApplyReview ArtifactRun.refuse ArtifactRun.world4 = (Err e, ArtifactRun.world4).
Proof.
  destruct ArtifactRun.accepted3 as (r & Hr & Ha).
  destruct (artifact_review_is_applied_once _ _ ArtifactRun.world4 _ _ ArtifactRun.exports_reachable Hr)
    as ([[Hno _]|[_ Happ]] & Hagain & Hother); [apply rtc_once, ArtifactRun.artifact_steps|congruence|].
  eexists. split; [apply Hagain; reflexivity|]. split; [exact Happ|].
  destruct (Hother ArtifactRun.refuse) as (e & He & _); [vm_compute; reflexivity|vm_compute; discriminate|].
  by exists e.
Defined.
