(* ===== verification/ApprovalRuntime.v ===== *)
(** * The approval runtime, [internal/aigc/approvalruntime/service.go]

    The service that carries decisions out: it resolves what is under review,
    records the decision, claims its continuation, runs the frozen command on the
    spec, the storyboard or the artifact, notes the command in the ledger and wakes
    the agent.  Its state is an [rworld]: the stores of approvals, sessions, specs,
    artifacts, storyboards and generation jobs, the clock, the claim sequence and the
    outside [X].
    Every call of a store is one step; before each of them other actors may act
    ([actors]).  The stores are the in-memory ones; nil stores are flags of [Config].
    The enqueuer of inputs is the session store's [EnqueueInput], which is what
    [Manager.Enqueue] does to the store; its wake-up signals are left out. *)

From Stdlib Require Import ZArith Lia.
From S2P Require Import Prelude GoJson WorkflowStore SessionModels SessionStore.
From S2P Require Import ApprovalModels ApprovalStore Timed SpecStore ArtifactStore.
From S2P Require Import StoryboardModels StoryboardGraph StoryboardCommand StoryboardRevision StoryboardStore.

(** ** The world *)

Record rworld (X : Type) := mkRWorld {
  rw_approvals : ApprovalStore.MemoryStore;
  rw_sessions : SessionStore.MemoryStore;
  rw_specs : SpecStore.MemoryStore;
  rw_artifacts : ArtifactStore.MemoryStore;
  rw_boards : MemoryAggregateRepository;
  rw_jobs : WorkflowStore.MemoryStore;
  rw_reads : nat;
  rw_claims : Z;
  rw_ext : X
}.
Arguments mkRWorld {X}.
Arguments rw_approvals {X}.
Arguments rw_sessions {X}.
Arguments rw_specs {X}.
Arguments rw_artifacts {X}.
Arguments rw_boards {X}.
Arguments rw_jobs {X}.
Arguments rw_reads {X}.
Arguments rw_claims {X}.
Arguments rw_ext {X}.
#[global] Instance eta_rworld X : Eta (rworld X) := fun r =>
  mkRWorld (rw_approvals r) (rw_sessions r) (rw_specs r) (rw_artifacts r) (rw_boards r) (rw_jobs r)
    (rw_reads r) (rw_claims r) (rw_ext r).

(** What other processes do before a call. *)
Class Actors (X : Type) := { actors : Eff (rworld X) unit }.

(** [encoding/json] on the payloads of commands and outbox rows. *)
Class PayloadCodec := {
  json_Unmarshal_map : RawMessage → result (gomap any);
  json_Unmarshal_requested : RawMessage → result ApprovalContinuationRequested
}.

Record Config := mkConfig {
  cf_Approvals : bool;
  cf_Continuations : bool;
  cf_Inputs : bool;
  cf_Specs : bool;
  cf_Artifacts : bool;
  cf_Storyboards : bool;
  cf_StoryboardCommands : bool;
  cf_GenerationJobs : bool;
  cf_OwnerID : string;
  cf_LeaseTTL : Z
}.
#[global] Instance eta_Config : Eta Config := fun r =>
  mkConfig (cf_Approvals r) (cf_Continuations r) (cf_Inputs r) (cf_Specs r) (cf_Artifacts r) (cf_Storyboards r)
    (cf_StoryboardCommands r) (cf_GenerationJobs r) (cf_OwnerID r) (cf_LeaseTTL r).

(** [New]; the service is its configuration. *)
Definition New (config : Config) : result Config :=
  if negb (cf_Approvals config) || negb (cf_Continuations config)
  then Err (Errorf "approval and continuation stores are required")
  else
    let config := if bool_decide (cf_OwnerID config = "")
      then config <| cf_OwnerID := "approval-continuation" |> else config in
    let config := if cf_LeaseTTL config <=? 0 then config <| cf_LeaseTTL := 30 * second |> else config in
    Ok config.

Record DecideRequest := mkDecideRequest {
  dq_ApprovalID : string;
  dq_ExpectedDecisionVersion : Z;
  dq_IdempotencyKey : string;
  dq_Decision : string;
  dq_ActorID : string;
  dq_Reason : string
}.

Record DecideResult := mkDecideResult { ds_Decision : DecisionResult; ds_Applied : bool }.
Definition zeroDecideResult : DecideResult := mkDecideResult zeroDecisionResult false.

(** ** JSON of the results *)

Definition time_field (k : string) (t : Time) : list (string * any) := [(k, ATime t)].
Definition map_field_opt (k : string) (m : gomap any) : list (string * any) :=
  match omit_empty m with None => [] | Some m' => [(k, AObj (map_to_list m'))] end.
Definition list_field_opt {A} (k : string) (f : A → any) (l : list A) : list (string * any) :=
  match l with [] => [] | _ => [(k, AArr (f <$> l))] end.

Definition json_ArtifactBinding (r : ArtifactBinding) : any :=
  AObj (str_field "id" (bd_ID r) ++ str_field "storyboard_id" (bd_StoryboardID r) ++
    str_field "target_id" (bd_TargetID r) ++ str_field "asset_slot" (bd_AssetSlot r) ++
    str_field "asset_id" (bd_AssetID r) ++ str_field "state" (bd_State r) ++
    int_field "artifact_revision" (bd_ArtifactRevision r) ++ str_field_opt "attempt_id" (bd_AttemptID r) ++
    str_field_opt "approval_id" (bd_ApprovalID r) ++ int_field "target_revision" (bd_TargetRevision r) ++
    int_field "prompt_revision" (bd_PromptRevision r) ++ int_field "generation_epoch" (bd_GenerationEpoch r) ++
    str_field_opt "input_fingerprint" (bd_InputFingerprint r) ++ time_field "created_at" (bd_CreatedAt r)).

Definition json_StoryboardAggregate (r : StoryboardAggregate) : any :=
  AObj (str_field "id" (ag_ID r) ++ str_field "session_id" (ag_SessionID r) ++ int_field "version" (ag_Version r) ++
    int_field "plan_revision" (ag_PlanRevision r) ++ str_field_opt "active_revision_id" (ag_ActiveRevisionID r) ++
    str_field_opt "pending_revision_id" (ag_PendingRevisionID r) ++ str_field "status" (ag_Status r) ++
    list_field_opt "revisions" json_StoryboardRevision (ag_Revisions r) ++
    list_field_opt "bindings" json_ArtifactBinding (ag_Bindings r) ++
    list_field_opt "applied_command_ids" AStr (ag_AppliedCommandIDs r) ++
    map_field_opt "applied_command_hashes" (match ag_AppliedCommandHashes r with
      | Some m => Some (AStr <$> m) | None => None end) ++
    time_field "created_at" (ag_CreatedAt r) ++ time_field "updated_at" (ag_UpdatedAt r)).

Definition json_FinalVideoSpec (r : FinalVideoSpec) : any :=
  AObj (str_field "id" (fs_ID r) ++ str_field "session_id" (fs_SessionID r) ++ int_field "version" (fs_Version r) ++
    str_field "status" (fs_Status r) ++ str_field_opt "idempotency_key" (fs_IdempotencyKey r) ++
    str_field_opt "title" (fs_Title r) ++ str_field_opt "video_type" (fs_VideoType r) ++
    str_field_opt "target_audience" (fs_TargetAudience r) ++ str_field_opt "output_language" (fs_OutputLanguage r) ++
    int_field_opt "duration_seconds" (fs_DurationSeconds r) ++ str_field_opt "aspect_ratio" (fs_AspectRatio r) ++
    str_field_opt "narrative_driver" (fs_NarrativeDriver r) ++ str_field_opt "visual_style" (fs_VisualStyle r) ++
    str_field_opt "sound_style" (fs_SoundStyle r) ++ str_field_opt "model_preference" (fs_ModelPreference r) ++
    str_field_opt "markdown" (fs_Markdown r) ++ map_field_opt "fields" (fs_Fields r) ++
    time_field "created_at" (fs_CreatedAt r) ++ time_field "updated_at" (fs_UpdatedAt r)).

Definition json_artifact_Revision (r : Revision) : any :=
  AObj (str_field "id" (av_ID r) ++ str_field "session_id" (av_SessionID r) ++ str_field "kind" (av_Kind r) ++
    int_field "version" (av_Version r) ++ str_field "status" (av_Status r) ++
    str_field "idempotency_key" (av_IdempotencyKey r) ++ map_field_opt "derived_from" (any_ints (av_DerivedFrom r)) ++
    [("content", match av_Content r with Some m => AObj (map_to_list m) | None => ANil end)] ++
    str_field_opt "created_by" (av_CreatedBy r) ++ time_field "created_at" (av_CreatedAt r) ++
    time_field "updated_at" (av_UpdatedAt r) ++
    match av_ActivatedAt r with Some t => time_field "activated_at" t | None => [] end).

(** [structMap]: the JSON text of a struct read into a map. *)
Definition structMap (value : any) : gomap any :=
  match json_copy value with AObj l => Some (list_to_map l) | _ => Some ∅ end.

(** [int(value)] of a float, which is -2^63 out of range on amd64. *)
Definition int_of_float (m e : Z) : Z :=
  let v := if 0 <=? e then m * 2 ^ e else m ÷ 2 ^ (- e) in
  if (int64_min <=? v) && (v <=? int64_max) then v else int64_min.

(** A decoded map holds no [json.Number]. *)
Definition intValue (values : gomap any) (key : string) : Z :=
  match go_lookup values key with
  | Some (AFloat m e) => int_of_float m e
  | Some (AInt z) => z
  | _ => 0
  end.

Definition stringValue `{Formatting} (values : gomap any) (key : string) : string :=
  TrimSpace (Sprint (default ANil (go_lookup values key))).

(** ** The commands a decision can carry *)

Definition is_storyboard_command (kind : string) : bool :=
  bool_decide (kind ∈ ["PromoteStoryboardRevision"; "RejectAndArchivePendingRevision";
                       "ActivateArtifactBinding"; "RejectArtifactBinding"]).
Definition is_spec_command (kind : string) : bool :=
  bool_decide (kind ∈ ["ActivateCreationSpecRevision"; "RejectCreationSpecRevision"]).
Definition is_export_command (kind : string) : bool :=
  bool_decide (kind ∈ ["MarkExportAccepted"; "RejectExportResult"]).

(** What a receipt of an export command must say. *)
Definition export_decision (kind : string) : string :=
  if bool_decide (kind = "RejectExportResult") then ReviewDecisionReject else ReviewDecisionApprove.
Definition export_status (kind : string) : string :=
  if bool_decide (kind = "RejectExportResult") then ArtifactStore.StatusRejected else ArtifactStore.StatusActive.

Definition receipt_changed (receipt : ReviewCommandReceipt) (record : Approval) (decision : ApprovalDecision)
    (artifactID : string) (artifactVersion : Z) : bool :=
  negb (bool_decide (rt_IdempotencyKey receipt = ad_CommandIdempotencyKey decision))
  || negb (bool_decide (rt_SessionID receipt = ap_SessionID record))
  || negb (bool_decide (rt_ArtifactID receipt = artifactID))
  || negb (bool_decide (rt_ArtifactKind receipt = KindExportResult))
  || negb (rt_ArtifactVersion receipt =? artifactVersion)
  || negb (bool_decide (rt_ExpectedStatus receipt = ArtifactStore.StatusReviewing))
  || negb (bool_decide (rt_Decision receipt = export_decision (ad_CommandKind decision)))
  || negb (rt_RequireLatest receipt).

Definition result_changed (result : Revision) (record : Approval) (decision : ApprovalDecision)
    (artifactID : string) (artifactVersion : Z) : bool :=
  negb (bool_decide (av_ID result = artifactID))
  || negb (bool_decide (av_SessionID result = ap_SessionID record))
  || negb (bool_decide (av_Kind result = KindExportResult))
  || negb (av_Version result =? artifactVersion)
  || negb (bool_decide (av_Status result = export_status (ad_CommandKind decision))).

(** ** The candidate of a slot *)

Definition candidateAttachedToSlot (revision : StoryboardRevision) (targetID slotKey bindingID : string) : bool :=
  existsb (fun module => existsb (fun element =>
      bool_decide (el_ID element = targetID)
      && existsb (fun slot => bool_decide (sl_Key slot = slotKey)
                              && bool_decide (bindingID ∈ elems (sl_CandidateIDs slot)))
           (elems (el_AssetSlots element)))
    (md_Elements module)) (rv_Modules revision).

Definition superseded_binding (binding : VersionBinding) : VersionBinding := binding <| vb_ArtifactVersion := -1 |>.

Definition currentCandidateBinding `{Digest} (aggregate : StoryboardAggregate) (binding : VersionBinding) : VersionBinding :=
  match List.find (fun stored => bool_decide (bd_ID stored = vb_ArtifactID binding)
                                 && bool_decide (bd_State stored = BindingStateCandidate)) (ag_Bindings aggregate) with
  | None => superseded_binding binding
  | Some candidate =>
      if negb (bd_ArtifactRevision candidate =? vb_ArtifactVersion binding) then superseded_binding binding
      else
        let '(current, err) := ResolveGenerationInput aggregate (bd_TargetID candidate) (bd_AssetSlot candidate) in
        if bool_decide (is_Some err)
           || negb (bool_decide (bd_TargetID candidate = vb_TargetID binding))
           || negb (bd_TargetRevision candidate =? gi_TargetRevision current)
           || negb (bd_PromptRevision candidate =? gi_PromptRevision current)
           || negb (bd_GenerationEpoch candidate =? gi_GenerationEpoch current)
           || blank (bd_InputFingerprint candidate)
           || negb (bool_decide (bd_InputFingerprint candidate = gi_Fingerprint current))
        then superseded_binding binding
        else if match ActiveRevision aggregate with
                | Err _ => true
                | Ok revision => negb (candidateAttachedToSlot revision (bd_TargetID candidate)
                                   (bd_AssetSlot candidate) (bd_ID candidate))
                end
        then superseded_binding binding
        else binding <| vb_TargetRevision := gi_TargetRevision current |>
               <| vb_PromptRevision := gi_PromptRevision current |>
               <| vb_GenerationEpoch := gi_GenerationEpoch current |>
  end.

Section service.
Context `{Codec} `{ApprovalCodec} `{PayloadCodec} `{Digest} `{Formatting} `{MapRange} `{Clock} {X : Type} `{Actors X}.
Variable cfg : Config.

(** ** Calls of the stores *)

Definition on_approvals {A} (c : Eff (aworld unit) A) : Eff (rworld X) A :=
  let* _ := actors in fun w =>
  let '(a, w') := c (mkAWorld (rw_approvals w) (rw_reads w) tt) in
  (a, w <| rw_approvals := aw_store w' |> <| rw_reads := aw_reads w' |>).

Definition on_sessions {A} (c : Eff (sworld unit) A) : Eff (rworld X) A :=
  let* _ := actors in fun w =>
  let '(a, w') := c (mkSWorld (rw_sessions w) (rw_reads w) tt) in
  (a, w <| rw_sessions := sw_store w' |> <| rw_reads := sw_reads w' |>).

Definition on_specs {A} (c : Eff (timed SpecStore.MemoryStore) A) : Eff (rworld X) A :=
  let* _ := actors in fun w =>
  let '(a, w') := c (mkTimed (rw_specs w) (rw_reads w)) in
  (a, w <| rw_specs := t_store w' |> <| rw_reads := t_reads w' |>).

Definition on_artifacts {A} (c : Eff (timed ArtifactStore.MemoryStore) A) : Eff (rworld X) A :=
  let* _ := actors in fun w =>
  let '(a, w') := c (mkTimed (rw_artifacts w) (rw_reads w)) in
  (a, w <| rw_artifacts := t_store w' |> <| rw_reads := t_reads w' |>).

Definition on_boards {A} (c : Eff (bworld unit) A) : Eff (rworld X) A :=
  let* _ := actors in fun w =>
  let '(a, w') := c (mkBWorld (rw_boards w) (rw_reads w) tt) in
  (a, w <| rw_boards := bw_repo w' |> <| rw_reads := bw_reads w' |>).

(** [s.cfg.GenerationJobs.ListBySession], a query. *)
Definition jobs_of_session (sessionID : string) : Eff (rworld X) (result (list GenModels.GenerationJob)) :=
  let* _ := actors in fun w =>
  ((ListBySession sessionID (mkWorld (rw_jobs w) (mkEnv 0 0 tt))).1, w).

(** [s.cfg.Now()]. *)
Definition r_now : Eff (rworld X) Time := fun w => (now_at (rw_reads w), w <| rw_reads := S (rw_reads w) |>).

(** [s.claimSequence.Add(1)], of type [uint64]. *)
Definition next_claim : Eff (rworld X) Z := fun w =>
  let n := (rw_claims w + 1) mod 2 ^ 64 in (n, w <| rw_claims := n |>).

(** [s.cfg.Inputs.Enqueue]. *)
Definition enqueue (sessionID : string) (input : TypedInput) : Eff (rworld X) (result EnqueueResult) :=
  on_sessions (EnqueueInput sessionID (ByValue input)).

(** ** What is under review *)

(** [s.cfg.Specs] also implements [ConfirmedSpecSource] when there is one. *)
Definition storyboardMatchesConfirmedSpec (aggregate : StoryboardAggregate) (revisionID : string)
    : Eff (rworld X) (result bool) :=
  if negb (cf_Specs cfg) || blank revisionID then ret (Ok true)
  else match List.find (has_revision_id revisionID) (ag_Revisions aggregate) with
       | None => ret (Ok false)
       | Some revision =>
           let* r := on_specs (GetConfirmedBySession (ag_SessionID aggregate)) in
           match r with
           | Err err => if errors_Is err SpecStore.ErrNotFound then ret (Ok false) else fail err
           | Ok confirmed =>
               ret (Ok ((rv_DerivedFromSpecVersion revision =? 0)
                        || (rv_DerivedFromSpecVersion revision =? fs_Version confirmed)))
           end
       end.

Definition resolve_spec (record : Approval) : Eff (rworld X) (result VersionBinding) :=
  let binding := ap_Binding record in
  if negb (cf_Specs cfg) then fail (Errorf "spec revision store is required")
  else
    try* value := on_specs (GetRevision (vb_ArtifactID binding) (vb_ArtifactVersion binding)) in
    if negb (bool_decide (fs_Status value = SpecStore.StatusReviewing))
       || negb (bool_decide (fs_SessionID value = ap_SessionID record))
    then ret (Ok (superseded_binding binding))
    else
      let* r := on_specs (GetLatestReviewingBySession (fs_SessionID value)) in
      match r with
      | Err err => if errors_Is err SpecStore.ErrNotFound then ret (Ok (superseded_binding binding)) else fail err
      | Ok latest =>
          if negb (bool_decide (fs_ID latest = fs_ID value)) || negb (fs_Version latest =? fs_Version value)
          then ret (Ok (superseded_binding binding)) else ret (Ok binding)
      end.

Definition resolve_storyboard (record : Approval) : Eff (rworld X) (result VersionBinding) :=
  let binding := ap_Binding record in
  if negb (cf_Storyboards cfg) then fail (Errorf "storyboard repository is required")
  else
    try* aggregate := on_boards (GetAggregate (vb_StoryboardID binding)) in
    let binding := if negb (bool_decide (ag_PendingRevisionID aggregate = vb_ArtifactID binding))
      then superseded_binding binding else binding in
    try* matches_ := storyboardMatchesConfirmedSpec aggregate (vb_ArtifactID binding) in
    ret (Ok (if negb matches_ then superseded_binding binding else binding)).

Definition resolve_candidate (record : Approval) : Eff (rworld X) (result VersionBinding) :=
  let binding := ap_Binding record in
  if negb (cf_Storyboards cfg) then fail (Errorf "storyboard repository is required")
  else
    try* aggregate := on_boards (GetAggregate (vb_StoryboardID binding)) in
    try* matches_ := storyboardMatchesConfirmedSpec aggregate (ag_ActiveRevisionID aggregate) in
    ret (Ok (if negb matches_ then superseded_binding binding else currentCandidateBinding aggregate binding)).

Definition resolve_export (record : Approval) : Eff (rworld X) (result VersionBinding) :=
  let binding := ap_Binding record in
  if negb (cf_Artifacts cfg) then fail (Errorf "artifact store is required")
  else
    try* value := on_artifacts (ArtifactStore.Get (vb_ArtifactID binding)) in
    if negb (bool_decide (av_SessionID value = ap_SessionID record))
       || negb (bool_decide (av_Kind value = KindExportResult))
       || negb (av_Version value =? vb_ArtifactVersion binding)
       || negb (bool_decide (av_Status value = ArtifactStore.StatusReviewing))
    then ret (Ok (superseded_binding binding))
    else
      let* r := on_artifacts (GetLatest (ap_SessionID record) KindExportResult) in
      match r with
      | Err err => if errors_Is err ArtifactStore.ErrNotFound then ret (Ok (superseded_binding binding)) else fail err
      | Ok latest =>
          if negb (bool_decide (av_ID latest = av_ID value)) || negb (av_Version latest =? av_Version value)
          then ret (Ok (superseded_binding binding)) else ret (Ok binding)
      end.

Definition ResolveBinding (record : Approval) : Eff (rworld X) (result VersionBinding) :=
  let kind := ap_ArtifactType record in
  if bool_decide (kind = "creation_spec_revision") then resolve_spec record
  else if bool_decide (kind = "storyboard_revision") then resolve_storyboard record
  else if bool_decide (kind = "candidate_asset") then resolve_candidate record
  else if bool_decide (kind = "export_result") then resolve_export record
  else ret (Ok (ap_Binding record)).

(** ** The stale target is put away *)

Definition cleanup_command (record : Approval) : string := "approval:" +:+ ap_ID record +:+ ":stale-cleanup".

Definition cleanup_revision (record : Approval) : Eff (rworld X) (result unit) :=
  let binding := ap_Binding record in
  try* aggregate := on_boards (GetAggregate (vb_StoryboardID binding)) in
  if negb (bool_decide (ag_PendingRevisionID aggregate = vb_ArtifactID binding)) then ret (Ok tt)
  else
    try* _ := on_boards (DecidePending (mkDecidePendingRevisionCommand (cleanup_command record)
      (cleanup_command record) (ag_ID aggregate) (ag_Version aggregate) (vb_ArtifactID binding) "stale" ""
      "approval_stale_cleanup")) in
    ret (Ok tt).

Definition cleanup_candidate (record : Approval) : Eff (rworld X) (result unit) :=
  let binding := ap_Binding record in
  try* aggregate := on_boards (GetAggregate (vb_StoryboardID binding)) in
  match List.find (fun stored => bool_decide (bd_ID stored = vb_ArtifactID binding)
                                 && bool_decide (bd_State stored = BindingStateCandidate)) (ag_Bindings aggregate) with
  | None => ret (Ok tt)
  | Some stored =>
      try* _ := on_boards (Service_RejectBinding (mkRejectBindingCommand (cleanup_command record)
        (ag_ID aggregate) (ag_Version aggregate) (bd_ID stored))) in
      ret (Ok tt)
  end.

Definition cleanupStaleArtifact (record : Approval) : Eff (rworld X) (result unit) :=
  if negb (cf_StoryboardCommands cfg) || negb (cf_Storyboards cfg) then ret (Ok tt)
  else if bool_decide (ap_ArtifactType record = "storyboard_revision") then cleanup_revision record
  else if bool_decide (ap_ArtifactType record = "candidate_asset") then cleanup_candidate record
  else ret (Ok tt).

(** ** Frozen commands *)

Definition recovered (l : list (string * any)) : gomap any := payload (l ++ [("recovered_domain_commit", ABool true)]).

Definition inspect_storyboard (decision : ApprovalDecision) (values : gomap any)
    : Eff (rworld X) (result (option (gomap any))) :=
  if negb (cf_Storyboards cfg) then fail (Errorf "storyboard repository is required")
  else
    try* aggregate := on_boards (GetAggregate (stringValue values "storyboard_id")) in
    ret (Ok (if negb (HasApplied aggregate (ad_CommandIdempotencyKey decision)) then None
             else Some (recovered [("aggregate", json_StoryboardAggregate (PublicView aggregate))]))).

Definition inspect_spec (decision : ApprovalDecision) (values : gomap any)
    : Eff (rworld X) (result (option (gomap any))) :=
  if negb (cf_Specs cfg) then fail (Errorf "spec revision store is required")
  else
    try* value := on_specs (GetRevision (stringValue values "spec_id") (intValue values "spec_version")) in
    let expected := if bool_decide (ad_CommandKind decision = "RejectCreationSpecRevision")
      then SpecStore.StatusRejected else StatusConfirmed in
    ret (Ok (if negb (bool_decide (fs_Status value = expected)) then None
             else Some (structMap (json_FinalVideoSpec value)))).

Definition inspect_export (record : Approval) (decision : ApprovalDecision) (values : gomap any)
    : Eff (rworld X) (result (option (gomap any))) :=
  if negb (cf_Artifacts cfg) then fail (Errorf "artifact store is required")
  else
    let* r := on_artifacts (GetReviewReceipt (ad_CommandIdempotencyKey decision)) in
    match r with
    | Err err => if errors_Is err ArtifactStore.ErrNotFound then ret (Ok None) else fail err
    | Ok receipt =>
        let artifactID := stringValue values "artifact_id" in
        let artifactVersion := intValue values "artifact_version" in
        if receipt_changed receipt record decision artifactID artifactVersion
        then fail (Wrapf "" ArtifactStore.ErrIdempotencyConflict ": export approval command receipt changed")
        else if result_changed (rt_Result receipt) record decision artifactID artifactVersion
        then fail (Wrapf "" ArtifactStore.ErrIdempotencyConflict ": export approval command result receipt changed")
        else ret (Ok (Some (match structMap (json_artifact_Revision (rt_Result receipt)) with
                            | Some m => Some (<["recovered_domain_commit" := ABool true]> m) | None => None end)))
    end.

(** [Ok None]: the command has not been carried out. *)
Definition inspectAppliedCommand (record : Approval) (decision : ApprovalDecision)
    : Eff (rworld X) (result (option (gomap any))) :=
  if blank (ad_CommandKind decision) || blank (ad_CommandIdempotencyKey decision) then ret (Ok None)
  else match json_Unmarshal_map (ad_CommandPayload decision) with
       | Err err => fail err
       | Ok values =>
           if is_storyboard_command (ad_CommandKind decision) then inspect_storyboard decision values
           else if is_spec_command (ad_CommandKind decision) then inspect_spec decision values
           else if is_export_command (ad_CommandKind decision) then inspect_export record decision values
           else ret (Ok None)
       end.

Definition execute_spec (decision : ApprovalDecision) (values : gomap any) : Eff (rworld X) (result (gomap any)) :=
  if negb (cf_Specs cfg) then fail (Errorf "spec revision store is required")
  else
    try* value := on_specs (DecideRevision (stringValue values "spec_id") (intValue values "spec_version")
      (bool_decide (ad_CommandKind decision = "ActivateCreationSpecRevision"))) in
    ret (Ok (structMap (json_FinalVideoSpec value))).

Definition execute_revision (decision : ApprovalDecision) (values : gomap any) : Eff (rworld X) (result (gomap any)) :=
  try* current := on_boards (GetAggregate (stringValue values "storyboard_id")) in
  let decisionValue := if bool_decide (ad_CommandKind decision = "PromoteStoryboardRevision")
    then "approved" else "rejected" in
  try* '(value, diff) := on_boards (DecidePending (mkDecidePendingRevisionCommand
    (ad_CommandIdempotencyKey decision) (ad_CommandIdempotencyKey decision) (ag_ID current) (ag_Version current)
    (stringValue values "revision_id") decisionValue "" "approval")) in
  ret (Ok (payload [("aggregate", json_StoryboardAggregate value); ("diff", json_RevisionDiff diff)])).

Definition execute_activation (decision : ApprovalDecision) (values : gomap any) : Eff (rworld X) (result (gomap any)) :=
  try* current := on_boards (GetAggregate (stringValue values "storyboard_id")) in
  try* '(value, stale) := on_boards (Activate (mkActivateBindingCommand (ad_CommandIdempotencyKey decision)
    (ag_ID current) (ag_Version current) (stringValue values "binding_id"))) in
  ret (Ok (payload [("aggregate", json_StoryboardAggregate value); ("stale_targets", strings stale)])).

Definition execute_rejection (decision : ApprovalDecision) (values : gomap any) : Eff (rworld X) (result (gomap any)) :=
  try* current := on_boards (GetAggregate (stringValue values "storyboard_id")) in
  try* '(value, _) := on_boards (Service_RejectBinding (mkRejectBindingCommand (ad_CommandIdempotencyKey decision)
    (ag_ID current) (ag_Version current) (stringValue values "binding_id"))) in
  ret (Ok (payload [("aggregate", json_StoryboardAggregate value)])).

(** The review command a decision on an export stands for. *)
Definition export_command (record : Approval) (decision : ApprovalDecision) (values : gomap any) : ReviewCommand :=
  mkReviewCommand (ad_CommandIdempotencyKey decision) (ap_SessionID record) (stringValue values "artifact_id")
    KindExportResult (intValue values "artifact_version") ArtifactStore.StatusReviewing
    (export_decision (ad_CommandKind decision)) true.

Definition execute_export (record : Approval) (decision : ApprovalDecision) (values : gomap any)
    : Eff (rworld X) (result (gomap any)) :=
  if negb (cf_Artifacts cfg) then fail (Errorf "artifact store is required")
  else
    try* result := on_artifacts (ApplyReview (export_command record decision values)) in
    ret (Ok (structMap (json_artifact_Revision (rr_Revision result)))).

Definition executeCommand (record : Approval) (decision : ApprovalDecision) : Eff (rworld X) (result (gomap any)) :=
  match json_Unmarshal_map (ad_CommandPayload decision) with
  | Err err => fail err
  | Ok values =>
      let kind := ad_CommandKind decision in
      if is_spec_command kind then execute_spec decision values
      else if is_storyboard_command kind then
        if negb (cf_StoryboardCommands cfg) || negb (cf_Storyboards cfg)
        then fail (Errorf "storyboard command service is required")
        else if bool_decide (kind = "ActivateArtifactBinding") then execute_activation decision values
        else if bool_decide (kind = "RejectArtifactBinding") then execute_rejection decision values
        else execute_revision decision values
      else if is_export_command kind then execute_export record decision values
      else fail (Errorf ("unsupported frozen approval command " +:+ Quote kind))
  end.

(** ** Applying a continuation *)

(** [s.fail]: the claim is given back with the cause. *)
Definition give_back {A} (claim : ContinuationClaim) (cause : error) : Eff (rworld X) (result A) :=
  let* r := on_sessions (FailContinuation claim (mkFailure "approval_command_failed" (err_text cause))) in
  match r with
  | Err failErr => fail (errors_Join cause failErr)
  | Ok _ => fail cause
  end.

Definition SupersededApprovalNoop := "SupersededApprovalNoop".

Definition appliedCommandResult (decision : ApprovalDecision) : Eff (rworld X) (result RawMessage) :=
  if blank (ad_CommandKind decision)
  then ret (Ok (json_Marshal_map (payload [("effective_status", AStr (ad_EffectiveStatus decision))])))
  else
    let* r := on_sessions (GetCommand (ad_ApprovalID decision) (ad_DecisionVersion decision) (ad_CommandKind decision)) in
    let* r := match r with
      | Err err => if errors_Is err ErrContinuationNotFound
          then on_sessions (GetCommand (ad_ApprovalID decision) (ad_DecisionVersion decision) SupersededApprovalNoop)
          else ret (Err err)
      | Ok command => ret (Ok command)
      end in
    match r with
    | Err err => fail err
    | Ok command =>
        let result := if bool_decide (cl_ResultPayload command = "") then "{}" else cl_ResultPayload command in
        if negb (json_Valid result) then fail (Errorf "approval command result is invalid JSON") else ret (Ok result)
    end.

(** The input that tells the agent what came of the decision. *)
Definition continuation_result (record : Approval) (decision : ApprovalDecision) (continuation : ApprovalContinuation)
    (commandResult : RawMessage) : ApprovalContinuationResult :=
  (NewApprovalContinuationResult (ap_ID record) (ad_DecisionVersion decision) (ac_ExecutionEpoch continuation) "")
    <| ar_RequestedDecision := ad_RequestedDecision decision |>
    <| ar_EffectiveStatus := ad_EffectiveStatus decision |>
    <| ar_ArtifactType := ap_ArtifactType record |>
    <| ar_ArtifactID := vb_ArtifactID (ap_Binding record) |>
    <| ar_ArtifactVersion := vb_ArtifactVersion (ap_Binding record) |>
    <| ar_StoryboardID := vb_StoryboardID (ap_Binding record) |>
    <| ar_StoryboardVersion := vb_StoryboardVersion (ap_Binding record) |>
    <| ar_CommandKind := ad_CommandKind decision |>
    <| ar_CommandResult := commandResult |>.

Definition finishApplied (continuation : ApprovalContinuation) : Eff (rworld X) (result bool) :=
  if negb (bool_decide (ac_Executor continuation = ContinuationExecutorDeterministic)) then ret (Ok true)
  else if negb (bool_decide (ac_Status continuation = ContinuationStatusApplied))
  then fail (Errorf ("approval continuation is not applied: " +:+ ac_Status continuation))
  else if negb (cf_Inputs cfg)
  then fail (Errorf "session input enqueuer is required for deterministic approval continuation")
  else
    try* record := on_approvals (ApprovalStore.Get (ac_ApprovalID continuation)) in
    try* decision := on_approvals (GetDecision (ac_ApprovalID continuation) (ac_DecisionVersion continuation)) in
    if negb (bool_decide (ap_SessionID record = ac_SessionID continuation))
       || negb (ap_DecisionVersion record =? ac_DecisionVersion continuation)
       || negb (ap_ExecutionEpoch record =? ac_ExecutionEpoch continuation)
       || negb (bool_decide (ap_Status record = ad_EffectiveStatus decision))
    then fail (Errorf "approval continuation result fence rejected")
    else
      try* commandResult := appliedCommandResult decision in
      try* _ := enqueue (ap_SessionID record)
        (TApprovalContinuation (continuation_result record decision continuation commandResult)) in
      ret (Ok true).

(** The entry of the ledger for a command with its result. *)
Definition ledger_entry (claimed : ApprovalContinuation) (decision : ApprovalDecision) (result : gomap any)
    : ApprovalCommandLedger :=
  mkApprovalCommandLedger (ad_ApprovalID decision) (ad_DecisionVersion decision) (ad_CommandKind decision)
    (ac_ExecutionEpoch claimed) (ad_CommandIdempotencyKey decision) (ad_CommandPayload decision)
    (json_Marshal_map result) zeroTime.

Definition noop_entry (claimed : ApprovalContinuation) (decision : ApprovalDecision) : ApprovalCommandLedger :=
  mkApprovalCommandLedger (ad_ApprovalID decision) (ad_DecisionVersion decision) SupersededApprovalNoop
    (ac_ExecutionEpoch claimed)
    ("approval:" +:+ ad_ApprovalID decision +:+ ":superseded:" +:+ pretty (ad_DecisionVersion decision)) ""
    (json_Marshal_map (payload [("status", AStr ApprovalModels.StatusStale); ("superseded", ABool true)])) zeroTime.

Definition record_and_finish (claim : ContinuationClaim) (commands : list ApprovalCommandLedger)
    : Eff (rworld X) (result bool) :=
  try* appliedContinuation := on_sessions (ApplyContinuation claim commands) in
  finishApplied appliedContinuation.

Definition applySupersededNoop (claim : ContinuationClaim) (claimed : ApprovalContinuation) (record : Approval)
    (decision : ApprovalDecision) : Eff (rworld X) (result bool) :=
  let* r := cleanupStaleArtifact record in
  match r with
  | Err cleanupErr => give_back claim cleanupErr
  | Ok _ => record_and_finish claim [noop_entry claimed decision]
  end.

(** The end of [Apply]: the command is run, unless the decision has none. *)
Definition run_frozen (claim : ContinuationClaim) (claimed : ApprovalContinuation) (record : Approval)
    (decision : ApprovalDecision) : Eff (rworld X) (result bool) :=
  if bool_decide (ad_CommandKind decision = "") then record_and_finish claim []
  else
    let* r := executeCommand record decision in
    match r with
    | Err err =>
        if errors_Is err ArtifactStore.ErrStale || errors_Is err ErrNotReviewable
        then applySupersededNoop claim claimed record decision
        else give_back claim err
    | Ok result => record_and_finish claim [ledger_entry claimed decision result]
    end.

(** What follows once the claim is ours and the approval and its decision are read. *)
Definition apply_claimed (claim : ContinuationClaim) (claimed : ApprovalContinuation) (record : Approval)
    (decision : ApprovalDecision) : Eff (rworld X) (result bool) :=
  let* current := ResolveBinding record in
  match current with
  | Err resolveErr => give_back claim resolveErr
  | Ok current =>
      let* inspected := inspectAppliedCommand record decision in
      match inspected with
      | Err inspectErr => give_back claim inspectErr
      | Ok (Some result) => record_and_finish claim [ledger_entry claimed decision result]
      | Ok None =>
          if negb (VersionBinding_Matches (ap_Binding record) current)
          then applySupersededNoop claim claimed record decision
          else run_frozen claim claimed record decision
      end
  end.

Definition fenced (record : Approval) (claimed : ApprovalContinuation) (decision : ApprovalDecision) : bool :=
  negb (ap_DecisionVersion record =? ac_DecisionVersion claimed)
  || negb (ap_ExecutionEpoch record =? ac_ExecutionEpoch claimed)
  || negb (bool_decide (ap_Status record = ad_EffectiveStatus decision)).

Definition Apply (continuation : ApprovalContinuation) : Eff (rworld X) (result bool) :=
  let* n := next_claim in
  let claim := mkContinuationClaim (ac_ApprovalID continuation) (ac_DecisionVersion continuation)
    (ac_Executor continuation) (ac_ExecutionEpoch continuation) (cf_OwnerID cfg +:+ ":" +:+ pretty n) in
  let* r := on_sessions (ClaimContinuation claim (cf_LeaseTTL cfg)) in
  match r with
  | Err err => if errors_Is err ErrContinuationClaimed then ret (Ok false) else fail err
  | Ok claimed =>
      if bool_decide (ac_Status claimed = ContinuationStatusApplied) then finishApplied claimed
      else
        let* r := on_approvals (GetDecision (ac_ApprovalID claimed) (ac_DecisionVersion claimed)) in
        match r with
        | Err err => give_back claim err
        | Ok decision =>
            let* r := on_approvals (ApprovalStore.Get (ac_ApprovalID claimed)) in
            match r with
            | Err err => give_back claim err
            | Ok record =>
                if fenced record claimed decision
                then give_back claim (Errorf "approval continuation version fence rejected")
                else apply_claimed claim claimed record decision
            end
        end
  end.

(** ** Deciding *)

Definition Service_GetContinuation (approvalID : string) (decisionVersion : Z)
    : Eff (rworld X) (result ApprovalContinuation) :=
  if negb (cf_Continuations cfg) then fail (Errorf "approval continuation store is required")
  else on_sessions (SessionStore.GetContinuation (TrimSpace approvalID) decisionVersion).

(** An approval that waits for an interrupt nobody has mapped goes the durable way. *)
Definition settle_mode (record : Approval) : Eff (rworld X) (result Approval) :=
  if bool_decide (ap_ExecutionMode record = ExecutionModeInterrupt)
     && (bool_decide (ap_CheckpointMappingID record = "") || (ap_MappingEpoch record <=? 0))
  then
    let* now := r_now in
    let* r := on_approvals (SwitchToDurableFallback (mkFallbackCommand (ap_ID record) (ap_ExecutionMode record)
      (ap_ExecutionEpoch record) (ap_DecisionVersion record) now)) in
    match r with
    | Err err => fail (Wrapf "switch approval to durable fallback: " err "")
    | Ok fallback => ret (Ok (fr_Approval fallback))
    end
  else ret (Ok record).

(** The binding to decide on: the one a repeated request saw first. *)
Definition observed_binding (request : DecideRequest) (record : Approval) : Eff (rworld X) (result VersionBinding) :=
  if 0 <? ap_DecisionVersion record then
    let* r := on_approvals (GetDecision (ap_ID record) (ap_DecisionVersion record)) in
    match r with
    | Ok decision =>
        match ad_ObservedBinding decision with
        | Some observed =>
            if bool_decide (ad_IdempotencyKey decision = TrimSpace (dq_IdempotencyKey request))
            then ret (Ok observed) else ResolveBinding record
        | None => ResolveBinding record
        end
    | Err _ => ResolveBinding record
    end
  else ResolveBinding record.

Definition decide_command (request : DecideRequest) (record : Approval) (current : VersionBinding) (now : Time)
    : DecideCommand :=
  mkDecideCommand (ap_ID record) (dq_ExpectedDecisionVersion request) (dq_IdempotencyKey request)
    (dq_Decision request) (dq_ActorID request) (dq_Reason request) current now.

(** The first part of [Decide]: the decision is recorded. *)
Definition record_decision (request : DecideRequest) : Eff (rworld X) (result (Approval * DecisionResult)) :=
  try* record := on_approvals (ApprovalStore.Get (TrimSpace (dq_ApprovalID request))) in
  try* record := settle_mode record in
  try* current := observed_binding request record in
  let* now := r_now in
  try* result := on_approvals (ApprovalStore.Decide (decide_command request record current now)) in
  ret (Ok (record, result)).

(** [_ = s.cfg.Approvals.MarkOutboxPublished(...)], when [applied]. *)
Definition mark_if (applied : bool) (eventID : string) : Eff (rworld X) unit :=
  if applied then
    let* now := r_now in
    let* _ := on_approvals (MarkOutboxPublished eventID now) in
    ret tt
  else ret tt.

(** The second part: the decision is carried out; whether it has been applied. *)
Definition carry_out (record : Approval) (decided : DecisionResult) : Eff (rworld X) (result bool) :=
  try* _ := (if bool_decide (ap_Status (dr_Approval decided) = ApprovalModels.StatusStale)
             then cleanupStaleArtifact (dr_Approval decided) else ret (Ok tt)) in
  try* '(continuation, _) := on_sessions (RequestContinuation (dr_Continuation decided)) in
  let event := dr_Outbox decided in
  if bool_decide (ac_Status continuation = ContinuationStatusApplied) then
    try* applied := Apply continuation in
    let* _ := mark_if applied (oe_ID event) in
    ret (Ok applied)
  else if bool_decide (ac_Executor continuation = ContinuationExecutorRunnerResume) then
    if negb (cf_Inputs cfg) then fail (Errorf "session input enqueuer is required for runner resume")
    else match json_Unmarshal_ResumeRequested (oe_Payload event) with
         | Err err => fail (Wrapf "decode resume outbox: " err "")
         | Ok resume =>
             try* _ := enqueue (ap_SessionID record) (TResumeRequested resume) in
             let* _ := mark_if true (oe_ID event) in
             ret (Ok false)
         end
  else
    try* applied := Apply continuation in
    let* _ := mark_if applied (oe_ID event) in
    ret (Ok applied).

(** The result comes with the error where the decision has been recorded. *)
Definition Decide (request : DecideRequest) : Eff (rworld X) (DecideResult * option error) :=
  let* r := record_decision request in
  match r with
  | Err err => ret (zeroDecideResult, Some err)
  | Ok (record, result) =>
      let* r := carry_out record result in
      match r with
      | Err err => ret (mkDecideResult result false, Some err)
      | Ok applied => ret (mkDecideResult result applied, None)
      end
  end.
End service.
