(* ===== verification/ApprovalBatch.v ===== *)
(** * Batches of candidate approvals, [internal/aigc/approvalruntime/candidate_batch.go]

    Approving all candidates of a storyboard at once: the targets are frozen in a
    batch of the approval store, each of them is decided through [Decide] under a
    key of its own, and the answer sums the outcomes up. *)

From Stdlib Require Import ZArith Lia.
From S2P Require Import Prelude GoJson GenModels WorkflowStore SessionModels SessionStore.
From S2P Require Import ApprovalModels ApprovalStore Timed SpecStore ArtifactStore.
From S2P Require Import StoryboardModels StoryboardGraph StoryboardCommand StoryboardRevision StoryboardStore.
From S2P Require Import ApprovalRuntime.

Definition ErrCandidateBatchStoryboardVersion := errors_New "candidate approval batch storyboard version conflict".
Definition ErrCandidateBatchGenerationRunning := errors_New "candidate approval batch generation jobs are not terminal".
Definition ErrNoPendingCandidateApprovals := errors_New "no pending candidate approvals".

Record CandidateBatchApproveRequest := mkCandidateBatchApproveRequest {
  bq_SessionID : string;
  bq_StoryboardID : string;
  bq_ExpectedStoryboardVersion : Z;
  bq_IdempotencyKey : string;
  bq_Decision : string;
  bq_ActorID : string;
  bq_Reason : string
}.
#[global] Instance eta_CandidateBatchApproveRequest : Eta CandidateBatchApproveRequest := fun r =>
  mkCandidateBatchApproveRequest (bq_SessionID r) (bq_StoryboardID r) (bq_ExpectedStoryboardVersion r)
    (bq_IdempotencyKey r) (bq_Decision r) (bq_ActorID r) (bq_Reason r).

Record CandidateBatchItemResult := mkCandidateBatchItemResult {
  bi_ApprovalID : string;
  bi_BindingID : string;
  bi_Status : string;
  bi_DecisionVersion : Z;
  bi_Applied : bool;
  bi_Retryable : bool;
  bi_Error : string
}.
#[global] Instance eta_CandidateBatchItemResult : Eta CandidateBatchItemResult := fun r =>
  mkCandidateBatchItemResult (bi_ApprovalID r) (bi_BindingID r) (bi_Status r) (bi_DecisionVersion r)
    (bi_Applied r) (bi_Retryable r) (bi_Error r).

Record CandidateBatchSummary := mkCandidateBatchSummary {
  su_Total : Z;
  su_Approved : Z;
  su_Stale : Z;
  su_Conflicts : Z;
  su_Failed : Z;
  su_Complete : bool;
  su_AllApproved : bool
}.
#[global] Instance eta_CandidateBatchSummary : Eta CandidateBatchSummary := fun r =>
  mkCandidateBatchSummary (su_Total r) (su_Approved r) (su_Stale r) (su_Conflicts r) (su_Failed r)
    (su_Complete r) (su_AllApproved r).

Record CandidateBatchApproveResult := mkCandidateBatchApproveResult {
  ba_Batch : CandidateApprovalBatch;
  ba_Summary : CandidateBatchSummary;
  ba_Results : list CandidateBatchItemResult;
  ba_Storyboard : StoryboardAggregate
}.
#[global] Instance eta_CandidateBatchApproveResult : Eta CandidateBatchApproveResult := fun r =>
  mkCandidateBatchApproveResult (ba_Batch r) (ba_Summary r) (ba_Results r) (ba_Storyboard r).

Definition normalizeCandidateBatchApproveRequest (request : CandidateBatchApproveRequest)
    : CandidateBatchApproveRequest :=
  let request := request <| bq_SessionID := TrimSpace (bq_SessionID request) |> in
  let request := request <| bq_StoryboardID := TrimSpace (bq_StoryboardID request) |> in
  let request := request <| bq_IdempotencyKey := TrimSpace (bq_IdempotencyKey request) |> in
  let request := request <| bq_Decision := ToLower (TrimSpace (bq_Decision request)) |> in
  let request := request <| bq_ActorID := TrimSpace (bq_ActorID request) |> in
  request <| bq_Reason := TrimSpace (bq_Reason request) |>.

Definition candidateBatchChildKey (batchID approvalID : string) : string :=
  TrimSpace batchID +:+ ":approval:" +:+ TrimSpace approvalID.

Definition validateCandidateBatchReplay (batch : CandidateApprovalBatch) (request : CandidateBatchApproveRequest)
    : result CandidateApprovalBatch :=
  if negb (bool_decide (cb_SessionID batch = bq_SessionID request))
     || negb (bool_decide (cb_StoryboardID batch = bq_StoryboardID request))
     || negb (cb_ExpectedStoryboardVersion batch =? bq_ExpectedStoryboardVersion request)
     || negb (bool_decide (cb_Decision batch = bq_Decision request))
     || negb (bool_decide (cb_ActorID batch = bq_ActorID request))
     || negb (bool_decide (cb_Reason batch = bq_Reason request))
  then Err (Wrapf "" ApprovalModels.ErrIdempotencyConflict ": candidate approval batch request changed")
  else Ok batch.

(** The storyboard a job belongs to. *)
Definition job_storyboard (job : GenerationJob) : string :=
  let jobStoryboardID := TrimSpace (j_StoryboardID job) in
  if bool_decide (jobStoryboardID = "") then TrimSpace (k_StoryboardID (j_BindingToken job)) else jobStoryboardID.

Definition running_jobs (storyboardID : string) (jobs : list GenerationJob) : list string :=
  (fun job => j_ID job +:+ "(" +:+ j_Status job +:+ ")") <$>
  List.filter (fun job => negb (negb (bool_decide (job_storyboard job = storyboardID))
                                || IsTerminalJobStatus (j_Status job))) jobs.

Section service.
Context `{Codec} `{ApprovalCodec} `{PayloadCodec} `{Digest} `{Formatting} `{MapRange} `{Clock} {X : Type} `{Actors X}.
Variable cfg : Config.

Definition stableCandidateBatchID (sessionID storyboardID key : string) : string :=
  let sum := sha256_Sum256 (TrimSpace sessionID +:+ nul +:+ TrimSpace storyboardID +:+ nul +:+ TrimSpace key) in
  "candidate-batch:" +:+ hex_bytes (String.substring 0 16 sum).

Definition ensureCandidateGenerationTerminal (sessionID storyboardID : string) : Eff (rworld X) (result unit) :=
  if negb (cf_GenerationJobs cfg)
  then fail (Errorf "generation job source is required for candidate approval batches")
  else
    let* r := jobs_of_session sessionID in
    match r with
    | Err err => fail (Wrapf "list candidate generation jobs: " err "")
    | Ok jobs =>
        match running_jobs storyboardID jobs with
        | [] => ret (Ok tt)
        | pending => fail (Wrapf "" ErrCandidateBatchGenerationRunning (": " +:+ String.concat ", " pending))
        end
    end.

(** One binding of the storyboard: a target of the batch or not. *)
Definition batch_target (aggregate : StoryboardAggregate) (binding : ArtifactBinding)
    : Eff (rworld X) (result (option CandidateApprovalBatchTarget)) :=
  if negb (bool_decide (bd_State binding = BindingStateCandidate)) || blank (bd_ApprovalID binding)
  then ret (Ok None)
  else
    let* r := on_approvals (ApprovalStore.Get (bd_ApprovalID binding)) in
    match r with
    | Err err => fail (Wrapf ("load candidate approval " +:+ bd_ApprovalID binding +:+ ": ") err "")
    | Ok record =>
        if negb (bool_decide (ap_SessionID record = ag_SessionID aggregate))
           || negb (bool_decide (ap_ArtifactType record = "candidate_asset"))
           || negb (bool_decide (vb_StoryboardID (ap_Binding record) = ag_ID aggregate))
           || negb (bool_decide (vb_ArtifactID (ap_Binding record) = bd_ID binding))
        then fail (Errorf ("candidate approval " +:+ ap_ID record +:+ " does not match storyboard binding "
                           +:+ bd_ID binding))
        else if negb (bool_decide (ap_Status record = ApprovalModels.StatusPending)) then ret (Ok None)
        else ret (Ok (Some (mkCandidateApprovalBatchTarget (ap_ID record) (bd_ID binding) (ap_DecisionVersion record))))
    end.

Fixpoint batch_targets (aggregate : StoryboardAggregate) (bindings : list ArtifactBinding)
    : Eff (rworld X) (result (list CandidateApprovalBatchTarget)) :=
  match bindings with
  | [] => ret (Ok [])
  | binding :: rest =>
      try* target := batch_target aggregate binding in
      try* targets := batch_targets aggregate rest in
      ret (Ok (match target with Some t => t :: targets | None => targets end))
  end.

Definition pendingCandidateBatchTargets (aggregate : StoryboardAggregate)
    : Eff (rworld X) (result (list CandidateApprovalBatchTarget)) :=
  batch_targets aggregate (ag_Bindings aggregate).

Definition requested_batch (request : CandidateBatchApproveRequest) (targets : list CandidateApprovalBatchTarget)
    : CandidateApprovalBatch :=
  mkCandidateApprovalBatch
    (stableCandidateBatchID (bq_SessionID request) (bq_StoryboardID request) (bq_IdempotencyKey request))
    (bq_IdempotencyKey request) (bq_SessionID request) (bq_StoryboardID request)
    (bq_ExpectedStoryboardVersion request) (bq_Decision request) (bq_ActorID request) (bq_Reason request)
    targets zeroTime.

(** The batch under the key, if another request has stored it meanwhile; else [err]. *)
Definition stored_meanwhile (request : CandidateBatchApproveRequest) (err : error)
    : Eff (rworld X) (result CandidateApprovalBatch) :=
  let* r := on_approvals (GetCandidateApprovalBatchByKey (bq_IdempotencyKey request)) in
  match r with
  | Ok existing => ret (validateCandidateBatchReplay existing request)
  | Err _ => fail err
  end.

(** The batch of what is pending now. *)
Definition freeze_batch (request : CandidateBatchApproveRequest) : Eff (rworld X) (result CandidateApprovalBatch) :=
  try* _ := ensureCandidateGenerationTerminal (bq_SessionID request) (bq_StoryboardID request) in
  try* aggregate := on_boards (GetAggregate (bq_StoryboardID request)) in
  if negb (bool_decide (ag_SessionID aggregate = bq_SessionID request)) then fail ErrAggregateNotFound
  else if negb (ag_Version aggregate =? bq_ExpectedStoryboardVersion request)
  then stored_meanwhile request (Wrapf "" ErrCandidateBatchStoryboardVersion
         (": current=" +:+ pretty (ag_Version aggregate) +:+ " expected="
          +:+ pretty (bq_ExpectedStoryboardVersion request)))
  else
    try* targets := pendingCandidateBatchTargets aggregate in
    match targets with
    | [] => fail ErrNoPendingCandidateApprovals
    | _ =>
        let* r := on_approvals (CreateCandidateApprovalBatch (requested_batch request targets)) in
        match r with
        | Ok created => ret (Ok (bc_Batch created))
        | Err err =>
            if errors_Is err ApprovalModels.ErrIdempotencyConflict then stored_meanwhile request err else fail err
        end
    end.

Definition loadOrCreateCandidateBatch (request : CandidateBatchApproveRequest)
    : Eff (rworld X) (result CandidateApprovalBatch) :=
  let* r := on_approvals (GetCandidateApprovalBatchByKey (bq_IdempotencyKey request)) in
  match r with
  | Ok existing => ret (validateCandidateBatchReplay existing request)
  | Err err => if errors_Is err ApprovalModels.ErrNotFound then freeze_batch request else fail err
  end.

(** *** The outcome of one target *)

Definition child_request (batch : CandidateApprovalBatch) (target : CandidateApprovalBatchTarget) : DecideRequest :=
  mkDecideRequest (bt_ApprovalID target) (bt_ExpectedDecisionVersion target)
    (candidateBatchChildKey (cb_ID batch) (bt_ApprovalID target)) (cb_Decision batch) (cb_ActorID batch)
    (cb_Reason batch).

Definition decided_elsewhere (err : error) : bool :=
  errors_Is err ApprovalModels.ErrAlreadyDecided || errors_Is err ApprovalModels.ErrVersionConflict
  || errors_Is err ApprovalModels.ErrIdempotencyConflict.

Definition item_of (target : CandidateApprovalBatchTarget) (decided : DecideResult * option error)
    : CandidateBatchItemResult :=
  let item := mkCandidateBatchItemResult (bt_ApprovalID target) (bt_BindingID target) "" 0 false false "" in
  match decided.2 with
  | Some decideErr =>
      let item := item <| bi_Error := err_text decideErr |> in
      if decided_elsewhere decideErr then item <| bi_Status := "conflict" |>
      else item <| bi_Status := "failed" |> <| bi_Retryable := negb (errors_Is decideErr ApprovalModels.ErrNotFound) |>
  | None =>
      let approval := dr_Approval (ds_Decision decided.1) in
      item <| bi_Status := ap_Status approval |> <| bi_DecisionVersion := ap_DecisionVersion approval |>
           <| bi_Applied := ds_Applied decided.1 |>
  end.

Definition count_outcome (summary : CandidateBatchSummary) (decided : DecideResult * option error)
    : CandidateBatchSummary :=
  match decided.2 with
  | Some decideErr =>
      if decided_elsewhere decideErr then summary <| su_Conflicts := incr (su_Conflicts summary) |>
      else summary <| su_Failed := incr (su_Failed summary) |>
  | None =>
      let status := ap_Status (dr_Approval (ds_Decision decided.1)) in
      if bool_decide (status = ApprovalModels.StatusApproved)
      then summary <| su_Approved := incr (su_Approved summary) |>
      else if bool_decide (status ∈ [ApprovalModels.StatusStale; StatusExpired; StatusCancelled])
      then summary <| su_Stale := incr (su_Stale summary) |>
      else summary <| su_Conflicts := incr (su_Conflicts summary) |>
  end.

(** The loop over the targets of the batch. *)
Fixpoint decide_targets (batch : CandidateApprovalBatch) (targets : list CandidateApprovalBatchTarget)
    (result : CandidateBatchApproveResult) : Eff (rworld X) CandidateBatchApproveResult :=
  match targets with
  | [] => ret result
  | target :: rest =>
      let* decided := ApprovalRuntime.Decide cfg (child_request batch target) in
      let result := result <| ba_Summary := count_outcome (ba_Summary result) decided |> in
      let result := result <| ba_Results := ba_Results result ++ [item_of target decided] |> in
      decide_targets batch rest result
  end.

Definition summed_up (result : CandidateBatchApproveResult) : CandidateBatchApproveResult :=
  let summary := ba_Summary result in
  let summary := summary <| su_Complete := (su_Failed summary =? 0) |> in
  let summary := summary <| su_AllApproved := ((su_Approved summary =? su_Total summary) && su_Complete summary) |> in
  result <| ba_Summary := summary |>.

Definition zeroCandidateBatchSummary := mkCandidateBatchSummary 0 0 0 0 0 false false.
Definition new_batch_result (batch : CandidateApprovalBatch) : CandidateBatchApproveResult :=
  mkCandidateBatchApproveResult batch
    (zeroCandidateBatchSummary <| su_Total := Z.of_nat (length (cb_Targets batch)) |>) [] zeroStoryboardAggregate.
Definition zeroCandidateBatchApproveResult : CandidateBatchApproveResult :=
  mkCandidateBatchApproveResult zeroCandidateApprovalBatch zeroCandidateBatchSummary [] zeroStoryboardAggregate.

(** The result comes with the error where the targets have been decided. *)
Definition ApproveCandidateBatch (request : CandidateBatchApproveRequest)
    : Eff (rworld X) (CandidateBatchApproveResult * option error) :=
  let request := normalizeCandidateBatchApproveRequest request in
  let refuse err := ret (zeroCandidateBatchApproveResult, Some err) in
  if bool_decide (bq_SessionID request = "") || bool_decide (bq_StoryboardID request = "")
     || bool_decide (bq_IdempotencyKey request = "")
  then refuse (Errorf "session id, storyboard id and idempotency key are required")
  else if bq_ExpectedStoryboardVersion request <=? 0
  then refuse (Errorf "expected_storyboard_version must be positive")
  else if negb (bool_decide (bq_Decision request = DecisionApprove))
  then refuse (Errorf "candidate approval batch only supports approved")
  else if negb (cf_Approvals cfg) || negb (cf_Storyboards cfg)
  then refuse (Errorf "approval and storyboard stores are required")
  else
    let* r := loadOrCreateCandidateBatch request in
    match r with
    | Err err => refuse err
    | Ok batch =>
        match cb_Targets batch with
        | [] => refuse ErrNoPendingCandidateApprovals
        | targets =>
            let* result := decide_targets batch targets (new_batch_result batch) in
            let result := summed_up result in
            let* latest := on_boards (GetAggregate (cb_StoryboardID batch)) in
            match latest with
            | Err err => ret (result, Some err)
            | Ok latest => ret (result <| ba_Storyboard := PublicView latest |>, None)
            end
        end
    end.
End service.
