(* ===== verification/ApprovalRelay.v ===== *)
(** * The relay of approval events, [internal/aigc/approvalruntime/relay.go]

    One round over the pending rows of the approval outbox: resumptions become
    inputs of their session, continuations are applied, and each row is marked. *)

From Stdlib Require Import ZArith Lia.
From S2P Require Import Prelude GoJson SessionModels SessionStore.
From S2P Require Import ApprovalModels ApprovalStore Timed SpecStore ArtifactStore.
From S2P Require Import StoryboardModels StoryboardStore ApprovalRuntime.

(** How far the handling of a row got. *)
Record Handled := mkHandled {
  hd_processed : bool;
  hd_continuationBusy : bool;
  hd_deferUntil : Time;
  hd_err : option error
}.
Definition delivered : Handled := mkHandled true false zeroTime None.
Definition undelivered (err : option error) : Handled := mkHandled false false zeroTime err.
Definition busy (latest : ApprovalContinuation) : Handled :=
  mkHandled false true (default zeroTime (ac_LeaseUntil latest)) None.

(** [relayErr = errors.Join(relayErr, err)]. *)
Definition join_err (relayErr : option error) (err : error) : option error :=
  Some (match relayErr with Some e => errors_Join e err | None => err end).
Definition join_opt (relayErr err : option error) : option error :=
  match err with Some e => join_err relayErr e | None => relayErr end.

Section service.
Context `{Codec} `{ApprovalCodec} `{PayloadCodec} `{Digest} `{Formatting} `{MapRange} `{Clock} {X : Type} `{Actors X}.
Variable cfg : Config.

Definition handle_resume (event : OutboxEvent) : Eff (rworld X) Handled :=
  if negb (cf_Inputs cfg) then ret (undelivered (Some (errors_New "session input enqueuer is required")))
  else match json_Unmarshal_ResumeRequested (oe_Payload event) with
       | Err err => ret (undelivered (Some err))
       | Ok input =>
           let* r := enqueue (oe_SessionID event) (TResumeRequested input) in
           ret (match r with Err err => undelivered (Some err) | Ok _ => delivered end)
       end.

Definition handle_continuation (event : OutboxEvent) : Eff (rworld X) Handled :=
  match json_Unmarshal_requested (oe_Payload event) with
  | Err err => ret (undelivered (Some err))
  | Ok request =>
      let* r := on_sessions (SessionStore.GetContinuation (cr_ApprovalID request) (cr_DecisionVersion request)) in
      match r with
      | Err err => ret (undelivered (Some err))
      | Ok continuation =>
          let* r := Apply cfg continuation in
          match r with
          | Err err => ret (undelivered (Some err))
          | Ok true => ret delivered
          | Ok false =>
              let* r := Service_GetContinuation cfg (cr_ApprovalID request) (cr_DecisionVersion request) in
              match r with
              | Err latestErr => ret (undelivered (Some latestErr))
              | Ok latest =>
                  if bool_decide (ac_Status latest = ContinuationStatusApplied) then ret delivered
                  else ret (busy latest)
              end
          end
      end
  end.

Definition handle_event (event : OutboxEvent) : Eff (rworld X) Handled :=
  let kind := oe_EventType event in
  if bool_decide (kind = EventSessionInputRequested) then handle_resume event
  else if bool_decide (kind = EventApprovalContinuationRequested) then handle_continuation event
  else if bool_decide (kind = EventApprovalFallbackEnabled) then ret delivered
  else ret (undelivered None).

(** A busy continuation is retried after its lease and never given up. *)
Definition mark_undelivered (event : OutboxEvent) (h : Handled) : Eff (rworld X) (result unit) :=
  let* now := r_now in
  let markAt := if hd_continuationBusy h && After (hd_deferUntil h) now then hd_deferUntil h else now in
  let maxAttempts := if hd_continuationBusy h then 0 else 10 in
  on_approvals (MarkOutboxFailed (oe_ID event) markAt maxAttempts).

(** The body of the loop for a row that is due. *)
Definition relay_event (event : OutboxEvent) (published : Z) (relayErr : option error)
    : Eff (rworld X) (Z * option error) :=
  let* h := handle_event event in
  let relayErr := join_opt relayErr (hd_err h) in
  if negb (hd_processed h) then
    let* r := mark_undelivered event h in
    ret (published, match r with Err markErr => join_err relayErr markErr | Ok _ => relayErr end)
  else
    let* now := r_now in
    let* r := on_approvals (MarkOutboxPublished (oe_ID event) now) in
    ret (match r with
         | Err err => (published, join_err relayErr err)
         | Ok _ => (incr published, relayErr)
         end).

Fixpoint relay_rows (limit : Z) (now : Time) (rows : list OutboxEvent) (due published : Z) (relayErr : option error)
    : Eff (rworld X) (Z * option error) :=
  match rows with
  | [] => ret (published, relayErr)
  | event :: rest =>
      if After (oe_AvailableAt event) now then relay_rows limit now rest due published relayErr
      else if (0 <? limit) && (limit <=? due) then ret (published, relayErr)
      else
        let* '(published, relayErr) := relay_event event published relayErr in
        relay_rows limit now rest (incr due) published relayErr
  end.

Definition RelayOnce (limit : Z) : Eff (rworld X) (Z * option error) :=
  let* r := on_approvals (ListOutbox OutboxStatusPending 0) in
  match r with
  | Err err => ret (0, Some err)
  | Ok rows =>
      let* now := r_now in
      relay_rows limit now rows 0 0 None
  end.
End service.
