(* ===== verification/ApprovalMoves.v ===== *)
(** * The approval runtime acts through the commands of the stores

    Steps of the world of the approval runtime: a command of one of the stores,
    the clock, or other actors.  [does may c]: what [c] itself does are commands
    of the stores [may] allows.  The hint database [does] proves it for the handlers. *)

From Stdlib Require Import ZArith Lia.
From stdpp Require Import relations.
From S2P Require Import Prelude GoJson WorkflowStore SessionModels SessionStore SessionEffects SessionProps.
From S2P Require Import ApprovalModels ApprovalStore ApprovalProps ApprovalRuns.
From S2P Require Import Timed SpecStore SpecProps ArtifactStore ArtifactProps.
From S2P Require Import StoryboardModels StoryboardGraph StoryboardCommand StoryboardRevision StoryboardStore StoryboardRuns.
From S2P Require Import ApprovalRuntime ApprovalBatch ApprovalRelay.

Create HintDb does.

Inductive part := PApprovals | PSessions | PSpecs | PArtifacts | PBoards | POutside.
#[global] Instance part_eq_dec : EqDecision part.
Proof. solve_decision. Defined.

Definition everything (p : part) : Prop := True.
Definition only (l : list part) (p : part) : Prop := p ∈ l.

Section moves.
Context `{Codec} `{ApprovalCodec} `{PayloadCodec} `{Digest} `{Formatting} `{MapRange} `{Clock} {X : Type}.
Implicit Types (w : rworld X) (may : part → Prop).

(** The stores as their own worlds. *)
Definition approvals_of w : aworld unit := mkAWorld (rw_approvals w) (rw_reads w) tt.
Definition sessions_of w : sworld unit := mkSWorld (rw_sessions w) (rw_reads w) tt.
Definition specs_of w : timed SpecStore.MemoryStore := mkTimed (rw_specs w) (rw_reads w).
Definition artifacts_of w : timed ArtifactStore.MemoryStore := mkTimed (rw_artifacts w) (rw_reads w).
Definition boards_of w : bworld unit := mkBWorld (rw_boards w) (rw_reads w) tt.

Definition with_approvals w (v : aworld unit) : rworld X := w <| rw_approvals := aw_store v |> <| rw_reads := aw_reads v |>.
Definition with_sessions w (v : sworld unit) : rworld X := w <| rw_sessions := sw_store v |> <| rw_reads := sw_reads v |>.
Definition with_specs w (v : timed SpecStore.MemoryStore) : rworld X := w <| rw_specs := t_store v |> <| rw_reads := t_reads v |>.
Definition with_artifacts w (v : timed ArtifactStore.MemoryStore) : rworld X :=
  w <| rw_artifacts := t_store v |> <| rw_reads := t_reads v |>.
Definition with_boards w (v : bworld unit) : rworld X := w <| rw_boards := bw_repo v |> <| rw_reads := bw_reads v |>.

(** One step, by a command of a store that [may] allows. *)
Inductive rmove may w : rworld X → Prop :=
| move_clock n k : rmove may w (w <| rw_reads := n |> <| rw_claims := k |>)
| move_approvals v : may PApprovals → approval_step (approvals_of w) v → rmove may w (with_approvals w v)
| move_sessions v : may PSessions → session_step (sessions_of w) v → rmove may w (with_sessions w v)
| move_specs v : may PSpecs → spec_step (specs_of w) v → rmove may w (with_specs w v)
| move_artifacts v : may PArtifacts → artifact_step (artifacts_of w) v → rmove may w (with_artifacts w v)
| move_boards v : may PBoards → storyboard_step (boards_of w) v → rmove may w (with_boards w v)
| move_outside jobs x : may POutside → rmove may w (w <| rw_jobs := jobs |> <| rw_ext := x |>).

Lemma rmove_mono may may' w w' : (∀ p, may p → may' p) → rmove may w w' → rmove may' w w'.
Proof. intros Hm []; constructor; auto. Qed.

(** ** What runs of steps keep *)

Lemma runs_approvals may w w' : rtc (rmove may) w w' → rtc approval_step (approvals_of w) (approvals_of w').
Proof.
  induction 1 as [w|w w1 w' Hs _ IH]; [done|]. etrans; [|exact IH].
  destruct Hs as [n k|[s n []] _ Hv|v _ _|v _ _|v _ _|v _ _|jobs x _];
    first [apply rtc_once; exact Hv|apply rtc_once, ApprovalRuns.step_outside].
Qed.

Lemma runs_sessions may w w' : rtc (rmove may) w w' → rtc session_step (sessions_of w) (sessions_of w').
Proof.
  induction 1 as [w|w w1 w' Hs _ IH]; [done|]. etrans; [|exact IH].
  destruct Hs as [n k|v _ _|[s n []] _ Hv|v _ _|v _ _|v _ _|jobs x _];
    first [apply rtc_once; exact Hv|apply rtc_once, SessionProps.step_outside].
Qed.

Lemma runs_specs may w w' : rtc (rmove may) w w' → spec_future (specs_of w) (specs_of w').
Proof.
  induction 1 as [w|w w1 w' Hs _ IH]; [constructor|]. etrans; [|exact IH].
  destruct Hs as [n k|v _ _|v _ _|[s n] _ Hv|v _ _|v _ _|jobs x _];
    first [apply rtc_once; exact Hv|apply rtc_once, SpecProps.step_clock].
Qed.

Lemma runs_artifacts may w w' : rtc (rmove may) w w' → artifact_future (artifacts_of w) (artifacts_of w').
Proof.
  induction 1 as [w|w w1 w' Hs _ IH]; [constructor|]. etrans; [|exact IH].
  destruct Hs as [n k|v _ _|v _ _|v _ _|[s n] _ Hv|v _ _|jobs x _];
    first [apply rtc_once; exact Hv|apply rtc_once, ArtifactProps.step_clock].
Qed.

Lemma runs_boards may w w' : rtc (rmove may) w w' → storyboard_future (boards_of w) (boards_of w').
Proof.
  induction 1 as [w|w w1 w' Hs _ IH]; [constructor|]. etrans; [|exact IH].
  destruct Hs as [n k|v _ _|v _ _|v _ _|v _ _|[s n []] _ Hv|jobs x _];
    first [apply rtc_once; exact Hv|apply rtc_once, StoryboardRuns.step_outside].
Qed.

(** A store that is not allowed stays. *)
Definition kept_parts may w w' : Prop :=
  (may PApprovals ∨ rw_approvals w' = rw_approvals w) ∧ (may PSessions ∨ rw_sessions w' = rw_sessions w) ∧
  (may PSpecs ∨ rw_specs w' = rw_specs w) ∧ (may PArtifacts ∨ rw_artifacts w' = rw_artifacts w) ∧
  (may PBoards ∨ rw_boards w' = rw_boards w) ∧ (may POutside ∨ rw_jobs w' = rw_jobs w ∧ rw_ext w' = rw_ext w).

Lemma runs_kept may w w' : rtc (rmove may) w w' → kept_parts may w w'.
Proof.
  induction 1 as [w|w w1 w' Hs _ (A & B & C & D & E & F)]; [unfold kept_parts; naive_solver|].
  destruct Hs as [n k|v|v|v|v|v|jobs x]; unfold kept_parts in *; cbn in *; split_and!; tauto.
Qed.

(** ** What a computation does *)

Context `{Actors X}.

(** Other actors, too, act through the commands of the stores. *)
Class LawfulActors := actors_moves w : rtc (rmove everything) w (actors w).2.

Inductive move may w w' : Prop :=
| by_actors : w' = (actors w).2 → move may w w'
| by_service : rmove may w w' → move may w w'.

Definition does may {A} (c : Eff (rworld X) A) : Prop := ∀ w a w', c w = (a, w') → rtc (move may) w w'.

Lemma move_mono may may' w w' : (∀ p, may p → may' p) → move may w w' → move may' w w'.
Proof. intros Hm [?|?]; [by left|right; by eapply rmove_mono]. Qed.

Lemma does_mono may may' {A} (c : Eff (rworld X) A) : (∀ p, may p → may' p) → does may c → does may' c.
Proof. intros Hm Hc w a w' E. eapply rtc_subrel; [|by eapply Hc]. intros ??. by apply move_mono. Qed.

Lemma does_ret may {A} (a : A) : does may (ret a).
Proof. intros w b w' [= _ <-]. done. Qed.

Lemma does_fail may {A} e : does may (fail (A := A) e).
Proof. apply does_ret. Qed.

Lemma does_bind may {A B} (c : Eff (rworld X) A) (k : A → Eff (rworld X) B) :
  does may c → (∀ a, does may (k a)) → does may (bind c k).
Proof.
  intros Hc Hk w b w'. unfold bind. destruct (c w) as [a w1] eqn:E. intros E2. etrans; [by eapply Hc|by eapply Hk].
Qed.

Lemma does_bind_ok may {A B} (c : Eff (rworld X) (result A)) (k : A → Eff (rworld X) (result B)) :
  does may c → (∀ a, does may (k a)) → does may (bind_ok c k).
Proof.
  intros Hc Hk w b w'. unfold bind_ok. destruct (c w) as [[a|e] w1] eqn:E; intros E2.
  - etrans; [by eapply Hc|by eapply Hk].
  - injection E2 as _ <-. by eapply Hc.
Qed.

Lemma does_now may : does may r_now.
Proof. intros w a w' [= _ <-]. apply rtc_once, by_service. exact (move_clock may w _ _). Qed.

Lemma does_claim may : does may next_claim.
Proof. intros w a w' [= _ <-]. apply rtc_once, by_service. exact (move_clock may w _ _). Qed.

(** A call of a store, after the other actors. *)
Lemma does_call may {A} (c : Eff (rworld X) A) :
  (∀ w a w', c w = (a, w') → rmove may w w') → does may (let* _ := actors in c).
Proof.
  intros Hc w a w'. unfold bind. destruct (actors w) as [u w1] eqn:E. intros E2.
  eapply rtc_l; [left; by rewrite E|]. apply rtc_once, by_service. by eapply Hc.
Qed.

Lemma does_approvals may {A} (c : Eff (aworld unit) A) :
  may PApprovals → (∀ v a v', c v = (a, v') → approval_step v v') → does may (on_approvals c).
Proof.
  intros Hm Hc. apply does_call. intros w a w'. destruct (c _) as [b v] eqn:E. intros [= _ <-].
  apply (move_approvals may w v Hm). by eapply Hc.
Qed.

Lemma does_sessions may {A} (c : Eff (sworld unit) A) :
  may PSessions → (∀ v a v', c v = (a, v') → session_step v v') → does may (on_sessions c).
Proof.
  intros Hm Hc. apply does_call. intros w a w'. destruct (c _) as [b v] eqn:E. intros [= _ <-].
  apply (move_sessions may w v Hm). by eapply Hc.
Qed.

Lemma does_specs may {A} (c : Eff (timed SpecStore.MemoryStore) A) :
  may PSpecs → (∀ v a v', c v = (a, v') → spec_step v v') → does may (on_specs c).
Proof.
  intros Hm Hc. apply does_call. intros w a w'. destruct (c _) as [b v] eqn:E. intros [= _ <-].
  apply (move_specs may w v Hm). by eapply Hc.
Qed.

Lemma does_artifacts may {A} (c : Eff (timed ArtifactStore.MemoryStore) A) :
  may PArtifacts → (∀ v a v', c v = (a, v') → artifact_step v v') → does may (on_artifacts c).
Proof.
  intros Hm Hc. apply does_call. intros w a w'. destruct (c _) as [b v] eqn:E. intros [= _ <-].
  apply (move_artifacts may w v Hm). by eapply Hc.
Qed.

Lemma does_boards may {A} (c : Eff (bworld unit) A) :
  may PBoards → (∀ v a v', c v = (a, v') → storyboard_step v v') → does may (on_boards c).
Proof.
  intros Hm Hc. apply does_call. intros w a w'. destruct (c _) as [b v] eqn:E. intros [= _ <-].
  apply (move_boards may w v Hm). by eapply Hc.
Qed.

(** Queries only read, the clock at most. *)
Lemma move_reads may w w' n :
  w' = w <| rw_reads := n |> → rmove may w w'.
Proof. intros ->. destruct w as [a1 a2 a3 a4 a5 a6 m k x]. exact (move_clock may (mkRWorld a1 a2 a3 a4 a5 a6 m k x) n k). Qed.

Lemma read_approvals may {A} (c : Eff (aworld unit) A) : (∀ v, aw_store (c v).2 = aw_store v) → does may (on_approvals c).
Proof.
  intros Hc. apply does_call. intros w a w' E. specialize (Hc (approvals_of w)). unfold approvals_of in Hc.
  destruct (c _) as [b [s n []]]. injection E as _ <-. cbn in Hc |- *. subst s. apply (move_reads _ _ _ n). by destruct w.
Qed.

Lemma read_sessions may {A} (c : Eff (sworld unit) A) : (∀ v, sw_store (c v).2 = sw_store v) → does may (on_sessions c).
Proof.
  intros Hc. apply does_call. intros w a w' E. specialize (Hc (sessions_of w)). unfold sessions_of in Hc.
  destruct (c _) as [b [s n []]]. injection E as _ <-. cbn in Hc |- *. subst s. apply (move_reads _ _ _ n). by destruct w.
Qed.

Lemma read_specs may {A} (c : Eff (timed SpecStore.MemoryStore) A) :
  (∀ v, t_store (c v).2 = t_store v) → does may (on_specs c).
Proof.
  intros Hc. apply does_call. intros w a w' E. specialize (Hc (specs_of w)). unfold specs_of in Hc.
  destruct (c _) as [b [s n]]. injection E as _ <-. cbn in Hc |- *. subst s. apply (move_reads _ _ _ n). by destruct w.
Qed.

Lemma read_artifacts may {A} (c : Eff (timed ArtifactStore.MemoryStore) A) :
  (∀ v, t_store (c v).2 = t_store v) → does may (on_artifacts c).
Proof.
  intros Hc. apply does_call. intros w a w' E. specialize (Hc (artifacts_of w)). unfold artifacts_of in Hc.
  destruct (c _) as [b [s n]]. injection E as _ <-. cbn in Hc |- *. subst s. apply (move_reads _ _ _ n). by destruct w.
Qed.

Lemma read_boards may {A} (c : Eff (bworld unit) A) : (∀ v, bw_repo (c v).2 = bw_repo v) → does may (on_boards c).
Proof.
  intros Hc. apply does_call. intros w a w' E. specialize (Hc (boards_of w)). unfold boards_of in Hc.
  destruct (c _) as [b [s n []]]. injection E as _ <-. cbn in Hc |- *. subst s. apply (move_reads _ _ _ n). by destruct w.
Qed.

Lemma read_jobs may sid : does may (jobs_of_session sid).
Proof.
  apply does_call. intros w a w' [= _ <-]. apply (move_reads _ _ _ (rw_reads w)). by destruct w.
Qed.
End moves.
