(* ===== verification/ApprovalRuntimeProps.v ===== *)
(** * The approval runtime: theorems

    The service acts through the commands of the stores, so that everything
    proved of them holds of it; what applying a continuation may touch; commands
    that have been carried out are recognised and not run again. *)

From Stdlib Require Import ZArith Lia.
From stdpp Require Import relations.
From S2P Require Import Prelude GoJson WorkflowStore SessionModels SessionStore SessionEffects SessionInv SessionProps.
From S2P Require Import ApprovalModels ApprovalStore ApprovalProps ApprovalRuns.
From S2P Require Import Timed SpecStore SpecProps ArtifactStore ArtifactProps.
From S2P Require Import StoryboardModels StoryboardGraph StoryboardCommand StoryboardRevision StoryboardStore StoryboardRuns.
From S2P Require Import ApprovalRuntime ApprovalBatch ApprovalRelay ApprovalMoves.

(** The stores a frozen command acts on, and those the cleanup of a stale target. *)
Definition command_parts (kind : string) : list part :=
  if is_spec_command kind then [PSpecs]
  else if is_storyboard_command kind then [PBoards]
  else if is_export_command kind then [PArtifacts] else [].

Definition cleanup_parts (artifactType : string) : list part :=
  if bool_decide (artifactType = "storyboard_revision") || bool_decide (artifactType = "candidate_asset")
  then [PBoards] else [].

(** What applying a continuation may touch. *)
Definition apply_parts : list part := [PSessions; PSpecs; PArtifacts; PBoards].
Definition claimed_parts (record : Approval) (decision : ApprovalDecision) : list part :=
  PSessions :: command_parts (ad_CommandKind decision) ++ cleanup_parts (ap_ArtifactType record).

Lemma only_sessions : only [PSessions] PSessions.
Proof. left. Qed.
Lemma apply_sessions : only apply_parts PSessions.
Proof. left. Qed.
Lemma command_claimed record decision p : p ∈ command_parts (ad_CommandKind decision) → p ∈ claimed_parts record decision.
Proof. intros Hp. right. apply elem_of_app. by left. Qed.
Lemma cleanup_claimed record decision p : p ∈ cleanup_parts (ap_ArtifactType record) → p ∈ claimed_parts record decision.
Proof. intros Hp. right. apply elem_of_app. by right. Qed.

Ltac does_step :=
  cbv zeta;
  match goal with
  | |- does _ (ret _) => apply does_ret
  | |- does _ (fail _) => apply does_fail
  | |- does _ (bind _ _) => apply does_bind; [|intros ?]
  | |- does _ (bind_ok _ _) => apply does_bind_ok; [|intros ?]
  | |- does _ r_now => apply does_now
  | |- does _ next_claim => apply does_claim
  | |- does _ (jobs_of_session _) => apply read_jobs
  | |- does _ (match ?x with _ => _ end) => destruct x eqn:?
  | |- does _ _ => solve [eauto with does]
  end.
Ltac does_tac := repeat does_step.

(** A query leaves its store alone. *)
Ltac query := let v := fresh "v" in
  intros v; repeat (first [reflexivity|progress cbn|case_match]).

#[export] Hint Extern 1 (everything _) => exact I : does.
#[export] Hint Extern 1 (only _ _) => unfold only; set_solver : does.

Section service.
Context `{Codec} `{ApprovalCodec} `{PayloadCodec} `{Digest} `{Formatting} `{MapRange} `{Clock} {X : Type} `{Actors X}.
Variable cfg : Config.
Implicit Types (w : rworld X) (may : part → Prop).

(** ** The calls of the stores *)

Lemma approval_call cmd {A} (c : Eff (aworld unit) (result A)) :
  ApprovalRuns.run_command cmd = a_only c → ∀ v a v', c v = (a, v') → approval_step v v'.
Proof.
  intros Hc v a v' E. destruct (ApprovalRuns.run_command cmd v) as [e u] eqn:Eu.
  assert (u = v') as <-; [|by eapply ApprovalRuns.step_command].
  rewrite Hc in Eu. unfold a_only, bind, ret in Eu. rewrite E in Eu. by injection Eu.
Qed.

Lemma session_call cmd {A} (c : Eff (sworld unit) (result A)) :
  SessionEffects.run_command cmd = only_error c → ∀ v a v', c v = (a, v') → session_step v v'.
Proof.
  intros Hc v a v' E. destruct (SessionEffects.run_command cmd v) as [e u] eqn:Eu.
  assert (u = v') as <-; [|by eapply SessionProps.step_command].
  rewrite Hc in Eu. unfold only_error, bind, ret in Eu. rewrite E in Eu. by injection Eu.
Qed.

Lemma artifact_call cmd {A} (c : Eff (timed ArtifactStore.MemoryStore) (result A)) :
  ArtifactProps.run_command cmd = t_only c → ∀ v a v', c v = (a, v') → artifact_step v v'.
Proof.
  intros Hc v a v' E. destruct (ArtifactProps.run_command cmd v) as [e u] eqn:Eu.
  assert (u = v') as <-; [|by eapply ArtifactProps.step_command].
  rewrite Hc in Eu. unfold t_only, bind, ret in Eu. rewrite E in Eu. by injection Eu.
Qed.

Lemma board_call c {B} (m : Eff (bworld unit) (result (StoryboardAggregate * B))) :
  run_call c = forget m → ∀ v a v', m v = (a, v') → storyboard_step v v'.
Proof.
  intros Hc v a v' E. assert (v' = (run_call c v).2) as ->; [|apply step_call].
  rewrite Hc. unfold forget, bind_ok. rewrite E. by destruct a as [[? ?]|].
Qed.

Lemma call_Decide may command : may PApprovals → does may (on_approvals (ApprovalStore.Decide command)).
Proof. intros Hm. apply does_approvals; [done|]. by apply (approval_call (ADecide command)). Qed.
Lemma call_Fallback may command : may PApprovals → does may (on_approvals (SwitchToDurableFallback command)).
Proof. intros Hm. apply does_approvals; [done|]. by apply (approval_call (AFallback command)). Qed.
Lemma call_Published may id at_ : may PApprovals → does may (on_approvals (ApprovalStore.MarkOutboxPublished id at_)).
Proof. intros Hm. apply does_approvals; [done|]. by apply (approval_call (AMarkPublished id at_)). Qed.
Lemma call_Failed may id at_ n : may PApprovals → does may (on_approvals (ApprovalStore.MarkOutboxFailed id at_ n)).
Proof. intros Hm. apply does_approvals; [done|]. by apply (approval_call (AMarkFailed id at_ n)). Qed.
Lemma call_CreateBatch may b : may PApprovals → does may (on_approvals (CreateCandidateApprovalBatch b)).
Proof. intros Hm. apply does_approvals; [done|]. by apply (approval_call (ACreateBatch b)). Qed.

Lemma query_approval may id : does may (on_approvals (ApprovalStore.Get id)).
Proof. apply read_approvals. unfold ApprovalStore.Get, bind, a_get. query. Qed.
Lemma query_decision may id n : does may (on_approvals (GetDecision id n)).
Proof. apply read_approvals. unfold GetDecision, bind, a_get. query. Qed.
Lemma query_batch may key : does may (on_approvals (GetCandidateApprovalBatchByKey key)).
Proof. apply read_approvals. unfold GetCandidateApprovalBatchByKey, bind, a_get. query. Qed.
Lemma query_outbox may status n : does may (on_approvals (ApprovalStore.ListOutbox status n)).
Proof. by apply read_approvals. Qed.

Lemma call_enqueue may sid input : may PSessions → does may (enqueue sid input).
Proof. intros Hm. apply does_sessions; [done|]. by apply (session_call (CEnqueueInput sid (ByValue input))). Qed.
Lemma call_Request may c : may PSessions → does may (on_sessions (RequestContinuation c)).
Proof. intros Hm. apply does_sessions; [done|]. by apply (session_call (CRequestContinuation c)). Qed.
Lemma call_Claim may claim ttl : may PSessions → does may (on_sessions (ClaimContinuation claim ttl)).
Proof. intros Hm. apply does_sessions; [done|]. by apply (session_call (CClaimContinuation claim ttl)). Qed.
Lemma call_Apply may claim l : may PSessions → does may (on_sessions (ApplyContinuation claim l)).
Proof. intros Hm. apply does_sessions; [done|]. by apply (session_call (CApplyContinuation claim l)). Qed.
Lemma call_Fail may claim f : may PSessions → does may (on_sessions (FailContinuation claim f)).
Proof. intros Hm. apply does_sessions; [done|]. by apply (session_call (CFailContinuation claim f)). Qed.

Lemma query_command may id n kind : does may (on_sessions (GetCommand id n kind)).
Proof. apply read_sessions. unfold GetCommand, bind, SessionStore.get_store. query. Qed.
Lemma query_continuation may id n : does may (on_sessions (SessionStore.GetContinuation id n)).
Proof. apply read_sessions. unfold SessionStore.GetContinuation, bind, SessionStore.get_store. query. Qed.

Lemma call_DecideRevision may id n b : may PSpecs → does may (on_specs (DecideRevision id n b)).
Proof.
  intros Hm. apply does_specs; [done|]. intros v a v' E.
  eapply (SpecProps.step_command _ (SDecide id n b)). exact E.
Qed.
Lemma query_revision may id n : does may (on_specs (GetRevision id n)).
Proof. apply read_specs. unfold GetRevision, bind, t_get. query. Qed.
Lemma query_confirmed may sid : does may (on_specs (GetConfirmedBySession sid)).
Proof. apply read_specs. unfold GetConfirmedBySession, latest_by, bind, t_get. query. Qed.
Lemma query_reviewing may sid : does may (on_specs (GetLatestReviewingBySession sid)).
Proof. apply read_specs. unfold GetLatestReviewingBySession, latest_by, bind, t_get. query. Qed.

Lemma call_ApplyReview may c : may PArtifacts → does may (on_artifacts (ApplyReview c)).
Proof. intros Hm. apply does_artifacts; [done|]. by apply (artifact_call (RReview c)). Qed.
Lemma query_artifact may id : does may (on_artifacts (ArtifactStore.Get id)).
Proof. apply read_artifacts. unfold ArtifactStore.Get, bind, t_get. query. Qed.
Lemma query_latest may sid kind : does may (on_artifacts (GetLatest sid kind)).
Proof. apply read_artifacts. unfold GetLatest, bind, t_get. query. Qed.
Lemma query_receipt may key : does may (on_artifacts (GetReviewReceipt key)).
Proof. apply read_artifacts. unfold GetReviewReceipt, bind, t_get. query. Qed.

Lemma call_DecidePending may c : may PBoards → does may (on_boards (DecidePending c)).
Proof. intros Hm. apply does_boards; [done|]. by apply (board_call (CallDecidePending c)). Qed.
Lemma call_Activate may c : may PBoards → does may (on_boards (StoryboardStore.Activate c)).
Proof. intros Hm. apply does_boards; [done|]. by apply (board_call (CallActivate c)). Qed.
Lemma call_RejectBinding may c : may PBoards → does may (on_boards (Service_RejectBinding c)).
Proof. intros Hm. apply does_boards; [done|]. by apply (board_call (CallRejectBinding c)). Qed.
Lemma query_aggregate may id : does may (on_boards (GetAggregate id)).
Proof. apply read_boards. unfold GetAggregate, bind, b_get. query. Qed.

Hint Resolve call_Decide call_Fallback call_Published call_Failed call_CreateBatch query_approval query_decision
  query_batch query_outbox call_enqueue call_Request call_Claim call_Apply call_Fail query_command
  query_continuation call_DecideRevision query_revision query_confirmed query_reviewing call_ApplyReview
  query_artifact query_latest query_receipt call_DecidePending call_Activate call_RejectBinding query_aggregate : does.

(** ** The handlers *)

Lemma does_ResolveBinding may record : does may (ResolveBinding cfg record).
Proof.
  unfold ResolveBinding, resolve_spec, resolve_storyboard, resolve_candidate, resolve_export,
    storyboardMatchesConfirmedSpec. does_tac.
Qed.

Lemma does_inspect may record decision : does may (inspectAppliedCommand cfg record decision).
Proof. unfold inspectAppliedCommand, inspect_storyboard, inspect_spec, inspect_export. does_tac. Qed.

Lemma does_cleanup may record :
  (∀ p, p ∈ cleanup_parts (ap_ArtifactType record) → may p) → does may (cleanupStaleArtifact cfg record).
Proof.
  unfold cleanup_parts, cleanupStaleArtifact, cleanup_revision, cleanup_candidate. intros Hm.
  assert (Hb : bool_decide (ap_ArtifactType record = "storyboard_revision")
    || bool_decide (ap_ArtifactType record = "candidate_asset") = true → may PBoards).
  { intros E. rewrite E in Hm. apply Hm. left. }
  match goal with |- does _ (if ?b then _ else _) => destruct b end; [apply does_ret|].
  destruct (bool_decide (_ = "storyboard_revision")); [specialize (Hb eq_refl); does_tac|].
  destruct (bool_decide (_ = "candidate_asset")); [specialize (Hb eq_refl); does_tac|apply does_ret].
Qed.

Lemma does_execute may record decision :
  (∀ p, p ∈ command_parts (ad_CommandKind decision) → may p) → does may (executeCommand cfg record decision).
Proof.
  unfold command_parts, executeCommand. intros Hm. destruct (json_Unmarshal_map _) as [values|]; [|apply does_fail].
  cbv zeta. destruct (is_spec_command _); [|destruct (is_storyboard_command _); [|destruct (is_export_command _)]].
  - assert (may PSpecs) by (apply Hm; left). unfold execute_spec. does_tac.
  - assert (may PBoards) by (apply Hm; left). unfold execute_activation, execute_rejection, execute_revision. does_tac.
  - assert (may PArtifacts) by (apply Hm; left). unfold execute_export. does_tac.
  - apply does_fail.
Qed.

Lemma does_give_back may {A} claim e : may PSessions → does may (give_back (A := A) claim e).
Proof. intros Hm. unfold give_back. does_tac. Qed.

Lemma does_result may decision : does may (appliedCommandResult decision).
Proof. unfold appliedCommandResult. does_tac. Qed.
Hint Resolve does_result : does.

Lemma does_finishApplied may c : may PSessions → does may (finishApplied cfg c).
Proof. intros Hm. unfold finishApplied. does_tac. Qed.

Lemma does_record may claim l : may PSessions → does may (record_and_finish cfg claim l).
Proof. intros Hm. unfold record_and_finish. pose proof does_finishApplied. does_tac. Qed.
Hint Resolve does_ResolveBinding does_inspect does_give_back does_finishApplied does_record : does.

Lemma does_noop may claim claimed record decision :
  (∀ p, p ∈ claimed_parts record decision → may p) → does may (applySupersededNoop cfg claim claimed record decision).
Proof.
  intros Hm. assert (may PSessions) by (apply Hm; left). assert (does may (cleanupStaleArtifact cfg record)).
  { apply does_cleanup. intros p Hp. by apply Hm, cleanup_claimed. }
  unfold applySupersededNoop. does_tac.
Qed.

Lemma does_run_frozen may claim claimed record decision :
  (∀ p, p ∈ claimed_parts record decision → may p) → does may (run_frozen cfg claim claimed record decision).
Proof.
  intros Hm. assert (may PSessions) by (apply Hm; left). pose proof (does_noop may claim claimed _ _ Hm).
  assert (does may (executeCommand cfg record decision)).
  { apply does_execute. intros p Hp. by apply Hm, command_claimed. }
  unfold run_frozen. does_tac.
Qed.

Lemma does_apply_claimed may claim claimed record decision :
  (∀ p, p ∈ claimed_parts record decision → may p) → does may (apply_claimed cfg claim claimed record decision).
Proof.
  intros Hm. assert (may PSessions) by (apply Hm; left). pose proof (does_noop may claim claimed _ _ Hm).
  pose proof (does_run_frozen may claim claimed _ _ Hm). unfold apply_claimed. does_tac.
Qed.

Lemma claimed_apply record decision p : p ∈ claimed_parts record decision → p ∈ apply_parts.
Proof.
  unfold claimed_parts, command_parts, cleanup_parts, apply_parts. repeat case_match; set_solver.
Qed.

Lemma does_Apply may continuation : (∀ p, p ∈ apply_parts → may p) → does may (Apply cfg continuation).
Proof.
  intros Hm. assert (may PSessions) by (apply Hm; left).
  assert (∀ claim claimed record decision, does may (apply_claimed cfg claim claimed record decision)).
  { intros. apply does_apply_claimed. intros p Hp%claimed_apply. by apply Hm. }
  unfold Apply. does_tac.
Qed.

Lemma Apply_everything continuation : does everything (Apply cfg continuation).
Proof. by apply does_Apply. Qed.
Lemma cleanup_everything record : does everything (cleanupStaleArtifact cfg record).
Proof. by apply does_cleanup. Qed.
Hint Resolve Apply_everything cleanup_everything : does.

Lemma does_record_decision request : does everything (record_decision cfg request).
Proof. unfold record_decision, settle_mode, observed_binding. does_tac. Qed.

Lemma does_mark_if b id : does everything (mark_if b id).
Proof. unfold mark_if. does_tac. Qed.
Hint Resolve does_record_decision does_mark_if : does.

Lemma does_carry_out record decided : does everything (carry_out cfg record decided).
Proof. unfold carry_out. does_tac. Qed.
Hint Resolve does_carry_out : does.

Lemma does_Decide request : does everything (ApprovalRuntime.Decide cfg request).
Proof. unfold ApprovalRuntime.Decide. does_tac. Qed.
Hint Resolve does_Decide : does.

Lemma does_terminal may sid board : does may (ensureCandidateGenerationTerminal cfg sid board).
Proof. unfold ensureCandidateGenerationTerminal. does_tac. Qed.

Lemma does_pending may aggregate : does may (pendingCandidateBatchTargets aggregate).
Proof.
  unfold pendingCandidateBatchTargets.
  induction (ag_Bindings aggregate) as [|b l IH]; cbn [batch_targets]; unfold batch_target; does_tac.
Qed.
Hint Resolve does_terminal does_pending : does.

Lemma does_load request : does everything (loadOrCreateCandidateBatch cfg request).
Proof. unfold loadOrCreateCandidateBatch, freeze_batch, stored_meanwhile. does_tac. Qed.

Lemma does_targets batch l result : does everything (decide_targets cfg batch l result).
Proof. revert result. induction l as [|t l IH]; intros result; cbn [decide_targets]; does_tac. Qed.
Hint Resolve does_load does_targets : does.

Lemma does_Batch request : does everything (ApproveCandidateBatch cfg request).
Proof. unfold ApproveCandidateBatch. does_tac. Qed.

Lemma does_event event n err : does everything (relay_event cfg event n err).
Proof. unfold relay_event, handle_event, handle_resume, handle_continuation, Service_GetContinuation, mark_undelivered. does_tac. Qed.
Hint Resolve does_event : does.

Lemma does_rows limit now l due n err : does everything (relay_rows cfg limit now l due n err).
Proof. revert due n err. induction l as [|event l IH]; intros due n err; cbn [relay_rows]; does_tac. Qed.
Hint Resolve does_rows : does.

Lemma does_Relay limit : does everything (RelayOnce cfg limit).
Proof. unfold RelayOnce. does_tac. Qed.
End service.

(** ** The service and other actors over time *)

Inductive service_call :=
| SDecideApproval (request : DecideRequest)
| SApplyContinuation (continuation : ApprovalContinuation)
| SApproveBatch (request : CandidateBatchApproveRequest)
| SRelayOutbox (limit : Z).

Section runs.
Context `{Codec} `{ApprovalCodec} `{PayloadCodec} `{Digest} `{Formatting} `{MapRange} `{Clock} {X : Type} `{Actors X}.
Implicit Types (w : rworld X) (may : part → Prop).

(** A call, by a service with some configuration, whatever the answer. *)
Definition run_service (cfg : Config) (c : service_call) : Eff (rworld X) unit :=
  match c with
  | SDecideApproval request => let* _ := ApprovalRuntime.Decide cfg request in ret tt
  | SApplyContinuation continuation => let* _ := Apply cfg continuation in ret tt
  | SApproveBatch request => let* _ := ApproveCandidateBatch cfg request in ret tt
  | SRelayOutbox limit => let* _ := RelayOnce cfg limit in ret tt
  end.

Inductive runtime_step w : rworld X → Prop :=
| step_service cfg c : runtime_step w (run_service cfg c w).2
| step_others w' : rmove everything w w' → runtime_step w w'.

Definition runtime_future : rworld X → rworld X → Prop := rtc runtime_step.
Definition runtime_start w : Prop :=
  rw_approvals w = ApprovalStore.NewMemoryStore ∧ rw_sessions w = SessionStore.NewMemoryStore ∧
  rw_specs w = SpecStore.NewMemoryStore ∧ rw_artifacts w = ArtifactStore.NewMemoryStore ∧
  rw_boards w = NewMemoryAggregateRepository.

Lemma does_service cfg c : does everything (run_service cfg c).
Proof.
  destruct c; cbn [run_service]; (apply does_bind; [|intros; apply does_ret]);
    [apply does_Decide|apply Apply_everything|apply does_Batch|apply does_Relay].
Qed.

Context (lawful : LawfulActors (X := X)).

Lemma moves_everything may w w' : rtc (move may) w w' → rtc (rmove everything) w w'.
Proof.
  induction 1 as [|w w1 w' Hm _ IH]; [done|]. destruct Hm as [->|Hm].
  - etrans; [apply lawful|exact IH].
  - eapply rtc_l; [|exact IH]. eapply rmove_mono; [|exact Hm]. done.
Qed.

Lemma future_moves w w' : runtime_future w w' → rtc (rmove everything) w w'.
Proof.
  induction 1 as [|w w1 w' Hs _ IH]; [done|]. destruct Hs as [cfg c|w1 Hm]; [|by eapply rtc_l].
  etrans; [|exact IH]. destruct (run_service cfg c w) as [u w1] eqn:E. eapply moves_everything, does_service, E.
Qed.

(** C3. The approval runtime is built on its stores.  Whatever services decide,
    apply, approve in batches and relay, and whatever other actors do through the
    stores in between, before any single call of a store too: seen from each store it is a
    run of that store's own commands.  So from empty stores on the invariants of
    all of them hold, and the theorems about their runs apply. *)
Theorem approval_runtime_refines_stores w w' :
  runtime_future w w' →
  rtc approval_step (approvals_of w) (approvals_of w') ∧ rtc session_step (sessions_of w) (sessions_of w') ∧
  spec_future (specs_of w) (specs_of w') ∧ artifact_future (artifacts_of w) (artifacts_of w') ∧
  storyboard_future (boards_of w) (boards_of w') ∧
  (runtime_start w →
     approval_inv (rw_approvals w') ∧ spec_inv (rw_specs w') ∧ artifact_inv (rw_artifacts w') ∧
     repository_inv (rw_boards w') ∧
     ∃ n, nsteps session_step n (sessions_of w) (sessions_of w') ∧
       (Z.of_nat n < int64_max → session_inv (rw_sessions w'))).
Proof.
  intros Hf%future_moves. pose proof (runs_approvals _ _ _ Hf) as Ha. pose proof (runs_sessions _ _ _ Hf) as Hs.
  pose proof (runs_specs _ _ _ Hf) as Hp. pose proof (runs_artifacts _ _ _ Hf) as Hr.
  pose proof (runs_boards _ _ _ Hf) as Hb. split_and!; try done. intros (E1 & E2 & E3 & E4 & E5). split_and!.
  - apply (approval_reachable_inv (approvals_of w')). by exists (approvals_of w).
  - apply (specs_reachable_inv (specs_of w')). by exists (specs_of w).
  - apply (artifacts_reachable_inv (artifacts_of w')). by exists (artifacts_of w).
  - apply (reachable_inv (boards_of w')). by exists (boards_of w).
  - apply rtc_nsteps in Hs as [n Hn]. exists n. split; [done|]. intros Hlt.
    apply (session_reachable_inv (sessions_of w')). exists n. split; [done|]. by exists (sessions_of w).
Qed.

(** ** Calls, seen from the stores *)

Lemma on_boards_inv {A} (c : Eff (bworld unit) A) w a w' :
  on_boards c w = (a, w') → ∃ v, c (boards_of (actors w).2) = (a, v) ∧ w' = with_boards (actors w).2 v.
Proof.
  unfold on_boards, bind. destruct (actors w) as [u w1]. cbn [snd]. unfold boards_of.
  destruct (c _) as [b v] eqn:E. intros [= <- <-]. by exists v.
Qed.

Lemma on_artifacts_inv {A} (c : Eff (timed ArtifactStore.MemoryStore) A) w a w' :
  on_artifacts c w = (a, w') → ∃ v, c (artifacts_of (actors w).2) = (a, v) ∧ w' = with_artifacts (actors w).2 v.
Proof.
  unfold on_artifacts, bind. destruct (actors w) as [u w1]. cbn [snd]. unfold artifacts_of.
  destruct (c _) as [b v] eqn:E. intros [= <- <-]. by exists v.
Qed.

(** ** Commands that have been carried out *)

Definition on_board_record (key sid : string) w : Prop :=
  ∃ a, mr_aggregates (rw_boards w) !! TrimSpace sid = Some a ∧ TrimSpace key ∈ ag_AppliedCommandIDs a.

Definition on_artifact_record (c : ReviewCommand) w : Prop :=
  ∃ t, receipts (rw_artifacts w) !! rc_IdempotencyKey c = Some t ∧ raw_command t = c.

Definition stores_reachable w : Prop := storyboards_reachable (boards_of w) ∧ artifacts_reachable (artifacts_of w).

Lemma stores_reachable_moves w w' : rtc (rmove everything) w w' → stores_reachable w → stores_reachable w'.
Proof.
  intros Hm [Hb Hr]. split; [eapply reachable_future; [exact Hb|by eapply runs_boards]|].
  destruct Hr as (w0 & E & Hf). exists w0. split; [done|]. etrans; [exact Hf|by eapply runs_artifacts].
Qed.

Lemma board_record_kept key sid w w' :
  rtc (rmove everything) w w' → stores_reachable w → on_board_record key sid w → on_board_record key sid w'.
Proof.
  intros Hm [Hr _] (a & Ha & Hk). pose proof (runs_boards _ _ _ Hm) as Hf.
  destruct (future_follows _ _ _ _ Hr Hf Ha) as (a' & Ha' & [_ _ Hh] & _). exists a'. split; [done|].
  pose proof (reachable_inv _ (reachable_future _ _ Hr Hf)) as Hi'.
  apply (ri_ledger _ (reachable_inv _ Hr) _ _ _ Ha) in Hk as [f Hf0]. apply (ri_ledger _ Hi' _ _ _ Ha'). eauto.
Qed.

Lemma artifact_record_kept c w w' :
  rtc (rmove everything) w w' → stores_reachable w → on_artifact_record c w → on_artifact_record c w'.
Proof.
  intros Hm [_ Hr%artifacts_reachable_inv] (t & Ht & Hc). exists t. split; [|done].
  destruct (artifact_future_changes _ _ (runs_artifacts _ _ _ Hm) Hr) as [Hch _]. by eapply run_receipts in Hch.
Qed.

Lemma board_call_recorded c {B} (m : Eff (bworld unit) (result (StoryboardAggregate * B))) w r w' :
  run_call c = forget m → stores_reachable w → TrimSpace (call_id c) ≠ "" → on_boards m w = (Ok r, w') →
  on_board_record (call_id c) (call_storyboard c) w'.
Proof.
  intros Hm Hr Hid (v & E & ->)%on_boards_inv.
  assert (Hr1 : stores_reachable (actors w).2) by (eapply stores_reachable_moves; [apply lawful|done]).
  destruct Hr1 as [Hr1 _].
  assert (Hrun : run_call c (boards_of (actors w).2) = (Ok r.1, v)).
  { rewrite Hm. unfold forget, bind_ok. rewrite E. by destruct r. }
  destruct (accepted_on_record _ _ _ _ Hr1 Hid Hrun) as (a & f & Ha & Hf & _).
  exists a. split; [done|].
  assert (storyboards_reachable v) as Hv.
  { eapply reachable_future; [exact Hr1|]. apply rtc_once.
    replace v with (run_call c (boards_of (actors w).2)).2 by (by rewrite Hrun). apply step_call. }
  apply (ri_ledger _ (reachable_inv _ Hv) _ _ _ Ha). eauto.
Qed.

Lemma current_aggregate sid w a w' :
  stores_reachable w → on_boards (GetAggregate sid) w = (Ok a, w') → ag_ID a = TrimSpace sid ∧ stores_reachable w'.
Proof.
  intros Hr E. split.
  - apply on_boards_inv in E as (v & E & _).
    assert (Hr1 : stores_reachable (actors w).2) by (eapply stores_reachable_moves; [apply lawful|done]).
    destruct Hr1 as [Hr1%reachable_inv _]. revert E. unfold GetAggregate, bind, b_get.
    destruct (mr_aggregates _ !! _) as [b|] eqn:Eb; [|done]. intros [<- _]%answer_inj.
    by destruct (ri_filed _ Hr1 _ _ Eb) as [Hid _].
  - eapply stores_reachable_moves; [|exact Hr]. eapply moves_everything, (query_aggregate everything), E.
Qed.

(** The frozen command has its effect on record in the store it acts on. *)
Definition command_on_record (record : Approval) (decision : ApprovalDecision) (values : gomap any) w : Prop :=
  if is_storyboard_command (ad_CommandKind decision)
  then on_board_record (ad_CommandIdempotencyKey decision) (stringValue values "storyboard_id") w
  else on_artifact_record (ArtifactStore.normalize (export_command record decision values)) w.

Lemma command_record_kept record decision values w w' :
  rtc (rmove everything) w w' → stores_reachable w →
  command_on_record record decision values w → command_on_record record decision values w'.
Proof.
  unfold command_on_record. intros Hm Hr. destruct (is_storyboard_command _);
    [by apply board_record_kept|by apply artifact_record_kept].
Qed.

Lemma bind_ok_Ok {A B} (c : Eff (rworld X) (result A)) (k : A → Eff (rworld X) (result B)) w b w' :
  bind_ok c k w = (Ok b, w') → ∃ a w1, c w = (Ok a, w1) ∧ k a w1 = (Ok b, w').
Proof. unfold bind_ok. destruct (c w) as [[a|e] w1]; [|done]. intros E. by exists a, w1. Qed.

Lemma not_spec_command kind :
  is_storyboard_command kind = true ∨ is_export_command kind = true → is_spec_command kind = false.
Proof.
  unfold is_storyboard_command, is_export_command, is_spec_command. rewrite !bool_decide_eq_true.
  intros Hk. apply bool_decide_eq_false. intros Hs. rewrite !elem_of_cons, elem_of_nil in *. naive_solver.
Qed.

(** One command of the storyboard: the aggregate is loaded, the call made. *)
Lemma board_executed key sid {B C} (c : StoryboardAggregate → call)
    (m : StoryboardAggregate → Eff (bworld unit) (result (StoryboardAggregate * B)))
    (k : StoryboardAggregate * B → Eff (rworld X) (result C)) w r w' :
  (∀ a, run_call (c a) = forget (m a) ∧ call_id (c a) = key ∧ call_storyboard (c a) = ag_ID a) →
  (∀ x w a w', k x w = (a, w') → w' = w) →
  stores_reachable w → TrimSpace key ≠ "" →
  bind_ok (on_boards (GetAggregate sid)) (fun a => bind_ok (on_boards (m a)) k) w = (Ok r, w') →
  on_board_record key sid w'.
Proof.
  intros Hc Hk Hr Hid (a & w1 & E1 & (x & w2 & E2 & E3)%bind_ok_Ok)%bind_ok_Ok. apply Hk in E3 as ->.
  destruct (current_aggregate _ _ _ _ Hr E1) as [Ha Hr1]. destruct (Hc a) as (Hrun & Hkey & Hsb).
  destruct (board_call_recorded (c a) (m a) w1 x w2 Hrun Hr1) as (s & Hs & Hin); [by rewrite Hkey|done|].
  exists s. rewrite Hsb, Ha, TrimSpace_idem in Hs. by rewrite Hkey in Hin.
Qed.

Lemma executed_on_record cfg record decision w result w1 :
  stores_reachable w →
  is_storyboard_command (ad_CommandKind decision) = true ∨ is_export_command (ad_CommandKind decision) = true →
  TrimSpace (ad_CommandIdempotencyKey decision) ≠ "" →
  executeCommand cfg record decision w = (Ok result, w1) →
  ∃ values, json_Unmarshal_map (ad_CommandPayload decision) = Ok values ∧ command_on_record record decision values w1.
Proof.
  intros Hr Hkind Hkey. unfold executeCommand. destruct (json_Unmarshal_map _) as [values|]; [|done].
  intros E. exists values. split; [done|]. revert E. cbv zeta. rewrite (not_spec_command _ Hkind).
  unfold command_on_record. destruct (is_storyboard_command _) eqn:Es.
  - destruct (_ || _); [done|].
    unfold execute_activation, execute_rejection, execute_revision.
    destruct (bool_decide (_ = "ActivateArtifactBinding")); [|destruct (bool_decide (_ = "RejectArtifactBinding"))];
      intros E.
    + eapply (board_executed _ _ (fun current => CallActivate (mkActivateBindingCommand
        (ad_CommandIdempotencyKey decision) (ag_ID current) (ag_Version current) (stringValue values "binding_id"))));
        [done| |exact Hr|exact Hkey|exact E]. by intros [? ?] ??? [= _ <-].
    + eapply (board_executed _ _ (fun current => CallRejectBinding (mkRejectBindingCommand
        (ad_CommandIdempotencyKey decision) (ag_ID current) (ag_Version current) (stringValue values "binding_id"))));
        [done| |exact Hr|exact Hkey|exact E]. by intros [? ?] ??? [= _ <-].
    + eapply (board_executed _ _ (fun current => CallDecidePending (mkDecidePendingRevisionCommand
        (ad_CommandIdempotencyKey decision) (ad_CommandIdempotencyKey decision) (ag_ID current) (ag_Version current)
        (stringValue values "revision_id")
        (if bool_decide (ad_CommandKind decision = "PromoteStoryboardRevision") then "approved" else "rejected")
        "" "approval")));
        [done| |exact Hr|exact Hkey|exact E]. by intros [? ?] ??? [= _ <-].
  - destruct Hkind as [?|Hx]; [done|]. rewrite Hx. unfold execute_export. destruct (negb _); [done|].
    intros (x & w2 & (v & E & ->)%on_artifacts_inv & [= _ <-])%bind_ok_Ok.
    assert (Hr1 : stores_reachable (actors w).2) by (eapply stores_reachable_moves; [apply lawful|done]).
    destruct Hr1 as [_ Hr1%artifacts_reachable_inv].
    destruct (review_kept _ _ _ _ Hr1 E) as (Hi & Ht & Hc & _).
    exists (rr_Receipt x). split; [exact Ht|]. by rewrite <-(receipt_ok_command _ _ (ri_receipts _ Hi _ _ Ht)).
Qed.

Lemma normalize_export record decision values :
  TrimSpace (ad_CommandIdempotencyKey decision) = ad_CommandIdempotencyKey decision →
  TrimSpace (ap_SessionID record) = ap_SessionID record →
  ArtifactStore.normalize (export_command record decision values) = export_command record decision values.
Proof.
  intros Hk Hs. unfold export_command.
  assert (Hd : ToLower (TrimSpace (export_decision (ad_CommandKind decision))) = export_decision (ad_CommandKind decision)).
  { unfold export_decision. case_bool_decide; vm_compute; reflexivity. }
  assert (Hi : TrimSpace (stringValue values "artifact_id") = stringValue values "artifact_id") by apply TrimSpace_idem.
  revert Hk Hs Hd Hi. generalize (ad_CommandIdempotencyKey decision), (ap_SessionID record), (stringValue values "artifact_id"),
    (intValue values "artifact_version"), (export_decision (ad_CommandKind decision)).
  intros key sid aid version d Hk Hs Hd Hi. unfold ArtifactStore.normalize. cbn -[TrimSpace ToLower]. rewrite Hk, Hs, Hi.
  assert (TrimSpace KindExportResult = KindExportResult) as -> by (vm_compute; reflexivity).
  assert (TrimSpace ArtifactStore.StatusReviewing = ArtifactStore.StatusReviewing) as -> by (vm_compute; reflexivity).
  change (bool_decide (ArtifactStore.StatusReviewing = "")) with false. cbn -[TrimSpace ToLower]. by rewrite Hd.
Qed.

(** The receipt of a frozen export command passes every comparison. *)
Lemma receipt_recognised ik t record decision values :
  receipt_ok ik t → raw_command t = export_command record decision values →
  receipt_changed t record decision (stringValue values "artifact_id") (intValue values "artifact_version") = false ∧
  result_changed (rt_Result t) record decision (stringValue values "artifact_id") (intValue values "artifact_version") = false.
Proof.
  intros [_ _ _ (R1 & R2 & R3 & R4 & R5)] Hraw. unfold raw_command, export_command in Hraw.
  injection Hraw as E1 E2 E3 E4 E5 E6 E7 E8. unfold receipt_changed, result_changed.
  rewrite R1, R2, R3, R4, R5, E1, E2, E3, E4, E5, E6, E7, E8, !Z.eqb_refl, !(bool_decide_eq_true_2 _ eq_refl).
  split; [reflexivity|]. unfold export_decision, export_status.
  destruct (bool_decide (ad_CommandKind decision = "RejectExportResult")); reflexivity.
Qed.

(** What is on record is found. *)
Lemma inspect_found cfg record decision values w :
  stores_reachable w → command_on_record record decision values w →
  json_Unmarshal_map (ad_CommandPayload decision) = Ok values →
  is_storyboard_command (ad_CommandKind decision) = true ∧ cf_Storyboards cfg = true ∨
  is_export_command (ad_CommandKind decision) = true ∧ is_storyboard_command (ad_CommandKind decision) = false ∧
    cf_Artifacts cfg = true →
  TrimSpace (ad_CommandIdempotencyKey decision) = ad_CommandIdempotencyKey decision →
  ad_CommandIdempotencyKey decision ≠ "" → TrimSpace (ap_SessionID record) = ap_SessionID record →
  ∃ found w', inspectAppliedCommand cfg record decision w = (Ok (Some found), w').
Proof.
  intros Hr Hon Hv Hkind Hk Hne Hs.
  assert (Hr1 : rtc (rmove everything) w (actors w).2) by apply lawful.
  apply (command_record_kept _ _ _ _ _ Hr1 Hr) in Hon. apply (stores_reachable_moves _ _ Hr1) in Hr.
  assert (Hspec : is_spec_command (ad_CommandKind decision) = false) by (apply not_spec_command; tauto).
  assert (Hblank : blank (ad_CommandKind decision) = false).
  { destruct (blank _) eqn:E; [|done]. exfalso. unfold blank in E. apply bool_decide_eq_true in E.
    unfold is_storyboard_command, is_export_command in Hkind. rewrite !bool_decide_eq_true in Hkind.
    destruct Hkind as [[Hx _]|[Hx _]]; rewrite !elem_of_cons, elem_of_nil in Hx;
      repeat destruct Hx as [Hx|Hx]; try done; rewrite Hx in E; by vm_compute in E. }
  unfold inspectAppliedCommand. rewrite Hblank, Hv, Hspec.
  assert (blank (ad_CommandIdempotencyKey decision) = false) as ->.
  { unfold blank. rewrite Hk. by apply bool_decide_eq_false. }
  cbn [orb]. unfold command_on_record in Hon.
  destruct (is_storyboard_command _) eqn:Es.
  - destruct Hkind as [[_ Hc]|(_ & ? & _)]; [|done]. destruct Hon as (a & Ha & Hin).
    unfold inspect_storyboard. rewrite Hc. cbn [negb]. unfold bind_ok, on_boards, bind.
    destruct (actors w) as [u w1]. cbn [snd] in *. unfold GetAggregate, bind, b_get. cbn [bw_repo]. rewrite Ha.
    assert (HasApplied (Clone a) (ad_CommandIdempotencyKey decision) = true) as Hap.
    { unfold HasApplied. rewrite Hk in Hin |- *. apply andb_true_intro. split; [by apply negb_true_iff, bool_decide_eq_false|].
      by apply bool_decide_eq_true. }
    unfold ret. rewrite Hap. cbn [negb]. by eexists _, _.
  - destruct Hkind as [[? _]|(Hx & _ & Hc)]; [done|]. rewrite Hx. destruct Hon as (t & Ht & Hraw).
    rewrite normalize_export in Ht, Hraw by done. unfold inspect_export. rewrite Hc. cbn [negb]. unfold on_artifacts, bind.
    destruct Hr as [_ Hr%artifacts_reachable_inv]. pose proof (ri_receipts _ Hr _ _ Ht) as Hok.
    destruct (actors w) as [u w1]. cbn [snd] in *. unfold GetReviewReceipt, bind, t_get. cbn [t_store]. rewrite Hk.
    cbn [export_command rc_IdempotencyKey] in Ht. rewrite Ht. unfold ret. rewrite (ro_clone _ _ Hok).
    destruct (receipt_recognised _ _ _ _ _ Hok Hraw) as [-> ->]. by eexists _, _.
Qed.

Lemma executed_config cfg record decision w result w1 :
  is_storyboard_command (ad_CommandKind decision) = true ∨ is_export_command (ad_CommandKind decision) = true →
  executeCommand cfg record decision w = (Ok result, w1) →
  is_storyboard_command (ad_CommandKind decision) = true ∧ cf_Storyboards cfg = true ∨
  is_export_command (ad_CommandKind decision) = true ∧ is_storyboard_command (ad_CommandKind decision) = false ∧
    cf_Artifacts cfg = true.
Proof.
  intros Hkind. unfold executeCommand. destruct (json_Unmarshal_map _) as [values|]; [|done]. cbv zeta.
  rewrite (not_spec_command _ Hkind). destruct (is_storyboard_command _).
  - intros E. left. split; [done|]. destruct (cf_Storyboards cfg); [done|]. by rewrite orb_true_r in E.
  - destruct Hkind as [?|Hx]; [done|]. rewrite Hx. unfold execute_export. intros E. right.
    by destruct (cf_Artifacts cfg).
Qed.

(** C6. A frozen command that has taken effect is not run again.  Suppose a
    command on a storyboard or an export has been executed and the process stopped
    before the continuation was noted as applied.  Whatever services and other
    actors do afterwards, whoever claims the continuation next finds the command
    in the store it acted on: it only reads until it records the command with the
    result it has found, and wakes the agent -- or, if the target can no longer be
    loaded, gives the claim back.  It does not execute the command, and does not take
    the change the command has made for an interfering one. *)
Theorem executed_command_is_not_run_again cfg claim claimed record decision w result w1 w2 r w3 :
  stores_reachable w →
  is_storyboard_command (ad_CommandKind decision) = true ∨ is_export_command (ad_CommandKind decision) = true →
  TrimSpace (ad_CommandIdempotencyKey decision) = ad_CommandIdempotencyKey decision →
  ad_CommandIdempotencyKey decision ≠ "" → TrimSpace (ap_SessionID record) = ap_SessionID record →
  executeCommand cfg record decision w = (Ok result, w1) → runtime_future w1 w2 →
  apply_claimed cfg claim claimed record decision w2 = (r, w3) →
  ∃ w4, rtc (move (only [])) w2 w4 ∧ rtc (move (only [PSessions])) w4 w3 ∧
    ((∃ found, record_and_finish cfg claim [ledger_entry claimed decision found] w4 = (r, w3)) ∨
     (∃ e, ResolveBinding cfg record w2 = (Err e, w4) ∧ give_back claim e w4 = (r, w3))).
Proof.
  intros Hr Hkind Hk Hne Hs E Hf%future_moves Ea.
  destruct (executed_on_record cfg record decision w result w1) as (values & Hv & Hon); try done; [by rewrite Hk|].
  pose proof (executed_config _ _ _ _ _ _ Hkind E) as Hcfg.
  assert (Hr1 : stores_reachable w1).
  { eapply stores_reachable_moves; [|exact Hr]. eapply moves_everything, (does_execute cfg everything); [done|exact E]. }
  apply (command_record_kept _ _ _ _ _ Hf Hr1) in Hon. apply (stores_reachable_moves _ _ Hf) in Hr1.
  revert Ea. unfold apply_claimed. unfold bind at 1. destruct (ResolveBinding cfg record w2) as [[current|e] w4] eqn:E4.
  - pose proof (does_ResolveBinding cfg (only []) _ _ _ _ E4) as Hm4.
    pose proof (moves_everything _ _ _ Hm4) as Hm4'.
    apply (command_record_kept _ _ _ _ _ Hm4' Hr1) in Hon. apply (stores_reachable_moves _ _ Hm4') in Hr1.
    destruct (inspect_found cfg record decision values w4 Hr1 Hon Hv Hcfg Hk Hne Hs) as (found & w5 & E5).
    unfold bind at 1. rewrite E5. intros E6. exists w5. split_and!.
    + etrans; [exact Hm4|]. eapply does_inspect, E5.
    + eapply (does_record cfg (only [PSessions])), E6. exact only_sessions.
    + left. by exists found.
  - intros E5. exists w4. split_and!.
    + eapply does_ResolveBinding, E4.
    + eapply (does_give_back (only [PSessions])), E5. exact only_sessions.
    + right. by exists e.
Qed.

(** ** What an answer of [Apply] means *)

Definition can_apply : part → Prop := only apply_parts.

(** The agent's input has been accepted: the last call of the service. *)
Definition agent_told (c : ApprovalContinuation) w' : Prop :=
  ∃ w1 record decision result res v,
    ap_SessionID record = ac_SessionID c ∧ ap_DecisionVersion record = ac_DecisionVersion c ∧
    ap_ExecutionEpoch record = ac_ExecutionEpoch c ∧ ap_Status record = ad_EffectiveStatus decision ∧
    EnqueueInput (ap_SessionID record)
      (ByValue (TApprovalContinuation (continuation_result record decision c result))) (sessions_of w1) = (Ok res, v) ∧
    w' = with_sessions w1 v.

Lemma on_sessions_inv {A} (c : Eff (sworld unit) A) w a w' :
  on_sessions c w = (a, w') → ∃ v, c (sessions_of (actors w).2) = (a, v) ∧ w' = with_sessions (actors w).2 v.
Proof.
  unfold on_sessions, bind. destruct (actors w) as [u w1]. cbn [snd]. unfold sessions_of.
  destruct (c _) as [b v] eqn:E. intros [= <- <-]. by exists v.
Qed.

(** [finishApplied] reads, and then it adds the agent's input or is done. *)
Lemma finishApplied_end cfg c w r w' :
  finishApplied cfg c w = (r, w') →
  ∃ w1, rtc (move (only [])) w w1 ∧
    (w' = w1 ∧ (r = Ok true → ac_Executor c ≠ ContinuationExecutorDeterministic) ∨
     (∃ sid input a, enqueue sid (TApprovalContinuation input) w1 = (a, w')) ∧ (r = Ok true → agent_told c w')).
Proof.
  unfold finishApplied. case_bool_decide as Hex; cbn [negb]; [|intros [= <- <-]; exists w; split; [done|by left]].
  case_bool_decide as Hst; cbn [negb]; [|intros [= <- <-]; exists w; split; [done|by left]].
  destruct (negb _); [intros [= <- <-]; exists w; split; [done|by left]|].
  unfold bind_ok at 1. destruct (on_approvals _ w) as [[record|e] w1] eqn:E1;
    pose proof (query_approval (only []) _ _ _ _ E1) as M1; [|intros [= <- <-]; exists w1; split; [done|by left]].
  unfold bind_ok at 1. destruct (on_approvals _ w1) as [[decision|e] w2] eqn:E2;
    pose proof (query_decision (only []) _ _ _ _ _ E2) as M2;
    [|intros [= <- <-]; exists w2; split; [by etrans|by left]].
  destruct (_ || _) eqn:Ef; [intros [= <- <-]; exists w2; split; [by etrans|by left]|].
  rewrite !orb_false_iff, !negb_false_iff, !bool_decide_eq_true, !Z.eqb_eq in Ef. destruct Ef as [[[F1 F2] F3] F4].
  unfold bind_ok at 1. destruct (appliedCommandResult decision w2) as [[result|e] w3] eqn:E3;
    pose proof (does_result (only []) _ _ _ _ E3) as M3;
    [|intros [= <- <-]; exists w3; split; [by do 2 (etrans; [eassumption|])|by left]].
  intros E4. exists w3. split; [by do 2 (etrans; [eassumption|])|]. right.
  unfold bind_ok in E4. destruct (enqueue _ _ w3) as [a w4] eqn:E5.
  assert (w4 = w') as -> by (destruct a; by injection E4). split; [by eexists _, _, _|].
  intros ->. destruct a as [res|]; [|done]. apply on_sessions_inv in E5 as (v & E5 & ->).
  by exists (actors w3).2, record, decision, result, res, v.
Qed.

(** The continuation is on record as applied. *)
Definition applied_at (approvalID : string) (version : Z) (c : ApprovalContinuation) w : Prop :=
  SessionStore.continuations (rw_sessions w) !! continuationIdentity approvalID version = Some c ∧
  ac_Status c = ContinuationStatusApplied.

(** [Apply] has settled the continuation: it is on record as applied and, if the
    service is to say so, the agent has been told. *)
Definition settled (approvalID : string) (version : Z) w w' : Prop :=
  ∃ c wc, rtc (move can_apply) w wc ∧ applied_at approvalID version c wc ∧ rtc (move (only [PSessions])) wc w' ∧
    (ac_Executor c = ContinuationExecutorDeterministic → agent_told c w').

Lemma finish_settles cfg c w0 w w' approvalID version :
  rtc (move can_apply) w0 w → applied_at approvalID version c w → finishApplied cfg c w = (Ok true, w') →
  settled approvalID version w0 w'.
Proof.
  intros Hm Ha E. exists c, w. split_and!; [done|done| |].
  - eapply (does_finishApplied cfg (only [PSessions])), E. exact only_sessions.
  - destruct (finishApplied_end _ _ _ _ _ E) as (w1 & _ & [[-> Hn]|[_ Ht]]); intros Hex; [by destruct Hn|auto].
Qed.

Lemma ApplyContinuation_Ok claim l (v : sworld unit) c v' :
  ApplyContinuation claim l v = (Ok c, v') →
  SessionStore.continuations (sw_store v') !! continuationIdentity (cc_ApprovalID claim) (cc_DecisionVersion claim) = Some c ∧
  ac_Status c = ContinuationStatusApplied.
Proof.
  unfold ApplyContinuation, check. destruct (validateContinuationClaim claim); [done|].
  unfold bind at 1, SessionStore.get_store. destruct (SessionStore.continuations _ !! _) as [d|] eqn:Ed; [|done].
  case_bool_decide as Hap; [intros [<- <-]%answer_inj; by split|].
  unfold bind at 1, validateContinuationLeaseLocked, bind at 1, s_now. destruct (_ || _); [done|]. unfold ret at 1.
  destruct (normalize_commands _ _ _) as [normalized|]; [|done].
  unfold bind at 1. unfold commit, bind, put_store, ret. intros [<- <-]%answer_inj. cbn [sw_store].
  split; [|done]. unfold put_continuation. cbn. by rewrite lookup_insert_eq.
Qed.

(** Every good answer of a handler comes from [record_and_finish]. *)
Definition records cfg claim (c : Eff (rworld X) (result bool)) : Prop :=
  ∀ w b w', c w = (Ok b, w') → ∃ wc l, rtc (move can_apply) w wc ∧ record_and_finish cfg claim l wc = (Ok b, w').

Lemma records_bind cfg claim {A} (c : Eff (rworld X) A) k :
  does can_apply c → (∀ a, records cfg claim (k a)) → records cfg claim (bind c k).
Proof.
  intros Hc Hk w b w'. unfold bind. destruct (c w) as [a w1] eqn:E. intros E2.
  destruct (Hk _ _ _ _ E2) as (wc & l & Hm & E3). exists wc, l. split; [|done]. etrans; [by eapply Hc|done].
Qed.

Lemma records_give_back cfg claim e : records cfg claim (give_back claim e).
Proof. intros w b w'. unfold give_back, bind. destruct (on_sessions _ w) as [[a|x] w1]; intros [=]. Qed.

Lemma records_itself cfg claim l : records cfg claim (record_and_finish cfg claim l).
Proof. intros w b w' E. by exists w, l. Qed.

Lemma records_noop cfg claim claimed record decision :
  records cfg claim (applySupersededNoop cfg claim claimed record decision).
Proof.
  unfold applySupersededNoop. apply records_bind.
  - apply does_cleanup. intros p Hp. by apply (claimed_apply record decision), cleanup_claimed.
  - intros [a|e]; [apply records_itself|apply records_give_back].
Qed.

Lemma records_claimed cfg claim claimed record decision :
  records cfg claim (apply_claimed cfg claim claimed record decision).
Proof.
  unfold apply_claimed. apply records_bind; [apply does_ResolveBinding|]. intros [current|e]; [|apply records_give_back].
  apply records_bind; [apply does_inspect|]. intros [[found|]|e]; [apply records_itself| |apply records_give_back].
  destruct (negb _); [apply records_noop|]. unfold run_frozen. destruct (bool_decide _); [apply records_itself|].
  apply records_bind.
  - apply does_execute. intros p Hp. by apply (claimed_apply record decision), command_claimed.
  - intros [a|e]; [apply records_itself|]. destruct (_ || _); [apply records_noop|apply records_give_back].
Qed.

Lemma record_settles cfg claim l w0 w w' :
  rtc (move can_apply) w0 w → record_and_finish cfg claim l w = (Ok true, w') →
  settled (cc_ApprovalID claim) (cc_DecisionVersion claim) w0 w'.
Proof.
  intros Hm (c & w1 & E1 & E2)%bind_ok_Ok. eapply finish_settles; [|  |exact E2].
  - etrans; [exact Hm|]. eapply (call_Apply can_apply), E1. exact apply_sessions.
  - apply on_sessions_inv in E1 as (v & E1 & ->). by apply ApplyContinuation_Ok in E1.
Qed.

Lemma ClaimContinuation_Ok claim ttl (v : sworld unit) c v' :
  ClaimContinuation claim ttl v = (Ok c, v') →
  SessionStore.continuations (sw_store v') !! continuationIdentity (cc_ApprovalID claim) (cc_DecisionVersion claim) = Some c.
Proof.
  unfold ClaimContinuation, check. destruct (validateContinuationClaim claim); [done|].
  destruct (ttl <=? 0); [done|]. unfold bind at 1, SessionStore.get_store.
  destruct (SessionStore.continuations _ !! _) as [d|] eqn:Ed; [|done]. unfold bind at 1, s_now.
  destruct (_ || _); [done|]. case_bool_decide; [intros [<- <-]%answer_inj; exact Ed|].
  destruct (claim_is_live _ _); [done|]. destruct (negb _); [done|].
  unfold commit, bind, put_store, ret. intros [<- <-]%answer_inj. unfold put_continuation. cbn. by rewrite lookup_insert_eq.
Qed.

Lemma Apply_settles cfg continuation w w' :
  Apply cfg continuation w = (Ok true, w') →
  settled (ac_ApprovalID continuation) (ac_DecisionVersion continuation) w w'.
Proof.
  unfold Apply. intros E. unfold bind at 1 in E. destruct (next_claim w) as [n w1] eqn:E1.
  pose proof (does_claim can_apply _ _ _ E1) as M1. cbv zeta in E.
  set (claim := mkContinuationClaim _ _ _ _ _) in E. unfold bind at 1 in E.
  destruct (on_sessions _ w1) as [r w2] eqn:E2.
  assert (M2 : rtc (move can_apply) w w2).
  { etrans; [exact M1|]. eapply (call_Claim can_apply), E2. exact apply_sessions. }
  destruct r as [claimed|e]; [|by destruct (errors_Is e ErrContinuationClaimed)].
  apply on_sessions_inv in E2 as (v & E2 & ->). apply ClaimContinuation_Ok in E2.
  case_bool_decide as Hst; [by eapply finish_settles|].
  assert (Hrec : ∀ c, records cfg claim c → c (with_sessions (actors w1).2 v) = (Ok true, w') →
    settled (ac_ApprovalID continuation) (ac_DecisionVersion continuation) w w').
  { intros c Hc Ec. destruct (Hc _ _ _ Ec) as (wc & l & Hm & El).
    apply (record_settles cfg claim l w wc w'); [by etrans|done]. }
  revert E. apply Hrec. apply records_bind; [apply query_decision|]. intros [decision|e]; [|apply records_give_back].
  apply records_bind; [apply query_approval|]. intros [record|e]; [|apply records_give_back].
  destruct (fenced _ _ _); [apply records_give_back|apply records_claimed].
Qed.

(** C10. When [Apply] answers that a continuation has been applied, it is: the
    continuation is on record as applied, after at most commands on the session,
    the spec, the artifact or the storyboard, and never on an approval; and, if the
    deterministic executor carries it out, the session store has accepted the input that
    tells the agent of the outcome, for an approval that is still the one decided:
    same session, version and epoch, and the status of the decision. *)
Theorem applied_continuation_is_told cfg continuation w w' :
  Apply cfg continuation w = (Ok true, w') →
  settled (ac_ApprovalID continuation) (ac_DecisionVersion continuation) w w'.
Proof. apply Apply_settles. Qed.

Ltac read_end Mn w :=
  split; [first [apply (Mn (rw_reads w)); by destruct w|apply (Mn (S (rw_reads w))); by destruct w]|by eauto].

(** A continuation that is on record as applied is not applied again.  If it
    is when [Apply]'s claim reaches the session store, [Apply] runs no command on a spec, an
    artifact, a storyboard or an approval: it reads, and then at most asks once
    more for the agent's input. *)
Lemma applied_continuation_is_not_applied_again cfg continuation w r w' c :
  applied_at (ac_ApprovalID continuation) (ac_DecisionVersion continuation) c (actors (next_claim w).2).2 →
  Apply cfg continuation w = (r, w') →
  ∃ w1, rtc (move (only [])) w w1 ∧
    (w' = w1 ∨ ∃ sid input a, enqueue sid (TApprovalContinuation input) w1 = (a, w')).
Proof.
  intros [Hc Hst]. unfold Apply. intros E. unfold bind at 1 in E. destruct (next_claim w) as [n w1] eqn:E1.
  pose proof (does_claim (only []) _ _ _ E1) as M1. cbv zeta in E. cbn [snd] in Hc.
  set (claim := mkContinuationClaim _ _ _ _ _) in E. unfold bind at 1 in E.
  destruct (on_sessions _ w1) as [a w2] eqn:E2.
  assert (Ha : rtc (move (only [])) w w2 ∧ (a = Ok c ∨ ∃ e, a = Err e)).
  { revert E2. unfold on_sessions, bind. destruct (actors w1) as [u w1'] eqn:Eu. cbn [snd] in Hc.
    unfold ClaimContinuation, check, bind, SessionStore.get_store, s_now. cbn [sw_store].
    assert (M : rtc (move (only [])) w w1') by (etrans; [exact M1|]; apply rtc_once, by_actors; by rewrite Eu).
    assert (Mn : ∀ k w'', w'' = w1' <| rw_reads := k |> → rtc (move (only [])) w w'').
    { intros k w'' ->. eapply rtc_r; [exact M|]. apply by_service. by apply (move_reads _ _ _ k). }
    destruct (validateContinuationClaim claim); [intros [= <- <-]; read_end Mn w1'|].
    destruct (cf_LeaseTTL cfg <=? 0); [intros [= <- <-]; read_end Mn w1'|].
    subst claim. cbn [cc_ApprovalID cc_DecisionVersion sw_store]. rewrite Hc.
    destruct (_ || _); [intros [= <- <-]; read_end Mn w1'|].
    rewrite (bool_decide_eq_true_2 _ Hst). intros [= <- <-]; read_end Mn w1'. }
  destruct Ha as [M2 [-> | [e ->]]].
  - rewrite (bool_decide_eq_true_2 _ Hst) in E. destruct (finishApplied_end _ _ _ _ _ E) as (w3 & M3 & Hend).
    exists w3. split; [by etrans|]. destruct Hend as [[-> _]|[He _]]; [by left|by right].
  - exists w2. split; [done|]. left. destruct (errors_Is e ErrContinuationClaimed); by injection E.
Qed.
End runs.
