(* ===== verification/ApprovalSagaProps.v ===== *)
(** * Batches of approvals and the relay: theorems

    A batch is frozen when it is first stored and its answer sums up what the
    decisions of its targets came to; the relay publishes a continuation only when
    it has been applied, and never gives up one that somebody else holds. *)

From Stdlib Require Import ZArith Lia.
From stdpp Require Import relations.
From S2P Require Import Prelude GoJson WorkflowStore SessionModels SessionStore SessionEffects SessionInv SessionProps.
From S2P Require Import ApprovalModels ApprovalStore ApprovalProps ApprovalRuns.
From S2P Require Import Timed SpecStore SpecProps ArtifactStore ArtifactProps.
From S2P Require Import StoryboardModels StoryboardGraph StoryboardCommand StoryboardRevision StoryboardStore StoryboardRuns.
From S2P Require Import ApprovalRuntime ApprovalBatch ApprovalRelay ApprovalMoves ApprovalRuntimeProps.

(** ** Outcomes *)

Inductive outcome := OApproved | OStale | OConflict | OFailed.
#[global] Instance outcome_eq_dec : EqDecision outcome.
Proof. solve_decision. Defined.

Definition outcome_of (decided : DecideResult * option error) : outcome :=
  match decided.2 with
  | Some err => if decided_elsewhere err then OConflict else OFailed
  | None =>
      let status := ap_Status (dr_Approval (ds_Decision decided.1)) in
      if bool_decide (status = ApprovalModels.StatusApproved) then OApproved
      else if bool_decide (status ∈ [ApprovalModels.StatusStale; StatusExpired; StatusCancelled]) then OStale
      else OConflict
  end.

Definition counted (k : outcome) (l : list (DecideResult * option error)) : Z :=
  Z.of_nat (length (List.filter (fun o => bool_decide (outcome_of o = k)) l)).

Lemma counted_cons k o l : counted k (o :: l) = (if bool_decide (outcome_of o = k) then 1 else 0) + counted k l.
Proof. unfold counted. cbn. case_bool_decide; cbn [length]; lia. Qed.

Lemma counted_bound k l : 0 <= counted k l <= Z.of_nat (length l).
Proof. induction l as [|o l IH]; [done|]. rewrite counted_cons. cbn [length]. case_bool_decide; lia. Qed.

Lemma counted_total l :
  counted OApproved l + counted OStale l + counted OConflict l + counted OFailed l = Z.of_nat (length l).
Proof.
  induction l as [|o l IH]; [done|]. rewrite !counted_cons. cbn [length].
  destruct (outcome_of o); repeat case_bool_decide; try done; lia.
Qed.

Lemma counted_none k l : counted k l = 0 ↔ ∀ o, o ∈ l → outcome_of o ≠ k.
Proof.
  induction l as [|o l IH]; [split; [intros _ o Ho; by apply elem_of_nil in Ho|done]|]. rewrite counted_cons.
  pose proof (counted_bound k l). case_bool_decide as E.
  - split; [lia|]. intros Hn. by destruct (Hn o (list_elem_of_here _ _)).
  - rewrite Z.add_0_l, IH. split; [|eauto using list_elem_of_further].
    by intros Hn x [->|Hx]%elem_of_cons; [|apply Hn].
Qed.

Lemma counted_all k l : counted k l = Z.of_nat (length l) ↔ ∀ o, o ∈ l → outcome_of o = k.
Proof.
  induction l as [|o l IH]; [split; [intros _ o Ho; by apply elem_of_nil in Ho|done]|]. rewrite counted_cons. cbn [length].
  pose proof (counted_bound k l). case_bool_decide as E.
  - transitivity (counted k l = Z.of_nat (length l)); [lia|]. rewrite IH. split; [|eauto using list_elem_of_further].
    by intros Hn x [->|Hx]%elem_of_cons; [|apply Hn].
  - split; [lia|]. intros Hn. by destruct E, (Hn o (list_elem_of_here _ _)).
Qed.

(** The counters of the summary, as long as they do not overflow. *)
Record counts (s s' : CandidateBatchSummary) (l : list (DecideResult * option error)) : Prop := {
  co_total : su_Total s' = su_Total s;
  co_approved : su_Approved s' = su_Approved s + counted OApproved l;
  co_stale : su_Stale s' = su_Stale s + counted OStale l;
  co_conflicts : su_Conflicts s' = su_Conflicts s + counted OConflict l;
  co_failed : su_Failed s' = su_Failed s + counted OFailed l
}.

Definition has_room (n : Z) (s : CandidateBatchSummary) : Prop :=
  Forall (fun z => 0 <= z ∧ z + n < int64_max) [su_Approved s; su_Stale s; su_Conflicts s; su_Failed s].

Lemma count_outcome_one s o : has_room 1 s → counts s (count_outcome s o) [o].
Proof.
  unfold has_room. rewrite !Forall_cons. intros (H1 & H2 & H3 & H4 & _).
  assert (E : ∀ k, counted k [o] = if bool_decide (outcome_of o = k) then 1 else 0) by (intros; rewrite counted_cons; apply Z.add_0_r).
  split; rewrite ?E; unfold count_outcome, outcome_of; repeat case_match; cbn; rewrite ?incr_small; try done; lia.
Qed.

Lemma counts_cons s s1 s' o l : counts s s1 [o] → counts s1 s' l → counts s s' (o :: l).
Proof.
  assert (E : ∀ k, counted k (o :: l) = counted k [o] + counted k l) by (intros; rewrite !counted_cons; change (counted k []) with 0; lia).
  intros [] []. split; rewrite ?E; lia.
Qed.

Lemma counts_fold l : ∀ s, has_room (Z.of_nat (length l)) s → counts s (foldl count_outcome s l) l.
Proof.
  induction l as [|o l IH]; intros s Hs; [split; cbn; unfold counted; cbn; lia|]. cbn [foldl].
  assert (H1 : has_room 1 s) by (eapply Forall_impl; [exact Hs|]; cbn [length]; intros z; lia).
  pose proof (count_outcome_one s o H1) as Hc. eapply counts_cons; [exact Hc|]. apply IH.
  assert (E : ∀ k, 0 <= counted k [o] <= 1) by (intros k; apply (counted_bound k [o])).
  pose proof (E OApproved); pose proof (E OStale); pose proof (E OConflict); pose proof (E OFailed). destruct Hc as [C0 C1 C2 C3 C4].
  unfold has_room in *. rewrite !Forall_cons in *. cbn [length] in Hs. rewrite C1, C2, C3, C4. split_and!; try constructor; lia.
Qed.

Section saga.
Context `{Codec} `{ApprovalCodec} `{PayloadCodec} `{Digest} `{Formatting} `{MapRange} `{Clock} {X : Type} `{Actors X}.
Implicit Types (w : rworld X).

(** ** The loop over the targets *)

Inductive decided_in_turn cfg (batch : CandidateApprovalBatch) :
    list CandidateApprovalBatchTarget → list (DecideResult * option error) → rworld X → rworld X → Prop :=
| turn_none w : decided_in_turn cfg batch [] [] w w
| turn_next t l o os w w1 w' :
    ApprovalRuntime.Decide cfg (child_request batch t) w = (o, w1) → decided_in_turn cfg batch l os w1 w' →
    decided_in_turn cfg batch (t :: l) (o :: os) w w'.

Lemma decide_targets_spec cfg batch l : ∀ result w result' w',
  decide_targets cfg batch l result w = (result', w') →
  ∃ os, decided_in_turn cfg batch l os w w' ∧ length os = length l ∧
    ba_Results result' = ba_Results result ++ zip_with item_of l os ∧
    ba_Summary result' = foldl count_outcome (ba_Summary result) os ∧ ba_Batch result' = ba_Batch result.
Proof.
  induction l as [|t l IH]; intros result w result' w'; cbn [decide_targets].
  - intros [= <- <-]. exists []. cbn. rewrite app_nil_r. split_and!; try done. constructor.
  - unfold bind. destruct (ApprovalRuntime.Decide _ _ w) as [o w1] eqn:E. intros (os & Ht & Hl & Hr & Hs & Hb)%IH.
    exists (o :: os). split_and!; [by econstructor|cbn; congruence| |by rewrite Hs|by rewrite Hb].
    rewrite Hr. cbn. by rewrite <-app_assoc.
Qed.

(** A call that was not refused. *)
Lemma batch_inversion cfg request w res err w' :
  ApproveCandidateBatch cfg request w = ((res, err), w') →
  ba_Results res = [] ∨
  ∃ batch w1 w2 os, loadOrCreateCandidateBatch cfg (normalizeCandidateBatchApproveRequest request) w = (Ok batch, w1) ∧
    rtc (move everything) w2 w' ∧ ba_Batch res = batch ∧ decided_in_turn cfg batch (cb_Targets batch) os w1 w2 ∧
    length os = length (cb_Targets batch) ∧ ba_Results res = zip_with item_of (cb_Targets batch) os ∧
    ba_Summary res = ba_Summary (summed_up ((new_batch_result batch) <| ba_Summary :=
      foldl count_outcome (ba_Summary (new_batch_result batch)) os |>)).
Proof.
  unfold ApproveCandidateBatch. cbv zeta. do 4 (match goal with |- (if ?b then _ else _) _ = _ → _ => destruct b end;
    [intros [= <- _ _]; by left|]).
  unfold bind at 1. destruct (loadOrCreateCandidateBatch _ _ w) as [[batch|e] w1] eqn:E1; [|intros [= <- _ _]; by left].
  destruct (cb_Targets batch) as [|t l] eqn:Et; [intros [= <- _ _]; by left|]. rewrite <-Et.
  unfold bind at 1. destruct (decide_targets _ _ _ _ w1) as [mid w2] eqn:E2.
  apply decide_targets_spec in E2 as (os & Ht & Hl & Hr & Hs & Hb). unfold bind at 1.
  destruct (on_boards _ w2) as [a w3] eqn:E3. pose proof (query_aggregate everything _ _ _ _ E3) as M3.
  intros E4. right. exists batch, w1, w2, os.
  assert (w3 = w' ∧ ba_Batch res = ba_Batch mid ∧ ba_Results res = ba_Results mid ∧
    ba_Summary res = ba_Summary (summed_up mid)) as (-> & -> & -> & ->).
  { destruct a; by injection E4 as <- _ <-. }
  split_and!; try done. unfold summed_up. cbn. rewrite Hs. done.
Qed.

Lemma on_approvals_inv {A} (c : Eff (aworld unit) A) w a w' :
  on_approvals c w = (a, w') → ∃ v, c (approvals_of (actors w).2) = (a, v) ∧ w' = with_approvals (actors w).2 v.
Proof.
  unfold on_approvals, bind. destruct (actors w) as [u w1]. cbn [snd]. unfold approvals_of.
  destruct (c _) as [b v] eqn:E. intros [= <- <-]. by exists v.
Qed.

(** ** Batches are frozen *)

(** The keys of the batches lead to them. *)
Definition batch_index (s : ApprovalStore.MemoryStore) : Prop :=
  ∀ key id, candidateBatchByKey s !! key = Some id →
    ∃ b, candidateBatches s !! id = Some b ∧ cb_IdempotencyKey b = key ∧ cb_ID b = id.

Lemma append_batches s e s1 : appendOutboxLocked s e = Ok s1 →
  candidateBatchByKey s1 = candidateBatchByKey s ∧ candidateBatches s1 = candidateBatches s.
Proof.
  unfold appendOutboxLocked. destruct (outboxByKey s !! _); [destruct (_ || _); [done|]|]; intros Heq;
    match type of Heq with Ok ?x = _ => assert (s1 = x) as -> by congruence end; done.
Qed.

Lemma batch_index_change s s' : change s s' → batch_index s → batch_index s'.
Proof.
  intros Hc Hi.
  assert (Hsame : candidateBatchByKey s' = candidateBatchByKey s ∧ candidateBatches s' = candidateBatches s → batch_index s').
  { intros [E1 E2]. unfold batch_index. rewrite E1, E2. exact Hi. }
  destruct Hc as [s a Hid|s a request a' d c e s1 Ha Hk Ht Hp Hd Hap|s a mapping epoch now|s a a' entry e s1 now Ha Hm Ea Hf Ho Hap|s b Hn Hk _ _|s k e e'];
    try (by apply Hsame);
    try (apply append_batches in Hap as [E1 E2]; apply Hsame; rewrite <-E1, <-E2; by repeat case_match).
  unfold batch_index. cbn. intros key id [[<- <-]|[Hne Hkey]]%lookup_insert_Some; [exists b; by rewrite lookup_insert_eq|].
  destruct (Hi _ _ Hkey) as (b' & Hb' & E1 & E2). exists b'. rewrite lookup_insert_ne; [done|congruence].
Qed.

Lemma batch_index_reachable (v : aworld unit) : approval_reachable v → batch_index (aw_store v).
Proof.
  intros (v0 & E & Hr). revert E.
  assert (Hstart : aw_store v0 = ApprovalStore.NewMemoryStore → approval_inv (aw_store v0) ∧ batch_index (aw_store v0)).
  { intros ->. split; [apply initial_approval_inv|]. intros key id. cbn. by rewrite lookup_empty. }
  intros E. specialize (Hstart E). clear E. induction Hr as [v0|v0 v1 v Hs _ IH]; [apply Hstart|]. apply IH. destruct Hstart as [Hi Hb].
  split; [by apply (step_inv _ _ Hs)|].
  destruct Hs as [c v0 e v1 Ec|]; [|done]. destruct (ApprovalRuns.run_command_changes c _ _ _ Hi Ec) as [->|Hc]; [done|].
  by eapply batch_index_change.
Qed.

Definition filed_batch (s : ApprovalStore.MemoryStore) (key : string) (b : CandidateApprovalBatch) : Prop :=
  candidateBatchByKey s !! key = Some (cb_ID b) ∧ candidateBatches s !! cb_ID b = Some b.

Lemma filed_kept s s' key b :
  approval_history s s' → approval_inv s' → cb_IdempotencyKey b = key → filed_batch s key b → filed_batch s' key b.
Proof.
  intros Hh Hi Hk [_ Hb]. pose proof (ah_batches _ _ Hh _ _ Hb) as Hb'.
  destruct (ai_batch _ Hi _ _ Hb') as (_ & Hkey & _). split; congruence.
Qed.

Lemma GetBatch_Ok key (v : aworld unit) b v' :
  approval_reachable v → TrimSpace key = key → GetCandidateApprovalBatchByKey key v = (Ok b, v') →
  v' = v ∧ filed_batch (aw_store v) key b ∧ cb_IdempotencyKey b = key.
Proof.
  intros Hr Hk. unfold GetCandidateApprovalBatchByKey, bind, a_get. rewrite Hk.
  destruct (candidateBatchByKey _ !! key) as [id|] eqn:E; [|done].
  destruct (batch_index_reachable _ Hr _ _ E) as (b' & Hb & Ekey & Eid). rewrite Hb. intros [<- <-]%answer_inj.
  cbn [default from_option]. unfold filed_batch. by rewrite <-Eid in *.
Qed.

Lemma normalizeBatch_key v now clock b :
  normalizeCandidateApprovalBatch v now clock = Ok b → cb_IdempotencyKey b = TrimSpace (cb_IdempotencyKey v).
Proof.
  unfold normalizeCandidateApprovalBatch. cbv zeta. repeat case_match; try done. by intros [= <-].
Qed.

Lemma CreateBatch_Ok requested (v : aworld unit) r v' :
  approval_reachable v → CreateCandidateApprovalBatch requested v = (Ok r, v') →
  filed_batch (aw_store v') (TrimSpace (cb_IdempotencyKey requested)) (bc_Batch r) ∧
  cb_IdempotencyKey (bc_Batch r) = TrimSpace (cb_IdempotencyKey requested).
Proof.
  intros Hr. pose proof (approval_reachable_inv _ Hr) as Hi. pose proof (batch_index_reachable _ Hr) as Hx.
  unfold CreateCandidateApprovalBatch, bind at 1 2, a_now.
  destruct (normalizeCandidateApprovalBatch _ _ _) as [b|e] eqn:En; [|done]. apply normalizeBatch_key in En.
  rewrite <-En. unfold bind, a_get. cbn [aw_store].
  destruct (candidateBatches _ !! cb_ID b) as [b0|] eqn:Eb.
  - destruct (sameCandidateApprovalBatch b0 b) eqn:Es; [|done]. cbn [negb]. intros [<- <-]%answer_inj. cbn [bc_Batch aw_store].
    unfold sameCandidateApprovalBatch in Es. rewrite !andb_true_iff, !bool_decide_eq_true in Es.
    assert (cb_ID b0 = cb_ID b ∧ cb_IdempotencyKey b0 = cb_IdempotencyKey b) as [E1 E2] by tauto.
    destruct (ai_batch _ Hi _ _ Eb) as (_ & Ekey & _). split; [split|]; congruence.
  - destruct (candidateBatchByKey _ !! _) as [id|] eqn:Ek.
    + destruct (Hx _ _ Ek) as (b0 & Hb0 & E1 & E2). rewrite Hb0. cbn [default from_option]. change (Datatypes.id b0) with b0.
      destruct (negb _); [done|]. intros [<- <-]%answer_inj. cbn [bc_Batch aw_store].
      split; [unfold filed_batch; rewrite E2; by split|done].
    + unfold a_commit, bind, a_put, ret. intros [<- <-]%answer_inj. cbn [bc_Batch aw_store]. split; [|done].
      unfold filed_batch. cbn. by rewrite !lookup_insert_eq.
Qed.

Context (lawful : LawfulActors (X := X)).

Lemma approvals_reachable_moves may w w' :
  rtc (rmove may) w w' → approval_reachable (approvals_of w) → approval_reachable (approvals_of w').
Proof. intros Hm (w0 & E & Hr). exists w0. split; [done|]. etrans; [exact Hr|by eapply runs_approvals]. Qed.

Lemma reachable_actors w : approval_reachable (approvals_of w) → approval_reachable (approvals_of (actors w).2).
Proof. apply (approvals_reachable_moves everything), lawful. Qed.

(** The batch in the approval store of the world. *)
Definition frozen (key : string) (b : CandidateApprovalBatch) w : Prop :=
  approval_reachable (approvals_of w) ∧ filed_batch (rw_approvals w) key b ∧ cb_IdempotencyKey b = key.

Lemma frozen_kept key b w w' : rtc (rmove everything) w w' → frozen key b w → frozen key b w'.
Proof.
  intros Hm (Hr & Hf & Hk). pose proof (approvals_reachable_moves _ _ _ Hm Hr) as Hr'. split_and!; try done.
  eapply (filed_kept (rw_approvals w)); [|by apply (approval_reachable_inv _ Hr')|done|done].
  exact (run_history _ _ Hr (runs_approvals _ _ _ Hm)).
Qed.

Lemma query_frozen key b w w' :
  approval_reachable (approvals_of w) → TrimSpace key = key →
  on_approvals (GetCandidateApprovalBatchByKey key) w = (Ok b, w') → frozen key b w'.
Proof.
  intros Hr%reachable_actors Hk (v & E & ->)%on_approvals_inv.
  destruct (GetBatch_Ok _ _ _ _ Hr Hk E) as (-> & Hf & Hkey). by split.
Qed.

Lemma validate_Ok existing request b : validateCandidateBatchReplay existing request = Ok b → b = existing.
Proof. unfold validateCandidateBatchReplay. destruct (_ || _); [done|]. by intros [= ->]. Qed.

Lemma meanwhile_frozen request err w b w' :
  approval_reachable (approvals_of w) → TrimSpace (bq_IdempotencyKey request) = bq_IdempotencyKey request →
  stored_meanwhile request err w = (Ok b, w') → frozen (bq_IdempotencyKey request) b w'.
Proof.
  intros Hr Hk. unfold stored_meanwhile, bind. destruct (on_approvals _ w) as [[existing|e] w1] eqn:E1; [|done].
  unfold ret. intros E. assert (E2 : validateCandidateBatchReplay existing request = Ok b ∧ w1 = w') by (by injection E).
  destruct E2 as [->%validate_Ok <-]. by eapply query_frozen.
Qed.

Lemma freeze_frozen cfg request w b w' :
  approval_reachable (approvals_of w) → TrimSpace (bq_IdempotencyKey request) = bq_IdempotencyKey request →
  freeze_batch cfg request w = (Ok b, w') → frozen (bq_IdempotencyKey request) b w'.
Proof.
  intros Hr Hk. unfold freeze_batch.
  intros (u & w1 & E1 & (aggregate & w2 & E2 & E)%bind_ok_Ok)%bind_ok_Ok.
  assert (M2 : rtc (rmove everything) w w2).
  { etrans; eapply (moves_everything lawful everything).
    - eapply (does_terminal cfg everything), E1.
    - eapply (query_aggregate everything), E2. }
  apply (approvals_reachable_moves _ _ _ M2) in Hr. revert E. destruct (negb _); [done|].
  destruct (negb _); [by apply meanwhile_frozen|].
  intros (targets & w3 & E3 & E)%bind_ok_Ok.
  assert (M3 : rtc (rmove everything) w2 w3).
  { eapply (moves_everything lawful everything), (does_pending everything), E3. }
  apply (approvals_reachable_moves _ _ _ M3) in Hr. revert E.
  destruct targets as [|t l]; [done|]. unfold bind.
  destruct (on_approvals _ w3) as [[created|e] w4] eqn:E4.
  - unfold ret. intros [<- <-]%answer_inj. apply on_approvals_inv in E4 as (v & E4 & ->).
    pose proof (reachable_actors _ Hr) as Hr'. destruct (CreateBatch_Ok _ _ _ _ Hr' E4) as [Hf Hkey].
    cbn [cb_IdempotencyKey requested_batch] in Hf, Hkey. rewrite Hk in Hf, Hkey. split; [|by split].
    destruct Hr' as (v0 & Hv0 & Hr'). exists v0. split; [done|]. eapply rtc_r; [exact Hr'|].
    destruct v as [sv nv []]. eapply (approval_call (ACreateBatch _)); [reflexivity|exact E4].
  - assert (M4 : rtc (rmove everything) w3 w4).
    { eapply (moves_everything lawful everything), (call_CreateBatch everything), E4. done. }
    apply (approvals_reachable_moves _ _ _ M4) in Hr. destruct (errors_Is _ _); [by apply meanwhile_frozen|done].
Qed.

Lemma load_frozen cfg request w b w' :
  approval_reachable (approvals_of w) → TrimSpace (bq_IdempotencyKey request) = bq_IdempotencyKey request →
  loadOrCreateCandidateBatch cfg request w = (Ok b, w') → frozen (bq_IdempotencyKey request) b w'.
Proof.
  intros Hr Hk. unfold loadOrCreateCandidateBatch, bind.
  destruct (on_approvals _ w) as [[existing|e] w1] eqn:E1.
  - unfold ret. intros E. assert (E2 : validateCandidateBatchReplay existing request = Ok b ∧ w1 = w') by (by injection E).
    destruct E2 as [->%validate_Ok <-]. by eapply query_frozen.
  - assert (M : rtc (rmove everything) w w1) by (eapply (moves_everything lawful everything), (query_batch everything), E1).
    apply (approvals_reachable_moves _ _ _ M) in Hr. destruct (errors_Is _ _); [by apply freeze_frozen|done].
Qed.

(** A frozen batch is the only one its key leads to. *)
Lemma load_again cfg request b b' w w' :
  frozen (bq_IdempotencyKey request) b w → TrimSpace (bq_IdempotencyKey request) = bq_IdempotencyKey request →
  loadOrCreateCandidateBatch cfg request w = (Ok b', w') → b' = b.
Proof.
  intros Hf Hk. assert (Hf' : frozen (bq_IdempotencyKey request) b (actors w).2) by (eapply frozen_kept; [apply lawful|done]).
  destruct Hf' as (_ & [F1 F2] & _). unfold loadOrCreateCandidateBatch, bind, on_approvals, bind.
  destruct (actors w) as [u w1]. cbn [snd] in F1, F2. unfold GetCandidateApprovalBatchByKey, bind, a_get. cbn [aw_store].
  rewrite Hk, F1, F2. cbn [default from_option]. unfold ret. intros E.
  assert (E2 : validateCandidateBatchReplay b request = Ok b') by (by injection E). by apply validate_Ok in E2.
Qed.

Lemma turns_move cfg b l os w w' : decided_in_turn cfg b l os w w' → rtc (rmove everything) w w'.
Proof.
  induction 1 as [|t l o os w w1 w' E _ IH]; [done|]. etrans; [|exact IH].
  eapply (moves_everything lawful everything), does_Decide, E.
Qed.

(** C12. A batch of approvals is frozen, and its answer is exact.  When
    [ApproveCandidateBatch] answers with results, they are, in order, what [Decide] came to
    for each target of the batch, each under a key of its own; approved, stale,
    conflicting and failed ones are counted, the counts add up to the total; it is
    complete if nothing failed and all is approved only if every target is.  No
    approval and no binding is in the batch twice.  Ever after, whatever is asked under the
    same key, by any service, is carried out on this very batch or refused:
    candidates that have come later are not included. *)
Theorem batch_is_frozen_and_summed_up cfg cfg' request request' w res err w1 w2 res' err' w3 :
  approval_reachable (approvals_of w) →
  ApproveCandidateBatch cfg request w = ((res, err), w1) → ba_Results res ≠ [] →
  Z.of_nat (length (cb_Targets (ba_Batch res))) < int64_max →
  let batch := ba_Batch res in let s := ba_Summary res in
  (∃ os wa wb, decided_in_turn cfg batch (cb_Targets batch) os wa wb ∧
     length os = length (cb_Targets batch) ∧ ba_Results res = zip_with item_of (cb_Targets batch) os ∧
     su_Total s = Z.of_nat (length os) ∧ su_Approved s = counted OApproved os ∧ su_Stale s = counted OStale os ∧
     su_Conflicts s = counted OConflict os ∧ su_Failed s = counted OFailed os ∧
     su_Total s = su_Approved s + su_Stale s + su_Conflicts s + su_Failed s ∧
     (su_Complete s = true ↔ ∀ o, o ∈ os → outcome_of o ≠ OFailed) ∧
     (su_AllApproved s = true ↔ ∀ o, o ∈ os → outcome_of o = OApproved)) ∧
  NoDup (bt_ApprovalID <$> cb_Targets batch) ∧ NoDup (bt_BindingID <$> cb_Targets batch) ∧
  (runtime_future w1 w2 → TrimSpace (bq_IdempotencyKey request') = TrimSpace (bq_IdempotencyKey request) →
     ApproveCandidateBatch cfg' request' w2 = ((res', err'), w3) → ba_Results res' = [] ∨ ba_Batch res' = batch).
Proof.
  intros Hr E Hne Hlen batch s.
  destruct (batch_inversion _ _ _ _ _ _ E) as [?|(b & wa & wb & os & El & Mb & Eb & Ht & Hl & Hres & Hsum)]; [done|].
  subst batch s. rewrite Eb in *. set (key := TrimSpace (bq_IdempotencyKey request)).
  assert (Hf : frozen key b wa).
  { apply (load_frozen cfg (normalizeCandidateBatchApproveRequest request) w); [done|apply TrimSpace_idem|exact El]. }
  split_and!.
  - exists os, wa, wb. split_and!; try done; rewrite Hsum; clear Hsum.
    all: assert (Hroom : has_room (Z.of_nat (length os)) (ba_Summary (new_batch_result b)))
      by (rewrite Hl; unfold has_room; repeat (constructor; [cbn; lia|]); constructor).
    all: destruct (counts_fold os _ Hroom) as [C0 C1 C2 C3 C4]; cbn [new_batch_result ba_Summary] in *;
      revert C0 C1 C2 C3 C4; generalize (foldl count_outcome); intros f; cbn; rewrite <-Hl; intros C0 C1 C2 C3 C4.
    all: pose proof (counted_total os) as Htot; rewrite ?C0, ?C1, ?C2, ?C3, ?C4; try lia.
    + rewrite Z.eqb_eq. change (0 + counted OFailed os = 0 ↔ ∀ o, o ∈ os → outcome_of o ≠ OFailed). apply counted_none.
    + rewrite andb_true_iff, !Z.eqb_eq. rewrite <-counted_all. pose proof (counted_bound OFailed os).
      pose proof (counted_bound OStale os). pose proof (counted_bound OConflict os). lia.
  - destruct Hf as (Hra & [_ Hb] & _). by apply (ai_batch _ (approval_reachable_inv _ Hra)) in Hb as (_ & _ & ? & _).
  - destruct Hf as (Hra & [_ Hb] & _). by apply (ai_batch _ (approval_reachable_inv _ Hra)) in Hb as (_ & _ & _ & ?).
  - intros Hfut Hkey E'.
    destruct (batch_inversion _ _ _ _ _ _ E') as [?|(b' & wa' & wb' & os' & El' & _ & -> & _)]; [by left|right].
    assert (M : rtc (rmove everything) wa w2).
    { etrans; [|by apply future_moves]. etrans; [|eapply (moves_everything lawful everything), Mb].
      eapply turns_move, Ht. }
    apply (load_again cfg' (normalizeCandidateBatchApproveRequest request') b b' w2 wa'); [|apply TrimSpace_idem|exact El'].
    cbn [bq_IdempotencyKey normalizeCandidateBatchApproveRequest update_field]. rewrite Hkey. by eapply frozen_kept.
Qed.

(** ** The relay *)

Lemma backoff_pos n : 0 < approvalOutboxBackoff n.
Proof.
  unfold approvalOutboxBackoff, second. set (a := if 8 <? _ then 8 else _).
  assert (0 <= a - 1) by (unfold a; repeat case_match; lia). rewrite Z.shiftl_mul_pow2 by done.
  pose proof (Z.pow_pos_nonneg 2 (a - 1)). lia.
Qed.

(** The row of the event after a failed delivery without a limit of attempts. *)
Lemma MarkFailed_defers id at_ (v : aworld unit) a v' row :
  (∀ k, 0 < now_at k) → 0 < at_ → ApprovalStore.MarkOutboxFailed id at_ 0 v = (a, v') →
  outbox (aw_store v) !! TrimSpace id = Some row → oe_Status row = ApprovalModels.OutboxStatusPending →
  ∃ row', outbox (aw_store v') !! oe_ID row = Some row' ∧ oe_Status row' = ApprovalModels.OutboxStatusPending ∧
    at_ < oe_AvailableAt row'.
Proof.
  intros Hclock Hat. unfold ApprovalStore.MarkOutboxFailed, bind, a_now, a_get. cbn [aw_store].
  intros E Hrow Hst. rewrite Hrow, (bool_decide_eq_true_2 _ Hst) in E. cbn [negb] in E.
  change (0 <? 0) with false in E. cbn [andb] in E. unfold a_commit, bind, a_put, ret in E. injection E as _ <-.
  cbn [aw_store]. eexists. split; [cbn; apply lookup_insert_eq|]. split; [exact Hst|]. cbn.
  assert (timeOr at_ (now_at (aw_reads v)) = at_) as ->.
  { unfold timeOr, IsZero. rewrite (proj2 (Z.eqb_neq at_ 0)); [done|lia]. }
  pose proof (backoff_pos (incr (oe_Attempts row))). lia.
Qed.

Definition relay_settled (request : ApprovalContinuationRequested) w w' : Prop :=
  (∃ c w1 w2, rtc (move everything) w w1 ∧
     SessionStore.continuations (rw_sessions w1) !! continuationIdentity (cr_ApprovalID request) (cr_DecisionVersion request) = Some c ∧
     settled (ac_ApprovalID c) (ac_DecisionVersion c) w1 w2 ∧ rtc (move everything) w2 w') ∨
  (∃ c wc, rtc (move everything) w wc ∧
     applied_at (cr_ApprovalID request) (cr_DecisionVersion request) c wc ∧ rtc (move everything) wc w').

Lemma loaded_continuation id version w c w' :
  on_sessions (SessionStore.GetContinuation id version) w = (Ok c, w') →
  SessionStore.continuations (rw_sessions w') !! continuationIdentity id version = Some c.
Proof.
  intros (v & E & ->)%on_sessions_inv. revert E. unfold SessionStore.GetContinuation, bind, SessionStore.get_store.
  destruct (SessionStore.continuations _ !! _) eqn:Ec; [|done]. by intros [<- <-]%answer_inj.
Qed.

Lemma handle_continuation_end cfg event w h w' :
  handle_continuation cfg event w = (h, w') → hd_processed h = true →
  ∃ request, json_Unmarshal_requested (oe_Payload event) = Ok request ∧ relay_settled request w w'.
Proof.
  unfold handle_continuation. destruct (json_Unmarshal_requested _) as [request|e]; [|by intros [= <- _]].
  unfold bind at 1. destruct (on_sessions _ w) as [[c|e] w1] eqn:E1; [|by intros [= <- _]].
  pose proof (query_continuation everything _ _ _ _ _ E1) as M1. apply loaded_continuation in E1.
  unfold bind at 1. destruct (Apply cfg c w1) as [[[|]|e] w2] eqn:E2; [| |by intros [= <- _]].
  - intros [= _ <-] _. exists request. split; [done|]. left. exists c, w1, w2. split_and!; try done.
    by apply Apply_settles in E2.
  - pose proof (Apply_everything cfg _ _ _ _ E2) as M2. unfold Service_GetContinuation.
    destruct (negb (cf_Continuations cfg)); [by intros [= <- _]|].
    unfold bind. destruct (on_sessions _ w2) as [[latest|e] w3] eqn:E3; [|by intros [= <- _]].
    pose proof (query_continuation everything _ _ _ _ _ E3) as M3. apply loaded_continuation in E3.
    case_bool_decide as Hst; [|by intros [= <- _]]. intros [= _ <-] _. exists request. split; [done|]. right.
    exists latest, w3. split_and!; [by do 2 (etrans; [eassumption|])| |done]. split; [|done].
    revert E3. unfold continuationIdentity. by rewrite TrimSpace_idem.
Qed.

Lemma mark_defers event h w a w' :
  (∀ k, 0 < now_at k) → hd_continuationBusy h = true → mark_undelivered event h w = (a, w') →
  ∃ wm, rtc (move (only [])) w wm ∧
    ∀ row, outbox (rw_approvals wm) !! TrimSpace (oe_ID event) = Some row → oe_Status row = ApprovalModels.OutboxStatusPending →
      ∃ row', outbox (rw_approvals w') !! oe_ID row = Some row' ∧
        oe_Status row' = ApprovalModels.OutboxStatusPending ∧ hd_deferUntil h < oe_AvailableAt row'.
Proof.
  intros Hclock Hb. unfold mark_undelivered. rewrite Hb. cbn [andb]. unfold bind at 1. destruct (r_now w) as [now w1] eqn:E1.
  pose proof (does_now (only []) _ _ _ E1) as M1. assert (0 < now) as Hnow by (injection E1 as <- _; apply Hclock).
  cbv zeta. intros (v & E & ->)%on_approvals_inv. exists (actors w1).2.
  split; [eapply rtc_r; [exact M1|]; by apply by_actors|]. intros row Hrow Hst.
  match type of E with ApprovalStore.MarkOutboxFailed _ ?x _ _ = _ =>
    assert (Hat : 0 < x ∧ hd_deferUntil h <= x)
      by (unfold After; destruct (Z.ltb_spec now (hd_deferUntil h)); lia); revert Hat E; generalize x end.
  intros at_ [Hat Hle] E. destruct (MarkFailed_defers _ _ _ _ _ row Hclock Hat E Hrow Hst) as (row' & ? & ? & Hlt).
  exists row'. split_and!; [done|done|lia].
Qed.

(** *** A continuation that is held *)

(** The claim that [Apply] makes for a continuation it has read. *)
Definition claim_of cfg (c : ApprovalContinuation) w : ContinuationClaim :=
  mkContinuationClaim (ac_ApprovalID c) (ac_DecisionVersion c) (ac_Executor c) (ac_ExecutionEpoch c)
    (cf_OwnerID cfg +:+ ":" +:+ pretty (next_claim w).1).

(** When that claim reaches the session store, the continuation is claimed already and the
    lease of that claim has not run out. *)
Definition held_by_other (c : ApprovalContinuation) w : Prop :=
  let w1 := (actors (next_claim w).2).2 in
  ∃ held until, SessionStore.continuations (rw_sessions w1) !! continuationIdentity (ac_ApprovalID c) (ac_DecisionVersion c) = Some held ∧
    ac_Executor held = ac_Executor c ∧ ac_ExecutionEpoch held = ac_ExecutionEpoch c ∧
    ac_Status held = ContinuationStatusClaimed ∧ ac_LeaseUntil held = Some until ∧ now_at (rw_reads w1) < until.

Lemma held_is_refused cfg c w :
  validateContinuationClaim (claim_of cfg c w) = None → 0 < cf_LeaseTTL cfg → held_by_other c w →
  ∃ w', Apply cfg c w = (Ok false, w').
Proof.
  intros Hv Httl (held & until & Hc & Hx & He & Hst & Hu & Hlt).
  unfold Apply, bind at 1. unfold claim_of in Hv. destruct (next_claim w) as [n w1]. cbn [fst snd] in Hv, Hc, Hlt. cbv zeta.
  unfold bind at 1. destruct (on_sessions _ w1) as [r w2] eqn:E.
  assert (r = Err (already_claimed held)) as ->.
  { apply on_sessions_inv in E as (v & E & _). revert E. unfold ClaimContinuation. rewrite Hv. cbn [check].
    rewrite (proj2 (Z.leb_gt _ _) Httl). unfold bind at 1, SessionStore.get_store, sessions_of.
    cbn [cc_ApprovalID cc_DecisionVersion sw_store]. rewrite Hc. unfold bind, s_now. cbn [cc_Executor cc_ExecutionEpoch]. rewrite Hx, He, Hst, bool_decide_true, Z.eqb_refl by done.
    cbn [negb orb]. rewrite bool_decide_false by done. unfold claim_is_live, After. rewrite Hst, Hu, bool_decide_true by done.
    cbn [sw_reads]. rewrite (proj2 (Z.ltb_lt _ _) Hlt). by intros [= <- _]. }
  by exists w2.
Qed.

Lemma reads_continuation id version w c :
  SessionStore.continuations (rw_sessions (actors w).2) !! continuationIdentity id version = Some c →
  on_sessions (SessionStore.GetContinuation id version) w = (Ok c, (actors w).2).
Proof.
  intros Hc. unfold on_sessions, bind. destruct (actors w) as [u w1]. cbn [snd] in *.
  unfold SessionStore.GetContinuation, bind, SessionStore.get_store. cbn [sw_store]. rewrite Hc. by destruct w1.
Qed.

(** A refused claim of a continuation that is still not applied is reported as busy, until the end of
    the lease that is on record then. *)
Lemma refused_is_busy cfg event request c w w2 latest :
  let key := continuationIdentity (cr_ApprovalID request) (cr_DecisionVersion request) in
  json_Unmarshal_requested (oe_Payload event) = Ok request → cf_Continuations cfg = true →
  SessionStore.continuations (rw_sessions (actors w).2) !! key = Some c → Apply cfg c (actors w).2 = (Ok false, w2) →
  SessionStore.continuations (rw_sessions (actors w2).2) !! key = Some latest → ac_Status latest ≠ ContinuationStatusApplied →
  handle_continuation cfg event w = (busy latest, (actors w2).2).
Proof.
  intros key Hreq Hcf Hc Ha Hl Hst. unfold handle_continuation. rewrite Hreq.
  unfold bind at 1. rewrite (reads_continuation _ _ _ _ Hc). unfold bind at 1. rewrite Ha.
  unfold Service_GetContinuation. rewrite Hcf. cbn [negb].
  unfold bind. rewrite (reads_continuation _ _ w2 latest); [by rewrite bool_decide_false by done|].
  revert Hl. unfold key, continuationIdentity. by rewrite TrimSpace_idem.
Qed.

(** C13. The relay publishes a request for a continuation only when that has been
    applied: either [Apply] has just settled it -- it is on record as applied and the
    agent has been told -- or it is found on record as applied by somebody else.
    If the continuation that the request names is claimed already when the relay asks for it, under a lease that
    has not run out, [Apply] steps aside; and unless the continuation has been applied by the
    time it is looked at again, the row is not published and not given up: as long
    as it is pending it stays so, whatever the number of attempts, and it comes up again only
    after the lease of the claim then on record. *)
Theorem relay_waits_for_the_continuation cfg event n err w n' err' w' :
  (∀ k, 0 < now_at k) → oe_EventType event = EventApprovalContinuationRequested →
  relay_event cfg event n err w = ((n', err'), w') →
  (n' ≠ n → ∃ request, json_Unmarshal_requested (oe_Payload event) = Ok request ∧ relay_settled request w w') ∧
  (∀ request c, json_Unmarshal_requested (oe_Payload event) = Ok request →
     let key := continuationIdentity (cr_ApprovalID request) (cr_DecisionVersion request) in
     let w1 := (actors w).2 in
     SessionStore.continuations (rw_sessions w1) !! key = Some c →
     cf_Continuations cfg = true → 0 < cf_LeaseTTL cfg → validateContinuationClaim (claim_of cfg c w1) = None →
     held_by_other c w1 →
     ∃ w2, Apply cfg c w1 = (Ok false, w2) ∧
       ∀ latest, SessionStore.continuations (rw_sessions (actors w2).2) !! key = Some latest →
         ac_Status latest ≠ ContinuationStatusApplied →
         n' = n ∧ ∃ wm, rtc (move (only [])) (actors w2).2 wm ∧
           ∀ row, outbox (rw_approvals wm) !! TrimSpace (oe_ID event) = Some row →
             oe_Status row = ApprovalModels.OutboxStatusPending →
             ∃ row', outbox (rw_approvals w') !! oe_ID row = Some row' ∧
               oe_Status row' = ApprovalModels.OutboxStatusPending ∧
               ∀ until, ac_LeaseUntil latest = Some until → until < oe_AvailableAt row').
Proof.
  intros Hclock Hkind E.
  assert (Hh : handle_event cfg event = handle_continuation cfg event).
  { unfold handle_event. rewrite Hkind. reflexivity. }
  unfold relay_event in E. rewrite Hh in E. unfold bind at 1 in E.
  destruct (handle_continuation cfg event w) as [h w1] eqn:E1. cbv zeta in E. split.
  - intros Hn. destruct (hd_processed h) eqn:Hp; cbn [negb] in E.
    + destruct (handle_continuation_end _ _ _ _ _ E1 Hp) as (request & Hreq & Hset). exists request. split; [done|].
      unfold bind at 1 in E. destruct (r_now w1) as [now w2] eqn:E2. pose proof (does_now everything _ _ _ E2) as M2.
      unfold bind in E. destruct (on_approvals _ w2) as [a w3] eqn:E3.
      assert (M3 : rtc (move everything) w2 w3) by (eapply call_Published, E3; done).
      assert (w3 = w') as -> by (by injection E). assert (M : rtc (move everything) w1 w') by (by etrans).
      destruct Hset as [(c & wa & wb & ? & ? & ? & ?)|(c & wa & ? & ? & ?)].
      * left. exists c, wa, wb. split_and!; try done. by etrans.
      * right. exists c, wa. split_and!; try done. by etrans.
    + exfalso. unfold bind in E. destruct (mark_undelivered event h w1) as [a w2]. destruct Hn. by injection E.
  - intros request c Hreq key wa Hc Hcf Httl Hv Hheld. destruct (held_is_refused _ _ _ Hv Httl Hheld) as [w2 Ha].
    exists w2. split; [exact Ha|]. intros latest Hl Hst.
    rewrite (refused_is_busy _ _ _ _ _ _ _ Hreq Hcf Hc Ha Hl Hst) in E1. injection E1 as <- <-.
    cbn [hd_processed busy negb] in E. unfold bind in E.
    destruct (mark_undelivered event (busy latest) (actors w2).2) as [a w3] eqn:E3.
    assert (n' = n ∧ w' = w3) as [-> ->] by (by injection E). split; [done|].
    destruct (mark_defers event (busy latest) _ _ _ Hclock eq_refl E3) as (wm & Hm & Hrow). exists wm. split; [exact Hm|].
    intros row Hr1 Hr2. destruct (Hrow row Hr1 Hr2) as (row' & F1 & F2 & F3). exists row'. split; [done|]. split; [done|].
    intros lease Hu. revert F3. unfold busy. cbn [hd_deferUntil]. by rewrite Hu.
Qed.
End saga.
