(* ===== verification/ApprovalRuntimeWitness.v ===== *)
(** * The approval runtime: concrete runs

    A creation spec is proposed and approved; an export is accepted twice; a
    portrait is approved in a batch; a relay finishes what a service has left. *)

From Stdlib Require Import ZArith Lia.
From stdpp Require Import relations.
From S2P Require Import Prelude GoJson WorkflowStore SessionModels SessionStore SessionRuns.
From S2P Require Import ApprovalModels ApprovalStore ApprovalProps ApprovalRuns.
From S2P Require Import Timed SpecStore SpecProps ArtifactStore ArtifactProps.
From S2P Require Import StoryboardModels StoryboardGraph StoryboardCommand StoryboardRevision StoryboardStore StoryboardRuns.
From S2P Require Import StoryboardWitness ApprovalRuntime ApprovalBatch ApprovalRelay ApprovalMoves.
From S2P Require Import ApprovalRuntimeProps ApprovalSagaProps.

Module RuntimeSample.
#[export] Existing Instances SessionSample.codec ApprovalSample.requested_codec StoryboardRun.digest
  StoryboardRun.formatting StoryboardRun.ticking StoryboardRun.in_map_order.

(** The payloads by name. *)
#[export] Instance payload_codec : PayloadCodec := {|
  json_Unmarshal_map s :=
    if bool_decide (s = "spec") then Ok (payload [("spec_id", AStr "spec"); ("spec_version", AFloat 1 0)])
    else if bool_decide (s = "export") then Ok (payload [("artifact_id", AStr "e1"); ("artifact_version", AFloat 1 0)])
    else Ok (payload [("storyboard_id", AStr "sb"); ("binding_id", AStr "b1")]);
  json_Unmarshal_requested _ := Ok (mkApprovalContinuationRequested "ap" 1 ContinuationExecutorDeterministic 1)
|}.

(** Nobody interferes. *)
#[export] Instance alone : Actors unit := {| actors := ret tt |}.
Lemma lawful : LawfulActors (X := unit).
Proof. intros w. exact (rtc_refl _ w). Qed.

Abbreviation world := (rworld unit).
Definition cfg : Config := mkConfig true true true true true true true true "svc" (30 * second).

Definition world0 : world :=
  mkRWorld ApprovalStore.NewMemoryStore SessionStore.NewMemoryStore SpecStore.NewMemoryStore ArtifactStore.NewMemoryStore
    NewMemoryAggregateRepository WorkflowStore.NewMemoryStore 0 0 tt.

(** *** A spec *)

Definition proposal : FinalVideoSpec :=
  zeroFinalVideoSpec <| fs_ID := "spec" |> <| fs_SessionID := "s" |> <| fs_Status := SpecStore.StatusReviewing |>
    <| fs_IdempotencyKey := "k1" |> <| fs_Title := "one" |>.
Definition review : Approval :=
  zeroApproval <| ap_ID := "ap" |> <| ap_IdempotencyKey := "create-ap" |> <| ap_SessionID := "s" |>
    <| ap_ArtifactType := "creation_spec_revision" |>
    <| ap_Binding := zeroVersionBinding <| vb_ArtifactID := "spec" |> <| vb_ArtifactVersion := 1 |> |>
    <| ap_ReviewMode := ReviewModeDurable |> <| ap_ExecutionMode := ExecutionModeDurable |>
    <| ap_ApproveCommand := mkFrozenCommand "ActivateCreationSpecRevision" "ap:yes" "spec" |>
    <| ap_RejectCommand := mkFrozenCommand "RejectCreationSpecRevision" "ap:no" "spec" |>.
Definition click : DecideRequest := mkDecideRequest "ap" 0 "click" "approved" "user" "".

Definition world1 : world := with_specs world0 (SpecProps.run_command (SSave proposal) (specs_of world0)).2.
Definition world2 : world := with_approvals world1 (ApprovalRuns.run_command (ACreate review) (approvals_of world1)).2.
Definition world3 : world := (run_service cfg (SDecideApproval click) world2).2.

(** The decision confirms the spec, the continuation is applied and the agent told. *)
Example spec_is_confirmed :
  (fs_Status <$> items (rw_specs world3) !! specRevisionKey "spec" 1,
   ac_Status <$> SessionStore.continuations (rw_sessions world3) !! continuationIdentity "ap" 1,
   in_Status <$> inputs (rw_sessions world3) !! "approval:ap:continuation-result:1",
   ApprovalModels.ap_Status <$> approvals (rw_approvals world3) !! "ap")
  = (Some StatusConfirmed, Some ContinuationStatusApplied, Some InputStatusPending, Some StatusApproved).
Proof. vm_compute. reflexivity. Qed.

Lemma by_spec c (w : world) : runtime_step w (with_specs w (SpecProps.run_command c (specs_of w)).2).
Proof.
  apply step_others, (move_specs everything w (SpecProps.run_command c (specs_of w)).2 I).
  apply (SpecProps.step_command _ c (SpecProps.run_command c (specs_of w)).1), surjective_pairing.
Qed.

Lemma by_approval c (w : world) : runtime_step w (with_approvals w (ApprovalRuns.run_command c (approvals_of w)).2).
Proof.
  apply step_others, (move_approvals everything w (ApprovalRuns.run_command c (approvals_of w)).2 I).
  apply (ApprovalRuns.step_command c _ (ApprovalRuns.run_command c (approvals_of w)).1), surjective_pairing.
Qed.

Lemma future3 : runtime_future world0 world3.
Proof. eapply rtc_l; [apply by_spec|eapply rtc_l; [apply by_approval|apply rtc_once, step_service]]. Qed.

(** *** Another actor records the decision and stops *)

Definition decision_of (w : world) : DecisionResult :=
  match (ApprovalStore.Decide (decide_command click review (ap_Binding review) 5) (approvals_of w)).1 with
  | Ok r => r | Err _ => zeroDecisionResult end.
Definition world2a : world :=
  with_approvals world2 (ApprovalStore.Decide (decide_command click review (ap_Binding review) 5) (approvals_of world2)).2.
Definition world2b : world :=
  with_sessions world2a (RequestContinuation (dr_Continuation (decision_of world2)) (sessions_of world2a)).2.
Definition asked : ApprovalContinuation := dr_Continuation (decision_of world2).
Definition row : ApprovalModels.OutboxEvent := dr_Outbox (decision_of world2).
Definition relayed : (Z * option error) * world := relay_event cfg row 0 None world2b.

Example relay_finishes :
  (relayed.1.1, ac_Status <$> SessionStore.continuations (rw_sessions relayed.2) !! continuationIdentity "ap" 1)
  = (1, Some ContinuationStatusApplied).
Proof. vm_compute. reflexivity. Qed.

(** Somebody else has claimed the continuation, and has much time left. *)
Definition claimed : world :=
  with_sessions world2b
    (ClaimContinuation (mkContinuationClaim "ap" 1 (ac_Executor asked) (ac_ExecutionEpoch asked) "other:1") (100 * second)
       (sessions_of world2b)).2.
Definition put_off : (Z * option error) * world := relay_event cfg row 0 None claimed.

Example held_row_is_deferred :
  (put_off.1.1, (fun r => (oe_Status r, oe_AvailableAt r)) <$> outbox (rw_approvals put_off.2) !! oe_ID row,
   SessionStore.continuations (rw_sessions put_off.2) !! continuationIdentity "ap" 1 ≫= ac_LeaseUntil)
  = (0, Some (ApprovalModels.OutboxStatusPending, 101 * second + 1005), Some (100 * second + 1005)).
Proof. vm_compute. reflexivity. Qed.

(** The record of a claim that stands when the relay asks. *)
Definition holds_claim (w : world) (c : ApprovalContinuation) : bool :=
  bool_decide (ac_ApprovalID c = "ap") && (ac_DecisionVersion c =? 1) && claim_is_live c (now_at (rw_reads w))
  && match validateContinuationClaim (claim_of cfg c w) with None => true | Some _ => false end.

Lemma holds_valid w c : holds_claim w c = true → validateContinuationClaim (claim_of cfg c w) = None.
Proof. unfold holds_claim. rewrite andb_true_iff. intros [_ Hv]. by destruct (validateContinuationClaim _). Qed.

Lemma holds_held w c :
  SessionStore.continuations (rw_sessions w) !! continuationIdentity "ap" 1 = Some c →
  holds_claim w c = true → held_by_other c w.
Proof.
  intros Hc. unfold holds_claim, claim_is_live. rewrite !andb_true_iff, !bool_decide_eq_true, Z.eqb_eq.
  intros (((Hid & Hver) & Hst & Hlease) & _). destruct (ac_LeaseUntil c) as [lease|] eqn:El; [|discriminate Hlease].
  exists c, lease. rewrite Hid, Hver. unfold After in Hlease. apply Z.ltb_lt in Hlease. by split_and!.
Qed.

(** *** An export *)

Definition export_record : Approval :=
  zeroApproval <| ap_ID := "ap2" |> <| ap_SessionID := "s" |> <| ap_ArtifactType := "export_result" |>
    <| ap_Binding := zeroVersionBinding <| vb_ArtifactID := "e1" |> <| vb_ArtifactVersion := 1 |> |>.
Definition accept : ApprovalDecision :=
  zeroApprovalDecision <| ad_ApprovalID := "ap2" |> <| ad_DecisionVersion := 1 |>
    <| ad_CommandKind := "MarkExportAccepted" |> <| ad_CommandIdempotencyKey := "ap2:yes" |> <| ad_CommandPayload := "export" |>.
Definition export : ArtifactStore.Revision :=
  zeroRevision <| av_ID := "e1" |> <| av_SessionID := "s" |> <| av_Kind := KindExportResult |>
    <| av_Status := ArtifactStore.StatusReviewing |> <| av_IdempotencyKey := "e1" |> <| av_Content := Some ∅ |>.
Definition world4 : world := with_artifacts world0 (ArtifactProps.run_command (RCreate export) (artifacts_of world0)).2.
Definition world5 : world := (executeCommand cfg export_record accept world4).2.

Lemma stores4 : stores_reachable world4.
Proof.
  split; [exists (boards_of world4); split; [reflexivity|apply rtc_refl]|]. exists (artifacts_of world0). split; [done|]. apply rtc_once.
  apply (ArtifactProps.step_command _ (RCreate export) (ArtifactProps.run_command (RCreate export) (artifacts_of world0)).1).
  exact (surjective_pairing (ArtifactProps.run_command (RCreate export) (artifacts_of world0))).
Qed.

(** *** A candidate *)

Definition boards : bworld unit :=
  (run_call (CallBind (StoryboardRun.bind1 <| bc_ApprovalID := "cand" |>)) StoryboardRun.world3).2.
Definition candidate_review : Approval :=
  zeroApproval <| ap_ID := "cand" |> <| ap_IdempotencyKey := "create-cand" |> <| ap_SessionID := "session" |>
    <| ap_ArtifactType := "candidate_asset" |>
    <| ap_Binding := zeroVersionBinding <| vb_ArtifactID := "b1" |> <| vb_ArtifactVersion := 1 |>
         <| vb_StoryboardID := "sb" |> <| vb_TargetID := "hero" |> <| vb_TargetRevision := 1 |>
         <| vb_PromptRevision := 1 |> |>
    <| ap_ReviewMode := ReviewModeDurable |> <| ap_ExecutionMode := ExecutionModeDurable |>
    <| ap_ApproveCommand := mkFrozenCommand "ActivateArtifactBinding" "cand:yes" "candidate" |>
    <| ap_RejectCommand := mkFrozenCommand "RejectArtifactBinding" "cand:no" "candidate" |>.
Definition world6 : world := (with_boards world0 boards) <| rw_approvals :=
  aw_store (ApprovalRuns.run_command (ACreate candidate_review) (approvals_of world0)).2 |>.
Definition approve_all : CandidateBatchApproveRequest :=
  mkCandidateBatchApproveRequest "session" "sb" 3 "all" "Approved" "user" "".
Definition approve_again : CandidateBatchApproveRequest := approve_all <| bq_IdempotencyKey := " all" |>.
Definition specless : Config := cfg <| cf_Specs := false |>.
Definition answer : (CandidateBatchApproveResult * option error) * world :=
  ApproveCandidateBatch specless approve_all world6.
Definition answered_again : (CandidateBatchApproveResult * option error) * world :=
  ApproveCandidateBatch cfg approve_again answer.2.
End RuntimeSample.

Import RuntimeSample.
#[local] Existing Instances SessionSample.codec ApprovalSample.requested_codec StoryboardRun.digest
  StoryboardRun.formatting StoryboardRun.ticking StoryboardRun.in_map_order RuntimeSample.payload_codec RuntimeSample.alone.

Lemma approval_runtime_refines_stores_witness :
  approval_inv (rw_approvals world3) ∧ spec_inv (rw_specs world3) ∧ spec_future (specs_of world0) (specs_of world3).
Proof.
  destruct (approval_runtime_refines_stores lawful world0 world3 future3) as (_ & _ & Hs & _ & _ & Hi).
  destruct Hi as (Ha & Hp & _); [split_and!; reflexivity|]. split; [exact Ha|]. split; [exact Hp|exact Hs].
Defined.

Lemma applied_continuation_is_told_witness :
  ∃ w', Apply cfg asked world2b = (Ok true, w') ∧ settled (ac_ApprovalID asked) (ac_DecisionVersion asked) world2b w'.
Proof.
  destruct (answered (Apply cfg asked world2b) (fun b => b)) as (b & E & Hb); [vm_compute; reflexivity|].
  destruct b; [|discriminate Hb]. exists (Apply cfg asked world2b).2. split; [exact E|].
  apply (applied_continuation_is_told cfg asked world2b _ E).
Defined.

Lemma executed_command_is_not_run_again_witness :
  let claim := mkContinuationClaim "ap2" 1 ContinuationExecutorDeterministic 1 "svc:2" in
  let again := apply_claimed cfg claim zeroApprovalContinuation export_record accept world5 in
  ∃ w4, rtc (move (only [PSessions])) w4 again.2 ∧
    ((∃ found, record_and_finish cfg claim [ledger_entry zeroApprovalContinuation accept found] w4 = again) ∨
     (∃ e, ResolveBinding cfg export_record world5 = (Err e, w4) ∧ give_back claim e w4 = again)).
Proof.
  intros claim again. destruct (answered (executeCommand cfg export_record accept world4) (fun _ => true))
    as (r & E & _); [vm_compute; reflexivity|].
  assert (Ea : apply_claimed cfg claim zeroApprovalContinuation export_record accept world5 = (again.1, again.2))
    by apply surjective_pairing.
  destruct (executed_command_is_not_run_again lawful cfg claim zeroApprovalContinuation export_record accept world4 r
    world5 world5 again.1 again.2 stores4) as (w4 & _ & Hm & Hend).
  - right. vm_compute. reflexivity.
  - vm_compute. reflexivity.
  - vm_compute. discriminate.
  - vm_compute. reflexivity.
  - exact E.
  - apply rtc_refl.
  - exact Ea.
  - exists w4. split; [exact Hm|]. rewrite (surjective_pairing again). exact Hend.
Defined.

Lemma relay_waits_for_the_continuation_witness :
  (∃ request, json_Unmarshal_requested (oe_Payload row) = Ok request ∧ relay_settled request world2b relayed.2) ∧
  (∃ c w2, Apply cfg c claimed = (Ok false, w2) ∧ put_off.1.1 = 0).
Proof.
  assert (Hclock : ∀ k, 0 < now_at k) by (intros k; unfold now_at, StoryboardRun.ticking; lia).
  assert (Hkind : oe_EventType row = EventApprovalContinuationRequested) by (vm_compute; reflexivity). split.
  - assert (E : relay_event cfg row 0 None world2b = ((relayed.1.1, relayed.1.2), relayed.2)).
    { unfold relayed. by destruct (relay_event cfg row 0 None world2b) as [[n e] w]. }
    apply (relay_waits_for_the_continuation cfg row 0 None world2b relayed.1.1 relayed.1.2 relayed.2 Hclock Hkind E).
    vm_compute. discriminate.
  - assert (E : relay_event cfg row 0 None claimed = ((put_off.1.1, put_off.1.2), put_off.2)).
    { unfold put_off. by destruct (relay_event cfg row 0 None claimed) as [[n e] w]. }
    destruct (tested_Some (SessionStore.continuations (rw_sessions claimed) !! continuationIdentity "ap" 1) (holds_claim claimed))
      as (c & Hc & Ht); [vm_compute; reflexivity|].
    destruct (proj2 (relay_waits_for_the_continuation cfg row 0 None claimed put_off.1.1 put_off.1.2 put_off.2 Hclock Hkind E)
      (mkApprovalContinuationRequested "ap" 1 ContinuationExecutorDeterministic 1) c eq_refl Hc)
      as (w2 & Ha & Hend).
    + reflexivity.
    + reflexivity.
    + apply (holds_valid claimed c Ht).
    + exact (holds_held claimed c Hc Ht).
    + exists c, w2. split; [exact Ha|]. vm_compute. reflexivity.
Defined.

Lemma batch_is_frozen_and_summed_up_witness :
  let s := ba_Summary answer.1.1 in
  su_Total s = su_Approved s + su_Stale s + su_Conflicts s + su_Failed s ∧
  (ba_Results answered_again.1.1 = [] ∨ ba_Batch answered_again.1.1 = ba_Batch answer.1.1).
Proof.
  intros s.
  assert (Hr : approval_reachable (approvals_of world6)).
  { exists (approvals_of world0). split; [reflexivity|]. eapply rtc_l; [|apply rtc_once, ApprovalRuns.step_outside].
    eapply (ApprovalRuns.step_command (ACreate candidate_review)), surjective_pairing. }
  assert (E : ApproveCandidateBatch specless approve_all world6 = ((answer.1.1, answer.1.2), answer.2)).
  { unfold answer. by destruct (ApproveCandidateBatch specless approve_all world6) as [[a e] w]. }
  assert (E2 : ApproveCandidateBatch cfg approve_again answer.2 = ((answered_again.1.1, answered_again.1.2), answered_again.2)).
  { unfold answered_again. by destruct (ApproveCandidateBatch cfg approve_again answer.2) as [[a e] w]. }
  destruct (batch_is_frozen_and_summed_up lawful specless cfg approve_all approve_again world6 answer.1.1 answer.1.2 answer.2 answer.2 answered_again.1.1 answered_again.1.2 answered_again.2 Hr E)
    as ((os & wa & wb & _ & _ & _ & _ & _ & _ & _ & _ & Hsum & _) & _ & _ & Hlater).
  - vm_compute. discriminate.
  - vm_compute. reflexivity.
  - split; [exact Hsum|]. apply Hlater; [apply rtc_refl|vm_compute; reflexivity|exact E2].
Defined.
