(* ===== verification/Bindings.v ===== *)
(** * The delivery of generated media: the storyboard binding adapter

    [internal/aigc/generationruntime/adapters.go]: what finalization calls to check
    whether a result is still wanted ([Check]), to deliver it ([commit]: the assets are made
    available, bound to their slot and handed to a review), to find out whether that has
    happened ([IsCommitted]) and to withdraw assets ([Discard]); and the store that
    keeps a provider's assets hidden until then.  The world is that of the approval
    runtime; the table of assets is outside, behind [AssetStore].  [Commit] runs
    [commit] in one transaction of the database when all its stores are Postgres stores,
    and directly otherwise: what is modelled is [commit]. *)

From Stdlib Require Import ZArith Ascii.
From S2P Require Import Prelude GoJson GenModels ProviderPolicy Finalization SessionModels ApprovalModels Timed.
From S2P Require Import StoryboardModels StoryboardGraph StoryboardCommand StoryboardStore ApprovalRuntime.
From S2P Require SpecStore ApprovalStore.

(** ** Assets ([internal/aigc/asset/models.go]) *)

Definition AvailabilityPendingBilling := "pending_billing".
Definition AvailabilityAvailable := "available".
Definition AvailabilityQuarantined := "quarantined".

Definition asset_ErrNotFound := errors_New "asset not found".

Record Asset := mkAsset {
  as_ID : string;
  as_SessionID : string;
  as_UserID : string;
  as_SourceJobID : string;
  as_OutputIndex : Z;
  as_Kind : string;
  as_Source : string;
  as_Availability : string;
  as_MIMEType : string;
  as_Filename : string;
  as_SizeBytes : Z;
  as_ContentHash : string;
  as_StorageProvider : string;
  as_Bucket : string;
  as_ObjectKey : string;
  as_URL : string;
  as_Metadata : gomap any;
  as_CreatedAt : Time;
  as_UpdatedAt : Time
}.
#[global] Instance eta_Asset : Eta Asset := fun r =>
  mkAsset (as_ID r) (as_SessionID r) (as_UserID r) (as_SourceJobID r) (as_OutputIndex r) (as_Kind r)
  (as_Source r) (as_Availability r) (as_MIMEType r) (as_Filename r) (as_SizeBytes r) (as_ContentHash r)
  (as_StorageProvider r) (as_Bucket r) (as_ObjectKey r) (as_URL r) (as_Metadata r) (as_CreatedAt r) (as_UpdatedAt r).
Definition zeroAsset : Asset := mkAsset "" "" "" "" 0 "" "" "" "" "" 0 "" "" "" "" "" None zeroTime zeroTime.

(** The interface; [SourceJobAssetStore] is implemented or not. *)
Class AssetStore (X : Type) := {
  asset_Get : string → Eff X (result Asset);
  asset_Save : Asset → Eff X (result Asset);
  asset_ListBySourceJob : option (string → Eff X (result (list Asset)))
}.

(** ** [strings.EqualFold] with a text of ASCII letters

    Besides the two cases of a letter, U+212A folds to [k] and U+017F to [s]. *)

Fixpoint fold_bytes (l : list ascii) : list ascii :=
  match l with
  | [] => []
  | a :: l1 =>
      match l1 with
      | b :: ((c :: l3) as l2) =>
          if bool_decide ([a; b; c] = bytes [0xE2; 0x84; 0xAA]%nat) then "k"%char :: fold_bytes l3
          else if bool_decide ([a; b] = bytes [0xC5; 0xBF]%nat) then "s"%char :: fold_bytes l2
          else lower_ascii a :: fold_bytes l1
      | [b] =>
          if bool_decide ([a; b] = bytes [0xC5; 0xBF]%nat) then ["s"%char]
          else lower_ascii a :: fold_bytes l1
      | [] => [lower_ascii a]
      end
  end.

Definition EqualFold (s word : string) : bool :=
  bool_decide (fold_bytes (String.list_ascii_of_string s) = String.list_ascii_of_string word).

(** ** What a provider has delivered *)

Definition expected_outputs (job : GenerationJob) : Z :=
  if EqualFold (j_MediaKind job) "image" || EqualFold (j_MediaKind job) "illustration"
     || EqualFold (j_MediaKind job) "keyframe"
  then match go_lookup (j_Payload job) "n" with
       | Some (AInt value) => if 0 <? value then value else 1
       | Some (AFloat m e) => if 0 <? m then int_of_float m e else 1
       | _ => 1
       end
  else 1.

(** The loop that files the usable assets under their index; the first one counts. *)
Definition file_output (expected : Z) (byOutput : gmap Z string) (item : Asset) : gmap Z string :=
  if negb (bool_decide (as_Availability item = AvailabilityPendingBilling))
     && negb (bool_decide (as_Availability item = AvailabilityAvailable)) then byOutput
  else if (as_OutputIndex item <? 0) || (expected <=? as_OutputIndex item) then byOutput
  else match byOutput !! as_OutputIndex item with
       | Some _ => byOutput
       | None => <[as_OutputIndex item := as_ID item]> byOutput
       end.

Definition by_output (expected : Z) (items : list Asset) : gmap Z string := foldl (file_output expected) ∅ items.

(** The assets in the order of their index, and whether none is missing. *)
Definition recovered_assets (expected : Z) (items : list Asset) : list string * bool :=
  let byOutput := by_output expected items in
  let indices := seqZ 0 expected in
  (omap (byOutput !!.) indices, forallb (fun index => bool_decide (is_Some (byOutput !! index))) indices).

Definition recovered_result (assetIDs : list string) (complete : bool) : ProviderResult :=
  zeroProviderResult <| pr_AssetIDs := assetIDs |>
    <| pr_Payload := payload [("asset_ids", AArr (AStr <$> assetIDs)); ("recovered_receipt", ABool true);
                              ("receipt_complete", ABool complete)] |>.

(** ** The adapter *)

(** Which services the adapter has been given. *)
Record StoryboardBindingAdapter := mkStoryboardBindingAdapter {
  ba_Repository : bool;
  ba_Commands : bool;
  ba_Assets : bool;
  ba_Approvals : bool;
  ba_Specs : bool
}.

Definition assembly (token : BindingToken) : bool := HasPrefix (k_TargetID token) "assembly:".

Definition binding_id (job : GenerationJob) (index : nat) : string :=
  "binding:" +:+ j_ID job +:+ ":" +:+ pretty (Z.of_nat index).

Section bindings.
Context `{Codec} `{ApprovalCodec} `{PayloadCodec} `{Digest} `{Formatting} `{MapRange} `{Clock} {X : Type} `{Actors X}
  `{AssetStore X}.

Definition on_assets {A} (c : Eff X A) : Eff (rworld X) A :=
  let* _ := actors in fun w => let '(a, x) := c (rw_ext w) in (a, w <| rw_ext := x |>).

(** *** [PendingAssetStore] *)

Definition PendingAssetStore_Save (record : Asset) : Eff (rworld X) (result Asset) :=
  on_assets (asset_Save (record <| as_Availability := AvailabilityPendingBilling |>)).

Definition PendingAssetStore_Get (id : string) : Eff (rworld X) (result Asset) := on_assets (asset_Get id).

Definition RecoverProviderResult (job : GenerationJob) : Eff (rworld X) (result (ProviderResult * bool)) :=
  match asset_ListBySourceJob with
  | None => ret (Ok (zeroProviderResult, false))
  | Some list_by_job =>
      try* items := on_assets (list_by_job (j_ID job)) in
      let '(assetIDs, complete) := recovered_assets (expected_outputs job) items in
      match assetIDs with
      | [] => ret (Ok (zeroProviderResult, false))
      | _ => ret (Ok (recovered_result assetIDs complete, complete))
      end
  end.

(** *** The token of a slot as it is now *)

Definition currentBindingToken (aggregate : StoryboardAggregate) (targetID slotKey : string) : BindingToken * bool :=
  let '(input, err) := ResolveGenerationInput aggregate targetID slotKey in
  if bool_decide (is_Some err) then (zeroBindingToken, false)
  else match ActiveRevision aggregate with
       | Err _ => (zeroBindingToken, false)
       | Ok revision =>
           (mkBindingToken (ag_ID aggregate) (gi_TargetID input) (gi_AssetSlot input) (gi_TargetRevision input)
              (gi_PromptRevision input) (gi_GenerationEpoch input) (rv_DerivedFromSpecVersion revision) 0
              (gi_Fingerprint input), true)
       end.

Variable ba : StoryboardBindingAdapter.

Definition specMatchesStoryboard (aggregate : StoryboardAggregate) : Eff (rworld X) (result bool) :=
  if negb (ba_Specs ba) then ret (Ok true)
  else match ActiveRevision aggregate with
       | Err err => fail err
       | Ok revision =>
           try* confirmed := on_specs (SpecStore.GetConfirmedBySession (ag_SessionID aggregate)) in
           ret (Ok ((rv_DerivedFromSpecVersion revision =? 0)
                    || (rv_DerivedFromSpecVersion revision =? SpecStore.fs_Version confirmed)))
       end.

(** *** [Check] *)

Definition noBindingCheck : BindingCheck := mkBindingCheck false false zeroBindingToken.

Definition check_assembly (token : BindingToken) : Eff (rworld X) (result BindingCheck) :=
  try* aggregate := on_boards (GetAggregate (k_StoryboardID token)) in
  match ActiveRevision aggregate with
  | Err err => fail err
  | Ok revision =>
      let current := token <| k_SpecVersion := rv_DerivedFromSpecVersion revision |>
                           <| k_AggregateVersion := ag_Version aggregate |> in
      try* specMatches := specMatchesStoryboard aggregate in
      ret (Ok (mkBindingCheck true (specMatches && BindingToken_Equal token current) current))
  end.

Definition check_slot (token : BindingToken) : Eff (rworld X) (result BindingCheck) :=
  let* r := on_boards (GetAggregate (k_StoryboardID token)) in
  match r with
  | Err err => if errors_Is err ErrAggregateNotFound then ret (Ok noBindingCheck) else fail err
  | Ok aggregate =>
      let '(current, exists_) := currentBindingToken aggregate (k_TargetID token) (k_AssetSlot token) in
      if exists_ && BindingToken_Equal token current
      then try* specMatches := specMatchesStoryboard aggregate in ret (Ok (mkBindingCheck exists_ specMatches current))
      else ret (Ok (mkBindingCheck exists_ false current))
  end.

Definition Check (token : BindingToken) : Eff (rworld X) (result BindingCheck) :=
  if negb (ba_Repository ba) then fail (Errorf "storyboard repository is required")
  else if assembly token then check_assembly token else check_slot token.

(** *** [commit] *)

Definition superseded_error (text : string) : error :=
  NewExecutionError ErrorStageBinding ErrorResultSuperseded false (Errorf text).

(** The token is compared again before anything is changed. *)
Definition commit_guard (token : BindingToken) : Eff (rworld X) (result unit) :=
  if assembly token then
    try* check := Check token in
    if negb (bc_TargetExists check) || negb (bc_Matches check)
    then fail (superseded_error "assembly input changed before commit") else ret (Ok tt)
  else if negb (ba_Repository ba) || negb (ba_Commands ba)
  then fail (Errorf "storyboard binding services are required")
  else
    try* aggregate := on_boards (GetAggregate (k_StoryboardID token)) in
    let '(current, exists_) := currentBindingToken aggregate (k_TargetID token) (k_AssetSlot token) in
    try* specMatches := specMatchesStoryboard aggregate in
    if negb exists_ || negb specMatches || negb (BindingToken_Equal token current)
    then fail (superseded_error "generation binding token became stale before commit") else ret (Ok tt).

(** The loop that makes the assets available. *)
Fixpoint publish_assets (assetIDs : list string) : Eff (rworld X) (result unit) :=
  match assetIDs with
  | [] => ret (Ok tt)
  | assetID :: rest =>
      try* stored := on_assets (asset_Get assetID) in
      try* _ := on_assets (asset_Save (stored <| as_Availability := AvailabilityAvailable |>)) in
      publish_assets rest
  end.

Definition bind_command (input : FinalizationCommit) (aggregate : StoryboardAggregate) (index : nat) (assetID : string)
    : BindAssetCommand :=
  let job := fc_Job input in
  let token := fc_BindingToken input in
  let bindingID := binding_id job index in
  mkBindAssetCommand ("job:" +:+ j_ID job +:+ ":bind:" +:+ pretty (Z.of_nat index)) (ag_ID aggregate)
    (ag_Version aggregate) bindingID (k_TargetID token) (k_AssetSlot token) assetID
    (j_ID job +:+ ":" +:+ pretty (j_Attempt job))
    (if bool_decide (fc_ApprovalPolicy input = ApprovalReviewRequired) then "approval:" +:+ bindingID else "")
    (k_TargetRevision token) (k_PromptRevision token) (k_GenerationEpoch token) (k_InputFingerprint token)
    (bool_decide (fc_BindingMode input = BindingModeActive)).

Definition artifact_revision (aggregate : StoryboardAggregate) (bindingID : string) : Z :=
  match List.find (fun binding => bool_decide (bd_ID binding = bindingID)) (ag_Bindings aggregate) with
  | Some binding => bd_ArtifactRevision binding
  | None => 0
  end.

(** The approval of a candidate, with the two commands that are frozen for it. *)
Definition candidate_approval (input : FinalizationCommit) (updated : StoryboardAggregate) (index : nat) : Approval :=
  let job := fc_Job input in
  let token := fc_BindingToken input in
  let bindingID := binding_id job index in
  let text := json_Marshal_map (payload [("storyboard_id", AStr (ag_ID updated));
                ("base_version", AInt (ag_Version updated)); ("binding_id", AStr bindingID)]) in
  zeroApproval <| ap_ID := "approval:" +:+ bindingID |> <| ap_IdempotencyKey := "candidate:" +:+ bindingID |>
    <| ap_SessionID := j_SessionID job |> <| ap_UserID := j_UserID job |> <| ap_ArtifactType := "candidate_asset" |>
    <| ap_Binding := mkVersionBinding bindingID (Z.max (artifact_revision updated bindingID) 1) (ag_ID updated)
         (ag_Version updated) (k_TargetID token) (k_TargetRevision token) (k_PromptRevision token)
         (k_GenerationEpoch token) |>
    <| ap_ReviewMode := ReviewModeDurable |> <| ap_ExecutionMode := ExecutionModeDurable |>
    <| ap_ApproveCommand := mkFrozenCommand "ActivateArtifactBinding" ("approval:" +:+ bindingID +:+ ":activate") text |>
    <| ap_RejectCommand := mkFrozenCommand "RejectArtifactBinding" ("approval:" +:+ bindingID +:+ ":reject") text |>.

(** One asset: bound, and handed to a review. *)
Definition deliver_asset (input : FinalizationCommit) (index : nat) (assetID : string) : Eff (rworld X) (result unit) :=
  try* aggregate := on_boards (GetAggregate (k_StoryboardID (fc_BindingToken input))) in
  try* '(updated, disposition) := on_boards (Bind (bind_command input aggregate index assetID)) in
  if bool_decide (disposition = BindingDispositionSuperseded)
  then fail (superseded_error "generation binding token became stale")
  else if bool_decide (fc_ApprovalPolicy input = ApprovalReviewRequired) then
    if negb (ba_Approvals ba) then fail (Errorf "approval store is required for candidate binding")
    else try* _ := on_approvals (ApprovalStore.Create (candidate_approval input updated index)) in ret (Ok tt)
  else ret (Ok tt).

Fixpoint deliver_assets (input : FinalizationCommit) (index : nat) (assetIDs : list string)
    : Eff (rworld X) (result unit) :=
  match assetIDs with
  | [] => ret (Ok tt)
  | assetID :: rest =>
      try* _ := deliver_asset input index assetID in
      deliver_assets input (S index) rest
  end.

Definition commit (input : FinalizationCommit) : Eff (rworld X) (result unit) :=
  let token := fc_BindingToken input in
  try* _ := commit_guard token in
  try* _ := publish_assets (fc_AssetIDs input) in
  if assembly token then ret (Ok tt) else deliver_assets input 0 (fc_AssetIDs input).

(** *** [IsCommitted] *)

(** An answer [Ok true] of a test lets the next one run. *)
Definition and_then (c d : Eff (rworld X) (result bool)) : Eff (rworld X) (result bool) :=
  try* b := c in if b : bool then d else ret (Ok false).

Definition asset_delivered (job : GenerationJob) (assetID : string) : Eff (rworld X) (result bool) :=
  let* r := on_assets (asset_Get assetID) in
  match r with
  | Err err => if errors_Is err asset_ErrNotFound then ret (Ok false) else fail err
  | Ok stored =>
      ret (Ok (bool_decide (as_Availability stored = AvailabilityAvailable)
               && (bool_decide (as_SourceJobID stored = "") || bool_decide (as_SourceJobID stored = j_ID job))))
  end.

Fixpoint assets_delivered (job : GenerationJob) (assetIDs : list string) : Eff (rworld X) (result bool) :=
  match assetIDs with
  | [] => ret (Ok true)
  | assetID :: rest => and_then (asset_delivered job assetID) (assets_delivered job rest)
  end.

Definition binding_delivered (job : GenerationJob) (aggregate : StoryboardAggregate) (index : nat) (assetID : string)
    : Eff (rworld X) (result bool) :=
  let bindingID := binding_id job index in
  if negb (existsb (fun binding => bool_decide (bd_ID binding = bindingID) && bool_decide (bd_AssetID binding = assetID))
             (ag_Bindings aggregate))
  then ret (Ok false)
  else if bool_decide (p_ApprovalPolicy (DeliveryPolicy_Normalize (j_DeliveryPolicy job)) = ApprovalReviewRequired)
          && ba_Approvals ba
  then
    let* r := on_approvals (ApprovalStore.Get ("approval:" +:+ bindingID)) in
    match r with
    | Err err => if errors_Is err ApprovalModels.ErrNotFound then ret (Ok false) else fail err
    | Ok _ => ret (Ok true)
    end
  else ret (Ok true).

Fixpoint bindings_delivered (job : GenerationJob) (aggregate : StoryboardAggregate) (index : nat)
    (assetIDs : list string) : Eff (rworld X) (result bool) :=
  match assetIDs with
  | [] => ret (Ok true)
  | assetID :: rest => and_then (binding_delivered job aggregate index assetID)
                         (bindings_delivered job aggregate (S index) rest)
  end.

Definition IsCommitted (job : GenerationJob) (assetIDs : list string) : Eff (rworld X) (result bool) :=
  if negb (ba_Assets ba) || bool_decide (assetIDs = []) then ret (Ok false)
  else and_then (assets_delivered job assetIDs)
    (if assembly (j_BindingToken job) then ret (Ok true)
     else if negb (ba_Repository ba) then ret (Ok false)
     else
       let* r := on_boards (GetAggregate (k_StoryboardID (j_BindingToken job))) in
       match r with
       | Err err => if errors_Is err ErrAggregateNotFound then ret (Ok false) else fail err
       | Ok aggregate => bindings_delivered job aggregate 0 assetIDs
       end).

(** *** [Discard] *)

Definition discarded_asset (job : GenerationJob) (disposition : string) (stored : Asset) : Asset :=
  stored <| as_Availability := AvailabilityQuarantined |>
    <| as_Metadata := Some (<["source_job_id" := AStr (j_ID job)]> (<["result_disposition" := AStr (TrimSpace disposition)]>
         (default ∅ (as_Metadata stored)))) |>.

Fixpoint discard_assets (job : GenerationJob) (assetIDs : list string) (disposition : string)
    : Eff (rworld X) (result unit) :=
  match assetIDs with
  | [] => ret (Ok tt)
  | assetID :: rest =>
      try* stored := on_assets (asset_Get assetID) in
      try* _ := on_assets (asset_Save (discarded_asset job disposition stored)) in
      discard_assets job rest disposition
  end.

Definition Discard (job : GenerationJob) (assetIDs : list string) (disposition : string) : Eff (rworld X) (result unit) :=
  if negb (ba_Assets ba) then fail (Errorf "asset store is required") else discard_assets job assetIDs disposition.
End bindings.
