(* ===== verification/BindingProps.v ===== *)
(** * The delivery of generated media: theorems

    A delivery that has been carried out is recognised as such ever after, and
    only what is on record is recognised; a stale token delivers nothing. *)

From Stdlib Require Import ZArith Lia.
From stdpp Require Import relations.
From S2P Require Import Prelude GoJson GenModels ProviderPolicy Finalization SessionModels SessionInv ApprovalModels Timed.
From S2P Require Import ApprovalStore ApprovalProps ApprovalRuns.
From S2P Require Import StoryboardModels StoryboardGraph StoryboardCommand StoryboardRevision StoryboardStore.
From S2P Require Import StoryboardProps StoryboardRuns StoryboardPlans.
From S2P Require Import ApprovalRuntime ApprovalMoves ApprovalRuntimeProps ApprovalSagaProps Bindings.

(** ** The names of bindings

    What a binding is called and the asset it shows; its state may change, this does not. *)

Definition named (b : ArtifactBinding) : string * string := (bd_ID b, bd_AssetID b).
Definition names (a : StoryboardAggregate) : list (string * string) := named <$> ag_Bindings a.

Section commands.
Context `{Digest} `{Formatting} `{MapRange}.
Variable now : nat → Time.

Lemma names_update_first p f (l : list ArtifactBinding) :
  (∀ b, named (f b) = named b) → named <$> update_first p f l = named <$> l.
Proof.
  intros Hf. induction l as [|b l IH]; [done|]. cbn. destruct (p b); cbn; [by rewrite Hf|by f_equal].
Qed.

Lemma names_supersede_invalid a index : names (supersede_if_invalid a index) = names a.
Proof.
  unfold supersede_if_invalid. destruct (ag_Bindings a !! index) as [b|] eqn:Hb; [|done].
  case_match; [done|]. destruct (ResolveGenerationInput _ _ _). case_match; [done|].
  unfold names. cbn. apply list_eq. intros i. rewrite !list_lookup_fmap.
  destruct (base.decide (index = i)) as [<-|Hne]; [rewrite list_lookup_alter_eq|by rewrite list_lookup_alter_ne].
  by destruct (ag_Bindings a !! index).
Qed.

Lemma names_supersede a : names (supersedeInvalidCandidates a) = names a.
Proof.
  unfold supersedeInvalidCandidates. destruct (mutableActiveRevision a); [|done].
  generalize (seq 0 (length (ag_Bindings a))). intros l. revert a. induction l as [|i l IH]; intros a; [done|].
  cbn [foldl]. by rewrite IH, names_supersede_invalid.
Qed.

Lemma names_touch t c f a : names (touchCommand t c f a) = names a.
Proof. unfold names. by rewrite touch_bindings. Qed.

Lemma names_closure id target slot a : names (mark_closure id target slot a).2 = names a.
Proof. unfold names. by rewrite mark_closure_bindings. Qed.

Lemma names_update_binding id state a : names (update_binding id (set_state state) a) = names a.
Proof. by apply names_update_first. Qed.

Lemma names_activate r id a v a' : activateBinding r id a = (v, a') → names a' = names a.
Proof.
  unfold activateBinding. destruct (bindingByID a id) as [b|]; [|by intros [= _ <-]].
  destruct (findElement r _) as [e|]; [|by intros [= _ <-]].
  destruct (findAssetSlot e _) as [slot|]; [|by intros [= _ <-]].
  case_match; [by intros [= _ <-]|]. destruct (ResolveGenerationInput _ _ _) as [input err].
  destruct (binding_is_current _ _ _ _ _); cbn [negb]; intros Heq; apply (f_equal snd) in Heq; cbn [snd] in Heq; subst a';
    [|apply names_update_binding].
  change (names (update_binding id (set_state BindingStateActive)
    (a <| ag_Bindings := supersede_active b <$> ag_Bindings a |>)) = names a).
  rewrite names_update_binding. unfold names. cbn. rewrite <-list_fmap_compose. apply list_fmap_ext. intros i c _.
  unfold compose, supersede_active. by case_match.
Qed.

Lemma names_candidate command fp r slot b a v a' :
  bind_candidate now command fp r slot b a = (Ok v, a') → names a' = names a.
Proof.
  unfold bind_candidate. cbv zeta. case_match.
  - match goal with |- context [activateBinding ?r ?i ?a] => destruct (activateBinding r i a) as [[d|] a2] eqn:E end; [|done].
    apply names_activate in E. change (names (put_revision _ a)) with (names a) in E.
    case_bool_decide.
    + match goal with |- context [mark_closure ?i ?t ?s ?a] => pose proof (names_closure i t s a) as Hc;
        destruct (mark_closure i t s a) as [stale a3] end. cbn [snd] in Hc.
      intros Heq; apply (f_equal snd) in Heq; cbn [snd] in Heq; subst a'. rewrite names_touch, names_supersede. congruence.
    + intros Heq; apply (f_equal snd) in Heq; cbn [snd] in Heq; subst a'. by rewrite names_touch.
  - intros Heq; apply (f_equal snd) in Heq; cbn [snd] in Heq; subst a'. by rewrite names_touch.
Qed.

Lemma BindAsset_names command a d a' :
  checkAppliedCommand a (bc_CommandID command) (commandFingerprint (json_BindAssetCommand command)) = Ok false →
  BindAsset now command a = (Ok d, a') →
  names a' = names a ++ [(TrimSpace (bc_BindingID command), TrimSpace (bc_AssetID command))].
Proof.
  intros Hc. unfold BindAsset. cbv zeta. intros [[? _]|[_ [_ Hk]%versioned_ok]]%once_ok; [congruence|]. revert Hk.
  case_match; [done|]. case_bool_decide; [done|].
  destruct (mutableActiveRevision a) as [r|]; [|done].
  destruct (findElement r _) as [e|]; [|done]. destruct (findAssetSlot e _) as [s|]; [|done].
  unfold bind_asset. cbv zeta.
  assert (E : ∀ b, names (a <| ag_Bindings := ag_Bindings a ++ [b] |>) = names a ++ [named b])
    by (intros b; unfold names; cbn; by rewrite fmap_app).
  destruct (token_is_current command a e s).
  - intros ->%names_candidate. by rewrite E.
  - intros Heq; apply (f_equal snd) in Heq; cbn [snd] in Heq; subst a'. by rewrite names_touch, E.
Qed.
End commands.

(** ** What a successful [Bind] leaves on record *)

Section bind.
Context `{Digest} `{Formatting} `{MapRange} `{Clock} {X : Type}.

(** The names of the bindings of a storyboard. *)
Definition bound (r : MemoryAggregateRepository) (sid : string) : list (string * string) :=
  match mr_aggregates r !! TrimSpace sid with Some a => names a | None => [] end.

Lemma names_clone a : names (Clone a) = names a.
Proof. done. Qed.

(** A call that is not refused has stored the binding or has found it. *)
Lemma Bind_Ok command (w : bworld X) a d w' :
  storyboards_reachable w → TrimSpace (bc_CommandID command) ≠ "" → Bind command w = (Ok (a, d), w') →
  (bw_repo w' = bw_repo w ∧ ∃ asset, (bc_BindingID command, asset) ∈ bound (bw_repo w) (bc_StoryboardID command)) ∨
  bound (bw_repo w') (bc_StoryboardID command)
    = bound (bw_repo w) (bc_StoryboardID command) ++ [(TrimSpace (bc_BindingID command), TrimSpace (bc_AssetID command))].
Proof.
  intros Hr Hid E. pose proof (reachable_inv w Hr) as Hi.
  assert (Hmark : marked_by (bc_CommandID command) (TrimSpace (bc_CommandID command))) by done.
  revert E. unfold Bind, run_command, bind_ok, bound. rewrite loadForCommand_ends.
  destruct (blank _); [done|]. destruct (_ !! TrimSpace (bc_StoryboardID command)) as [stored|] eqn:Hs; [|done].
  pose proof (ri_filed _ Hi _ _ Hs) as Hf. destruct (Hf) as (Eid & _).
  destruct (checkAppliedCommand stored _ _) as [[]|e] eqn:Hc; [| |done].
  - unfold replayed_binding. destruct (bindingByID (Clone stored) _) as [b|] eqn:Eb; [|done].
    unfold ret. intros Heq. apply pair_equal_spec in Heq as [_ <-]. left. split; [done|].
    apply find_elem in Eb as [Hin Hb%bool_decide_eq_true]. exists (bd_AssetID b). rewrite <-Hb.
    apply list_elem_of_fmap. by exists b.
  - unfold bind, b_clock.
    match goal with |- context[BindAsset ?now command (Clone stored)] =>
      destruct (BindAsset now command (Clone stored)) as [[v|e] a1] eqn:Em end; [|done].
    pose proof (BindAsset_names _ _ _ _ _ (eq_trans (checkApplied_clone _ _ _) Hc) Em) as Hn.
    assert (Hcm : committed (Clone stored) (bc_CommandID command) (commandFingerprint (json_BindAssetCommand command)) a1)
      by (eapply outcome_committed; [exact (eq_trans (checkApplied_clone _ _ _) Hc)|by eapply BindAsset_outcome]).
    unfold unmarked. set (w1 := mkBWorld _ _ _). change (ag_Version (Clone stored)) with (ag_Version stored).
    assert (Eid1 : ag_ID a1 = ag_ID stored) by apply Hcm.
    match goal with |- context[SaveAggregate ?t a1 ?v ?ev w1] => destruct (SaveAggregate t a1 v ev w1) as [r1 w2] eqn:Es end.
    apply (SaveAggregate_ends _ _ stored) in Es as [-> Es];
      [|rewrite Eid1, Eid; exact Hs|by rewrite Eid|exact Eid1|apply Hcm|apply Hcm].
    unfold ret. intros Heq. apply pair_equal_spec in Heq as [_ <-]. destruct Es as [(_ & _ & Hex)| ->]; [exfalso|right].
    + apply existsb_exists in Hex as (ev & Hev%list_elem_of_In & Heq%bool_decide_eq_true). cbn in Heq.
      rewrite Eid in Hev. apply list_elem_of_lookup in Hev as [i Hev].
      destruct (ri_events _ Hi _ _ _ _ Hs Hev) as (_ & _ & Hm). rewrite Heq in Hm. specialize (Hm _ Hmark).
      apply (ri_ledger _ Hi _ _ _ Hs) in Hm as [h Hh].
      revert Hc. unfold checkAppliedCommand. cbv zeta. rewrite (bool_decide_eq_false_2 _ Hid), Hh. by case_bool_decide.
    + rewrite aggregates_saved, Eid1, Eid, bool_decide_true by done. exact Hn.
Qed.
End bind.

(** ** The ids of the bindings of a job *)

Lemma pretty_go_tail x : ∀ s, ∃ p, pretty.pretty_N_go x s = p +:+ s.
Proof.
  induction (N.lt_wf_0 x) as [x _ IH]. intros s. destruct (base.decide (0 < x)%N) as [Hx|Hx].
  - rewrite pretty.pretty_N_go_step by done. destruct (IH (x `div` 10)%N ltac:(by apply N.div_lt)
      (String (pretty.pretty_N_char (x `mod` 10)) s)) as [p ->].
    exists (p +:+ String (pretty.pretty_N_char (x `mod` 10)) ""). induction p as [|c p IHp]; [done|]. exact (f_equal (String c) IHp).
  - assert (x = 0%N) as -> by lia. by exists "".
Qed.

Lemma pretty_last_firm (n : nat) :
  ∃ a, last (String.list_ascii_of_string (pretty (Z.of_nat n))) = Some a ∧ firm_byte a = true.
Proof.
  destruct n as [|n]; [eexists; split; vm_compute; reflexivity|]. change (pretty (Z.of_nat (S n))) with (pretty (N.pos (Pos.of_succ_nat n))).
  generalize (Pos.of_succ_nat n). intros x. unfold pretty, pretty.pretty_N. rewrite decide_False by done.
  rewrite pretty.pretty_N_go_step by done. set (d := (N.pos x `mod` 10)%N).
  destruct (pretty_go_tail (N.pos x `div` 10) (String (pretty.pretty_N_char d) "")) as [p ->].
  exists (pretty.pretty_N_char d). rewrite list_ascii_of_string_app. cbn [String.list_ascii_of_string].
  split; [apply last_snoc|]. assert (Hd : (N.to_nat d < 10)%nat) by (pose proof (N.mod_lt (N.pos x) 10); lia).
  rewrite <-(N2Nat.id d). revert Hd. generalize (N.to_nat d). intros k Hk. clear d.
  do 10 (destruct k as [|k]; [vm_compute; reflexivity|]). lia.
Qed.

Lemma indexed_trimmed p m q (n : nat) :
  firm_key p "_" = true → TrimSpace (p +:+ m +:+ q +:+ pretty (Z.of_nat n)) = p +:+ m +:+ q +:+ pretty (Z.of_nat n).
Proof.
  intros Hp. apply TrimSpace_firm. destruct (pretty_last_firm n) as (a & Ha & Hf). unfold firm_key in *.
  destruct (head _); [|done]. apply andb_prop in Hp as [-> _]. rewrite list_ascii_of_string_app.
  rewrite last_app, Ha. done.
Qed.

Lemma binding_id_trimmed job i : TrimSpace (binding_id job i) = binding_id job i.
Proof. by apply indexed_trimmed. Qed.

Lemma binding_id_inj job i j : binding_id job i = binding_id job j → i = j.
Proof. intros E%append_inj_l%append_inj_l%append_inj_l%(inj pretty). by apply Nat2Z.inj. Qed.

(** ** Delivering *)

Section delivery.
Context `{Codec} `{ApprovalCodec} `{PayloadCodec} `{Digest} `{Formatting} `{MapRange} `{Clock} {X : Type} `{Actors X}
  `{AssetStore X}.
Context (ba : StoryboardBindingAdapter) (lawful : LawfulActors (X := X)).
Implicit Types (w : rworld X) (job : GenerationJob).

(** The stores have come from empty ones by their own commands. *)
Definition all_reachable w : Prop := stores_reachable w ∧ approval_reachable (approvals_of w).

Lemma all_reachable_moves may w w' : rtc (move may) w w' → all_reachable w → all_reachable w'.
Proof.
  intros Hm%(moves_everything lawful) [Hs Ha].
  split; [by eapply stores_reachable_moves|by eapply approvals_reachable_moves].
Qed.

Lemma moves_actors may w : rtc (move may) w (actors w).2.
Proof. by apply rtc_once, by_actors. Qed.

(** Asset number [i] of the job is bound, and under review if it has to be. *)
Definition delivered job (sid : string) (review : bool) (i : nat) (asset : string) w : Prop :=
  (binding_id job i, asset) ∈ bound (rw_boards w) sid ∧
  (review = true → is_Some (approvals (rw_approvals w) !! TrimSpace ("approval:" +:+ binding_id job i))).

Lemma bound_kept may sid x w w' :
  rtc (move may) w w' → all_reachable w → x ∈ bound (rw_boards w) sid → x ∈ bound (rw_boards w') sid.
Proof.
  intros Hm%(moves_everything lawful) [[Hr _] _]. unfold bound.
  destruct (mr_aggregates (rw_boards w) !! _) as [a|] eqn:Ha; [|by intros ?%elem_of_nil].
  destruct (future_follows _ _ _ _ Hr (runs_boards _ _ _ Hm) Ha) as (a' & Ha' & [Fb _ _] & _). cbn [boards_of bw_repo] in Ha'.
  rewrite Ha'. intros (b & -> & [i Hb]%list_elem_of_lookup)%list_elem_of_fmap.
  destruct (Fb i b Hb) as (b' & Hb' & Eb & _). apply list_elem_of_fmap. exists b'.
  split; [by rewrite Eb|by apply list_elem_of_lookup; exists i].
Qed.

Lemma approval_kept may id w w' :
  rtc (move may) w w' → all_reachable w → is_Some (approvals (rw_approvals w) !! id) → is_Some (approvals (rw_approvals w') !! id).
Proof.
  intros Hm%(moves_everything lawful) [_ Hr] [a Ha].
  destruct (ah_approvals _ _ (run_history _ _ Hr (runs_approvals _ _ _ Hm)) _ _ Ha) as (a' & Ha' & _). by exists a'.
Qed.

Lemma delivered_kept may job sid review i asset w w' :
  rtc (move may) w w' → all_reachable w → delivered job sid review i asset w → delivered job sid review i asset w'.
Proof.
  intros Hm Hr [Hb Ha]. split; [by eapply bound_kept|]. intros Hrev. eapply approval_kept; eauto.
Qed.

(** *** What the parts of a delivery may touch *)

Lemma does_outside may {A} (c : Eff X A) : may POutside → does may (on_assets c).
Proof.
  intros Hm. apply does_call. intros w a w'. destruct (c _) as [b x]. intros [= _ <-].
  replace (w <| rw_ext := x |>) with ((w <| rw_jobs := rw_jobs w |>) <| rw_ext := x |>) by (by destruct w).
  by apply move_outside.
Qed.
Lemma board_query may sid : does may (on_boards (GetAggregate sid)).
Proof. apply query_aggregate. Qed.
Lemma spec_query may sid : does may (on_specs (SpecStore.GetConfirmedBySession sid)).
Proof. apply query_confirmed. Qed.
Lemma approval_query may id : does may (on_approvals (ApprovalStore.Get id)).
Proof. apply query_approval. Qed.
Lemma call_Bind may c : may PBoards → does may (on_boards (Bind c)).
Proof. intros Hm. apply does_boards; [done|]. by apply (board_call (CallBind c)). Qed.
Lemma call_Create may a : may PApprovals → does may (on_approvals (ApprovalStore.Create a)).
Proof. intros Hm. apply does_approvals; [done|]. by apply (approval_call (ACreate a)). Qed.
Hint Resolve does_outside board_query spec_query approval_query call_Bind call_Create : does.

Lemma does_matches may a : does may (specMatchesStoryboard ba a).
Proof. unfold specMatchesStoryboard. does_tac. Qed.
Hint Resolve does_matches : does.
Lemma does_check_slot may token : does may (check_slot ba token).
Proof. unfold check_slot. does_tac. Qed.
Lemma does_check_assembly may token : does may (check_assembly ba token).
Proof. unfold check_assembly. does_tac. Qed.
Hint Resolve does_check_slot does_check_assembly : does.
Lemma does_Check may token : does may (Check ba token).
Proof. unfold Check. does_tac. Qed.
Hint Resolve does_Check : does.
Lemma does_guard may token : does may (commit_guard ba token).
Proof. unfold commit_guard. does_tac. Qed.
Lemma does_publish may ids : may POutside → does may (publish_assets ids).
Proof. intros Hm. induction ids as [|id ids IH]; cbn [publish_assets]; does_tac. Qed.
Lemma does_deliver may input i asset : may PBoards → may PApprovals → does may (deliver_asset ba input i asset).
Proof. intros Hb Ha. unfold deliver_asset. does_tac. Qed.
Hint Resolve does_guard does_publish does_deliver : does.
Lemma does_delivers may input ids : may PBoards → may PApprovals → ∀ i, does may (deliver_assets ba input i ids).
Proof. intros Hb Ha. induction ids as [|id ids IH]; intros i; cbn [deliver_assets]; does_tac. Qed.
Hint Resolve does_delivers : does.
Lemma does_commit may input : may PBoards → may PApprovals → may POutside → does may (commit ba input).
Proof. intros Hb Ha Ho. unfold commit. does_tac. Qed.

(** *** One asset *)

(** Whatever is bound under the ids of the job is its result. *)
Definition own_bindings job (sid : string) (ids : list string) w : Prop :=
  ∀ i asset, (binding_id job i, asset) ∈ bound (rw_boards w) sid → ids !! i = Some asset.

Lemma only_in l p : bool_decide (p ∈ l) = true → only l p.
Proof. by rewrite bool_decide_eq_true. Qed.

Lemma not_only l p : bool_decide (p ∈ l) = false → ¬ only l p.
Proof. by rewrite bool_decide_eq_false. Qed.

Lemma own_kept may job sid ids w w' :
  (∀ w, own_bindings job sid ids w → own_bindings job sid ids (actors w).2) → ¬ may PBoards →
  rtc (move may) w w' → own_bindings job sid ids w → own_bindings job sid ids w'.
Proof.
  intros Hothers Hmay. induction 1 as [|w w1 w' [->|Hm] _ IH]; intros Hown; [done|by apply IH, Hothers|].
  apply IH. destruct (runs_kept may w w1 (rtc_once _ _ Hm)) as (_ & _ & _ & _ & [?|E] & _); [done|].
  unfold own_bindings. by rewrite E.
Qed.

Lemma Create_Ok requested (v : ApprovalStore.aworld unit) r v' :
  approval_inv (aw_store v) → ApprovalStore.Create requested v = (Ok r, v') →
  is_Some (approvals (aw_store v') !! TrimSpace (ap_ID requested)).
Proof.
  intros Hi. unfold ApprovalStore.Create, bind at 1 2, a_now.
  destruct (normalizeApproval _ _ _) as [a|e] eqn:En; [|done].
  assert (Hid : ap_ID a = TrimSpace (ap_ID requested) ∧ ap_ID a ≠ "").
  { revert En. unfold normalizeApproval. cbv zeta. destruct (_ || _) eqn:Hb; [done|].
    repeat (case_match; try done); intros [= <-]; (split; [done|]);
    do 3 apply orb_false_iff in Hb as [Hb _]; by apply bool_decide_eq_false in Hb. }
  destruct Hid as [Hid Hne]. unfold bind, a_get. cbn [aw_store]. rewrite Hid.
  destruct (approvals _ !! TrimSpace (ap_ID requested)) as [b|] eqn:Eb.
  - destruct (negb _); [done|]. intros [_ <-]%answer_inj. cbn [aw_store]. by rewrite Eb.
  - destruct (approvalByCreateKey _ !! _) as [k|] eqn:Ek.
    + destruct (ai_create _ Hi _ _ Ek) as (b & Hb & _). rewrite Hb. cbn [default from_option].
      destruct (ai_approval _ Hi _ _ Hb) as (Hk & _). change (Datatypes.id b) with b.
      case_bool_decide as E; [|done]. exfalso. congruence.
    + destruct (if isPrimaryReviewApproval a then _ else None); [done|].
      unfold a_commit, bind, a_put, ret. intros [_ <-]%answer_inj. cbn. by rewrite lookup_insert_eq.
Qed.

Lemma bind_named input aggregate i asset :
  bc_BindingID (bind_command input aggregate i asset) = binding_id (fc_Job input) i ∧
  TrimSpace (bc_CommandID (bind_command input aggregate i asset)) ≠ "".
Proof. split; [done|]. cbn [bind_command bc_CommandID]. by rewrite indexed_trimmed. Qed.

Lemma bound_trimmed r sid : bound r (TrimSpace sid) = bound r sid.
Proof. unfold bound. by rewrite TrimSpace_idem. Qed.

Lemma Bind_delivers input aggregate i asset ids w r w' sid :
  all_reachable w → own_bindings (fc_Job input) sid ids (actors w).2 → ag_ID aggregate = TrimSpace sid →
  ids !! i = Some asset → TrimSpace asset = asset →
  on_boards (Bind (bind_command input aggregate i asset)) w = (Ok r, w') →
  (binding_id (fc_Job input) i, asset) ∈ bound (rw_boards w') sid ∧ own_bindings (fc_Job input) sid ids w'.
Proof.
  intros Hr Hown Hid Hi Htrim (v & E & ->)%on_boards_inv. destruct r as [updated d].
  assert (Hr1 : all_reachable (actors w).2) by (eapply (all_reachable_moves everything), Hr; apply moves_actors).
  destruct (bind_named input aggregate i asset) as [Hb Hc].
  apply Bind_Ok in E; [|apply Hr1|exact Hc]. rewrite Hb in E.
  change (bc_StoryboardID (bind_command input aggregate i asset)) with (ag_ID aggregate) in E.
  change (bc_AssetID (bind_command input aggregate i asset)) with asset in E.
  rewrite Hid, !bound_trimmed, binding_id_trimmed, Htrim in E. unfold own_bindings in *. cbn [rw_boards with_boards update_field eta_rworld].
  destruct E as [[-> [other Hin]]| ->].
  - split; [|exact Hown]. pose proof (Hown _ _ Hin) as E. assert (other = asset) as -> by congruence. exact Hin.
  - split; [apply elem_of_app; right; by apply list_elem_of_singleton|].
    intros j other [Hin|Hin%list_elem_of_singleton]%elem_of_app; [by apply Hown|].
    apply pair_equal_spec in Hin as [Hj ->]. by apply binding_id_inj in Hj as ->.
Qed.

Definition reviewed_by (input : FinalizationCommit) : bool :=
  bool_decide (fc_ApprovalPolicy input = ApprovalReviewRequired).

Section input.
Context (input : FinalizationCommit) (ids : list string).
#[local] Notation job := (fc_Job input).
#[local] Notation sid := (k_StoryboardID (fc_BindingToken input)).
Context (others : ∀ w, own_bindings job sid ids w → own_bindings job sid ids (actors w).2).

Lemma deliver_one i asset w w' :
  all_reachable w → own_bindings job sid ids w → ids !! i = Some asset → TrimSpace asset = asset →
  deliver_asset ba input i asset w = (Ok tt, w') →
  delivered job sid (reviewed_by input) i asset w' ∧ own_bindings job sid ids w'.
Proof.
  intros Hr Hown Hi Htrim. unfold deliver_asset. unfold bind_ok at 1.
  destruct (on_boards (GetAggregate sid) w) as [[aggregate|e] w1] eqn:E1; [|done].
  pose proof (board_query (only []) _ _ _ _ E1) as M1.
  pose proof (proj1 (current_aggregate lawful _ _ _ _ (proj1 Hr) E1)) as Hid.
  apply (all_reachable_moves _ _ _ M1) in Hr.
  pose proof (own_kept _ _ _ _ _ _ others (not_only [] PBoards eq_refl) M1 Hown) as Hown1.
  unfold bind_ok at 1. destruct (on_boards (Bind _) w1) as [[[updated d]|e] w2] eqn:E2; [|done].
  pose proof (call_Bind everything _ I _ _ _ E2) as M2.
  destruct (Bind_delivers input aggregate i asset ids w1 (updated, d) w2 sid) as [Hb Hown2]; [done|by apply others|done..|].
  apply (all_reachable_moves _ _ _ M2) in Hr. case_bool_decide; [done|].
  unfold delivered, reviewed_by. case_bool_decide as Hrev.
  - destruct (negb _); [done|]. unfold bind_ok.
    destruct (on_approvals (ApprovalStore.Create _) w2) as [[created|e] w3] eqn:E3; [|done].
    pose proof (call_Create (only [PApprovals]) _ ltac:(unfold only; set_solver) _ _ _ E3) as M3.
    unfold ret. intros Heq. apply pair_equal_spec in Heq as [_ <-].
    split; [|exact (own_kept _ _ _ _ _ _ others (not_only [PApprovals] PBoards eq_refl) M3 Hown2)].
    split; [by eapply bound_kept|]. intros _. apply on_approvals_inv in E3 as (v & E3 & ->).
    eapply Create_Ok in E3; [exact E3|]. apply approval_reachable_inv.
    by apply (all_reachable_moves everything w2), Hr; apply moves_actors.
  - unfold ret. intros Heq. apply pair_equal_spec in Heq as [_ <-]. by split.
Qed.

Lemma deliver_all rest : ∀ i w w',
  all_reachable w → own_bindings job sid ids w →
  (∀ k asset, rest !! k = Some asset → ids !! (i + k)%nat = Some asset ∧ TrimSpace asset = asset) →
  deliver_assets ba input i rest w = (Ok tt, w') →
  ∀ k asset, rest !! k = Some asset → delivered job sid (reviewed_by input) (i + k) asset w'.
Proof.
  induction rest as [|first rest IH]; intros i w w' Hr Hown Hids E k asset Hk; [done|]. cbn [deliver_assets] in E.
  unfold bind_ok in E. destruct (deliver_asset ba input i first w) as [[[]|e] w1] eqn:E1; [|done].
  destruct (Hids 0%nat first eq_refl) as [Hi Ht]. rewrite Nat.add_0_r in Hi.
  destruct (deliver_one i first w w1 Hr Hown Hi Ht E1) as [Hd Hown1].
  apply (does_deliver everything) in E1; [|done..]. apply (all_reachable_moves _ _ _ E1) in Hr.
  destruct k as [|k].
  - injection Hk as <-. rewrite Nat.add_0_r.
    eapply delivered_kept; [eapply (does_delivers everything), E; done|exact Hr|exact Hd].
  - rewrite <-Nat.add_succ_comm. eapply IH; [exact Hr|exact Hown1| |exact E|exact Hk].
    intros k' a' Hk'. rewrite Nat.add_succ_comm. by apply Hids.
Qed.
End input.

(** ** Recognising a delivery *)

Definition needs_review job : bool :=
  bool_decide (p_ApprovalPolicy (DeliveryPolicy_Normalize (j_DeliveryPolicy job)) = ApprovalReviewRequired) && ba_Approvals ba.

Definition has_binding (a : StoryboardAggregate) (id asset : string) : bool :=
  existsb (fun b => bool_decide (bd_ID b = id) && bool_decide (bd_AssetID b = asset)) (ag_Bindings a).

Lemma has_binding_names a id asset : has_binding a id asset = true ↔ (id, asset) ∈ names a.
Proof.
  unfold has_binding, names. rewrite existsb_exists, list_elem_of_fmap. split.
  - intros (b & Hb%list_elem_of_In & [<-%bool_decide_eq_true <-%bool_decide_eq_true]%andb_prop). by exists b.
  - intros (b & E & Hb). exists b. injection E as -> ->. by rewrite !bool_decide_true, <-list_elem_of_In.
Qed.

Lemma Get_present id (v : ApprovalStore.aworld unit) a :
  approvals (aw_store v) !! TrimSpace id = Some a → ApprovalStore.Get id v = (Ok a, v).
Proof. intros Ha. unfold ApprovalStore.Get, bind, a_get. by rewrite Ha. Qed.

Lemma does_asset_delivered may job asset : may POutside → does may (asset_delivered job asset).
Proof. intros Hm. unfold asset_delivered. does_tac. Qed.
Hint Resolve does_asset_delivered : does.
Lemma does_assets_delivered may job ids : may POutside → does may (assets_delivered job ids).
Proof. intros Hm. induction ids as [|id ids IH]; cbn [assets_delivered]; unfold and_then; does_tac. Qed.
Lemma does_binding_delivered may job a i asset : does may (binding_delivered ba job a i asset).
Proof. unfold binding_delivered. does_tac. Qed.
Hint Resolve does_binding_delivered : does.
Lemma does_bindings_delivered may job a ids : ∀ i, does may (bindings_delivered ba job a i ids).
Proof. induction ids as [|id ids IH]; intros i; cbn [bindings_delivered]; unfold and_then; does_tac. Qed.
Hint Resolve does_assets_delivered does_bindings_delivered : does.

(** One binding is recognised exactly when it is on record. *)
Lemma binding_recognised job a i asset w :
  all_reachable w → (binding_id job i, asset) ∈ names a →
  (needs_review job = true → is_Some (approvals (rw_approvals w) !! TrimSpace ("approval:" +:+ binding_id job i))) →
  (binding_delivered ba job a i asset w).1 = Ok true.
Proof.
  intros Hr Hn%has_binding_names Ha. unfold binding_delivered. fold (has_binding a (binding_id job i) asset). rewrite Hn.
  cbn [negb]. fold (needs_review job). destruct (needs_review job); [|done].
  destruct (approval_kept everything _ _ _ (moves_actors everything w) Hr (Ha eq_refl)) as [b Hb].
  unfold bind at 1, on_approvals, bind. destruct (actors w) as [u w1]. cbn [snd] in Hb.
  by rewrite (Get_present _ (mkAWorld (rw_approvals w1) (rw_reads w1) tt) b Hb).
Qed.

Lemma binding_on_record job a i asset w w' :
  all_reachable w → binding_delivered ba job a i asset w = (Ok true, w') →
  (binding_id job i, asset) ∈ names a ∧
  (needs_review job = true → is_Some (approvals (rw_approvals w') !! TrimSpace ("approval:" +:+ binding_id job i))).
Proof.
  intros Hr. unfold binding_delivered. fold (has_binding a (binding_id job i) asset).
  destruct (has_binding _ _ _) eqn:Hn; [|done]. apply has_binding_names in Hn. cbn [negb]. fold (needs_review job).
  destruct (needs_review job); [|done]. unfold bind at 1.
  destruct (on_approvals _ w) as [[b|e] w1] eqn:E1; [|by destruct (errors_Is _ _)].
  unfold ret. intros Heq. apply pair_equal_spec in Heq as [_ <-]. split; [done|]. intros _.
  apply on_approvals_inv in E1 as (v & E1 & ->). revert E1. unfold ApprovalStore.Get, bind, a_get.
  destruct (approvals _ !! _) as [c|] eqn:Ec; [|done]. intros [_ <-]%answer_inj. cbn. by exists c.
Qed.

Lemma bindings_recognised job a rest : ∀ i w,
  all_reachable w →
  (∀ k asset, rest !! k = Some asset → (binding_id job (i + k), asset) ∈ names a ∧
     (needs_review job = true → is_Some (approvals (rw_approvals w) !! TrimSpace ("approval:" +:+ binding_id job (i + k))))) →
  (bindings_delivered ba job a i rest w).1 = Ok true.
Proof.
  induction rest as [|first rest IH]; intros i w Hr Hall; [done|]. cbn [bindings_delivered].
  destruct (Hall 0%nat first eq_refl) as [Hn Ha]. rewrite Nat.add_0_r in Hn, Ha.
  pose proof (binding_recognised job a i first w Hr Hn Ha) as E. unfold and_then, bind_ok.
  destruct (binding_delivered ba job a i first w) as [r w1] eqn:E1. cbn [fst] in E. subst r.
  apply (does_binding_delivered everything) in E1. apply IH; [by eapply all_reachable_moves|].
  intros k asset Hk. rewrite Nat.add_succ_comm. destruct (Hall (S k) asset Hk) as [Hn' Ha'].
  split; [done|]. intros Hrev. eapply approval_kept; eauto.
Qed.

Lemma bindings_on_record job a rest : ∀ i w w',
  all_reachable w → bindings_delivered ba job a i rest w = (Ok true, w') →
  ∀ k asset, rest !! k = Some asset → (binding_id job (i + k), asset) ∈ names a ∧
    (needs_review job = true → is_Some (approvals (rw_approvals w') !! TrimSpace ("approval:" +:+ binding_id job (i + k)))).
Proof.
  induction rest as [|first rest IH]; intros i w w' Hr E k asset Hk; [done|]. cbn [bindings_delivered] in E.
  unfold and_then, bind_ok in E. destruct (binding_delivered ba job a i first w) as [[[]|e] w1] eqn:E1; [|done|done].
  pose proof (binding_on_record _ _ _ _ _ _ Hr E1) as [Hn Ha].
  apply (does_binding_delivered everything) in E1. apply (all_reachable_moves _ _ _ E1) in Hr. destruct k as [|k].
  - injection Hk as <-. rewrite Nat.add_0_r. split; [done|]. intros Hrev.
    eapply approval_kept; [eapply (does_bindings_delivered everything), E|done|by apply Ha].
  - rewrite <-Nat.add_succ_comm. by eapply IH.
Qed.

(** *** The aggregate both look at *)

Lemma aggregate_read sid x w :
  all_reachable w → x ∈ bound (rw_boards w) sid →
  ∃ a w', on_boards (GetAggregate sid) w = (Ok a, w') ∧ names a = bound (rw_boards w') sid ∧ rtc (move everything) w w'.
Proof.
  intros Hr Hx. pose proof (bound_kept everything _ _ _ _ (moves_actors everything w) Hr Hx) as Hx'.
  destruct (on_boards (GetAggregate sid) w) as [r w'] eqn:E. pose proof (board_query everything _ _ _ _ E) as M.
  apply on_boards_inv in E as (v & E & ->). revert Hx' E. unfold GetAggregate, bind, b_get, bound. cbn [boards_of bw_repo].
  destruct (mr_aggregates _ !! _) as [a|] eqn:Ha; [|by intros ?%elem_of_nil]. intros _ [<- <-]%pair_equal_spec.
  exists (Clone a). eexists. split; [done|]. split; [|done]. cbn. by rewrite Ha.
Qed.

Lemma aggregate_answer sid a w w' :
  on_boards (GetAggregate sid) w = (Ok a, w') → names a = bound (rw_boards w') sid.
Proof.
  intros (v & E & ->)%on_boards_inv. revert E. unfold GetAggregate, bind, b_get, bound. cbn [boards_of bw_repo].
  destruct (mr_aggregates _ !! _) as [b|] eqn:Hb; [|done]. intros [<- <-]%answer_inj. cbn. by rewrite Hb.
Qed.

Lemma commit_delivers input ids w w1 :
  (∀ w, own_bindings (fc_Job input) (k_StoryboardID (fc_BindingToken input)) ids w →
     own_bindings (fc_Job input) (k_StoryboardID (fc_BindingToken input)) ids (actors w).2) →
  all_reachable w → own_bindings (fc_Job input) (k_StoryboardID (fc_BindingToken input)) ids w →
  fc_AssetIDs input = ids → Forall (fun id => TrimSpace id = id) ids → assembly (fc_BindingToken input) = false →
  commit ba input w = (Ok tt, w1) →
  ∀ i asset, ids !! i = Some asset →
    delivered (fc_Job input) (k_StoryboardID (fc_BindingToken input)) (reviewed_by input) i asset w1.
Proof.
  intros Hothers Hr Hown Hids Htrim Has. unfold commit. rewrite Has, Hids. unfold bind_ok.
  destruct (commit_guard ba _ w) as [[[]|e] wa] eqn:E1; [|done]. apply (does_guard (only [])) in E1.
  destruct (publish_assets ids wa) as [[[]|e] wb] eqn:E2; [|done].
  apply (does_publish (only [POutside])) in E2; [|unfold only; set_solver].
  pose proof (own_kept _ _ _ _ _ _ Hothers (not_only [] PBoards eq_refl) E1 Hown) as Hown1.
  pose proof (own_kept _ _ _ _ _ _ Hothers (not_only [POutside] PBoards eq_refl) E2 Hown1) as Hown2.
  apply (all_reachable_moves _ _ _ E1) in Hr. apply (all_reachable_moves _ _ _ E2) in Hr.
  intros E3 i asset Hi. refine (deliver_all input ids Hothers ids 0%nat wb w1 Hr Hown2 _ E3 i asset Hi).
  intros k other Hk. split; [done|]. by apply (Forall_lookup_1 _ _ _ _ Htrim Hk).
Qed.
End delivery.

Section theorems.
Context `{Codec} `{ApprovalCodec} `{PayloadCodec} `{Digest} `{Formatting} `{MapRange} `{Clock} {X : Type} `{Actors X}
  `{AssetStore X}.
Context (lawful : LawfulActors (X := X)).
Implicit Types (w : rworld X) (job : GenerationJob) (ba : StoryboardBindingAdapter).

(** C14. A delivery is recognised ever after.  Once [commit] has succeeded for a job, then
    whatever services and other actors do from then on, [IsCommitted] says yes for the
    same job and assets, as long as the assets themselves are still found available: the
    bindings are found in the storyboard and, if the policy asks for a review, so are
    their approvals.  It is enough that nobody else binds other assets under
    the ids of the job's bindings. *)
Theorem delivery_is_recognised ba ba' input job w w1 w2 :
  let ids := fc_AssetIDs input in let sid := k_StoryboardID (fc_BindingToken input) in
  all_reachable w → own_bindings (fc_Job input) sid ids w →
  (∀ w, own_bindings (fc_Job input) sid ids w → own_bindings (fc_Job input) sid ids (actors w).2) →
  Forall (fun id => TrimSpace id = id) ids → ids ≠ [] →
  commit ba input w = (Ok tt, w1) → runtime_future w1 w2 →
  j_ID job = j_ID (fc_Job input) → j_BindingToken job = fc_BindingToken input →
  p_ApprovalPolicy (DeliveryPolicy_Normalize (j_DeliveryPolicy job)) = fc_ApprovalPolicy input →
  ba_Assets ba' = true → ba_Repository ba' = true → (assets_delivered job ids w2).1 = Ok true →
  (IsCommitted ba' job ids w2).1 = Ok true.
Proof.
  intros ids sid Hr Hown Hothers Htrim Hne E Hf Hid Htok Hpol Hba Hrepo Hassets.
  pose proof (does_commit ba everything input I I I _ _ _ E) as M1. unfold IsCommitted.
  rewrite Hba, (bool_decide_eq_false_2 _ Hne). cbn [negb orb]. unfold and_then, bind_ok.
  destruct (assets_delivered job ids w2) as [r w3] eqn:E3. cbn [fst] in Hassets. subst r. rewrite Htok.
  destruct (assembly (fc_BindingToken input)) eqn:Has; [done|]. rewrite Hrepo. cbn [negb].
  pose proof (commit_delivers ba lawful input ids w w1 Hothers Hr Hown eq_refl Htrim Has E) as Hd.
  assert (M : rtc (rmove everything) w1 w3).
  { etrans; [exact (future_moves lawful _ _ Hf)|].
    by eapply (moves_everything lawful everything), (does_assets_delivered everything), E3. }
  assert (M' : rtc (move everything) w1 w3) by (eapply rtc_subrel; [|exact M]; intros ??; by right).
  apply (all_reachable_moves lawful _ _ _ M1) in Hr. pose proof (all_reachable_moves lawful _ _ _ M' Hr) as Hr3.
  assert (Hd3 : ∀ i asset, ids !! i = Some asset → delivered (fc_Job input) sid (reviewed_by input) i asset w3).
  { intros i asset Hi. by eapply delivered_kept, Hd. }
  destruct ids as [|first rest]; [done|]. destruct (Hd3 0%nat first eq_refl) as [Hx _].
  destruct (aggregate_read lawful _ _ _ Hr3 Hx) as (a & w4 & Ea & Hn & M4).
  unfold bind. fold sid. rewrite Ea. apply bindings_recognised; [done|by eapply all_reachable_moves|].
  intros k asset Hk. destruct (Hd3 k asset Hk) as [Hb Ha]. cbn [Nat.add]. unfold binding_id in *. rewrite Hid. split.
  - rewrite Hn. by eapply bound_kept.
  - unfold needs_review. rewrite Hpol. intros [Hrev _]%andb_prop. eapply approval_kept; [done|exact M4|done|by apply Ha].
Qed.

(** The answer that asset [asset] was available and of the job. *)
Definition seen_available job (asset : string) w w' : Prop :=
  ∃ wa stored wb, rtc (move (only [POutside])) w wa ∧ on_assets (asset_Get asset) wa = (Ok stored, wb) ∧
    as_Availability stored = AvailabilityAvailable ∧
    (as_SourceJobID stored = "" ∨ as_SourceJobID stored = j_ID job) ∧ rtc (move (only [POutside])) wb w'.

Lemma outside_allowed : only [POutside] POutside.
Proof. left. Qed.

Lemma assets_seen job ids : ∀ w w', assets_delivered job ids w = (Ok true, w') →
  ∀ asset, asset ∈ ids → seen_available job asset w w'.
Proof.
  induction ids as [|first ids IH]; intros w w' E asset Hin; [by apply elem_of_nil in Hin|]. cbn [assets_delivered] in E.
  unfold and_then, bind_ok in E. destruct (asset_delivered job first w) as [[[]|e] w1] eqn:E1; [|done|done].
  apply elem_of_cons in Hin as [->|Hin].
  - pose proof (does_assets_delivered (only [POutside]) job ids outside_allowed _ _ _ E) as M.
    revert E1. unfold asset_delivered, bind. destruct (on_assets (asset_Get first) w) as [[stored|e] wb] eqn:Eg;
      [|by destruct (errors_Is _ _)].
    unfold ret. intros [Hok <-]%answer_inj. apply andb_prop in Hok as [Hav%bool_decide_eq_true Hsrc].
    exists w, stored, wb. split_and!; try done. by apply orb_prop in Hsrc as [?%bool_decide_eq_true|?%bool_decide_eq_true]; [left|right].
  - destruct (IH w1 w' E asset Hin) as (wa & stored & wb & M & Hrest). exists wa, stored, wb. split; [|exact Hrest].
    etrans; [by eapply (does_asset_delivered (only [POutside])), E1; apply outside_allowed|exact M].
Qed.

(** C15. Only a delivery on record is recognised.  When [IsCommitted] says yes, the result
    is not empty; every asset has been read as available and as one of this job or of
    none; and, unless the job is an assembly, the storyboard holds for every asset the binding of its index,
    with a review of it if the policy of the job asks for one -- and whatever
    services and other actors do from then on, it stays so. *)
Theorem recognised_delivery_is_on_record ba job ids w w1 w2 :
  all_reachable w → IsCommitted ba job ids w = (Ok true, w1) → runtime_future w1 w2 →
  ids ≠ [] ∧ (∀ asset, asset ∈ ids → seen_available job asset w w1) ∧
  (assembly (j_BindingToken job) = false → ∀ i asset, ids !! i = Some asset →
     delivered job (k_StoryboardID (j_BindingToken job)) (needs_review ba job) i asset w2).
Proof.
  intros Hr E Hf. unfold IsCommitted in E. destruct (negb (ba_Assets ba)); [done|].
  case_bool_decide as Hne; [done|]. cbn [orb] in E. split; [done|].
  unfold and_then, bind_ok in E. destruct (assets_delivered job ids w) as [[[]|e] wa] eqn:E1; [|done|done].
  pose proof (does_assets_delivered (only [POutside]) job ids outside_allowed _ _ _ E1) as M1.
  pose proof (assets_seen job ids w wa E1) as Hseen.
  assert (M2 : rtc (move (only [POutside])) wa w1 ∧ (assembly (j_BindingToken job) = false → ∀ i asset, ids !! i = Some asset →
     delivered job (k_StoryboardID (j_BindingToken job)) (needs_review ba job) i asset w1)).
  { apply (all_reachable_moves lawful _ _ _ M1) in Hr. destruct (assembly _); [by injection E as <-|].
    destruct (negb (ba_Repository ba)); [done|]. unfold bind in E.
    destruct (on_boards _ wa) as [[a|e] wb] eqn:E2; [|by destruct (errors_Is _ _)].
    pose proof (board_query (only [POutside]) _ _ _ _ E2) as M2.
    pose proof (does_bindings_delivered ba (only [POutside]) job a ids 0%nat _ _ _ E) as M3.
    pose proof (all_reachable_moves lawful _ _ _ M2 Hr) as Hr2. split; [by etrans|]. intros _ i asset Hi.
    destruct (bindings_on_record ba lawful job a ids 0%nat wb w1 Hr2 E i asset Hi) as [Hn Ha]. split; [|exact Ha].
    rewrite (aggregate_answer _ _ _ _ E2) in Hn. by eapply bound_kept. }
  destruct M2 as [M2 Hd]. split.
  - intros asset Hin. destruct (Hseen asset Hin) as (wx & stored & wy & ? & ? & ? & ? & M3).
    exists wx, stored, wy. split_and!; try done. by etrans.
  - intros Has i asset Hi. eapply (delivered_kept lawful everything); [|eapply (all_reachable_moves lawful), Hr; by etrans|by apply Hd].
    eapply rtc_subrel; [|exact (future_moves lawful _ _ Hf)]. intros ??. by right.
Qed.

(** ** Stale tokens *)

(** The token is the one of the slot, or of the plan to be assembled, as it is now. *)
Definition token_current (token : BindingToken) (a : StoryboardAggregate) : Prop :=
  if assembly token then
    ∃ revision, ActiveRevision a = Ok revision ∧
      BindingToken_Equal token (token <| k_SpecVersion := rv_DerivedFromSpecVersion revision |>
                                      <| k_AggregateVersion := ag_Version a |>) = true
  else
    ∃ current, currentBindingToken a (k_TargetID token) (k_AssetSlot token) = (current, true) ∧
      BindingToken_Equal token current = true.

Definition found_current (token : BindingToken) w w' : Prop :=
  ∃ wa a wb, rtc (move (only [])) w wa ∧ on_boards (GetAggregate (k_StoryboardID token)) wa = (Ok a, wb) ∧
    token_current token a ∧ rtc (move (only [])) wb w'.

Lemma guard_passes ba token w w' : commit_guard ba token w = (Ok tt, w') → found_current token w w'.
Proof.
  unfold commit_guard, found_current, token_current. destruct (assembly token) eqn:Has.
  - unfold bind_ok at 1, Check. destruct (negb (ba_Repository ba)); [done|]. rewrite Has. unfold check_assembly, bind_ok at 1.
    destruct (on_boards _ w) as [[a|e] w1] eqn:E1; [|done]. destruct (ActiveRevision a) as [r|e] eqn:Er; [|done]. cbv zeta.
    unfold bind_ok. destruct (specMatchesStoryboard ba a w1) as [[m|e] w2] eqn:E2; [|done]. unfold ret.
    cbn [bc_TargetExists bc_Matches negb orb]. destruct (m && _) eqn:Hm; [|done]. intros [_ <-]%answer_inj.
    apply andb_prop in Hm as [_ Hm]. exists w, a, w1. split_and!; [done|done|by exists r|by eapply does_matches].
  - destruct (_ || _); [done|]. unfold bind_ok. destruct (on_boards _ w) as [[a|e] w1] eqn:E1; [|done].
    destruct (currentBindingToken a _ _) as [current exists_] eqn:Ec.
    destruct (specMatchesStoryboard ba a w1) as [[m|e] w2] eqn:E2; [|done].
    destruct (negb exists_ || negb m || negb (BindingToken_Equal token current)) eqn:Hm; [done|]. intros [_ <-]%answer_inj.
    apply orb_false_iff in Hm as [[->%negb_false_iff _]%orb_false_iff Hm%negb_false_iff].
    exists w, a, w1. split_and!; [done|done|by exists current|by eapply does_matches].
Qed.

(** C16. A stale result delivers nothing.  Either [commit] is refused without having done
    anything to any store; or the token of the result has been compared, before the
    first change, with the slot -- or the plan, for an assembly -- as it was then and found
    equal.  After that only assets, the storyboard and approvals are touched, and for an
    assembly only assets. *)
Theorem stale_result_delivers_nothing ba input w r w' :
  commit ba input w = (r, w') →
  (∃ err, r = Err err ∧ rtc (move (only [])) w w') ∨
  ∃ w1, found_current (fc_BindingToken input) w w1 ∧
    rtc (move (only (if assembly (fc_BindingToken input) then [POutside] else [POutside; PBoards; PApprovals]))) w1 w'.
Proof.
  unfold commit. unfold bind_ok at 1. destruct (commit_guard ba _ w) as [[[]|err] w1] eqn:E1.
  - intros E. right. exists w1. split; [by eapply guard_passes|].
    assert (Hdoes : does (only (if assembly (fc_BindingToken input) then [POutside] else [POutside; PBoards; PApprovals]))
      (try* _ := publish_assets (fc_AssetIDs input) in
       if assembly (fc_BindingToken input) then ret (Ok tt) else deliver_assets ba input 0 (fc_AssetIDs input))).
    { apply does_bind_ok; [|intros ?]; destruct (assembly _); try apply does_ret;
        first [apply does_publish|apply does_delivers]; by apply only_in. }
    by eapply Hdoes.
  - intros [= <- <-]. left. exists err. split; [done|]. by eapply does_guard.
Qed.
End theorems.

(** ** Recovering a provider's result *)

Definition usable (a : Asset) : bool :=
  bool_decide (as_Availability a = AvailabilityPendingBilling) || bool_decide (as_Availability a = AvailabilityAvailable).

(** The first usable asset at an index. *)
Definition first_at (items : list Asset) (i : Z) : option Asset :=
  List.find (fun a => usable a && (as_OutputIndex a =? i)) items.

Lemma file_output_lookup expected items : ∀ m i, 0 <= i < expected →
  foldl (file_output expected) m items !! i = match m !! i with Some id => Some id | None => as_ID <$> first_at items i end.
Proof.
  induction items as [|a items IH]; intros m i Hi; [cbn; by destruct (m !! i)|]. cbn [foldl]. rewrite IH by done. clear IH.
  unfold first_at. cbn [List.find]. fold (first_at items i).
  assert (Hu : negb (bool_decide (as_Availability a = AvailabilityPendingBilling))
    && negb (bool_decide (as_Availability a = AvailabilityAvailable)) = negb (usable a)).
  { unfold usable. by rewrite negb_orb. }
  unfold file_output. rewrite Hu. destruct (usable a); cbn [negb andb]; [|done].
  destruct (Z.eqb_spec (as_OutputIndex a) i) as [Heq|Hne].
  - rewrite Heq. assert ((i <? 0) || (expected <=? i) = false) as -> by lia.
    destruct (m !! i) as [id|] eqn:Hm; [by rewrite Hm|]. by rewrite lookup_insert_eq.
  - destruct (_ || _); [done|]. destruct (m !! as_OutputIndex a); [done|]. by rewrite lookup_insert_ne.
Qed.

Lemma omap_ext_in {A B} (f g : A → option B) (l : list A) : (∀ x, x ∈ l → f x = g x) → omap f l = omap g l.
Proof.
  induction l as [|x l IH]; intros Hfg; [done|]. cbn. rewrite (Hfg x) by apply list_elem_of_here.
  by rewrite IH by (intros y Hy; apply Hfg; by apply list_elem_of_further).
Qed.

Lemma omap_complete {A B} (f : A → option B) (l : list A) : (∀ x, x ∈ l → is_Some (f x)) → length (omap f l) = length l.
Proof.
  induction l as [|x l IH]; intros Hf; [done|]. cbn. destruct (Hf x (list_elem_of_here _ _)) as [y ->].
  cbn. f_equal. apply IH. intros z Hz. apply Hf. by apply list_elem_of_further.
Qed.

(** What is recovered of a provider's result.  The assets are, in the order of their
    index, the first one of each index that is usable, that is billed or waiting to be; others
    and those out of range are left out.  The result counts as complete exactly when every
    index the job expects has one, and then there are exactly as many as expected. *)
Theorem recovery_takes_first_of_each_index expected items :
  let '(assetIDs, complete) := recovered_assets expected items in
  assetIDs = omap (fun i => as_ID <$> first_at items i) (seqZ 0 expected) ∧
  (complete = true ↔ ∀ i, 0 <= i < expected → is_Some (first_at items i)) ∧
  (complete = true → Z.of_nat (length assetIDs) = Z.max 0 expected).
Proof.
  unfold recovered_assets. cbv zeta.
  assert (Hl : ∀ i, i ∈ seqZ 0 expected → by_output expected items !! i = as_ID <$> first_at items i).
  { intros i Hi%elem_of_seqZ. unfold by_output. rewrite file_output_lookup by lia. by rewrite lookup_empty. }
  split; [by apply omap_ext_in|]. match goal with |- (?b = true ↔ ?P) ∧ _ => assert (Hc : b = true ↔ P) end.
  { rewrite forallb_forall. split.
    - intros Hall i Hi. assert (Hin : i ∈ seqZ 0 expected) by (apply elem_of_seqZ; lia).
      specialize (Hall i (proj1 (list_elem_of_In _ _) Hin)). apply bool_decide_eq_true in Hall.
      rewrite Hl in Hall by done. by apply fmap_is_Some in Hall.
    - intros Hall i Hin%list_elem_of_In. apply bool_decide_eq_true. rewrite Hl by done. apply fmap_is_Some, Hall.
      apply elem_of_seqZ in Hin. lia. }
  split; [exact Hc|]. intros Hcomplete. pose proof (proj1 Hc Hcomplete) as Hall. rewrite omap_complete.
  - rewrite length_seqZ. lia.
  - intros i Hi. rewrite Hl by done. apply fmap_is_Some, Hall. apply elem_of_seqZ in Hi. lia.
Qed.
