(* ===== verification/BindingWitness.v ===== *)
(** * The delivery of generated media: a concrete run

    Two portraits are delivered to a slot of the sample storyboard, as candidates with
    a review each, and recognised. *)

From Stdlib Require Import ZArith Lia.
From stdpp Require Import relations.
From S2P Require Import Prelude GoJson WorkflowStore GenModels ProviderPolicy Finalization SessionModels SessionStore SessionRuns.
From S2P Require Import ApprovalModels ApprovalStore ApprovalProps ApprovalRuns.
From S2P Require Import Timed SpecStore ArtifactStore ArtifactProps.
From S2P Require Import StoryboardModels StoryboardGraph StoryboardCommand StoryboardRevision StoryboardStore StoryboardRuns.
From S2P Require Import StoryboardWitness ApprovalRuntime ApprovalMoves ApprovalRuntimeProps ApprovalRuntimeWitness.
From S2P Require Import Bindings BindingProps.

Module DeliverySample.
#[export] Existing Instances SessionSample.codec ApprovalSample.requested_codec StoryboardRun.digest
  StoryboardRun.formatting StoryboardRun.ticking StoryboardRun.in_map_order RuntimeSample.payload_codec.

(** A table of assets by their ids. *)
Abbreviation table := (gmap string Asset).
#[export] Instance asset_table : AssetStore table := {|
  asset_Get id := fun m => (match m !! id with Some a => Ok a | None => Err asset_ErrNotFound end, m);
  asset_Save a := fun m => (Ok a, <[as_ID a := a]> m);
  asset_ListBySourceJob := Some (fun id m =>
    (Ok (List.filter (fun a => bool_decide (as_SourceJobID a = id)) (snd <$> map_to_list m)), m))
|}.

(** Nobody interferes. *)
#[export] Instance quiet : Actors table := {| actors := ret tt |}.
Lemma quiet_lawful : LawfulActors (X := table).
Proof. intros w. exact (rtc_refl _ w). Qed.

Definition asset (id : string) (index : Z) : Asset :=
  zeroAsset <| as_ID := id |> <| as_SourceJobID := "job" |> <| as_OutputIndex := index |>
    <| as_Availability := AvailabilityPendingBilling |>.

Definition before : rworld table :=
  mkRWorld ApprovalStore.NewMemoryStore SessionStore.NewMemoryStore SpecStore.NewMemoryStore ArtifactStore.NewMemoryStore
    (bw_repo StoryboardRun.world3) WorkflowStore.NewMemoryStore 0 0
    (<["a1" := asset "a1" 1]> {["a0" := asset "a0" 0]}).

Definition token : BindingToken := (currentBindingToken (StoryboardRun.stored StoryboardRun.world3) "hero" "portrait").1.
Definition job : GenerationJob :=
  zeroGenerationJob <| j_ID := "job" |> <| j_SessionID := "session" |> <| j_UserID := "user" |> <| j_MediaKind := "Image" |>
    <| j_Payload := payload [("n", AInt 2)] |> <| j_BindingToken := token |>
    <| j_DeliveryPolicy := mkDeliveryPolicy BindingModeActive ApprovalReviewRequired "" |>.
Definition delivery : FinalizationCommit :=
  mkFinalizationCommit job ["a0"; "a1"] token BindingModeActive ApprovalReviewRequired.
Definition adapter : StoryboardBindingAdapter := mkStoryboardBindingAdapter true true true true false.

Definition committed_answer : result unit * rworld table := commit adapter delivery before.
Definition after : rworld table := committed_answer.2.
Definition recognised_answer : result bool * rworld table := IsCommitted adapter job ["a0"; "a1"] after.

(** A token of the past is refused. *)
Definition stale : FinalizationCommit :=
  mkFinalizationCommit job ["a0"; "a1"] (token <| k_GenerationEpoch := 7 |>) BindingModeActive ApprovalReviewRequired.
Definition refused_answer : result unit * rworld table := commit adapter stale before.

Example the_run :
  (committed_answer.1, bound (rw_boards after) "sb", as_Availability <$> rw_ext after !! "a1",
   recognised_answer.1, (IsCommitted adapter job ["a0"; "a1"] before).1,
   (IsCommitted adapter job ["a0"; "a0"] after).1,
   as_Availability <$> rw_ext refused_answer.2 !! "a1",
   RecoverProviderResult job before)
  = (Ok tt, [("binding:job:0", "a0"); ("binding:job:1", "a1")], Some AvailabilityAvailable, Ok true, Ok false, Ok false,
     Some AvailabilityPendingBilling, (Ok (recovered_result ["a0"; "a1"] true, true), before)).
Proof. vm_compute. reflexivity. Qed.

(** A delivery that stops half-way cannot be completed: the command that binds an asset
    carries the version of the storyboard as it is then, so that the same delivery made
    again is refused as a different command under the same id. *)
Definition unreviewed : StoryboardBindingAdapter := mkStoryboardBindingAdapter true true true false false.
Definition halfway : result unit * rworld table := commit unreviewed delivery before.

Example redelivery_is_refused :
  (match halfway.1 with Err err => err_text err | Ok _ => "" end, bound (rw_boards halfway.2) "sb",
   match (commit adapter delivery halfway.2).1 with Err err => errors_Is err StoryboardModels.ErrIdempotencyConflict | Ok _ => false end)
  = ("approval store is required for candidate binding", [("binding:job:0", "a0")], true).
Proof. vm_compute. reflexivity. Qed.
End DeliverySample.

Import DeliverySample.
#[local] Existing Instances SessionSample.codec ApprovalSample.requested_codec StoryboardRun.digest
  StoryboardRun.formatting StoryboardRun.ticking StoryboardRun.in_map_order RuntimeSample.payload_codec
  DeliverySample.asset_table DeliverySample.quiet.

Lemma all_before : all_reachable before.
Proof.
  split; [split|].
  - eapply reachable_future; [apply StoryboardRun.reachable3|]. apply rtc_once, (StoryboardRuns.step_outside _ 0 tt).
  - exists (artifacts_of before). split; [reflexivity|apply rtc_refl].
  - exists (approvals_of before). split; [reflexivity|apply rtc_refl].
Qed.

Lemma with_answer {A W} (x : A * W) a : x.1 = a → x = (a, x.2).
Proof. destruct x. by intros [= <-]. Qed.

Lemma nothing_bound : bound (rw_boards before) (k_StoryboardID (fc_BindingToken delivery)) = [].
Proof. vm_compute. reflexivity. Qed.

Lemma committed_before : commit adapter delivery before = (Ok tt, after).
Proof. unfold after, committed_answer. apply with_answer. vm_compute. reflexivity. Qed.

Lemma delivery_is_recognised_witness : (IsCommitted adapter job (fc_AssetIDs delivery) after).1 = Ok true.
Proof.
  apply (delivery_is_recognised quiet_lawful adapter adapter delivery job before after after all_before).
  - intros i asset Hin. rewrite nothing_bound in Hin. by apply elem_of_nil in Hin.
  - intros w Hown. exact Hown.
  - repeat constructor; vm_compute; reflexivity.
  - discriminate.
  - exact committed_before.
  - apply rtc_refl.
  - reflexivity.
  - vm_compute. reflexivity.
  - vm_compute. reflexivity.
  - reflexivity.
  - reflexivity.
  - vm_compute. reflexivity.
Defined.

Lemma recognised_delivery_is_on_record_witness :
  seen_available job "a1" after recognised_answer.2 ∧
  delivered job (k_StoryboardID (j_BindingToken job)) (needs_review adapter job) 1 "a1" recognised_answer.2.
Proof.
  assert (E : IsCommitted adapter job ["a0"; "a1"] after = (Ok true, recognised_answer.2)).
  { unfold recognised_answer. apply with_answer. vm_compute. reflexivity. }
  assert (Hafter : all_reachable after).
  { eapply (all_reachable_moves quiet_lawful everything), all_before. eapply does_commit, committed_before; exact I. }
  destruct (recognised_delivery_is_on_record quiet_lawful adapter job ["a0"; "a1"] after recognised_answer.2
    recognised_answer.2 Hafter E (rtc_refl _ _)) as (_ & Hseen & Hd).
  split.
  - apply Hseen. by apply list_elem_of_further, list_elem_of_here.
  - apply (Hd ltac:(vm_compute; reflexivity) 1%nat "a1"). reflexivity.
Defined.

Lemma stale_result_delivers_nothing_witness :
  (∃ err, (commit adapter stale before).1 = Err err ∧ rtc (move (only [])) before (commit adapter stale before).2) ∨
  ∃ w1, found_current (fc_BindingToken stale) before w1 ∧
    rtc (move (only (if assembly (fc_BindingToken stale) then [POutside] else [POutside; PBoards; PApprovals]))) w1
      (commit adapter stale before).2.
Proof. exact (stale_result_delivers_nothing adapter stale before _ _ (surjective_pairing (commit adapter stale before))). Defined.
