(* ===== verification/EventLog.v ===== *)
(** * The event log of the sessions ([internal/aigc/events])

    [models.go] and [memory_store.go]: the durable log of what the clients of a
    session are shown.  A producer appends an event once, under its own id and under
    the identity of its source; the store numbers the events of a session, and
    [Tail] reads them page by page.  [SessionEvent] is in [SessionModels]; the JSON of a
    payload is the [Codec] there. *)

From Stdlib Require Import ZArith Ascii.
From S2P Require Import Prelude GoJson SessionModels Timed.
From S2P Require SessionStore.

Definition ErrEventNotFound := errors_New "session event not found".
Definition ErrIdempotencyConflict := errors_New "session event idempotency conflict".

Definition ProducerAgentAction := "agent_action".
Definition ProducerRunnerInterrupt := "runner_interrupt".
Definition ProducerDomainProjector := "domain_projector".

Definition MaxEventIDLength : Z := 128.

Record AppendResult := mkAppendResult { al_Event : SessionEvent; al_Appended : bool }.
Record TailOptions := mkTailOptions { to_AfterSeq : Z; to_Limit : Z }.

(** ** [utf8.RuneCountInString]

    A string is decoded from the left; a byte that starts no valid encoding counts
    as one rune. *)

Definition byte_in (lo hi : nat) (b : option ascii) : bool :=
  match b with
  | Some a => (lo <=? nat_of_ascii a)%nat && (nat_of_ascii a <=? hi)%nat
  | None => false
  end.

Definition rune_width (l : list ascii) : nat :=
  let tail k := byte_in 0x80 0xBF (l !! k) in
  match l with
  | [] => 0
  | a :: _ =>
      let n := nat_of_ascii a in
      if byte_in 0xC2 0xDF (Some a) && tail 1%nat then 2
      else if byte_in 0xE0 0xEF (Some a)
              && byte_in (if (n =? 0xE0)%nat then 0xA0 else 0x80) (if (n =? 0xED)%nat then 0x9F else 0xBF) (l !! 1%nat)
              && tail 2%nat then 3
      else if byte_in 0xF0 0xF4 (Some a)
              && byte_in (if (n =? 0xF0)%nat then 0x90 else 0x80) (if (n =? 0xF4)%nat then 0x8F else 0xBF) (l !! 1%nat)
              && tail 2%nat && tail 3%nat then 4
      else 1
  end%nat.

Fixpoint rune_count (fuel : nat) (l : list ascii) : Z :=
  match fuel, l with
  | S fuel', _ :: _ => 1 + rune_count fuel' (drop (rune_width l) l)
  | _, _ => 0
  end.

Definition RuneCountInString (s : string) : Z :=
  let l := String.list_ascii_of_string s in rune_count (length l) l.

(** ** [sort.Search] *)

Fixpoint search_loop (fuel : nat) (f : nat → bool) (i j : nat) : nat :=
  match fuel with
  | O => i
  | S fuel' =>
      if (i <? j)%nat then
        let h := ((i + j) / 2)%nat in
        if f h then search_loop fuel' f i h else search_loop fuel' f (h + 1) j
      else i
  end.

Definition sort_Search (n : nat) (f : nat → bool) : nat := search_loop n f 0 n.

(** ** Events *)

(** A payload is its bytes: a copy is the same value. *)
Definition cloneEvent (event : SessionEvent) : SessionEvent := event.

Definition normalizeTailLimit (limit : Z) : Z :=
  if limit <=? 0 then 100 else if 1000 <? limit then 1000 else limit.

Definition sourceIdentity (event : SessionEvent) : string :=
  ev_SessionID event +:+ nul +:+ ev_ProducerKind event +:+ nul +:+ ev_SourceKey event +:+ nul
  +:+ pretty (ev_ProjectionIndex event).

Section events.
Context `{Codec}.

Definition trimmed_event (event : SessionEvent) : SessionEvent :=
  let event := event <| ev_SessionID := TrimSpace (ev_SessionID event) |> in
  let event := event <| ev_EventID := TrimSpace (ev_EventID event) |> in
  let event := event <| ev_EventType := TrimSpace (ev_EventType event) |> in
  let event := event <| ev_ProducerKind := TrimSpace (ev_ProducerKind event) |> in
  let event := event <| ev_SourceKey := TrimSpace (ev_SourceKey event) |> in
  let event := event <| ev_SurfaceID := TrimSpace (ev_SurfaceID event) |> in
  event <| ev_DataModelKey := TrimSpace (ev_DataModelKey event) |>.

Definition normalizeEvent (event : SessionEvent) : result SessionEvent :=
  let event := trimmed_event event in
  if bool_decide (ev_SessionID event = "") then Err (Errorf "session id is required")
  else if bool_decide (ev_EventID event = "") then Err (Errorf "event id is required")
  else if MaxEventIDLength <? RuneCountInString (ev_EventID event)
  then Err (Errorf ("event id cannot exceed " +:+ pretty MaxEventIDLength +:+ " characters"))
  else if bool_decide (ev_EventType event = "") then Err (Errorf "event type is required")
  else if bool_decide (ev_ProducerKind event = "") then Err (Errorf "producer kind is required")
  else if bool_decide (ev_SourceKey event = "") then Err (Errorf "source key is required")
  else if ev_ProjectionIndex event <? 0 then Err (Errorf "projection index cannot be negative")
  else
    let event := if bool_decide (ev_Payload event = "") then event <| ev_Payload := "{}" |> else event in
    if negb (json_Valid (ev_Payload event)) then Err (Errorf "event payload must be valid JSON")
    else Ok (event <| ev_Seq := 0 |> <| ev_CreatedAt := zeroTime |>).

Definition sameIdentity (existing requested : SessionEvent) : bool :=
  bool_decide (ev_SessionID existing = ev_SessionID requested)
  && bool_decide (ev_EventID existing = ev_EventID requested)
  && bool_decide (ev_EventType existing = ev_EventType requested)
  && bool_decide (ev_ProducerKind existing = ev_ProducerKind requested)
  && bool_decide (ev_SourceKey existing = ev_SourceKey requested)
  && (ev_ProjectionIndex existing =? ev_ProjectionIndex requested)
  && bool_decide (ev_SurfaceID existing = ev_SurfaceID requested)
  && bool_decide (ev_DataModelKey existing = ev_DataModelKey requested)
  && SessionStore.jsonEqual (ev_Payload existing) (ev_Payload requested).
End events.

(** ** The store *)

Record MemoryStore := mkMemoryStore {
  counters : gmap string Z;
  byEvent : gmap string SessionEvent;
  bySource : gmap string SessionEvent;
  bySession : gmap string (list SessionEvent)
}.
#[global] Instance eta_MemoryStore : Eta MemoryStore := fun r =>
  mkMemoryStore (counters r) (byEvent r) (bySource r) (bySession r).

Definition NewMemoryStore : MemoryStore := mkMemoryStore ∅ ∅ ∅ ∅.

Definition counter_of (s : MemoryStore) (sessionID : string) : Z := default 0 (counters s !! sessionID).
Definition rows_of (s : MemoryStore) (sessionID : string) : list SessionEvent :=
  default [] (bySession s !! sessionID).

(** The event with the number and the time the store gives it. *)
Definition numbered_event (s : MemoryStore) (event : SessionEvent) (now : Time) : SessionEvent :=
  event <| ev_Seq := incr (counter_of s (ev_SessionID event)) |> <| ev_CreatedAt := now |>.

Definition filed_event (s : MemoryStore) (event : SessionEvent) : MemoryStore :=
  let sid := ev_SessionID event in
  mkMemoryStore (<[sid := ev_Seq event]> (counters s)) (<[ev_EventID event := cloneEvent event]> (byEvent s))
    (<[sourceIdentity event := cloneEvent event]> (bySource s))
    (<[sid := rows_of s sid ++ [cloneEvent event]]> (bySession s)).

Section memory_store.
Context `{Codec} `{Clock}.

(** The event that is on record, if it is the one requested. *)
Definition replayed (existing event : SessionEvent) (what : string) : Eff (timed MemoryStore) (result AppendResult) :=
  if negb (sameIdentity existing event) then fail (Wrapf "" ErrIdempotencyConflict what)
  else ret (Ok (mkAppendResult (cloneEvent existing) false)).

Definition AppendSessionEventOnce (event : SessionEvent) : Eff (timed MemoryStore) (result AppendResult) :=
  match normalizeEvent event with
  | Err err => fail err
  | Ok event =>
      let* s := t_get in
      match byEvent s !! ev_EventID event with
      | Some existing => replayed existing event (": event_id=" +:+ ev_EventID event)
      | None =>
          match bySource s !! sourceIdentity event with
          | Some existing => replayed existing event (": source_key=" +:+ ev_SourceKey event)
          | None =>
              let* now := t_now in
              let event := numbered_event s event now in
              t_commit (filed_event s event) (mkAppendResult (cloneEvent event) true)
          end
      end
  end.

Definition GetByEventID (eventID : string) : Eff (timed MemoryStore) (result SessionEvent) :=
  let* s := t_get in
  match byEvent s !! TrimSpace eventID with
  | None => fail (Wrapf "" ErrEventNotFound (": event_id=" +:+ eventID))
  | Some event => ret (Ok (cloneEvent event))
  end.

(** The rows of a page: [rows[start:end]]. *)
Definition page (rows : list SessionEvent) (afterSeq limit : Z) : list SessionEvent :=
  let start := sort_Search (length rows) (fun i => match rows !! i with
                 | Some row => afterSeq <? ev_Seq row | None => false end) in
  let end_ := Nat.min (length rows) (start + Z.to_nat limit) in
  cloneEvent <$> take (end_ - start) (drop start rows).

Definition Tail (sessionID : string) (options : TailOptions) : Eff (timed MemoryStore) (result (list SessionEvent)) :=
  let sessionID := TrimSpace sessionID in
  if bool_decide (sessionID = "") then fail (Errorf "session id is required")
  else
    let limit := normalizeTailLimit (to_Limit options) in
    let* s := t_get in
    ret (Ok (page (rows_of s sessionID) (to_AfterSeq options) limit)).

Definition CurrentSeq (sessionID : string) : Eff (timed MemoryStore) (result Z) :=
  let sessionID := TrimSpace sessionID in
  if bool_decide (sessionID = "") then fail (Errorf "session id is required")
  else let* s := t_get in ret (Ok (counter_of s sessionID)).
End memory_store.
