(* ===== verification/EventLogProps.v ===== *)
(** * The event log: one number each, once

    The invariant of the log, what its methods change, and the theorems about
    appending and about reading page by page. *)

From Stdlib Require Import ZArith Lia Ascii.
From stdpp Require Import relations.
From S2P Require Import Prelude GoJson SessionModels Timed EventLog.
From S2P Require SessionStore SessionRuns.

(** ** [sort.Search] finds the first index *)

Lemma search_loop_spec (f : nat → bool) n fuel i j :
  (i ≤ j)%nat → (j ≤ n)%nat → (j - i ≤ fuel)%nat →
  (∀ a b, (a ≤ b)%nat → (b < n)%nat → f a = true → f b = true) →
  (∀ a, (a < i)%nat → f a = false) → (∀ a, (j ≤ a)%nat → (a < n)%nat → f a = true) →
  let k := search_loop fuel f i j in
  (k ≤ n)%nat ∧ (∀ a, (a < k)%nat → f a = false) ∧ (∀ a, (k ≤ a)%nat → (a < n)%nat → f a = true).
Proof.
  revert i j. induction fuel as [|fuel IH]; intros i j Hij Hjn Hfuel Hmono Hlo Hhi; cbn [search_loop].
  - assert (i = j) as <- by lia. repeat split; auto.
  - destruct (Nat.ltb_spec i j) as [Hlt|Hge].
    + assert (Hh : (i ≤ (i + j) / 2)%nat ∧ ((i + j) / 2 < j)%nat).
      { split; [apply Nat.div_le_lower_bound; lia|apply Nat.Div0.div_lt_upper_bound; lia]. }
      destruct (f ((i + j) / 2)%nat) eqn:Eh; apply IH; try lia; auto.
      * intros a Ha Han. by eapply Hmono; [|done|exact Eh].
      * intros a Ha. destruct (f a) eqn:Ea; [|done]. rewrite <-Eh. symmetry. eapply Hmono; [|lia|exact Ea]. lia.
    + assert (i = j) as <- by lia. repeat split; auto.
Qed.

Lemma sort_Search_spec (f : nat → bool) n :
  (∀ a b, (a ≤ b)%nat → (b < n)%nat → f a = true → f b = true) →
  let k := sort_Search n f in
  (k ≤ n)%nat ∧ (∀ a, (a < k)%nat → f a = false) ∧ (∀ a, (k ≤ a)%nat → (a < n)%nat → f a = true).
Proof. intros Hf. apply (search_loop_spec f n n 0 n); auto with lia. Qed.

(** Rows that are numbered from one. *)
Definition numbered (rows : list SessionEvent) : Prop :=
  ∀ i e, rows !! i = Some e → ev_Seq e = Z.of_nat i + 1.

Lemma page_numbered rows afterSeq limit :
  numbered rows → page rows afterSeq limit = take (Z.to_nat limit) (drop (Z.to_nat afterSeq) rows).
Proof.
  intros Hn. unfold page. set (f := fun i => match rows !! i with Some row => afterSeq <? ev_Seq row | None => false end).
  assert (Hf : ∀ a, (a < length rows)%nat → f a = (Z.to_nat afterSeq <=? a)%nat).
  { intros a Ha. unfold f. destruct (lookup_lt_is_Some_2 _ _ Ha) as [e Ee]. rewrite Ee, (Hn _ _ Ee).
    destruct (Nat.leb_spec (Z.to_nat afterSeq) a); [apply Z.ltb_lt|apply Z.ltb_ge]; lia. }
  destruct (sort_Search_spec f (length rows)) as (Hk & Hlo & Hhi).
  { intros a b Hab Hb Ha. rewrite Hf in Ha |- * by lia. apply Nat.leb_le in Ha. apply Nat.leb_le. lia. }
  set (k := sort_Search (length rows) f) in *.
  assert (Ek : k = Nat.min (Z.to_nat afterSeq) (length rows)).
  { destruct (decide (k = length rows)) as [E|E].
    - destruct (decide (Z.to_nat afterSeq < length rows)%nat) as [Hlt|]; [|lia].
      specialize (Hlo (Z.to_nat afterSeq) ltac:(lia)). rewrite Hf in Hlo by done.
      apply Nat.leb_gt in Hlo. lia.
    - specialize (Hhi k ltac:(lia) ltac:(lia)). rewrite Hf in Hhi by lia. apply Nat.leb_le in Hhi.
      destruct (decide (k = Z.to_nat afterSeq)) as [|Hne]; [lia|].
      specialize (Hlo (Z.to_nat afterSeq) ltac:(lia)). rewrite Hf in Hlo by lia. apply Nat.leb_gt in Hlo. lia. }
  unfold cloneEvent. rewrite list_fmap_id.
  destruct (decide (Z.to_nat afterSeq ≤ length rows)%nat) as [Hle|Hgt].
  - rewrite Nat.min_l in Ek by lia. rewrite Ek. assert (El := length_drop rows (Z.to_nat afterSeq)).
    destruct (decide (Z.to_nat limit ≤ length rows - Z.to_nat afterSeq)%nat); [f_equal; lia|].
    by rewrite !take_ge by lia.
  - rewrite Nat.min_r in Ek by lia. rewrite Ek, !drop_ge by lia. by rewrite !take_nil.
Qed.

(** ** The invariant *)

(** No session has more events than its counter can count. *)
Definition small (s : MemoryStore) : Prop := ∀ sid, Z.of_nat (length (rows_of s sid)) ≤ int64_max.

Record log_inv (s : MemoryStore) : Prop := {
  li_counter sid : small s → counter_of s sid = Z.of_nat (length (rows_of s sid));
  li_numbered sid : small s → numbered (rows_of s sid);
  li_row sid e : e ∈ rows_of s sid → ev_SessionID e = sid ∧ byEvent s !! ev_EventID e = Some e;
  li_event id e : byEvent s !! id = Some e → ev_EventID e = id ∧ TrimSpace id = id ∧
    bySource s !! sourceIdentity e = Some e ∧ e ∈ rows_of s (ev_SessionID e);
  li_source k e : bySource s !! k = Some e → byEvent s !! ev_EventID e = Some e
}.

(** The only change: an event under a new id and a new source. *)
Inductive log_change s : MemoryStore → Prop :=
| change_append event now :
    TrimSpace (ev_EventID event) = ev_EventID event → byEvent s !! ev_EventID event = None →
    bySource s !! sourceIdentity event = None → log_change s (filed_event s (numbered_event s event now)).

Lemma rows_of_filed s e sid :
  rows_of (filed_event s e) sid = if decide (sid = ev_SessionID e) then rows_of s sid ++ [e] else rows_of s sid.
Proof.
  unfold rows_of, filed_event. cbn [bySession]. unfold cloneEvent. case_decide as E; [subst sid|].
  - by rewrite lookup_insert_eq.
  - by rewrite lookup_insert_ne.
Qed.

Lemma counter_of_filed s e sid :
  counter_of (filed_event s e) sid = if decide (sid = ev_SessionID e) then ev_Seq e else counter_of s sid.
Proof.
  unfold counter_of, filed_event. cbn [counters]. case_decide as E; [subst sid; by rewrite lookup_insert_eq|by rewrite lookup_insert_ne].
Qed.

Lemma rows_grow s s' sid : log_change s s' → rows_of s sid `prefix_of` rows_of s' sid.
Proof.
  intros [event now _ _ _]. rewrite rows_of_filed. case_decide; [by apply prefix_app_r|done].
Qed.

Lemma small_before s s' : log_change s s' → small s' → small s.
Proof.
  intros Hc Hs sid. specialize (Hs sid). apply (rows_grow _ _ sid) in Hc as Hp%prefix_length. lia.
Qed.

Lemma initial_log_inv : log_inv NewMemoryStore.
Proof. split; intros; try by set_solver. intros i e Hi. done. Qed.

Lemma log_change_inv s s' : log_change s s' → log_inv s → log_inv s'.
Proof.
  intros Hc Hi. pose proof (small_before _ _ Hc) as Hsm. destruct Hc as [event now Ht Hid Hsrc].
  set (e := numbered_event s event now) in *.
  assert (Es : ev_SessionID e = ev_SessionID event ∧ ev_EventID e = ev_EventID event ∧
    sourceIdentity e = sourceIdentity event ∧ ev_Seq e = incr (counter_of s (ev_SessionID event))) by done.
  destruct Es as (Es & Ee & Ek & Eq). clearbody e.
  assert (Hseq : small (filed_event s e) → ev_Seq e = Z.of_nat (length (rows_of s (ev_SessionID e))) + 1).
  { intros Hs. rewrite Eq, <-Es, (li_counter _ Hi) by auto. apply incr_small.
    specialize (Hs (ev_SessionID e)). rewrite rows_of_filed, decide_True, length_app in Hs by done. cbn in Hs. lia. }
  split.
  - intros sid Hs. rewrite counter_of_filed, rows_of_filed. case_decide as E; [subst sid|by apply Hi; auto].
    rewrite length_app, (Hseq Hs). cbn. lia.
  - intros sid Hs. rewrite rows_of_filed. case_decide as E; [subst sid|by apply Hi; auto].
    intros i x [Hx|[Hl Hx]]%lookup_app_Some; [by apply (li_numbered _ Hi (ev_SessionID e) (Hsm Hs))|].
    apply list_lookup_singleton_Some in Hx as [Hz <-]. rewrite (Hseq Hs). lia.
  - intros sid x Hx. rewrite rows_of_filed in Hx. cbn [filed_event byEvent]. unfold cloneEvent.
    assert (Hold : x ∈ rows_of s sid → ev_SessionID x = sid ∧ <[ev_EventID e := e]> (byEvent s) !! ev_EventID x = Some x).
    { intros Hr. destruct (li_row _ Hi _ _ Hr) as [H1 H2]. split; [done|]. rewrite lookup_insert_ne; [done|congruence]. }
    case_decide as E; [subst sid|by auto]. apply elem_of_app in Hx as [Hx|Hx%list_elem_of_singleton]; [by auto|subst x].
    by rewrite lookup_insert_eq.
  - intros id x. cbn [filed_event byEvent bySource]. unfold cloneEvent. rewrite !rows_of_filed. intros [[<- <-]|[Hne Hx]]%lookup_insert_Some.
    + rewrite decide_True, lookup_insert_eq by done. repeat split; [congruence|set_solver].
    + destruct (li_event _ Hi _ _ Hx) as (H1 & H2 & H3 & H4). rewrite lookup_insert_ne by congruence.
      repeat split; [done..|]. case_decide; set_solver.
  - intros k x. cbn [filed_event byEvent bySource]. unfold cloneEvent. intros [[<- <-]|[Hne Hx]]%lookup_insert_Some;
      [by rewrite lookup_insert_eq|]. pose proof (li_source _ Hi _ _ Hx). rewrite lookup_insert_ne; [done|congruence].
Qed.

(** What is on record stays. *)
Lemma event_stays s s' id e : log_change s s' → byEvent s !! id = Some e → byEvent s' !! id = Some e.
Proof. intros [event now _ Hid _] He. cbn [filed_event byEvent]. rewrite lookup_insert_ne; [done|]. cbn. congruence. Qed.

Section runs.
Context `{Codec} `{Clock}.

(** ** Methods and runs *)

Inductive log_command :=
| LAppend (event : SessionEvent)
| LGetByEventID (eventID : string)
| LTail (sessionID : string) (options : TailOptions)
| LCurrentSeq (sessionID : string).

Definition run_log_command (c : log_command) : Eff (timed MemoryStore) unit :=
  match c with
  | LAppend event => let* _ := AppendSessionEventOnce event in ret tt
  | LGetByEventID eventID => let* _ := GetByEventID eventID in ret tt
  | LTail sessionID options => let* _ := Tail sessionID options in ret tt
  | LCurrentSeq sessionID => let* _ := CurrentSeq sessionID in ret tt
  end.

Inductive log_step w : timed MemoryStore → Prop :=
| step_log_command c a w' : run_log_command c w = (a, w') → log_step w w'
| step_log_clock n : log_step w (mkTimed (t_store w) n).

Definition log_future : timed MemoryStore → timed MemoryStore → Prop := rtc log_step.
Definition log_reachable w : Prop := ∃ w0, t_store w0 = NewMemoryStore ∧ log_future w0 w.

Lemma normalizeEvent_Ok event n : normalizeEvent event = Ok n →
  TrimSpace (ev_EventID n) = ev_EventID n ∧ json_Valid (ev_Payload n) = true.
Proof.
  unfold normalizeEvent. intros E. repeat (case_match; try done). all: injection E as <-.
  all: match goal with E : negb (json_Valid _) = false |- _ => apply negb_false_iff in E end.
  all: split; [cbn; apply TrimSpace_idem|]. all: by cbn in *.
Qed.

Lemma replayed_inv existing n what w r w' : replayed existing n what w = (r, w') →
  w' = w ∧ ∃ text, r = (if sameIdentity existing n then Ok (mkAppendResult existing false)
                        else Err (Wrapf "" ErrIdempotencyConflict text)).
Proof. unfold replayed. destruct (sameIdentity existing n); intros [= <- <-]; (split; [done|]); by exists what. Qed.

(** An append is answered from the record or takes effect. *)
Lemma append_inv event n w r w' :
  normalizeEvent event = Ok n → AppendSessionEventOnce event w = (r, w') →
  (w' = w ∧ ∃ existing what, (byEvent (t_store w) !! ev_EventID n = Some existing ∨
       byEvent (t_store w) !! ev_EventID n = None ∧ bySource (t_store w) !! sourceIdentity n = Some existing) ∧
     r = (if sameIdentity existing n then Ok (mkAppendResult existing false) else Err (Wrapf "" ErrIdempotencyConflict what))) ∨
  (byEvent (t_store w) !! ev_EventID n = None ∧ bySource (t_store w) !! sourceIdentity n = None ∧
     let e := numbered_event (t_store w) n (now_at (t_reads w)) in
     r = Ok (mkAppendResult e true) ∧ t_store w' = filed_event (t_store w) e).
Proof.
  intros En. unfold AppendSessionEventOnce. rewrite En. unfold bind at 1, t_get.
  destruct (byEvent _ !! _) as [existing|] eqn:E1; [|destruct (bySource _ !! _) as [existing|] eqn:E2].
  - intros [-> (what & ->)]%replayed_inv. left. split; [done|]. exists existing, what. split; [by left|done].
  - intros [-> (what & ->)]%replayed_inv. left. split; [done|]. exists existing, what. split; [by right|done].
  - intros E. right. split; [done|]. split; [done|]. injection E as <- <-. by split.
Qed.

Lemma append_refused event err w : normalizeEvent event = Err err → AppendSessionEventOnce event w = (Err err, w).
Proof. intros E. unfold AppendSessionEventOnce. by rewrite E. Qed.

Lemma append_change event : steps_by log_change (AppendSessionEventOnce event).
Proof.
  intros w r w' E. destruct (normalizeEvent event) as [n|e] eqn:En.
  - destruct (append_inv _ _ _ _ _ En E) as [[Ew _]|(H1 & H2 & H3)]; [left; by rewrite Ew|right].
    destruct H3 as [_ H3]. rewrite H3. apply change_append; [|exact H1|exact H2]. exact (proj1 (normalizeEvent_Ok _ _ En)).
  - rewrite (append_refused _ _ _ En) in E. injection E as _ <-. by left.
Qed.

Lemma run_log_command_change c : steps_by log_change (run_log_command c).
Proof.
  destruct c; intros w a w'; cbn [run_log_command]; unfold bind at 1.
  - destruct (AppendSessionEventOnce event w) as [r w1] eqn:E. intros [= _ <-]. by eapply append_change.
  - unfold GetByEventID, bind, t_get. destruct (byEvent _ !! _); intros [= _ <-]; by left.
  - unfold Tail, bind, t_get. case_bool_decide; intros [= _ <-]; by left.
  - unfold CurrentSeq, bind, t_get. case_bool_decide; intros [= _ <-]; by left.
Qed.

Lemma log_changes w w' : log_future w w' → rtc log_change (t_store w) (t_store w').
Proof.
  intros Hf. apply store_run. eapply rtc_subrel; [|exact Hf]. intros w1 w2 Hs.
  destruct Hs as [c a w2 E|n]; [by eapply run_log_command_change|by left].
Qed.

Lemma log_reachable_inv w : log_reachable w → log_inv (t_store w).
Proof.
  intros (w0 & E & Hf). eapply store_run_keeps; [apply log_change_inv|by apply log_changes|].
  rewrite E. apply initial_log_inv.
Qed.

Lemma rows_future s s' sid : rtc log_change s s' → rows_of s sid `prefix_of` rows_of s' sid.
Proof. induction 1 as [|s1 s2 s3 Hc _ IH]; [done|]. etrans; [by apply rows_grow|done]. Qed.

Lemma small_earlier s s' : rtc log_change s s' → small s' → small s.
Proof. induction 1 as [|s1 s2 s3 Hc _ IH]; [done|]. intros Hs. by eapply small_before, IH. Qed.

Lemma event_future s s' id e : rtc log_change s s' → byEvent s !! id = Some e → byEvent s' !! id = Some e.
Proof. induction 1 as [|s1 s2 s3 Hc _ IH]; [done|]. intros He. by eapply IH, event_stays. Qed.

(** ** The theorems *)

(** What [Tail] answers from a log that satisfies the invariant. *)
Lemma Tail_answer w sessionID options :
  log_inv (t_store w) → small (t_store w) → TrimSpace sessionID ≠ "" →
  Tail sessionID options w = (Ok (take (Z.to_nat (normalizeTailLimit (to_Limit options)))
    (drop (Z.to_nat (to_AfterSeq options)) (rows_of (t_store w) (TrimSpace sessionID)))), w).
Proof.
  intros Hi Hs Hne. unfold Tail. rewrite bool_decide_eq_false_2 by done. unfold bind, t_get, ret.
  by rewrite page_numbered by (by apply (li_numbered _ Hi)).
Qed.

(** C35. The log is complete and ordered.  In every log that producers can reach, as
    long as no counter has overflowed, the events of a session are numbered from one without a gap,
    the counter is the number of the last, no two events of the log share an id or a
    source, each is found under its id, and [Tail] answers exactly the events
    after the cursor, in order, up to the limit -- so a client that reads
    on from the last number it has seen misses nothing and sees nothing twice. *)
Theorem log_is_numbered_and_paged w sid :
  log_reachable w → small (t_store w) →
  let rows := rows_of (t_store w) sid in
  ev_Seq <$> rows = seqZ 1 (Z.of_nat (length rows)) ∧
  counter_of (t_store w) sid = Z.of_nat (length rows) ∧
  (∀ e sid' e', e ∈ rows → e' ∈ rows_of (t_store w) sid' →
     ev_EventID e = ev_EventID e' ∨ sourceIdentity e = sourceIdentity e' → e = e') ∧
  (∀ e, e ∈ rows → ev_SessionID e = sid ∧ GetByEventID (ev_EventID e) w = (Ok e, w)) ∧
  ∀ sessionID options, TrimSpace sessionID = sid → sid ≠ "" →
    Tail sessionID options w = (Ok (take (Z.to_nat (normalizeTailLimit (to_Limit options)))
                                      (drop (Z.to_nat (to_AfterSeq options)) rows)), w).
Proof.
  intros Hi%log_reachable_inv Hs rows. split_and!.
  - apply list_eq. intros i. rewrite list_lookup_fmap. destruct (rows !! i) as [e|] eqn:Ei.
    + cbn. rewrite (li_numbered _ Hi sid Hs _ _ Ei). symmetry. apply lookup_seqZ. apply lookup_lt_Some in Ei. lia.
    + apply lookup_ge_None in Ei. symmetry. apply lookup_seqZ_ge. lia.
  - by apply Hi.
  - intros e sid' e' He He'. destruct (li_row _ Hi _ _ He) as [_ E1], (li_row _ Hi _ _ He') as [_ E2].
    destruct (li_event _ Hi _ _ E1) as (_ & _ & S1 & _), (li_event _ Hi _ _ E2) as (_ & _ & S2 & _).
    intros [E|E]; rewrite E in *; congruence.
  - intros e He. destruct (li_row _ Hi _ _ He) as [Hsid E]. split; [done|].
    destruct (li_event _ Hi _ _ E) as (_ & Ht & _). unfold GetByEventID, bind, t_get. by rewrite Ht, E.
  - intros sessionID options <- Hne. by apply Tail_answer.
Qed.

Lemma sameIdentity_source e n : sameIdentity e n = true →
  sourceIdentity e = sourceIdentity n ∧ ev_EventID e = ev_EventID n.
Proof.
  unfold sameIdentity. rewrite !andb_true_iff, !bool_decide_eq_true, Z.eqb_eq. unfold sourceIdentity.
  intros [[[[[[[[-> ->] _] ->] ->] ->] _] _] _]. done.
Qed.

(** [encoding/json]: valid text can be read. *)
Variable valid_decodes : ∀ raw, json_Valid raw = true → ∃ v, json_Unmarshal_any raw = Some v.

Lemma sameIdentity_numbered s event n now : normalizeEvent event = Ok n →
  sameIdentity (numbered_event s n now) n = true.
Proof.
  intros (_ & Hv)%normalizeEvent_Ok. unfold sameIdentity, SessionStore.jsonEqual. cbn.
  destruct (valid_decodes _ Hv) as [v ->]. by rewrite !bool_decide_eq_true_2, Z.eqb_refl.
Qed.

(** C34. An event is appended once.  An accepted append has added the event at the
    end of its session and nothing else, or found it there and changed nothing.  Ever
    after it keeps its number and its content; the same request is
    answered with it and changes nothing; and a different event under its id, or
    from its source, is refused as a conflict without effect. *)
Theorem event_is_appended_once w w1 w2 event n r :
  log_reachable w → normalizeEvent event = Ok n → AppendSessionEventOnce event w = (Ok r, w1) → log_future w1 w2 →
  let e := al_Event r in
  (if al_Appended r
   then e = numbered_event (t_store w) n (now_at (t_reads w)) ∧
     ∀ sid, rows_of (t_store w1) sid = rows_of (t_store w) sid ++ (if bool_decide (sid = ev_SessionID n) then [e] else [])
   else w1 = w ∧ sameIdentity e n = true ∧ e ∈ rows_of (t_store w) (ev_SessionID e)) ∧
  (∀ sid, rows_of (t_store w1) sid `prefix_of` rows_of (t_store w2) sid) ∧
  (∀ event', normalizeEvent event' = Ok n →
     AppendSessionEventOnce event' w2 = (Ok (mkAppendResult e false), w2)) ∧
  (∀ event' n', normalizeEvent event' = Ok n' → sameIdentity e n' = false →
     ev_EventID n' = ev_EventID e ∨ sourceIdentity n' = sourceIdentity e →
     ∃ err, AppendSessionEventOnce event' w2 = (Err err, w2) ∧ errors_Is err ErrIdempotencyConflict = true).
Proof.
  intros Hr En E Hf e. pose proof (log_reachable_inv _ Hr) as Hi.
  assert (Hi1 : log_inv (t_store w1)).
  { destruct (append_change _ _ _ _ E) as [-> |Hc]; [done|by eapply log_change_inv]. }
  assert (Hf' := log_changes _ _ Hf).
  assert (Hi2 : log_inv (t_store w2)) by (by eapply store_run_keeps; [apply log_change_inv|..]).
  assert (Hon : byEvent (t_store w1) !! ev_EventID e = Some e ∧ sameIdentity e n = true ∧
    (if al_Appended r
     then e = numbered_event (t_store w) n (now_at (t_reads w)) ∧
       ∀ sid, rows_of (t_store w1) sid = rows_of (t_store w) sid ++ (if bool_decide (sid = ev_SessionID n) then [e] else [])
     else w1 = w ∧ sameIdentity e n = true ∧ e ∈ rows_of (t_store w) (ev_SessionID e))).
  { destruct (append_inv _ _ _ _ _ En E) as [[-> (x & what & Hx & Er)]|(H1 & H2 & Er & Es)].
    - destruct (sameIdentity x n) eqn:Ex; [|done]. injection Er as ->. subst e. cbn [al_Event al_Appended].
      assert (Ee : byEvent (t_store w) !! ev_EventID x = Some x).
      { destruct Hx as [Hx|[_ Hx]]; [|by eapply li_source]. by rewrite (proj2 (sameIdentity_source _ _ Ex)). }
      split_and!; [done..|]. by eapply li_event.
    - cbn zeta in Er, Es. injection Er as ->. subst e. cbn [al_Event al_Appended]. rewrite Es.
      split_and!; [by cbn [filed_event byEvent]; rewrite lookup_insert_eq|by eapply sameIdentity_numbered|done|].
      intros sid. rewrite rows_of_filed. cbn [numbered_event ev_SessionID update_field].
      repeat case_decide; repeat case_bool_decide; try done; by rewrite app_nil_r. }
  destruct Hon as (He & Hsame & Hshape). pose proof (event_future _ _ _ _ Hf' He) as He2. split_and!; [done|..].
  - intros sid. by apply rows_future.
  - intros event' En'. unfold AppendSessionEventOnce. rewrite En'. unfold bind at 1, t_get.
    rewrite <-(proj2 (sameIdentity_source _ _ Hsame)), He2. unfold replayed. by rewrite Hsame.
  - intros event' n' En' Hd Hor. destruct (AppendSessionEventOnce event' w2) as [r' w3] eqn:E'.
    destruct (append_inv _ _ _ _ _ En' E') as [[-> (x & what & Hx & ->)]|(H1 & H2 & _)].
    + destruct (sameIdentity x n') eqn:Ex; [|eexists; split; [done|reflexivity]]. exfalso.
      destruct (sameIdentity_source _ _ Ex) as [Ex1 Ex2].
      assert (Eb : byEvent (t_store w2) !! ev_EventID x = Some x).
      { destruct Hx as [Hx|[_ Hx]]; [by rewrite Ex2|by eapply li_source]. }
      assert (x = e) as ->; [|congruence]. destruct Hor as [Hor|Hor]; [congruence|].
      destruct (li_event _ Hi2 _ _ Eb) as (_ & _ & S1 & _), (li_event _ Hi2 _ _ He2) as (_ & _ & S2 & _). congruence.
    + exfalso. destruct Hor as [Hor|Hor]; [congruence|].
      destruct (li_event _ Hi2 _ _ He2) as (_ & _ & S2 & _). congruence.
Qed.
End runs.
