(* ===== verification/EventRelay.v ===== *)
(** * The relay of the event log and its notifications ([internal/aigc/events/relay.go])

    A [TailRelay] sends the events of a session to one client, in order and from a
    cursor of the client's.  It always reads the log; notifications only wake it.  A
    world is the log and the outside, where the client has what it has been sent
    and other producers go on appending.  The loop never ends by itself: [relay_loop] is its first
    [rounds] rounds, and [wakes] what its [select] receives. *)

From Stdlib Require Import ZArith.
From S2P Require Import Prelude GoJson SessionModels Timed EventLog.

Record eworld (X : Type) := mkEWorld { el_log : MemoryStore; el_reads : nat; el_ext : X }.
Arguments mkEWorld {X}.
Arguments el_log {X}.
Arguments el_reads {X}.
Arguments el_ext {X}.

(** What other producers do before a read of the log, and the client: [consume]
    answers an error or has taken the event. *)
Class Producers (X : Type) := producers : Eff (eworld X) unit.
Class Consumer (X : Type) := consume : SessionEvent → Eff X (option error).

(** [Notifications], if there are any: the error of its [Subscribe]. *)
Record TailRelayConfig := mkTailRelayConfig {
  tc_Store : bool;
  tc_Notifications : option (string → option error);
  tc_PollInterval : Z;
  tc_BatchSize : Z
}.
#[global] Instance eta_TailRelayConfig : Eta TailRelayConfig := fun r =>
  mkTailRelayConfig (tc_Store r) (tc_Notifications r) (tc_PollInterval r) (tc_BatchSize r).

Definition NewTailRelay (config : TailRelayConfig) : result TailRelayConfig :=
  if negb (tc_Store config) then Err (Errorf "session event store is required")
  else
    let config := if tc_PollInterval config <=? 0 then config <| tc_PollInterval := second |> else config in
    Ok (config <| tc_BatchSize := normalizeTailLimit (tc_BatchSize config) |>).

(** What the [select] receives. *)
Inductive Wake := WakeDone (err : error) | WakeTick | WakeNotified.

(** The error [Relay] has returned, or the cursor of a relay that goes on. *)
Inductive Relayed := Ended (err : error) | Running (cursor : Z).

Section relay.
Context `{Codec} `{Clock} {X : Type} `{Producers X} `{Consumer X}.
Variable r : TailRelayConfig.

Definition on_log {A} (c : Eff (timed MemoryStore) A) : Eff (eworld X) A :=
  let* _ := producers in fun w =>
  let '(a, w') := c (mkTimed (el_log w) (el_reads w)) in (a, mkEWorld (t_store w') (t_reads w') (el_ext w)).

Definition send (event : SessionEvent) : Eff (eworld X) (option error) := fun w =>
  let '(err, x) := consume event (el_ext w) in (err, mkEWorld (el_log w) (el_reads w) x).

(** The loop over the rows of a page. *)
Fixpoint send_rows (rows : list SessionEvent) (cursor : Z) : Eff (eworld X) (option error * Z) :=
  match rows with
  | [] => ret (None, cursor)
  | event :: rest =>
      let* err := send event in
      match err with
      | Some err => ret (Some err, cursor)
      | None => send_rows rest (ev_Seq event)
      end
  end.

Fixpoint relay_loop (rounds : nat) (wakes : list Wake) (sessionID : string) (cursor : Z) : Eff (eworld X) Relayed :=
  match rounds with
  | O => ret (Running cursor)
  | S rounds' =>
      let* tail := on_log (Tail sessionID (mkTailOptions cursor (tc_BatchSize r))) in
      match tail with
      | Err err => ret (Ended err)
      | Ok rows =>
          let* '(err, cursor) := send_rows rows cursor in
          match err with
          | Some err => ret (Ended err)
          | None =>
              if Z.of_nat (length rows) =? tc_BatchSize r then relay_loop rounds' wakes sessionID cursor
              else match wakes with
                   | [] => ret (Running cursor)
                   | WakeDone err :: _ => ret (Ended err)
                   | _ :: wakes' => relay_loop rounds' wakes' sessionID cursor
                   end
          end
      end
  end.

Definition Relay (rounds : nat) (wakes : list Wake) (sessionID : string) (afterSeq : Z) : Eff (eworld X) Relayed :=
  if negb (tc_Store r) then ret (Ended (Errorf "tail relay is required"))
  else
    let sessionID := TrimSpace sessionID in
    if bool_decide (sessionID = "") then ret (Ended (Errorf "session id and consumer are required"))
    else match tc_Notifications r with
         | Some subscribe =>
             match subscribe sessionID with
             | Some err => ret (Ended (Wrapf "subscribe session event notifications: " err ""))
             | None => relay_loop rounds wakes sessionID afterSeq
             end
         | None => relay_loop rounds wakes sessionID afterSeq
         end.
End relay.

(** ** [MemoryNotificationHub]

    A subscription is a channel that holds at most one signal: the value under its
    number says whether it does. *)

Record MemoryNotificationHub := mkMemoryNotificationHub {
  nh_nextID : Z;
  nh_subscribers : gmap string (gmap Z bool)
}.
#[global] Instance eta_MemoryNotificationHub : Eta MemoryNotificationHub := fun r =>
  mkMemoryNotificationHub (nh_nextID r) (nh_subscribers r).

Definition NewMemoryNotificationHub : MemoryNotificationHub := mkMemoryNotificationHub 0 ∅.

Definition subscribers_of (h : MemoryNotificationHub) (sessionID : string) : gmap Z bool :=
  default ∅ (nh_subscribers h !! sessionID).

Definition Notify (sessionID : string) (h : MemoryNotificationHub) : MemoryNotificationHub :=
  h <| nh_subscribers := alter (fmap (fun _ => true)) (TrimSpace sessionID) (nh_subscribers h) |>.

(** The number of the channel; [h.nextID] is a [uint64]. *)
Definition Subscribe (sessionID : string) (h : MemoryNotificationHub) : result (Z * MemoryNotificationHub) :=
  let sessionID := TrimSpace sessionID in
  if bool_decide (sessionID = "") then Err (Errorf "session id is required")
  else
    let id := (nh_nextID h + 1) mod 2 ^ 64 in
    Ok (id, mkMemoryNotificationHub id
              (<[sessionID := <[id := false]> (subscribers_of h sessionID)]> (nh_subscribers h))).

(** [cancel], whose effect happens once. *)
Definition cancel (sessionID : string) (id : Z) (h : MemoryNotificationHub) : MemoryNotificationHub :=
  let left := delete id (subscribers_of h sessionID) in
  h <| nh_subscribers := if bool_decide (left = ∅) then delete sessionID (nh_subscribers h)
                         else <[sessionID := left]> (nh_subscribers h) |>.

(** A receive from the channel: the signal and the hub after it. *)
Definition receive (sessionID : string) (id : Z) (h : MemoryNotificationHub) : bool * MemoryNotificationHub :=
  match subscribers_of h sessionID !! id with
  | Some true => (true, h <| nh_subscribers := <[sessionID := <[id := false]> (subscribers_of h sessionID)]>
                                                 (nh_subscribers h) |>)
  | _ => (false, h)
  end.
