(* ===== verification/EventRelayProps.v ===== *)
(** * What a relay sends

    Whatever other producers append in the meantime, the client is sent the
    events of its session in order, without a gap and without a repetition, and a relay
    that is left alone catches up. *)

From Stdlib Require Import ZArith Lia.
From stdpp Require Import relations.
From S2P Require Import Prelude GoJson SessionModels Timed EventLog EventLogProps EventRelay.
From S2P Require SessionRuns.

Definition log_of {X} (w : eworld X) : timed MemoryStore := mkTimed (el_log w) (el_reads w).

Section relay.
Context `{Codec} `{Clock} {X : Type} `{Producers X} `{Consumer X}.
Implicit Types w : eworld X.

(** Other producers use the methods of the log and leave the client alone. *)
Class LawfulProducers := producers_append w :
  log_future (log_of w) (log_of (producers w).2) ∧ el_ext (producers w).2 = el_ext w.

(** A client keeps what it has taken: [sent]. *)
Class RecordingConsumer (sent : X → list SessionEvent) := consumer_records e x :
  sent (consume e x).2 = sent x ++ match (consume e x).1 with None => [e] | Some _ => [] end.

Context (sent : X → list SessionEvent) `{!LawfulProducers} `{!RecordingConsumer sent}.

(** The events [k] places on from a cursor. *)
Definition from_cursor (s : MemoryStore) (sid : string) (cursor : Z) (k : nat) : list SessionEvent :=
  take k (drop (Z.to_nat cursor) (rows_of s sid)).

Lemma send_rows_sent rows cursor w err cursor' w' :
  send_rows rows cursor w = ((err, cursor'), w') →
  log_of w' = log_of w ∧ ∃ m, (m ≤ length rows)%nat ∧ (err = None → m = length rows) ∧
    sent (el_ext w') = sent (el_ext w) ++ take m rows ∧
    cursor' = match last (take m rows) with Some e => ev_Seq e | None => cursor end.
Proof.
  revert cursor w. induction rows as [|e rows IH]; intros cursor w; cbn [send_rows].
  - intros [= <- <- <-]. split; [done|]. exists 0%nat. cbn. by rewrite app_nil_r.
  - unfold bind at 1, send. pose proof (consumer_records e (el_ext w)) as Hc.
    destruct (consume e (el_ext w)) as [[err1|] x]; cbn [fst snd] in Hc.
    + intros [= <- <- <-]. split; [done|]. exists 0%nat. cbn. rewrite app_nil_r in Hc |- *. split_and!; [lia|done..].
    + intros E. destruct (IH _ _ E) as [Hl (m & Hm & Herr & Hs & Hcur)]. split; [done|]. exists (S m).
      cbn [length take]. split_and!; [lia|intros; f_equal; auto|rewrite Hs; cbn [el_ext]; by rewrite Hc, <-app_assoc|].
      rewrite Hcur. by destruct (take m rows) as [|y l] eqn:Et using rev_ind;
        [|rewrite app_comm_cons, !last_snoc].
Qed.

(** A cursor that has gone on by [m] rows of a numbered list. *)
Lemma cursor_after rows cursor m : numbered rows → (m ≤ length (drop (Z.to_nat cursor) rows))%nat →
  Z.to_nat (match last (take m (drop (Z.to_nat cursor) rows)) with Some e => ev_Seq e | None => cursor end)
  = (Z.to_nat cursor + m)%nat.
Proof.
  intros Hn Hm. destruct m as [|m]; [rewrite take_0; cbn [last]; lia|]. rewrite last_lookup, length_take, Nat.min_l by lia.
  cbn [pred]. rewrite lookup_take_lt, lookup_drop by lia.
  destruct (rows !! (Z.to_nat cursor + m)%nat) as [e|] eqn:E; [rewrite (Hn _ _ E); lia|].
  apply lookup_ge_None in E. rewrite length_drop in Hm. lia.
Qed.

Lemma on_log_answer {A} (c : Eff (timed MemoryStore) A) w a w' : on_log c w = (a, w') →
  ∃ w1, log_future (log_of w) (log_of w1) ∧ el_ext w1 = el_ext w ∧ (c (log_of w1)).1 = a ∧
    log_of w' = (c (log_of w1)).2 ∧ el_ext w' = el_ext w1.
Proof.
  unfold on_log, bind. destruct (producers_append w) as [Hp He]. destruct (producers w) as [u w1]. cbn [snd] in *.
  intros E. exists w1. unfold log_of in *. destruct (c _) as [b v]. injection E as <- <-. by destruct v.
Qed.

Lemma prefix_take_drop {A} (l l' : list A) c k : l `prefix_of` l' → (k ≤ length (drop c l))%nat →
  take k (drop c l) = take k (drop c l').
Proof.
  intros [l1 ->] Hk. destruct (decide (c ≤ length l)%nat).
  - rewrite drop_app_le by done. by rewrite take_app_le.
  - rewrite drop_ge in Hk by lia. cbn in Hk. by assert (k = 0)%nat as -> by lia.
Qed.

Lemma take_take_drop {A} (l : list A) m k : take m l ++ take k (drop m l) = take (m + k) l.
Proof. rewrite <-(take_drop m (take (m + k) l)) at 1. rewrite take_take, skipn_firstn_comm. f_equal; f_equal; lia. Qed.

Lemma drop_take_more {A} (l l' : list A) c m k : l `prefix_of` l' → (m ≤ length (drop c l))%nat →
  take m (drop c l) ++ take k (drop (c + m) l') = take (m + k) (drop c l').
Proof. intros Hp Hm. rewrite (prefix_take_drop _ _ _ _ Hp Hm), <-drop_drop. apply take_take_drop. Qed.

Variable r : TailRelayConfig.
Variable config : TailRelayConfig.
Hypothesis made : NewTailRelay config = Ok r.

Lemma relay_batch : normalizeTailLimit (tc_BatchSize r) = tc_BatchSize r ∧ 0 < tc_BatchSize r.
Proof.
  revert made. unfold NewTailRelay. destruct (negb _); [done|]. intros [= <-]. cbn. unfold normalizeTailLimit.
  repeat case_match; repeat match goal with E : (_ <=? _) = _ |- _ => revert E | E : (_ <? _) = _ |- _ => revert E end; lia.
Qed.

(** What a round does with the page it has read. *)
Definition after_page rounds wakes sid cursor (tail : result (list SessionEvent)) : Eff (eworld X) Relayed :=
  match tail with
  | Err err => ret (Ended err)
  | Ok rows =>
      let* '(err, cursor) := send_rows rows cursor in
      match err with
      | Some err => ret (Ended err)
      | None =>
          if Z.of_nat (length rows) =? tc_BatchSize r then relay_loop r rounds wakes sid cursor
          else match wakes with
               | [] => ret (Running cursor)
               | WakeDone err :: _ => ret (Ended err)
               | _ :: wakes' => relay_loop r rounds wakes' sid cursor
               end
      end
  end.

Lemma relay_loop_round rounds wakes sid cursor w res w' :
  relay_loop r (S rounds) wakes sid cursor w = (res, w') →
  ∃ w1 tail w2, log_future (log_of w) (log_of w1) ∧ el_ext w2 = el_ext w ∧
    Tail sid (mkTailOptions cursor (tc_BatchSize r)) (log_of w1) = (tail, log_of w2) ∧
    after_page rounds wakes sid cursor tail w2 = (res, w').
Proof.
  cbn [relay_loop]. unfold bind at 1. destruct (on_log _ w) as [tail w2] eqn:E. intros Er.
  apply on_log_answer in E as (w1 & Hf & He & Ha & Hl & He2). exists w1, tail, w2. split_and!; [done|congruence| |done].
  rewrite Hl, <-Ha. by destruct (Tail _ _ _).
Qed.

Lemma tail_future sid options v a v' : Tail sid options v = (a, v') → log_future v v'.
Proof. intros E. apply rtc_once, (step_log_command _ (LTail sid options) tt). cbn. unfold bind. by rewrite E. Qed.

Lemma relay_loop_log rounds wakes sid cursor w res w' :
  relay_loop r rounds wakes sid cursor w = (res, w') → log_future (log_of w) (log_of w').
Proof.
  revert wakes cursor w. induction rounds as [|rounds IH]; intros wakes cursor w; [by intros [= _ <-]|].
  intros (w1 & tail & w2 & Hf & _ & Ht%tail_future & E)%relay_loop_round. do 2 (etrans; [eassumption|]). clear Hf Ht.
  revert E. unfold after_page. destruct tail as [rows|e]; [|by intros [= _ <-]]. unfold bind.
  destruct (send_rows rows cursor w2) as [[err cursor'] w3] eqn:Es. apply send_rows_sent in Es as [<- _].
  destruct err; [by intros [= _ <-]|]. destruct (_ =? _); [by apply IH|].
  destruct wakes as [|[]]; try (by intros [= _ <-]); by apply IH.
Qed.

Lemma after_page_log rounds wakes sid cursor tail w res w' :
  after_page rounds wakes sid cursor tail w = (res, w') → log_future (log_of w) (log_of w').
Proof.
  unfold after_page. destruct tail as [rows|e]; [|by intros [= _ <-]]. unfold bind.
  destruct (send_rows rows cursor w) as [[err cursor'] w3] eqn:Es. apply send_rows_sent in Es as [<- _].
  destruct err; [by intros [= _ <-]|]. destruct (_ =? _); [by apply relay_loop_log|].
  destruct wakes as [|[]]; try (by intros [= _ <-]); by apply relay_loop_log.
Qed.

Lemma future_inv v v' : log_future v v' → log_inv (t_store v) → log_inv (t_store v').
Proof. intros Hf. eapply store_run_keeps; [apply log_change_inv|by apply log_changes]. Qed.

(** What has been sent from a cursor on, and where the cursor is. *)
Definition sent_from w (sid : string) (cursor : Z) (res : Relayed) w' : Prop :=
  ∃ k, (k ≤ length (drop (Z.to_nat cursor) (rows_of (el_log w') sid)))%nat ∧
    sent (el_ext w') = sent (el_ext w) ++ from_cursor (el_log w') sid cursor k ∧
    ∀ c, res = Running c → Z.to_nat c = (Z.to_nat cursor + k)%nat.

Lemma sent_more w1 w2 w3 sid cursor cursor' m res :
  log_future (log_of w1) (log_of w3) → (m ≤ length (drop (Z.to_nat cursor) (rows_of (el_log w1) sid)))%nat →
  sent (el_ext w2) = sent (el_ext w1) ++ from_cursor (el_log w1) sid cursor m →
  Z.to_nat cursor' = (Z.to_nat cursor + m)%nat → sent_from w2 sid cursor' res w3 → sent_from w1 sid cursor res w3.
Proof.
  intros Hf%log_changes Hm Hs Hc (k & Hk & Hs' & Hr). pose proof (rows_future _ _ sid Hf) as Hp. cbn in Hp.
  exists (m + k)%nat. rewrite Hc, length_drop in Hk. rewrite length_drop in Hm. pose proof (prefix_length _ _ Hp).
  split_and!; [rewrite length_drop; lia| |intros c Ec; rewrite (Hr _ Ec); lia].
  rewrite Hs', Hs, <-app_assoc. f_equal. unfold from_cursor. rewrite Hc. apply drop_take_more; [done|rewrite length_drop; lia].
Qed.

Lemma sent_nothing w sid cursor : sent_from w sid cursor (Running cursor) w.
Proof. exists 0%nat. split_and!; [lia|unfold from_cursor; cbn; by rewrite app_nil_r|intros c [= <-]; lia]. Qed.

Lemma sent_end w sid cursor e : sent_from w sid cursor (Ended e) w.
Proof. exists 0%nat. split_and!; [lia|unfold from_cursor; cbn; by rewrite app_nil_r|done]. Qed.

(** The page of a round, sent as far as the client takes it. *)
Lemma page_sent sid cursor w err cursor' w' :
  log_inv (el_log w) → small (el_log w) →
  send_rows (from_cursor (el_log w) sid cursor (Z.to_nat (tc_BatchSize r))) cursor w = ((err, cursor'), w') →
  log_of w' = log_of w ∧ ∃ m, (m ≤ length (drop (Z.to_nat cursor) (rows_of (el_log w) sid)))%nat ∧
    (err = None → m = Nat.min (Z.to_nat (tc_BatchSize r)) (length (drop (Z.to_nat cursor) (rows_of (el_log w) sid)))) ∧
    sent (el_ext w') = sent (el_ext w) ++ from_cursor (el_log w) sid cursor m ∧ Z.to_nat cursor' = (Z.to_nat cursor + m)%nat.
Proof.
  intros Hi Hs E. destruct (send_rows_sent _ _ _ _ _ _ E) as [Hl (m & Hm & Herr & Hsent & Hcur)]. split; [done|].
  unfold from_cursor in *. rewrite length_take in Hm, Herr. rewrite take_take, Nat.min_l in Hsent, Hcur by lia.
  exists m. split_and!; [lia|done|done|]. rewrite Hcur. apply cursor_after; [by apply (li_numbered _ Hi)|lia].
Qed.

Lemma relay_loop_sent rounds wakes sid cursor w res w' :
  TrimSpace sid = sid → sid ≠ "" → log_inv (el_log w) → small (el_log w') →
  relay_loop r rounds wakes sid cursor w = (res, w') → sent_from w sid cursor res w'.
Proof.
  intros Ht Hne. revert wakes cursor w. induction rounds as [|rounds IH]; intros wakes cursor w Hi Hs.
  { intros [= <- <-]. apply sent_nothing. }
  intros (w1 & tail & w2 & Hf & He & Htail & E)%relay_loop_round.
  pose proof (after_page_log _ _ _ _ _ _ _ _ E) as Hf2. pose proof (future_inv _ _ Hf Hi) as Hi1.
  assert (El : log_of w2 = log_of w1).
  { apply (f_equal snd) in Htail. cbn [snd] in Htail. rewrite <-Htail. unfold Tail.
    rewrite bool_decide_eq_false_2 by congruence. done. }
  rewrite El in Htail, Hf2. cbn [log_of t_store] in Hi1.
  assert (Hs1 : small (el_log w1)) by (eapply small_earlier; [exact (log_changes _ _ Hf2)|done]).
  rewrite (Tail_answer (log_of w1)) in Htail by (done || congruence). cbn [to_Limit to_AfterSeq] in Htail.
  rewrite Ht, (proj1 relay_batch) in Htail. injection Htail as <-.
  assert (El2 : el_log w2 = el_log w1) by (by apply (f_equal t_store) in El).
  revert E. unfold after_page, bind. cbn [log_of t_store]. rewrite <-El2.
  destruct (send_rows _ cursor w2) as [[err cursor'] w3] eqn:Esend.
  apply page_sent in Esend as [Hl3 (m & Hm & Herr & Hsent & Hcur)]; [|by rewrite El2..].
  assert (Hi3 : log_inv (el_log w3)) by (apply (f_equal t_store) in Hl3; cbn in Hl3; by rewrite Hl3, El2).
  assert (Hback : sent_from w3 sid cursor' res w' → log_future (log_of w3) (log_of w') → sent_from w sid cursor res w').
  { intros Hsf Hf3. enough (Hsf2 : sent_from w2 sid cursor res w') by (revert Hsf2; unfold sent_from; by rewrite He).
    eapply sent_more; [by rewrite <-Hl3| |done..]. done. }
  destruct err as [e|]; [intros [= <- <-]; apply Hback; [apply sent_end|done]|].
  assert (Hgo : ∀ wakes, relay_loop r rounds wakes sid cursor' w3 = (res, w') → sent_from w sid cursor res w').
  { intros wakes' E. apply Hback; [by eapply IH|by eapply relay_loop_log]. }
  destruct (_ =? _); [by apply Hgo|].
  destruct wakes as [|[e| |] wakes]; [intros [= <- <-]; apply Hback; [apply sent_nothing|done]
    |intros [= <- <-]; apply Hback; [apply sent_end|done]|by apply Hgo|by apply Hgo].
Qed.
Lemma send_rows_taken rows cursor w err cursor' w' :
  (∀ e x, (consume e x).1 = None) → send_rows rows cursor w = ((err, cursor'), w') → err = None.
Proof.
  intros Hc. revert cursor w. induction rows as [|e rows IH]; intros cursor w; cbn [send_rows]; [by intros [= <- _ _]|].
  unfold bind at 1, send. specialize (Hc e (el_ext w)). destruct (consume e (el_ext w)) as [o x]. cbn in Hc. subst o. apply IH.
Qed.

(** A relay that is left alone, with a client that takes everything. *)
Lemma quiet_round rounds sid cursor w :
  (∀ w, producers w = (tt, w)) → (∀ e x, (consume e x).1 = None) →
  TrimSpace sid = sid → sid ≠ "" → log_inv (el_log w) → small (el_log w) →
  ∃ cursor' w', log_of w' = log_of w ∧
    sent (el_ext w') = sent (el_ext w) ++ from_cursor (el_log w) sid cursor (Z.to_nat (tc_BatchSize r)) ∧
    let left := length (drop (Z.to_nat cursor) (rows_of (el_log w) sid)) in
    if decide (Z.to_nat (tc_BatchSize r) ≤ left)%nat
    then relay_loop r (S rounds) [] sid cursor w = relay_loop r rounds [] sid cursor' w' ∧
      Z.to_nat cursor' = (Z.to_nat cursor + Z.to_nat (tc_BatchSize r))%nat
    else relay_loop r (S rounds) [] sid cursor w = (Running cursor', w') ∧
      Z.to_nat cursor' = (Z.to_nat cursor + left)%nat.
Proof.
  intros Hq Hc Ht Hne Hi Hs. pose proof relay_batch as [Hb Hb0].
  destruct (send_rows (from_cursor (el_log w) sid cursor (Z.to_nat (tc_BatchSize r))) cursor w)
    as [[err cursor'] w'] eqn:Es.
  assert (err = None) as ->.
  { by eapply send_rows_taken. }
  exists cursor', w'. pose proof Es as (Hl & m & Hm & Herr & Hsent & Hcur)%page_sent; [|done..].
  specialize (Herr eq_refl). assert (Eloop : relay_loop r (S rounds) [] sid cursor w =
    after_page rounds [] sid cursor (Ok (from_cursor (el_log w) sid cursor (Z.to_nat (tc_BatchSize r)))) w).
  { cbn [relay_loop]. unfold bind at 1, on_log at 1, bind at 1. rewrite Hq.
    fold (log_of w). rewrite (Tail_answer (log_of w)) by (done || congruence). cbn [to_Limit to_AfterSeq log_of t_store t_reads].
    rewrite Ht, Hb. by destruct w. }
  split; [done|]. rewrite Eloop, Hsent. unfold after_page, bind. rewrite Es.
  unfold from_cursor. rewrite length_take. split.
  - f_equal. destruct (decide (Z.to_nat (tc_BatchSize r) ≤ length (drop (Z.to_nat cursor) (rows_of (el_log w) sid)))%nat).
    + f_equal. lia.
    + rewrite !take_ge by lia. done.
  - cbv zeta. case_decide as Hd; [rewrite (proj2 (Z.eqb_eq _ _)) by lia|rewrite (proj2 (Z.eqb_neq _ _)) by lia];
      (split; [done|lia]).
Qed.

Lemma quiet_rounds rounds sid cursor w :
  (∀ w, producers w = (tt, w)) → (∀ e x, (consume e x).1 = None) →
  TrimSpace sid = sid → sid ≠ "" → log_inv (el_log w) → small (el_log w) →
  (length (drop (Z.to_nat cursor) (rows_of (el_log w) sid)) < rounds * Z.to_nat (tc_BatchSize r))%nat →
  ∃ cursor' w', relay_loop r rounds [] sid cursor w = (Running cursor', w') ∧ log_of w' = log_of w ∧
    sent (el_ext w') = sent (el_ext w) ++ drop (Z.to_nat cursor) (rows_of (el_log w) sid) ∧
    Z.to_nat cursor' = (Z.to_nat cursor + length (drop (Z.to_nat cursor) (rows_of (el_log w) sid)))%nat.
Proof.
  intros Hq Hc Ht Hne. pose proof relay_batch as [_ Hb]. revert cursor w.
  induction rounds as [|rounds IH]; intros cursor w Hi Hs Hlen; [lia|].
  destruct (quiet_round rounds sid cursor w) as (cursor1 & w1 & Hl & Hsent & Hr); [done..|].
  cbv zeta in Hr. case_decide as Hd; destruct Hr as [Hr Hcur].
  - assert (El : el_log w1 = el_log w) by (by apply (f_equal t_store) in Hl).
    rewrite length_drop in Hd, Hlen.
    destruct (IH cursor1 w1) as (cursor2 & w2 & E & Hl2 & Hs2 & Hcur2); [by rewrite El..| |].
    { rewrite El, Hcur, length_drop. lia. }
    exists cursor2, w2. rewrite Hr, E. split_and!; [done|by rewrite Hl2| |].
    + rewrite Hs2, Hsent, <-app_assoc, El, Hcur. f_equal. unfold from_cursor. rewrite <-drop_drop. apply take_drop.
    + rewrite Hcur2, Hcur, El, !length_drop. lia.
  - exists cursor1, w1. rewrite Hr. split_and!; [done|done| |done]. rewrite Hsent. f_equal. unfold from_cursor.
    apply take_ge. lia.
Qed.

(** ** The theorems *)

(** [Relay] refuses, or is its loop. *)
Lemma Relay_inv rounds wakes sessionID afterSeq w res w' :
  Relay r rounds wakes sessionID afterSeq w = (res, w') →
  (w' = w ∧ ∃ e, res = Ended e) ∨
  TrimSpace sessionID ≠ "" ∧ relay_loop r rounds wakes (TrimSpace sessionID) afterSeq w = (res, w').
Proof.
  unfold Relay. destruct (negb _); [intros [= <- <-]; left; eauto|]. case_bool_decide; [intros [= <- <-]; left; eauto|].
  destruct (tc_Notifications r) as [subscribe|]; [|by right]. destruct (subscribe _); [intros [= <- <-]; left; eauto|by right].
Qed.

(** C32. A client is sent its events in order.  Whatever producers append meanwhile,
    whatever wakes the relay and whenever the client stops taking events: what it has been sent is the
    events of its session that follow the cursor it came with, in order, without a gap
    and without a repetition, as far as some event; the cursor of a relay that
    goes on is the number of that event, so a client that comes back with it
    is sent what follows.  The relay changes nothing in the log. *)
Theorem relay_sends_in_order rounds wakes sessionID afterSeq w res w' :
  log_reachable (log_of w) → small (el_log w') →
  Relay r rounds wakes sessionID afterSeq w = (res, w') →
  log_future (log_of w) (log_of w') ∧
  ∃ k, let rows := drop (Z.to_nat afterSeq) (rows_of (el_log w') (TrimSpace sessionID)) in
    (k ≤ length rows)%nat ∧ sent (el_ext w') = sent (el_ext w) ++ take k rows ∧
    ∀ c, res = Running c → Z.to_nat c = (Z.to_nat afterSeq + k)%nat.
Proof.
  intros Hi%log_reachable_inv Hs [[-> [e ->]]|[Hne E]]%Relay_inv.
  - split; [done|]. destruct (sent_end w (TrimSpace sessionID) afterSeq e) as (k & Hk). by exists k.
  - split; [by eapply relay_loop_log|]. eapply relay_loop_sent; [apply TrimSpace_idem|done..].
Qed.

(** C33. A relay that is left alone catches up.  If nobody appends and the client
    takes what it is sent, then after as many reads of the log as there are pages of pending
    events, and one more, everything is sent and the relay waits at the end of the log;
    it needs no notification and no tick for that. *)
Theorem relay_catches_up rounds sessionID afterSeq w :
  (∀ w, producers w = (tt, w)) → (∀ e x, (consume e x).1 = None) →
  (∀ subscribe, tc_Notifications r = Some subscribe → subscribe (TrimSpace sessionID) = None) →
  TrimSpace sessionID ≠ "" → log_reachable (log_of w) → small (el_log w) →
  let rows := drop (Z.to_nat afterSeq) (rows_of (el_log w) (TrimSpace sessionID)) in
  Z.of_nat (length rows) / tc_BatchSize r < Z.of_nat rounds →
  ∃ c w', Relay r rounds [] sessionID afterSeq w = (Running c, w') ∧ log_of w' = log_of w ∧
    sent (el_ext w') = sent (el_ext w) ++ rows ∧ Z.to_nat c = (Z.to_nat afterSeq + length rows)%nat.
Proof.
  intros Hq Hc Hsub Hne Hi%log_reachable_inv Hs rows Hr. pose proof relay_batch as [_ Hb].
  destruct (quiet_rounds rounds (TrimSpace sessionID) afterSeq w) as (c & w' & E & Hrest);
    [done|done|apply TrimSpace_idem|done|done|done| |].
  - fold rows. enough (Z.of_nat (length rows) < Z.of_nat rounds * tc_BatchSize r) by lia.
    pose proof (Z.div_mod (Z.of_nat (length rows)) (tc_BatchSize r)). pose proof (Z.mod_pos_bound (Z.of_nat (length rows)) _ Hb). nia.
  - exists c, w'. split; [|done]. rewrite <-E. unfold Relay.
    assert (tc_Store r = true) as ->.
    { revert made. unfold NewTailRelay. destruct (tc_Store config) eqn:Est; [|done]. cbn [negb]. intros [= <-].
      by destruct (tc_PollInterval config <=? 0). }
    cbn [negb]. rewrite bool_decide_eq_false_2 by done. destruct (tc_Notifications r) as [subscribe|]; [|done].
    by rewrite (Hsub _ eq_refl).
Qed.
End relay.

(** ** Notifications *)

(** A notification leaves a signal in every channel of the session until it is
    received, and only there. *)
Lemma notified (h : MemoryNotificationHub) sessionID sid id : id ∈ dom (subscribers_of h sid) →
  (receive sid id (Notify sessionID h)).1 =
    if decide (TrimSpace sessionID = sid) then true else (receive sid id h).1.
Proof.
  intros [b Hb]%elem_of_dom. unfold receive, subscribers_of, Notify in *. cbn [nh_subscribers update_field]. case_decide as E.
  - rewrite E, lookup_alter_eq. destruct (nh_subscribers h !! sid) as [m|]; [|done]. cbn in *.
    by rewrite lookup_fmap, Hb.
  - rewrite lookup_alter_ne by done. by repeat case_match.
Qed.

(** A new channel is empty, and the others keep their signals. *)
Lemma subscribed h sessionID id h' : Subscribe sessionID h = Ok (id, h') →
  (receive (TrimSpace sessionID) id h').1 = false ∧
  ∀ sid id', (sid, id') ≠ (TrimSpace sessionID, id) → (receive sid id' h').1 = (receive sid id' h).1.
Proof.
  unfold Subscribe. case_bool_decide as E; [done|]. intros [= <- <-].
  unfold receive, subscribers_of. cbn [nh_subscribers]. split.
  - by rewrite lookup_insert_eq; cbn; rewrite lookup_insert_eq.
  - intros sid id' Hne. destruct (decide (sid = TrimSpace sessionID)) as [->|Hs].
    + rewrite lookup_insert_eq. cbn. rewrite lookup_insert_ne by congruence. by repeat case_match.
    + rewrite lookup_insert_ne by done. by repeat case_match.
Qed.
