(* ===== verification/EventWitness.v ===== *)
(** * A concrete event log and its relay

    Three events of one session; a client that comes with the number of the
    first one, while a producer appends two more. *)

From Stdlib Require Import ZArith Lia.
From stdpp Require Import relations.
From S2P Require Import Prelude GoJson SessionModels Timed EventLog EventLogProps EventRelay EventRelayProps.
From S2P Require SessionRuns.

Module EventRun.
#[export] Existing Instances SessionRuns.SessionSample.codec SessionRuns.SessionSample.ticking.

Definition event (id source : string) : SessionEvent :=
  zeroSessionEvent <| ev_SessionID := " s" |> <| ev_EventID := id |> <| ev_EventType := "a2ui.action" |>
    <| ev_ProducerKind := ProducerDomainProjector |> <| ev_SourceKey := source |>.

Definition append (v : timed MemoryStore) (e : string * string) : timed MemoryStore :=
  (run_log_command (LAppend (event e.1 e.2)) v).2.
Definition appended (l : list (string * string)) (v : timed MemoryStore) : timed MemoryStore := foldl append v l.

Lemma texts_decode raw : json_Valid raw = true → ∃ v, json_Unmarshal_any raw = Some v.
Proof. intros _. by exists (AStr raw). Qed.

Definition log0 : timed MemoryStore := mkTimed NewMemoryStore 0.
Definition log3 : timed MemoryStore := appended [("e1", "k1"); ("e2", "k2"); ("e3", "k3")] log0.

Lemma log_steps c (v : timed MemoryStore) : log_step v (run_log_command c v).2.
Proof. apply (step_log_command _ c (run_log_command c v).1). by destruct (run_log_command c v). Qed.

Lemma foldl_steps {A S} (R : S → S → Prop) (f : S → A → S) l v : (∀ v a, R v (f v a)) → rtc R v (foldl f v l).
Proof. intros Hf. revert v. induction l as [|a l IH]; intros v; [done|]. cbn. by eapply rtc_l. Qed.

Lemma appended_future l v : log_future v (appended l v).
Proof. apply foldl_steps. intros v' e. apply log_steps. Qed.

Lemma log3_reachable : log_reachable log3.
Proof. exists log0. split; [done|apply appended_future]. Qed.

(** The second event is appended, and two more after it. *)
Definition log1 : timed MemoryStore := appended [("e1", "k1")] log0.
Definition log2 : timed MemoryStore := (AppendSessionEventOnce (event "e2" "k2") log1).2.
Definition log4 : timed MemoryStore := appended [("e3", "k3"); ("e4", "k4")] log2.

Lemma log1_reachable : log_reachable log1.
Proof. exists log0. split; [done|apply appended_future]. Qed.

(** A bound on the length of all sessions, by evaluation. *)
Lemma few (s : MemoryStore) :
  bool_decide (map_Forall (fun _ l => (length l <= 10)%nat) (bySession s)) = true → small s.
Proof.
  intros Hf%bool_decide_eq_true sid. unfold rows_of. destruct (bySession s !! sid) as [l|] eqn:E; cbn; [|done].
  specialize (Hf _ _ E). cbn in Hf. unfold int64_max. lia.
Qed.

(** The client keeps what it takes and hangs up after four events. *)
Definition sent (x : list SessionEvent) : list SessionEvent := x.
#[export] Instance client : Consumer (list SessionEvent) := fun e x =>
  if (length x <? 4)%nat then (None, x ++ [e]) else (Some (Errorf "closed"), x).
Lemma client_records : RecordingConsumer sent.
Proof. intros e x. unfold consume, client, sent. case_match; cbn; [done|by rewrite app_nil_r]. Qed.

(** Somebody appends two more events before every read. *)
#[export] Instance appending : Producers (list SessionEvent) := fun w =>
  let v := appended [("e4", "k4"); ("e5", "k5")] (mkTimed (el_log w) (el_reads w)) in
  (tt, mkEWorld (t_store v) (t_reads v) (el_ext w)).
Lemma others_append : LawfulProducers.
Proof.
  intros w. split; [|done]. unfold producers, appending, log_of. cbn [snd el_log el_reads].
  destruct (appended _ _) as [s n] eqn:E. cbn [t_store t_reads]. rewrite <-E. apply appended_future.
Qed.

Definition world_of (v : timed MemoryStore) : eworld (list SessionEvent) := mkEWorld (t_store v) (t_reads v) [].
Lemma log_of_world v : log_of (world_of v) = v.
Proof. by destruct v. Qed.
Definition world : eworld (list SessionEvent) := world_of log3.
Lemma reachable_world : log_reachable (log_of world).
Proof. unfold world. rewrite log_of_world. exact log3_reachable. Qed.
Definition config : TailRelayConfig := mkTailRelayConfig true (Some (fun _ => None)) 0 2.
Definition relay : TailRelayConfig := config <| tc_PollInterval := second |>.
Lemma relay_made : NewTailRelay config = Ok relay.
Proof. reflexivity. Qed.

Definition after : eworld (list SessionEvent) := (Relay relay 5 [WakeTick; WakeNotified] "s " 1 world).2.
Example four_more : ev_EventID <$> el_ext after = ["e2"; "e3"; "e4"; "e5"].
Proof. vm_compute. reflexivity. Qed.

(** A world that is left alone. *)
Module Quiet.
Definition patient : Consumer (list SessionEvent) := fun e x => (None, x ++ [e]).
Definition nobody : Producers (list SessionEvent) := ret tt.
Lemma patient_records : @RecordingConsumer _ patient sent.
Proof. intros e x. done. Qed.
End Quiet.
End EventRun.

#[local] Existing Instances SessionRuns.SessionSample.codec SessionRuns.SessionSample.ticking
  EventRun.client EventRun.appending.

Lemma log_is_numbered_and_paged_witness :
  ev_Seq <$> rows_of (t_store EventRun.log3) "s" = [1; 2; 3] ∧
  Tail "s" (mkTailOptions 1 1) EventRun.log3 = (Ok (take 1 (drop 1 (rows_of (t_store EventRun.log3) "s"))), EventRun.log3).
Proof.
  destruct (log_is_numbered_and_paged EventRun.log3 "s" EventRun.log3_reachable) as (E & _ & _ & _ & Ht).
  { apply EventRun.few. vm_compute. reflexivity. }
  split; [rewrite E; vm_compute; reflexivity|]. apply (Ht "s" (mkTailOptions 1 1)); [vm_compute; reflexivity|done].
Defined.

Lemma event_is_appended_once_witness :
  ∃ e, AppendSessionEventOnce (EventRun.event "e2 " "k2") EventRun.log4 = (Ok (mkAppendResult e false), EventRun.log4) ∧
  ∃ err, AppendSessionEventOnce (EventRun.event "e9" "k2") EventRun.log4 = (Err err, EventRun.log4).
Proof.
  destruct (answered (AppendSessionEventOnce (EventRun.event "e2" "k2") EventRun.log1)
    (fun r => bool_decide (ev_EventID (al_Event r) = "e2")
              && bool_decide (sourceIdentity (al_Event r) = "s" +:+ nul +:+ "domain_projector" +:+ nul +:+ "k2" +:+ nul +:+ "0")))
    as (r & E & [Hid%bool_decide_eq_true Hsrc%bool_decide_eq_true]%andb_prop); [vm_compute; reflexivity|].
  destruct (normalizeEvent (EventRun.event "e2" "k2")) as [n|e] eqn:En; [|vm_compute in En; discriminate En].
  destruct (normalizeEvent (EventRun.event "e9" "k2")) as [n'|e] eqn:En'; [|vm_compute in En'; discriminate En'].
  destruct (event_is_appended_once EventRun.texts_decode EventRun.log1 EventRun.log2 EventRun.log4
    (EventRun.event "e2" "k2") n r EventRun.log1_reachable En E (EventRun.appended_future _ _)) as (_ & _ & Hsame & Hother).
  exists (al_Event r). split.
  - apply (Hsame (EventRun.event "e2 " "k2")). etrans; [|exact En]. vm_compute. reflexivity.
  - assert (Hn : bool_decide (ev_EventID n' = "e9")
      && bool_decide (sourceIdentity n' = "s" +:+ nul +:+ "domain_projector" +:+ nul +:+ "k2" +:+ nul +:+ "0") = true)
      by (vm_compute in En'; injection En' as <-; vm_compute; reflexivity).
    apply andb_prop in Hn as [Hid'%bool_decide_eq_true Hsrc'%bool_decide_eq_true].
    destruct (Hother (EventRun.event "e9" "k2") n' En') as (err & Herr & _).
    + destruct (sameIdentity (al_Event r) n') eqn:Es; [|done]. apply sameIdentity_source in Es as [_ Es]. congruence.
    + right. congruence.
    + by exists err.
Defined.

Lemma relay_sends_in_order_witness :
  ∃ k, EventRun.sent (el_ext EventRun.after) = EventRun.sent (el_ext EventRun.world)
    ++ take k (drop (Z.to_nat 1) (rows_of (el_log EventRun.after) (TrimSpace "s "))).
Proof.
  assert (E : Relay EventRun.relay 5 [WakeTick; WakeNotified] "s " 1 EventRun.world
    = ((Relay EventRun.relay 5 [WakeTick; WakeNotified] "s " 1 EventRun.world).1, EventRun.after)).
  { unfold EventRun.after. by destruct (Relay _ _ _ _ _ _). }
  pose proof EventRun.others_append as Hb. pose proof EventRun.client_records as Hc.
  assert (Hs : small (el_log EventRun.after)) by (apply EventRun.few; vm_compute; reflexivity).
  destruct (relay_sends_in_order EventRun.sent EventRun.relay EventRun.config EventRun.relay_made 5
    [WakeTick; WakeNotified] "s " 1 EventRun.world _ _ EventRun.reachable_world Hs E) as (_ & k & _ & Hk & _).
  exists k. exact Hk.
Defined.

Lemma relay_catches_up_witness :
  ∃ c w', @Relay _ EventRun.Quiet.nobody EventRun.Quiet.patient EventRun.relay 2 [] "s" 1 EventRun.world
      = (Running c, w') ∧ ev_EventID <$> el_ext w' = ["e2"; "e3"].
Proof.
  destruct (@relay_catches_up _ _ _ EventRun.Quiet.nobody EventRun.Quiet.patient EventRun.sent
    EventRun.Quiet.patient_records EventRun.relay EventRun.config EventRun.relay_made
    2 "s" 1 EventRun.world) as (c & w' & E & _ & Hs & _).
  - done.
  - done.
  - by intros subscribe [= <-].
  - vm_compute. discriminate.
  - exact EventRun.reachable_world.
  - apply EventRun.few. vm_compute. reflexivity.
  - vm_compute. reflexivity.
  - exists c, w'. split; [exact E|]. unfold EventRun.sent in Hs. rewrite Hs. vm_compute. reflexivity.
Defined.
